(* ===== verification/_CoqProject ===== *)
-Q . S2P
Prelude.v
CString.v
Loop.v
Radix.v
RadixMap.v
RadixLookup.v
RadixInsert.v
RadixThms.v
PathNorm.v
Request.v
RequestThms.v
Router.v
RouterThms.v
Inspect.v
Vhost.v
Proxy.v
ProxyThms.v
Conn.v
Tls.v
TlsCtx.v
Pico.v
PicoThms.v
Chunked.v
Response.v
ResponseThms.v
Http1.v
Http1Thms.v
PicoResponse.v
Cookie.v
Ctx.v
CtxThms.v
Sse.v
Auth.v
Middleware.v
Nested.v
Group.v
Policy.v
Dates.v
Static.v
StaticThms.v
Multipart.v
Doubles.v
Compress.v
Ratelimit.v
Stream.v
Http2.v
Http2Thms.v
Quic.v
Http3.v
Http3Thms.v
WebSocket.v
Buffer.v
LoopBuf.v
Health.v
HealthJson.v
Server.v
ServerThms.v
ServerRun.v
ServerRequest.v
ServerEnd.v
Memory.v
