(* ===== verification/Prelude.v ===== *)
(** * Verification of the iohttp HTTP server library

    iohttp is an embedded HTTP server in C on io_uring.  The event loop hands
    completions to the server core.  A connection taken from a pool receives bytes,
    possibly preceded by a PROXY protocol header and protected by TLS; the HTTP/1.1
    layer delimits and checks a request with picohttpparser and fills a request
    record (HTTP/2 and HTTP/3 sessions fill one per stream); the router normalizes
    the path and asks one radix tree per method for a match; the middleware chain
    runs around the matched handler, which reads the request through the accessors
    and a per-request context and builds a response; the serializer writes it and
    the core sends it, keeps the connection or closes it.  This library models those
    parts as functions on byte strings, records and sums, and proves what each
    promises.

    ** Conventions

    - A pointer into a buffer is the list of bytes from the pointed-to byte to the
      end of the object; an offset is [drop], and a pointer/length pair keeps the
      length beside the list, which may go on past it.  [CString] models the C
      library's string functions on such lists.  Where objects are moved or shared
      (arenas, stream objects, response bodies, the connection pool), a pointer is an
      address in an explicit store.
    - A call that returns a negative [errno] is a [res]; a store out of bounds, a use
      of a null, dangling or freed pointer is [None].  Integers of fixed width are [Z]
      with the wrap-around written out ([u16], [u32], [u64]); counts that index lists
      are [nat].
    - Allocation outcomes are an argument: a [heap] is the list of results of the
      coming allocations, all successful once it is used up.
    - Loops that are not structural take fuel.  Parsers are bounded by the bytes left
      (every turn consumes one, or two turns do for the chunked decoder), doubling
      loops by the 64 bits of a size, list walks by the number of objects, the drain
      loop by its time limit; the theorems are about the functions with that fuel and
      show that it is never used up.  The output loops of HTTP/2 and QUIC run as long
      as the library has output: their fuel is an argument and the theorems ask for
      more turns than the library has packets.  Nested middleware chains ([Nested]) and
      releases ([Memory]) are shown to end: from some fuel on the result is given.
    - Nullable arguments are options.  A null pointer to the object itself, which
      every call answers with [-EINVAL], is modelled where other code relies on it.
    - Code outside the repository is a parameter: a function argument ([inet_pton],
      clocks, the file system, callbacks, zlib, brotli, SHA-1) or a class of
      operations with its documented behaviour as laws (wolfSSL in [Tls], nghttp2 in
      [Http2], ngtcp2 in [Quic], nghttp3 in [Http3], wslay in [WebSocket], liburing's
      buffer rings in [Buffer], wolfSSL's contexts in [TlsCtx], yyjson in [HealthJson], the
      release functions in [Memory]).  A library that calls back is a program of callbacks
      ([ng_prog], [q_prog], [h3_prog], [ws_prog]) that a driver interprets.  Witnesses
      instantiate each of them.

    ** Files, sources and theorems

    Foundations
    - [Prelude]: this header, results, machine integers, bytes, allocation, decimal
      printing, tactics, the hint database [iohttp] and shared lemmas.
    - [CString]: the C string functions.  [Dates]: [gmtime_r], [strftime] and
      [strptime] for HTTP dates, which read back.  [Doubles]: binary64 arithmetic.

    Routing
    - [Radix] (router/ioh_radix.c, ioh_route_meta.c): the compressed trie with
      insertion, splitting and backtracking lookup, and the class [RouteTable], what
      a router needs of a route table.  [RadixMap] relates a tree to the finite map
      of registered keys, [RadixLookup] to the list of all matches in precedence
      order; [RadixInsert] proves the update of the map; [RadixThms]: insertion
      refines map update, lookup is the first match, is sound and finds what was
      registered; it discharges [RouteTable].
    - [PathNorm] (ioh_path_normalize): normalization is the resolution of the path's
      segments and its results are canonical.
    - [Router], [RouterThms] (router/ioh_router.c): registration and dispatch over
      any [RouteTable]: refused paths, a route reached only where its canonical path
      reaches it, automatic HEAD and 405, served routes.  [Group] (ioh_route_group.c), [Vhost]
      (ioh_vhost.c), [Inspect] (ioh_route_inspect.c): groups are prefixes, hosts are
      matched exactly before wildcards, walking reports every route once.

    Requests and responses
    - [Request], [RequestThms] (http/ioh_request.c): methods, header, cookie, query
      and parameter lookup, typed parameters, content negotiation.
    - [Proxy], [ProxyThms] (http/ioh_proxy_proto.c): PROXY v1 and v2: round trip,
      stability under more input.
    - [Pico], [PicoThms], [Chunked] (http/picohttpparser.c): the request parser of
      both builds, their equality, incremental parsing, round trip; chunked bodies:
      round trip, independence of how the input is cut.
    - [Response], [ResponseThms] (http/ioh_response.c): the header list as a
      multimap, the Vary list, bodies; no sequence of calls writes out of bounds.
    - [Http1], [Http1Thms] (http/ioh_http1.c): exactly the unambiguous requests are
      accepted, rendered requests come back, serialization is exact.
    - [PicoResponse] (http/picohttpparser.c): the parsers of responses and header
      blocks; what [Http1] serializes, the parser reads back.
    - [Cookie] (ioh_cookie.c), [Multipart] (ioh_multipart.c), [Sse] (ws/ioh_sse.c):
      the Set-Cookie text, multipart bodies (but for a content type in a part's last
      header line) and event streams read back.
    - [Ctx], [CtxThms] (core/ioh_ctx.c): request values refine a map, arena blocks are
      disjoint.
    - [Auth], [Middleware], [Policy] (CORS, security headers, Alt-Svc), [Ratelimit]
      (middleware/*.c, http/ioh_alt_svc.c): Basic authentication decides on the decoded
      credentials, the chain is an onion, CORS decides by origin, the hash table of
      buckets refines one bucket per key.  [Nested]: chains executed inside chains, with
      the thread-local pointer, stand for their own results.
    - [Static], [StaticThms], [Compress] (static/*.c): files are served only from
      below the root, ranges are exact, a tag or date the server gave revalidates;
      the fallback of single-page applications; the coding with the highest weight is
      chosen and compression loses nothing.

    Multiplexed protocols
    - [Stream]: what ioh_http2.c and ioh_http3.c do alike per stream: the header arena
      that [realloc] may move, the request that points into it, the body, the header
      block of a response.
    - [Http2], [Http2Thms] (http/ioh_http2.c): for every behaviour of nghttp2 that
      follows its documentation no session uses a freed object, walks a broken list
      or leaves one behind; the callbacks refine a map from stream to plain request;
      bodies are delivered whole; too many resets end the connection.
    - [Quic] (http/ioh_quic.c): a flush gives the library's packets in order.
    - [Http3], [Http3Thms] (http/ioh_http3.c): the callbacks refine the same map.
    - [WebSocket] (ws/ioh_websocket.c): the opening handshake, the context over wslay.

    The running server
    - [Conn] (core/ioh_conn.c): the connection state machine as a relation, its
      termination, the pool's accounting over all reachable pools.
    - [Loop] (core/ioh_loop.c): timers and completions.  [Tls], [TlsCtx]
      (tls/ioh_tls.c): the cipher buffers are queues, a context enforces its
      configuration and no failure leaks one.  [Buffer] (core/ioh_buffer.c), [LoopBuf]
      (ioh_loop.c): provided buffers form a queue whatever the 16-bit counters do, for
      every holder of a ring ([RingHolder]); file slots and registrations.
    - [Health] (core/ioh_health.c, ioh_log.c): the liveness report reads back; level
      filter and sinks.  [HealthJson]: the build with yyjson answers alike.
    - [Server] (core/ioh_server.c): configuration, listening, accept, receive, dispatch,
      send, close, timeouts, signals, shutdown, over the queues shared with the kernel.
      [ServerThms]: whatever completions arrive, a turn keeps the invariant and uses
      nothing out of bounds.  [ServerRequest]: a request is answered alike however its
      bytes are cut, an answer goes out whole however the sends are cut, when the queue is
      submitted before each completion as the loop does.  [ServerRun]: both shutdown
      modes close everything and return.  [ServerEnd]: the components put together, from
      the pieces in which a request arrives to what the client's parser reads: a routed
      request is answered by its handler inside the middleware, one for an unknown path
      gets a 404.
    - [Memory] (the destroy functions of router/*.c, ioh_conn.c, ioh_tls.c, ioh_quic.c): on
      a memory of addresses, each block of a structure is freed exactly once.

    Theorems and examples that document a defect of the code (a slash that the trie
    does not store, a node damaged by an allocation failure, numbers that wrap, a
    value that runs on past its end, an arena that moves under its pointers, packets
    that are dropped by the next flush, buffers whose remaining size wraps, ...) stand
    beside the properties of their component.

    ** Not modelled

    Every component of the sources has its operations modelled.  What is left out, and
    why:
    - The getters [ioh_server_loop] and [ioh_loop_ring], which hand out pointers to
      objects that are part of the records here, and the log lines of the server.
    - The construction of tries and groups on [Memory]'s addresses: [Radix] and [Group]
      build them as values; [Memory] shows that every trie has a layout and releases
      any layout.
    - [ServerEnd] follows plain connections; over TLS the same steps run on what
      [Tls] decrypts, and wolfSSL's records are not interpreted.
    - Numbers of [int] size that count bytes of a buffer are not wrapped: the buffers
      involved are far below 2^31 bytes.  Interleavings with other threads: the server
      runs its connections on one thread. *)
From Stdlib Require Export ZArith Lia.
From Stdlib Require Export Strings.Byte.
From Stdlib Require Strings.String.
From stdpp Require Export base option numbers sets list sorting countable.
From stdpp Require Export strings.

#[export] Set Warnings "-register-all,-level-tolerance".

(** ** Results and error codes *)

(** The [errno] values the modelled sources return, as [-E...]. *)
Inductive errno :=
| EINVAL | ENOENT | ENOMEM | EEXIST | ENOSPC | EAGAIN | E2BIG | ERANGE
| EBADF | EALREADY | EBUSY | EIO | EACCES | ENAMETOOLONG
| ECONNRESET | ETIMEDOUT.

(** Linux numbering, used where the C code returns the code as an [int]. *)
Definition errno_code (e : errno) : Z :=
  match e with
  | ENOENT => 2 | EIO => 5 | E2BIG => 7 | EBADF => 9 | EAGAIN => 11 | ENOMEM => 12
  | EACCES => 13 | EBUSY => 16 | EEXIST => 17 | EINVAL => 22 | ENOSPC => 28 | ERANGE => 34
  | ENAMETOOLONG => 36 | ECONNRESET => 104 | ETIMEDOUT => 110
  | EALREADY => 114
  end.

(** A fallible C call: the non-negative result, or the error it returns. *)
Inductive res (A : Type) :=
| Ok (a : A)
| Err (e : errno).
Arguments Ok {A} a.
Arguments Err {A} e.

#[export] Instance res_ret : MRet res := fun _ a => Ok a.
#[export] Instance res_bind : MBind res :=
  fun _ _ f m => match m with Ok a => f a | Err e => Err e end.

(** The C [int] a call with an integer result returns. *)
Definition rc_int (r : res Z) : Z :=
  match r with Ok n => n | Err e => - errno_code e end.

#[export] Instance errno_eq_dec : EqDecision errno.
Proof. solve_decision. Defined.

#[export] Instance res_eq_dec {A} `{EqDecision A} : EqDecision (res A).
Proof. solve_decision. Defined.

Definition is_ok {A} (r : res A) : bool := match r with Ok _ => true | Err _ => false end.

(** ** Machine integers *)

(** Unsigned wrap-around of [uint32_t] and of [size_t]/[uint64_t]. *)
Definition u32 (z : Z) : Z := z mod 2 ^ 32.
Definition u64 (z : Z) : Z := z mod 2 ^ 64.

(** ** Bytes *)

Abbreviation byte := Byte.byte.
Abbreviation bytes := (list Byte.byte).

#[export] Instance byte_eq_dec_inst : EqDecision byte := Byte.byte_eq_dec.

#[export] Instance byte_countable : Countable byte.
Proof.
  refine (inj_countable Byte.to_N Byte.of_N _). intros b. apply Byte.of_to_N.
Defined.

(** The value of an [unsigned char]. *)
Definition b2z (b : byte) : Z := Z.of_N (Byte.to_N b).

Definition beq (a b : byte) : bool := bool_decide (a = b).

(** A C string literal, without its terminating NUL. *)
Definition bs (s : string) : bytes := Strings.String.list_byte_of_string s.
Arguments bs s%_string.

Definition NUL : byte := x00.
Definition HT : byte := x09.
Definition LF : byte := x0a.
Definition CR : byte := x0d.
Definition SP : byte := x20.
Definition DQUOTE : byte := x22.
Definition SLASH : byte := x2f.

Declare Scope iohttp_scope.
Delimit Scope iohttp_scope with ioh.
Notation "a =b b" := (beq a b) (at level 70) : iohttp_scope.
Open Scope iohttp_scope.

(** Equality test of byte strings ([memcmp(..) == 0] on equal lengths). *)
Definition bytes_eqb (a b : bytes) : bool := bool_decide (a = b).

(** ** The allocator *)

(** The outcome of successive [malloc]/[calloc]/[realloc]/[strdup] calls: a
    [false] makes the next allocation fail; when the list is used up, every
    further allocation succeeds. *)
Abbreviation heap := (list bool).

Definition xalloc (h : heap) : bool * heap :=
  match h with
  | [] => (true, [])
  | ok :: h' => (ok, h')
  end.

(** ** Scanning *)

(** The longest prefix whose bytes all satisfy [p], and what follows it. *)
Fixpoint span (p : byte -> bool) (l : bytes) : bytes * bytes :=
  match l with
  | [] => ([], [])
  | b :: l' => if p b then let '(x, y) := span p l' in (b :: x, y) else ([], l)
  end.

Definition not_slash (b : byte) : bool := negb (b =b SLASH).

(** Decimal digits. *)
Definition is_digit (b : byte) : bool := ((48 <=? b2z b) && (b2z b <=? 57))%Z.
Definition digit_val (b : byte) : Z := (b2z b - 48)%Z.
Definition digit_byte (d : Z) : byte :=
  default x30 (Byte.of_N (Z.to_N (48 + d))).

(** [printf]'s [%u]: the decimal digits of [n], most significant first.  The
    fuel bounds the number of digits; [print_dec] gives enough for any [n]. *)
Fixpoint print_dec_aux (fuel : nat) (n : Z) : bytes :=
  match fuel with
  | O => []
  | S f => if (n <? 10)%Z then [digit_byte n]
           else print_dec_aux f (n / 10)%Z ++ [digit_byte (n mod 10)%Z]
  end.
Definition print_dec (n : Z) : bytes := print_dec_aux (S (Z.to_nat (Z.log2 n))) n.

(** The value of a digit string. *)
Definition dec_val (acc : Z) (l : bytes) : Z :=
  fold_left (fun r b => r * 10 + digit_val b)%Z l acc.

(** ** Automation *)

Create HintDb iohttp.

(** Case analysis on the outermost [match] or [if] of a hypothesis or goal. *)
Ltac brk :=
  match goal with
  | H : context [match ?x with _ => _ end] |- _ =>
      lazymatch x with context [match _ with _ => _ end] => fail | _ => destruct x eqn:? end
  | |- context [match ?x with _ => _ end] =>
      lazymatch x with context [match _ with _ => _ end] => fail | _ => destruct x eqn:? end
  end.

(** [brk] restricted to the hypothesis [H]. *)
Ltac brk_in H :=
  match type of H with
  | context [match ?x with _ => _ end] =>
      lazymatch x with context [match _ with _ => _ end] => fail | _ => destruct x eqn:? end
  end.

(** Turn boolean tests of the code into the propositions they decide. *)
Ltac bprop :=
  repeat match goal with
  | H : (_ && _)%bool = true |- _ => apply andb_prop in H as [? ?]
  | H : (_ || _)%bool = false |- _ => apply orb_false_elim in H as [? ?]
  | H : negb _ = true |- _ => apply negb_true_iff in H
  | H : negb _ = false |- _ => apply negb_false_iff in H
  | H : beq _ _ = true |- _ => apply bool_decide_eq_true in H
  | H : beq _ _ = false |- _ => apply bool_decide_eq_false in H
  | H : bytes_eqb _ _ = true |- _ => apply bool_decide_eq_true in H
  | H : bytes_eqb _ _ = false |- _ => apply bool_decide_eq_false in H
  | H : bool_decide _ = true |- _ => apply bool_decide_eq_true in H
  | H : bool_decide _ = false |- _ => apply bool_decide_eq_false in H
  | H : Nat.eqb _ _ = true |- _ => apply Nat.eqb_eq in H
  | H : Nat.eqb _ _ = false |- _ => apply Nat.eqb_neq in H
  | H : Nat.leb _ _ = true |- _ => apply Nat.leb_le in H
  | H : Nat.leb _ _ = false |- _ => apply Nat.leb_gt in H
  | H : Nat.ltb _ _ = true |- _ => apply Nat.ltb_lt in H
  | H : Nat.ltb _ _ = false |- _ => apply Nat.ltb_ge in H
  | H : Z.eqb _ _ = true |- _ => apply Z.eqb_eq in H
  | H : Z.eqb _ _ = false |- _ => apply Z.eqb_neq in H
  | H : Z.leb _ _ = true |- _ => apply Z.leb_le in H
  | H : Z.leb _ _ = false |- _ => apply Z.leb_gt in H
  | H : Z.ltb _ _ = true |- _ => apply Z.ltb_lt in H
  | H : Z.ltb _ _ = false |- _ => apply Z.ltb_ge in H
  end.

(** Linear arithmetic with quotients and remainders by constants. *)
Ltac zdiv := Z.to_euclidean_division_equations; lia.

(** [lia] on lengths: rewrite the length of every appended, cut or mapped list. *)
#[export] Hint Rewrite @length_app @length_take @length_drop @length_insert @length_fmap : iolen.
Ltac llia := autorewrite with iolen; simpl; lia.

(** Replace a test on [nat] that [lia] refutes by its value. *)
Tactic Notation "test_false" open_constr(t) :=
  replace t with false by (symmetry; first [apply Nat.eqb_neq|apply Nat.leb_gt|apply Nat.ltb_ge]; lia).

(** Decide a closed comparison of numerals by evaluation. *)
Ltac nle := first [apply Nat.leb_le|apply Nat.ltb_lt]; vm_compute; reflexivity.

(** Decide a closed proposition by evaluation. *)
Ltac bcompute := apply (bool_decide_unpack _); vm_compute; exact I.

(** ** Lemmas on integers and bytes *)

Lemma u32_range z : (0 <= u32 z < 2 ^ 32)%Z.
Proof. apply Z.mod_pos_bound. lia. Qed.

Lemma u64_range z : (0 <= u64 z < 2 ^ 64)%Z.
Proof. apply Z.mod_pos_bound. lia. Qed.

Lemma u32_small z : (0 <= z < 2 ^ 32)%Z -> u32 z = z.
Proof. apply Z.mod_small. Qed.

Lemma u64_small z : (0 <= z < 2 ^ 64)%Z -> u64 z = z.
Proof. apply Z.mod_small. Qed.

Lemma b2z_range b : (0 <= b2z b < 256)%Z.
Proof. unfold b2z. pose proof (Byte.to_N_bounded b). lia. Qed.

Lemma b2z_inj a b : b2z a = b2z b -> a = b.
Proof.
  unfold b2z. intros E%N2Z.inj.
  pose proof (Byte.of_to_N a) as Ha. rewrite E, Byte.of_to_N in Ha. congruence.
Qed.

Lemma beq_refl a : (a =b a) = true.
Proof. by apply bool_decide_eq_true. Qed.

Lemma beq_true a b : (a =b b) = true <-> a = b.
Proof. apply bool_decide_eq_true. Qed.

Lemma beq_false a b : (a =b b) = false <-> a ≠ b.
Proof. apply bool_decide_eq_false. Qed.

Lemma bytes_eqb_true a b : bytes_eqb a b = true <-> a = b.
Proof. apply bool_decide_eq_true. Qed.

Lemma bytes_eqb_refl a : bytes_eqb a a = true.
Proof. by apply bool_decide_eq_true. Qed.

Lemma not_slash_true b : not_slash b = true <-> b ≠ SLASH.
Proof. unfold not_slash. rewrite negb_true_iff. apply beq_false. Qed.

Lemma not_slash_false b : not_slash b = false <-> b = SLASH.
Proof. unfold not_slash. rewrite negb_false_iff. apply beq_true. Qed.

Lemma digit_byte_val d : (0 <= d <= 9)%Z -> b2z (digit_byte d) = (48 + d)%Z.
Proof.
  intros Hd. unfold digit_byte, b2z.
  destruct (Byte.of_N (Z.to_N (48 + d))) as [b|] eqn:E; simpl.
  - apply Byte.to_of_N in E. rewrite E. lia.
  - apply Byte.of_N_None_iff in E. lia.
Qed.

Lemma is_digit_digit_byte d : (0 <= d <= 9)%Z -> is_digit (digit_byte d) = true.
Proof. intros Hd. unfold is_digit. rewrite digit_byte_val by done. lia. Qed.

Lemma digit_val_digit_byte d : (0 <= d <= 9)%Z -> digit_val (digit_byte d) = d.
Proof. intros Hd. unfold digit_val. rewrite digit_byte_val by done. lia. Qed.

(** ** Lemmas on scanning *)

Lemma span_eq p l : fst (span p l) ++ snd (span p l) = l.
Proof.
  induction l as [|b l IH]; [done|]. simpl.
  destruct (p b); [|done]. destruct (span p l). simpl in *. by rewrite IH.
Qed.

Lemma span_fst p l : Forall (fun b => p b = true) (fst (span p l)).
Proof.
  induction l as [|b l IH]; simpl; [by constructor|].
  destruct (p b) eqn:E; [|by constructor].
  destruct (span p l). simpl in *. by constructor.
Qed.

Lemma span_snd p l b r : snd (span p l) = b :: r -> p b = false.
Proof.
  revert b r. induction l as [|c l IH]; simpl; intros b r; [done|].
  destruct (p c) eqn:E.
  - destruct (span p l) eqn:Es. simpl in *. apply IH.
  - simpl. congruence.
Qed.

(** [span] stops exactly at the first byte that fails the test. *)
Lemma span_app p a b :
  Forall (fun x => p x = true) a ->
  match b with [] => True | c :: _ => p c = false end ->
  span p (a ++ b) = (a, b).
Proof.
  intros Ha Hb. induction Ha as [|x a Hx Ha IH]; simpl.
  - destruct b as [|c b]; [done|]. simpl. by rewrite Hb.
  - by rewrite Hx, IH.
Qed.

Lemma span_len p l : length (fst (span p l)) ≤ length l.
Proof.
  rewrite <- (span_eq p l) at 2. rewrite length_app. lia.
Qed.

Lemma span_snd_drop p l : snd (span p l) = drop (length (fst (span p l))) l.
Proof.
  rewrite <- (span_eq p l) at 3. by rewrite drop_app_length.
Qed.

Lemma span_fst_take p l : fst (span p l) = take (length (fst (span p l))) l.
Proof.
  rewrite <- (span_eq p l) at 3. by rewrite take_app_length.
Qed.

(** ** Decimal printing and reading *)

Lemma dec_val_app acc a b : dec_val acc (a ++ b) = dec_val (dec_val acc a) b.
Proof. apply fold_left_app. Qed.

Lemma print_dec_aux_spec f n :
  (0 <= n < 10 ^ Z.of_nat f)%Z ->
  dec_val 0 (print_dec_aux f n) = n
  /\ Forall (fun b => is_digit b = true) (print_dec_aux f n)
  /\ (0 < f -> 0 < length (print_dec_aux f n)).
Proof.
  revert n. induction f as [|f IH]; intros n Hn; simpl.
  - rewrite Z.pow_0_r in Hn. split; [lia|]. split; [by constructor|lia].
  - rewrite Nat2Z.inj_succ, Z.pow_succ_r in Hn by lia.
    destruct (n <? 10)%Z eqn:E; bprop.
    + split; [|split; [|simpl; lia]].
      * simpl. rewrite digit_val_digit_byte; lia.
      * constructor; [apply is_digit_digit_byte; lia|constructor].
    + assert (Hq : (0 <= n / 10 < 10 ^ Z.of_nat f)%Z).
      { split; [apply Z.div_pos; lia|]. apply Z.div_lt_upper_bound; lia. }
      pose proof (Z.mod_pos_bound n 10 ltac:(lia)) as Hm.
      destruct (IH _ Hq) as (IHv & IHd & _).
      split; [|split; [|rewrite length_app; simpl; lia]].
      * rewrite dec_val_app, IHv. simpl. rewrite digit_val_digit_byte by lia.
        pose proof (Z.div_mod n 10). lia.
      * apply Forall_app; split; [done|].
        constructor; [apply is_digit_digit_byte; lia|constructor].
Qed.

Lemma print_dec_fuel n : (0 <= n)%Z -> (n < 10 ^ Z.of_nat (S (Z.to_nat (Z.log2 n))))%Z.
Proof.
  intros Hn. destruct (decide (n = 0%Z)) as [->|Hz]; [done|].
  pose proof (Z.log2_spec n ltac:(lia)) as [_ Hs].
  pose proof (Z.log2_nonneg n).
  rewrite Nat2Z.inj_succ, Z2Nat.id by done.
  eapply Z.lt_le_trans; [exact Hs|]. apply Z.pow_le_mono_l. lia.
Qed.

(** Reading back what [%u] printed gives the number. *)
Lemma dec_val_print_dec n : (0 <= n)%Z -> dec_val 0 (print_dec n) = n.
Proof. intros Hn. apply print_dec_aux_spec. split; [done|]. by apply print_dec_fuel. Qed.

Lemma print_dec_digits n : (0 <= n)%Z -> Forall (fun b => is_digit b = true) (print_dec n).
Proof. intros Hn. apply print_dec_aux_spec. split; [done|]. by apply print_dec_fuel. Qed.

Lemma print_dec_nonempty n : (0 <= n)%Z -> 0 < length (print_dec n).
Proof. intros Hn. apply print_dec_aux_spec; [|lia]. split; [done|]. by apply print_dec_fuel. Qed.

(** A number below [10 ^ k] has at most [k] digits. *)
Lemma print_dec_length n k : (0 <= n < 10 ^ Z.of_nat k)%Z -> 0 < k -> length (print_dec n) ≤ k.
Proof.
  unfold print_dec. generalize (S (Z.to_nat (Z.log2 n))). intros f. revert n k.
  induction f as [|f IH]; intros n k Hn Hk; simpl; [lia|].
  destruct (n <? 10)%Z eqn:E; simpl; [lia|]. apply Z.ltb_ge in E. rewrite length_app. simpl.
  destruct k as [|[|k]]; [lia|simpl in Hn; lia|]. rewrite Nat2Z.inj_succ, Z.pow_succ_r in Hn by lia.
  assert (0 <= n / 10 < 10 ^ Z.of_nat (S k))%Z by (split; [apply Z.div_pos; lia|apply Z.div_lt_upper_bound; lia]).
  specialize (IH (n / 10)%Z (S k)). lia.
Qed.

#[export] Hint Resolve u32_range u64_range b2z_range beq_refl bytes_eqb_refl : iohttp.
