(* ===== verification/CString.v ===== *)
(** The C library's string functions as the modelled sources use them.

    A pointer into a readable object is the list of bytes from the pointed-to
    byte to the end of the object, so [p + i] is [drop i p] and [p[i]] is
    [p !! i].  The functions that stop at a NUL byte treat the end of the
    object as one: a terminated string argument can therefore be given with or
    without its terminator. *)
From S2P Require Import Prelude.

(** [p[i]], reading a NUL at the end of the object. *)
Definition char_at (p : bytes) (i : nat) : byte := default NUL (p !! i).

Definition not_nul (b : byte) : bool := negb (b =b NUL).

(** The characters of the string [p] points to. *)
Definition c_str (p : bytes) : bytes := fst (span not_nul p).

Definition strlen (p : bytes) : nat := length (c_str p).

Definition strnlen (p : bytes) (n : nat) : nat := Nat.min (strlen p) n.

(** [strdup]/[strndup]: the copied characters. *)
Definition strndup (p : bytes) (n : nat) : bytes := take n (c_str p).

(** [strcmp(a, b) < 0]: unsigned lexicographic order. *)
Fixpoint strcmp_lt (a b : bytes) : bool :=
  match a, b with
  | _, [] => false
  | [], _ :: _ => true
  | x :: a', y :: b' =>
      if (b2z x <? b2z y)%Z then true
      else if (b2z y <? b2z x)%Z then false else strcmp_lt a' b'
  end.

(** [strcmp(a, b) == 0]. *)
Definition strcmp_eq (a b : bytes) : bool := bytes_eqb (c_str a) (c_str b).

(** [strncmp(a, b, n) == 0]. *)
Definition strncmp_eq (a b : bytes) (n : nat) : bool :=
  bytes_eqb (strndup a n) (strndup b n).

(** [memcmp(a, b, n) == 0]. *)
Definition memcmp_eq (a b : bytes) (n : nat) : bool := bytes_eqb (take n a) (take n b).

(** ASCII [tolower]. *)
Definition to_lower (b : byte) : byte :=
  if ((65 <=? b2z b) && (b2z b <=? 90))%Z
  then default b (Byte.of_N (Z.to_N (b2z b + 32))) else b.

(** [strncasecmp(a, b, n) == 0]. *)
Definition strncasecmp_eq (a b : bytes) (n : nat) : bool :=
  bytes_eqb (to_lower <$> strndup a n) (to_lower <$> strndup b n).

(** [strcasecmp(a, b) == 0]. *)
Definition strcasecmp_eq (a b : bytes) : bool :=
  bytes_eqb (to_lower <$> c_str a) (to_lower <$> c_str b).

(** [memchr(p, c, n)]: the offset of the first [c] among the first [n] bytes. *)
Fixpoint memchr (p : bytes) (c : byte) (n : nat) : option nat :=
  match n, p with
  | S n', b :: p' => if b =b c then Some 0 else S <$> memchr p' c n'
  | _, _ => None
  end.

(** [strchr(p, c)] for a [c] other than NUL. *)
Definition strchr (p : bytes) (c : byte) : option nat := memchr (c_str p) c (strlen p).

Lemma memchr_Some p c n i :
  memchr p c n = Some i ->
  i < n /\ p !! i = Some c /\ c ∉ take i p.
Proof.
  revert n i. induction p as [|b p IH]; intros [|n] i; simpl; try done.
  destruct (b =b c) eqn:E; bprop.
  - intros [= <-]. subst. split; [lia|]. split; [done|]. simpl. set_solver.
  - destruct (memchr p c n) as [j|] eqn:Ej; [|done]. intros [= <-].
    destruct (IH _ _ Ej) as (? & ? & ?). split; [lia|]. split; [done|].
    simpl. set_solver.
Qed.

Lemma memchr_None p c n : memchr p c n = None -> c ∉ take n p.
Proof.
  revert n. induction p as [|b p IH]; intros [|n]; simpl; try set_solver.
  destruct (b =b c) eqn:E; bprop; [done|].
  destruct (memchr p c n) eqn:Ej; [done|]. intros _. apply IH in Ej. set_solver.
Qed.

Lemma c_str_no_nul p : Forall (fun b => not_nul b = true) (c_str p).
Proof. apply span_fst. Qed.

(** On a list with no NUL, the string is the whole list. *)
Lemma c_str_id p : Forall (fun b => not_nul b = true) p -> c_str p = p.
Proof.
  intros H. unfold c_str. rewrite <- (app_nil_r p) at 1.
  by rewrite (span_app not_nul p []).
Qed.

Lemma c_str_app_nul p q : Forall (fun b => not_nul b = true) p -> c_str (p ++ NUL :: q) = p.
Proof. intros H. unfold c_str. by rewrite (span_app not_nul p (NUL :: q)). Qed.

Lemma strcmp_lt_irrefl a : strcmp_lt a a = false.
Proof. induction a as [|x a IH]; [done|]. simpl. by rewrite Z.ltb_irrefl. Qed.

Lemma strcmp_lt_head x a y b :
  x ≠ y -> strcmp_lt (x :: a) (y :: b) = (b2z x <? b2z y)%Z.
Proof.
  intros Hn. simpl. destruct (b2z x <? b2z y)%Z eqn:E1; [done|].
  destruct (b2z y <? b2z x)%Z eqn:E2; [done|]. bprop.
  assert (x = y); [apply b2z_inj; lia|done].
Qed.

Lemma c_str_plain s : NUL ∉ s -> c_str s = s.
Proof.
  intros Hs. unfold c_str. induction s as [|b s IH]; [done|]. simpl. apply not_elem_of_cons in Hs as [Hb Hs].
  unfold not_nul at 1. destruct (b =b NUL) eqn:Eb; bprop; [by subst|]. simpl.
  specialize (IH Hs). by destruct (span not_nul s); simpl in *; subst.
Qed.

Lemma strndup_plain s n : NUL ∉ s -> strndup s n = take n s.
Proof. intros Hs. unfold strndup. by rewrite c_str_plain. Qed.

Lemma c_str_app a b : NUL ∉ a -> c_str (a ++ b) = a ++ c_str b.
Proof.
  intros Ha. unfold c_str. induction a as [|x a IH]; [done|]. apply not_elem_of_cons in Ha as [Hx Ha]. specialize (IH Ha).
  simpl. unfold not_nul at 1. destruct (x =b NUL) eqn:E; bprop; [by subst|]. simpl.
  destruct (span not_nul (a ++ b)); simpl in *. by rewrite IH.
Qed.

Lemma char_at_c_str p : char_at (c_str p) 0 = char_at p 0.
Proof.
  unfold c_str, char_at. destruct p as [|b p]; [done|]. simpl. unfold not_nul at 1.
  destruct (b =b NUL) eqn:E; simpl; bprop; [done|]. by destruct (span not_nul p).
Qed.
