(* ===== verification/Loop.v ===== *)
(** The event loop ([src/src/core/ioh_loop.h], [ioh_loop.c]): the encoding of
    completions' user data, the configuration checks and the timer table.

    The ring itself is the kernel's: [io_uring_get_sqe] succeeds while the
    submission queue has room, submitted requests and delivered completions are
    lists. *)
From S2P Require Import Prelude.

(** ** User data *)

Inductive ioh_op_type_t :=
| IOH_OP_NOP | IOH_OP_ACCEPT | IOH_OP_RECV | IOH_OP_SEND | IOH_OP_TIMEOUT | IOH_OP_FILE
| IOH_OP_TLS | IOH_OP_SIGNAL | IOH_OP_CLOSE | IOH_OP_SEND_ZC | IOH_OP_CANCEL | IOH_OP_RECVMSG
| IOH_OP_SENDMSG.

#[export] Instance op_eq_dec : EqDecision ioh_op_type_t.
Proof. solve_decision. Defined.

Definition op_val (op : ioh_op_type_t) : Z :=
  match op with
  | IOH_OP_NOP => 0 | IOH_OP_ACCEPT => 1 | IOH_OP_RECV => 2 | IOH_OP_SEND => 3 | IOH_OP_TIMEOUT => 4
  | IOH_OP_FILE => 5 | IOH_OP_TLS => 6 | IOH_OP_SIGNAL => 7 | IOH_OP_CLOSE => 8 | IOH_OP_SEND_ZC => 9
  | IOH_OP_CANCEL => 10 | IOH_OP_RECVMSG => 11 | IOH_OP_SENDMSG => 12
  end.

Definition IOH_OP_BITS : Z := 8.
Definition IOH_ENCODE_USERDATA (id : Z) (op : ioh_op_type_t) : Z :=
  Z.lor (u64 (Z.shiftl id IOH_OP_BITS)) (op_val op).
Definition IOH_DECODE_OP (ud : Z) : Z := Z.land ud 255.
Definition IOH_DECODE_ID (ud : Z) : Z := Z.shiftr ud IOH_OP_BITS.

(** ** Configuration *)

Record ioh_loop_config_t := mk_loop_config {
  queue_depth : Z;
  buf_ring_size : Z;
  buf_size : Z;
  defer_taskrun : bool;
}.

Definition is_power_of_2 (v : Z) : bool := negb (v =? 0)%Z && (Z.land v (v - 1) =? 0)%Z.

Definition ioh_loop_config_init : ioh_loop_config_t := mk_loop_config 256 128 4096 true.

Definition ioh_loop_config_validate (cfg : option ioh_loop_config_t) : res unit :=
  match cfg with
  | None => Err EINVAL
  | Some cfg =>
      if (queue_depth cfg =? 0)%Z then Err EINVAL else
      if negb (is_power_of_2 (queue_depth cfg)) then Err EINVAL else
      if negb (buf_ring_size cfg =? 0)%Z && negb (is_power_of_2 (buf_ring_size cfg)) then Err EINVAL else
      if (buf_size cfg =? 0)%Z then Err EINVAL else Ok tt
  end.

(** ** Timers *)

Definition IOH_MAX_TIMERS : nat := 64.

(** Callbacks and their data are pointers. *)
Record timer := mk_timer {
  ts : Z * Z;
  callback : option Z;
  data : Z;
  active : bool;
}.

(** Requests and completions of the ring, as far as the loop's own calls use them. *)
Inductive loop_sqe :=
| LTimeout (ud : Z) (ts : Z * Z)
| LCancel (ud target : Z)
| LNop (ud : Z).

Record loop_cqe := mk_loop_cqe { l_ud : Z; l_res : Z }.

Record ioh_loop := mk_loop {
  l_config : ioh_loop_config_t;
  running : bool;
  l_stopped : bool;
  timers : list timer;
  timer_count : Z;
  l_sq : list loop_sqe;
}.

Definition ETIME : Z := 62.
Definition ECANCELED : Z := 125.

Definition blank_timer : timer := mk_timer (0, 0)%Z None 0 false.

(** [ring_ok] is the outcome of the kernel's ring setup. *)
Definition ioh_loop_create (cfg : option ioh_loop_config_t) (ring_ok : bool) (h : heap) : option ioh_loop * heap :=
  match cfg with
  | None => (None, h)
  | Some c =>
      if negb (is_ok (ioh_loop_config_validate cfg)) then (None, h) else
      let '(ok, h) := xalloc h in
      if negb ok then (None, h) else
      if negb ring_ok then (None, h)
      else (Some (mk_loop c false false (replicate IOH_MAX_TIMERS blank_timer) 0 []), h)
  end.

Definition set_timers (l : ioh_loop) (ts : list timer) (n : Z) : ioh_loop :=
  mk_loop (l_config l) (running l) (l_stopped l) ts n (l_sq l).

(** [io_uring_get_sqe] and the preparation of the entry. *)
Definition l_push (l : ioh_loop) (e : loop_sqe) : option ioh_loop :=
  if (Z.of_nat (length (l_sq l)) <? queue_depth (l_config l))%Z
  then Some (mk_loop (l_config l) (running l) (l_stopped l) (timers l) (timer_count l) (l_sq l ++ [e]))
  else None.

Definition ioh_loop_add_timer (l : ioh_loop) (ms : Z) (cb : option Z) (d : Z) : ioh_loop * res Z :=
  match cb with
  | None => (l, Err EINVAL)
  | Some _ =>
      match list_find (fun t => active t = false) (timers l) with
      | None => (l, Err ENOMEM)
      | Some (slot, _) =>
          let t := mk_timer (ms / 1000, ms mod 1000 * 1000000)%Z cb d true in
          let armed := set_timers l (<[slot := t]> (timers l)) (u32 (timer_count l + 1)) in
          match l_push armed (LTimeout (IOH_ENCODE_USERDATA (Z.of_nat slot) IOH_OP_TIMEOUT) (ts t)) with
          | None =>
              (set_timers armed (<[slot := mk_timer (ts t) cb d false]> (timers armed)) (u32 (timer_count armed - 1)),
               Err ENOSPC)
          | Some l => (l, Ok (Z.of_nat slot))
          end
      end
  end.

Definition ioh_loop_cancel_timer (l : ioh_loop) (timer_id : Z) : ioh_loop * res unit :=
  if (timer_id <? 0)%Z || (Z.of_nat IOH_MAX_TIMERS <=? timer_id)%Z then (l, Err EINVAL) else
  match timers l !! Z.to_nat timer_id with
  | Some t =>
      if negb (active t) then (l, Err ENOENT) else
      match l_push l (LCancel (IOH_ENCODE_USERDATA timer_id IOH_OP_CANCEL)
                              (IOH_ENCODE_USERDATA timer_id IOH_OP_TIMEOUT)) with
      | None => (l, Err ENOSPC)
      | Some l =>
          (set_timers l (<[Z.to_nat timer_id := mk_timer (ts t) (callback t) (data t) false]> (timers l))
                      (u32 (timer_count l - 1)), Ok tt)
      end
  | None => (l, Err ENOENT)
  end.

(** One completion: the loop after it and the callbacks it ran. *)
Definition loop_completion (l : ioh_loop) (c : loop_cqe) : ioh_loop * list (Z * Z) :=
  if (IOH_DECODE_OP (l_ud c) =? op_val IOH_OP_TIMEOUT)%Z then
    let timer_id := IOH_DECODE_ID (l_ud c) in
    if (timer_id <? Z.of_nat IOH_MAX_TIMERS)%Z then
      match timers l !! Z.to_nat timer_id with
      | Some t =>
          if active t then
            let calls := if (l_res c =? - ETIME)%Z || (l_res c =? 0)%Z
                         then match callback t with Some f => [(f, data t)] | None => [] end else [] in
            (set_timers l (<[Z.to_nat timer_id := mk_timer (ts t) (callback t) (data t) false]> (timers l)) (timer_count l), calls)
          else (l, [])
      | None => (l, [])
      end
    else (l, [])
  else (l, []).

Fixpoint loop_completions (l : ioh_loop) (cs : list loop_cqe) : ioh_loop * list (Z * Z) :=
  match cs with
  | [] => (l, [])
  | c :: cs =>
      let '(l, calls) := loop_completion l c in
      let '(l, more) := loop_completions l cs in
      (l, calls ++ more)
  end.

(** [submit] and [wait] are the kernel's answers, [cs] the completions available.
    The submitted requests leave the queue. *)
Definition ioh_loop_run_once (l : ioh_loop) (submit wait : Z) (cs : list loop_cqe) : ioh_loop * Z * list (Z * Z) :=
  if l_stopped l then (l, 0%Z, []) else
  let at_rest (l : ioh_loop) sq := mk_loop (l_config l) false (l_stopped l) (timers l) (timer_count l) sq in
  if (submit <? 0)%Z then (at_rest l (l_sq l), submit, []) else
  let l := at_rest l [] in
  if (wait <? 0)%Z then (l, wait, []) else
  let '(l, calls) := loop_completions l cs in
  (l, Z.of_nat (length cs), calls).

(** [submit] is the kernel's answer; the code the call returns. *)
Definition ioh_loop_submit_nop (l : ioh_loop) (submit : Z) : ioh_loop * Z :=
  match l_push l (LNop (IOH_ENCODE_USERDATA 0 IOH_OP_NOP)) with
  | None => (l, - errno_code ENOSPC)%Z
  | Some l =>
      if (submit <? 0)%Z then (l, submit)
      else (mk_loop (l_config l) (running l) (l_stopped l) (timers l) (timer_count l) [], 0%Z)
  end.

Definition ioh_loop_stop (l : ioh_loop) : ioh_loop :=
  mk_loop (l_config l) (running l) true (timers l) (timer_count l) (l_sq l).

(** ** Lemmas *)

Lemma op_val_range op : (0 <= op_val op < 2 ^ 8)%Z.
Proof. destruct op; simpl; lia. Qed.

Lemma op_val_inj op op' : op_val op = op_val op' -> op = op'.
Proof. destruct op, op'; simpl; congruence || lia. Qed.

(** Identifiers of up to 56 bits and operations survive the encoding. *)
Lemma userdata_roundtrip id op :
  (0 <= id < 2 ^ 56)%Z ->
  IOH_DECODE_ID (IOH_ENCODE_USERDATA id op) = id /\ IOH_DECODE_OP (IOH_ENCODE_USERDATA id op) = op_val op.
Proof.
  intros Hid. pose proof (op_val_range op) as Hop. unfold IOH_DECODE_ID, IOH_DECODE_OP, IOH_ENCODE_USERDATA.
  rewrite Z.shiftl_mul_pow2 by done. rewrite u64_small by (unfold IOH_OP_BITS; lia).
  replace (Z.lor (id * 2 ^ IOH_OP_BITS) (op_val op)) with (id * 2 ^ IOH_OP_BITS + op_val op)%Z.
  - unfold IOH_OP_BITS. rewrite Z.shiftr_div_pow2 by lia. change 255%Z with (Z.ones 8). rewrite Z.land_ones by lia.
    split.
    + rewrite Z.div_add_l by lia. rewrite Z.div_small by lia. lia.
    + rewrite Z.add_comm, Z.mod_add by lia. by apply Z.mod_small.
  - assert (Hl : Z.land (id * 2 ^ IOH_OP_BITS) (op_val op) = 0%Z).
    { rewrite <- (Z.mod_small (op_val op) (2 ^ 8)) by done. rewrite <- Z.land_ones by lia.
      rewrite (Z.land_comm (op_val op)), Z.land_assoc, Z.land_ones by lia.
      unfold IOH_OP_BITS. rewrite Z.mod_mul by lia. apply Z.land_0_l. }
    pose proof (Z.add_lor_land (id * 2 ^ IOH_OP_BITS) (op_val op)). lia.
Qed.

Lemma timer_completion l slot t r :
  timers l !! slot = Some t -> slot < IOH_MAX_TIMERS ->
  loop_completion l (mk_loop_cqe (IOH_ENCODE_USERDATA (Z.of_nat slot) IOH_OP_TIMEOUT) r)
  = if active t then
      (set_timers l (<[slot := mk_timer (ts t) (callback t) (data t) false]> (timers l)) (timer_count l),
       if (r =? - ETIME)%Z || (r =? 0)%Z then match callback t with Some f => [(f, data t)] | None => [] end else [])
    else (l, []).
Proof.
  intros Ht Hs. unfold loop_completion. simpl.
  destruct (userdata_roundtrip (Z.of_nat slot) IOH_OP_TIMEOUT) as [-> ->]; [unfold IOH_MAX_TIMERS in *; lia|].
  rewrite Z.eqb_refl, (proj2 (Z.ltb_lt _ _)), Nat2Z.id, Ht by lia. done.
Qed.

(** A timer fires once, with its own callback.  A successful registration
    takes a slot that was free and leaves the others alone; when its timeout
    expires the registered callback runs with the registered data, and only that;
    the slot is free again and a further completion for it runs nothing. *)
Theorem timer_fires_once l ms f d l' slot :
  length (timers l) = IOH_MAX_TIMERS ->
  ioh_loop_add_timer l ms (Some f) d = (l', Ok slot) ->
  exists t, timers l !! Z.to_nat slot = Some t /\ active t = false
    /\ (forall i, i ≠ Z.to_nat slot -> timers l' !! i = timers l !! i)
    /\ let done := mk_loop_cqe (IOH_ENCODE_USERDATA slot IOH_OP_TIMEOUT) (- ETIME) in
       snd (loop_completions l' [done; done]) = [(f, d)]
       /\ option_map active (timers (fst (loop_completion l' done)) !! Z.to_nat slot) = Some false.
Proof.
  intros Hlen. unfold ioh_loop_add_timer. destruct (list_find _ (timers l)) as [[i t]|] eqn:E; [|done].
  apply list_find_Some in E as (Ht & Ha & _). unfold l_push. simpl.
  destruct (_ <? queue_depth _)%Z; intros [= <- <-]. rewrite Nat2Z.id.
  assert (Hi : i < IOH_MAX_TIMERS) by (rewrite <- Hlen; by eapply lookup_lt_Some).
  exists t. split; [done|]. split; [done|]. simpl. split; [intros j Hj; by apply list_lookup_insert_ne|].
  set (l1 := mk_loop _ _ _ _ _ _).
  assert (H1 : timers l1 !! i = Some (mk_timer (ms / 1000, ms mod 1000 * 1000000)%Z (Some f) d true)).
  { simpl. apply list_lookup_insert_eq. lia. }
  rewrite (timer_completion l1 i _ _ H1 Hi). cbn [active]. rewrite Z.eqb_refl. simpl.
  set (l2 := set_timers l1 _ _).
  assert (H2 : timers l2 !! i = Some (mk_timer (ms / 1000, ms mod 1000 * 1000000)%Z (Some f) d false)).
  { simpl. apply list_lookup_insert_eq. rewrite length_insert. lia. }
  rewrite (timer_completion l2 i _ _ H2 Hi). simpl. split; [done|].
  by rewrite list_lookup_insert_eq by (rewrite length_insert; lia).
Qed.

Definition demo_loop : ioh_loop :=
  mk_loop ioh_loop_config_init false false (replicate IOH_MAX_TIMERS blank_timer) 0 [].

Lemma timer_fires_once_witness :
  exists l, ioh_loop_add_timer demo_loop 1500 (Some 7%Z) 9 = (l, Ok 0%Z)
    /\ snd (loop_completions l (replicate 2 (mk_loop_cqe (IOH_ENCODE_USERDATA 0 IOH_OP_TIMEOUT) (- ETIME)))) = [(7, 9)]%Z.
Proof.
  eexists. split; [reflexivity|].
  destruct (timer_fires_once demo_loop 1500 7 9 _ 0 eq_refl eq_refl) as (t & _ & _ & _ & H & _). exact H.
Defined.

(** A cancelled timer's slot can be reused before the kernel reports the
    cancellation; that report then switches off the new timer, whose callback
    never runs. *)
Theorem timer_reuse_loses_callback :
  let '(l1, r1) := ioh_loop_add_timer demo_loop 1000 (Some 1%Z) 0 in
  let '(l2, r2) := ioh_loop_cancel_timer l1 0 in
  let '(l3, r3) := ioh_loop_add_timer l2 5000 (Some 2%Z) 0 in
  let ud := IOH_ENCODE_USERDATA 0 IOH_OP_TIMEOUT in
  (r1, r2, r3) = (Ok 0%Z, Ok tt, Ok 0%Z)
  /\ snd (loop_completions l3 [mk_loop_cqe ud (- ECANCELED); mk_loop_cqe ud (- ETIME)]) = [].
Proof. vm_compute. done. Qed.
