(* ===== verification/Radix.v ===== *)
(** The radix trie of [src/src/router/ioh_radix.c]: nodes, insertion of route
    patterns with prefix splitting, and lookup of concrete paths with
    STATIC > PARAM > WILDCARD priority and backtracking.

    A pattern or path position is the list of the remaining bytes (the C code's
    [pattern + pos]).  Insertion mutates the tree in place: the model returns the
    new tree also when it fails, since the code leaves what it changed. *)
From S2P Require Import Prelude CString.

(** ** Route metadata ([ioh_route_meta.h], [ioh_route_meta.c]) *)

Inductive ioh_param_in_t :=
| IOH_PARAM_PATH | IOH_PARAM_QUERY | IOH_PARAM_HEADER | IOH_PARAM_COOKIE.

Record ioh_param_meta_t := mk_param_meta {
  pm_name : bytes;
  pm_description : bytes;
  pm_in : ioh_param_in_t;
  pm_required : bool;
}.

Record ioh_route_meta_t := mk_route_meta {
  rm_summary : bytes;
  rm_description : option bytes;
  rm_tags : list bytes;
  rm_deprecated : bool;
  rm_params : list ioh_param_meta_t;
}.

Definition ioh_param_in_name (i : ioh_param_in_t) : bytes :=
  match i with
  | IOH_PARAM_PATH => bs "path"
  | IOH_PARAM_QUERY => bs "query"
  | IOH_PARAM_HEADER => bs "header"
  | IOH_PARAM_COOKIE => bs "cookie"
  end.

(** ** Data *)

Inductive ioh_node_type_t := IOH_NODE_STATIC | IOH_NODE_PARAM | IOH_NODE_WILDCARD.

(** The enumerators' values, by which children are ordered. *)
Definition node_type_val (t : ioh_node_type_t) : Z :=
  match t with IOH_NODE_STATIC => 0 | IOH_NODE_PARAM => 1 | IOH_NODE_WILDCARD => 2 end.

#[export] Instance node_type_eq_dec : EqDecision ioh_node_type_t.
Proof. solve_decision. Defined.

Definition is_static (t : ioh_node_type_t) : bool := bool_decide (t = IOH_NODE_STATIC).
Definition is_param (t : ioh_node_type_t) : bool := bool_decide (t = IOH_NODE_PARAM).
Definition is_wildcard (t : ioh_node_type_t) : bool := bool_decide (t = IOH_NODE_WILDCARD).

(** What a registration stores in a node: the handler, the opaque metadata
    pointer and the route metadata pointer.  [handler] is the null test. *)
Record payload (H M : Type) := mk_payload {
  pl_handler : H;
  pl_metadata : option M;
  pl_meta : option ioh_route_meta_t;
}.
Arguments mk_payload {H M}.
Arguments pl_handler {H M}.
Arguments pl_metadata {H M}.
Arguments pl_meta {H M}.

Inductive ioh_radix_node_t (H M : Type) := mk_node {
  prefix : bytes;
  type : ioh_node_type_t;
  param_name : option bytes;
  handler : option H;
  metadata : option M;
  meta : option ioh_route_meta_t;
  children : list (ioh_radix_node_t H M);
  child_capacity : Z;
  priority : Z;
}.
Arguments mk_node {H M}.
Arguments prefix {H M}.
Arguments type {H M}.
Arguments param_name {H M}.
Arguments handler {H M}.
Arguments metadata {H M}.
Arguments meta {H M}.
Arguments children {H M}.
Arguments child_capacity {H M}.
Arguments priority {H M}.

Record ioh_param_t := mk_param {
  p_name : bytes;
  p_value : bytes;      (* the pointer: everything from the captured byte on *)
  p_value_len : nat;
}.

Definition IOH_MAX_PATH_PARAMS : nat := 8.
Definition RADIX_INITIAL_CAPACITY : Z := 4.

Record ioh_radix_match_t (H M : Type) := mk_match {
  m_handler : option H;
  m_metadata : option M;
  m_meta : option ioh_route_meta_t;
  m_params : list ioh_param_t;    (* the first [param_count] entries *)
}.
Arguments mk_match {H M}.
Arguments m_handler {H M}.
Arguments m_metadata {H M}.
Arguments m_meta {H M}.
Arguments m_params {H M}.

Section Radix.
Context {H M : Type}.
Abbreviation node := (ioh_radix_node_t H M).
Abbreviation rmatch := (ioh_radix_match_t H M).
Implicit Types (n child parent : node) (h : heap).

(** ** Field updates *)

Definition set_prefix n (p : bytes) : node :=
  mk_node p (type n) (param_name n) (handler n) (metadata n) (meta n)
          (children n) (child_capacity n) (priority n).
Definition set_children n (cs : list node) : node :=
  mk_node (prefix n) (type n) (param_name n) (handler n) (metadata n) (meta n)
          cs (child_capacity n) (priority n).
Definition set_capacity n (c : Z) : node :=
  mk_node (prefix n) (type n) (param_name n) (handler n) (metadata n) (meta n)
          (children n) c (priority n).
Definition set_priority n (p : Z) : node :=
  mk_node (prefix n) (type n) (param_name n) (handler n) (metadata n) (meta n)
          (children n) (child_capacity n) p.
Definition set_param_name n (s : bytes) : node :=
  mk_node (prefix n) (type n) (Some s) (handler n) (metadata n) (meta n)
          (children n) (child_capacity n) (priority n).
Definition set_payload n (p : payload H M) : node :=
  mk_node (prefix n) (type n) (param_name n) (Some (pl_handler p)) (pl_metadata p) (pl_meta p)
          (children n) (child_capacity n) (priority n).

(** ** Node lifecycle *)

(** Two allocations: the node and the copy of its prefix. *)
Definition ioh_radix_node_create (pfx : bytes) (prefix_len : nat) (t : ioh_node_type_t) h
    : option node * heap :=
  let '(ok, h) := xalloc h in
  if negb ok then (None, h) else
  let '(ok, h) := xalloc h in
  if negb ok then (None, h) else
  (Some (mk_node (if 0 <? prefix_len then strndup pfx prefix_len else [])
                 t None None None None [] 0%Z 0%Z), h).

(** The position where a child is inserted: before the first child of a greater
    type, and among STATIC children before the first greater prefix. *)
Fixpoint child_pos child (cs : list node) : nat :=
  match cs with
  | [] => 0
  | existing :: cs' =>
      if (node_type_val (type child) <? node_type_val (type existing))%Z then 0
      else if bool_decide (type child = type existing) && is_static (type child)
              && strcmp_lt (prefix child) (prefix existing) then 0
      else S (child_pos child cs')
  end.

Definition ioh_radix_node_add_child parent child h : node * res unit * heap :=
  let place p := set_children p (take (child_pos child (children p)) (children p)
                                 ++ child :: drop (child_pos child (children p)) (children p)) in
  if (child_capacity parent <=? Z.of_nat (length (children parent)))%Z then
    let new_cap := if (child_capacity parent =? 0)%Z then RADIX_INITIAL_CAPACITY
                   else u32 (child_capacity parent * 2) in
    let '(ok, h) := xalloc h in
    if negb ok then (parent, Err ENOMEM, h)
    else (place (set_capacity parent new_cap), Ok tt, h)
  else (place parent, Ok tt, h).

(** ** Prefix utilities *)

Fixpoint common_prefix_len (a b : bytes) : nat :=
  match a, b with
  | x :: a', y :: b' => if x =b y then S (common_prefix_len a' b') else 0
  | _, _ => 0
  end.

Definition ioh_radix_increment_priority n : node := set_priority n (u32 (priority n + 1)).

(** Split [existing] at [split_pos].  The intermediate node replaces it in the
    parent; on failure the returned child is what the code leaves there. *)
Definition split_static_node (existing : node) (split_pos : nat) h
    : option node * node * heap :=
  let '(inter, h) := ioh_radix_node_create (prefix existing) split_pos IOH_NODE_STATIC h in
  match inter with
  | None => (None, existing, h)
  | Some intermediate =>
      let '(ok, h) := xalloc h in
      if negb ok then (None, existing, h) else
      let existing := set_prefix existing (drop split_pos (prefix existing)) in
      let '(intermediate, rc, h) := ioh_radix_node_add_child intermediate existing h in
      match rc with
      | Err _ => (None, existing, h)
      | Ok _ => (Some (set_priority intermediate (priority existing)), existing, h)
      end
  end.

(** ** Insertion *)

(** [next_segment]: skip one leading slash, then the segment up to the next
    slash; [None] at the end of the pattern. *)
Definition next_segment (pat : bytes) : option bytes * nat * bytes :=
  let pat := match pat with b :: r => if b =b SLASH then r else pat | [] => [] end in
  match pat with
  | [] => (None, 0, [])
  | _ :: _ => let '(seg, rest) := span not_slash pat in (Some pat, length seg, rest)
  end.

(** Store the handler in the node the pattern ends at. *)
Definition set_handler_here n (p : payload H M) h : node * res unit * heap :=
  match handler n with
  | Some _ => (n, Err EEXIST, h)
  | None => (ioh_radix_increment_priority (set_payload n p), Ok tt, h)
  end.

(** The first child with a given property, with its index. *)
Fixpoint find_child (p : node -> bool) (cs : list node) : option (nat * node) :=
  match cs with
  | [] => None
  | c :: cs' => if p c then Some (0, c)
                else match find_child p cs' with Some (i, c') => Some (S i, c') | None => None end
  end.

Definition replace_child n (i : nat) (c : node) : node := set_children n (<[i := c]> (children n)).

(** [strncmp(name, s, len) == 0 && name[len] == 0]. *)
Definition param_name_is n (s : bytes) : bool :=
  match param_name n with Some x => bytes_eqb x s | None => false end.

(** A STATIC child that shares a non-empty prefix with the segment. *)
Definition shares_prefix (seg : bytes) child : bool :=
  is_static (type child) && (0 <? common_prefix_len seg (prefix child)).

(** The WILDCARD branch of [insert_recursive]. *)
Definition insert_wildcard n (seg : bytes) (seg_len : nat) (next : bytes) (p : payload H M) h
    : node * res unit * heap :=
  match next with
  | _ :: _ => (n, Err EINVAL, h)                 (* not the last segment *)
  | [] =>
      let name := take (seg_len - 1) (drop 1 seg) in
      if seg_len - 1 =? 0 then (n, Err EINVAL, h) else
      match find_child (fun c => is_wildcard (type c)) (children n) with
      | Some (i, c) =>
          if negb (param_name_is c name) then (n, Err EEXIST, h) else
          match handler c with
          | Some _ => (n, Err EEXIST, h)
          | None =>
              (ioh_radix_increment_priority
                 (replace_child n i (ioh_radix_increment_priority (set_payload c p))), Ok tt, h)
          end
      | None =>
          let '(wc, h) := ioh_radix_node_create [] 0 IOH_NODE_WILDCARD h in
          match wc with
          | None => (n, Err ENOMEM, h)
          | Some wc =>
              let '(ok, h) := xalloc h in
              if negb ok then (n, Err ENOMEM, h) else
              let wc := set_priority (set_payload (set_param_name wc name) p) 1%Z in
              let '(n', rc, h) := ioh_radix_node_add_child n wc h in
              match rc with
              | Err e => (n', Err e, h)
              | Ok _ => (ioh_radix_increment_priority n', Ok tt, h)
              end
          end
      end
  end.

(** Write a recursive call's result back into child [i] of [n]. *)
Definition with_child n (i : nat) (r : option (node * res unit * heap))
    : option (node * res unit * heap) :=
  match r with
  | Some (c, rc, h) => Some (replace_child n i c, rc, h)
  | None => None
  end.

(** [insert_recursive] and [insert_static_segment].  Every second call consumes
    at least one byte of the pattern, so [2 * length + 2] calls are enough;
    [None] stands for fuel run out and is never the result of [ioh_radix_insert]. *)
Fixpoint insert_recursive (fuel : nat) n (pat : bytes) (p : payload H M) h
    : option (node * res unit * heap) :=
  match fuel with
  | O => None
  | S fuel =>
      match pat with
      | [] => Some (set_handler_here n p h)
      | _ :: _ =>
          match next_segment pat with
          | (None, _, _) | (Some _, 0, _) => Some (set_handler_here n p h)
          | (Some seg, seg_len, next) =>
              let c0 := char_at seg 0 in
              if c0 =b "*"%byte then Some (insert_wildcard n seg seg_len next p h)
              else if c0 =b ":"%byte then
                let name := take (seg_len - 1) (drop 1 seg) in
                if seg_len - 1 =? 0 then Some (n, Err EINVAL, h) else
                match find_child (fun c => is_param (type c)) (children n) with
                | Some (i, c) =>
                    if negb (param_name_is c name) then Some (n, Err EEXIST, h) else
                    let n := ioh_radix_increment_priority n in
                    with_child n i (insert_recursive fuel c next p h)
                | None =>
                    let '(pm, h) := ioh_radix_node_create [] 0 IOH_NODE_PARAM h in
                    match pm with
                    | None => Some (n, Err ENOMEM, h)
                    | Some pm =>
                        let '(ok, h) := xalloc h in
                        if negb ok then Some (n, Err ENOMEM, h) else
                        let pm := set_param_name pm name in
                        let pos := child_pos pm (children n) in
                        let '(n, rc, h) := ioh_radix_node_add_child n pm h in
                        match rc with
                        | Err e => Some (n, Err e, h)
                        | Ok _ =>
                            let n := ioh_radix_increment_priority n in
                            with_child n pos (insert_recursive fuel pm next p h)
                        end
                    end
                end
              else
                insert_static_segment fuel (ioh_radix_increment_priority n) seg seg_len next p h
          end
      end
  end
with insert_static_segment (fuel : nat) n (seg : bytes) (seg_len : nat) (next : bytes)
       (p : payload H M) h : option (node * res unit * heap) :=
  match fuel with
  | O => None
  | S fuel =>
      match find_child (shares_prefix seg) (children n) with
      | Some (i, child) =>
          let cplen := common_prefix_len seg (prefix child) in
          let child_prefix_len := length (prefix child) in
          if (cplen =? child_prefix_len) && (cplen =? seg_len) then
            with_child n i (insert_recursive fuel child next p h)
          else if cplen <? child_prefix_len then
            let '(inter, existing, h) := split_static_node child cplen h in
            match inter with
            | None => Some (replace_child n i existing, Err ENOMEM, h)
            | Some inter =>
                let n := replace_child n i inter in
                if cplen =? seg_len then
                  with_child n i (insert_recursive fuel inter next p h)
                else
                  let '(nc, h) := ioh_radix_node_create (drop cplen seg) (seg_len - cplen)
                                                        IOH_NODE_STATIC h in
                  match nc with
                  | None => Some (n, Err ENOMEM, h)
                  | Some nc =>
                      let pos := child_pos nc (children inter) in
                      let '(inter, rc, h) := ioh_radix_node_add_child inter nc h in
                      match rc with
                      | Err e => Some (n, Err e, h)
                      | Ok _ =>
                          with_child n i
                            (with_child inter pos (insert_recursive fuel nc next p h))
                      end
                  end
            end
          else
            with_child n i
              (insert_static_segment fuel child (drop cplen seg) (seg_len - cplen) next p h)
      | None =>
          let '(nc, h) := ioh_radix_node_create seg seg_len IOH_NODE_STATIC h in
          match nc with
          | None => Some (n, Err ENOMEM, h)
          | Some nc =>
              let pos := child_pos nc (children n) in
              let '(n, rc, h) := ioh_radix_node_add_child n nc h in
              match rc with
              | Err e => Some (n, Err e, h)
              | Ok _ => with_child n pos (insert_recursive fuel nc next p h)
              end
          end
      end
  end.

(** ** Public API: creation and insertion *)

Definition ioh_radix_create h : option node * heap :=
  let '(ok, h) := xalloc h in
  if negb ok then (None, h) else ioh_radix_node_create [] 0 IOH_NODE_STATIC h.

Definition insert_fuel (pat : bytes) : nat := 2 * length pat + 2.

(** Null arguments are [None].  The tree is the root node. *)
Definition ioh_radix_insert (tree : option node) (pattern : option bytes) (hd : option H)
    (md : option M) (mt : option ioh_route_meta_t) h : option node * res unit * heap :=
  match tree, pattern, hd with
  | Some root, Some pattern, Some hd =>
      match pattern with
      | [] => (tree, Err EINVAL, h)
      | b :: _ =>
          if negb (b =b SLASH) then (tree, Err EINVAL, h) else
          match insert_recursive (insert_fuel pattern) root pattern (mk_payload hd md mt) h with
          | Some (root', rc, h) => (Some root', rc, h)
          | None => (tree, Err EINVAL, h)
          end
      end
  | _, _, _ => (tree, Err EINVAL, h)
  end.

(** ** Lookup *)

(** [mode] is [None] for [lookup_recursive] at [path], and [Some seg_len] for
    [lookup_static] with the segment the first [seg_len] bytes of [path]. *)
Section LookupLoops.
Context (go : node -> option nat -> bytes -> rmatch -> rmatch * bool).

(** The loop over STATIC children. *)
Definition lookup_static_loop (seg : bytes) (seg_len : nat) :=
  fix loop (cs : list node) (m : rmatch) : rmatch * bool :=
    match cs with
    | [] => (m, false)
    | child :: cs' =>
        if negb (is_static (type child)) then loop cs' m else
        let prefix_len := length (prefix child) in
        if seg_len <? prefix_len then loop cs' m else
        if negb (memcmp_eq seg (prefix child) prefix_len) then loop cs' m else
        let '(m, ok) :=
          if prefix_len =? seg_len then go child None (drop seg_len seg) m
          else go child (Some (seg_len - prefix_len)) (drop prefix_len seg) m in
        if ok then (m, true) else loop cs' m
    end.

(** The loop over PARAM children; the last component says the loop returned
    from the function because the parameter array is full. *)
Definition lookup_param_loop (path : bytes) (seg_len : nat) :=
  fix loop (cs : list node) (m : rmatch) : rmatch * bool * bool :=
    match cs with
    | [] => (m, false, false)
    | child :: cs' =>
        if negb (is_param (type child)) then loop cs' m else
        if IOH_MAX_PATH_PARAMS <=? length (m_params m) then (m, false, true) else
        let saved_count := length (m_params m) in
        let p := mk_param (default [] (param_name child)) path seg_len in
        let m := mk_match (m_handler m) (m_metadata m) (m_meta m) (m_params m ++ [p]) in
        let '(m, ok) := go child None (drop seg_len path) m in
        if ok then (m, true, false)
        else loop cs' (mk_match (m_handler m) (m_metadata m) (m_meta m)
                                (take saved_count (m_params m)))
    end.
End LookupLoops.

(** The loop over WILDCARD children: the rest of the path is captured. *)
Fixpoint lookup_wildcard_loop (path : bytes) (cs : list node) (m : rmatch) : rmatch * bool :=
  match cs with
  | [] => (m, false)
  | child :: cs' =>
      if negb (is_wildcard (type child)) then lookup_wildcard_loop path cs' m else
      match handler child with
      | None => lookup_wildcard_loop path cs' m
      | Some hd =>
          if IOH_MAX_PATH_PARAMS <=? length (m_params m) then (m, false) else
          let p := mk_param (default [] (param_name child)) path (length path) in
          (mk_match (Some hd) (metadata child) (meta child) (m_params m ++ [p]), true)
      end
  end.

Definition skip_slash (path : bytes) : bytes :=
  match path with b :: r => if b =b SLASH then r else path | [] => [] end.

Fixpoint lookup_go n (mode : option nat) (path : bytes) (m : rmatch) : rmatch * bool :=
  match mode with
  | Some seg_len => lookup_static_loop lookup_go path seg_len (children n) m
  | None =>
      match skip_slash path with
      | [] => match handler n with
              | Some hd => (mk_match (Some hd) (metadata n) (meta n) (m_params m), true)
              | None => (m, false)
              end
      | path =>
          let seg_len := length (fst (span not_slash path)) in
          let '(m, ok) := lookup_static_loop lookup_go path seg_len (children n) m in
          if ok then (m, true) else
          let '(m, ok, full) := lookup_param_loop lookup_go path seg_len (children n) m in
          if ok then (m, true) else if full then (m, false) else
          lookup_wildcard_loop path (children n) m
      end
  end.

Definition lookup_recursive n (path : bytes) (m : rmatch) : rmatch * bool := lookup_go n None path m.
Definition lookup_static n (seg : bytes) (seg_len : nat) (m : rmatch) : rmatch * bool :=
  lookup_go n (Some seg_len) seg m.

Definition match_init : rmatch := mk_match None None None [].

(** [path] holds exactly the [path_len] bytes the code may read. *)
Definition ioh_radix_lookup (tree : option node) (path : option bytes) : res rmatch :=
  match tree, path with
  | Some root, Some path =>
      match path with
      | [] => Err ENOENT
      | _ :: _ => match lookup_recursive root path match_init with
                  | (m, true) => Ok m
                  | (_, false) => Err ENOENT
                  end
      end
  | _, _ => Err EINVAL
  end.

End Radix.

(** ** The router's view of a route table *)

(** What [ioh_router.c] uses of the trie: creation, registration, and a lookup
    that fills at most [IOH_MAX_PATH_PARAMS] parameters whose values are slices
    of the path that was looked up. *)
Class RouteTable (T H M : Type) := {
  rt_create : heap -> option T * heap;
  rt_insert : T -> bytes -> H -> option M -> option ioh_route_meta_t -> heap -> T * res unit * heap;
  rt_lookup : T -> bytes -> res (ioh_radix_match_t H M);
  rt_lookup_params : forall t path m,
    rt_lookup t path = Ok m ->
    length (m_params m) <= IOH_MAX_PATH_PARAMS
    /\ Forall (fun p => exists i, p_value p = drop i path /\ p_value_len p <= length (p_value p))
              (m_params m);
  rt_lookup_handler : forall t path m, rt_lookup t path = Ok m -> is_Some (m_handler m);
}.
