(* ===== verification/RadixMap.v ===== *)
(** The radix trie as a finite map: a tree denotes a map from route keys to
    registrations, and [ioh_radix_insert] refines the update of that map,
    prefix splitting included.  The well-formedness invariant that makes this
    work is preserved by every insertion, successful or not.

    A key is the word a pattern spells on the trie's edges.  Slashes are not
    stored on edges, so they are not part of a key either. *)
From S2P Require Import Prelude CString Radix.

(** ** Keys *)

Inductive tok :=
| TChar (b : byte)
| TParam (s : bytes)
| TWild (s : bytes).

#[export] Instance tok_eq_dec : EqDecision tok.
Proof. solve_decision. Defined.

(** Remove [p] from the front of [k]. *)
Fixpoint strip (p k : list tok) : option (list tok) :=
  match p, k with
  | [], _ => Some k
  | a :: p', b :: k' => if decide (a = b) then strip p' k' else None
  | _ :: _, [] => None
  end.

(** The key of a pattern; [None] when the pattern is malformed (a wildcard that
    is not last, or an empty parameter name).  Fuel: the pattern's length. *)
Fixpoint pattern_key (fuel : nat) (pat : bytes) : option (list tok) :=
  match fuel with
  | O => None
  | S fuel =>
      match next_segment pat with
      | (None, _, _) | (Some _, 0, _) => Some []
      | (Some seg, seg_len, next) =>
          let c0 := char_at seg 0 in
          let name := take (seg_len - 1) (drop 1 seg) in
          if c0 =b "*"%byte then
            match next with
            | [] => if seg_len - 1 =? 0 then None else Some [TWild name]
            | _ :: _ => None
            end
          else if c0 =b ":"%byte then
            if seg_len - 1 =? 0 then None
            else match pattern_key fuel next with Some k => Some (TParam name :: k) | None => None end
          else
            match pattern_key fuel next with
            | Some k => Some ((TChar <$> take seg_len seg) ++ k)
            | None => None
            end
      end
  end.

Section TreeMap.
Context {H M : Type}.
Abbreviation node := (ioh_radix_node_t H M).
Implicit Types (n c : node) (cs : list node) (k : list tok).

(** ** The map a tree denotes *)

Definition node_payload n : option (payload H M) :=
  match handler n with
  | Some hd => Some (mk_payload hd (metadata n) (meta n))
  | None => None
  end.

(** The word on the edge into [c]. *)
Definition edge c : list tok :=
  match type c with
  | IOH_NODE_STATIC => TChar <$> prefix c
  | IOH_NODE_PARAM => match param_name c with Some s => [TParam s] | None => [] end
  | IOH_NODE_WILDCARD => match param_name c with Some s => [TWild s] | None => [] end
  end.

Fixpoint tree_get n k : option (payload H M) :=
  match k with
  | [] => node_payload n
  | _ :: _ =>
      (fix loop (cs : list node) :=
         match cs with
         | [] => None
         | c :: cs' => match strip (edge c) k with
                       | Some k' => tree_get c k'
                       | None => loop cs'
                       end
         end) (children n)
  end.

(** ** Well-formed trees *)

(** Sibling order: STATIC children by first byte, then PARAM, then WILDCARD. *)
Definition tok_tag (t : tok) : Z :=
  match t with TChar b => b2z b | TParam _ => 256 | TWild _ => 257 end.

Definition tag c : Z := match edge c with t :: _ => tok_tag t | [] => -1 end.

(** The edge into a child: a STATIC prefix is non-empty and holds no slash and no
    NUL; PARAM and WILDCARD nodes have a non-empty name; a WILDCARD is a leaf. *)
Definition wf_edge c : Prop :=
  match type c with
  | IOH_NODE_STATIC =>
      prefix c ≠ [] /\ Forall (fun b => not_slash b = true /\ not_nul b = true) (prefix c)
      /\ param_name c = None
  | IOH_NODE_PARAM => exists s, param_name c = Some s /\ s ≠ []
  | IOH_NODE_WILDCARD => (exists s, param_name c = Some s /\ s ≠ []) /\ children c = []
  end.

(** Siblings are strictly sorted, hence distinct; the children array has room
    for them and its capacity never comes near the width of [uint32_t]. *)
Inductive wf : node -> Prop :=
| wf_intro n :
    StronglySorted Z.lt (tag <$> children n) ->
    Forall wf_edge (children n) ->
    Forall wf (children n) ->
    (Z.of_nat (length (children n)) <= child_capacity n <= 1024)%Z ->
    wf n.

(** Following [k] from [n] meets a PARAM or WILDCARD node with another name. *)
Fixpoint conflict n k : bool :=
  match k with
  | [] => false
  | t :: _ =>
      (fix loop (cs : list node) :=
         match cs with
         | [] => false
         | c :: cs' => if decide (tag c = tok_tag t)
                       then match strip (edge c) k with
                            | Some k' => conflict c k'
                            | None => negb (is_static (type c))
                            end
                       else loop cs'
         end) (children n)
  end.

(** [g] is [f] updated at the free key [k] with [p]. *)
Definition map_upd (f g : list tok -> option (payload H M)) k (p : payload H M) : Prop :=
  f k = None /\ forall k', g k' = if decide (k' = k) then Some p else f k'.

Definition get_children cs k : option (payload H M) :=
  (fix loop (cs : list node) :=
     match cs with
     | [] => None
     | c :: cs' => match strip (edge c) k with
                   | Some k' => tree_get c k'
                   | None => loop cs'
                   end
     end) cs.

Lemma tree_get_eq n k :
  tree_get n k = match k with [] => node_payload n | _ :: _ => get_children (children n) k end.
Proof. destruct n. reflexivity. Qed.

(** ** Stripping *)

Lemma strip_app p k : strip p (p ++ k) = Some k.
Proof. induction p as [|t p IH]; simpl; [done|]. by rewrite decide_True. Qed.

Lemma strip_Some p k r : strip p k = Some r -> k = p ++ r.
Proof.
  revert k. induction p as [|t p IH]; intros [|a k]; simpl; try congruence.
  case_decide; [|done]. intros E. subst. by rewrite (IH _ E).
Qed.

Lemma strip_app_l p q k :
  strip (p ++ q) k = match strip p k with Some r => strip q r | None => None end.
Proof.
  revert k. induction p as [|t p IH]; intros [|a k]; simpl; try done.
  case_decide; [apply IH|done].
Qed.

(** ** Children are found by tag *)

Lemma wf_edge_nonempty c : wf_edge c -> edge c ≠ [].
Proof.
  unfold wf_edge, edge. destruct (type c).
  - intros (Hp & _ & _). destruct (prefix c); [done|]. simpl. done.
  - intros (s & -> & _). done.
  - intros ((s & -> & _) & _). done.
Qed.

Lemma tag_nonneg c : wf_edge c -> (0 <= tag c <= 257)%Z.
Proof.
  intros Hc. unfold tag. destruct (edge c) as [|t e] eqn:E.
  - by apply wf_edge_nonempty in Hc.
  - destruct t; simpl; [pose proof (b2z_range b)|..]; lia.
Qed.

Lemma strip_tag c t k r : wf_edge c -> strip (edge c) (t :: k) = Some r -> tag c = tok_tag t.
Proof.
  intros Hc Hs. apply strip_Some in Hs. unfold tag.
  destruct (edge c) eqn:E; [by apply wf_edge_nonempty in Hc|].
  simpl in Hs. congruence.
Qed.

Lemma get_children_none cs t k :
  Forall wf_edge cs -> Forall (fun c => tag c ≠ tok_tag t) cs ->
  get_children cs (t :: k) = None.
Proof.
  intros He Ht. induction He as [|c cs Hc He IH]; simpl; [done|]. inv Ht.
  destruct (strip (edge c) (t :: k)) as [r|] eqn:E; [|by apply IH].
  by apply strip_tag in E.
Qed.

Lemma sorted_tag_distinct cs i j c d :
  StronglySorted Z.lt (tag <$> cs) -> cs !! i = Some c -> cs !! j = Some d ->
  tag c = tag d -> i = j.
Proof.
  intros Hs. revert i j. induction cs as [|a cs IH]; intros i j Hi Hj Ht; [done|].
  simpl in Hs. inv Hs.
  rename select (Forall _ _) into Hf. rewrite Forall_fmap, Forall_lookup in Hf.
  destruct i as [|i], j as [|j]; simpl in *; simplify_eq; try done.
  - specialize (Hf _ _ Hj). simpl in Hf. lia.
  - specialize (Hf _ _ Hi). simpl in Hf. lia.
  - f_equal. by apply IH.
Qed.

Lemma get_children_found cs i c t k :
  StronglySorted Z.lt (tag <$> cs) -> Forall wf_edge cs ->
  cs !! i = Some c -> tag c = tok_tag t ->
  get_children cs (t :: k) =
    match strip (edge c) (t :: k) with Some r => tree_get c r | None => None end.
Proof.
  intros Hs He. revert i. induction cs as [|a cs IH]; intros i Hi Ht; [done|].
  simpl. inv He. destruct (strip (edge a) (t :: k)) as [r|] eqn:Ea.
  - assert (i = 0); [|by destruct i; simplify_eq/=; rewrite Ea].
    eapply (sorted_tag_distinct (a :: cs)); [done|done|by instantiate (1 := a)|].
    apply strip_tag in Ea; congruence.
  - destruct i as [|i]; simplify_eq/=.
    + rewrite Ea. apply get_children_none; [done|].
      inv Hs. rename select (Forall _ (tag <$> cs)) into Hf. rewrite Forall_fmap in Hf.
      eapply Forall_impl; [exact Hf|]. simpl. lia.
    + inv Hs. by eapply IH.
Qed.

Lemma tree_get_child n i c k :
  wf n -> children n !! i = Some c -> tree_get n (edge c ++ k) = tree_get c k.
Proof.
  intros Hn Hi. inversion Hn as [n0 Hs Hed _ _ E]; subst n0.
  assert (He : edge c ≠ []) by (apply wf_edge_nonempty; by eapply Forall_lookup_1).
  rewrite tree_get_eq. destruct (edge c) as [|t e] eqn:Ee; [done|]. simpl.
  rewrite (get_children_found _ i c) by (done || (unfold tag; by rewrite Ee)).
  rewrite Ee. change (t :: e ++ k) with ((t :: e) ++ k). by rewrite strip_app.
Qed.

(** ** Name conflicts *)

Definition branch_conflict c k : bool :=
  match strip (edge c) k with
  | Some k' => conflict c k'
  | None => negb (is_static (type c))
  end.

Definition conflict_children cs (t : tok) k : bool :=
  (fix loop (cs : list node) :=
     match cs with
     | [] => false
     | c :: cs' => if decide (tag c = tok_tag t) then branch_conflict c (t :: k) else loop cs'
     end) cs.

Lemma conflict_eq n k :
  conflict n k = match k with [] => false | t :: k' => conflict_children (children n) t k' end.
Proof. destruct n, k; reflexivity. Qed.

Lemma conflict_children_none cs t k :
  Forall (fun c => tag c ≠ tok_tag t) cs -> conflict_children cs t k = false.
Proof. intros Hf. induction Hf as [|c cs Hc Hf IH]; simpl; [done|]. by rewrite decide_False. Qed.

Lemma conflict_children_found cs i c t k :
  StronglySorted Z.lt (tag <$> cs) -> cs !! i = Some c -> tag c = tok_tag t ->
  conflict_children cs t k = branch_conflict c (t :: k).
Proof.
  intros Hs. revert i. induction cs as [|a cs IH]; intros i Hi Ht; [done|]. simpl.
  case_decide as Hd.
  - assert (i = 0) as ->; [|by simplify_eq/=].
    eapply (sorted_tag_distinct (a :: cs)); [done|done|by instantiate (1 := a)|congruence].
  - destruct i as [|i]; simplify_eq/=. apply StronglySorted_inv in Hs as [Hs _]. by eapply IH.
Qed.

Lemma conflict_leaf n k : children n = [] -> conflict n k = false.
Proof. intros Hc. rewrite conflict_eq, Hc. by destruct k. Qed.

(** The conflicts below a child are the conflicts of the prolonged key. *)
Lemma conflict_child n i c k :
  wf n -> children n !! i = Some c -> conflict n (edge c ++ k) = conflict c k.
Proof.
  intros Hn Hi. inversion Hn as [n0 Hs Hed _ _ E]; subst n0.
  assert (He : edge c ≠ []) by (apply wf_edge_nonempty; by eapply Forall_lookup_1).
  rewrite conflict_eq. destruct (edge c) as [|t e] eqn:Ee; [done|]. simpl.
  rewrite (conflict_children_found _ i c) by (done || (unfold tag; by rewrite Ee)).
  unfold branch_conflict. rewrite Ee. change (t :: e ++ k) with ((t :: e) ++ k).
  by rewrite strip_app.
Qed.

(** ** Replacing a child *)

Lemma wf_children_replace n i c c' :
  wf n -> children n !! i = Some c -> tag c' = tag c -> wf_edge c' -> wf c' ->
  wf (replace_child n i c').
Proof.
  intros Hn Hi Ht He Hc'. inv Hn.
  assert (Heq : tag <$> <[i := c']> (children n) = tag <$> children n).
  { rewrite list_fmap_insert. apply list_insert_id. rewrite list_lookup_fmap, Hi. simpl. congruence. }
  constructor; simpl.
  - by rewrite Heq.
  - by apply Forall_insert.
  - by apply Forall_insert.
  - by rewrite length_insert.
Qed.

(** The key map of a node whose child [i] is replaced by one with the same tag:
    other branches are unchanged. *)
Lemma tree_get_replace n i c c' k :
  wf n -> children n !! i = Some c -> tag c' = tag c -> wf_edge c' -> wf c' ->
  tree_get (replace_child n i c') k =
    match k with
    | [] => node_payload n
    | t :: _ =>
        if decide (tok_tag t = tag c)
        then match strip (edge c') k with Some r => tree_get c' r | None => None end
        else tree_get n k
    end.
Proof.
  intros Hn Hi Ht He Hc'.
  pose proof (wf_children_replace _ _ _ _ Hn Hi Ht He Hc') as Hn'.
  rewrite tree_get_eq. destruct k as [|t k]; [done|].
  assert (Hi' : children (replace_child n i c') !! i = Some c').
  { simpl. apply list_lookup_insert_eq. by eapply lookup_lt_Some. }
  inversion Hn' as [n1 Hs' He' _ _ E1]. inversion Hn as [n2 Hs He0 _ _ E2]. subst n1 n2.
  case_decide as Hd.
  - eapply get_children_found; [exact Hs'|exact He'|exact Hi'|congruence].
  - rewrite tree_get_eq.
    destruct (decide (Exists (fun d => tag d = tok_tag t) (children n))) as [Hx|Hx].
    + apply Exists_exists in Hx as (d & Hd1 & Hd2).
      apply list_elem_of_lookup in Hd1 as [j Hj].
      assert (i ≠ j) by (intros ->; simplify_eq; congruence).
      assert (Hj' : children (replace_child n i c') !! j = Some d).
      { simpl. by rewrite list_lookup_insert_ne. }
      rewrite (get_children_found _ j d), (get_children_found (children n) j d); done.
    + rewrite (get_children_none (children n)); [|done|by apply Forall_Exists_neg].
      apply get_children_none; [done|]. simpl.
      apply Forall_insert; [by apply Forall_Exists_neg|congruence].
Qed.

Lemma tree_get_same_child n i c c' :
  wf n -> children n !! i = Some c -> tag c' = tag c -> wf_edge c' -> wf c' ->
  (forall t k, tok_tag t = tag c ->
     match strip (edge c') (t :: k) with Some r => tree_get c' r | None => None end =
     match strip (edge c) (t :: k) with Some r => tree_get c r | None => None end) ->
  forall k, tree_get (replace_child n i c') k = tree_get n k.
Proof.
  intros Hn Hi Ht He Hc' Heq k. rewrite (tree_get_replace n i c c') by done.
  destruct k as [|t k]; [by rewrite tree_get_eq|]. case_decide as Hd; [|done].
  rewrite Heq by done. rewrite (tree_get_eq n). inv Hn. symmetry. by eapply get_children_found.
Qed.

Lemma conflict_same_child n i c c' :
  wf n -> children n !! i = Some c -> tag c' = tag c -> wf_edge c' -> wf c' ->
  (forall k, branch_conflict c' k = branch_conflict c k) ->
  forall k, conflict (replace_child n i c') k = conflict n k.
Proof.
  intros Hn Hi Ht He Hc' Heq k. rewrite !conflict_eq. destruct k as [|t k]; [done|].
  pose proof (wf_children_replace _ _ _ _ Hn Hi Ht He Hc') as Hn'.
  assert (Hi' : children (replace_child n i c') !! i = Some c').
  { simpl. apply list_lookup_insert_eq. by eapply lookup_lt_Some. }
  inversion Hn as [n1 Hs _ _ _ E1]; subst n1. inversion Hn' as [n2 Hs' _ _ _ E2]; subst n2.
  destruct (decide (Exists (fun d => tag d = tok_tag t) (children n))) as [Hx|Hx].
  - apply Exists_exists in Hx as (d & Hd1 & Hd2). apply list_elem_of_lookup in Hd1 as [j Hj].
    rewrite (conflict_children_found (children n) j d) by done.
    destruct (decide (i = j)) as [<-|Hij].
    + simplify_eq. rewrite (conflict_children_found _ i c') by (done || congruence). apply Heq.
    + apply (conflict_children_found _ j d); [done| |done]. simpl. by rewrite list_lookup_insert_ne.
  - apply Forall_Exists_neg in Hx. rewrite (conflict_children_none (children n)) by done.
    apply conflict_children_none. simpl. apply Forall_insert; [done|].
    rewrite Ht. by eapply (Forall_lookup_1 _ _ _ _ Hx Hi).
Qed.

(** An update of the key map of a child is an update of the parent's, at the key
    prolonged by the child's edge. *)
Lemma map_upd_child n i c c' r p :
  wf n -> children n !! i = Some c -> edge c' = edge c -> wf_edge c' -> wf c' ->
  edge c ≠ [] ->
  map_upd (tree_get c) (tree_get c') r p ->
  map_upd (tree_get n) (tree_get (replace_child n i c')) (edge c ++ r) p.
Proof.
  intros Hn Hi Hedge He Hc' Hne [Hnone Hupd].
  assert (Ht : tag c' = tag c) by (unfold tag; by rewrite Hedge).
  assert (Hfound : forall t k, tok_tag t = tag c -> tree_get n (t :: k) =
            match strip (edge c) (t :: k) with Some r => tree_get c r | None => None end).
  { intros t k Htk. rewrite tree_get_eq. inv Hn. by eapply get_children_found. }
  destruct (edge c) as [|t0 e] eqn:Ee; [done|]. split.
  - simpl. rewrite Hfound by (unfold tag; by rewrite Ee).
    change (t0 :: e ++ r) with ((t0 :: e) ++ r). by rewrite strip_app.
  - intros k'. rewrite (tree_get_replace n i c c') by done.
    destruct k' as [|t k']; [by rewrite tree_get_eq|].
    rewrite Hedge. case_decide as Hd.
    + rewrite Hfound by done.
      destruct (strip (t0 :: e) (t :: k')) as [r'|] eqn:Es.
      * apply strip_Some in Es. rewrite Hupd, Es.
        repeat case_decide; try done; simplify_eq/=; simplify_list_eq; done.
      * case_decide as Hk; [|done]. rewrite Hk in Es. simpl in Es.
        rewrite decide_True in Es by done. by rewrite strip_app in Es.
    + case_decide as Hk; [|done]. simplify_eq/=. destruct Hd. unfold tag. by rewrite Ee.
Qed.

(** ** Adding a child *)

Definition add_place c cs : list node :=
  take (child_pos c cs) cs ++ c :: drop (child_pos c cs) cs.

(** On children with different tags, the code's comparison is the tag order. *)
Lemma child_before_tag c d :
  wf_edge c -> wf_edge d -> tag c ≠ tag d ->
  ((node_type_val (type c) <? node_type_val (type d))%Z
   || (bool_decide (type c = type d) && is_static (type c)
       && strcmp_lt (prefix c) (prefix d)))%bool = (tag c <? tag d)%Z.
Proof.
  unfold wf_edge, tag, edge. intros Hc Hd Ht.
  destruct (type c), (type d); simpl in *.
  - destruct Hc as (Hc & _), Hd as (Hd & _).
    destruct (prefix c) as [|x p]; [done|]. destruct (prefix d) as [|y q]; [done|]. simpl in Ht |- *.
    change (match (x :: p) with [] => _ | _ => _ end) with (strcmp_lt (x :: p) (y :: q)).
    apply strcmp_lt_head. congruence.
  - destruct Hc as (Hc & _), Hd as (s & -> & _). destruct (prefix c) as [|x p]; [done|].
    simpl. pose proof (b2z_range x). symmetry. apply Z.ltb_lt. lia.
  - destruct Hc as (Hc & _), Hd as ((s & -> & _) & _). destruct (prefix c) as [|x p]; [done|].
    simpl. pose proof (b2z_range x). symmetry. apply Z.ltb_lt. lia.
  - destruct Hd as (Hd & _), Hc as (s & -> & _). destruct (prefix d) as [|x p]; [done|].
    simpl. pose proof (b2z_range x). symmetry. apply Z.ltb_ge. lia.
  - destruct Hc as (s & -> & _), Hd as (s' & -> & _). done.
  - by destruct Hc as (s & -> & _), Hd as ((s' & -> & _) & _).
  - destruct Hd as (Hd & _), Hc as ((s & -> & _) & _). destruct (prefix d) as [|x p]; [done|].
    simpl. pose proof (b2z_range x). symmetry. apply Z.ltb_ge. lia.
  - by destruct Hc as ((s & -> & _) & _), Hd as (s' & -> & _).
  - by destruct Hc as ((s & -> & _) & _), Hd as ((s' & -> & _) & _).
Qed.

Lemma child_pos_cons c d cs :
  wf_edge c -> wf_edge d -> tag c ≠ tag d ->
  child_pos c (d :: cs) = if (tag c <? tag d)%Z then 0 else S (child_pos c cs).
Proof.
  intros Hc Hd Ht. rewrite <- child_before_tag by done. simpl.
  destruct (_ <? _)%Z; [done|]. simpl. destruct (bool_decide _ && _ && _); done.
Qed.

Lemma add_place_sorted c cs :
  wf_edge c -> Forall wf_edge cs -> StronglySorted Z.lt (tag <$> cs) ->
  Forall (fun d => tag d ≠ tag c) cs ->
  StronglySorted Z.lt (tag <$> add_place c cs).
Proof.
  unfold add_place. intros Hc He Hs Hf. induction cs as [|d cs IH].
  - simpl. repeat constructor.
  - inv He. inv Hf. rewrite fmap_cons in Hs. apply StronglySorted_inv in Hs as [Hs Hlt].
    rewrite child_pos_cons by done. destruct (tag c <? tag d)%Z eqn:E; bprop; simpl.
    + constructor; [by constructor|]. constructor; [done|].
      eapply Forall_impl; [exact Hlt|]. intros z Hz. lia.
    + constructor; [by apply IH|]. rewrite Forall_fmap in Hlt |- *.
      apply Forall_app. split; [by apply Forall_take|].
      constructor; [simpl; lia|by apply Forall_drop].
Qed.

Lemma child_pos_le c cs : child_pos c cs ≤ length cs.
Proof. induction cs as [|d cs IH]; simpl; [done|]. repeat case_match; lia. Qed.

Lemma add_place_lookup c cs : add_place c cs !! child_pos c cs = Some c.
Proof.
  unfold add_place. pose proof (child_pos_le c cs).
  rewrite lookup_app_r by (rewrite length_take; lia).
  by rewrite length_take, Nat.min_l, Nat.sub_diag by done.
Qed.

Lemma Forall_add_place (P : node -> Prop) c cs :
  P c -> Forall P cs -> Forall P (add_place c cs).
Proof.
  intros Hc Hf. apply Forall_app. split; [by apply Forall_take|].
  constructor; [done|by apply Forall_drop].
Qed.

Lemma add_place_subseteq c cs : cs ⊆ add_place c cs.
Proof.
  unfold add_place. rewrite <- (take_drop (child_pos c cs) cs) at 1. set_solver.
Qed.

Lemma length_add_place c cs : length (add_place c cs) = S (length cs).
Proof.
  unfold add_place. rewrite length_app. simpl. rewrite length_take, length_drop.
  pose proof (child_pos_le c cs). lia.
Qed.

Lemma get_children_skip c cs t k :
  wf_edge c -> tag c ≠ tok_tag t ->
  get_children (add_place c cs) (t :: k) = get_children cs (t :: k).
Proof.
  intros He Ht. unfold add_place. generalize (child_pos c cs) as j.
  assert (Hc : strip (edge c) (t :: k) = None).
  { destruct (strip _ _) eqn:E; [by apply strip_tag in E|done]. }
  induction cs as [|d cs IH]; intros j.
  - rewrite take_nil, drop_nil. simpl. by rewrite Hc.
  - destruct j as [|j]; simpl; [by rewrite Hc|].
    destruct (strip (edge d) _); [done|apply IH].
Qed.

(** At most 258 children: the tags are distinct and between 0 and 257. *)
Lemma sorted_bound (l : list Z) lo hi :
  StronglySorted Z.lt l -> Forall (fun z => lo <= z <= hi)%Z l -> (lo <= hi + 1)%Z ->
  (Z.of_nat (length l) <= hi + 1 - lo)%Z.
Proof.
  revert lo. induction l as [|z l IH]; intros lo Hs Hf Hb; simpl; [lia|].
  inv Hs. inv Hf.
  assert (Z.of_nat (length l) <= hi + 1 - (z + 1))%Z; [|lia].
  apply IH; [done| |lia].
  eapply (Forall_impl (fun y => z < y /\ lo <= y <= hi)%Z); [by apply Forall_and|]. simpl. lia.
Qed.

Lemma wf_child_count cs :
  StronglySorted Z.lt (tag <$> cs) -> Forall wf_edge cs -> (Z.of_nat (length cs) <= 258)%Z.
Proof.
  intros Hs He. rewrite <- (length_fmap tag).
  eapply Z.le_trans; [apply (sorted_bound _ 0 257 Hs); [|lia]|lia].
  rewrite Forall_fmap. eapply Forall_impl; [exact He|]. intros c Hc. by apply tag_nonneg.
Qed.

(** ** Summary of one added leaf *)

(** The same edge into both nodes. *)
Definition same_edge n n' : Prop :=
  prefix n' = prefix n /\ type n' = type n /\ param_name n' = param_name n.

Lemma same_edge_edge n n' : same_edge n n' -> edge n' = edge n.
Proof. intros (H1 & H2 & H3). unfold edge. by rewrite H1, H2, H3. Qed.

Definition same_node n n' : Prop :=
  prefix n' = prefix n /\ type n' = type n /\ param_name n' = param_name n
  /\ node_payload n' = node_payload n /\ handler n' = handler n.

Lemma same_node_edge n n' : same_node n n' -> edge n' = edge n.
Proof. intros (H1 & H2 & H3 & _). unfold edge. by rewrite H1, H2, H3. Qed.

(** Adding a child whose tag is free, when memory is available. *)
Lemma add_child_spec n c :
  wf n -> wf_edge c -> wf c -> Forall (fun d => tag d ≠ tag c) (children n) ->
  exists n',
    ioh_radix_node_add_child n c [] = (n', Ok tt, [])
    /\ wf n' /\ same_node n n'
    /\ children n' !! child_pos c (children n) = Some c
    /\ children n ⊆ children n'
    /\ (forall k, tree_get n' k =
          match k with
          | [] => node_payload n
          | t :: _ =>
              if decide (tag c = tok_tag t)
              then match strip (edge c) k with Some r => tree_get c r | None => None end
              else tree_get n k
          end).
Proof.
  intros Hn He Hc Hf. inversion Hn as [n0 Hs Hed Hwf Hcap E]; subst n0.
  pose proof (wf_child_count _ Hs Hed) as Hcnt.
  pose proof (add_place_sorted _ _ He Hed Hs Hf) as Hs'.
  assert (Hed' : Forall wf_edge (add_place c (children n))) by by apply Forall_add_place.
  assert (Hwf' : Forall wf (add_place c (children n))) by by apply Forall_add_place.
  set (cap' := if (child_capacity n <=? Z.of_nat (length (children n)))%Z
               then (if (child_capacity n =? 0)%Z then 4 else u32 (child_capacity n * 2))%Z
               else child_capacity n).
  exists (set_capacity (set_children n (add_place c (children n))) cap').
  assert (Hcap' : (Z.of_nat (S (length (children n))) <= cap' <= 1024)%Z).
  { unfold cap'. destruct (_ <=? _)%Z eqn:E1; bprop; [|lia].
    destruct (_ =? _)%Z eqn:E2; bprop; [lia|]. rewrite u32_small; lia. }
  split; [|split; [|split; [done|split; [apply add_place_lookup|split; [|]]]]].
  - unfold ioh_radix_node_add_child, cap'. destruct (_ <=? _)%Z; [|by destruct n].
    simpl. by destruct n.
  - constructor; simpl; [done..|]. by rewrite length_add_place.
  - apply add_place_subseteq.
  - intros k. rewrite !tree_get_eq. destruct k as [|t k]; [done|]. simpl.
    case_decide as Ht.
    + apply (get_children_found _ _ c t k Hs' Hed' (add_place_lookup c _) Ht).
    + by apply get_children_skip.
Qed.

(** A free tag means no key starts with it. *)
Lemma tree_get_free_tag n t k :
  wf n -> Forall (fun d => tag d ≠ tok_tag t) (children n) -> tree_get n (t :: k) = None.
Proof. intros Hn Hf. inv Hn. rewrite tree_get_eq. by apply get_children_none. Qed.

Lemma tree_get_leaf n k : children n = [] -> handler n = None -> tree_get n k = None.
Proof.
  intros Hc Hh. rewrite tree_get_eq. unfold node_payload. rewrite Hh, Hc. by destruct k.
Qed.

Lemma wf_leaf n : children n = [] -> (0 <= child_capacity n <= 1024)%Z -> wf n.
Proof.
  intros Hc Hp. constructor; rewrite ?Hc; simpl; [constructor..|lia].
Qed.

(** ** Transport along updates that keep children and payload *)

Lemma tree_get_priority n z k : tree_get (set_priority n z) k = tree_get n k.
Proof. rewrite !tree_get_eq. by destruct k. Qed.

Lemma wf_priority n z : wf n -> wf (set_priority n z).
Proof. intros Hn. inv Hn. by constructor. Qed.

Lemma tree_get_incr n k : tree_get (ioh_radix_increment_priority n) k = tree_get n k.
Proof. apply tree_get_priority. Qed.

Lemma conflict_incr n k : conflict (ioh_radix_increment_priority n) k = conflict n k.
Proof. by rewrite !conflict_eq. Qed.

Lemma wf_incr n : wf n -> wf (ioh_radix_increment_priority n).
Proof. apply wf_priority. Qed.

Lemma wf_payload n p : wf n -> wf (set_payload n p).
Proof. intros Hn. inv Hn. by constructor. Qed.

Lemma tree_get_payload n p k :
  tree_get (set_payload n p) k = match k with [] => Some p | _ :: _ => tree_get n k end.
Proof. rewrite !tree_get_eq. destruct k; simpl; [by destruct p|done]. Qed.

(** A registration stored in a node without one updates the empty key. *)
Lemma map_upd_payload n p :
  handler n = None ->
  map_upd (tree_get n) (tree_get (ioh_radix_increment_priority (set_payload n p))) [] p.
Proof.
  intros Hh. split; [rewrite tree_get_eq; unfold node_payload; by rewrite Hh|].
  intros k'. rewrite tree_get_incr, tree_get_payload. by destruct k'.
Qed.

End TreeMap.
