(* ===== verification/RadixLookup.v ===== *)
(** Lookup in the radix trie.  [all_go] enumerates every way a path matches, in
    priority order and without the parameter limit; the code's backtracking
    search [lookup_go] returns the first of them that fits in the parameter
    array, and leaves the match record untouched when there is none. *)
From S2P Require Import Prelude CString Radix RadixMap.

#[local] Opaque IOH_MAX_PATH_PARAMS.

Section Lookup.
Context {H M : Type}.
Abbreviation node := (ioh_radix_node_t H M).
Abbreviation rmatch := (ioh_radix_match_t H M).
Abbreviation hit := (list ioh_param_t * payload H M)%type.
Implicit Types (n c : node) (cs : list node) (p : payload H M).

(** ** All matches, in priority order *)

Section AllLoops.
Context (go : node -> option nat -> bytes -> list hit).

(** STATIC children whose prefix is a prefix of the (rest of the) segment. *)
Definition static_hits (seg : bytes) (seg_len : nat) c : list hit :=
  if is_static (type c) && (length (prefix c) <=? seg_len)
     && memcmp_eq seg (prefix c) (length (prefix c))
  then if length (prefix c) =? seg_len then go c None (drop seg_len seg)
       else go c (Some (seg_len - length (prefix c))) (drop (length (prefix c)) seg)
  else [].

(** PARAM children capture the segment. *)
Definition param_hits (path : bytes) (seg_len : nat) c : list hit :=
  if is_param (type c)
  then (fun '(ps, p) => (mk_param (default [] (param_name c)) path seg_len :: ps, p))
         <$> go c None (drop seg_len path)
  else [].
End AllLoops.

(** WILDCARD children capture the rest of the path. *)
Definition wild_hits (path : bytes) c : list hit :=
  if is_wildcard (type c)
  then match node_payload c with
       | Some p => [([mk_param (default [] (param_name c)) path (length path)], p)]
       | None => []
       end
  else [].

(** The hits of each child in turn. *)
Definition over (f : node -> list hit) : list node -> list hit :=
  fix loop cs := match cs with [] => [] | c :: cs' => f c ++ loop cs' end.

Fixpoint all_go n (mode : option nat) (path : bytes) : list hit :=
  match mode with
  | Some seg_len => over (static_hits all_go path seg_len) (children n)
  | None =>
      match skip_slash path with
      | [] => match node_payload n with Some p => [([], p)] | None => [] end
      | path =>
          let seg_len := length (fst (span not_slash path)) in
          over (static_hits all_go path seg_len) (children n)
          ++ over (param_hits all_go path seg_len) (children n)
          ++ over (wild_hits path) (children n)
      end
  end.

(** The first hit that still fits when [used] parameters are already recorded. *)
Definition fits (used : nat) (r : hit) : bool := used + length (fst r) <=? IOH_MAX_PATH_PARAMS.

Fixpoint first_fit (used : nat) (l : list hit) : option hit :=
  match l with
  | [] => None
  | r :: l' => if fits used r then Some r else first_fit used l'
  end.

(** ** Induction on trees *)

Lemma node_ind' (P : node -> Prop) :
  (forall n, Forall P (children n) -> P n) -> forall n, P n.
Proof.
  intros Hstep. fix IH 1. intros n. apply Hstep. destruct n as [? ? ? ? ? ? cs ? ?]. simpl.
  induction cs as [|c cs IHcs]; constructor; [apply IH|exact IHcs].
Qed.

Lemma all_go_eq n mode path :
  all_go n mode path =
  match mode with
  | Some seg_len => over (static_hits all_go path seg_len) (children n)
  | None =>
      match skip_slash path with
      | [] => match node_payload n with Some p => [([], p)] | None => [] end
      | b :: q =>
          over (static_hits all_go (b :: q) (length (fst (span not_slash (b :: q))))) (children n)
          ++ over (param_hits all_go (b :: q) (length (fst (span not_slash (b :: q))))) (children n)
          ++ over (wild_hits (b :: q)) (children n)
      end
  end.
Proof. destruct n, mode; reflexivity. Qed.

Lemma lookup_go_eq n mode path m :
  lookup_go n mode path m =
  match mode with
  | Some seg_len => lookup_static_loop lookup_go path seg_len (children n) m
  | None =>
      match skip_slash path with
      | [] => match handler n with
              | Some hd => (mk_match (Some hd) (metadata n) (meta n) (m_params m), true)
              | None => (m, false)
              end
      | b :: q =>
          let seg_len := length (fst (span not_slash (b :: q))) in
          let '(m, ok) := lookup_static_loop lookup_go (b :: q) seg_len (children n) m in
          if ok then (m, true) else
          let '(m, ok, full) := lookup_param_loop lookup_go (b :: q) seg_len (children n) m in
          if ok then (m, true) else if full then (m, false) else
          lookup_wildcard_loop (b :: q) (children n) m
      end
  end.
Proof. destruct n, mode; reflexivity. Qed.

(** ** [lookup_go] returns the first hit that fits *)

Definition deliver (m : rmatch) (o : option hit) : rmatch * bool :=
  match o with
  | Some (ps, p) => (mk_match (Some (pl_handler p)) (pl_metadata p) (pl_meta p) (m_params m ++ ps), true)
  | None => (m, false)
  end.

Lemma fits_false used (r : hit) : IOH_MAX_PATH_PARAMS < used + length (fst r) -> fits used r = false.
Proof. apply Nat.leb_gt. Qed.

Lemma fits_true used (r : hit) : used + length (fst r) ≤ IOH_MAX_PATH_PARAMS -> fits used r = true.
Proof. apply Nat.leb_le. Qed.

Lemma first_fit_app used (l1 l2 : list hit) :
  first_fit used (l1 ++ l2) =
  match first_fit used l1 with Some r => Some r | None => first_fit used l2 end.
Proof. induction l1 as [|r l1 IH]; simpl; [done|]. by destruct (fits used r). Qed.

(** Prepending one captured parameter uses one slot. *)
Lemma first_fit_capture used x (l : list hit) :
  first_fit used ((fun '(ps, p) => (x :: ps, p)) <$> l) =
  (fun '(ps, p) => (x :: ps, p)) <$> first_fit (S used) l.
Proof.
  induction l as [|[ps p] l IH]; simpl; [done|]. unfold fits at 1 2. simpl fst. simpl length.
  replace (used + S (length ps)) with (S used + length ps) by lia.
  destruct (_ <=? _); [done|apply IH].
Qed.

(** With the array full, only hits without captures remain. *)
Lemma first_fit_full used (l : list hit) :
  IOH_MAX_PATH_PARAMS ≤ used -> Forall (fun r => fst r ≠ []) l -> first_fit used l = None.
Proof.
  intros Hu Hf. induction Hf as [|[ps p] l Hr Hf IH]; cbn [first_fit]; [done|].
  simpl in Hr. destruct ps as [|x ps]; [done|]. rewrite fits_false; [done|]. simpl. lia.
Qed.

Definition lookup_ok n : Prop :=
  forall mode path m, length (m_params m) ≤ IOH_MAX_PATH_PARAMS ->
    lookup_go n mode path m = deliver m (first_fit (length (m_params m)) (all_go n mode path)).

Lemma static_loop_spec cs seg len m :
  Forall lookup_ok cs -> length (m_params m) ≤ IOH_MAX_PATH_PARAMS ->
  lookup_static_loop lookup_go seg len cs m =
  deliver m (first_fit (length (m_params m)) (over (static_hits all_go seg len) cs)).
Proof.
  intros Hf Hm. induction Hf as [|c cs Hc Hf IH]; [done|]. simpl.
  rewrite first_fit_app. unfold static_hits at 1.
  destruct (is_static (type c)); simpl; [|done].
  rewrite Nat.ltb_antisym. destruct (length (prefix c) <=? len); simpl; [|done].
  destruct (memcmp_eq seg (prefix c) (length (prefix c))); simpl; [|done].
  destruct (length (prefix c) =? len); rewrite Hc by done;
    destruct (first_fit _ (all_go c _ _)) as [[ps p]|]; done.
Qed.

Lemma param_loop_spec cs path len m :
  Forall lookup_ok cs -> length (m_params m) ≤ IOH_MAX_PATH_PARAMS ->
  let '(m', ok, full) := lookup_param_loop lookup_go path len cs m in
  (m', ok) = deliver m (first_fit (length (m_params m)) (over (param_hits all_go path len) cs))
  /\ (full = true -> IOH_MAX_PATH_PARAMS ≤ length (m_params m) /\ ok = false).
Proof.
  intros Hf Hm. induction Hf as [|c cs Hc Hf IH]; [done|]. simpl.
  rewrite first_fit_app. unfold param_hits at 1.
  destruct (is_param (type c)); simpl; [|exact IH].
  rewrite first_fit_capture. destruct (IOH_MAX_PATH_PARAMS <=? length (m_params m)) eqn:El; bprop.
  - assert (Hno : forall l, first_fit (S (length (m_params m))) l = None).
    { intros l. induction l as [|[ps p] l IHl]; cbn [first_fit]; [done|].
      rewrite fits_false; [done|]. simpl. lia. }
    rewrite Hno. simpl. split; [|by intros _]. rewrite first_fit_full; [done|done|].
    clear. induction cs as [|d cs IH]; simpl; [done|]. apply Forall_app. split; [|done].
    unfold param_hits. destruct (is_param _); [|done]. rewrite Forall_fmap.
    apply Forall_forall. by intros [ps p] _.
  - set (x := mk_param _ path len).
    set (m1 := mk_match (m_handler m) (m_metadata m) (m_meta m) (m_params m ++ [x])).
    rewrite (Hc None (drop len path) m1) by (simpl; rewrite length_app; simpl; lia).
    simpl m_params. rewrite length_app, Nat.add_1_r.
    destruct (first_fit (S (length (m_params m))) _) as [[ps p]|]; simpl.
    + split; [|done]. by rewrite <- app_assoc.
    + rewrite take_app_length. destruct m as [mh mm mt mp]. simpl in *. exact IH.
Qed.

Lemma wildcard_loop_spec cs path m :
  length (m_params m) ≤ IOH_MAX_PATH_PARAMS ->
  lookup_wildcard_loop path cs m =
  deliver m (first_fit (length (m_params m)) (over (wild_hits path) cs)).
Proof.
  intros Hm. induction cs as [|c cs IH]; [done|]. simpl. rewrite first_fit_app.
  unfold wild_hits at 1, node_payload.
  destruct (is_wildcard (type c)); simpl; [|done].
  destruct (handler c) as [hd|]; simpl; [|done].
  destruct (IOH_MAX_PATH_PARAMS <=? length (m_params m)) eqn:El; bprop.
  - rewrite fits_false by (simpl; lia). rewrite first_fit_full; [done|done|]. clear.
    induction cs as [|d cs IH]; simpl; [done|]. apply Forall_app. split; [|done].
    unfold wild_hits. destruct (is_wildcard _); [|done]. by destruct (node_payload d); repeat constructor.
  - by rewrite fits_true by (simpl; lia).
Qed.

Lemma lookup_go_spec n : lookup_ok n.
Proof.
  induction n as [n IH] using node_ind'. intros mode path m Hm.
  rewrite lookup_go_eq, all_go_eq. destruct mode as [len|]; [by apply static_loop_spec|].
  destruct (skip_slash path) as [|b q].
  - unfold node_payload. destruct (handler n); simpl; [|done].
    rewrite fits_true by (simpl; lia). simpl. by rewrite app_nil_r.
  - cbv zeta. rewrite (static_loop_spec _ _ _ m IH Hm), !first_fit_app.
    destruct (first_fit _ (over (static_hits _ _ _) _)) as [[ps p]|]; simpl; [done|].
    pose proof (param_loop_spec (children n) (b :: q)
                  (length (fst (span not_slash (b :: q)))) m IH Hm) as Hp.
    destruct (lookup_param_loop _ _ _ _ m) as [[m' ok] full]. destruct Hp as [Hp Hfull].
    destruct (first_fit _ (over (param_hits _ _ _) _)) as [[ps p]|]; simpl in Hp; simplify_eq; [done|].
    destruct full; [|by apply wildcard_loop_spec].
    destruct Hfull as [Hfull _]; [done|].
    rewrite first_fit_full; [done|done|]. clear.
    induction (children n) as [|d cs IH]; simpl; [done|]. apply Forall_app. split; [|done].
    unfold wild_hits. destruct (is_wildcard _); [|done]. by destruct (node_payload d); repeat constructor.
Qed.

(** ** Insertions only add hits *)

Lemma elem_of_over (f : node -> list hit) cs x : x ∈ over f cs <-> exists c, c ∈ cs /\ x ∈ f c.
Proof.
  induction cs as [|c cs IH]; simpl.
  - split; [by intros ?%not_elem_of_nil|by intros (c & ?%not_elem_of_nil & _)].
  - rewrite elem_of_app, IH. split.
    + intros [Hx|(d & Hd & Hx)]; [exists c|exists d]; set_solver.
    + intros (d & Hd & Hx). apply elem_of_cons in Hd as [->|Hd]; [by left|right; eauto].
Qed.

Definition hits_le n n' : Prop :=
  forall mode path x, x ∈ all_go n mode path -> x ∈ all_go n' mode path.

(** The hits a parent gets through child [c] are hits through [c']. *)
Definition branch_le c c' : Prop :=
  (forall seg len x, x ∈ static_hits all_go seg len c -> x ∈ static_hits all_go seg len c')
  /\ (forall path len x, x ∈ param_hits all_go path len c -> x ∈ param_hits all_go path len c')
  /\ (forall path x, x ∈ wild_hits path c -> x ∈ wild_hits path c').

Lemma hits_le_gen n n' :
  (forall p, node_payload n = Some p -> node_payload n' = Some p) ->
  (forall c, c ∈ children n -> exists c', c' ∈ children n' /\ branch_le c c') ->
  hits_le n n'.
Proof.
  intros Hp Hc. assert (Hover : forall (f : node -> list hit) x,
    (forall c c', branch_le c c' -> x ∈ f c -> x ∈ f c') ->
    x ∈ over f (children n) -> x ∈ over f (children n')).
  { intros f x Hf. rewrite !elem_of_over. intros (c & Hin & Hx).
    destruct (Hc c Hin) as (c' & Hin' & Hb). exists c'. split; [done|]. by eapply Hf. }
  intros mode path x. rewrite (all_go_eq n), (all_go_eq n'). destruct mode as [len|].
  - apply Hover. intros c c' (Hb & _). apply Hb.
  - destruct (skip_slash path) as [|b q].
    + destruct (node_payload n) as [p|]; [|by intros ?%not_elem_of_nil]. by rewrite (Hp p).
    + rewrite !elem_of_app. intros [Hx|[Hx|Hx]]; [left|right; left|right; right]; revert Hx;
        apply Hover; intros c c' (Hb1 & Hb2 & Hb3); auto.
Qed.

Lemma hits_le_payload n n' p :
  hits_le n n' -> node_payload n = Some p -> node_payload n' = Some p.
Proof.
  intros Hle Hp. specialize (Hle None [] ([], p)). rewrite !all_go_eq in Hle. simpl in Hle.
  rewrite Hp in Hle. destruct (node_payload n') as [p'|]; [|set_solver].
  specialize (Hle ltac:(set_solver)). apply list_elem_of_singleton in Hle. congruence.
Qed.

Lemma branch_le_same c c' : same_edge c c' -> hits_le c c' -> branch_le c c'.
Proof.
  intros (H1 & H2 & H3) Hle. unfold branch_le, static_hits, param_hits, wild_hits.
  rewrite H1, H2, H3. split_and!.
  - intros seg len x. destruct (_ && _ && _); [|done]. destruct (_ =? _); apply Hle.
  - intros path len x. destruct (is_param _); [|done]. rewrite !list_elem_of_fmap.
    intros ([ps p] & -> & Hx). exists (ps, p). split; [done|]. by apply Hle.
  - intros path x. destruct (is_wildcard _); [|done].
    destruct (node_payload c) as [p|] eqn:E; [|by intros ?%not_elem_of_nil].
    by rewrite (hits_le_payload c c' p Hle E).
Qed.

Lemma hits_le_refl n : hits_le n n.
Proof. by intros mode path x. Qed.

Lemma hits_le_trans n1 n2 n3 : hits_le n1 n2 -> hits_le n2 n3 -> hits_le n1 n3.
Proof. intros H1 H2 mode path x Hx. by apply H2, H1. Qed.

Lemma hits_le_replace n i c c' :
  children n !! i = Some c -> branch_le c c' -> hits_le n (replace_child n i c').
Proof.
  intros Hi Hb. apply hits_le_gen; [done|]. simpl. intros d Hd.
  apply list_elem_of_lookup in Hd as [j Hj]. destruct (decide (i = j)) as [<-|Hij].
  - simplify_eq. exists c'. split; [|done]. apply list_elem_of_lookup. exists i.
    apply list_lookup_insert_eq. by eapply lookup_lt_Some.
  - exists d. split; [|by apply branch_le_same; [|apply hits_le_refl]].
    apply list_elem_of_lookup. exists j. by rewrite list_lookup_insert_ne.
Qed.

Lemma hits_le_more_children n n' :
  node_payload n' = node_payload n -> children n ⊆ children n' -> hits_le n n'.
Proof.
  intros Hp Hc. apply hits_le_gen; [congruence|]. intros c Hin. exists c.
  split; [set_solver|]. by apply branch_le_same; [|apply hits_le_refl].
Qed.

Lemma hits_le_set_payload n p : handler n = None -> hits_le n (set_payload n p).
Proof.
  intros Hh. apply hits_le_gen.
  - intros p'. unfold node_payload. by rewrite Hh.
  - intros c Hin. exists c. split; [done|]. by apply branch_le_same; [|apply hits_le_refl].
Qed.

(** Hits do not depend on a node's own prefix or priority. *)
Lemma all_go_ext n n' :
  node_payload n' = node_payload n -> children n' = children n ->
  forall mode path, all_go n' mode path = all_go n mode path.
Proof. intros Hp Hc mode path. rewrite (all_go_eq n), (all_go_eq n'). by rewrite Hp, Hc. Qed.

(** A STATIC edge split in two matches whatever it matched before. *)
Lemma branch_le_split c inter ex l :
  type c = IOH_NODE_STATIC -> type inter = IOH_NODE_STATIC -> type ex = IOH_NODE_STATIC ->
  l < length (prefix c) ->
  prefix inter = take l (prefix c) -> prefix ex = drop l (prefix c) ->
  children inter = [ex] -> (forall mode path, all_go ex mode path = all_go c mode path) ->
  branch_le c inter.
Proof.
  intros Hc Hi He Hl Hpi Hpe Hch Hgo. unfold branch_le, param_hits, wild_hits.
  rewrite Hc, Hi. split_and!; [|done|done]. intros seg len x.
  unfold static_hits. rewrite Hc, Hi, Hpi.
  replace (length (take l (prefix c))) with l by (rewrite length_take; lia).
  destruct (length (prefix c) <=? len) eqn:E1; [|by intros ?%not_elem_of_nil].
  destruct (memcmp_eq seg (prefix c) _) eqn:E2; [|by intros ?%not_elem_of_nil].
  bprop. unfold memcmp_eq in E2. bprop. rewrite firstn_all in E2.
  assert (Hm : memcmp_eq seg (take l (prefix c)) l = true).
  { unfold memcmp_eq. apply bytes_eqb_true. rewrite <- E2, !take_take. f_equal. lia. }
  rewrite Hm. replace (l <=? len) with true by (symmetry; apply Nat.leb_le; lia).
  test_false (l =? len). simpl.
  rewrite (all_go_eq inter), Hch. cbn [over]. rewrite app_nil_r.
  unfold static_hits. rewrite He, Hpe, length_drop.
  replace (_ <=? len - l) with true by (symmetry; apply Nat.leb_le; lia).
  assert (Hm2 : memcmp_eq (drop l seg) (drop l (prefix c)) (length (prefix c) - l) = true).
  { unfold memcmp_eq. apply bytes_eqb_true. rewrite !take_drop_commute.
    replace (l + (length (prefix c) - l)) with (length (prefix c)) by lia.
    by rewrite E2, firstn_all. }
  rewrite Hm2. simpl. rewrite !drop_drop, !Hgo.
  replace (l + (len - l)) with len by lia.
  replace (l + (length (prefix c) - l)) with (length (prefix c)) by lia.
  replace (len - l - (length (prefix c) - l)) with (len - length (prefix c)) by lia.
  destruct (length (prefix c) =? len) eqn:E; bprop.
  - by rewrite E, Nat.eqb_refl.
  - by test_false (_ =? len - l).
Qed.

(** ** A hit without captures comes first *)

Lemma static_hits_distinct cs i j c d seg len x y :
  StronglySorted Z.lt (tag <$> cs) -> Forall wf_edge cs ->
  cs !! i = Some c -> cs !! j = Some d ->
  x ∈ static_hits all_go seg len c -> y ∈ static_hits all_go seg len d -> i = j.
Proof.
  intros Hs He Hi Hj Hx Hy. eapply sorted_tag_distinct; try done.
  assert (Htag : forall c x, wf_edge c -> x ∈ static_hits all_go seg len c ->
            exists b, head seg = Some b /\ tag c = b2z b).
  { clear. intros c x Hc Hx. unfold static_hits in Hx.
    destruct (is_static (type c)) eqn:Et; [|by apply not_elem_of_nil in Hx]. unfold is_static in Et. bprop.
    destruct (_ <=? _); [|by apply not_elem_of_nil in Hx].
    destruct (memcmp_eq _ _ _) eqn:Em; [|by apply not_elem_of_nil in Hx].
    unfold memcmp_eq in Em. bprop. unfold tag, edge. rewrite Et.
    unfold wf_edge in Hc. rewrite Et in Hc. destruct Hc as (Hc & _).
    destruct (prefix c) as [|b q]; [done|]. destruct seg as [|b' seg]; [done|].
    simpl in Em. exists b'. split; [done|]. simpl. congruence. }
  rewrite Forall_lookup in He.
  destruct (Htag c x) as (b & Hb & ->); eauto. destruct (Htag d y) as (b' & Hb' & ->); eauto. congruence.
Qed.

Definition first_is n : Prop :=
  forall mode path p, ([], p) ∈ all_go n mode path -> exists l, all_go n mode path = ([], p) :: l.

Lemma over_first seg len cs p :
  StronglySorted Z.lt (tag <$> cs) -> Forall wf_edge cs -> Forall first_is cs ->
  ([], p) ∈ over (static_hits all_go seg len) cs ->
  exists l, over (static_hits all_go seg len) cs = ([], p) :: l.
Proof.
  intros Hs He Hf Hin. apply elem_of_over in Hin as (c & Hc & Hx).
  apply list_elem_of_lookup in Hc as [i Hi].
  assert (Hone : exists l, static_hits all_go seg len c = ([], p) :: l).
  { apply (Forall_lookup_1 _ _ _ _ Hf) in Hi. unfold static_hits in Hx |- *.
    destruct (_ && _ && _); [|by apply not_elem_of_nil in Hx].
    destruct (_ =? _); by apply Hi. }
  destruct Hone as [l Hl].
  assert (Hpre : over (static_hits all_go seg len) (take i cs) = []).
  { destruct (over _ (take i cs)) as [|y r] eqn:E; [done|].
    assert (Hy : y ∈ over (static_hits all_go seg len) (take i cs)) by (rewrite E; set_solver).
    apply elem_of_over in Hy as (d & Hd & Hy). apply list_elem_of_lookup in Hd as [j Hj].
    pose proof (lookup_lt_Some _ _ _ Hj) as Hlt. rewrite length_take in Hlt.
    rewrite lookup_take_lt in Hj by lia.
    assert (i = j) by (eapply static_hits_distinct; done). lia. }
  assert (Happ : forall a b, over (static_hits all_go seg len) (a ++ b) =
            over (static_hits all_go seg len) a ++ over (static_hits all_go seg len) b).
  { intros a b. induction a as [|z a IH]; simpl; [done|]. by rewrite IH, app_assoc. }
  rewrite <- (take_drop_middle _ _ _ Hi), Happ, Hpre. simpl. rewrite Hl. by eexists.
Qed.

Lemma no_capture_first n : wf n -> first_is n.
Proof.
  induction n as [n IH] using node_ind'. intros Hn. inv Hn.
  assert (Hf : Forall first_is (children n)).
  { apply Forall_forall. intros c Hc. rewrite Forall_forall in *. auto. }
  intros mode path p. rewrite all_go_eq. destruct mode as [len|]; [by apply over_first|].
  destruct (skip_slash path) as [|b q].
  - destruct (node_payload n); [|by intros ?%not_elem_of_nil].
    intros ->%list_elem_of_singleton. by eexists.
  - rewrite !elem_of_app. intros [Hx|[Hx|Hx]].
    + apply over_first in Hx as [l Hl]; [|done..]. rewrite Hl. by eexists.
    + apply elem_of_over in Hx as (c & _ & Hx). unfold param_hits in Hx.
      destruct (is_param _); [|by apply not_elem_of_nil in Hx].
      apply list_elem_of_fmap in Hx as ([ps p'] & ? & _). done.
    + apply elem_of_over in Hx as (c & _ & Hx). unfold wild_hits in Hx.
      destruct (is_wildcard _); [|by apply not_elem_of_nil in Hx].
      destruct (node_payload c); [|by apply not_elem_of_nil in Hx].
      by apply list_elem_of_singleton in Hx.
Qed.

End Lookup.
