(* ===== verification/RadixInsert.v ===== *)
(** Correctness of [ioh_radix_insert] against the key map of [RadixMap]: every
    insertion keeps the tree well formed; a successful one adds exactly the
    pattern's key, a failed one changes no key. *)
From S2P Require Import Prelude CString Radix RadixMap RadixLookup.

(** ** Keys of patterns *)

Definition key_of (pat : bytes) : option (list tok) := pattern_key (S (length pat)) pat.

(** The pattern after an optional leading slash, cut at the next slash. *)
Lemma next_segment_spec pat :
  match next_segment pat with
  | (None, len, next) => len = 0 /\ next = []
  | (Some seg, len, next) =>
      seg ≠ [] /\ suffix seg pat /\ len ≤ length seg /\ next = drop len seg
      /\ Forall (fun b => not_slash b = true) (take len seg)
      /\ match next with [] => True | b :: _ => b = SLASH end
  end.
Proof.
  unfold next_segment.
  set (q := match pat with b :: r => if b =b SLASH then r else pat | [] => [] end).
  assert (Hq : suffix q pat).
  { unfold q. destruct pat as [|b r]; [done|]. destruct (b =b SLASH); [|done].
    by exists [b]. }
  clearbody q. destruct q as [|x q]; [done|].
  destruct (span not_slash (x :: q)) as [s r] eqn:Es.
  pose proof (span_fst not_slash (x :: q)) as Hf. pose proof (span_len not_slash (x :: q)) as Hl.
  pose proof (span_snd_drop not_slash (x :: q)) as Hd.
  pose proof (span_fst_take not_slash (x :: q)) as Ht.
  rewrite Es in Hf, Hl, Hd, Ht. simpl fst in *. simpl snd in *.
  split; [done|]. split; [done|]. split; [done|]. split; [done|]. split; [by rewrite <- Ht|].
  destruct r as [|b r]; [done|].
  apply not_slash_false. apply (span_snd not_slash (x :: q) b r). by rewrite Es.
Qed.

Lemma next_shorter pat seg len next :
  next_segment pat = (Some seg, len, next) -> 0 < len -> length next < length pat.
Proof.
  intros E Hl. pose proof (next_segment_spec pat) as Hs. rewrite E in Hs.
  destruct Hs as (_ & Hsuf & Hle & -> & _). apply suffix_length in Hsuf.
  rewrite length_drop. lia.
Qed.

Lemma pattern_key_fuel f1 f2 pat :
  length pat < f1 -> length pat < f2 -> pattern_key f1 pat = pattern_key f2 pat.
Proof.
  revert f2 pat. induction f1 as [|f1 IH]; intros [|f2] pat H1 H2; try lia. simpl.
  destruct (next_segment pat) as [[[seg|] len] next] eqn:E; [|done].
  destruct len as [|len]; [done|].
  pose proof (next_shorter _ _ _ _ E ltac:(lia)).
  rewrite (IH f2 next) by lia. done.
Qed.

(** The defining equation of [key_of]. *)
Lemma key_of_eq pat :
  key_of pat =
  match next_segment pat with
  | (None, _, _) | (Some _, 0, _) => Some []
  | (Some seg, seg_len, next) =>
      let name := take (seg_len - 1) (drop 1 seg) in
      if char_at seg 0 =b "*"%byte then
        match next with
        | [] => if seg_len - 1 =? 0 then None else Some [TWild name]
        | _ :: _ => None
        end
      else if char_at seg 0 =b ":"%byte then
        if seg_len - 1 =? 0 then None else (TParam name ::.) <$> key_of next
      else ((TChar <$> take seg_len seg) ++.) <$> key_of next
  end.
Proof.
  unfold key_of at 1. simpl. destruct (next_segment pat) as [[[seg|] len] next] eqn:E; [|done].
  destruct len as [|len]; [done|].
  pose proof (next_shorter _ _ _ _ E ltac:(lia)).
  unfold key_of. rewrite (pattern_key_fuel (length pat) (S (length next)) next) by lia.
  destruct (pattern_key (S (length next)) next); done.
Qed.

(** ** Common prefixes *)

Lemma common_prefix_spec (a b : bytes) :
  let l := common_prefix_len a b in
  l ≤ length a /\ l ≤ length b /\ take l a = take l b
  /\ (forall x y, a !! l = Some x -> b !! l = Some y -> x ≠ y).
Proof.
  revert b. induction a as [|x a IH]; intros [|y b]; simpl;
    try (repeat split; try lia; done).
  destruct (x =b y) eqn:E; bprop.
  - subst. destruct (IH b) as (? & ? & Ht & Hn). repeat split; [simpl; lia..| |done].
    simpl. by rewrite Ht.
  - repeat split; [simpl; lia..|]. simpl. congruence.
Qed.

(** A prefix without slashes cannot be shared beyond the end of the segment. *)
Lemma common_prefix_segment (seg pfx : bytes) (len : nat) :
  Forall (fun b => not_slash b = true) pfx -> len ≤ length seg ->
  match drop len seg with [] => True | b :: _ => b = SLASH end ->
  common_prefix_len seg pfx ≤ len.
Proof.
  intros Hp Hl Hn. destruct (common_prefix_spec seg pfx) as (H1 & H2 & Ht & _).
  destruct (decide (common_prefix_len seg pfx ≤ len)) as [|Hgt]; [done|].
  assert (Hlt : len < length seg) by lia.
  apply lookup_lt_is_Some in Hlt as [b Hb].
  rewrite (drop_S _ _ _ Hb) in Hn. subst b.
  assert (Hb' : take (common_prefix_len seg pfx) pfx !! len = Some SLASH).
  { rewrite <- Ht. by rewrite lookup_take_lt by lia. }
  rewrite lookup_take_lt in Hb' by lia.
  rewrite Forall_lookup in Hp. by specialize (Hp _ _ Hb').
Qed.

Section Insert.
Context {H M : Type}.
Abbreviation node := (ioh_radix_node_t H M).
Implicit Types (n c : node) (cs : list node) (k : list tok) (p : payload H M).

(** ** Outcomes *)

(** What an insertion below [n] of key [ko] may do to the key map: it fails only
    on a malformed pattern, a key that is taken, or a name conflict. *)
Definition outcome n n' (rc : res unit) (ko : option (list tok)) p : Prop :=
  match rc with
  | Ok _ => exists k, ko = Some k /\ map_upd (tree_get n) (tree_get n') k p
  | Err _ => forall k, tree_get n' k = tree_get n k
  end.

(** The postcondition of an insertion below [n]: besides the key map, every
    match of the old tree is one of the new tree, and a successful insertion
    establishes [F], the matches of the new pattern. *)
Definition Post n (ko : option (list tok)) p (F : node -> Prop)
    (r : option (node * res unit * heap)) : Prop :=
  exists n' rc,
    r = Some (n', rc, []) /\ wf n' /\ same_edge n n' /\ outcome n n' rc ko p
    /\ (forall k, ko = Some k -> tree_get n k = None -> conflict n k = false -> rc = Ok tt)
    /\ hits_le n n' /\ (rc = Ok tt -> F n').

(** A path that continues after a segment. *)
Definition at_boundary (rest : bytes) : Prop :=
  match rest with [] => True | b :: _ => b = SLASH end.

(** [inst pat path ps]: [path] is an instance of the pattern [pat], segment by
    segment, with the captures [ps]. *)
Inductive inst : bytes -> bytes -> list ioh_param_t -> Prop :=
| inst_end pat path seg next :
    next_segment pat = (seg, 0, next) -> skip_slash path = [] -> inst pat path []
| inst_static pat path seg len next rest ps :
    next_segment pat = (Some seg, S len, next) ->
    char_at seg 0 ≠ "*"%byte -> char_at seg 0 ≠ ":"%byte ->
    skip_slash path = take (S len) seg ++ rest -> at_boundary rest ->
    inst next rest ps -> inst pat path ps
| inst_param pat path seg len next v rest ps :
    next_segment pat = (Some seg, S len, next) -> char_at seg 0 = ":"%byte ->
    skip_slash path = v ++ rest -> v ≠ [] -> Forall (fun b => not_slash b = true) v ->
    at_boundary rest -> inst next rest ps ->
    inst pat path (mk_param (take len (drop 1 seg)) (v ++ rest) (length v) :: ps)
| inst_wild pat path seg len b q :
    next_segment pat = (Some seg, S len, []) -> char_at seg 0 = "*"%byte ->
    skip_slash path = b :: q ->
    inst pat path [mk_param (take len (drop 1 seg)) (b :: q) (length (b :: q))].

(** The new pattern's matches: all its instances, or those that continue a
    STATIC segment of which [len] bytes are left. *)
Definition new_hits (pat : bytes) p n' : Prop :=
  forall path ps, inst pat path ps -> (ps, p) ∈ all_go n' None path.
Definition new_static_hits (seg : bytes) (len : nat) (next : bytes) p n' : Prop :=
  forall rest ps, at_boundary rest -> inst next rest ps ->
    (ps, p) ∈ all_go n' (Some len) (take len seg ++ rest).

Lemma same_edge_wf n n' :
  same_edge n n' -> type n ≠ IOH_NODE_WILDCARD -> wf_edge n -> wf_edge n'.
Proof.
  intros (H1 & H2 & H3) Ht. unfold wf_edge. rewrite H1, H2, H3. by destruct (type n).
Qed.

(** What holds of the updated child gives what is to hold of the parent. *)
Definition lifts c (F G : node -> Prop) : Prop :=
  forall n' c', c' ∈ children n' -> same_edge c c' -> F c' -> G n'.

(** An insertion into child [i] is an insertion into the parent. *)
Lemma Post_child n i c ko p (F G : node -> Prop) r :
  wf n -> children n !! i = Some c -> type c ≠ IOH_NODE_WILDCARD -> lifts c F G ->
  Post c ko p F r -> Post n ((edge c ++.) <$> ko) p G (with_child n i r).
Proof.
  intros Hn Hi Ht Hlift (c' & rc & -> & Hc' & Hse & Ho & Hok & Hle & HF).
  assert (Hec : wf_edge c) by (inv Hn; by eapply Forall_lookup_1).
  pose proof (same_edge_wf _ _ Hse Ht Hec) as Hec'.
  pose proof (same_edge_edge _ _ Hse) as Hed.
  assert (Htag : tag c' = tag c) by (unfold tag; by rewrite Hed).
  exists (replace_child n i c'), rc. split; [done|].
  split; [by eapply wf_children_replace|]. split; [done|].
  split; [|split; [intros k Hk Hnone Hcf; destruct ko as [k0|]; [|done]; injection Hk as <-;
           apply (Hok k0 eq_refl); [|by rewrite <- (conflict_child n i c)];
           by rewrite <- (tree_get_child n i c)|]].
  2:{ split; [by eapply hits_le_replace; [|apply branch_le_same]|].
      intros Hrc. apply (Hlift _ c'); [|done|by apply HF]. simpl. apply list_elem_of_lookup.
      exists i. apply list_lookup_insert_eq. by eapply lookup_lt_Some. }
  destruct rc as [u|e]; simpl in *.
  - destruct Ho as (k & -> & Hu). exists (edge c ++ k). split; [done|].
    eapply map_upd_child; try done. by apply wf_edge_nonempty.
  - eapply tree_get_same_child; try done. intros t k _. rewrite Hed.
    destruct (strip (edge c) (t :: k)); [apply Ho|done].
Qed.

(** Changes that keep the key map do not affect an insertion's outcome. *)
Lemma Post_equiv n n1 ko p F r :
  (forall k, tree_get n1 k = tree_get n k) -> same_edge n n1 -> hits_le n n1 ->
  (forall k, ko = Some k -> conflict n k = false -> conflict n1 k = false) ->
  Post n1 ko p F r -> Post n ko p F r.
Proof.
  intros Heq (H1 & H2 & H3) Hl Hcf (n' & rc & -> & Hw & (H4 & H5 & H6) & Ho & Hok & Hle & HF).
  exists n', rc. split; [done|]. split; [done|].
  split; [repeat split; congruence|].
  split; [|split; [intros k Hk Hnone Hc; apply (Hok k Hk); [by rewrite Heq|by apply Hcf]|]];
    [|split; [by eapply hits_le_trans|done]].
  destruct rc as [u|e]; simpl in *.
  - destruct Ho as (k & Hk & Hf & Hu). exists k. split; [done|]. split; [by rewrite <- Heq|].
    intros k'. by rewrite Hu, Heq.
  - intros k. by rewrite Ho, Heq.
Qed.

Lemma Post_err n ko p F e :
  wf n -> (forall k, ko = Some k -> tree_get n k = None -> conflict n k = false -> False) ->
  Post n ko p F (Some (n, Err e, [])).
Proof.
  intros Hn Hx. exists n, (Err e). split_and!; try done; [|apply hits_le_refl].
  intros k H1 H2 H3. by destruct (Hx k).
Qed.

Lemma Post_here n p F :
  wf n -> (forall n', node_payload n' = Some p -> F n') ->
  Post n (Some []) p F (Some (set_handler_here n p [])).
Proof.
  intros Hn HF. unfold set_handler_here. destruct (handler n) eqn:E.
  { apply Post_err; [done|]. intros k [= <-]. rewrite tree_get_eq. unfold node_payload. by rewrite E. }
  eexists _, (Ok tt). split; [done|]. split; [by apply wf_incr, wf_payload|].
  split; [done|]. split; [|split; [done|split]].
  - exists []. split; [done|]. by apply map_upd_payload.
  - by apply (hits_le_set_payload n p).
  - intros _. apply HF. by destruct p.
Qed.

(** ** Matches through one child *)

Lemma all_go_some n seg len : all_go n (Some len) seg = over (static_hits all_go seg len) (children n).
Proof. exact (all_go_eq n (Some len) seg). Qed.

Lemma hit_static n c (seg rest : bytes) (l len : nat) (x : list ioh_param_t * payload H M) :
  c ∈ children n -> type c = IOH_NODE_STATIC -> prefix c = take l seg ->
  l ≤ len -> len ≤ length seg ->
  (x ∈ if l =? len then all_go c None rest
       else all_go c (Some (len - l)) (take (len - l) (drop l seg) ++ rest)) ->
  x ∈ all_go n (Some len) (take len seg ++ rest).
Proof.
  intros Hin Ht Hp Hl Hlen Hx. rewrite all_go_some. apply elem_of_over. exists c. split; [done|].
  unfold static_hits. rewrite Ht, Hp, length_take, (Nat.min_l l) by lia.
  replace (l <=? len) with true by (symmetry; by apply Nat.leb_le).
  assert (Hm : memcmp_eq (take len seg ++ rest) (take l seg) l = true).
  { unfold memcmp_eq. apply bytes_eqb_true.
    rewrite take_app_le by (rewrite length_take; lia). rewrite !take_take. f_equal. lia. }
  rewrite Hm. simpl. destruct (l =? len) eqn:E; bprop.
  - by rewrite drop_app_length' by (rewrite length_take; lia).
  - rewrite drop_app_le by (rewrite length_take; lia). by rewrite skipn_firstn_comm.
Qed.

Lemma at_boundary_span (v rest : bytes) :
  Forall (fun b => not_slash b = true) v -> at_boundary rest -> span not_slash (v ++ rest) = (v, rest).
Proof. intros Hv Hr. apply span_app; [done|]. destruct rest as [|b r]; [done|]. by rewrite Hr. Qed.

(** A match of a STATIC segment is a match of the path that starts with it. *)
Lemma hit_segment n path (v rest : bytes) x :
  skip_slash path = v ++ rest -> v ≠ [] -> Forall (fun b => not_slash b = true) v ->
  at_boundary rest -> x ∈ all_go n (Some (length v)) (v ++ rest) -> x ∈ all_go n None path.
Proof.
  intros Hp Hv Hns Hr Hx. rewrite all_go_some in Hx. rewrite all_go_eq, Hp.
  pose proof (at_boundary_span v rest Hns Hr) as Hs.
  destruct (v ++ rest) as [|b q] eqn:E; [by destruct v|]. rewrite Hs. simpl fst.
  apply elem_of_app. by left.
Qed.

Lemma hit_param n c s path (v rest : bytes) ps p :
  c ∈ children n -> type c = IOH_NODE_PARAM -> param_name c = Some s ->
  skip_slash path = v ++ rest -> v ≠ [] -> Forall (fun b => not_slash b = true) v ->
  at_boundary rest -> (ps, p) ∈ all_go c None rest ->
  (mk_param s (v ++ rest) (length v) :: ps, p) ∈ all_go n None path.
Proof.
  intros Hin Ht Hs Hp Hv Hns Hr Hx. rewrite all_go_eq, Hp.
  pose proof (at_boundary_span v rest Hns Hr) as Hsp. pose proof (drop_app_length v rest) as Hd.
  destruct (v ++ rest) as [|b q] eqn:E; [by destruct v|]. rewrite Hsp. simpl fst.
  rewrite !elem_of_app. right. left. apply elem_of_over. exists c. split; [done|].
  unfold param_hits. rewrite Ht, Hs, Hd. simpl. apply list_elem_of_fmap. by exists (ps, p).
Qed.

Lemma hit_wild n c s path b q p :
  c ∈ children n -> type c = IOH_NODE_WILDCARD -> param_name c = Some s ->
  node_payload c = Some p -> skip_slash path = b :: q ->
  ([mk_param s (b :: q) (length (b :: q))], p) ∈ all_go n None path.
Proof.
  intros Hin Ht Hs Hpl Hp. rewrite all_go_eq, Hp. rewrite !elem_of_app. right. right.
  apply elem_of_over. exists c. split; [done|]. unfold wild_hits. rewrite Ht, Hs, Hpl. simpl. set_solver.
Qed.

(** ** Finding children *)

Lemma find_child_Some (f : node -> bool) cs i c :
  find_child f cs = Some (i, c) -> cs !! i = Some c /\ f c = true.
Proof.
  revert i. induction cs as [|d cs IH]; intros i; simpl; [done|].
  destruct (f d) eqn:E; [by intros [= <- <-]|].
  destruct (find_child f cs) as [[j d']|] eqn:Ej; [|done].
  intros [= <- <-]. by apply IH.
Qed.

Lemma find_child_None (f : node -> bool) cs :
  find_child f cs = None -> Forall (fun c => f c = false) cs.
Proof.
  induction cs as [|d cs IH]; simpl; [by constructor|].
  destruct (f d) eqn:E; [done|]. destruct (find_child f cs) as [[j d']|]; [done|].
  intros _. constructor; auto.
Qed.

Lemma tag_static c : wf_edge c -> type c = IOH_NODE_STATIC ->
  exists b q, prefix c = b :: q /\ tag c = b2z b.
Proof.
  unfold wf_edge, tag, edge. intros Hc Ht. rewrite Ht in *. destruct Hc as (Hc & _).
  destruct (prefix c) as [|b q]; [done|]. by exists b, q.
Qed.

Lemma tag_param c : wf_edge c -> type c = IOH_NODE_PARAM ->
  exists s, param_name c = Some s /\ edge c = [TParam s] /\ tag c = 256%Z.
Proof.
  unfold wf_edge, tag, edge. intros Hc Ht. rewrite Ht in *. destruct Hc as (s & -> & _). by exists s.
Qed.

Lemma tag_wild c : wf_edge c -> type c = IOH_NODE_WILDCARD ->
  exists s, param_name c = Some s /\ edge c = [TWild s] /\ tag c = 257%Z /\ children c = [].
Proof.
  unfold wf_edge, tag, edge. intros Hc Ht. rewrite Ht in *.
  destruct Hc as ((s & -> & _) & ?). by exists s.
Qed.

(** No child of a type (PARAM or WILDCARD) leaves its tag free. *)
Lemma free_tag_param cs :
  Forall wf_edge cs -> Forall (fun c => is_param (type c) = false) cs ->
  Forall (fun c => tag c ≠ 256%Z) cs.
Proof.
  intros He Hf. eapply Forall_impl; [apply Forall_and; exact (conj He Hf)|].
  intros c [Hc Hp] Ht. unfold is_param in Hp. bprop. destruct (type c) eqn:E.
  - destruct (tag_static c Hc E) as (b & q & _ & Hb). pose proof (b2z_range b). lia.
  - done.
  - destruct (tag_wild c Hc E) as (s & _ & _ & Hb & _). lia.
Qed.

Lemma free_tag_wild cs :
  Forall wf_edge cs -> Forall (fun c => is_wildcard (type c) = false) cs ->
  Forall (fun c => tag c ≠ 257%Z) cs.
Proof.
  intros He Hf. eapply Forall_impl; [apply Forall_and; exact (conj He Hf)|].
  intros c [Hc Hp] Ht. unfold is_wildcard in Hp. bprop. destruct (type c) eqn:E.
  - destruct (tag_static c Hc E) as (b & q & _ & Hb). pose proof (b2z_range b). lia.
  - destruct (tag_param c Hc E) as (s & _ & _ & Hb). lia.
  - done.
Qed.

(** No STATIC child shares a prefix with the segment: its first byte is free. *)
Lemma free_tag_static cs (b : byte) (q : bytes) :
  Forall wf_edge cs -> Forall (fun c => shares_prefix (b :: q) c = false) cs ->
  Forall (fun c => tag c ≠ b2z b) cs.
Proof.
  intros He Hf. eapply Forall_impl; [apply Forall_and; exact (conj He Hf)|].
  intros c [Hc Hs] Ht. pose proof (b2z_range b) as Hb.
  unfold shares_prefix, is_static in Hs. destruct (type c) eqn:E.
  - destruct (tag_static c Hc E) as (b' & q' & Hp & Hb'). rewrite Hp in Hs.
    assert (b = b') by (apply b2z_inj; congruence). subst b'. simpl in Hs.
    by rewrite beq_refl in Hs.
  - destruct (tag_param c Hc E) as (s & _ & _ & Hb'). lia.
  - destruct (tag_wild c Hc E) as (s & _ & _ & Hb' & _). lia.
Qed.

(** A PARAM or WILDCARD child with another name is a conflict. *)
Lemma named_conflict n i c t t' k :
  wf n -> children n !! i = Some c -> edge c = [t] -> type c ≠ IOH_NODE_STATIC ->
  tok_tag t = tok_tag t' -> t ≠ t' -> conflict n (t' :: k) = true.
Proof.
  intros Hn Hi He Ht Htag Hne. rewrite conflict_eq. inv Hn.
  rewrite (conflict_children_found _ i c) by (done || (unfold tag; by rewrite He)).
  unfold branch_conflict. rewrite He. simpl. rewrite decide_False by done.
  unfold is_static. by rewrite bool_decide_eq_false_2.
Qed.

(** ** The wildcard branch *)

Definition wild_new (name : bytes) p n' : Prop :=
  forall path b q, skip_slash path = b :: q ->
    ([mk_param name (b :: q) (length (b :: q))], p) ∈ all_go n' None path.

(** A wildcard child that is there and has no registration yet. *)
Lemma Post_wild_set n i c name p :
  wf n -> children n !! i = Some c -> type c = IOH_NODE_WILDCARD -> param_name c = Some name ->
  handler c = None ->
  Post n (Some [TWild name]) p (wild_new name p)
    (Some (ioh_radix_increment_priority
             (replace_child n i (ioh_radix_increment_priority (set_payload c p))), Ok tt, [])).
Proof.
  intros Hn Hi Ht Hps Eh. inversion Hn as [n0 Hs Hed Hwf Hcap E]; subst n0.
  assert (Hec : wf_edge c) by by eapply Forall_lookup_1.
  destruct (tag_wild c Hec Ht) as (s & Hps' & Hedge & Htag & Hch).
  assert (s = name) as -> by congruence.
  set (c' := ioh_radix_increment_priority (set_payload c p)).
  assert (Hse : same_edge c c') by done.
  assert (Hec' : wf_edge c') by (unfold wf_edge in Hec |- *; simpl; by rewrite Ht in *).
  assert (Hwc' : wf c') by (apply wf_incr, wf_payload; by eapply Forall_lookup_1).
  eexists _, (Ok tt). split; [done|].
  split; [apply wf_incr; eapply wf_children_replace; try done; unfold tag; by rewrite (same_edge_edge _ _ Hse)|].
  assert (Hin' : c' ∈ children (replace_child n i c')).
  { simpl. apply list_elem_of_lookup. exists i. apply list_lookup_insert_eq. by eapply lookup_lt_Some. }
  split; [done|]. split; [|split; [done|split]]; cycle 1.
  { apply (hits_le_replace n i c c'); [done|]. apply branch_le_same; [done|].
    by apply (hits_le_set_payload c p). }
  { intros _ path b q. apply (hit_wild _ c'); try done. by destruct p. }
  exists [TWild name]. split; [done|].
  destruct (map_upd_child n i c c' [] p) as [Hf Hu]; try done.
  + by rewrite Hedge.
  + by apply map_upd_payload.
  + rewrite Hedge in Hf, Hu. split; [done|]. intros k'. rewrite tree_get_incr. apply Hu.
Qed.

(** A new wildcard child. *)
Lemma Post_wild_add n name p :
  wf n -> name ≠ [] -> Forall (fun c => is_wildcard (type c) = false) (children n) ->
  let wc := mk_node [] IOH_NODE_WILDCARD (Some name) (Some (pl_handler p)) (pl_metadata p) (pl_meta p) [] 0%Z 1%Z in
  Post n (Some [TWild name]) p (wild_new name p)
    (Some (let '(n', rc, h) := ioh_radix_node_add_child n wc [] in
           match rc with
           | Err e => (n', Err e, h)
           | Ok _ => (ioh_radix_increment_priority n', Ok tt, h)
           end)).
Proof.
  intros Hn Hname Ef wc. inversion Hn as [n0 Hs Hed Hwf Hcap E]; subst n0.
  apply free_tag_wild in Ef; [|done].
  assert (Hec : wf_edge wc) by (unfold wf_edge; simpl; split; [by exists name|done]).
  assert (Hwc : wf wc) by (apply wf_leaf; simpl; [done|lia]).
  destruct (add_child_spec n wc)
    as (n' & -> & Hn' & (Hs1 & Hs2 & Hs3 & Hs4 & _) & Hi' & Hsub & Hget); try done.
  eexists _, (Ok tt). split; [done|]. split; [by apply wf_incr|]. split; [done|].
  split; [|split; [done|split]]; cycle 1.
  { by apply hits_le_more_children. }
  { intros _ path b q. apply (hit_wild _ wc); try done; [|by destruct p].
    simpl. by eapply list_elem_of_lookup_2. }
  exists [TWild name]. split; [done|]. split; [by apply tree_get_free_tag|].
  intros k'. rewrite tree_get_incr, Hget. destruct k' as [|t k']; [by rewrite tree_get_eq|].
  change (tag wc) with 257%Z. change (edge wc) with [TWild name].
  destruct (decide (257%Z = tok_tag t)) as [Ht|Ht].
  + simpl. case_decide as Hd; [subst t|].
    * rewrite tree_get_eq. destruct k' as [|t' k'].
      -- rewrite decide_True by done. simpl. by destruct p.
      -- rewrite decide_False by done. symmetry. by apply get_children_none.
    * rewrite decide_False by congruence. rewrite (tree_get_free_tag n); [done..|].
      by rewrite <- Ht.
  + rewrite decide_False; [done|]. intros Eq. simplify_eq.
Qed.

Lemma Post_wildcard n seg len next p :
  wf n -> 0 < len -> char_at seg 0 = "*"%byte -> len ≤ length seg ->
  Post n (match next with
          | [] => if len - 1 =? 0 then None else Some [TWild (take (len - 1) (drop 1 seg))]
          | _ :: _ => None
          end) p (wild_new (take (len - 1) (drop 1 seg)) p) (Some (insert_wildcard n seg len next p [])).
Proof.
  intros Hn Hl Hc Hle. unfold insert_wildcard.
  destruct next as [|b next]; [|by apply Post_err].
  destruct (len - 1 =? 0) eqn:El; [by apply Post_err|]. bprop.
  set (name := take (len - 1) (drop 1 seg)).
  assert (Hname : name ≠ []).
  { unfold name. intros E%(f_equal length). rewrite length_take, length_drop in E. simpl in E. lia. }
  destruct (find_child _ (children n)) as [[i c]|] eqn:Ef.
  - apply find_child_Some in Ef as [Hi Ht]. unfold is_wildcard in Ht. bprop.
    inversion Hn as [n0 Hs Hed Hwf Hcap E]; subst n0.
    assert (Hec : wf_edge c) by by eapply Forall_lookup_1.
    destruct (tag_wild c Hec Ht) as (s & Hps & Hedge & Htag & Hch).
    unfold param_name_is. rewrite Hps. destruct (bytes_eqb s name) eqn:Es; simpl; bprop.
    2:{ apply Post_err; [done|]. intros k [= <-] _ Hcf.
        rewrite (named_conflict n i c (TWild s) (TWild name) []) in Hcf; try done; by rewrite ?Ht; congruence. }
    subst s. destruct (handler c) eqn:Eh; [|by apply Post_wild_set].
    apply Post_err; [done|]. intros k [= <-] Hg _.
    rewrite <- (app_nil_r [_]), <- Hedge, (tree_get_child n i c), tree_get_eq in Hg by done.
    unfold node_payload in Hg. by rewrite Eh in Hg.
  - apply find_child_None in Ef. by apply (Post_wild_add n name p).
Qed.

(** ** Fresh leaves and splitting *)

Lemma create_ok pfx len t :
  Forall (fun b => not_nul b = true) pfx ->
  @ioh_radix_node_create H M pfx len t [] =
    (Some (mk_node (take len pfx) t None None None None [] 0%Z 0%Z), []).
Proof.
  intros Hp. unfold ioh_radix_node_create, strndup. simpl. rewrite (c_str_id pfx Hp).
  by destruct len.
Qed.

(** Splitting a STATIC child keeps what its branch of the key map denotes. *)
Lemma split_spec c l :
  wf_edge c -> wf c -> type c = IOH_NODE_STATIC -> 0 < l -> l < length (prefix c) ->
  exists inter existing,
    split_static_node c l [] = (Some inter, existing, [])
    /\ wf inter /\ wf_edge inter /\ type inter = IOH_NODE_STATIC
    /\ prefix inter = take l (prefix c)
    /\ children inter = [existing] /\ edge existing = TChar <$> drop l (prefix c)
    /\ tag inter = tag c
    /\ (forall k, match strip (edge inter) k with Some r => tree_get inter r | None => None end =
                  match strip (edge c) k with Some r => tree_get c r | None => None end)
    /\ (forall k, branch_conflict inter k = branch_conflict c k)
    /\ branch_le c inter.
Proof.
  intros Hec Hc Ht Hl Hlt.
  assert (Hp : Forall (fun b => not_slash b = true /\ not_nul b = true) (prefix c)
               /\ param_name c = None) by (unfold wf_edge in Hec; rewrite Ht in Hec; by destruct Hec).
  destruct Hp as [Hp Hpn].
  unfold split_static_node.
  rewrite create_ok by (eapply Forall_impl; [exact Hp|]; by intros ? []). simpl.
  set (ex := set_prefix c (drop l (prefix c))).
  set (inter := mk_node (take l (prefix c)) _ _ _ _ _ _ _ _).
  assert (Hdrop : drop l (prefix c) ≠ []).
  { intros E%(f_equal length). rewrite length_drop in E. simpl in E. lia. }
  assert (Hexe : wf_edge ex).
  { unfold wf_edge. simpl. rewrite Ht. split; [done|]. split; [by apply Forall_drop|done]. }
  assert (Hex : wf ex) by (inv Hc; by constructor).
  assert (Hget : forall k, tree_get ex k = tree_get c k) by (intros k; by rewrite !tree_get_eq).
  assert (Hedge : edge ex = TChar <$> drop l (prefix c)) by (unfold edge; simpl; by rewrite Ht).
  set (inter' := set_priority (set_capacity (set_children inter [ex]) 4) (priority c)).
  exists inter', ex.
  assert (Hintere : wf_edge inter').
  { unfold wf_edge. simpl. split; [|split; [by apply Forall_take|done]].
    intros E%(f_equal length). rewrite length_take in E. simpl in E. lia. }
  assert (Hinter : wf inter').
  { apply wf_intro; simpl.
    - by repeat constructor.
    - by constructor.
    - by constructor.
    - lia. }
  split; [done|]. split_and!; try done.
  - unfold tag, edge. simpl. rewrite Ht. clear -Hl Hlt.
    destruct (prefix c); [simpl in Hlt; lia|]. by destruct l; [lia|].
  - intros k. change (edge inter') with (TChar <$> take l (prefix c)).
    assert (Hec2 : edge c = (TChar <$> take l (prefix c)) ++ (TChar <$> drop l (prefix c))).
    { unfold edge. rewrite Ht, <- fmap_app, take_drop. done. }
    rewrite Hec2, strip_app_l. destruct (strip _ k) as [r|]; [|done].
    rewrite tree_get_eq. destruct r as [|t r].
    + simpl. by destruct (drop l (prefix c)).
    + simpl. rewrite Hedge. destruct (strip _ (t :: r)); [apply Hget|done].
  - intros k. unfold branch_conflict. change (edge inter') with (TChar <$> take l (prefix c)).
    assert (Hec2 : edge c = (TChar <$> take l (prefix c)) ++ (TChar <$> drop l (prefix c))).
    { unfold edge. rewrite Ht, <- fmap_app, take_drop. done. }
    rewrite Hec2, strip_app_l, Ht. destruct (strip _ k) as [r|]; [|done].
    rewrite conflict_eq. destruct r as [|t r].
    + simpl. by destruct (drop l (prefix c)).
    + simpl. unfold branch_conflict, is_static. rewrite Hedge. simpl type. rewrite Ht.
      case_decide as Hd; [destruct (strip _ (t :: r)); [by rewrite !conflict_eq|done]|].
      destruct (strip _ (t :: r)) eqn:Es; [|done]. destruct Hd.
      rewrite <- Hedge in Es. by eapply strip_tag.
  - apply (branch_le_split c inter' ex l); try done. by apply all_go_ext.
Qed.

(** ** The recursion *)

Definition no_nul (l : bytes) : Prop := Forall (fun b => not_nul b = true) l.

(** [seg] starts with a non-empty segment of [len] bytes, followed by [next]. *)
Definition seg_ok (seg : bytes) (len : nat) (next : bytes) : Prop :=
  0 < len /\ len ≤ length seg /\ next = drop len seg /\ no_nul seg
  /\ Forall (fun b => not_slash b = true) (take len seg)
  /\ match next with [] => True | b :: _ => b = SLASH end.

Definition static_key (seg : bytes) (len : nat) (next : bytes) : option (list tok) :=
  ((TChar <$> take len seg) ++.) <$> key_of next.

(** A STATIC child for the whole rest of the segment, or for [l] bytes of it. *)
Lemma lifts_static_last c seg len next p :
  type c = IOH_NODE_STATIC -> prefix c = take len seg -> len ≤ length seg ->
  lifts c (new_hits next p) (new_static_hits seg len next p).
Proof.
  intros Ht Hp Hl n' c' Hin (H1 & H2 & _) HF rest ps Hr Hi.
  apply (hit_static n' c' seg rest len len); try done; try congruence.
  rewrite Nat.eqb_refl. by apply HF.
Qed.

Lemma lifts_static_part c seg l len next p :
  type c = IOH_NODE_STATIC -> prefix c = take l seg -> l < len -> len ≤ length seg ->
  lifts c (new_static_hits (drop l seg) (len - l) next p) (new_static_hits seg len next p).
Proof.
  intros Ht Hp Hl Hlen n' c' Hin (H1 & H2 & _) HF rest ps Hr Hi.
  apply (hit_static n' c' seg rest l len); try done; try congruence; [lia|].
  test_false (l =? len). by apply HF.
Qed.

(** Insertion below a fresh leaf added to [n]. *)
Lemma Post_new_leaf n c ko p (F G : node -> Prop) r :
  lifts c F G -> wf n -> wf_edge c -> type c ≠ IOH_NODE_WILDCARD -> children c = [] -> handler c = None ->
  child_capacity c = 0%Z ->
  Forall (fun d => tag d ≠ tag c) (children n) ->
  Post c ko p F r ->
  exists n', ioh_radix_node_add_child n c [] = (n', Ok tt, [])
             /\ Post n ((edge c ++.) <$> ko) p G (with_child n' (child_pos c (children n)) r)
             /\ Post n ((edge c ++.) <$> ko) p G
                  (with_child (ioh_radix_increment_priority n') (child_pos c (children n)) r).
Proof.
  intros Hlift Hn He Ht Hch Hh Hcap Hf Hr.
  assert (Hwc : wf c) by (apply wf_leaf; [done|lia]).
  destruct (add_child_spec n c)
    as (n' & Hadd & Hn' & (Hs1 & Hs2 & Hs3 & Hs4 & _) & Hi & Hsub & Hget); try done.
  assert (Heq : forall k, tree_get n' k = tree_get n k).
  { intros k. rewrite Hget. destruct k as [|t k]; [by rewrite tree_get_eq|].
    case_decide as Hd; [|done]. rewrite (tree_get_free_tag n) by (done || by rewrite <- Hd).
    destruct (strip _ _); [by apply tree_get_leaf|done]. }
  assert (Hcf : forall k, (edge c ++.) <$> ko = Some k -> conflict n' k = false).
  { intros k Hk. destruct ko as [k0|]; [|done]. injection Hk as <-.
    rewrite (conflict_child n' _ c) by done. by apply conflict_leaf. }
  exists n'. split; [done|]. split.
  - apply (Post_equiv n n'); [done|by split_and!|by apply hits_le_more_children|auto|].
    by eapply Post_child.
  - apply (Post_equiv n (ioh_radix_increment_priority n'));
      [|by split_and!|by apply hits_le_more_children| |].
    + intros k. by rewrite tree_get_incr.
    + intros k Hk _. rewrite conflict_incr. auto.
    + eapply Post_child; try done. by apply wf_incr.
Qed.

Section Step.
Context (fuel : nat).
Context (IHr : forall n pat p, wf n -> no_nul pat -> 2 * length pat + 1 ≤ fuel ->
                 Post n (key_of pat) p (new_hits pat p) (insert_recursive fuel n pat p [])).
Context (IHs : forall n seg len next p, wf n -> seg_ok seg len next -> 2 * length seg ≤ fuel ->
                 Post n (static_key seg len next) p (new_static_hits seg len next p)
    (insert_static_segment fuel n seg len next p [])).

Lemma seg_next_rec n seg len next p :
  wf n -> seg_ok seg len next -> 2 * length seg ≤ S fuel ->
  Post n (key_of next) p (new_hits next p) (insert_recursive fuel n next p []).
Proof.
  intros Hn (H1 & H2 & -> & H3 & _) Hfu. apply IHr; [done|by apply Forall_drop|].
  rewrite length_drop. lia.
Qed.

Lemma seg_leaf_edge seg len next :
  seg_ok seg len next ->
  wf_edge (@mk_node H M (take len seg) IOH_NODE_STATIC None None None None [] 0 0).
Proof.
  intros (H1 & H2 & _ & H3 & H4 & _). unfold wf_edge. simpl. split.
  - intros E%(f_equal length). rewrite length_take in E. simpl in E. lia.
  - split; [|done]. apply Forall_and. split; [done|by apply Forall_take].
Qed.

Lemma Post_static_new n seg len next p :
  wf n -> seg_ok seg len next -> 2 * length seg ≤ S fuel ->
  find_child (shares_prefix seg) (children n) = None ->
  Post n (static_key seg len next) p (new_static_hits seg len next p)
    (insert_static_segment (S fuel) n seg len next p []).
Proof.
  intros Hn Hseg Hfu Hnone. cbn [insert_static_segment]. rewrite Hnone.
  pose proof Hseg as (H1 & H2 & H3 & H4 & H5 & H6). rewrite create_ok by done.
  set (nc := mk_node (take len seg) _ _ _ _ _ _ _ _).
  destruct (Post_new_leaf n nc (key_of next) p (new_hits next p) (new_static_hits seg len next p)
              (insert_recursive fuel nc next p [])) as (n' & -> & Hp & _); try done.
  - by apply lifts_static_last.
  - by eapply seg_leaf_edge.
  - destruct seg as [|b q]; [simpl in H2; lia|]. destruct len as [|len]; [lia|].
    apply find_child_None in Hnone. apply free_tag_static in Hnone; [done|by inv Hn].
  - by eapply seg_next_rec; [apply wf_leaf; simpl; [done|lia]|..].
Qed.

Lemma Post_static_split n i c seg len next p :
  wf n -> seg_ok seg len next -> 2 * length seg ≤ S fuel ->
  children n !! i = Some c -> wf_edge c -> wf c -> type c = IOH_NODE_STATIC ->
  let cp := common_prefix_len seg (prefix c) in
  0 < cp -> cp ≤ len -> cp < length (prefix c) ->
  find_child (shares_prefix seg) (children n) = Some (i, c) ->
  Post n (static_key seg len next) p (new_static_hits seg len next p)
    (insert_static_segment (S fuel) n seg len next p []).
Proof.
  intros Hn Hseg Hfu Hi Hec Hc Ht cp Hcp Hcpl Hlt Hfind.
  pose proof Hseg as (H1 & H2 & H3 & H4 & H5 & H6).
  destruct (common_prefix_spec seg (prefix c)) as (Hl1 & _ & Htk & Hdiff). fold cp in Hl1, Htk, Hdiff.
  cbn [insert_static_segment]. rewrite Hfind. fold cp.
  test_false (cp =? length (prefix c)).
  replace (cp <? length (prefix c)) with true by (symmetry; by apply Nat.ltb_lt).
  cbn [andb].
  destruct (split_spec c cp Hec Hc Ht Hcp Hlt)
    as (inter & ex & -> & Hwi & Hei & Hti & Hpi & Hchi & Hedex & Htag & Hget & Hbc & Hble).
  assert (Hedge : edge inter = TChar <$> take cp seg) by (unfold edge; by rewrite Hti, Hpi, Htk).
  assert (Hn1 : wf (replace_child n i inter)) by by eapply wf_children_replace.
  assert (Hi1 : children (replace_child n i inter) !! i = Some inter).
  { simpl. apply list_lookup_insert_eq. by eapply lookup_lt_Some. }
  eapply (Post_equiv n (replace_child n i inter)); [|done|by eapply hits_le_replace| |].
  { by eapply tree_get_same_child. }
  { intros k _ Hk. rewrite (conflict_same_child n i c inter); done. }
  destruct (cp =? len) eqn:El; bprop.
  - unfold static_key. rewrite <- El, <- Hedge.
    eapply Post_child; [done|done|by rewrite Hti| |by eapply seg_next_rec].
    apply lifts_static_last; [done|by rewrite Hpi|lia].
  - assert (Hseg' : seg_ok (drop cp seg) (len - cp) next).
    { unfold seg_ok. rewrite length_drop, drop_drop, take_drop_commute.
      replace (cp + (len - cp)) with len by lia.
      split_and!; try done; try lia; [by apply Forall_drop|by apply Forall_drop]. }
    rewrite create_ok by by apply Forall_drop.
    set (nc := mk_node (take (len - cp) (drop cp seg)) _ _ _ _ _ _ _ _).
    destruct (Post_new_leaf inter nc (key_of next) p (new_hits next p)
                (new_static_hits (drop cp seg) (len - cp) next p) (insert_recursive fuel nc next p []))
      as (inter' & -> & Hp & _); try done.
    + apply lifts_static_last; [done|done|]. rewrite length_drop. lia.
    + by eapply seg_leaf_edge.
    + rewrite Hchi. constructor; [|done]. unfold tag. rewrite Hedex. simpl.
      destruct (lookup_lt_is_Some_2 seg cp ltac:(lia)) as [x Hx].
      destruct (lookup_lt_is_Some_2 (prefix c) cp ltac:(lia)) as [y Hy].
      unfold edge. simpl. rewrite (drop_S _ _ _ Hx), (drop_S _ _ _ Hy).
      destruct (len - cp) eqn:E; [lia|]. simpl. intros Heq%b2z_inj. by eapply Hdiff.
    + eapply seg_next_rec; [by apply wf_leaf; simpl; [done|lia]|exact Hseg'|]. rewrite length_drop. lia.
    + assert (Hk : static_key seg len next =
                     (edge inter ++.) <$> ((edge nc ++.) <$> key_of next)).
      { unfold static_key. rewrite Hedge. unfold edge. simpl. destruct (key_of next); [|done]. simpl.
        f_equal. rewrite app_assoc, <- fmap_app. f_equal. f_equal.
        replace len with (cp + (len - cp)) at 1 by lia.
        by rewrite <- take_take_drop. }
      rewrite Hk. eapply Post_child; [done|done|by rewrite Hti| |done].
      apply lifts_static_part; [done|by rewrite Hpi|lia|done].
Qed.

Lemma Post_static_step n seg len next p :
  wf n -> seg_ok seg len next -> 2 * length seg ≤ S fuel ->
  Post n (static_key seg len next) p (new_static_hits seg len next p)
    (insert_static_segment (S fuel) n seg len next p []).
Proof.
  intros Hn Hseg Hfu. pose proof Hseg as (H1 & H2 & H3 & H4 & H5 & H6).
  destruct (find_child (shares_prefix seg) (children n)) as [[i c]|] eqn:Hfind;
    [|by apply Post_static_new].
  pose proof Hfind as [Hi Hsh]%find_child_Some.
  unfold shares_prefix, is_static in Hsh. bprop. rename select (type c = _) into Ht.
  rename select (0 < _) into Hcp.
  assert (Hec : wf_edge c) by (inv Hn; by eapply Forall_lookup_1).
  assert (Hc : wf c) by (inv Hn; by eapply Forall_lookup_1).
  destruct (common_prefix_spec seg (prefix c)) as (Hl1 & Hl2 & Htk & _).
  assert (Hcpl : common_prefix_len seg (prefix c) ≤ len).
  { apply common_prefix_segment; [|done|by rewrite <- H3].
    unfold wf_edge in Hec. rewrite Ht in Hec. destruct Hec as (_ & Hec & _).
    eapply Forall_impl; [exact Hec|]. by intros ? []. }
  destruct (decide (common_prefix_len seg (prefix c) < length (prefix c))) as [Hlt|Hge];
    [by eapply Post_static_split|].
  assert (Hcp' : common_prefix_len seg (prefix c) = length (prefix c)) by lia.
  assert (Hedge : edge c = TChar <$> take (length (prefix c)) seg).
  { unfold edge. rewrite Ht, <- Hcp', Htk, Hcp', firstn_all. done. }
  cbn [insert_static_segment]. rewrite Hfind, Hcp', Nat.eqb_refl, Nat.ltb_irrefl. cbn [andb].
  destruct (length (prefix c) =? len) eqn:El; bprop.
  - unfold static_key. rewrite <- El, <- Hedge.
    eapply Post_child; [done|done|by rewrite Ht| |by eapply seg_next_rec].
    apply lifts_static_last; [done| |lia]. by rewrite <- Hcp' at 1; rewrite Htk, Hcp', firstn_all.
  - assert (Hk : static_key seg len next =
              (edge c ++.) <$> static_key (drop (length (prefix c)) seg) (len - length (prefix c)) next).
    { unfold static_key. rewrite Hedge. destruct (key_of next); [|done]. simpl. f_equal.
      rewrite app_assoc, <- fmap_app. f_equal. f_equal.
      replace len with (length (prefix c) + (len - length (prefix c))) at 1 by lia.
      by rewrite <- take_take_drop. }
    rewrite Hk. eapply Post_child; [done|done|by rewrite Ht| |].
    { apply (lifts_static_part c seg (length (prefix c))); [done| |lia|done].
      by rewrite <- Hcp' at 1; rewrite Htk, Hcp', firstn_all. }
    apply IHs; [done| |rewrite length_drop; lia].
    unfold seg_ok. rewrite length_drop, drop_drop, take_drop_commute.
    replace (length (prefix c) + (len - length (prefix c))) with len by lia.
    split_and!; try done; try lia; by apply Forall_drop.
Qed.

Definition param_new (name next : bytes) p n' : Prop :=
  forall path v rest ps,
    skip_slash path = v ++ rest -> v ≠ [] -> Forall (fun b => not_slash b = true) v ->
    at_boundary rest -> inst next rest ps ->
    (mk_param name (v ++ rest) (length v) :: ps, p) ∈ all_go n' None path.

Lemma lifts_param c s next p :
  type c = IOH_NODE_PARAM -> param_name c = Some s ->
  lifts c (new_hits next p) (param_new s next p).
Proof.
  intros Ht Hs n' c' Hin (_ & H2 & H3) HF path v rest ps Hp Hv Hns Hr Hi.
  apply (hit_param n' c'); try done; try congruence. by apply HF.
Qed.

Lemma Post_param n seg len next p :
  wf n -> seg_ok seg len next -> 2 * length seg ≤ S fuel -> len - 1 ≠ 0 ->
  Post n ((TParam (take (len - 1) (drop 1 seg)) ::.) <$> key_of next) p
    (param_new (take (len - 1) (drop 1 seg)) next p)
    (match find_child (fun c => is_param (type c)) (children n) with
     | Some (i, c) =>
         if negb (param_name_is c (take (len - 1) (drop 1 seg))) then Some (n, Err EEXIST, []) else
         with_child (ioh_radix_increment_priority n) i (insert_recursive fuel c next p [])
     | None =>
         let pm := set_param_name (mk_node [] IOH_NODE_PARAM None None None None [] 0 0)
                                  (take (len - 1) (drop 1 seg)) in
         let '(n', rc, h) := ioh_radix_node_add_child n pm [] in
         match rc with
         | Err e => Some (n', Err e, h)
         | Ok _ => with_child (ioh_radix_increment_priority n') (child_pos pm (children n))
                     (insert_recursive fuel pm next p h)
         end
     end).
Proof.
  intros Hn Hseg Hfu Hlen. pose proof Hseg as (H1 & H2 & _).
  set (name := take (len - 1) (drop 1 seg)).
  assert (Hname : name ≠ []).
  { unfold name. intros E%(f_equal length). rewrite length_take, length_drop in E. simpl in E. lia. }
  destruct (find_child _ (children n)) as [[i c]|] eqn:Ef.
  - apply find_child_Some in Ef as [Hi Ht]. unfold is_param in Ht. bprop.
    assert (Hec : wf_edge c) by (inv Hn; by eapply Forall_lookup_1).
    assert (Hc : wf c) by (inv Hn; by eapply Forall_lookup_1).
    destruct (tag_param c Hec Ht) as (s & Hps & Hedge & _).
    unfold param_name_is. rewrite Hps. destruct (bytes_eqb s name) eqn:Es; simpl; bprop.
    2:{ apply Post_err; [done|]. intros k Hk _ Hcf. destruct (key_of next); [|done]. injection Hk as <-.
        rewrite (named_conflict n i c (TParam s) (TParam name)) in Hcf; try done; by rewrite ?Ht; congruence. }
    subst s.
    eapply (Post_equiv n (ioh_radix_increment_priority n));
      [intros k; apply tree_get_incr|done|by apply hits_le_more_children
      |intros k _; by rewrite conflict_incr|].
    replace ((TParam name ::.) <$> key_of next) with ((edge c ++.) <$> key_of next) by by rewrite Hedge.
    eapply Post_child; [by apply wf_incr|done|by rewrite Ht| |by eapply seg_next_rec].
    by apply lifts_param.
  - apply find_child_None in Ef. apply free_tag_param in Ef; [|by inv Hn].
    set (pm := set_param_name _ name). cbn zeta.
    destruct (Post_new_leaf n pm (key_of next) p (new_hits next p) (param_new name next p)
                (insert_recursive fuel pm next p [])) as (n' & -> & _ & Hp); try done.
    + by apply lifts_param.
    + unfold wf_edge. simpl. by exists name.
    + by eapply seg_next_rec; [apply wf_leaf; simpl; [done|lia]|..].
Qed.

Lemma Post_weaken n ko p (F G : node -> Prop) r :
  (forall n', F n' -> G n') -> Post n ko p F r -> Post n ko p G r.
Proof.
  intros HFG (n' & rc & Hr & Hw & Hs & Ho & Hok & Hle & HF). exists n', rc. split_and!; auto.
Qed.

(** Inversion of [inst], the next segment [E] of the pattern being known. *)
Ltac inst_inv Hi E :=
  revert E; inv Hi; intros E;
  match goal with
  | H0 : next_segment ?pat = _, H1 : next_segment ?pat = _ |- _ =>
      rewrite H0 in H1; inv H1
  end; try done; try congruence.

(** The pattern ends here: its only instances are the empty path and a slash. *)
Lemma new_hits_here pat seg next p n' :
  next_segment pat = (seg, 0, next) -> node_payload n' = Some p -> new_hits pat p n'.
Proof.
  intros E Hp path ps Hi. inst_inv Hi E.
  rewrite all_go_eq. rename select (skip_slash _ = []) into Hs. rewrite Hs, Hp. set_solver.
Qed.

Lemma new_hits_static pat seg len next p n' :
  next_segment pat = (Some seg, S len, next) -> seg_ok seg (S len) next ->
  char_at seg 0 ≠ "*"%byte -> char_at seg 0 ≠ ":"%byte ->
  new_static_hits seg (S len) next p n' -> new_hits pat p n'.
Proof.
  intros E (_ & Hl & _ & _ & Hns & _) H1 H2 HF path ps Hi. inst_inv Hi E.
  match goal with Hp : skip_slash _ = _ |- _ => apply (hit_segment n' path _ _ _ Hp) end; try done.
  - intros Et%(f_equal length). rewrite length_take, length_nil in Et. lia.
  - rewrite length_take, Nat.min_l by lia. by apply HF.
Qed.

Lemma new_hits_param pat seg len next p n' :
  next_segment pat = (Some seg, S len, next) -> char_at seg 0 = ":"%byte ->
  param_new (take (S len - 1) (drop 1 seg)) next p n' -> new_hits pat p n'.
Proof.
  intros E H1 HF path ps Hi. rewrite Nat.sub_1_r in HF. inst_inv Hi E. by apply HF.
Qed.

Lemma new_hits_wild pat seg len next p n' :
  next_segment pat = (Some seg, S len, next) -> char_at seg 0 = "*"%byte ->
  wild_new (take (S len - 1) (drop 1 seg)) p n' -> new_hits pat p n'.
Proof.
  intros E H1 HF path ps Hi. rewrite Nat.sub_1_r in HF. inst_inv Hi E. by apply HF.
Qed.

Lemma Post_rec_step n pat p :
  wf n -> no_nul pat -> 2 * length pat + 1 ≤ S fuel ->
  Post n (key_of pat) p (new_hits pat p) (insert_recursive (S fuel) n pat p []).
Proof.
  intros Hn Hnul Hfu. rewrite key_of_eq. cbn [insert_recursive].
  pose proof (next_segment_spec pat) as Hns.
  destruct pat as [|b0 pat0] eqn:Epat;
    [by apply Post_here; [|intros n'; eapply new_hits_here]|]. rewrite <- Epat in *.
  destruct (next_segment pat) as [[[seg|] len] next] eqn:E;
    [|destruct Hns as [-> ->]; by apply Post_here; [|intros n'; eapply new_hits_here]].
  destruct len as [|len']; [by apply Post_here; [|intros n'; eapply new_hits_here]|].
  destruct Hns as (Hne & Hsuf & Hle & Hnext & Hns & Hsl).
  pose proof (suffix_length _ _ Hsuf) as Hsl'.
  assert (Hseg : seg_ok seg (S len') next).
  { unfold seg_ok. split_and!; try done; [lia|].
    destruct Hsuf as [z Hz]. unfold no_nul in *. rewrite Hz in Hnul.
    by apply Forall_app in Hnul as [_ ?]. }
  destruct (char_at seg 0 =b "*"%byte) eqn:Ec; bprop.
  { eapply Post_weaken; [|by apply Post_wildcard; try lia]. intros n'. by eapply new_hits_wild. }
  destruct (char_at seg 0 =b ":"%byte) eqn:Ec2; bprop.
  - destruct (S len' - 1 =? 0) eqn:El; bprop; [by apply Post_err|].
    eapply Post_weaken; [|exact (Post_param n seg (S len') next p Hn Hseg ltac:(lia) El)].
    intros n'. by eapply new_hits_param.
  - eapply (Post_equiv n (ioh_radix_increment_priority n));
      [intros k; apply tree_get_incr|done|by apply hits_le_more_children
      |intros k _; by rewrite conflict_incr|].
    eapply Post_weaken; [|apply IHs; [by apply wf_incr|done|lia]].
    intros n'. by eapply new_hits_static.
Qed.

End Step.

Lemma insert_Post fuel :
  (forall n pat p, wf n -> no_nul pat -> 2 * length pat + 1 ≤ fuel ->
     Post n (key_of pat) p (new_hits pat p) (insert_recursive fuel n pat p []))
  /\ (forall n seg len next p, wf n -> seg_ok seg len next -> 2 * length seg ≤ fuel ->
     Post n (static_key seg len next) p (new_static_hits seg len next p)
    (insert_static_segment fuel n seg len next p [])).
Proof.
  induction fuel as [|fuel [IHr IHs]]; split.
  - intros. lia.
  - intros n seg len next p _ (H1 & H2 & _) Hfu. lia.
  - intros. by apply Post_rec_step.
  - intros. by apply Post_static_step.
Qed.

(** [ioh_radix_insert] on a tree, for a pattern that starts with a slash. *)
Lemma radix_insert_Post root pat hd md mt :
  wf root -> no_nul pat -> head pat = Some SLASH ->
  exists root' rc,
    ioh_radix_insert (Some root) (Some pat) (Some hd) md mt [] = (Some root', rc, [])
    /\ wf root' /\ outcome root root' rc (key_of pat) (mk_payload hd md mt)
    /\ (forall k, key_of pat = Some k -> tree_get root k = None -> conflict root k = false ->
          rc = Ok tt)
    /\ hits_le root root' /\ (rc = Ok tt -> new_hits pat (mk_payload hd md mt) root').
Proof.
  intros Hw Hnul Hh. destruct pat as [|b pat]; [done|]. injection Hh as ->.
  unfold ioh_radix_insert. rewrite beq_refl. cbn [negb].
  destruct (proj1 (insert_Post (insert_fuel (SLASH :: pat))) root (SLASH :: pat)
              (mk_payload hd md mt) Hw Hnul) as (n' & rc & -> & Hn' & _ & Ho & Hok & Hle & HF).
  - unfold insert_fuel. lia.
  - by exists n', rc.
Qed.

End Insert.
