(* ===== verification/RadixThms.v ===== *)
(** The trie's theorems: the trees a program can build, what registration does
    to them, and what a lookup answers. *)
From stdpp Require Import relations.
From S2P Require Import Prelude CString Radix RadixMap RadixLookup RadixInsert.

(** ** Specification vocabulary *)

(** The path spells the key [k], slashes skipped, with the captures [ps]. *)
Inductive spell : list tok -> bytes -> list ioh_param_t -> Prop :=
| spell_end : spell [] [] []
| spell_slash k path ps : spell k path ps -> spell k (SLASH :: path) ps
| spell_char b k path ps : spell k path ps -> spell (TChar b :: k) (b :: path) ps
| spell_param s k v rest ps :
    Forall (fun b => not_slash b = true) v -> spell k rest ps ->
    spell (TParam s :: k) (v ++ rest) (mk_param s (v ++ rest) (length v) :: ps)
| spell_wild s path : path ≠ [] -> spell [TWild s] path [mk_param s path (length path)].

Section Theorems.
Context {H M : Type}.
Abbreviation node := (ioh_radix_node_t H M).
Abbreviation rmatch := (ioh_radix_match_t H M).
Implicit Types (n c root : node) (p : payload H M).

(** One registration, with memory available; it may succeed or fail. *)
Definition registers root root' : Prop :=
  exists pat hd md mt rc, no_nul pat /\
    ioh_radix_insert (Some root) (Some pat) (Some hd) md mt [] = (Some root', rc, []).

(** The trees a program reaches from [ioh_radix_create] by registrations. *)
Inductive reachable : node -> Prop :=
| reachable_create root : ioh_radix_create [] = (Some root, []) -> reachable root
| reachable_insert root root' : reachable root -> registers root root' -> reachable root'.

(** The match a hit is reported as. *)
Definition answer (r : list ioh_param_t * payload H M) : rmatch :=
  mk_match (Some (pl_handler (snd r))) (pl_metadata (snd r)) (pl_meta (snd r)) (fst r).

(** ** Reachable trees *)

Lemma insert_bad_head root pat hd md mt :
  head pat ≠ Some SLASH ->
  ioh_radix_insert (Some root) (Some pat) (Some hd) md mt [] = (Some root, Err EINVAL, []).
Proof.
  intros Hh. destruct pat as [|b pat]; [done|]. simpl.
  destruct (b =b SLASH) eqn:E; bprop; [by subst|done].
Qed.

Lemma registers_spec root root' :
  wf root -> registers root root' -> wf root' /\ hits_le root root'.
Proof.
  intros Hw (pat & hd & md & mt & rc & Hn & He).
  destruct (decide (head pat = Some SLASH)) as [Hh|Hh].
  - destruct (radix_insert_Post root pat hd md mt Hw Hn Hh) as (r & rc' & He' & Hw' & _ & _ & Hle & _).
    rewrite He in He'. by simplify_eq.
  - rewrite insert_bad_head in He by done. simplify_eq. split; [done|apply hits_le_refl].
Qed.

Lemma reachable_wf root : reachable root -> wf root.
Proof.
  induction 1 as [root E|root root' _ IH Hr]; [|by eapply registers_spec].
  vm_compute in E. simplify_eq. by apply wf_leaf.
Qed.

Lemma registers_star root root' :
  wf root -> rtc registers root root' -> wf root' /\ hits_le root root'.
Proof.
  intros Hw Hs. induction Hs as [x|x y z Hxy Hs IH]; [split; [done|apply hits_le_refl]|].
  destruct (registers_spec x y Hw Hxy) as [Hy Hle]. destruct (IH Hy) as [Hz Hle2].
  split; [done|]. by eapply hits_le_trans.
Qed.

(** ** Lookup as a search *)

Lemma lookup_answer root path :
  path ≠ [] ->
  ioh_radix_lookup (Some root) (Some path) =
  match first_fit 0 (all_go root None path) with
  | Some r => Ok (answer r)
  | None => Err ENOENT
  end.
Proof.
  intros Hp. unfold ioh_radix_lookup, lookup_recursive. destruct path as [|b path]; [done|].
  rewrite lookup_go_spec by (simpl; lia). simpl m_params.
  by destruct (first_fit _ _) as [[ps q]|].
Qed.

Lemma first_fit_in u (l : list (list ioh_param_t * payload H M)) r :
  first_fit u l = Some r -> r ∈ l /\ u + length (fst r) ≤ IOH_MAX_PATH_PARAMS.
Proof.
  induction l as [|x l IH]; cbn [first_fit]; [done|]. destruct (fits u x) eqn:E.
  - intros [= <-]. split; [set_solver|]. by apply Nat.leb_le in E.
  - intros Hr. destruct (IH Hr). split; [set_solver|done].
Qed.

Lemma first_fit_exists u (l : list (list ioh_param_t * payload H M)) r :
  r ∈ l -> u + length (fst r) ≤ IOH_MAX_PATH_PARAMS -> is_Some (first_fit u l).
Proof.
  intros Hin Hf. induction l as [|x l IH]; [by apply not_elem_of_nil in Hin|].
  cbn [first_fit]. destruct (fits u x) eqn:E; [done|]. apply elem_of_cons in Hin as [<-|Hin]; [|auto].
  apply Nat.leb_gt in E. lia.
Qed.

(** ** Soundness of matches *)

Lemma spell_chars s k path ps :
  spell k path ps -> spell ((TChar <$> s) ++ k) (s ++ path) ps.
Proof. intros Hs. induction s as [|b s IH]; simpl; [done|]. by constructor. Qed.

Lemma spell_skip k path ps : spell k (skip_slash path) ps -> spell k path ps.
Proof.
  destruct path as [|b path]; [done|]. simpl. destruct (b =b SLASH) eqn:E; bprop; [|done].
  subst. apply spell_slash.
Qed.

Definition hits_sound n : Prop :=
  forall mode path ps p, (ps, p) ∈ all_go n mode path ->
    (forall len, mode = Some len -> len ≤ length path) ->
    exists k, tree_get n k = Some p /\ spell k path ps.

Lemma static_sound n path len ps p :
  wf n -> Forall hits_sound (children n) -> len ≤ length path ->
  (ps, p) ∈ over (static_hits all_go path len) (children n) ->
  exists k, tree_get n k = Some p /\ spell k path ps.
Proof.
  intros Hn Hf Hl Hin. apply elem_of_over in Hin as (c & Hc & Hx).
  apply list_elem_of_lookup in Hc as [i Hi]. unfold static_hits in Hx.
  destruct (is_static (type c)) eqn:Et; [|by apply not_elem_of_nil in Hx].
  destruct (length (prefix c) <=? len) eqn:El; [|by apply not_elem_of_nil in Hx].
  destruct (memcmp_eq _ _ _) eqn:Em; [|by apply not_elem_of_nil in Hx].
  unfold is_static in Et. unfold memcmp_eq in Em. bprop. rewrite firstn_all in Em.
  assert (Hk : exists k, tree_get c k = Some p /\ spell k (drop (length (prefix c)) path) ps).
  { pose proof (Forall_lookup_1 _ _ _ _ Hf Hi) as Hs. simpl in Hx.
    destruct (length (prefix c) =? len) eqn:E2; bprop.
    - rewrite E2. by apply (Hs None).
    - apply (Hs _ _ _ _ Hx). intros l [= <-]. rewrite length_drop. lia. }
  destruct Hk as (k & Hg & Hsp). exists (edge c ++ k). split; [by rewrite (tree_get_child n i c)|].
  unfold edge. rewrite Et. rewrite <- (take_drop (length (prefix c)) path), Em. by apply spell_chars.
Qed.

Lemma param_sound n path ps p :
  wf n -> Forall hits_sound (children n) ->
  (ps, p) ∈ over (param_hits all_go path (length (fst (span not_slash path)))) (children n) ->
  exists k, tree_get n k = Some p /\ spell k path ps.
Proof.
  intros Hn Hf Hin. apply elem_of_over in Hin as (c & Hc & Hx).
  apply list_elem_of_lookup in Hc as [i Hi]. unfold param_hits in Hx.
  destruct (is_param (type c)) eqn:Et; [|by apply not_elem_of_nil in Hx]. unfold is_param in Et. bprop.
  apply list_elem_of_fmap in Hx as ([ps' p'] & [= -> <-] & Hx).
  pose proof (Forall_lookup_1 _ _ _ _ Hf Hi) as Hs. rewrite <- span_snd_drop in Hx.
  destruct (Hs None _ _ _ Hx) as (k & Hg & Hsp); [done|].
  assert (Hec : wf_edge c) by (inv Hn; by eapply Forall_lookup_1).
  destruct (tag_param c Hec Et) as (s & Hs1 & He & _).
  exists (TParam s :: k). split.
  - change (TParam s :: k) with ([TParam s] ++ k). by rewrite <- He, (tree_get_child n i c).
  - rewrite Hs1. rewrite <- (span_eq not_slash path) at 1 2. simpl. by constructor; [apply span_fst|].
Qed.

Lemma wild_sound n path ps p :
  wf n -> path ≠ [] -> (ps, p) ∈ over (wild_hits path) (children n) ->
  exists k, tree_get n k = Some p /\ spell k path ps.
Proof.
  intros Hn Hp Hin. apply elem_of_over in Hin as (c & Hc & Hx).
  apply list_elem_of_lookup in Hc as [i Hi]. unfold wild_hits in Hx.
  destruct (is_wildcard (type c)) eqn:Et; [|by apply not_elem_of_nil in Hx]. unfold is_wildcard in Et. bprop.
  destruct (node_payload c) as [q|] eqn:Eq; [|by apply not_elem_of_nil in Hx].
  apply list_elem_of_singleton in Hx as [= -> ->].
  assert (Hec : wf_edge c) by (inv Hn; by eapply Forall_lookup_1).
  destruct (tag_wild c Hec Et) as (s & Hs1 & He & _).
  exists [TWild s]. rewrite Hs1. split; [|by constructor].
  rewrite <- (app_nil_r [_]), <- He, (tree_get_child n i c), tree_get_eq by done. done.
Qed.

Lemma hits_sound_all n : wf n -> hits_sound n.
Proof.
  induction n as [n IH] using node_ind'. intros Hn.
  assert (Hf : Forall hits_sound (children n)).
  { inv Hn. apply Forall_forall. intros c Hc. rewrite Forall_forall in *. auto. }
  intros mode path ps p Hx Hlen. rewrite all_go_eq in Hx. destruct mode as [len|].
  - eapply static_sound; [done|done| |exact Hx]. by apply Hlen.
  - assert (Hk : exists k, tree_get n k = Some p /\ spell k (skip_slash path) ps);
      [|destruct Hk as (k & ? & ?); exists k; split; [done|by apply spell_skip]].
    destruct (skip_slash path) as [|b q].
    + destruct (node_payload n) eqn:E; [|by apply not_elem_of_nil in Hx].
      apply list_elem_of_singleton in Hx as [= -> ->]. exists []. rewrite tree_get_eq. split; [done|constructor].
    + rewrite !elem_of_app in Hx. destruct Hx as [Hx|[Hx|Hx]].
      * eapply static_sound; [done|done| |exact Hx]. apply span_len.
      * by apply param_sound.
      * by apply wild_sound.
Qed.

(** Parameter values are slices of the path that was looked up. *)
Lemma spell_slices k path ps :
  spell k path ps ->
  Forall (fun x => exists i, p_value x = drop i path /\ p_value_len x <= length (p_value x)) ps.
Proof.
  induction 1 as [|k path ps _ IH|b k path ps _ IH|s k v rest ps _ _ IH|s path _].
  - done.
  - eapply Forall_impl; [exact IH|]. intros x (i & Hi & Hl). by exists (S i).
  - eapply Forall_impl; [exact IH|]. intros x (i & Hi & Hl). by exists (S i).
  - constructor; [exists 0; simpl; rewrite length_app; split; [done|lia]|].
    eapply Forall_impl; [exact IH|]. intros x (i & Hi & Hl). exists (length v + i).
    by rewrite <- drop_drop, drop_app_length.
  - repeat constructor. exists 0. simpl. by split.
Qed.

(** ** The trie as a route table *)

(** Hits are slices in any tree, well formed or not. *)
Definition slices (path : bytes) (ps : list ioh_param_t) : Prop :=
  Forall (fun x => exists i, p_value x = drop i path /\ p_value_len x <= length (p_value x)) ps.

Lemma slices_drop j path ps : slices (drop j path) ps -> slices path ps.
Proof.
  intros Hs. eapply Forall_impl; [exact Hs|]. intros x (i & Hi & Hl).
  exists (j + i). by rewrite <- drop_drop.
Qed.

Lemma hits_slices n mode path ps p : (ps, p) ∈ all_go n mode path -> slices path ps.
Proof.
  revert mode path ps p. induction n as [n IH] using node_ind'. intros mode path ps p.
  rewrite Forall_forall in IH.
  assert (Hst : forall path len, (ps, p) ∈ over (static_hits all_go path len) (children n) -> slices path ps).
  { clear path. intros path len Hx. apply elem_of_over in Hx as (c & Hc & Hx). unfold static_hits in Hx.
    destruct (_ && _ && _); [|by apply not_elem_of_nil in Hx].
    destruct (_ =? _); apply (IH c Hc) in Hx; by eapply slices_drop. }
  rewrite all_go_eq. destruct mode as [len|]; [apply Hst|].
  destruct (skip_slash path) as [|b q] eqn:Eq.
  - destruct (node_payload n); [|by intros ?%not_elem_of_nil]. intros [= -> _]%list_elem_of_singleton. constructor.
  - intros Hx. assert (Hs : slices (b :: q) ps).
    { rewrite !elem_of_app in Hx. destruct Hx as [Hx|[Hx|Hx]]; [by eapply Hst| |].
      - apply elem_of_over in Hx as (c & Hc & Hx). unfold param_hits in Hx.
        destruct (is_param _); [|by apply not_elem_of_nil in Hx].
        apply list_elem_of_fmap in Hx as ([ps' p'] & [= -> <-] & Hx).
        constructor; [|apply (IH c Hc) in Hx; by eapply slices_drop].
        exists 0. split; [done|]. exact (span_len not_slash (b :: q)).
      - apply elem_of_over in Hx as (c & Hc & Hx). unfold wild_hits in Hx.
        destruct (is_wildcard _); [|by apply not_elem_of_nil in Hx].
        destruct (node_payload c); [|by apply not_elem_of_nil in Hx].
        apply list_elem_of_singleton in Hx as [= -> _]. repeat constructor. by exists 0. }
    destruct path as [|x path]; [done|]. simpl in Eq. destruct (x =b SLASH); simplify_eq; [|done].
    by apply (slices_drop 1 (x :: b :: q)).
Qed.

Lemma lookup_ok_hit root path m :
  ioh_radix_lookup (Some root) (Some path) = Ok m ->
  exists r, m = answer r /\ r ∈ all_go root None path /\ length (fst r) ≤ IOH_MAX_PATH_PARAMS.
Proof.
  intros Hl. destruct path as [|b path]; [done|]. rewrite lookup_answer in Hl by done.
  destruct (first_fit _ _) as [r|] eqn:E; [|done]. injection Hl as <-.
  apply first_fit_in in E as [? ?]. by exists r.
Qed.

#[export] Program Instance radix_route_table : RouteTable node H M := {|
  rt_create := ioh_radix_create;
  rt_insert := fun t pat hd md mt h =>
    match ioh_radix_insert (Some t) (Some pat) (Some hd) md mt h with
    | (Some t', rc, h') => (t', rc, h')
    | (None, rc, h') => (t, rc, h')
    end;
  rt_lookup := fun t path => ioh_radix_lookup (Some t) (Some path);
|}.
Next Obligation.
  intros t path m ([ps p] & -> & Hin & Hl)%lookup_ok_hit. split; [done|]. by eapply hits_slices.
Qed.
Next Obligation. intros t path m (r & -> & _)%lookup_ok_hit. by eexists. Qed.
Lemma registered_found root root1 root2 pat hd md mt path ps :
  reachable root -> no_nul pat ->
  ioh_radix_insert (Some root) (Some pat) (Some hd) md mt [] = (Some root1, Ok tt, []) ->
  rtc registers root1 root2 ->
  inst pat path ps -> path ≠ [] -> length ps ≤ IOH_MAX_PATH_PARAMS ->
  (exists m, ioh_radix_lookup (Some root2) (Some path) = Ok m)
  /\ (ps = [] -> ioh_radix_lookup (Some root2) (Some path) =
                 Ok (mk_match (Some hd) md mt [])).
Proof.
  intros Hr%reachable_wf Hn Hins Hstar Hi Hp Hl.
  assert (Hh : head pat = Some SLASH).
  { destruct (decide (head pat = Some SLASH)); [done|]. by rewrite insert_bad_head in Hins. }
  destruct (radix_insert_Post root pat hd md mt Hr Hn Hh)
    as (r & rc & Hins' & Hw1 & _ & _ & _ & Hnew).
  rewrite Hins in Hins'. injection Hins' as <- <-.
  destruct (registers_star root1 root2 Hw1 Hstar) as [Hw2 Hle].
  pose proof (Hle None path _ (Hnew eq_refl path ps Hi)) as Hin.
  rewrite lookup_answer by done. split.
  - destruct (first_fit_exists 0 _ _ Hin) as [x ->]; [done|]. by eexists.
  - intros ->. destruct (no_capture_first root2 Hw2 None path _ Hin) as [l ->]. done.
Qed.

(** ** The properties *)

(** C4: while memory lasts, registration refines the update of a finite map from route
    keys to registrations.  Let every allocation succeed, in this insertion and in those
    that built the tree.  On every tree reached so, inserting a pattern that
    starts with a slash returns; on success exactly the pattern's key, which was
    free, is now mapped to the registration; when the pattern is refused no key changes; and it
    succeeds whenever the pattern is well formed, its key is free and no
    parameter or wildcard on its way has another name.  Every tree so reached is
    well formed: sorted, distinct siblings, non-empty edges without slash. *)
Theorem radix_insert_refines_map root pat hd md mt :
  reachable root -> no_nul pat -> head pat = Some SLASH ->
  exists root' rc,
    ioh_radix_insert (Some root) (Some pat) (Some hd) md mt [] = (Some root', rc, [])
    /\ wf root'
    /\ outcome root root' rc (key_of pat) (mk_payload hd md mt)
    /\ (forall k, key_of pat = Some k -> tree_get root k = None -> conflict root k = false ->
          rc = Ok tt).
Proof.
  intros Hr%reachable_wf Hn Hh.
  destruct (radix_insert_Post root pat hd md mt Hr Hn Hh) as (r & rc & ? & ? & ? & ? & _).
  by exists r, rc.
Qed.

(** C5: the backtracking search of a lookup is the first match, in the order
    static, parameter, wildcard at every node, whose captures fit in the
    parameter array; without such a match the answer is [ENOENT].  It holds of
    every tree, and the enumeration [all_go] has no backtracking state. *)
Theorem radix_lookup_first_match root path :
  path ≠ [] ->
  ioh_radix_lookup (Some root) (Some path) =
  match first_fit 0 (all_go root None path) with
  | Some (ps, q) => Ok (mk_match (Some (pl_handler q)) (pl_metadata q) (pl_meta q) ps)
  | None => Err ENOENT
  end.
Proof. intros Hp. rewrite lookup_answer by done. by destruct (first_fit _ _) as [[ps q]|]. Qed.

(** A registered route stays reachable.  After a successful registration of
    [pat] and any further registrations, successful or not, every path that is
    an instance of [pat] with at most [IOH_MAX_PATH_PARAMS] captures is answered,
    and an instance without captures is answered with exactly this registration. *)
Theorem radix_registered_is_found root root1 root2 pat hd md mt path ps :
  reachable root -> no_nul pat ->
  ioh_radix_insert (Some root) (Some pat) (Some hd) md mt [] = (Some root1, Ok tt, []) ->
  rtc registers root1 root2 ->
  inst pat path ps -> path ≠ [] -> length ps ≤ IOH_MAX_PATH_PARAMS ->
  (exists m, ioh_radix_lookup (Some root2) (Some path) = Ok m)
  /\ (ps = [] -> ioh_radix_lookup (Some root2) (Some path) =
                 Ok (mk_match (Some hd) md mt [])).
Proof. apply registered_found. Qed.

(** A lookup invents nothing.  On every reachable tree an answer is the
    registration of some key of the map, the path spells that key byte for byte
    (slashes apart), the reported parameters are its captures, at most
    [IOH_MAX_PATH_PARAMS] of them, each a slice of the path. *)
Theorem radix_lookup_sound root path m :
  reachable root -> ioh_radix_lookup (Some root) (Some path) = Ok m ->
  exists k q, tree_get root k = Some q /\ spell k path (m_params m)
    /\ m_handler m = Some (pl_handler q) /\ m_metadata m = pl_metadata q /\ m_meta m = pl_meta q
    /\ length (m_params m) ≤ IOH_MAX_PATH_PARAMS /\ slices path (m_params m).
Proof.
  intros Hr%reachable_wf ([ps q] & -> & Hin & Hl)%lookup_ok_hit.
  destruct (hits_sound_all root Hr None path ps q Hin) as (k & Hg & Hs); [done|].
  exists k, q. split_and!; try done. by eapply hits_slices.
Qed.

(** The segment a static pattern starts with. *)
Lemma next_segment_cut (sl : bool) (a rest : bytes) :
  a ≠ [] -> Forall (fun x => not_slash x = true) a -> at_boundary rest ->
  next_segment ((if sl then [SLASH] else []) ++ a ++ rest) = (Some (a ++ rest), length a, rest).
Proof.
  intros Ha Hs Hr. unfold next_segment. destruct a as [|x a]; [done|].
  assert (Hx : (x =b SLASH) = false) by (apply beq_false; inv Hs; by apply not_slash_true).
  pose proof (at_boundary_span (x :: a) rest Hs Hr) as Hsp.
  destruct sl; simpl app in *; cbv beta iota zeta; [rewrite beq_refl|rewrite Hx]; by rewrite Hsp.
Qed.

Definition leaf (pfx : bytes) : node := mk_node pfx IOH_NODE_STATIC None None None None [] 0%Z 0%Z.

(** Adding the first STATIC segment below an empty node. *)
Lemma static_first fuel n seg len next p :
  children n = [] -> child_capacity n = 0%Z -> no_nul seg ->
  insert_static_segment (S fuel) n seg len next p [] =
  with_child (set_capacity (set_children n [leaf (take len seg)]) 4) 0
    (insert_recursive fuel (leaf (take len seg)) next p []).
Proof.
  intros Hc Hcap Hn. cbn [insert_static_segment]. rewrite Hc. cbn [find_child].
  rewrite create_ok by done. unfold ioh_radix_node_add_child. rewrite Hc, Hcap. simpl.
  unfold set_children at 1. simpl. by destruct n; simpl in *; subst.
Qed.

(** One static segment of the recursion. *)
Lemma rec_static_first fuel n (a rest : bytes) p :
  a ≠ [] -> no_nul (a ++ rest) -> Forall (fun x => not_slash x = true) a -> at_boundary rest ->
  char_at a 0 ≠ "*"%byte -> char_at a 0 ≠ ":"%byte ->
  children n = [] -> child_capacity n = 0%Z ->
  insert_recursive (S (S fuel)) n (SLASH :: a ++ rest) p [] =
  with_child (set_capacity (set_children (ioh_radix_increment_priority n) [leaf a]) 4) 0
    (insert_recursive fuel (leaf a) rest p []).
Proof.
  intros Ha Hn Hs Hr H1 H2 Hc Hcap.
  assert (Ht : take (length a) (a ++ rest) = a) by by rewrite take_app_length.
  rewrite <- Ht at 2 3. rewrite <- static_first by done.
  pose proof (next_segment_cut true a rest Ha Hs Hr) as Hseg. simpl app in Hseg.
  cbn [insert_recursive]. rewrite Hseg.
  assert (Hc0 : char_at (a ++ rest) 0 = char_at a 0) by by destruct a.
  rewrite Hc0. apply beq_false in H1, H2. rewrite H1, H2. by destruct a.
Qed.

(** Slashes are not part of what the trie stores.  Once the two-segment
    route [/a/b] is registered, the one-segment path [/ab] is routed to it. *)
Theorem radix_slash_confusion root (a b : bytes) hd md mt :
  ioh_radix_create [] = (Some root, []) -> a ≠ [] -> b ≠ [] -> no_nul a -> no_nul b ->
  Forall (fun x => not_slash x = true) a -> Forall (fun x => not_slash x = true) b ->
  char_at a 0 ≠ "*"%byte -> char_at a 0 ≠ ":"%byte ->
  char_at b 0 ≠ "*"%byte -> char_at b 0 ≠ ":"%byte ->
  exists root',
    ioh_radix_insert (Some root) (Some (SLASH :: a ++ SLASH :: b)) (Some hd) md mt []
      = (Some root', Ok tt, [])
    /\ ioh_radix_lookup (Some root') (Some (SLASH :: a ++ b)) = Ok (mk_match (Some hd) md mt []).
Proof.
  intros Hc Ha Hb Hna Hnb Hsa Hsb Ha1 Ha2 Hb1 Hb2. vm_compute in Hc. injection Hc as <-.
  set (nb := ioh_radix_increment_priority (set_payload (leaf b) (mk_payload hd md mt))).
  set (na := set_capacity (set_children (ioh_radix_increment_priority (leaf a)) [nb]) 4).
  set (root' := set_capacity (set_children (ioh_radix_increment_priority (leaf [])) [na]) 4).
  exists root'.
  assert (Hins : ioh_radix_insert (Some (leaf [])) (Some (SLASH :: a ++ SLASH :: b)) (Some hd) md mt []
            = (Some root', Ok tt, [])).
  { unfold ioh_radix_insert. rewrite beq_refl. cbn [negb].
    assert (Hf : insert_fuel (SLASH :: a ++ SLASH :: b)
                 = S (S (S (S (S (2 * length a + 2 * length b + 1)))))).
    { unfold insert_fuel. simpl. rewrite length_app. simpl. lia. }
    rewrite Hf, rec_static_first; try done.
    - pose proof (rec_static_first (S (2 * length a + 2 * length b + 1)) (leaf a) b []
                    (mk_payload hd md mt)) as Hr.
      rewrite app_nil_r in Hr. by rewrite Hr.
    - apply Forall_app. split; [done|]. by constructor. }
  split; [done|]. rewrite lookup_answer by done.
  assert (Hw : wf root').
  { apply (registers_spec (leaf [])); [by apply wf_leaf|].
    exists (SLASH :: a ++ SLASH :: b), hd, md, mt, (Ok tt). split; [|exact Hins].
    constructor; [done|]. apply Forall_app. split; [done|]. by constructor. }
  destruct (no_capture_first root' Hw None (SLASH :: a ++ b) (mk_payload hd md mt)) as [l ->]; [|done].
  apply (hit_segment root' _ (a ++ b) []); [by rewrite app_nil_r|by destruct a|by apply Forall_app|done|].
  rewrite <- (firstn_all (a ++ b)) at 2.
  apply (hit_static root' na (a ++ b) [] (length a)); rewrite ?length_app; try lia;
    [set_solver|done|by rewrite take_app_length|].
  replace (length a =? length a + length b) with false
    by (symmetry; apply Nat.eqb_neq; destruct b; simpl in *; [done|lia]).
  rewrite drop_app_length. replace (length a + length b - length a) with (length b) by lia.
  apply (hit_static na nb b [] (length b)); try done; [set_solver|by rewrite firstn_all|].
  rewrite Nat.eqb_refl. rewrite all_go_eq. simpl. set_solver.
Qed.

End Theorems.

(** ** The properties at concrete trees *)

(** A registration of handler [x] (a number) for the pattern [pat]. *)
Definition register (root : ioh_radix_node_t nat unit) (pat : bytes) (x : nat)
    : ioh_radix_node_t nat unit :=
  match ioh_radix_insert (Some root) (Some pat) (Some x) None None [] with
  | (Some root', _, _) => root'
  | (None, _, _) => root
  end.

Definition demo0 : ioh_radix_node_t nat unit := leaf [].
Definition demo1 := register demo0 (bs "/users/:id") 1.
Definition demo2 := register demo1 (bs "/users/me") 2.

Lemma demo1_reachable : reachable demo1.
Proof.
  eapply reachable_insert; [by apply (reachable_create demo0)|].
  exists (bs "/users/:id"), 1, None, None, (Ok tt). split; [repeat constructor|reflexivity].
Qed.

Lemma radix_insert_refines_map_witness :
  exists root' rc,
    ioh_radix_insert (Some demo1) (Some (bs "/users/me")) (Some 2) None None [] = (Some root', rc, [])
    /\ rc = Ok tt.
Proof.
  destruct (radix_insert_refines_map demo1 (bs "/users/me") 2 None None
              demo1_reachable ltac:(repeat constructor) eq_refl)
    as (root' & rc & E & _ & _ & Hok).
  exists root', rc. split; [exact E|]. eapply Hok; vm_compute; reflexivity.
Defined.

Lemma radix_lookup_first_match_witness :
  ioh_radix_lookup (Some demo2) (Some (bs "/users/me")) = Ok (mk_match (Some 2) None None []).
Proof. rewrite (radix_lookup_first_match demo2 (bs "/users/me")); [reflexivity|discriminate]. Defined.

Lemma radix_registered_is_found_witness :
  ioh_radix_lookup (Some demo2) (Some (bs "/users/me")) = Ok (mk_match (Some 2) None None []).
Proof.
  refine (proj2 (radix_registered_is_found demo1 demo2 demo2 (bs "/users/me") 2 None None
                   (bs "/users/me") [] demo1_reachable ltac:(repeat constructor) eq_refl
                   (rtc_refl _ _) _ ltac:(discriminate) ltac:(apply Nat.le_0_l)) eq_refl).
  apply (inst_static _ _ (bs "users/me") 4 (bs "/me") (bs "/me")); try reflexivity; try discriminate.
  apply (inst_static _ _ (bs "me") 1 [] []); try reflexivity; try discriminate; try exact I.
  by apply (inst_end _ _ None []).
Defined.

Lemma radix_lookup_sound_witness :
  exists k q, tree_get demo1 k = Some q /\ spell k (bs "/users/7") [mk_param (bs "id") (bs "7") 1]
              /\ pl_handler q = 1.
Proof.
  destruct (radix_lookup_sound demo1 (bs "/users/7")
              (mk_match (Some 1) None None [mk_param (bs "id") (bs "7") 1])
              demo1_reachable eq_refl) as (k & q & Hg & Hs & Hh & _).
  exists k, q. split; [exact Hg|]. split; [exact Hs|]. simpl in Hh. congruence.
Defined.

Lemma radix_slash_confusion_witness :
  exists root',
    ioh_radix_insert (Some demo0) (Some (bs "/users/list")) (Some 1) None (@None ioh_route_meta_t) []
      = (Some root', Ok tt, [])
    /\ ioh_radix_lookup (Some root') (Some (bs "/userslist")) = Ok (mk_match (Some 1) None None []).
Proof.
  apply (radix_slash_confusion demo0 (bs "users") (bs "list") 1 None None);
    first [reflexivity | discriminate | repeat constructor].
Defined.

(** An allocation failure inside a split damages routes that were already
    registered.  With [/abcd] registered, the insertion of [/abxy] whose fourth
    allocation (the growth of the new node's child array) fails returns [ENOMEM]
    and leaves [/abcd] unreachable, its node cut to the suffix [cd], so that
    [/cd] is answered instead. *)
Theorem radix_split_oom_corrupts :
  exists root' : ioh_radix_node_t nat unit,
    ioh_radix_lookup (Some (register demo0 (bs "/abcd") 1)) (Some (bs "/abcd"))
      = Ok (mk_match (Some 1) None None [])
    /\ ioh_radix_insert (Some (register demo0 (bs "/abcd") 1)) (Some (bs "/abxy")) (Some 2)
         None None [true; true; true; false] = (Some root', Err ENOMEM, [])
    /\ ioh_radix_lookup (Some root') (Some (bs "/abcd")) = Err ENOENT
    /\ ioh_radix_lookup (Some root') (Some (bs "/cd")) = Ok (mk_match (Some 1) None None []).
Proof. eexists. split; [vm_compute; reflexivity|]. split; [vm_compute; reflexivity|]. by vm_compute. Qed.
