(* ===== verification/PathNorm.v ===== *)
(** Path normalisation ([ioh_path_normalize] of [src/src/router/ioh_router.c]):
    the scanner with its segment stack, a reference definition that splits the
    path and resolves the segments, and their equivalence. *)
From S2P Require Import Prelude CString.

(** ** The code *)

Definition IOH_MAX_URI_SIZE : nat := 4096.

(** The depth of [seg_starts] and [seg_lens]. *)
Definition SEG_STACK : nat := 256.

Definition is_slash (b : byte) : bool := b =b SLASH.

(** The main loop at the position with [rest] left.  The stack of segments (each
    a start and a length in the code) has its top first.  Every iteration
    consumes a byte, so [length path + 1] iterations are enough ([None] is fuel
    run out). *)
Fixpoint scan_segments (fuel : nat) (rest : bytes) (stack : list bytes) : option (res (list bytes)) :=
  match fuel with
  | O => None
  | S fuel =>
      match snd (span is_slash rest) with
      | [] => Some (Ok stack)
      | rest =>
          let '(seg, rest) := span not_slash rest in
          if (length seg =? 1) && (char_at seg 0 =b "."%byte)
          then scan_segments fuel rest stack
          else if (length seg =? 2) && (char_at seg 0 =b "."%byte) && (char_at seg 1 =b "."%byte)
          then match stack with
               | [] => Some (Err EINVAL)                       (* traversal above root *)
               | _ :: stack => scan_segments fuel rest stack
               end
          else if SEG_STACK <=? length stack then Some (Err EINVAL)      (* path too deep *)
          else scan_segments fuel rest (seg :: stack)
      end
  end.

(** The output loop, after [written] bytes. *)
Fixpoint build_output (segs : list bytes) (out_size : nat) (written : bytes) : res bytes :=
  match segs with
  | [] => Ok written
  | seg :: segs =>
      if out_size <=? length written + 1 + length seg then Err EINVAL
      else build_output segs out_size (written ++ SLASH :: seg)
  end.

(** The bytes of [out] (without its NUL) when the call returns 0.  [path] holds
    the [path_len] bytes of the argument; the null-pointer tests on [out] and
    [out_len] are left to the caller. *)
Definition ioh_path_normalize (path : option bytes) (out_size : nat) : res bytes :=
  match path with
  | None => Err EINVAL
  | Some path =>
      if out_size =? 0 then Err EINVAL else
      if (length path =? 0) || negb (char_at path 0 =b SLASH) then Err EINVAL else
      if existsb (fun b => b =b NUL) path then Err EINVAL else
      match scan_segments (S (length path)) path [] with
      | None => Err EINVAL
      | Some (Err e) => Err e
      | Some (Ok stack) =>
          match stack with
          | [] => if out_size <? 2 then Err EINVAL else Ok [SLASH]
          | _ :: _ => build_output (rev stack) out_size []
          end
      end
  end.

(** ** The reference: split, resolve, render *)

(** The segments between slashes, empty ones included. *)
Fixpoint split_slash (l : bytes) : list bytes :=
  match l with
  | [] => [[]]
  | b :: l' =>
      match split_slash l' with
      | s :: ss => if is_slash b then [] :: s :: ss else (b :: s) :: ss
      | [] => [[b]]
      end
  end.

Definition dot : bytes := bs ".".
Definition dotdot : bytes := bs "..".

(** Walk through the segments from the directory [stack] (innermost first):
    empty and dot segments stay, dot-dot goes up, any other segment goes down. *)
Fixpoint resolve (segs : list bytes) (stack : list bytes) : option (list bytes) :=
  match segs with
  | [] => Some stack
  | s :: segs =>
      if decide (s = [] \/ s = dot) then resolve segs stack
      else if decide (s = dotdot)
      then match stack with [] => None | _ :: stack => resolve segs stack end
      else if SEG_STACK <=? length stack then None
      else resolve segs (s :: stack)
  end.

Definition render (segs : list bytes) : bytes :=
  match segs with [] => [SLASH] | _ :: _ => mjoin ((SLASH ::.) <$> segs) end.

Definition normal_form (path : bytes) : option bytes :=
  render ∘ rev (A := bytes) <$> resolve (split_slash path) [].

(** A segment that normalisation keeps. *)
Definition plain_segment (s : bytes) : Prop :=
  s ≠ [] /\ s ≠ dot /\ s ≠ dotdot /\ Forall (fun b => not_slash b = true) s.

(** ** Splitting *)

Lemma is_slash_not b : is_slash b = negb (not_slash b).
Proof. unfold not_slash. by rewrite negb_involutive. Qed.

Lemma split_slash_ne l : split_slash l ≠ [].
Proof. destruct l as [|b l]; simpl; [done|]. destruct (split_slash l); [done|]. by destruct (is_slash b). Qed.

Lemma split_slash_slash l : split_slash (SLASH :: l) = [] :: split_slash l.
Proof. simpl. pose proof (split_slash_ne l). by destruct (split_slash l). Qed.

Lemma split_slash_plain s : Forall (fun b => not_slash b = true) s -> split_slash s = [s].
Proof.
  induction 1 as [|b s Hb _ IH]; simpl; [done|]. rewrite IH. by rewrite is_slash_not, Hb.
Qed.

Lemma split_slash_cut s l :
  Forall (fun b => not_slash b = true) s ->
  split_slash (s ++ SLASH :: l) = s :: split_slash l.
Proof.
  induction 1 as [|b s Hb _ IH]; [apply split_slash_slash|]. simpl app.
  cbn [split_slash]. rewrite IH, is_slash_not, Hb. done.
Qed.

Lemma split_slash_no_slash l : Forall (Forall (fun b => not_slash b = true)) (split_slash l).
Proof.
  induction l as [|b l IH]; simpl; [by repeat constructor|].
  destruct (split_slash l) as [|s ss] eqn:E; [by apply split_slash_ne in E|].
  destruct (is_slash b) eqn:Eb; [by constructor|]. rewrite is_slash_not in Eb. bprop.
  inv IH. repeat constructor; done.
Qed.

(** Leading slashes do not matter to [resolve]. *)
Lemma resolve_skip l stack :
  resolve (split_slash l) stack = resolve (split_slash (snd (span is_slash l))) stack.
Proof.
  induction l as [|b l IH]; [done|]. simpl span. destruct (is_slash b) eqn:E; [|done].
  unfold is_slash in E. bprop. subst b. rewrite split_slash_slash. simpl.
  rewrite IH. by destruct (span is_slash l).
Qed.

(** ** The scanner implements [resolve] *)

Lemma dot_test seg : (length seg =? 1) && (char_at seg 0 =b "."%byte) = bool_decide (seg = dot).
Proof.
  destruct seg as [|a [|b seg]]; [done| |by rewrite bool_decide_eq_false_2].
  simpl. unfold char_at. simpl. unfold beq. apply bool_decide_ext.
  change dot with [x2e]. split; [by intros ->|by intros [= ->]].
Qed.

Lemma dotdot_test seg :
  (length seg =? 2) && (char_at seg 0 =b "."%byte) && (char_at seg 1 =b "."%byte)
  = bool_decide (seg = dotdot).
Proof.
  destruct seg as [|a [|b [|c seg]]]; [done|by rewrite bool_decide_eq_false_2| |by rewrite bool_decide_eq_false_2].
  unfold char_at. simpl. unfold beq. rewrite <- bool_decide_and. apply bool_decide_ext.
  change dotdot with [x2e; x2e]. split; [by intros [-> ->]|by intros [= -> ->]].
Qed.

Lemma resolve_cons s ss stack :
  s ≠ [] ->
  resolve (s :: ss) stack =
  if bool_decide (s = dot) then resolve ss stack
  else if bool_decide (s = dotdot)
  then match stack with [] => None | _ :: stack => resolve ss stack end
  else if SEG_STACK <=? length stack then None else resolve ss (s :: stack).
Proof.
  intros Hs. cbn [resolve]. repeat case_bool_decide; repeat case_decide; try done; naive_solver.
Qed.

Lemma scan_segments_resolve fuel l stack :
  length l < fuel ->
  scan_segments fuel l stack =
    Some (match resolve (split_slash l) stack with Some st => Ok st | None => Err EINVAL end).
Proof.
  revert l stack. induction fuel as [|fuel IH]; intros l stack Hf; [lia|].
  rewrite resolve_skip. cbn [scan_segments].
  pose proof (span_eq is_slash l) as Hl. pose proof (span_snd is_slash l) as Hnb.
  destruct (span is_slash l) as [pre q]. cbn [fst snd] in *. destruct q as [|b q]; [done|].
  specialize (Hnb b q eq_refl). rewrite is_slash_not in Hnb. bprop.
  pose proof (span_eq not_slash (b :: q)) as Hq. pose proof (span_fst not_slash (b :: q)) as Hs.
  pose proof (span_snd not_slash (b :: q)) as Hr.
  destruct (span not_slash (b :: q)) as [seg rest] eqn:Esp. simpl fst in *. simpl snd in *.
  assert (Hseg : seg ≠ []).
  { simpl in Esp. rewrite Hnb in Esp. destruct (span not_slash q). by simplify_eq. }
  assert (Hlen : length rest < fuel).
  { apply (f_equal length) in Hl, Hq. rewrite length_app in Hl, Hq. simpl in Hl, Hq.
    destruct seg; [done|]. simpl in Hq. lia. }
  assert (Hres : forall st, resolve (split_slash (b :: q)) st = resolve (seg :: split_slash rest) st \/
                            rest = [] /\ resolve (split_slash (b :: q)) st = resolve [seg] st).
  { intros st. rewrite <- Hq. destruct rest as [|c rest].
    - right. rewrite app_nil_r, split_slash_plain by done. done.
    - left. specialize (Hr c rest eq_refl). apply not_slash_false in Hr. subst c.
      rewrite split_slash_cut, split_slash_slash by done. rewrite !resolve_cons by done. done. }
  assert (Hres' : resolve (split_slash (b :: q)) stack = resolve (seg :: split_slash rest) stack).
  { destruct (Hres stack) as [->|[-> ->]]; [done|]. rewrite !resolve_cons by done. done. }
  rewrite Hres', resolve_cons by done. rewrite dot_test, dotdot_test.
  destruct (bool_decide (seg = dot)); [by apply IH|].
  destruct (bool_decide (seg = dotdot)); [destruct stack; [done|by apply IH]|].
  destruct (SEG_STACK <=? length stack); [done|by apply IH].
Qed.

Lemma mjoin_slash_app (a b : list bytes) :
  mjoin ((SLASH ::.) <$> (a ++ b)) = mjoin ((SLASH ::.) <$> a) ++ mjoin ((SLASH ::.) <$> b).
Proof. by rewrite fmap_app, join_app. Qed.

Lemma build_output_eq segs size w :
  build_output segs size w =
    if decide (segs = [] \/ length w + length (mjoin ((SLASH ::.) <$> segs)) < size)
    then Ok (w ++ mjoin ((SLASH ::.) <$> segs)) else Err EINVAL.
Proof.
  revert w. induction segs as [|s segs IH]; intros w; cbn [build_output].
  - rewrite decide_True by by left. simpl. by rewrite app_nil_r.
  - assert (Hj : mjoin ((SLASH ::.) <$> s :: segs) = (SLASH :: s) ++ mjoin ((SLASH ::.) <$> segs)) by done.
    rewrite Hj, length_app. simpl length. destruct (size <=? _) eqn:E; bprop.
    + rewrite decide_False; [done|]. intros [?|?]; [done|]. lia.
    + rewrite IH, length_app. simpl length. rewrite <- app_assoc. simpl app.
      destruct segs as [|s' segs'].
      * rewrite !decide_True; [done|right; simpl in *; lia|by left].
      * apply decide_ext. split; (intros [?|?]; [done|right; lia]).
Qed.

Lemma normalize_eq path size :
  ioh_path_normalize (Some path) size =
  if decide (head path = Some SLASH /\ NUL ∉ path)
  then match normal_form path with
       | Some out => if length out <? size then Ok out else Err EINVAL
       | None => Err EINVAL
       end
  else Err EINVAL.
Proof.
  assert (Hhead : (length path =? 0) || negb (char_at path 0 =b SLASH) = bool_decide (head path ≠ Some SLASH)).
  { destruct path as [|b path]; [done|]. unfold char_at. simpl.
    unfold beq. rewrite <- bool_decide_not. apply bool_decide_ext. naive_solver. }
  assert (Hnul : existsb (fun b => b =b NUL) path = bool_decide (NUL ∈ path)).
  { apply eq_true_iff_eq. rewrite existsb_exists, bool_decide_eq_true. split.
    - intros (x & Hx & E). apply beq_true in E. subst. by apply list_elem_of_In.
    - intros Hx. exists NUL. split; [by apply list_elem_of_In|apply beq_refl]. }
  unfold ioh_path_normalize. rewrite Hhead, Hnul.
  destruct (size =? 0) eqn:Esz; bprop.
  { subst. destruct (normal_form path) as [o|]; [|by destruct (decide _)].
    test_false (length o <? 0).
    by destruct (decide _). }
  clear Hhead Hnul.
  destruct (decide (head path = Some SLASH)) as [H1|H1];
    [rewrite (bool_decide_eq_false_2 (_ ≠ _)) by by intros ?
    |rewrite bool_decide_eq_true_2 by done; rewrite decide_False; [done|by intros [? _]]].
  destruct (decide (NUL ∈ path)) as [H2|H2];
    [rewrite bool_decide_eq_true_2 by done; rewrite decide_False; [done|by intros [_ ?]]
    |rewrite bool_decide_eq_false_2 by done].
  rewrite decide_True by done.
  rewrite scan_segments_resolve by lia. unfold normal_form.
  destruct (resolve (split_slash path) []) as [st|]; [|done]. simpl.
  destruct st as [|s st].
  { simpl. destruct (size <? 2) eqn:E, (1 <? size) eqn:E2; bprop; done || lia. }
  rewrite build_output_eq. unfold render.
  destruct (rev (s :: st)) as [|s' st'] eqn:E.
  { apply (f_equal length) in E. rewrite length_rev in E. done. }
  simpl length at 1. simpl app.
  destruct (length _ <? size) eqn:El; bprop; [by rewrite decide_True by by right|].
  rewrite decide_False; [done|]. intros [?|?]; [done|lia].
Qed.

(** ** Normal forms *)

Lemma plain_segment_split s l :
  plain_segment s -> split_slash (SLASH :: s ++ SLASH :: l) = [] :: s :: split_slash l.
Proof. intros (_ & _ & _ & Hs). by rewrite split_slash_slash, split_slash_cut. Qed.

Lemma resolve_plain segs stack st :
  resolve segs stack = Some st -> Forall plain_segment stack -> length stack ≤ SEG_STACK ->
  Forall (Forall (fun b => not_slash b = true)) segs ->
  Forall plain_segment st /\ length st ≤ SEG_STACK.
Proof.
  revert stack. induction segs as [|s segs IH]; intros stack; cbn [resolve].
  { by intros [= <-]. }
  intros Hr Hst Hl Hsl. inv Hsl. destruct (decide (s = [] \/ s = dot)) as [|Hs1]; [by eapply IH|].
  destruct (decide (s = dotdot)) as [|Hs2].
  - destruct stack; [done|]. inv Hst. eapply IH; [done|done| |done]. simpl in *. lia.
  - destruct (SEG_STACK <=? length stack) eqn:E; [done|]. bprop.
    eapply IH; [done| |simpl; lia|done]. constructor; [|done].
    unfold plain_segment. split_and!; [by intros ->; apply Hs1; left|by intros ->; apply Hs1; right|done..].
Qed.

(** Resolving plain segments pushes them all. *)
Lemma resolve_push segs stack :
  Forall plain_segment segs -> length stack + length segs ≤ SEG_STACK ->
  resolve segs stack = Some (rev segs ++ stack).
Proof.
  intros Hp. revert stack. induction Hp as [|s segs (H1 & H2 & H3 & _) _ IH]; intros stack Hl; [done|].
  rewrite resolve_cons, !bool_decide_eq_false_2 by done. simpl in Hl.
  test_false (SEG_STACK <=? length stack).
  rewrite IH by (simpl; lia). simpl. by rewrite <- app_assoc.
Qed.

Lemma split_render segs :
  segs ≠ [] -> Forall plain_segment segs -> split_slash (render segs) = [] :: segs.
Proof.
  intros Hne Hp. unfold render. destruct segs as [|s segs]; [done|]. clear Hne.
  revert s Hp. induction segs as [|s' segs IH]; intros s Hp; inv Hp.
  - simpl mjoin. rewrite app_nil_r, split_slash_slash, split_slash_plain; [done|].
    by rename select (plain_segment s) into Hs; destruct Hs as (_ & _ & _ & ?).
  - change (mjoin ((SLASH ::.) <$> s :: s' :: segs)) with
      (SLASH :: s ++ mjoin ((SLASH ::.) <$> s' :: segs)).
    rename select (plain_segment s) into Hs. specialize (IH s' ltac:(done)).
    change (mjoin ((SLASH ::.) <$> s' :: segs)) with
      (SLASH :: s' ++ mjoin ((SLASH ::.) <$> segs)) in IH |- *.
    rewrite split_slash_slash in IH. injection IH as IH.
    rewrite (plain_segment_split s _ Hs). by rewrite IH.
Qed.

Lemma render_not_nul segs :
  Forall (Forall (fun b => b ≠ NUL)) segs -> NUL ∉ render segs.
Proof.
  intros Hf. unfold render. destruct segs as [|s segs]; [by intros ?%list_elem_of_singleton|].
  intros Hin. apply list_elem_of_join in Hin as (l & Hl & Hin).
  apply list_elem_of_fmap in Hin as (x & -> & Hx). rewrite Forall_forall in Hf.
  apply elem_of_cons in Hl as [?|Hl]; [done|]. specialize (Hf x Hx). rewrite Forall_forall in Hf.
  by apply (Hf NUL).
Qed.

Lemma split_slash_bytes (P : byte -> Prop) l : Forall P l -> Forall (Forall P) (split_slash l).
Proof.
  induction 1 as [|b l Hb _ IH]; simpl; [by repeat constructor|].
  destruct (split_slash l) as [|s ss] eqn:E; [by apply split_slash_ne in E|].
  destruct (is_slash b); [by constructor|]. inv IH. by repeat constructor.
Qed.

Lemma resolve_from (P : bytes -> Prop) segs stack st :
  resolve segs stack = Some st -> Forall P stack -> Forall P segs -> Forall P st.
Proof.
  revert stack. induction segs as [|s segs IH]; intros stack; cbn [resolve].
  { by intros [= <-]. }
  intros Hr Hst Hs. inv Hs. destruct (decide _); [by eapply IH|]. destruct (decide _).
  - destruct stack; [done|]. inv Hst. by eapply IH.
  - destruct (_ <=? _); [done|]. eapply IH; [done|by constructor|done].
Qed.

(** The segments of a normal form. *)
Lemma normal_form_segs path out :
  NUL ∉ path -> normal_form path = Some out ->
  exists segs, out = render segs /\ Forall plain_segment segs /\ length segs ≤ SEG_STACK
               /\ NUL ∉ out.
Proof.
  intros Hn. unfold normal_form. destruct (resolve _ _) as [st|] eqn:E; [|done]. intros [= <-].
  exists (rev st). split; [done|].
  destruct (resolve_plain _ _ _ E) as [Hp Hl]; [done|simpl; lia|apply split_slash_no_slash|].
  split; [by apply Forall_rev|]. split; [by rewrite length_rev|].
  apply render_not_nul, Forall_rev.
  eapply resolve_from; [done|done|]. apply split_slash_bytes, Forall_forall. by intros x Hx ->.
Qed.

Lemma normal_form_render segs :
  Forall plain_segment segs -> length segs ≤ SEG_STACK ->
  normal_form (render segs) = Some (render segs).
Proof.
  intros Hp Hl. destruct segs as [|s segs]; [done|]. unfold normal_form.
  rewrite split_render by done. change (resolve ([] :: s :: segs) []) with (resolve (s :: segs) []).
  rewrite resolve_push, app_nil_r by done. cbn [fmap option_fmap option_map compose]. unfold compose.
  by rewrite rev_involutive.
Qed.

Lemma render_head segs : head (render segs) = Some SLASH.
Proof. by destruct segs. Qed.

(** ** The properties *)

(** C12: normalisation is directory-walk resolution.  For every path, buffer
    size and outcome, the scanner with its explicit segment stack computes the
    reference: split the path at slashes, walk through the segments (empty and
    dot segments stay, dot-dot goes up and fails above the root, at most 256
    levels deep), and render the result; every failure is [EINVAL], and the
    result is refused exactly when it does not fit with its terminator. *)
Theorem path_normalize_spec path out_size :
  ioh_path_normalize (Some path) out_size =
  if decide (head path = Some SLASH /\ NUL ∉ path)
  then match normal_form path with
       | Some out => if length out <? out_size then Ok out else Err EINVAL
       | None => Err EINVAL
       end
  else Err EINVAL.
Proof. apply normalize_eq. Qed.

(** A normalised path is canonical and safe.  It is the root or a sequence of
    segments each introduced by one slash; no segment is empty, dot or dot-dot,
    none holds a slash; no NUL occurs; it fits the buffer with its terminator;
    and normalising it again changes nothing. *)
Theorem path_normalize_canonical path out_size out :
  ioh_path_normalize (Some path) out_size = Ok out ->
  (exists segs, out = render segs /\ Forall plain_segment segs)
  /\ (NUL ∉ out) /\ length out < out_size
  /\ ioh_path_normalize (Some out) out_size = Ok out.
Proof.
  rewrite normalize_eq. destruct (decide _) as [[Hh Hn]|]; [|done].
  destruct (normal_form path) as [o|] eqn:E; [|done].
  destruct (length o <? out_size) eqn:El; [|done]. intros [= <-]. bprop.
  destruct (normal_form_segs _ _ Hn E) as (segs & -> & Hp & Hl & Hno).
  split; [by exists segs|]. split; [done|]. split; [done|].
  rewrite normalize_eq, decide_True by (split; [apply render_head|done]).
  rewrite normal_form_render by done. by rewrite (proj2 (Nat.ltb_lt _ _) El).
Qed.

Lemma path_normalize_canonical_witness :
  ioh_path_normalize (Some (bs "/a/./b//../c")) 64 = Ok (bs "/a/c")
  /\ ioh_path_normalize (Some (bs "/a/c")) 64 = Ok (bs "/a/c").
Proof.
  assert (E : ioh_path_normalize (Some (bs "/a/./b//../c")) 64 = Ok (bs "/a/c")) by (vm_compute; reflexivity).
  split; [exact E|].
  exact (proj2 (proj2 (proj2 (path_normalize_canonical (bs "/a/./b//../c") 64 (bs "/a/c") E)))).
Defined.
