(* ===== verification/Request.v ===== *)
(** HTTP requests ([src/src/http/ioh_request.h], [ioh_request.c]): methods,
    header, parameter, cookie and query lookup, typed parameter extraction and
    content negotiation.

    A pointer/length pair into a buffer is a byte list that starts at the
    pointer, and the length; the list may go on past the length, as the buffer
    does. *)
From S2P Require Import Prelude CString PathNorm Radix.

(** ** Data *)

Inductive ioh_method_t :=
| IOH_METHOD_GET | IOH_METHOD_POST | IOH_METHOD_PUT | IOH_METHOD_DELETE | IOH_METHOD_PATCH
| IOH_METHOD_HEAD | IOH_METHOD_OPTIONS | IOH_METHOD_TRACE | IOH_METHOD_CONNECT
| IOH_METHOD_UNKNOWN.

#[export] Instance method_eq_dec : EqDecision ioh_method_t.
Proof. solve_decision. Defined.

(** The enumerators' values. *)
Definition method_index (m : ioh_method_t) : nat :=
  match m with
  | IOH_METHOD_GET => 0 | IOH_METHOD_POST => 1 | IOH_METHOD_PUT => 2 | IOH_METHOD_DELETE => 3
  | IOH_METHOD_PATCH => 4 | IOH_METHOD_HEAD => 5 | IOH_METHOD_OPTIONS => 6
  | IOH_METHOD_TRACE => 7 | IOH_METHOD_CONNECT => 8 | IOH_METHOD_UNKNOWN => 9
  end.

Record ioh_header_t := mk_header {
  h_name : bytes;
  h_name_len : nat;
  h_value : bytes;
  h_value_len : nat;
}.

Definition IOH_MAX_HEADERS : nat := 64.
Definition IOH_MAX_HEADER_SIZE : nat := 8192.

Record ioh_request_t := mk_request {
  method : ioh_method_t;
  path : option bytes;
  path_len : nat;
  query : option bytes;
  query_len : nat;
  headers : list ioh_header_t;         (* the first [header_count] entries *)
  body : option bytes;
  body_len : Z;
  params : list ioh_param_t;           (* the first [param_count] entries *)
  http_version_major : Z;
  http_version_minor : Z;
  keep_alive : bool;
  content_length : Z;
  content_type : option bytes;
  host : option bytes;
}.

Definition ioh_request_init : ioh_request_t :=
  mk_request IOH_METHOD_GET None 0 None 0 [] None 0 [] 0 0 false 0 None None.

Definition ioh_request_reset : ioh_request_t := ioh_request_init.

(** ** Headers *)

Definition header_is (name : bytes) (h : ioh_header_t) : bool :=
  (h_name_len h =? strnlen name IOH_MAX_HEADER_SIZE)
  && strncasecmp_eq (h_name h) name (strnlen name IOH_MAX_HEADER_SIZE).

Fixpoint find_header (name : bytes) (hs : list ioh_header_t) : option ioh_header_t :=
  match hs with
  | [] => None
  | h :: hs => if header_is name h then Some h else find_header name hs
  end.

Definition ioh_request_header (req : ioh_request_t) (name : bytes) : option bytes :=
  h_value <$> find_header name (headers req).

(** ** Methods *)

Definition ioh_method_parse (s : option bytes) (len : nat) : ioh_method_t :=
  match s with
  | None => IOH_METHOD_UNKNOWN
  | Some m =>
      match len with
      | 3 => if memcmp_eq m (bs "GET") 3 then IOH_METHOD_GET
             else if memcmp_eq m (bs "PUT") 3 then IOH_METHOD_PUT else IOH_METHOD_UNKNOWN
      | 4 => if memcmp_eq m (bs "POST") 4 then IOH_METHOD_POST
             else if memcmp_eq m (bs "HEAD") 4 then IOH_METHOD_HEAD else IOH_METHOD_UNKNOWN
      | 5 => if memcmp_eq m (bs "PATCH") 5 then IOH_METHOD_PATCH
             else if memcmp_eq m (bs "TRACE") 5 then IOH_METHOD_TRACE else IOH_METHOD_UNKNOWN
      | 6 => if memcmp_eq m (bs "DELETE") 6 then IOH_METHOD_DELETE else IOH_METHOD_UNKNOWN
      | 7 => if memcmp_eq m (bs "OPTIONS") 7 then IOH_METHOD_OPTIONS
             else if memcmp_eq m (bs "CONNECT") 7 then IOH_METHOD_CONNECT else IOH_METHOD_UNKNOWN
      | _ => IOH_METHOD_UNKNOWN
      end
  end.

Definition ioh_method_name (m : ioh_method_t) : bytes :=
  match m with
  | IOH_METHOD_GET => bs "GET" | IOH_METHOD_POST => bs "POST" | IOH_METHOD_PUT => bs "PUT"
  | IOH_METHOD_DELETE => bs "DELETE" | IOH_METHOD_PATCH => bs "PATCH"
  | IOH_METHOD_HEAD => bs "HEAD" | IOH_METHOD_OPTIONS => bs "OPTIONS"
  | IOH_METHOD_TRACE => bs "TRACE" | IOH_METHOD_CONNECT => bs "CONNECT"
  | IOH_METHOD_UNKNOWN => bs "UNKNOWN"
  end.

(** ** Path parameters *)

Definition param_is (name : bytes) (p : ioh_param_t) : bool :=
  (length (p_name p) =? strnlen name IOH_MAX_URI_SIZE)
  && memcmp_eq (p_name p) name (strnlen name IOH_MAX_URI_SIZE).

Fixpoint find_param (name : bytes) (ps : list ioh_param_t) : option ioh_param_t :=
  match ps with
  | [] => None
  | p :: ps => if param_is name p then Some p else find_param name ps
  end.

Definition ioh_request_param (req : ioh_request_t) (name : bytes) : option bytes :=
  p_value <$> find_param name (params req).

(** [strtoll]/[strtoull] in base 10: white space, an optional sign, digits. *)
Definition is_space (b : byte) : bool :=
  (b =b SP) || ((9 <=? b2z b) && (b2z b <=? 13))%Z.

Record strto_result := mk_strto {
  st_negative : bool;
  st_magnitude : Z;           (* the digits' value, unbounded *)
  st_consumed : nat;          (* [endptr - nptr]; 0 when there is no digit *)
}.

Definition strto (p : bytes) : strto_result :=
  let '(ws, r) := span is_space p in
  let '(neg, sgn, r) :=
    match r with
    | b :: r' => if b =b "-"%byte then (true, 1, r')
                 else if b =b "+"%byte then (false, 1, r') else (false, 0, r)
    | [] => (false, 0, r)
    end in
  let '(ds, _) := span is_digit r in
  if length ds =? 0 then mk_strto false 0 0
  else mk_strto neg (dec_val 0 ds) (length ws + sgn + length ds).

Definition INT64_MIN : Z := - 2 ^ 63.
Definition INT64_MAX : Z := 2 ^ 63 - 1.
Definition UINT64_MAX : Z := 2 ^ 64 - 1.

(** The parameter of a typed getter: found, with a non-empty value. *)
Definition typed_param (req : ioh_request_t) (name : bytes) : option ioh_param_t :=
  match find_param name (params req) with
  | Some p => if p_value_len p =? 0 then None else Some p
  | None => None
  end.

Definition ioh_request_param_i64 (req : ioh_request_t) (name : bytes) : res Z :=
  match typed_param req name with
  | None => Err EINVAL
  | Some p =>
      let r := strto (p_value p) in
      let val := if st_negative r then (- st_magnitude r)%Z else st_magnitude r in
      if ((val <? INT64_MIN) || (INT64_MAX <? val))%Z then Err ERANGE else
      if negb (st_consumed r =? p_value_len p) then Err EINVAL else Ok val
  end.

(** A leading minus sign, after blanks, in the [len] bytes of the value. *)
Fixpoint leading_minus (p : bytes) (len : nat) : bool :=
  match len, p with
  | S len, b :: p => if b =b "-"%byte then true
                     else if negb (b =b SP) then false else leading_minus p len
  | _, _ => false
  end.

(** [strtoull] negates modulo 2^64 when it meets a minus sign. *)
Definition ioh_request_param_u64 (req : ioh_request_t) (name : bytes) : res Z :=
  match typed_param req name with
  | None => Err EINVAL
  | Some p =>
      if leading_minus (p_value p) (p_value_len p) then Err EINVAL else
      let r := strto (p_value p) in
      if (UINT64_MAX <? st_magnitude r)%Z then Err ERANGE else
      let val := if st_negative r then u64 (- st_magnitude r) else st_magnitude r in
      if negb (st_consumed r =? p_value_len p) then Err EINVAL else Ok val
  end.

Definition ioh_request_param_bool (req : ioh_request_t) (name : bytes) : res bool :=
  match typed_param req name with
  | None => Err EINVAL
  | Some p =>
      let len := p_value_len p in
      let v := p_value p in
      if ((len =? 4) && strncasecmp_eq v (bs "true") 4) || ((len =? 1) && (char_at v 0 =b "1"%byte))
         || ((len =? 3) && strncasecmp_eq v (bs "yes") 3)
      then Ok true
      else if ((len =? 5) && strncasecmp_eq v (bs "false") 5)
              || ((len =? 1) && (char_at v 0 =b "0"%byte))
              || ((len =? 2) && strncasecmp_eq v (bs "no") 2)
      then Ok false
      else Err EINVAL
  end.

Definition ioh_request_param_count (req : ioh_request_t) : nat := length (params req).

(** ** Cookies *)

(** The scan of the cookie string from [p]; each turn consumes a byte. *)
Fixpoint cookie_scan (fuel : nat) (p name : bytes) : option bytes :=
  match fuel with
  | O => None
  | S fuel =>
      if char_at p 0 =b NUL then None else
      let p := snd (span (fun b => b =b SP) p) in
      let name_len := strnlen name IOH_MAX_HEADER_SIZE in
      if strncmp_eq p name name_len && (char_at p name_len =b "="%byte)
      then Some (drop (name_len + 1) p)
      else match strchr p ";"%byte with
           | None => None
           | Some i => cookie_scan fuel (drop (i + 1) p) name
           end
  end.

Definition ioh_request_cookie (req : ioh_request_t) (name : bytes) : option bytes :=
  match ioh_request_header req (bs "Cookie") with
  | None => None
  | Some cookie => cookie_scan (S (length cookie)) cookie name
  end.

(** ** Query parameters *)

(** The scan from [p] with [len] bytes of the query left. *)
Fixpoint query_scan (fuel : nat) (p : bytes) (len : nat) (name : bytes) : option bytes :=
  match fuel with
  | O => None
  | S fuel =>
      if len =? 0 then None else
      let name_len := strnlen name IOH_MAX_URI_SIZE in
      if (name_len <? len) && memcmp_eq p name name_len && (char_at p name_len =b "="%byte)
      then Some (drop (name_len + 1) p)
      else match memchr p "&"%byte len with
           | None => None
           | Some i => query_scan fuel (drop (i + 1) p) (len - (i + 1)) name
           end
  end.

Definition ioh_request_query_param (req : ioh_request_t) (name : bytes) : option bytes :=
  match query req with
  | None => None
  | Some q => query_scan (S (query_len req)) q (query_len req) name
  end.

(** ** Content negotiation *)

(** The length of [p]'s first [n] bytes without trailing blanks. *)
Fixpoint trim_right (p : bytes) (n : nat) : nat :=
  match n with
  | O => 0
  | S n' => if char_at p n' =b SP then trim_right p n' else n
  end.

Definition accept_exact (p : bytes) (mtype_len : nat) (t : bytes) : bool :=
  (strnlen t IOH_MAX_HEADER_SIZE =? mtype_len) && strncasecmp_eq t p mtype_len.

(** The loop over the Accept entries, [len] bytes from [p] left. *)
Fixpoint accept_scan (fuel : nat) (p : bytes) (len : nat) (types : list bytes) : option bytes :=
  match fuel with
  | O => None
  | S fuel =>
      if len =? 0 then None else
      let blanks := length (fst (span (fun b => b =b SP) (take len p))) in
      let p := drop blanks p in
      let len := len - blanks in
      let comma := memchr p ","%byte len in
      let type_end := default len comma in
      let mtype_end := default type_end (memchr p ";"%byte type_end) in
      let mtype_len := trim_right p mtype_end in
      if (mtype_len =? 3) && memcmp_eq p (bs "*/*") 3 then head types else
      let by_prefix :=
        if (2 <? mtype_len) && (char_at p (mtype_len - 1) =b "*"%byte)
           && (char_at p (mtype_len - 2) =b SLASH)
        then list_find (fun t => strncasecmp_eq t p (mtype_len - 1) = true) types else None in
      match by_prefix with
      | Some (_, t) => Some t
      | None =>
          match list_find (fun t => accept_exact p mtype_len t = true) types with
          | Some (_, t) => Some t
          | None => match comma with
                    | Some i => accept_scan fuel (drop (i + 1) p) (len - (i + 1)) types
                    | None => None
                    end
          end
      end
  end.

Definition ioh_request_accepts (req : ioh_request_t) (types : list bytes) : option bytes :=
  match types with
  | [] => None
  | _ :: _ =>
      match ioh_request_header req (bs "Accept") with
      | None => None
      | Some accept => let n := strnlen accept IOH_MAX_HEADER_SIZE in accept_scan (S n) accept n types
      end
  end.
