(* ===== verification/RequestThms.v ===== *)
(** Theorems on request lookups: methods, headers, typed parameters, query
    strings and cookies. *)
From S2P Require Import Prelude CString PathNorm Radix Request.

(** ** Specification vocabulary *)

(** The name of a header as the pointer and length denote it. *)
Definition header_name (h : ioh_header_t) : bytes := take (h_name_len h) (h_name h).

(** A header whose name lies inside the buffer and holds no NUL. *)
Definition header_ok (h : ioh_header_t) : Prop :=
  h_name_len h ≤ length (h_name h) /\ NUL ∉ header_name h.

Definition lower (s : bytes) : bytes := to_lower <$> s.

(** Decimal notation of an integer. *)
Definition print_int (z : Z) : bytes :=
  if (z <? 0)%Z then "-"%byte :: print_dec (- z) else print_dec z.

Definition avoids (bad : bytes) (s : bytes) : Prop := Forall (fun b => b ∉ bad) s.

(** A [key=value] list, its entries separated by [sep]. *)
Definition render_pair (kv : bytes * bytes) : bytes := fst kv ++ "="%byte :: snd kv.
Definition render_rest (sep : bytes) (l : list (bytes * bytes)) : bytes :=
  mjoin ((fun kv => sep ++ render_pair kv) <$> l).
Definition render_pairs (sep : bytes) (l : list (bytes * bytes)) : bytes :=
  match l with [] => [] | kv :: l => render_pair kv ++ render_rest sep l end.

(** Where the value of the first entry named [name] starts, in the text that
    ends with [tail]. *)
Fixpoint first_value (sep : bytes) (l : list (bytes * bytes)) (tail name : bytes) : option bytes :=
  match l with
  | [] => None
  | (k, v) :: l => if decide (k = name) then Some (v ++ render_rest sep l ++ tail)
                   else first_value sep l tail name
  end.

(** ** Auxiliary lemmas *)

Lemma strnlen_id name n : NUL ∉ name -> length name ≤ n -> strnlen name n = length name.
Proof.
  intros Hn Hl. unfold strnlen, strlen. rewrite c_str_id; [lia|].
  apply Forall_forall. intros b Hb. unfold not_nul. destruct (b =b NUL) eqn:E; [|done].
  apply beq_true in E. by subst.
Qed.

Lemma no_nul_forall (s : bytes) : NUL ∉ s -> Forall (fun b => not_nul b = true) s.
Proof.
  intros Hn. apply Forall_forall. intros b Hb. unfold not_nul.
  destruct (b =b NUL) eqn:E; [|done]. apply beq_true in E. by subst.
Qed.

Lemma c_str_take (p : bytes) n : NUL ∉ take n p -> take n (c_str p) = take n p.
Proof.
  intros Hn. unfold c_str. revert n Hn. induction p as [|b p IH]; intros n Hn; [done|].
  simpl span. destruct n as [|n]; [done|]. simpl in Hn.
  assert (Hb : not_nul b = true).
  { unfold not_nul. destruct (b =b NUL) eqn:E; [|done]. apply beq_true in E. set_solver. }
  rewrite Hb. specialize (IH n ltac:(set_solver)). destruct (span not_nul p). simpl in *. by rewrite IH.
Qed.

Lemma strndup_prefix (s t : bytes) : NUL ∉ s -> strndup (s ++ t) (length s) = s.
Proof.
  intros Hn. unfold strndup. rewrite c_str_take; by rewrite take_app_length.
Qed.

(** Two keys without an equals sign, one of which starts a text after which an
    equals sign follows. *)
Lemma key_test (k name t : bytes) :
  "="%byte ∉ k -> "="%byte ∉ name ->
  take (length name) (k ++ "="%byte :: t) = name ->
  char_at (k ++ "="%byte :: t) (length name) = "="%byte -> k = name.
Proof.
  intros Hk Hn Ht Hc.
  destruct (lt_eq_lt_dec (length name) (length k)) as [[Hlt|Heq]|Hgt].
  - unfold char_at in Hc. rewrite lookup_app_l in Hc by done.
    destruct (lookup_lt_is_Some_2 k (length name) Hlt) as [b Hb]. rewrite Hb in Hc. simpl in Hc. subst b.
    destruct Hk. by eapply list_elem_of_lookup_2.
  - by rewrite Heq, take_app_length in Ht.
  - destruct Hn. rewrite <- Ht. apply list_elem_of_lookup. exists (length k).
    rewrite lookup_take_lt by done. by rewrite list_lookup_middle.
Qed.

Lemma memchr_skip (a p : bytes) c n :
  c ∉ a -> memchr (a ++ c :: p) c (length a + S n) = Some (length a).
Proof.
  intros Hn. induction a as [|b a IH]; simpl; [by rewrite beq_refl|].
  destruct (b =b c) eqn:E; [apply beq_true in E; set_solver|].
  rewrite IH by set_solver. done.
Qed.

Lemma memchr_absent (a p : bytes) c : c ∉ a -> memchr (a ++ p) c (length a) = None.
Proof.
  intros Hn. induction a as [|b a IH]; simpl; [by destruct p|].
  destruct (b =b c) eqn:E; [apply beq_true in E; set_solver|].
  rewrite IH by set_solver. done.
Qed.

Lemma avoids_not_in bad s b : avoids bad s -> b ∈ bad -> b ∉ s.
Proof. intros Ha Hb Hs. unfold avoids in Ha. rewrite Forall_forall in Ha. by apply (Ha b). Qed.

(** ** Numbers *)

Lemma print_dec_cons z : (0 <= z)%Z -> exists d ds, print_dec z = d :: ds /\ is_digit d = true.
Proof.
  intros Hz. pose proof (print_dec_nonempty z Hz) as Hn. pose proof (print_dec_digits z Hz) as Hd.
  destruct (print_dec z) as [|d ds]; [simpl in Hn; lia|]. inv Hd. eauto.
Qed.

Lemma digit_not_special d :
  is_digit d = true -> is_space d = false /\ (d =b "-"%byte) = false /\ (d =b "+"%byte) = false.
Proof.
  intros Hd. assert (Hz : (48 <= b2z d <= 57)%Z) by (unfold is_digit in Hd; bprop; lia).
  split_and!.
  - unfold is_space. replace (d =b SP) with false.
    + simpl. apply andb_false_iff. right. apply Z.leb_gt. lia.
    + symmetry. apply beq_false. intros ->. by vm_compute in Hd.
  - apply beq_false. intros ->. by vm_compute in Hd.
  - apply beq_false. intros ->. by vm_compute in Hd.
Qed.

Lemma span_digits z rest :
  (0 <= z)%Z -> span is_digit (print_dec z ++ NUL :: rest) = (print_dec z, NUL :: rest).
Proof. intros Hz. by apply span_app; [apply print_dec_digits|]. Qed.

(** Reading the decimal notation of an integer, before a NUL. *)
Lemma strto_print z rest :
  strto (print_int z ++ NUL :: rest) =
    mk_strto (bool_decide (z < 0)%Z) (Z.abs z) (length (print_int z)).
Proof.
  unfold print_int. destruct (z <? 0)%Z eqn:E; bprop.
  - rewrite bool_decide_eq_true_2 by done. unfold strto. simpl app.
    cbn [span]. change (is_space "-"%byte) with false. cbn iota beta.
    rewrite beq_refl. rewrite span_digits by lia.
    pose proof (print_dec_nonempty (- z) ltac:(lia)).
    replace (length (print_dec (- z)) =? 0) with false by (symmetry; apply Nat.eqb_neq; lia).
    rewrite dec_val_print_dec by lia. simpl. f_equal. lia.
  - rewrite bool_decide_eq_false_2 by lia. unfold strto.
    destruct (print_dec_cons z E) as (d & ds & Hp & Hd).
    destruct (digit_not_special d Hd) as (H1 & H2 & H3).
    pose proof (span_digits z rest E) as Hs. rewrite Hp in Hs |- *. simpl app in *.
    cbn [span]. rewrite H1. cbn iota beta. rewrite H2, H3. rewrite Hs. simpl length.
    cbn [Nat.eqb]. rewrite <- Hp, dec_val_print_dec by lia. f_equal. lia.
Qed.

(** ** The properties *)

(** Method parsing is the inverse of method naming: the token of length
    [length s] parses to a known method exactly when it is that method's name,
    letter case included. *)
Theorem method_parse_name s m :
  m ≠ IOH_METHOD_UNKNOWN ->
  (ioh_method_parse (Some s) (length s) = m <-> s = ioh_method_name m).
Proof.
  intros Hm. split; [|intros ->; by destruct m].
  assert (Hmem : forall t, memcmp_eq s t (length s) = true -> length t = length s -> s = t).
  { intros t Ht Hl. unfold memcmp_eq in Ht. bprop. rewrite firstn_all in Ht.
    by rewrite <- Hl, firstn_all in Ht. }
  unfold ioh_method_parse.
  destruct (length s) as [|[|[|[|[|[|[|[|n]]]]]]]] eqn:El; try (by intros <-);
    repeat match goal with
    | |- (if memcmp_eq s ?t ?n then _ else _) = _ -> _ =>
        destruct (memcmp_eq s t n) eqn:?; [intros <-; by apply Hmem|]
    end; by intros <-.
Qed.

Lemma method_parse_name_witness :
  ioh_method_parse (Some (bs "DELETE")) 6 = IOH_METHOD_DELETE.
Proof. apply (method_parse_name (bs "DELETE") IOH_METHOD_DELETE); [discriminate|reflexivity]. Defined.

Lemma header_is_iff name h :
  header_ok h -> NUL ∉ name -> length name ≤ IOH_MAX_HEADER_SIZE ->
  header_is name h = true <-> lower (header_name h) = lower name.
Proof.
  intros [Hl Hn] Hnn Hnl. unfold header_is. rewrite strnlen_id by done.
  unfold strncasecmp_eq, strndup. rewrite andb_true_iff, Nat.eqb_eq, bytes_eqb_true.
  split.
  - intros [E Hc]. rewrite <- E in Hc at 1. rewrite c_str_take in Hc by done.
    rewrite (c_str_id name), firstn_all in Hc by by apply no_nul_forall. done.
  - intros E. assert (Hlen : h_name_len h = length name).
    { apply (f_equal length) in E. unfold lower, header_name in E.
      rewrite !length_fmap, length_take in E. lia. }
    split; [done|]. rewrite <- Hlen at 1. rewrite c_str_take by done.
    by rewrite (c_str_id name), firstn_all by by apply no_nul_forall.
Qed.

(** Header lookup is first match, case-insensitive on the whole name.  The
    answer is the value of the header at the least index whose name, cut at its
    length, equals the wanted one up to ASCII case; no header is skipped because
    of the bytes that follow its name in the buffer. *)
Theorem request_header_first req name v :
  Forall header_ok (headers req) -> NUL ∉ name -> length name ≤ IOH_MAX_HEADER_SIZE ->
  (ioh_request_header req name = Some v <->
   exists i h, headers req !! i = Some h /\ v = h_value h
     /\ lower (header_name h) = lower name
     /\ (forall j h', j < i -> headers req !! j = Some h' -> lower (header_name h') ≠ lower name)).
Proof.
  intros Hok Hn Hl. unfold ioh_request_header. induction Hok as [|h hs Hh Hok IH]; simpl.
  - split; [done|]. by intros (i & h & ? & _).
  - pose proof (header_is_iff name h Hh Hn Hl) as Hi. destruct (header_is name h) eqn:E.
    + simpl. split.
      * intros [= <-]. exists 0, h. split_and!; try done; [by apply Hi|]. intros j ? ?. lia.
      * intros (i & h' & Hh' & -> & Hm & Hfirst). destruct i as [|i]; [by injection Hh' as <-|].
        by destruct (Hfirst 0 h ltac:(lia) eq_refl); apply Hi.
    + rewrite IH. clear IH. split.
      * intros (i & h' & Hh' & -> & Hm & Hfirst). exists (S i), h'. split_and!; try done.
        intros [|j] h'' Hj; [intros [= <-]; intros Hx%Hi; congruence|]. intros Hj'.
        apply (Hfirst j); [lia|done].
      * intros (i & h' & Hh' & -> & Hm & Hfirst). destruct i as [|i].
        { injection Hh' as <-. apply Hi in Hm. congruence. }
        exists i, h'. split_and!; try done. intros j h'' Hj Hj'. apply (Hfirst (S j)); [lia|done].
Qed.

Lemma request_header_first_witness :
  ioh_request_header
    (mk_request IOH_METHOD_GET None 0 None 0 [mk_header (bs "Host: x") 4 (bs "x") 1] None 0 [] 1 1
       true 0 None None) (bs "HOST") = Some (bs "x").
Proof.
  apply (request_header_first (mk_request IOH_METHOD_GET None 0 None 0
           [mk_header (bs "Host: x") 4 (bs "x") 1] None 0 [] 1 1 true 0 None None) (bs "HOST") (bs "x")).
  - constructor; [|constructor]. split; [simpl; lia|]. bcompute.
  - bcompute.
  - nle.
  - exists 0, (mk_header (bs "Host: x") 4 (bs "x") 1). split; [reflexivity|]. split; [reflexivity|].
    split; [vm_compute; reflexivity|]. intros j h' Hj. lia.
Defined.

(** Typed extraction of a signed parameter.  When the stored value is the
    decimal notation of an integer (NUL-terminated in the match's storage), the
    getter returns exactly that integer if it is in the range of [int64_t] and
    [ERANGE] otherwise; no value wraps. *)
Theorem param_i64_roundtrip req name p z rest :
  find_param name (params req) = Some p ->
  p_value p = print_int z ++ NUL :: rest -> p_value_len p = length (print_int z) ->
  ioh_request_param_i64 req name =
    if decide (- 2 ^ 63 <= z < 2 ^ 63)%Z then Ok z else Err ERANGE.
Proof.
  intros Hf Hv Hl. unfold ioh_request_param_i64, typed_param. rewrite Hf.
  assert (Hpos : length (print_int z) ≠ 0).
  { unfold print_int. destruct (z <? 0)%Z eqn:E; [done|]. bprop.
    pose proof (print_dec_nonempty z ltac:(lia)). lia. }
  test_false (p_value_len p =? 0).
  rewrite Hv, strto_print. cbn [st_negative st_magnitude st_consumed].
  rewrite Hl, Nat.eqb_refl. simpl negb.
  assert (Hval : (if bool_decide (z < 0)%Z then - Z.abs z else Z.abs z)%Z = z).
  { case_bool_decide; lia. }
  rewrite Hval. unfold INT64_MIN, INT64_MAX. cbv iota.
  destruct (decide _) as [Hd|Hd].
  - by replace ((z <? - 2 ^ 63) || (2 ^ 63 - 1 <? z))%Z with false by (symmetry; apply orb_false_iff; lia).
  - by replace ((z <? - 2 ^ 63) || (2 ^ 63 - 1 <? z))%Z with true by (symmetry; apply orb_true_iff; lia).
Qed.

Lemma param_i64_roundtrip_witness :
  ioh_request_param_i64
    (mk_request IOH_METHOD_GET None 0 None 0 [] None 0
       [mk_param (bs "id") (bs "-42" ++ [NUL]) 3] 1 1 true 0 None None) (bs "id") = Ok (-42)%Z.
Proof.
  rewrite (param_i64_roundtrip _ (bs "id") (mk_param (bs "id") (bs "-42" ++ [NUL]) 3) (-42) []);
    vm_compute; reflexivity.
Defined.

(** The unsigned getter's sign test only skips blanks, while [strtoull] skips
    any white space and negates modulo 2^64: a tab followed by a negative number
    is accepted and returned as a huge value. *)
Theorem param_u64_accepts_negative :
  exists req, ioh_request_param_u64 req (bs "id") = Ok (2 ^ 64 - 1)%Z
    /\ p_value <$> find_param (bs "id") (params req) = Some (HT :: bs "-1" ++ [NUL]).
Proof.
  exists (mk_request IOH_METHOD_GET None 0 None 0 [] None 0
            [mk_param (bs "id") (HT :: bs "-1" ++ [NUL]) 3] 1 1 true 0 None None).
  by vm_compute.
Qed.

Lemma query_test (k t name : bytes) (n : nat) :
  "="%byte ∉ k -> "="%byte ∉ name ->
  (length name <? length k + S n) && memcmp_eq (k ++ "="%byte :: t) name (length name)
    && (char_at (k ++ "="%byte :: t) (length name) =b "="%byte) = bool_decide (k = name).
Proof.
  intros Hk Hn. apply eq_true_iff_eq. rewrite bool_decide_eq_true. split.
  - intros Ht. bprop. apply (key_test k name t); [done|done| |done].
    rename select (memcmp_eq _ _ _ = true) into Hm. unfold memcmp_eq in Hm. bprop.
    by rewrite firstn_all in Hm.
  - intros ->. rewrite !andb_true_iff. split_and!.
    + apply Nat.ltb_lt. lia.
    + unfold memcmp_eq. apply bytes_eqb_true. by rewrite take_app_length, firstn_all.
    + apply beq_true. unfold char_at. by rewrite list_lookup_middle.
Qed.

Lemma render_rest_cons sep kv l : render_rest sep (kv :: l) = sep ++ render_pairs sep (kv :: l).
Proof. unfold render_rest. simpl. by rewrite <- app_assoc. Qed.

Lemma query_scan_render fuel l name tail :
  length (render_pairs (bs "&") l) < fuel ->
  Forall (fun kv => avoids (bs "=&") (fst kv) /\ avoids (bs "&") (snd kv)) l ->
  avoids (bs "=") name -> NUL ∉ name -> length name ≤ IOH_MAX_URI_SIZE ->
  query_scan fuel (render_pairs (bs "&") l ++ tail) (length (render_pairs (bs "&") l)) name
    = first_value (bs "&") l tail name.
Proof.
  intros Hf Hl Ha Hn Hlen. revert fuel Hf.
  induction Hl as [|[k v] l [Hk Hv] Hl IH]; intros [|fuel] Hf; [lia|done|lia|].
  cbn [query_scan]. rewrite strnlen_id by done. simpl in Hk, Hv.
  assert (Hne : "="%byte ∉ name) by (eapply avoids_not_in; [done|bcompute]).
  assert (Hke : "="%byte ∉ k) by (eapply avoids_not_in; [done|bcompute]).
  assert (Hamp : "&"%byte ∉ k ++ "="%byte :: v).
  { rewrite elem_of_app, elem_of_cons. intros [Hx|[Hx|Hx]]; [|done|]; revert Hx;
      eapply avoids_not_in; try done; bcompute. }
  cbn [render_pairs] in Hf |- *. change (render_pair (k, v)) with (k ++ "="%byte :: v) in Hf |- *.
  set (rest := render_rest (bs "&") l) in *.
  replace (length ((k ++ "="%byte :: v) ++ rest)) with (length k + S (length v + length rest))
    in Hf |- * by llia.
  test_false (length k + S (length v + length rest) =? 0).
  rewrite <- !(app_assoc _ rest tail).
  assert (Hp : (k ++ "="%byte :: v) ++ rest ++ tail = k ++ "="%byte :: (v ++ rest ++ tail))
    by by rewrite <- app_assoc.
  rewrite Hp, query_test by done. cbn [first_value]. case_bool_decide as Hd.
  - rewrite decide_True by done. subst name. f_equal.
    change ("="%byte :: v ++ rest ++ tail) with (["="%byte] ++ v ++ rest ++ tail). rewrite app_assoc.
    apply drop_app_length'. rewrite length_app. done.
  - rewrite decide_False by done. rewrite <- Hp. subst rest. destruct l as [|kv l].
    + replace (length k + S (length v + length (render_rest (bs "&") [])))
        with (length (k ++ "="%byte :: v)) by llia.
      by rewrite memchr_absent.
    + rewrite render_rest_cons in Hf |- *.
      change (bs "&" ++ ?x) with ("&"%byte :: x) in Hf |- *.
      set (r := render_pairs (bs "&") (kv :: l)) in *. simpl length in *.
      replace (length k + S (length v + S (length r)))
        with (length (k ++ "="%byte :: v) + S (length r)) in Hf |- * by llia.
      simpl app. rewrite memchr_skip by done. cbn match. 
      change ((k ++ "="%byte :: v) ++ "&"%byte :: r ++ tail)
        with ((k ++ "="%byte :: v) ++ ["&"%byte] ++ r ++ tail).
      rewrite app_assoc, drop_app_length' by (rewrite (length_app _ [_]); done).
      replace (_ + S (length r) - _) with (length r) by lia. apply IH. lia.
Qed.

(** Query-string lookup.  For every list of [key=value] entries joined with
    ampersands (keys without [=] or [&], values without [&]), the lookup returns
    a pointer to the value of the first entry whose key is the wanted name, and
    nothing when there is none, whatever follows the query in the buffer. *)
Theorem query_param_lookup req l name tail :
  query req = Some (render_pairs (bs "&") l ++ tail) ->
  query_len req = length (render_pairs (bs "&") l) ->
  Forall (fun kv => avoids (bs "=&") (fst kv) /\ avoids (bs "&") (snd kv)) l ->
  avoids (bs "=") name -> NUL ∉ name -> length name ≤ IOH_MAX_URI_SIZE ->
  ioh_request_query_param req name = first_value (bs "&") l tail name.
Proof.
  intros Hq Hl Hf Ha Hn Hlen. unfold ioh_request_query_param. rewrite Hq, Hl.
  apply query_scan_render; try done. lia.
Qed.

Lemma query_param_lookup_witness :
  ioh_request_query_param
    (mk_request IOH_METHOD_GET None 0 (Some (bs "a=1&bc=2&b=3 HTTP")) 12 [] None 0 [] 1 1 true 0 None None)
    (bs "b") = Some (bs "3 HTTP").
Proof.
  rewrite (query_param_lookup _ [(bs "a", bs "1"); (bs "bc", bs "2"); (bs "b", bs "3")] (bs "b") (bs " HTTP")).
  - vm_compute. reflexivity.
  - vm_compute. reflexivity.
  - vm_compute. reflexivity.
  - repeat constructor; bcompute.
  - repeat constructor; bcompute.
  - bcompute.
  - nle.
Defined.

(** ** Cookies *)

Lemma cookie_test (k t tail name : bytes) :
  "="%byte ∉ k -> "="%byte ∉ name -> NUL ∉ name -> NUL ∉ k ++ "="%byte :: t ->
  strncmp_eq (k ++ "="%byte :: t ++ NUL :: tail) name (length name)
    && (char_at (k ++ "="%byte :: t ++ NUL :: tail) (length name) =b "="%byte)
  = bool_decide (k = name).
Proof.
  intros Hk Hn Hnn Hnul. apply eq_true_iff_eq. rewrite bool_decide_eq_true.
  assert (Hc : c_str (k ++ "="%byte :: t ++ NUL :: tail) = k ++ "="%byte :: t).
  { rewrite (app_assoc _ ("="%byte :: t) (NUL :: tail)). by apply c_str_app_nul, no_nul_forall. }
  unfold strncmp_eq, strndup. rewrite Hc, (c_str_id name), firstn_all by by apply no_nul_forall.
  split.
  - intros Ht. bprop. rename select (take _ _ = name) into Ht.
    apply (key_test k name (t ++ NUL :: tail)); [done|done| |done].
    assert (Hlen : length name ≤ length (k ++ "="%byte :: t)).
    { apply (f_equal length) in Ht. rewrite length_take in Ht. lia. }
    rewrite (app_assoc _ ("="%byte :: t) (NUL :: tail)). by rewrite take_app_le.
  - intros ->. rewrite andb_true_iff. split.
    + apply bytes_eqb_true. by rewrite take_app_length.
    + apply beq_true. unfold char_at. by rewrite list_lookup_middle.
Qed.

Definition cookie_ok (kv : bytes * bytes) : Prop :=
  avoids ("="%byte :: ";"%byte :: SP :: [NUL]) (fst kv) /\ avoids (";"%byte :: [NUL]) (snd kv).

Definition semi : bytes := bs "; ".

Lemma render_no_nul l : Forall cookie_ok l -> NUL ∉ render_pairs semi l /\ NUL ∉ render_rest semi l.
Proof.
  induction 1 as [|[k v] l [Hk Hv] _ [IH1 IH2]]; [split; bcompute|]. simpl in Hk, Hv.
  assert (Hp : NUL ∉ render_pair (k, v)).
  { unfold render_pair. simpl. rewrite elem_of_app, elem_of_cons. intros [Hx|[Hx|Hx]]; [|done|];
      revert Hx; eapply avoids_not_in; try done; bcompute. }
  assert (Hpairs : NUL ∉ render_pairs semi ((k, v) :: l)).
  { cbn [render_pairs]. rewrite elem_of_app. by intros [Hx|Hx]. }
  split; [done|]. rewrite render_rest_cons, elem_of_app. intros [Hx|Hx]; [|done]. revert Hx. bcompute.
Qed.

(** The scan at an entry, after an optional blank. *)
Lemma cookie_scan_render fuel l (blank : bool) name tail :
  length ((if blank then [SP] else []) ++ render_pairs semi l) < fuel ->
  (blank = true -> l ≠ []) ->
  Forall cookie_ok l -> avoids (bs "=") name -> NUL ∉ name -> length name ≤ IOH_MAX_HEADER_SIZE ->
  cookie_scan fuel ((if blank then [SP] else []) ++ render_pairs semi l ++ NUL :: tail) name
    = first_value semi l (NUL :: tail) name.
Proof.
  intros Hf Hb Hl Ha Hn Hlen. revert fuel blank Hf Hb.
  induction Hl as [|[k v] l [Hk Hv] Hl IH]; intros [|fuel] blank Hf Hb; [lia| |lia|].
  { destruct blank; [by destruct Hb|done]. }
  simpl in Hk, Hv. cbn [cookie_scan]. rewrite strnlen_id by done.
  pose proof (render_no_nul l Hl) as [_ Hnr].
  assert (Hnp : NUL ∉ render_pairs semi ((k, v) :: l)).
  { apply render_no_nul. by constructor. }
  assert (Hne : "="%byte ∉ name) by (eapply avoids_not_in; [done|bcompute]).
  assert (Hke : "="%byte ∉ k) by (eapply avoids_not_in; [done|bcompute]).
  assert (Hsemi : ";"%byte ∉ k ++ "="%byte :: v).
  { rewrite elem_of_app, elem_of_cons. intros [Hx|[Hx|Hx]]; [|done|]; revert Hx;
      eapply avoids_not_in; try done; bcompute. }
  cbn [render_pairs] in Hf, Hnp |- *.
  change (render_pair (k, v)) with (k ++ "="%byte :: v) in Hf, Hnp |- *.
  set (rest := render_rest semi l) in *.
  assert (Hp : forall z, ((k ++ "="%byte :: v) ++ rest) ++ z = k ++ "="%byte :: (v ++ rest) ++ z).
  { intros z. by rewrite <- !app_assoc. }
  assert (Hhead : exists b r, k ++ "="%byte :: (v ++ rest) ++ NUL :: tail = b :: r /\ b ≠ NUL /\ b ≠ SP).
  { destruct k as [|b k]; simpl; [by eexists _, _|]. eexists b, _. split; [done|].
    unfold avoids in Hk. inv Hk. split; intros ->; set_solver. }
  rewrite Hp. set (q := k ++ "="%byte :: (v ++ rest) ++ NUL :: tail) in *.
  assert (Hskip : (char_at ((if blank then [SP] else []) ++ q) 0 =b NUL) = false
                  /\ snd (span (fun b => b =b SP) ((if blank then [SP] else []) ++ q)) = q).
  { destruct Hhead as (b & r & -> & Hb1 & Hb2). apply beq_false in Hb1, Hb2.
    destruct blank; simpl app; cbn [span]; rewrite ?beq_refl, Hb2; cbn; by rewrite ?Hb1. }
  destruct Hskip as [-> ->]. unfold q.
  rewrite cookie_test; [|done..|].
  2:{ specialize (Hp []). rewrite !app_nil_r in Hp. by rewrite <- Hp. }
  cbn [first_value]. case_bool_decide as Hd.
  - rewrite decide_True by done. subst name. f_equal. rewrite <- app_assoc.
    change ("="%byte :: v ++ rest ++ NUL :: tail) with (["="%byte] ++ v ++ rest ++ NUL :: tail).
    rewrite app_assoc. apply drop_app_length'. rewrite length_app. done.
  - rewrite decide_False by done.
    assert (Hc : c_str (k ++ "="%byte :: (v ++ rest) ++ NUL :: tail) = (k ++ "="%byte :: v) ++ rest).
    { rewrite <- Hp. by apply c_str_app_nul, no_nul_forall. }
    unfold strchr, strlen. rewrite Hc. subst rest. destruct l as [|kv l].
    + simpl. rewrite app_nil_r. rewrite <- (app_nil_r (k ++ "="%byte :: v)) at 1.
      by rewrite memchr_absent.
    + rewrite render_rest_cons in Hf, Hp |- *.
      change (semi ++ ?x) with (";"%byte :: SP :: x) in Hf, Hp |- *.
      set (r := render_pairs semi (kv :: l)) in *.
      rewrite length_app. change (length (?a :: ?b :: r)) with (S (S (length r))).
      rewrite memchr_skip by done. rewrite <- Hp, <- app_assoc.
      change ((";"%byte :: SP :: r) ++ NUL :: tail) with ([";"%byte] ++ (SP :: r ++ NUL :: tail)).
      rewrite app_assoc, drop_app_length' by (rewrite (length_app _ [_]); done).
      apply (IH fuel true); [|done]. clear -Hf. destruct blank; rewrite ?length_app in *; simpl in *;
        rewrite ?length_app in *; simpl in *; lia.
Qed.

(** Cookie lookup.  For a Cookie header that is a list of [name=value] entries
    separated by a semicolon and a blank and terminated by a NUL, the lookup
    returns a pointer to the value of the first entry with the wanted name, and
    nothing when there is none; a name that is a proper prefix or suffix of
    another one is not confused with it. *)
Theorem cookie_lookup req l name tail :
  ioh_request_header req (bs "Cookie") = Some (render_pairs semi l ++ NUL :: tail) ->
  Forall cookie_ok l -> avoids (bs "=") name -> NUL ∉ name -> length name ≤ IOH_MAX_HEADER_SIZE ->
  ioh_request_cookie req name = first_value semi l (NUL :: tail) name.
Proof.
  intros Hh Hl Ha Hn Hlen. unfold ioh_request_cookie. rewrite Hh.
  apply (cookie_scan_render _ l false); try done. simpl. rewrite length_app. simpl. lia.
Qed.

Definition demo_cookie_request : ioh_request_t :=
  mk_request IOH_METHOD_GET None 0 None 0
    [mk_header (bs "cookie") 6 (bs "sid=1; id=42" ++ [NUL]) 12] None 0 [] 1 1 true 0 None None.

Lemma cookie_lookup_witness :
  ioh_request_cookie demo_cookie_request (bs "id") = Some (bs "42" ++ [NUL]).
Proof.
  rewrite (cookie_lookup _ [(bs "sid", bs "1"); (bs "id", bs "42")] (bs "id") []).
  - vm_compute. reflexivity.
  - vm_compute. reflexivity.
  - repeat constructor; bcompute.
  - repeat constructor; bcompute.
  - bcompute.
  - nle.
Defined.
