(* ===== verification/Router.v ===== *)
(** The router ([src/src/router/ioh_router.h], [ioh_router.c]): one route table
    per method, registration, middleware and handler slots, and dispatch with
    path normalisation, trailing-slash redirects, automatic HEAD and 405.

    The router is written against the interface [RouteTable] that the radix trie
    implements. *)
From S2P Require Import Prelude CString Radix PathNorm Request.

(** ** Data *)

Record ioh_route_opts_t := mk_opts {
  o_meta : option ioh_route_meta_t;
  o_oas_operation : option Z;           (* an opaque pointer *)
  o_permissions : Z;
  o_auth_required : bool;
  o_body_timeout_ms : Z;
  o_keepalive_timeout_ms : Z;
}.

Inductive ioh_match_status_t :=
| IOH_MATCH_FOUND | IOH_MATCH_NOT_FOUND | IOH_MATCH_METHOD_NOT_ALLOWED | IOH_MATCH_REDIRECT.

Definition IOH_MAX_PARAM_STORAGE : nat := 512.
Definition ALLOWED_METHODS_SIZE : nat := 128.
Definition ROUTER_METHOD_COUNT : nat := 9.
Definition ROUTER_INITIAL_GROUP_CAP : Z := 8.
Definition IOH_MAX_GLOBAL_MIDDLEWARE : nat := 32.

Record ioh_route_match_t (H : Type) := mk_route_match {
  status : ioh_match_status_t;
  rm_handler : option H;
  opts : option ioh_route_opts_t;
  rmeta : option ioh_route_meta_t;
  rm_params : list ioh_param_t;         (* the first [param_count] entries *)
  allowed_methods : bytes;
  redirect_path : bytes;
  param_storage : bytes;
  param_storage_used : nat;
}.
Arguments mk_route_match {H}.
Arguments status {H}.
Arguments rm_handler {H}.
Arguments opts {H}.
Arguments rmeta {H}.
Arguments rm_params {H}.
Arguments allowed_methods {H}.
Arguments redirect_path {H}.
Arguments param_storage {H}.
Arguments param_storage_used {H}.

(** Handlers [H], middleware [W], error handlers [E] and owned groups [G] are
    function and object pointers. *)
Record ioh_router (T H W E G : Type) := mk_router {
  trees : list (option T);              (* one per method *)
  groups : list (G * (G -> unit));
  group_capacity : Z;
  global_mw : list W;
  error_handler : option E;
  not_found_handler : option H;
  method_not_allowed_handler : option H;
}.
Arguments mk_router {T H W E G}.
Arguments trees {T H W E G}.
Arguments groups {T H W E G}.
Arguments group_capacity {T H W E G}.
Arguments global_mw {T H W E G}.
Arguments error_handler {T H W E G}.
Arguments not_found_handler {T H W E G}.
Arguments method_not_allowed_handler {T H W E G}.

(** ** Checks on paths *)

Definition path_has_null_byte (path : bytes) : bool :=
  match memchr path NUL (length path) with Some _ => true | None => false end.

Fixpoint path_has_encoded_null (path : bytes) : bool :=
  match path with
  | a :: ((b :: c :: _) as path') =>
      if (a =b "%"%byte) && (b =b "0"%byte) && (c =b "0"%byte) then true
      else path_has_encoded_null path'
  | _ => false
  end.

Definition method_name_for_index (idx : nat) : option bytes :=
  match idx with
  | 0 => Some (bs "GET") | 1 => Some (bs "POST") | 2 => Some (bs "PUT") | 3 => Some (bs "DELETE")
  | 4 => Some (bs "PATCH") | 5 => Some (bs "HEAD") | 6 => Some (bs "OPTIONS")
  | 7 => Some (bs "TRACE") | 8 => Some (bs "CONNECT")
  | _ => None
  end.

(** [snprintf(buf + off, cap - off, ..)] of the text [s]: what is stored (the
    terminator apart) and the length it returns. *)
Definition snprintf_at (buf : bytes) (cap off : nat) (s : bytes) : bytes * nat :=
  (take off buf ++ take (cap - off - 1) s, length s).

(** The copy loop of [stabilize_param_values]: where each value goes, the storage
    so far being [storage]; [None] when a value does not fit. *)
Fixpoint stabilize_loop (ps : list ioh_param_t) (storage : bytes) : option (list nat * bytes) :=
  match ps with
  | [] => Some ([], storage)
  | p :: ps =>
      if IOH_MAX_PARAM_STORAGE <? length storage + p_value_len p + 1 then None else
      match stabilize_loop ps (storage ++ take (p_value_len p) (p_value p) ++ [NUL]) with
      | Some (offs, final) => Some (length storage :: offs, final)
      | None => None
      end
  end.

Section Router.
Context {T H W E G : Type} `{RT : RouteTable T H ioh_route_opts_t}.
Abbreviation router := (ioh_router T H W E G).
Abbreviation rmatch := (ioh_route_match_t H).
Implicit Types (r : router) (h : heap).

(** ** Lifecycle and registration *)

Definition ioh_router_create h : option router * heap :=
  let '(ok, h) := xalloc h in
  if negb ok then (None, h)
  else (Some (mk_router (replicate ROUTER_METHOD_COUNT None) [] 0 [] None None None), h).

Definition set_tree r (i : nat) (t : T) : router :=
  mk_router (<[i := Some t]> (trees r)) (groups r) (group_capacity r) (global_mw r)
            (error_handler r) (not_found_handler r) (method_not_allowed_handler r).

Definition get_tree r (i : nat) : option T := default None (trees r !! i).

Definition router_add_route (r : option router) (m : ioh_method_t) (pattern : option bytes)
    (hd : option H) (o : option ioh_route_opts_t) h : option router * res unit * heap :=
  match r, pattern, hd with
  | Some r, Some pattern, Some hd =>
      if ROUTER_METHOD_COUNT <=? method_index m then (Some r, Err EINVAL, h) else
      let created :=
        match get_tree r (method_index m) with
        | Some t => (Some t, h)
        | None => rt_create h
        end in
      match created with
      | (None, h) => (Some r, Err ENOMEM, h)
      | (Some t, h) =>
          let '(t, rc, h) := rt_insert t pattern hd o (match o with Some o => o_meta o | None => None end) h in
          (Some (set_tree r (method_index m) t), rc, h)
      end
  | _, _, _ => (r, Err EINVAL, h)
  end.

Definition ioh_router_get (r : option router) p hd := router_add_route r IOH_METHOD_GET p hd None.
Definition ioh_router_post (r : option router) p hd := router_add_route r IOH_METHOD_POST p hd None.
Definition ioh_router_put (r : option router) p hd := router_add_route r IOH_METHOD_PUT p hd None.
Definition ioh_router_delete (r : option router) p hd := router_add_route r IOH_METHOD_DELETE p hd None.
Definition ioh_router_patch (r : option router) p hd := router_add_route r IOH_METHOD_PATCH p hd None.
Definition ioh_router_head (r : option router) p hd := router_add_route r IOH_METHOD_HEAD p hd None.
Definition ioh_router_options (r : option router) p hd := router_add_route r IOH_METHOD_OPTIONS p hd None.
Definition ioh_router_handle (r : option router) m p hd := router_add_route r m p hd None.
Definition ioh_router_get_with (r : option router) p hd o := router_add_route r IOH_METHOD_GET p hd o.
Definition ioh_router_handle_with (r : option router) m p hd o := router_add_route r m p hd o.
Definition ioh_router_post_with (r : option router) p hd o := router_add_route r IOH_METHOD_POST p hd o.
Definition ioh_router_put_with (r : option router) p hd o := router_add_route r IOH_METHOD_PUT p hd o.
Definition ioh_router_delete_with (r : option router) p hd o := router_add_route r IOH_METHOD_DELETE p hd o.
Definition ioh_router_patch_with (r : option router) p hd o := router_add_route r IOH_METHOD_PATCH p hd o.

Definition ioh_router_own_group (r : option router) (g : option G) (destroy : option (G -> unit)) h
    : option router * res unit * heap :=
  match r, g, destroy with
  | Some r, Some g, Some d =>
      let push cap := Some (mk_router (trees r) (groups r ++ [(g, d)]) cap (global_mw r)
                              (error_handler r) (not_found_handler r) (method_not_allowed_handler r)) in
      if (group_capacity r <=? Z.of_nat (length (groups r)))%Z then
        let new_cap := if (group_capacity r =? 0)%Z then ROUTER_INITIAL_GROUP_CAP
                       else u32 (group_capacity r * 2) in
        let '(ok, h) := xalloc h in
        if negb ok then (Some r, Err ENOMEM, h) else (push new_cap, Ok tt, h)
      else (push (group_capacity r), Ok tt, h)
  | _, _, _ => (r, Err EINVAL, h)
  end.

Definition ioh_router_get_tree (r : option router) (m : ioh_method_t) : option T :=
  match r with
  | Some r => if ROUTER_METHOD_COUNT <=? method_index m then None else get_tree r (method_index m)
  | None => None
  end.

Definition ioh_router_method_count : nat := ROUTER_METHOD_COUNT.

Definition ioh_router_use (r : option router) (mw : option W) : option router * res unit :=
  match r, mw with
  | Some r, Some mw =>
      if IOH_MAX_GLOBAL_MIDDLEWARE <=? length (global_mw r) then (Some r, Err ENOSPC)
      else (Some (mk_router (trees r) (groups r) (group_capacity r) (global_mw r ++ [mw])
                    (error_handler r) (not_found_handler r) (method_not_allowed_handler r)), Ok tt)
  | _, _ => (r, Err EINVAL)
  end.

Definition ioh_router_global_middleware (r : option router) : option (list W) := global_mw <$> r.
Definition ioh_router_error_handler (r : option router) : option E := r ← r; error_handler r.
Definition ioh_router_not_found_handler (r : option router) : option H := r ← r; not_found_handler r.
Definition ioh_router_method_not_allowed_handler (r : option router) : option H := r ← r; method_not_allowed_handler r.

Definition ioh_router_set_error_handler r (x : option E) : router :=
  mk_router (trees r) (groups r) (group_capacity r) (global_mw r) x
            (not_found_handler r) (method_not_allowed_handler r).
Definition ioh_router_set_not_found r (x : option H) : router :=
  mk_router (trees r) (groups r) (group_capacity r) (global_mw r) (error_handler r)
            x (method_not_allowed_handler r).
Definition ioh_router_set_method_not_allowed r (x : option H) : router :=
  mk_router (trees r) (groups r) (group_capacity r) (global_mw r) (error_handler r)
            (not_found_handler r) x.

(** ** Dispatch *)

Definition not_found : rmatch :=
  mk_route_match IOH_MATCH_NOT_FOUND None None None [] [] [] [] 0.

(** The values of the parameters are copied into the match's own storage, and
    the parameters point there. *)
Definition stabilize_param_values (m : rmatch) : res rmatch :=
  match stabilize_loop (rm_params m) [] with
  | None => Err ENOMEM
  | Some (offs, storage) =>
      Ok (mk_route_match (status m) (rm_handler m) (opts m) (rmeta m)
            (zip_with (fun p off => mk_param (p_name p) (drop off storage) (p_value_len p))
               (rm_params m) offs)
            (allowed_methods m) (redirect_path m) storage (length storage))
  end.

(** A successful lookup becomes the match. *)
Definition found (x : ioh_radix_match_t H ioh_route_opts_t) : rmatch :=
  let result := mk_route_match IOH_MATCH_FOUND (m_handler x) (m_metadata x) (m_meta x) (m_params x)
                  [] [] [] 0 in
  match stabilize_param_values result with
  | Ok result => result
  | Err _ => mk_route_match IOH_MATCH_NOT_FOUND (m_handler x) (m_metadata x) (m_meta x) [] [] [] [] 0
  end.

Definition lookup_tree r (i : nat) (path : bytes) : option (ioh_radix_match_t H ioh_route_opts_t) :=
  match get_tree r i with
  | Some t => match rt_lookup t path with Ok m => Some m | Err _ => None end
  | None => None
  end.

(** The loop that collects the methods of the 405 answer. *)
Fixpoint allowed_loop r (m : nat) (path : bytes) (idxs : list nat) (buf : bytes) (off : nat) (any : bool)
    : bytes * bool :=
  match idxs with
  | [] => (buf, any)
  | i :: idxs =>
      if i =? m then allowed_loop r m path idxs buf off any else
      match lookup_tree r i path with
      | None => allowed_loop r m path idxs buf off any
      | Some _ =>
          match method_name_for_index i with
          | None => allowed_loop r m path idxs buf off any
          | Some name =>
              let text := if any then bs ", " ++ name else name in
              let '(buf, written) := snprintf_at buf ALLOWED_METHODS_SIZE off text in
              allowed_loop r m path idxs buf (off + written) true
          end
      end
  end.

(** Does any tree know the path? *)
Definition any_tree r (path : bytes) : bool :=
  existsb (fun i => match lookup_tree r i path with Some _ => true | None => false end)
          (seq 0 ROUTER_METHOD_COUNT).

Definition last_is_slash (p : bytes) : bool :=
  (1 <? length p) && (char_at p (length p - 1) =b SLASH).

Definition ioh_router_dispatch (r : option router) (m : ioh_method_t) (path : option bytes) : rmatch :=
  match r, path with
  | Some r, Some path =>
      if length path =? 0 then not_found else
      if path_has_null_byte path then not_found else
      if path_has_encoded_null path then not_found else
      match ioh_path_normalize (Some path) IOH_MAX_URI_SIZE with
      | Err _ => not_found
      | Ok normalized =>
          let needs_redirect := last_is_slash path && negb (last_is_slash normalized) in
          if needs_redirect && any_tree r normalized
          then mk_route_match IOH_MATCH_REDIRECT None None None [] [] normalized [] 0
          else
          match lookup_tree r (method_index m) normalized with
          | Some x => found x
          | None =>
              match (if bool_decide (m = IOH_METHOD_HEAD)
                     then lookup_tree r (method_index IOH_METHOD_GET) normalized else None) with
              | Some x => found x
              | None =>
                  let '(buf, any) := allowed_loop r (method_index m) normalized
                                       (seq 0 ROUTER_METHOD_COUNT) [] 0 false in
                  mk_route_match (if any then IOH_MATCH_METHOD_NOT_ALLOWED else IOH_MATCH_NOT_FOUND)
                    None None None [] buf [] [] 0
              end
          end
      end
  | _, _ => not_found
  end.

End Router.
