(* ===== verification/RouterThms.v ===== *)
(** Theorems on dispatch: what is refused, that routing depends only on the
    normal form of the path, what a 405 answer lists, the lifetime of parameter
    values, and registration followed by dispatch over the radix trie. *)
From stdpp Require Import relations.
From S2P Require Import Prelude CString Radix RadixInsert RadixThms PathNorm Request Router.

(** ** Specification vocabulary *)

Definition index_name (i : nat) : bytes := default [] (method_name_for_index i).

(** The names of the methods, separated by a comma and a blank. *)
Definition rest_names (l : list nat) : bytes := mjoin ((fun i => bs ", " ++ index_name i) <$> l).
Definition method_list (l : list nat) : bytes :=
  match l with [] => [] | i :: l => index_name i ++ rest_names l end.

(** The paths the router looks at. *)
Definition acceptable (p : bytes) : Prop :=
  p ≠ [] /\ path_has_null_byte p = false /\ path_has_encoded_null p = false.

(** ** Percent-encoded NULs and segments *)




Lemma null_byte_iff p : path_has_null_byte p = false <-> NUL ∉ p.
Proof.
  unfold path_has_null_byte. destruct (memchr p NUL (length p)) as [i|] eqn:E.
  - apply memchr_Some in E as (_ & E & _). split; [done|]. intros Hn. destruct Hn.
    by eapply list_elem_of_lookup_2.
  - apply memchr_None in E. by rewrite firstn_all in E.
Qed.

(** ** Stable parameter values *)

Definition value_stored (final : bytes) (p : ioh_param_t) (off : nat) : Prop :=
  off + p_value_len p < length final
  /\ take (p_value_len p) (drop off final) = take (p_value_len p) (p_value p)
  /\ drop off final !! p_value_len p = Some NUL.

Lemma stabilize_loop_spec ps st offs final :
  Forall (fun p => p_value_len p ≤ length (p_value p)) ps ->
  stabilize_loop ps st = Some (offs, final) -> length st ≤ IOH_MAX_PARAM_STORAGE ->
  (exists more, final = st ++ more) /\ length final ≤ IOH_MAX_PARAM_STORAGE
  /\ Forall2 (value_stored final) ps offs.
Proof.
  intros Hok. revert st offs. induction Hok as [|p ps Hp Hok IH]; intros st offs; cbn [stabilize_loop].
  { intros [= <- <-] Hl. split; [by exists []; rewrite app_nil_r|done]. }
  destruct (IOH_MAX_PARAM_STORAGE <? _) eqn:E; [done|]. bprop.
  set (st' := st ++ _). destruct (stabilize_loop ps st') as [[offs' final']|] eqn:Es; [|done].
  intros [= <- <-] Hl.
  assert (Hlen : length st' = length st + p_value_len p + 1).
  { unfold st'. rewrite !length_app, length_take. simpl. lia. }
  destruct (IH st' offs' Es ltac:(lia)) as ((more & Hm) & Hf & H2).
  split; [exists (take (p_value_len p) (p_value p) ++ [NUL] ++ more); rewrite Hm; unfold st';
          by rewrite <- !app_assoc|].
  split; [done|]. constructor; [|done]. unfold value_stored.
  assert (Hd : drop (length st) final' = take (p_value_len p) (p_value p) ++ NUL :: more).
  { rewrite Hm. unfold st'. by rewrite <- !app_assoc, drop_app_length. }
  rewrite Hd. split_and!.
  - rewrite Hm, length_app. lia.
  - rewrite take_app_le by (rewrite length_take; lia). by rewrite take_take, Nat.min_id.
  - rewrite lookup_app_r by (rewrite length_take; lia). rewrite length_take.
    by replace (_ - _) with 0 by lia.
Qed.

Section Thms.
Context {T H W E G : Type} `{RT : RouteTable T H ioh_route_opts_t}.
Abbreviation router := (ioh_router T H W E G).
Implicit Types (r : router).

(** ** The 405 list *)

Definition other_methods r (m : nat) (path : bytes) (idxs : list nat) : list nat :=
  filter (fun i => i ≠ m /\ is_Some (lookup_tree r i path)) idxs.

Lemma snprintf_fits buf cap s :
  length buf + length s < cap -> snprintf_at buf cap (length buf) s = (buf ++ s, length s).
Proof.
  intros Hl. unfold snprintf_at. rewrite firstn_all. f_equal. f_equal. apply take_ge. lia.
Qed.

Lemma length_rest_names_cons i l :
  length (rest_names (i :: l)) = 2 + length (index_name i) + length (rest_names l).
Proof. unfold rest_names. simpl. rewrite length_app. done. Qed.

Lemma allowed_loop_spec r m path idxs buf any :
  Forall (fun i => i < ROUTER_METHOD_COUNT) idxs ->
  length buf + length (rest_names idxs) < ALLOWED_METHODS_SIZE ->
  allowed_loop r m path idxs buf (length buf) any =
    (buf ++ (if any then rest_names else method_list) (other_methods r m path idxs),
     any || negb (bool_decide (other_methods r m path idxs = []))).
Proof.
  intros Hf. revert buf any. induction Hf as [|i idxs Hi Hf IH]; intros buf any Hl.
  { simpl. unfold other_methods. rewrite filter_nil, orb_false_r. destruct any; by rewrite app_nil_r. }
  rewrite length_rest_names_cons in Hl. cbn [allowed_loop]. unfold other_methods in *.
  destruct (i =? m) eqn:Em; bprop.
  { rewrite filter_cons_False by by intros []. apply IH. lia. }
  destruct (lookup_tree r i path) as [x|] eqn:El.
  2:{ rewrite filter_cons_False by (rewrite El; by intros [_ [? ?]]). apply IH. lia. }
  rewrite filter_cons_True by (rewrite El; by eauto).
  assert (Hn : method_name_for_index i = Some (index_name i)).
  { unfold ROUTER_METHOD_COUNT in Hi. do 9 (destruct i as [|i]; [done|]). lia. }
  rewrite Hn. set (text := if any then _ else _).
  assert (Ht : length text ≤ 2 + length (index_name i)) by (unfold text; destruct any; simpl; lia).
  rewrite snprintf_fits by lia. rewrite <- length_app, IH by llia.
  rewrite <- app_assoc. rewrite (bool_decide_eq_false_2 (_ :: _ = [])) by done. simpl negb.
  rewrite orb_true_r. simpl orb. f_equal. f_equal.
  unfold text. destruct any; [|done]. unfold rest_names. simpl. done.
Qed.

Lemma allowed_all r m path :
  allowed_loop r m path (seq 0 ROUTER_METHOD_COUNT) [] 0 false =
    (method_list (other_methods r m path (seq 0 ROUTER_METHOD_COUNT)),
     negb (bool_decide (other_methods r m path (seq 0 ROUTER_METHOD_COUNT) = []))).
Proof.
  apply (allowed_loop_spec r m path _ [] false).
  - apply Forall_forall. intros i Hi. apply elem_of_seq in Hi. lia.
  - nle.
Qed.

(** The shape of dispatch on an acceptable path. *)
Lemma dispatch_acceptable r m p n :
  acceptable p -> ioh_path_normalize (Some p) IOH_MAX_URI_SIZE = Ok n ->
  ioh_router_dispatch (Some r) m (Some p) =
  if last_is_slash p && negb (last_is_slash n) && any_tree r n
  then mk_route_match IOH_MATCH_REDIRECT None None None [] [] n [] 0
  else
  match lookup_tree r (method_index m) n with
  | Some x => found x
  | None =>
      match (if bool_decide (m = IOH_METHOD_HEAD)
             then lookup_tree r (method_index IOH_METHOD_GET) n else None) with
      | Some x => found x
      | None =>
          let l := other_methods r (method_index m) n (seq 0 ROUTER_METHOD_COUNT) in
          mk_route_match (if bool_decide (l = []) then IOH_MATCH_NOT_FOUND else IOH_MATCH_METHOD_NOT_ALLOWED)
            None None None [] (method_list l) [] [] 0
      end
  end.
Proof.
  intros (Hne & Hnul & Henc) Hn. unfold ioh_router_dispatch.
  replace (length p =? 0) with false by (destruct p; [done|reflexivity]).
  rewrite Hnul, Henc, Hn, allowed_all. cbv zeta.
  destruct (_ && _ && _); [done|]. destruct (lookup_tree r _ n); [done|].
  destruct (if bool_decide (m = IOH_METHOD_HEAD) then _ else None); [done|].
  destruct (bool_decide (other_methods _ _ _ _ = [])); done.
Qed.

(** ** The properties *)

(** What the router refuses to route.  Whatever is registered, an empty path,
    a path with a NUL byte, with an encoded NUL, not starting with a slash, or
    climbing above the root is answered not-found, with no handler. *)
Theorem dispatch_refuses r m p :
  p = [] \/ NUL ∈ p \/ path_has_encoded_null p = true \/ head p ≠ Some SLASH \/ normal_form p = None ->
  ioh_router_dispatch (Some r) m (Some p) = not_found.
Proof.
  intros Hbad. unfold ioh_router_dispatch. destruct (length p =? 0) eqn:E0; [done|].
  destruct (path_has_null_byte p) eqn:E1; [done|]. destruct (path_has_encoded_null p) eqn:E2; [done|].
  apply null_byte_iff in E1. rewrite normalize_eq. destruct (decide _) as [[Hh _]|]; [|done].
  destruct (normal_form p) eqn:E3; [|done].
  destruct Hbad as [->|[Hb|[Hb|[Hb|Hb]]]]; done.
Qed.






(** The 405 answer.  On an acceptable path without redirect, a
    method-not-allowed match is returned exactly when the requested method (and,
    for HEAD, GET) has no route for the path and some other method has one; the
    list then names exactly those other methods, in order, comma-separated, and
    is never cut by the 128-byte buffer. *)
Theorem dispatch_method_not_allowed r m p n :
  acceptable p -> last_is_slash p = false ->
  ioh_path_normalize (Some p) IOH_MAX_URI_SIZE = Ok n ->
  let others := other_methods r (method_index m) n (seq 0 ROUTER_METHOD_COUNT) in
  (status (ioh_router_dispatch (Some r) m (Some p)) = IOH_MATCH_METHOD_NOT_ALLOWED <->
   others ≠ [] /\ lookup_tree r (method_index m) n = None
   /\ (m = IOH_METHOD_HEAD -> lookup_tree r (method_index IOH_METHOD_GET) n = None))
  /\ (status (ioh_router_dispatch (Some r) m (Some p)) = IOH_MATCH_METHOD_NOT_ALLOWED ->
      allowed_methods (ioh_router_dispatch (Some r) m (Some p)) = method_list others
      /\ rm_handler (ioh_router_dispatch (Some r) m (Some p)) = None).
Proof.
  intros Ha Hs Hn others. rewrite (dispatch_acceptable r m p n Ha Hn), Hs. cbn [andb].
  assert (Hfound : forall x : ioh_radix_match_t H ioh_route_opts_t, status (found x) ≠ IOH_MATCH_METHOD_NOT_ALLOWED).
  { intros x. unfold found, stabilize_param_values. destruct (stabilize_loop _ _) as [[? ?]|]; done. }
  destruct (lookup_tree r (method_index m) n) as [x|] eqn:E1.
  { split; [split; [by intros ?%Hfound|by intros (_ & ? & _)]|by intros ?%Hfound]. }
  destruct (bool_decide (m = IOH_METHOD_HEAD)) eqn:E2; bprop.
  - destruct (lookup_tree r (method_index IOH_METHOD_GET) n) as [x|] eqn:E3.
    { split; [split; [by intros ?%Hfound|intros (_ & _ & Hx); by specialize (Hx E2)]|by intros ?%Hfound]. }
    cbv zeta. fold others. case_bool_decide as E4; simpl; split; [|done| |done]; split; try done.
    by intros [? _].
  - cbv zeta. fold others. case_bool_decide as E4; simpl; split; [|done| |done]; split; try done.
    by intros [? _].
Qed.

(** Parameter values outlive the dispatch.  In a found match every parameter
    value points into the match's own storage, is terminated there by a NUL, and
    reads the bytes the route table captured; the storage used is within its 512
    bytes.  A match whose values do not fit is answered not-found. *)
Theorem found_params_stable (x : ioh_radix_match_t H ioh_route_opts_t) t path :
  rt_lookup t path = Ok x ->
  match status (found x) with
  | IOH_MATCH_FOUND =>
      rm_handler (found x) = m_handler x
      /\ param_storage_used (found x) ≤ IOH_MAX_PARAM_STORAGE
      /\ Forall2 (fun p q =>
           p_name q = p_name p /\ p_value_len q = p_value_len p
           /\ (exists off, p_value q = drop off (param_storage (found x)))
           /\ take (p_value_len q) (p_value q) = take (p_value_len p) (p_value p)
           /\ char_at (p_value q) (p_value_len q) = NUL) (m_params x) (rm_params (found x))
  | _ => status (found x) = IOH_MATCH_NOT_FOUND /\ rm_params (found x) = []
         /\ IOH_MAX_PARAM_STORAGE < foldr (fun p n => p_value_len p + 1 + n) 0 (m_params x)
  end.
Proof.
  intros Hl. destruct (rt_lookup_params t path x Hl) as [_ Hs].
  assert (Hok : Forall (fun p => p_value_len p ≤ length (p_value p)) (m_params x)).
  { eapply Forall_impl; [exact Hs|]. by intros p (i & _ & ?). }
  unfold found, stabilize_param_values. cbn [rm_params].
  destruct (stabilize_loop (m_params x) []) as [[offs final]|] eqn:Es; simpl.
  - destruct (stabilize_loop_spec _ _ _ _ Hok Es) as (_ & Hf & H2); [simpl; lia|].
    split; [done|]. split; [done|]. clear -H2.
    assert (Hgen : forall ps os, Forall2 (value_stored final) ps os ->
      Forall2 (fun p q =>
           p_name q = p_name p /\ p_value_len q = p_value_len p
           /\ (exists off, p_value q = drop off final)
           /\ take (p_value_len q) (p_value q) = take (p_value_len p) (p_value p)
           /\ char_at (p_value q) (p_value_len q) = NUL) ps
        (zip_with (fun p off => mk_param (p_name p) (drop off final) (p_value_len p)) ps os)).
    { induction 1 as [|p off ps os (H1 & H3 & H4) _ IH]; simpl; constructor; [|done]. simpl.
      split_and!; try done; [by exists off|]. unfold char_at. by rewrite H4. }
    by apply Hgen.
  - split; [done|]. split; [done|]. clear -Es.
    assert (Hgen : forall ps st, stabilize_loop ps st = None ->
              IOH_MAX_PARAM_STORAGE < length st + foldr (fun p n => p_value_len p + 1 + n) 0 ps).
    { induction ps as [|p ps IH]; intros st; cbn [stabilize_loop foldr]; [done|].
      destruct (_ <? _) eqn:E; bprop; [lia|].
      destruct (stabilize_loop ps _) as [[? ?]|] eqn:Ep; [done|]. intros _. apply IH in Ep.
      rewrite !length_app, length_take in Ep. simpl in Ep. lia. }
    by apply (Hgen _ []).
Qed.

End Thms.

(** ** Registration followed by dispatch, over the radix trie *)

Section EndToEnd.
Context {H W E G : Type}.
Abbreviation tree := (ioh_radix_node_t H ioh_route_opts_t).
Abbreviation router := (ioh_router tree H W E G).
Implicit Types (r : router).

(** One table slot per method, every tree built by registrations. *)
Definition router_ok r : Prop :=
  length (trees r) = ROUTER_METHOD_COUNT
  /\ Forall (fun o => match o with Some t => reachable t | None => True end) (trees r).

(** One registration, successful or not, with memory available. *)
Definition router_step r r' : Prop :=
  exists m pat hd o rc, no_nul pat /\
    router_add_route (Some r) m (Some pat) (Some hd) o [] = (Some r', rc, []).

(** A segment of a static pattern. *)
Definition static_segment (s : bytes) : Prop :=
  plain_segment s /\ no_nul s /\ char_at s 0 ≠ "*"%byte /\ char_at s 0 ≠ ":"%byte.

Lemma router_create_ok r : ioh_router_create [] = (Some r, []) -> router_ok r.
Proof. intros [= <-]. split; [done|]. repeat constructor. Qed.

(** The table [m] is registered in: the existing one, or a fresh one. *)
Lemma add_route_inv r r' m pat hd o rc :
  router_ok r ->
  router_add_route (Some r) m (Some pat) (Some hd) o [] = (Some r', rc, []) ->
  (r' = r /\ rc = Err EINVAL) \/
  exists t t' mt, method_index m < ROUTER_METHOD_COUNT /\ reachable t
    /\ (forall t0, get_tree r (method_index m) = Some t0 -> t0 = t)
    /\ ioh_radix_insert (Some t) (Some pat) (Some hd) o mt [] = (Some t', rc, [])
    /\ r' = set_tree r (method_index m) t'.
Proof.
  intros [Hlen Hok] Hadd. unfold router_add_route in Hadd.
  destruct (_ <=? _) eqn:El; [left; by simplify_eq|]. bprop. right.
  assert (Ht : exists t, reachable t /\ (forall t0, get_tree r (method_index m) = Some t0 -> t0 = t)
            /\ match get_tree r (method_index m) with
               | Some t => (Some t, []) | None => rt_create [] end = (Some t, @nil bool)).
  { destruct (get_tree r (method_index m)) as [t|] eqn:Eg.
    - exists t. split; [|split; [by intros ? [= <-]|done]]. unfold get_tree in Eg.
      destruct (trees r !! method_index m) as [[t1|]|] eqn:E1; simplify_eq/=.
      by apply (Forall_lookup_1 _ _ _ _ Hok E1).
    - eexists. split; [by apply reachable_create|]. split; [done|]. reflexivity. }
  destruct Ht as (t & Hr & Hg & Hc). rewrite Hc in Hadd. cbn [rt_insert radix_route_table] in Hadd.
  set (mt := match o with Some o => o_meta o | None => None end) in *.
  destruct (ioh_radix_insert (Some t) (Some pat) (Some hd) o mt []) as [[t' rc'] h'] eqn:Ei.
  assert (Hsome : exists t1, t' = Some t1).
  { unfold ioh_radix_insert in Ei. repeat brk_in Ei; simplify_eq; eauto. }
  destruct Hsome as [t1 ->]. simplify_eq. exists t, t1, mt. by split_and!.
Qed.

Lemma get_set_tree r i j (t : tree) :
  i < length (trees r) -> get_tree (set_tree r i t) j = if decide (i = j) then Some t else get_tree r j.
Proof.
  intros Hi. unfold get_tree, set_tree. simpl. case_decide as Hd.
  - subst. by rewrite list_lookup_insert_eq.
  - by rewrite list_lookup_insert_ne.
Qed.

Lemma router_step_ok r r' :
  router_ok r -> router_step r r' ->
  router_ok r' /\ forall i t, get_tree r i = Some t ->
                   exists t', get_tree r' i = Some t' /\ rtc registers t t'.
Proof.
  intros Hok (m & pat & hd & o & rc & Hn & Hadd).
  destruct (add_route_inv _ _ _ _ _ _ _ Hok Hadd) as [[-> _]|(t & t' & mt & Hm & Hr & Hg & Hi & ->)].
  { split; [done|]. intros i t Ht. by exists t. }
  assert (Hreg : registers t t') by by eexists _, _, _, _, _.
  destruct Hok as [Hlen Hok]. split; [split|].
  - simpl. by rewrite length_insert.
  - simpl. apply Forall_insert; [done|]. by eapply reachable_insert.
  - intros i t0 Ht0. rewrite get_set_tree by lia. case_decide as Hd; [|by exists t0].
    subst i. exists t'. split; [done|]. rewrite (Hg _ Ht0). by apply rtc_once.
Qed.

Lemma router_steps_ok r r' :
  router_ok r -> rtc router_step r r' ->
  router_ok r' /\ forall i t, get_tree r i = Some t ->
                   exists t', get_tree r' i = Some t' /\ rtc registers t t'.
Proof.
  intros Hok Hs. induction Hs as [x|x y z Hxy _ IH].
  { split; [done|]. intros i t Ht. by exists t. }
  destruct (router_step_ok _ _ Hok Hxy) as [Hy Hty]. destruct (IH Hy) as [Hz Htz].
  split; [done|]. intros i t Ht. destruct (Hty _ _ Ht) as (t1 & Ht1 & Hs1).
  destruct (Htz _ _ Ht1) as (t2 & Ht2 & Hs2). exists t2. split; [done|]. by etrans.
Qed.

(** A static pattern is an instance of itself. *)
Lemma inst_static_pattern segs :
  Forall static_segment segs -> inst (mjoin ((SLASH ::.) <$> segs)) (mjoin ((SLASH ::.) <$> segs)) [].
Proof.
  induction 1 as [|s segs ((Hne & _ & _ & Hs) & _ & H1 & H2) Hf IH].
  { by apply (inst_end _ _ None []). }
  change (mjoin ((SLASH ::.) <$> s :: segs)) with (SLASH :: s ++ mjoin ((SLASH ::.) <$> segs)).
  set (rest := mjoin ((SLASH ::.) <$> segs)) in *.
  assert (Hr : at_boundary rest) by by destruct segs.
  pose proof (next_segment_cut true s rest Hne Hs Hr) as Hseg. simpl app in Hseg.
  destruct (length s) as [|len] eqn:El; [by destruct s|].
  assert (Hc : char_at (s ++ rest) 0 = char_at s 0) by by destruct s.
  apply (inst_static _ _ (s ++ rest) len rest rest); [done|by rewrite Hc|by rewrite Hc| |done|done].
  rewrite <- El, take_app_length. done.
Qed.

Lemma static_pattern_no_nul segs :
  Forall static_segment segs -> no_nul (mjoin ((SLASH ::.) <$> segs)).
Proof.
  induction 1 as [|s segs (_ & Hn & _) _ IH]; [by constructor|].
  change (mjoin ((SLASH ::.) <$> s :: segs)) with (SLASH :: s ++ mjoin ((SLASH ::.) <$> segs)).
  constructor; [done|]. by apply Forall_app.
Qed.

Lemma static_canonical segs :
  segs ≠ [] -> Forall static_segment segs -> length segs ≤ SEG_STACK -> length (render segs) < IOH_MAX_URI_SIZE ->
  path_has_encoded_null (render segs) = false ->
  acceptable (render segs) /\ ioh_path_normalize (Some (render segs)) IOH_MAX_URI_SIZE = Ok (render segs).
Proof.
  intros Hne Hst Hdeep Hlong Henc.
  assert (Hnul : NUL ∉ render segs).
  { pose proof (static_pattern_no_nul segs Hst) as Hf. replace (render segs) with (mjoin ((SLASH ::.) <$> segs)) by by destruct segs.
    intros Hin. unfold no_nul in Hf. rewrite Forall_forall in Hf. discriminate (Hf NUL Hin). }
  split; [split_and!; [by destruct segs|by apply null_byte_iff|done]|].
  rewrite normalize_eq, decide_True by (split; [apply render_head|done]).
  rewrite normal_form_render; [by rewrite (proj2 (Nat.ltb_lt _ _) Hlong)| |done].
  eapply Forall_impl; [exact Hst|]. by intros s [? _].
Qed.

(** C36: a registered static route is served.  In a router made by registrations, with
    memory available for every registration: after a successful registration of the pattern made of the static
    segments [segs] (none empty, a dot segment, a parameter or a wildcard; the text
    within the path limits and without an encoded NUL) and any further registrations, successful or not, for any
    methods, a request of that method for that path is dispatched to the registered
    handler and options, with no parameters. *)
Theorem register_then_dispatch r r1 r2 m segs hd o :
  router_ok r -> segs ≠ [] -> Forall static_segment segs ->
  length segs ≤ SEG_STACK -> length (render segs) < IOH_MAX_URI_SIZE -> path_has_encoded_null (render segs) = false ->
  router_add_route (Some r) m (Some (render segs)) (Some hd) o [] = (Some r1, Ok tt, []) ->
  rtc router_step r1 r2 ->
  let result := ioh_router_dispatch (Some r2) m (Some (render segs)) in
  status result = IOH_MATCH_FOUND /\ rm_handler result = Some hd /\ opts result = o
  /\ rm_params result = [].
Proof.
  intros Hok Hne Hst Hdeep Hlong Henc Hadd Hsteps. destruct (static_canonical segs Hne Hst Hdeep Hlong Henc) as [Ha Hn].
  assert (Hren : render segs = mjoin ((SLASH ::.) <$> segs)) by by destruct segs.
  assert (Hstep : router_step r r1).
  { exists m, (render segs), hd, o, (Ok tt). split; [|done]. rewrite Hren. by apply static_pattern_no_nul. }
  destruct (router_step_ok _ _ Hok Hstep) as [Hok1 _].
  destruct (router_steps_ok _ _ Hok1 Hsteps) as [_ Hkeep].
  destruct (add_route_inv _ _ _ _ _ _ _ Hok Hadd) as [[_ ?]|(t & t1 & mt & Hm & Hr & Hg & Hi & ->)];
    [done|].
  destruct (Hkeep (method_index m) t1) as (t2 & Ht2 & Hregs).
  { rewrite get_set_tree by (destruct Hok; lia). by rewrite decide_True. }
  assert (Hlook : lookup_tree r2 (method_index m) (render segs) = Some (mk_match (Some hd) o mt [])).
  { unfold lookup_tree. rewrite Ht2. cbn [rt_lookup radix_route_table].
    destruct (registered_found t t1 t2 (render segs) hd o mt (render segs) []) as [_ Hx]; try done.
    - rewrite Hren. by apply static_pattern_no_nul.
    - rewrite Hren. by apply inst_static_pattern.
    - by destruct segs.
    - simpl. lia.
    - by rewrite Hx. }
  cbv zeta. rewrite (dispatch_acceptable r2 m _ _ Ha Hn), Hlook. by destruct (last_is_slash (render segs)).
Qed.

End EndToEnd.

(** ** The properties at a concrete router *)

(** A router with numbers for handlers. *)
Abbreviation demo_router := (ioh_router (ioh_radix_node_t nat ioh_route_opts_t) nat unit unit unit).

Definition add_demo (r : demo_router) (m : ioh_method_t) (pat : bytes) (hd : nat) : demo_router :=
  match router_add_route (Some r) m (Some pat) (Some hd) None [] with
  | (Some r', _, _) => r'
  | (None, _, _) => r
  end.

Definition register_opts (root : ioh_radix_node_t nat ioh_route_opts_t) (pat : bytes) (x : nat)
    : ioh_radix_node_t nat ioh_route_opts_t :=
  match ioh_radix_insert (Some root) (Some pat) (Some x) None None [] with
  | (Some root', _, _) => root'
  | (None, _, _) => root
  end.

Definition router0 : demo_router :=
  mk_router (replicate ROUTER_METHOD_COUNT None) [] 0 [] None None None.
Definition router1 := add_demo router0 IOH_METHOD_GET (bs "/users/:id") 1.
Definition router2 := add_demo router1 IOH_METHOD_POST (bs "/users/me") 2.

Lemma dispatch_refuses_witness :
  ioh_router_dispatch (Some router2) IOH_METHOD_GET (Some (bs "/users/../../etc")) = not_found.
Proof.
  apply (dispatch_refuses router2 IOH_METHOD_GET (bs "/users/../../etc")).
  right. right. right. right. vm_compute. reflexivity.
Defined.

Lemma acceptable_demo p :
  path_has_null_byte p || path_has_encoded_null p || (length p =? 0) = false -> acceptable p.
Proof.
  intros Hp. apply orb_false_elim in Hp as [[? ?]%orb_false_elim Hl]. split_and!; try done. by intros ->.
Qed.

Lemma dispatch_method_not_allowed_witness :
  status (ioh_router_dispatch (Some router2) IOH_METHOD_DELETE (Some (bs "/users/me")))
    = IOH_MATCH_METHOD_NOT_ALLOWED
  /\ allowed_methods (ioh_router_dispatch (Some router2) IOH_METHOD_DELETE (Some (bs "/users/me")))
    = bs "GET, POST".
Proof.
  destruct (dispatch_method_not_allowed router2 IOH_METHOD_DELETE (bs "/users/me") (bs "/users/me"))
    as [Hst Hal].
  - apply acceptable_demo. vm_compute. reflexivity.
  - vm_compute. reflexivity.
  - vm_compute. reflexivity.
  - assert (Hs : status (ioh_router_dispatch (Some router2) IOH_METHOD_DELETE (Some (bs "/users/me")))
                 = IOH_MATCH_METHOD_NOT_ALLOWED).
    { apply Hst. split; [|split]; [vm_compute; discriminate|vm_compute; reflexivity|discriminate]. }
    split; [exact Hs|]. rewrite (proj1 (Hal Hs)). vm_compute. reflexivity.
Defined.

Lemma found_params_stable_witness :
  exists (t : ioh_radix_node_t nat ioh_route_opts_t) (x : ioh_radix_match_t nat ioh_route_opts_t),
    rt_lookup t (bs "/users/42") = Ok x
    /\ param_storage_used (found x) ≤ IOH_MAX_PARAM_STORAGE
    /\ param_storage (found x) = bs "42" ++ [NUL].
Proof.
  exists (register_opts (leaf []) (bs "/users/:id") 1),
         (mk_match (Some 1) None None [mk_param (bs "id") (bs "42") 2]).
  split; [vm_compute; reflexivity|].
  pose proof (found_params_stable (mk_match (Some 1) None None [mk_param (bs "id") (bs "42") 2])
                (register_opts (leaf []) (bs "/users/:id") 1) (bs "/users/42") eq_refl) as Hs.
  split; [exact (proj1 (proj2 Hs))|]. vm_compute. reflexivity.
Defined.

Lemma router1_ok : router_ok router1.
Proof.
  apply (router_step_ok router0); [by apply router_create_ok|].
  exists IOH_METHOD_GET, (bs "/users/:id"), 1, None, (Ok tt). split; [repeat constructor|reflexivity].
Qed.

Lemma register_then_dispatch_witness :
  status (ioh_router_dispatch (Some router2) IOH_METHOD_POST (Some (bs "/users/me"))) = IOH_MATCH_FOUND
  /\ rm_handler (ioh_router_dispatch (Some router2) IOH_METHOD_POST (Some (bs "/users/me"))) = Some 2.
Proof.
  destruct (register_then_dispatch router1 router2 router2 IOH_METHOD_POST [bs "users"; bs "me"] 2 None) as (H1 & H2 & _).
  - exact router1_ok.
  - discriminate.
  - repeat constructor; first [discriminate | bcompute].
  - nle.
  - nle.
  - vm_compute. reflexivity.
  - vm_compute. reflexivity.
  - apply rtc_refl.
  - split; [exact H1|exact H2].
Defined.
