(* ===== verification/Inspect.v ===== *)
(** Route introspection ([src/src/router/ioh_route_inspect.h], [ioh_route_inspect.c]):
    walking the routes of a router, counting them and attaching metadata.

    The walk's callback is a function of the route and the caller's state. *)
From S2P Require Import Prelude CString Radix RadixMap RadixLookup RadixInsert RadixThms PathNorm Request Router.

Definition MAX_PATTERN_LEN : nat := Z.to_nat 2048.

Record ioh_route_info_t (H M : Type) := mk_info {
  i_method : ioh_method_t;
  i_pattern : bytes;
  i_handler : H;
  i_opts : option M;
  i_meta : option ioh_route_meta_t;
}.
Arguments mk_info {H M}.
Arguments i_method {H M}.
Arguments i_pattern {H M}.
Arguments i_handler {H M}.
Arguments i_opts {H M}.
Arguments i_meta {H M}.

Section Inspect.
Context {H M : Type}.
Abbreviation node := (ioh_radix_node_t H M).
Abbreviation info := (ioh_route_info_t H M).
Implicit Types (n c : node).

(** ** Walking *)

(** What a child adds to the pattern. *)
Definition segment c : bytes :=
  match type c with
  | IOH_NODE_STATIC => SLASH :: c_str (prefix c)
  | IOH_NODE_PARAM => SLASH :: ":"%byte :: c_str (default [] (param_name c))
  | IOH_NODE_WILDCARD => SLASH :: "*"%byte :: c_str (default [] (param_name c))
  end.

Definition shown_pattern (pattern : bytes) : bytes := match pattern with [] => [SLASH] | _ => pattern end.

Section Walk.
Context {A : Type} (fn : info -> A -> Z * A) (m : ioh_method_t).

Fixpoint walk_node (pattern : bytes) n (a : A) : Z * A :=
  let visited := match handler n with
                 | Some h => fn (mk_info m (shown_pattern pattern) h (metadata n) (meta n)) a
                 | None => (0%Z, a)
                 end in
  if negb (fst visited =? 0)%Z then visited else
  (fix loop (cs : list node) (a : A) : Z * A :=
     match cs with
     | [] => (0%Z, a)
     | c :: cs =>
         if MAX_PATTERN_LEN <=? length pattern + length (segment c) then ((- errno_code ENOMEM)%Z, a) else
         let r := walk_node (pattern ++ segment c) c a in
         if negb (fst r =? 0)%Z then r else loop cs (snd r)
     end) (children n) (snd visited).
End Walk.

(** One tree after the other, in the order of the methods. *)
Fixpoint walk_trees {A : Type} (fn : info -> A -> Z * A) (ts : list (ioh_method_t * option node)) (a : A) : Z * A :=
  match ts with
  | [] => (0%Z, a)
  | (m, None) :: ts => walk_trees fn ts a
  | (m, Some t) :: ts =>
      let r := walk_node fn m [] t a in
      if negb (fst r =? 0)%Z then r else walk_trees fn ts (snd r)
  end.

(** The methods by their numbers. *)
Definition all_methods : list ioh_method_t :=
  [IOH_METHOD_GET; IOH_METHOD_POST; IOH_METHOD_PUT; IOH_METHOD_DELETE; IOH_METHOD_PATCH;
   IOH_METHOD_HEAD; IOH_METHOD_OPTIONS; IOH_METHOD_TRACE; IOH_METHOD_CONNECT].

(** ** Counting *)

Fixpoint count_node n (count : Z) : Z :=
  let count := match handler n with Some _ => u32 (count + 1) | None => count end in
  (fix loop (cs : list node) (count : Z) : Z :=
     match cs with
     | [] => count
     | c :: cs => loop cs (count_node c count)
     end) (children n) count.

(** ** Attaching metadata *)

Definition set_meta n (mt : option ioh_route_meta_t) : node :=
  mk_node (prefix n) (type n) (param_name n) (handler n) (metadata n) mt (children n) (child_capacity n) (priority n).

(** A node that must hold a route. *)
Definition set_meta_here n (mt : option ioh_route_meta_t) : node * res unit :=
  match handler n with
  | None => (n, Err ENOENT)
  | Some _ => (set_meta n mt, Ok tt)
  end.

(** [strlen(p) == len && memcmp(p, s, len) == 0] for the segment part [s]. *)
Definition same_text (p s : bytes) : bool := (strlen p =? length s) && memcmp_eq p s (length s).

(** The child a segment selects. *)
Definition selects (seg : bytes) c : bool :=
  if char_at seg 0 =b "*"%byte then is_wildcard (type c) && same_text (default [] (param_name c)) (drop 1 seg)
  else if char_at seg 0 =b ":"%byte then is_param (type c) && same_text (default [] (param_name c)) (drop 1 seg)
  else is_static (type c) && same_text (prefix c) seg.

Fixpoint find_and_set_meta n (pattern : bytes) (mt : option ioh_route_meta_t) : node * res unit :=
  let pattern := match pattern with
                 | b :: p => if b =b SLASH then p else pattern
                 | [] => []
                 end in
  let seg := fst (span not_slash pattern) in
  let rest := snd (span not_slash pattern) in
  if length seg =? 0 then set_meta_here n mt else
  let '(cs, rc) :=
    (fix loop (cs : list node) : list node * res unit :=
       match cs with
       | [] => ([], Err ENOENT)
       | c :: cs =>
           if selects seg c then
             let '(c, rc) := if char_at seg 0 =b "*"%byte then set_meta_here c mt else find_and_set_meta c rest mt in
             (c :: cs, rc)
           else let '(cs, rc) := loop cs in (c :: cs, rc)
       end) (children n) in
  (set_children n cs, rc).
End Inspect.

(** ** The router's calls *)

Section Router.
Context {H W E G : Type}.
Abbreviation tree := (ioh_radix_node_t H ioh_route_opts_t).
Abbreviation router := (ioh_router tree H W E G).

Definition router_trees (r : router) : list (ioh_method_t * option tree) :=
  (fun m => (m, ioh_router_get_tree (Some r) m)) <$> all_methods.

Definition ioh_router_walk {A : Type} (r : option router) (fn : option (ioh_route_info_t H ioh_route_opts_t -> A -> Z * A)) (a : A)
    : Z * A :=
  match r, fn with
  | Some r, Some fn => walk_trees fn (router_trees r) a
  | _, _ => ((- errno_code EINVAL)%Z, a)
  end.

Definition ioh_router_route_count (r : option router) : Z :=
  match r with
  | None => 0
  | Some r => fold_left (fun total t => match snd t with Some t => count_node t total | None => total end)
                (router_trees r) 0%Z
  end.

Definition ioh_router_set_meta (r : option router) (m : ioh_method_t) (pattern : option bytes)
    (mt : option ioh_route_meta_t) : option router * res unit :=
  match r, pattern with
  | Some r, Some pattern =>
      match ioh_router_get_tree (Some r) m with
      | None => (Some r, Err ENOENT)
      | Some t => let '(t, rc) := find_and_set_meta t (c_str pattern) mt in (Some (set_tree r (method_index m) t), rc)
      end
  | _, _ => (r, Err EINVAL)
  end.
End Router.

(** ** Specification vocabulary *)

Section Spec.
Context {H M : Type}.
Abbreviation node := (ioh_radix_node_t H M).
Implicit Types (n c : node) (cs : list node).

(** The registrations of a tree with their keys, a node's own before its
    children's. *)
Fixpoint routes n : list (list tok * payload H M) :=
  match node_payload n with Some p => [([], p)] | None => [] end
  ++ concat ((fun c => (fun kp => (edge c ++ fst kp, snd kp)) <$> routes c) <$> children n).

Definition child_routes cs : list (list tok * payload H M) :=
  concat ((fun c => (fun kp => (edge c ++ fst kp, snd kp)) <$> routes c) <$> cs).

(** ** Lemmas *)

Lemma routes_eq n :
  routes n = match node_payload n with Some p => [([], p)] | None => [] end ++ child_routes (children n).
Proof. by destruct n. Qed.

Lemma routes_cons c cs : child_routes (c :: cs) = ((fun kp => (edge c ++ fst kp, snd kp)) <$> routes c) ++ child_routes cs.
Proof. done. Qed.

(** The key of a child's route starts with the child's tag. *)
Lemma child_routes_tag cs k p :
  Forall wf_edge cs -> (k, p) ∈ child_routes cs -> exists t k', k = t :: k' /\ tok_tag t ∈ tag <$> cs.
Proof.
  intros Hw. induction Hw as [|c cs Hc Hw IH]; [by intros ?%not_elem_of_nil|]. rewrite routes_cons, elem_of_app.
  intros [Hin|Hin].
  - apply list_elem_of_fmap in Hin as ([k0 p0] & E & _). injection E as -> ->.
    pose proof (wf_edge_nonempty c Hc) as Hne. destruct (edge c) as [|t e] eqn:Ee; [done|]. exists t, (e ++ k0).
    split; [done|]. cbn [fmap list_fmap]. apply elem_of_cons. left. unfold tag. by rewrite Ee.
  - destruct (IH Hin) as (t & k' & -> & Ht). exists t, k'. split; [done|]. cbn [fmap list_fmap]. by apply elem_of_cons; right.
Qed.

Lemma get_children_head c cs t k :
  get_children (c :: cs) (t :: k) = match strip (edge c) (t :: k) with Some k' => tree_get c k' | None => get_children cs (t :: k) end.
Proof. done. Qed.

Lemma child_routes_spec cs :
  StronglySorted Z.lt (tag <$> cs) -> Forall wf_edge cs ->
  Forall (fun c => NoDup (fst <$> routes c) /\ forall k p, (k, p) ∈ routes c <-> tree_get c k = Some p) cs ->
  NoDup (fst <$> child_routes cs) /\ forall t k p, (t :: k, p) ∈ child_routes cs <-> get_children cs (t :: k) = Some p.
Proof.
  intros Hs Hw Hc. induction Hc as [|c cs [Hnd Hrt] Hc IH]; [split; [constructor|intros; split; [by intros ?%not_elem_of_nil|done]]|].
  apply Forall_cons in Hw as [Hwc Hw]. cbn [fmap list_fmap] in Hs. apply StronglySorted_inv in Hs as [Hs Hlt].
  destruct (IH Hs Hw) as [Hnd' Hrt']. clear IH.
  assert (Hsep : forall k p, (k, p) ∈ child_routes cs -> strip (edge c) k = None).
  { intros k p Hin. destruct (strip (edge c) k) as [r|] eqn:E; [|done].
    destruct (child_routes_tag _ _ _ Hw Hin) as (t & k' & -> & Ht). apply strip_tag in E; [|done].
    rewrite Forall_forall in Hlt. specialize (Hlt _ Ht). lia. }
  rewrite routes_cons. split.
  - assert (Hk : fst <$> ((fun kp => (edge c ++ fst kp, snd kp)) <$> routes c) = app (edge c) <$> (fst <$> routes c)).
    { by rewrite <- !list_fmap_compose. }
    rewrite fmap_app, Hk. clear Hk. apply NoDup_app. split_and!; [|intros k Hk Hk'|done].
    + apply NoDup_fmap_2; [|done]. intros x y. apply app_inv_head.
    + apply list_elem_of_fmap in Hk as (k0 & -> & _). apply list_elem_of_fmap in Hk' as ([k1 p1] & E & Hin).
      simpl in E. subst k1. apply Hsep in Hin. by rewrite strip_app in Hin.
  - intros t k p. rewrite get_children_head, elem_of_app. split.
    + intros [Hin|Hin].
      * apply list_elem_of_fmap in Hin as ([k0 p0] & E & Hin). injection E as E ->. rewrite E, strip_app. by apply Hrt.
      * rewrite (Hsep _ _ Hin). by apply Hrt'.
    + destruct (strip (edge c) (t :: k)) as [r|] eqn:Es; [left|right; by apply Hrt'].
      apply strip_Some in Es. apply list_elem_of_fmap. exists (r, p). rewrite Es. split; [done|]. by apply Hrt.
Qed.

(** The list of routes is the tree's map. *)
Lemma routes_spec n :
  wf n -> NoDup (fst <$> routes n) /\ forall k p, (k, p) ∈ routes n <-> tree_get n k = Some p.
Proof.
  induction n as [n IH] using node_ind'. intros Hw. inversion Hw as [? Hs He Hc _]; subst.
  assert (Hch : Forall (fun c => NoDup (fst <$> routes c) /\ forall k p, (k, p) ∈ routes c <-> tree_get c k = Some p) (children n)).
  { rewrite Forall_forall in IH, Hc |- *. intros c Hin. by apply IH; [|apply Hc]. }
  destruct (child_routes_spec _ Hs He Hch) as [Hnd Hrt]. rewrite routes_eq. split.
  - rewrite fmap_app. apply NoDup_app. split_and!; [|intros k Hk Hk'|done].
    + destruct (node_payload n); repeat constructor. by intros ?%not_elem_of_nil.
    + apply list_elem_of_fmap in Hk' as ([k0 p0] & -> & Hin). destruct (child_routes_tag _ _ _ He Hin) as (t & k' & E & _).
      simpl in E, Hk. subst k0. destruct (node_payload n); [|by apply not_elem_of_nil in Hk].
      by apply list_elem_of_singleton in Hk.
  - intros k p. rewrite tree_get_eq, elem_of_app. destruct k as [|t k].
    + split.
      * intros [Hin|Hin]; [|by destruct (child_routes_tag _ _ _ He Hin) as (? & ? & ? & _)].
        destruct (node_payload n); [|by apply not_elem_of_nil in Hin]. apply list_elem_of_singleton in Hin. congruence.
      * intros ->. left. by apply list_elem_of_singleton.
    + rewrite <- Hrt. split; [|by right]. intros [Hin|Hin]; [|done].
      destruct (node_payload n); [|by apply not_elem_of_nil in Hin]. by apply list_elem_of_singleton in Hin.
Qed.

Definition count_children cs (z : Z) : Z := fold_left (fun z c => count_node c z) cs z.

Lemma count_node_eq n z :
  count_node n z = count_children (children n) (match handler n with Some _ => u32 (z + 1) | None => z end).
Proof.
  destruct n as [a b d e f g cs i j]. cbn [count_node children handler]. unfold count_children.
  set (z0 := match e with Some _ => _ | None => _ end). clearbody z0. revert z0.
  induction cs as [|c cs IH]; intros z0; [done|]. cbn [fold_left]. apply IH.
Qed.

(** The counter wraps at 2^32. *)
Lemma count_node_routes n : forall z, u32 (count_node n z) = u32 (z + Z.of_nat (length (routes n))).
Proof.
  induction n as [n IH] using node_ind'. intros z. rewrite count_node_eq, routes_eq, length_app.
  assert (Hc : forall z, u32 (count_children (children n) z) = u32 (z + Z.of_nat (length (child_routes (children n))))).
  { induction IH as [|c cs Hc _ IHcs]; intros z0; [simpl; f_equal; lia|]. unfold count_children. cbn [fold_left].
    fold (count_children cs (count_node c z0)). rewrite IHcs, routes_cons, length_app, length_fmap.
    unfold u32 in *. rewrite <- Zplus_mod_idemp_l, Hc, Zplus_mod_idemp_l. f_equal. lia. }
  rewrite Hc. unfold node_payload. destruct (handler n); simpl; [|done].
  unfold u32. rewrite Zplus_mod_idemp_l. f_equal. lia.
Qed.

(** ** Walking *)

Context {A : Type} (fn : ioh_route_info_t H M -> A -> Z * A) (m : ioh_method_t).

Definition walk_children (pattern : bytes) : list node -> A -> Z * A :=
  fix loop (cs : list node) (a : A) : Z * A :=
    match cs with
    | [] => (0%Z, a)
    | c :: cs =>
        if MAX_PATTERN_LEN <=? length pattern + length (segment c) then ((- errno_code ENOMEM)%Z, a) else
        let r := walk_node fn m (pattern ++ segment c) c a in
        if negb (fst r =? 0)%Z then r else loop cs (snd r)
    end.

Lemma walk_node_eq pattern n a :
  walk_node fn m pattern n a =
  let visited := match handler n with
                 | Some h => fn (mk_info m (shown_pattern pattern) h (metadata n) (meta n)) a
                 | None => (0%Z, a)
                 end in
  if negb (fst visited =? 0)%Z then visited else walk_children pattern (children n) (snd visited).
Proof. by destruct n. Qed.
End Spec.

(** The payloads a callback that records everything has seen. *)
Definition record_route {H M : Type} (i : ioh_route_info_t H M) (a : list (payload H M)) : Z * list (payload H M) :=
  (0%Z, a ++ [mk_payload (i_handler i) (i_opts i) (i_meta i)]).

Lemma walk_records {H M : Type} m (n : ioh_radix_node_t H M) :
  forall pattern a, fst (walk_node record_route m pattern n a) = 0%Z ->
  walk_node record_route m pattern n a = (0%Z, a ++ (snd <$> routes n)).
Proof.
  induction n as [n IH] using node_ind'. intros pattern a. rewrite walk_node_eq, routes_eq. cbv zeta.
  set (v := match handler n with Some _ => _ | None => _ end).
  assert (Hv : v = (0%Z, a ++ (snd <$> match node_payload n with Some p => [([] : list tok, p)] | None => [] end))).
  { subst v. unfold node_payload, record_route. destruct (handler n); [done|]. by rewrite app_nil_r. }
  rewrite Hv. cbn [fst snd Z.eqb negb]. rewrite fmap_app, app_assoc. generalize (a ++ (snd <$> match node_payload n with Some p => [([] : list tok, p)] | None => [] end)).
  clear v Hv a. induction IH as [|c cs Hc _ IHcs]; intros a; [simpl; by rewrite app_nil_r|]. cbn [walk_children].
  destruct (_ <=? _); [done|]. destruct (walk_node record_route m (pattern ++ segment c) c a) as [rc a'] eqn:E.
  cbn [fst snd]. destruct (Z.eqb_spec rc 0) as [->|Hne]; cbn [negb]; [|done].
  specialize (Hc (pattern ++ segment c) a). rewrite E in Hc. specialize (Hc eq_refl). injection Hc as ->.
  intros Hz. rewrite IHcs by done. rewrite routes_cons, fmap_app, <- list_fmap_compose, app_assoc. done.
Qed.

(** Introspection agrees with registration.  On every tree a program can
    reach there is a list without repetition of exactly the registered route keys,
    with their registrations; the count of the tree is its length (modulo 2^32), and a walk that
    is not cut short hands the callback exactly these registrations, each once, in
    that order. *)
Theorem introspection_complete {H M : Type} (root : ioh_radix_node_t H M) m :
  reachable root ->
  exists ks, NoDup (fst <$> ks) /\ (forall k p, (k, p) ∈ ks <-> tree_get root k = Some p)
    /\ u32 (count_node root 0) = u32 (Z.of_nat (length ks))
    /\ (fst (walk_node record_route m [] root []) = 0%Z ->
        snd (walk_node record_route m [] root []) = snd <$> ks).
Proof.
  intros Hr%reachable_wf. destruct (routes_spec root Hr) as [Hnd Hk]. exists (routes root).
  split; [done|]. split; [done|]. split; [by rewrite count_node_routes|].
  intros Hw. by rewrite walk_records.
Qed.

(** ** Witness and examples *)

Definition demo_routes : ioh_radix_node_t nat unit :=
  register (register demo0 (bs "/users/:id") 1) (bs "/user-list") 2.

Lemma demo_routes_reachable : reachable demo_routes.
Proof.
  eapply reachable_insert; [eapply reachable_insert; [apply reachable_create; vm_compute; reflexivity|]|].
  - exists (bs "/users/:id"), 1, None, None, (Ok tt). split; [repeat constructor|]. vm_compute. reflexivity.
  - exists (bs "/user-list"), 2, None, None, (Ok tt). split; [repeat constructor|]. vm_compute. reflexivity.
Qed.

Lemma introspection_complete_witness :
  exists ks : list (list tok * payload nat unit), NoDup (fst <$> ks) /\ length ks = 2
    /\ snd (walk_node record_route IOH_METHOD_GET [] demo_routes []) = snd <$> ks.
Proof.
  destruct (introspection_complete demo_routes IOH_METHOD_GET demo_routes_reachable) as (ks & Hnd & _ & _ & Hw).
  assert (E : walk_node record_route IOH_METHOD_GET [] demo_routes [] = (0%Z, [mk_payload 2 None None; mk_payload 1 None None]))
    by (vm_compute; reflexivity).
  rewrite E in Hw. specialize (Hw eq_refl). exists ks. split; [exact Hnd|]. rewrite E. split; [|exact Hw].
  apply (f_equal length) in Hw. rewrite length_fmap in Hw. symmetry. exact Hw.
Defined.

(** Where two routes share the start of a segment, the walk shows a pattern that
    was not registered, and metadata cannot be attached to the registered one. *)
Theorem split_routes_misreported :
  walk_node (fun i a => (0%Z, a ++ [i_pattern i])) IOH_METHOD_GET [] demo_routes []
    = (0%Z, [bs "/user/-list"; bs "/user/s/:id"])
  /\ snd (find_and_set_meta demo_routes (bs "/users/:id") None) = Err ENOENT.
Proof. split; vm_compute; reflexivity. Qed.
