(* ===== verification/Vhost.v ===== *)
(** Virtual hosts ([src/src/router/ioh_vhost.h], [ioh_vhost.c]): the choice of a
    router by the request's host. *)
From S2P Require Import Prelude CString Radix RadixThms PathNorm Request Router RouterThms.

Definition IOH_VHOST_MAX_HOSTS : nat := 32.
Definition HOST_SIZE : nat := 256.

Record ioh_vhost_entry_t (R : Type) := mk_entry {
  ve_host : bytes;
  ve_wildcard : bool;
  ve_router : R;
}.
Arguments mk_entry {R}.
Arguments ve_host {R}.
Arguments ve_wildcard {R}.
Arguments ve_router {R}.

(** The length of the host without its port. *)
Fixpoint last_colon (host : bytes) (i : nat) : option nat :=
  match i with
  | O => None
  | S i => if char_at host i =b ":"%byte then Some i else last_colon host i
  end.

Definition strip_port (host : bytes) (len : nat) : nat :=
  if len =? 0 then 0 else
  if char_at host 0 =b "["%byte then
    match memchr host "]"%byte len with Some i => i + 1 | None => len end
  else default len (last_colon host len).

Definition wildcard_match (pattern host : bytes) (host_len : nat) : bool :=
  let suffix := drop 1 pattern in
  let suffix_len := strlen suffix in
  if host_len <=? suffix_len then false
  else strncasecmp_eq (drop (host_len - suffix_len) host) suffix suffix_len.

Section Vhost.
Context {T H W E G : Type} `{RT : RouteTable T H ioh_route_opts_t}.
Abbreviation router := (ioh_router T H W E G).
Abbreviation entry := (ioh_vhost_entry_t router).

Record ioh_vhost := mk_vhost {
  v_entries : list entry;
  v_default : option router;
}.

Definition ioh_vhost_create (h : heap) : option ioh_vhost * heap :=
  let '(ok, h) := xalloc h in if ok then (Some (mk_vhost [] None), h) else (None, h).

Definition ioh_vhost_add (v : option ioh_vhost) (host : option bytes) (r : option router) : option ioh_vhost * res unit :=
  match v, host, r with
  | Some v, Some host, Some r =>
      if IOH_VHOST_MAX_HOSTS <=? length (v_entries v) then (Some v, Err ENOSPC) else
      let len := strnlen host HOST_SIZE in
      if (len =? 0) || (HOST_SIZE <=? len) then (Some v, Err EINVAL) else
      let wild := (2 <=? len) && (char_at host 0 =b "*"%byte) && (char_at host 1 =b "."%byte) in
      (Some (mk_vhost (v_entries v ++ [mk_entry (take len host) wild r]) (v_default v)), Ok tt)
  | _, _, _ => (v, Err EINVAL)
  end.

Definition ioh_vhost_set_default (v : option ioh_vhost) (r : option router) : option ioh_vhost :=
  match v with Some v => Some (mk_vhost (v_entries v) r) | None => None end.

Fixpoint find_exact (es : list entry) (host : bytes) (host_len : nat) : option router :=
  match es with
  | [] => None
  | e :: es =>
      if ve_wildcard e then find_exact es host host_len else
      if (strlen (ve_host e) =? host_len) && strncasecmp_eq (ve_host e) host host_len then Some (ve_router e)
      else find_exact es host host_len
  end.

Fixpoint find_wildcard (es : list entry) (host : bytes) (host_len : nat) : option router :=
  match es with
  | [] => None
  | e :: es =>
      if negb (ve_wildcard e) then find_wildcard es host host_len else
      if wildcard_match (ve_host e) host host_len then Some (ve_router e)
      else find_wildcard es host host_len
  end.

Definition ioh_vhost_dispatch (v : option ioh_vhost) (m : ioh_method_t) (host path : option bytes) : ioh_route_match_t H :=
  match v with
  | None => not_found
  | Some v =>
      let matched :=
        match host with
        | None => None
        | Some host =>
            let host_len := strip_port host (strnlen host HOST_SIZE) in
            match find_exact (v_entries v) host host_len with
            | Some r => Some r
            | None => find_wildcard (v_entries v) host host_len
            end
        end in
      match (match matched with Some r => Some r | None => v_default v end) with
      | Some r => ioh_router_dispatch (Some r) m path
      | None => not_found
      end
  end.

Definition ioh_vhost_count (v : option ioh_vhost) : nat :=
  match v with Some v => length (v_entries v) | None => 0 end.

(** ** Specification vocabulary *)

Definition lower (s : bytes) : bytes := to_lower <$> s.

(** The names an entry serves: its own, or every name that ends in the pattern
    after its star and has something in front; letters compare without case. *)
Definition serves (e : entry) (name : bytes) : Prop :=
  if ve_wildcard e
  then exists front, front <> [] /\ lower name = front ++ lower (drop 1 (ve_host e))
  else lower name = lower (ve_host e).

(** The first entry of the list with the property. *)
Definition first_with (P : entry -> Prop) (es : list entry) (e : entry) : Prop :=
  exists a b, es = a ++ e :: b /\ P e /\ Forall (fun x => ~ P x) a.

Definition names_plain (es : list entry) : Prop := Forall (fun e => NUL ∉ ve_host e) es.

(** ** Lemmas *)

Lemma lower_app a b : lower (a ++ b) = lower a ++ lower b.
Proof. apply fmap_app. Qed.

Lemma strncasecmp_plain a b n :
  NUL ∉ a -> NUL ∉ b -> strncasecmp_eq a b n = bool_decide (lower (take n a) = lower (take n b)).
Proof.
  intros Ha Hb. unfold strncasecmp_eq. rewrite !strndup_plain by done. apply eq_true_iff_eq.
  by rewrite bytes_eqb_true, bool_decide_eq_true.
Qed.

(** The host header's value: a name, or a name and a port. *)
Definition with_port (name : bytes) (port : option bytes) : bytes :=
  name ++ match port with Some p => ":"%byte :: p | None => [] end.

Lemma last_colon_spec host n :
  n ≤ length host ->
  match last_colon host n with
  | Some i => i < n /\ host !! i = Some ":"%byte /\ forall j, i < j < n -> host !! j <> Some ":"%byte
  | None => forall j, j < n -> host !! j <> Some ":"%byte
  end.
Proof.
  induction n as [|n IH]; intros Hn; [intros j; lia|]. cbn [last_colon].
  destruct (lookup_lt_is_Some_2 host n Hn) as [b Hb]. unfold char_at. rewrite Hb. cbn [default]. unfold id.
  destruct (b =b ":"%byte) eqn:Eb; bprop.
  - subst. split; [lia|]. split; [done|]. intros j Hj. lia.
  - specialize (IH ltac:(lia)). destruct (last_colon host n) as [i|].
    + destruct IH as (Hi & Hc & Hr). split; [lia|]. split; [done|]. intros j Hj.
      destruct (decide (j = n)) as [->|]; [congruence|apply Hr; lia].
    + intros j Hj. destruct (decide (j = n)) as [->|]; [congruence|apply IH; lia].
Qed.

(** Stripping finds the name. *)
Lemma strip_port_name name port :
  name <> [] -> head name <> Some "["%byte -> ":"%byte ∉ name -> (forall p, port = Some p -> ":"%byte ∉ p) ->
  strip_port (with_port name port) (length (with_port name port)) = length name.
Proof.
  intros Hne Hb Hn Hp. unfold strip_port, with_port. destruct name as [|x name]; [done|]. cbn [app length Nat.eqb].
  change (char_at (x :: _) 0) with x. rewrite (proj2 (beq_false x _)) by (intros ->; done).
  set (host := x :: name ++ match port with Some p => ":"%byte :: p | None => [] end).
  assert (Hhost : host = (x :: name) ++ match port with Some p => ":"%byte :: p | None => [] end) by done.
  change (S (length (name ++ match port with Some p => ":"%byte :: p | None => [] end))) with (length host).
  pose proof (last_colon_spec host (length host) ltac:(lia)) as Hs. clearbody host.
  assert (Hin : forall j, host !! j = Some ":"%byte -> exists p, port = Some p /\ j = length (x :: name)).
  { intros j. rewrite Hhost. intros [Hj|[Hle Hj]]%lookup_app_Some; [by apply list_elem_of_lookup_2 in Hj|].
    destruct port as [p|]; [|by rewrite lookup_nil in Hj]. exists p. split; [done|].
    destruct (j - length (x :: name)) as [|k] eqn:Ek; [lia|]. cbn [lookup list_lookup] in Hj.
    by destruct (Hp p eq_refl); apply list_elem_of_lookup_2 in Hj. }
  destruct (last_colon host (length host)) as [i|].
  - destruct Hs as (_ & Hi & _). by destruct (Hin i Hi) as (p & _ & ->).
  - simpl. destruct port as [p|]; [|by rewrite Hhost, app_nil_r].
    destruct (Hs (length (x :: name))); [rewrite Hhost, length_app; simpl; lia|]. rewrite Hhost. by rewrite list_lookup_middle.
Qed.

Lemma exact_serves e name tail :
  ve_wildcard e = false -> NUL ∉ ve_host e -> NUL ∉ name ++ tail ->
  (strlen (ve_host e) =? length name) && strncasecmp_eq (ve_host e) (name ++ tail) (length name) = true <-> serves e name.
Proof.
  intros Hw He Hn. unfold serves. rewrite Hw. unfold strlen. rewrite c_str_plain by done.
  rewrite strncasecmp_plain, andb_true_iff, Nat.eqb_eq, bool_decide_eq_true by done. rewrite take_app_length. split.
  - intros [Hl Heq]. rewrite take_ge in Heq by lia. done.
  - intros Heq. assert (Hl : length (ve_host e) = length name).
    { apply (f_equal length) in Heq. unfold lower in Heq. by rewrite !length_fmap in Heq. }
    split; [done|]. by rewrite take_ge by lia.
Qed.

Lemma wildcard_serves e name tail :
  ve_wildcard e = true -> NUL ∉ ve_host e -> NUL ∉ name ++ tail ->
  wildcard_match (ve_host e) (name ++ tail) (length name) = true <-> serves e name.
Proof.
  intros Hw He Hn. unfold serves. rewrite Hw. unfold wildcard_match, strlen.
  assert (Hs : NUL ∉ drop 1 (ve_host e)) by (destruct (ve_host e); set_solver).
  rewrite c_str_plain by done. set (suf := drop 1 (ve_host e)) in *. destruct (Nat.leb_spec (length name) (length suf)) as [Hle|Hlt].
  - split; [done|]. intros (front & Hf & Heq). apply (f_equal length) in Heq. unfold lower in Heq.
    rewrite length_app, !length_fmap in Heq. destruct front; [done|]. simpl in Heq. lia.
  - assert (Hd : drop (length name - length suf) (name ++ tail) = drop (length name - length suf) name ++ tail) by (apply drop_app_le; lia).
    assert (Hn' : NUL ∉ drop (length name - length suf) name ++ tail).
    { rewrite <- Hd. intros Hin. apply Hn. rewrite <- (take_drop (length name - length suf) (name ++ tail)). set_solver. }
    rewrite Hd, strncasecmp_plain, bool_decide_eq_true by done. rewrite (take_ge suf) by lia.
    rewrite take_app_length' by (rewrite length_drop; lia). split.
    + intros Heq. exists (lower (take (length name - length suf) name)). split.
      * intros Hnil. apply (f_equal length) in Hnil. unfold lower in Hnil. rewrite length_fmap, length_take in Hnil. simpl in Hnil. lia.
      * rewrite <- Heq, <- lower_app, take_drop. done.
    + intros (front & Hf & Heq). assert (Hlf : length front = length name - length suf).
      { apply (f_equal length) in Heq. unfold lower in Heq. rewrite length_app, !length_fmap in Heq. lia. }
      unfold lower in *. rewrite fmap_drop, Heq, <- Hlf. by rewrite drop_app_length.
Qed.

Lemma find_exact_spec es name tail :
  names_plain es -> NUL ∉ name ++ tail ->
  match find_exact es (name ++ tail) (length name) with
  | Some r => exists e, first_with (fun e => ve_wildcard e = false /\ serves e name) es e /\ ve_router e = r
  | None => Forall (fun e => ~ (ve_wildcard e = false /\ serves e name)) es
  end.
Proof.
  intros Hp Hn. induction Hp as [|e es He Hp IH]; cbn [find_exact]; [constructor|].
  assert (Hskip : ~ (ve_wildcard e = false /\ serves e name) ->
            match find_exact es (name ++ tail) (length name) with
            | Some r => exists e0, first_with (fun e => ve_wildcard e = false /\ serves e name) (e :: es) e0 /\ ve_router e0 = r
            | None => Forall (fun e => ~ (ve_wildcard e = false /\ serves e name)) (e :: es)
            end).
  { intros Hno. destruct (find_exact es _ _); [|by constructor].
    destruct IH as (e0 & (a & b & -> & Hs & Ha) & <-). exists e0. split; [|done]. exists (e :: a), b. split; [done|]. split; [done|]. by constructor. }
  destruct (ve_wildcard e) eqn:Ew; [apply Hskip; by intros [? _]|].
  destruct (_ && _) eqn:Em.
  - exists e. split; [|done]. exists [], es. split; [done|]. split; [|constructor]. split; [done|]. by eapply exact_serves.
  - apply Hskip. intros [_ Hs]. rewrite <- exact_serves in Hs by done. congruence.
Qed.

Lemma find_wildcard_spec es name tail :
  names_plain es -> NUL ∉ name ++ tail ->
  match find_wildcard es (name ++ tail) (length name) with
  | Some r => exists e, first_with (fun e => ve_wildcard e = true /\ serves e name) es e /\ ve_router e = r
  | None => Forall (fun e => ~ (ve_wildcard e = true /\ serves e name)) es
  end.
Proof.
  intros Hp Hn. induction Hp as [|e es He Hp IH]; cbn [find_wildcard]; [constructor|].
  assert (Hskip : ~ (ve_wildcard e = true /\ serves e name) ->
            match find_wildcard es (name ++ tail) (length name) with
            | Some r => exists e0, first_with (fun e => ve_wildcard e = true /\ serves e name) (e :: es) e0 /\ ve_router e0 = r
            | None => Forall (fun e => ~ (ve_wildcard e = true /\ serves e name)) (e :: es)
            end).
  { intros Hno. destruct (find_wildcard es _ _); [|by constructor].
    destruct IH as (e0 & (a & b & -> & Hs & Ha) & <-). exists e0. split; [|done]. exists (e :: a), b. split; [done|]. split; [done|]. by constructor. }
  destruct (ve_wildcard e) eqn:Ew; cbn [negb]; [|apply Hskip; by intros [? _]].
  destruct (wildcard_match _ _ _) eqn:Em.
  - exists e. split; [|done]. exists [], es. split; [done|]. split; [|constructor]. split; [done|]. by eapply wildcard_serves.
  - apply Hskip. intros [_ Hs]. rewrite <- wildcard_serves in Hs by done. congruence.
Qed.

(** The host chooses the router.  For a host name, with or without a port and
    in any case, the request is dispatched by the first entry registered for exactly
    that name, also when a wildcard entry was registered before it; without one, by the first wildcard
    entry whose pattern after the star ends the name and leaves something in front; without
    one, by the default router; and without that it is not found. *)
Theorem vhost_dispatch_spec v m name port path :
  names_plain (v_entries v) -> name <> [] -> head name <> Some "["%byte -> ":"%byte ∉ name ->
  (forall p, port = Some p -> ":"%byte ∉ p) -> NUL ∉ with_port name port -> length (with_port name port) < HOST_SIZE ->
  exists r, ioh_vhost_dispatch (Some v) m (Some (with_port name port)) path
            = match r with Some r => ioh_router_dispatch (Some r) m path | None => not_found end
  /\ ((exists e, first_with (fun e => ve_wildcard e = false /\ serves e name) (v_entries v) e /\ r = Some (ve_router e))
      \/ (Forall (fun e => ~ (ve_wildcard e = false /\ serves e name)) (v_entries v)
          /\ ((exists e, first_with (fun e => ve_wildcard e = true /\ serves e name) (v_entries v) e /\ r = Some (ve_router e))
              \/ (Forall (fun e => ~ (ve_wildcard e = true /\ serves e name)) (v_entries v) /\ r = v_default v)))).
Proof.
  intros Hp Hne Hb Hc Hpc Hn Hlen. unfold ioh_vhost_dispatch.
  assert (Hl : strnlen (with_port name port) HOST_SIZE = length (with_port name port)).
  { unfold strnlen, strlen. rewrite c_str_plain by done. lia. }
  rewrite Hl, strip_port_name by done. unfold with_port in *.
  pose proof (find_exact_spec (v_entries v) name _ Hp Hn) as He. destruct (find_exact _ _ _) as [r|].
  { destruct He as (e & Hf & <-). exists (Some (ve_router e)). split; [done|]. left. by exists e. }
  pose proof (find_wildcard_spec (v_entries v) name _ Hp Hn) as Hw. destruct (find_wildcard _ _ _) as [r|].
  { destruct Hw as (e & Hf & <-). exists (Some (ve_router e)). split; [done|]. right. split; [done|]. left. by exists e. }
  exists (v_default v). split; [done|]. right. split; [done|]. by right.
Qed.
End Vhost.

(** ** Witness *)

(** Routers that are told apart by the handler of the path "/". *)
Definition router_for (x : nat) : demo_router := add_demo router0 IOH_METHOD_GET (bs "/") x.

Definition demo_vhost : ioh_vhost :=
  mk_vhost [mk_entry (bs "*.example.com") true (router_for 1); mk_entry (bs "api.example.com") false (router_for 2)] None.

Lemma vhost_dispatch_spec_witness :
  rm_handler (ioh_vhost_dispatch (Some demo_vhost) IOH_METHOD_GET (Some (bs "API.example.com:8080")) (Some (bs "/"))) = Some 2.
Proof.
  destruct (vhost_dispatch_spec demo_vhost IOH_METHOD_GET (bs "API.example.com") (Some (bs "8080")) (Some (bs "/")))
    as (r & E & Hr).
  - repeat constructor; bcompute.
  - discriminate.
  - discriminate.
  - bcompute.
  - intros p [= <-]. bcompute.
  - bcompute.
  - vm_compute. lia.
  - change (with_port (bs "API.example.com") (Some (bs "8080"))) with (bs "API.example.com:8080") in E. rewrite E.
    destruct Hr as [(e & (a & b & Ee & [Hw _] & _) & ->)|[Hno _]].
    + destruct a as [|a0 [|a1 a]].
      * injection Ee as <- _. discriminate Hw.
      * injection Ee as _ <- _. vm_compute. reflexivity.
      * apply (f_equal length) in Ee. simpl in Ee. rewrite length_app in Ee. simpl in Ee. lia.
    + exfalso. rewrite Forall_forall in Hno. apply (Hno (mk_entry (bs "api.example.com") false (router_for 2))).
      * apply elem_of_cons. right. by apply list_elem_of_singleton.
      * split; [reflexivity|]. vm_compute. reflexivity.
Defined.
