(* ===== verification/Proxy.v ===== *)
(** The PROXY protocol decoder ([src/src/http/ioh_proxy_proto.h],
    [ioh_proxy_proto.c]), version 1 (text) and version 2 (binary).

    [inet_pton] of the C library is a parameter: it takes the address family and
    the text and returns the address bytes. *)
From S2P Require Import Prelude CString.

(** ** Data *)

Definition IOH_PROXY_V2_SIG : bytes :=
  [x0d; x0a; x0d; x0a; x00; x0d; x0a; x51; x55; x49; x54; x0a].
Definition IOH_PROXY_V1_MAX_LEN : nat := 108.
Definition IOH_PROXY_V2_MIN_LEN : nat := 16.
Definition INET6_ADDRSTRLEN : nat := 46.

Definition AF_INET : Z := 2.
Definition AF_INET6 : Z := 10.

(** A socket address: the port and the address in network byte order. *)
Record sockaddr := mk_sockaddr {
  sa_family : Z;
  sa_port : bytes;
  sa_addr : bytes;
}.

Definition no_addr : sockaddr := mk_sockaddr 0 [] [].

Record ioh_proxy_result_t := mk_proxy_result {
  version : Z;
  is_local : bool;
  family : Z;
  src_addr : sockaddr;
  dst_addr : sockaddr;
}.

(** ** Version 1 *)

(** The offset of the first CRLF that ends within the first [limit] bytes. *)
Fixpoint find_crlf_at (buf : bytes) (limit i : nat) : option nat :=
  match buf with
  | a :: ((b :: _) as buf') =>
      if i + 1 <? limit
      then if (a =b CR) && (b =b LF) then Some i else find_crlf_at buf' limit (S i)
      else None
  | _ => None
  end.

Definition find_crlf (buf : bytes) (max_len : nat) : option nat :=
  find_crlf_at buf (Nat.min (length buf) max_len) 0.

(** The digits of a port, accumulated in an [unsigned int]. *)
Fixpoint port_loop (p : bytes) (acc : Z) : option Z :=
  match p with
  | [] => Some acc
  | b :: p => if is_digit b then port_loop p (u32 (acc * 10 + digit_val b)) else None
  end.

Definition byte_of (z : Z) : byte := default x00 (Byte.of_N (Z.to_N (z mod 256))).

(** [htons], as the bytes in memory. *)
Definition htons (p : Z) : bytes := [byte_of (p / 256); byte_of p].

Section Proxy.
Context (inet_pton : Z -> bytes -> option bytes).

(** The token before the next blank, which must fit an address buffer. *)
Definition address_token (pos : bytes) : option (bytes * bytes) :=
  match strchr pos SP with
  | None => None
  | Some i => if INET6_ADDRSTRLEN <=? i then None else Some (take i pos, drop (i + 1) pos)
  end.

Definition v1_addr (af : Z) (ip : bytes) (port : Z) : option sockaddr :=
  match inet_pton af ip with
  | Some a => Some (mk_sockaddr af (htons port) a)
  | None => None
  end.

(** The result is meaningful when the call succeeds; the number is the count of
    bytes consumed. *)
Definition decode_v1 (buf : bytes) : res (nat * ioh_proxy_result_t) :=
  if length buf <? 6 then Err EAGAIN else
  match find_crlf buf IOH_PROXY_V1_MAX_LEN with
  | None => if IOH_PROXY_V1_MAX_LEN <=? length buf then Err EINVAL else Err EAGAIN
  | Some line_len =>
      let total_consumed := line_len + 2 in
      let line := take line_len buf in
      let pos := drop 6 line in
      if strncmp_eq pos (bs "UNKNOWN") 7
      then Ok (total_consumed, mk_proxy_result 1 true 0 no_addr no_addr) else
      let is_tcp4 := strncmp_eq pos (bs "TCP4 ") 5 in
      let is_tcp6 := strncmp_eq pos (bs "TCP6 ") 5 in
      if negb is_tcp4 && negb is_tcp6 then Err EINVAL else
      let pos := drop 5 pos in
      match address_token pos with
      | None => Err EINVAL
      | Some (src_ip, pos) =>
      match address_token pos with
      | None => Err EINVAL
      | Some (dst_ip, pos) =>
      match strchr pos SP with
      | None => Err EINVAL
      | Some i =>
      match port_loop (take i pos) 0 with
      | None => Err EINVAL
      | Some src_port =>
      match port_loop (c_str (drop (i + 1) pos)) 0 with
      | None => Err EINVAL
      | Some dst_port =>
          if ((65535 <? src_port) || (65535 <? dst_port))%Z then Err EINVAL else
          let af := if is_tcp4 then AF_INET else AF_INET6 in
          match v1_addr af src_ip src_port with
          | None => Err EINVAL
          | Some src =>
              match v1_addr af dst_ip dst_port with
              | None => Err EINVAL
              | Some dst => Ok (total_consumed, mk_proxy_result 1 false af src dst)
              end
          end
      end end end end end
  end.

(** ** Version 2 *)

Definition byte_at (buf : bytes) (i : nat) : Z := b2z (default x00 (buf !! i)).
Definition slice (buf : bytes) (i n : nat) : bytes := take n (drop i buf).

Definition decode_v2 (buf : bytes) : res (nat * ioh_proxy_result_t) :=
  if length buf <? IOH_PROXY_V2_MIN_LEN then Err EAGAIN else
  if negb (memcmp_eq buf IOH_PROXY_V2_SIG 12) then Err EINVAL else
  let ver_cmd := byte_at buf 12 in
  let fam_proto := byte_at buf 13 in
  if negb (Z.shiftr ver_cmd 4 =? 2)%Z then Err EINVAL else
  let command := Z.land ver_cmd 15 in
  if (1 <? command)%Z then Err EINVAL else
  let addr_len := Z.to_nat (Z.lor (Z.shiftl (byte_at buf 14) 8) (byte_at buf 15)) in
  let total := IOH_PROXY_V2_MIN_LEN + addr_len in
  if length buf <? total then Err EAGAIN else
  if (command =? 0)%Z then Ok (total, mk_proxy_result 2 true 0 no_addr no_addr) else
  let fam := Z.land (Z.shiftr fam_proto 4) 15 in
  let addrs := drop IOH_PROXY_V2_MIN_LEN buf in
  if (fam =? 1)%Z then
    if addr_len <? 12 then Err EINVAL else
    Ok (total, mk_proxy_result 2 false AF_INET
                 (mk_sockaddr AF_INET (slice addrs 8 2) (slice addrs 0 4))
                 (mk_sockaddr AF_INET (slice addrs 10 2) (slice addrs 4 4)))
  else if (fam =? 2)%Z then
    if addr_len <? 36 then Err EINVAL else
    Ok (total, mk_proxy_result 2 false AF_INET6
                 (mk_sockaddr AF_INET6 (slice addrs 32 2) (slice addrs 0 16))
                 (mk_sockaddr AF_INET6 (slice addrs 34 2) (slice addrs 16 16)))
  else Ok (total, mk_proxy_result 2 true 0 no_addr no_addr).

(** ** Public entry *)

Definition ioh_proxy_decode (buf : option bytes) : res (nat * ioh_proxy_result_t) :=
  match buf with
  | None => Err EINVAL
  | Some buf =>
      if length buf =? 0 then Err EAGAIN else
      if (12 <=? length buf) && memcmp_eq buf IOH_PROXY_V2_SIG 12 then decode_v2 buf else
      if (6 <=? length buf) && memcmp_eq buf (bs "PROXY ") 6 then decode_v1 buf else
      if length buf <? 6 then Err EAGAIN else Err ENOSPC
  end.

(** ** Specification vocabulary *)

(** A version-2 header for the PROXY command over a stream: addresses, ports in
    network order, and any trailing type-length-value fields. *)
Definition encode_v2 (v6 : bool) (src dst sport dport tlvs : bytes) : bytes :=
  let n := Z.of_nat (length (src ++ dst ++ sport ++ dport ++ tlvs)) in
  IOH_PROXY_V2_SIG ++ [x21; if v6 then x21 else x11; byte_of (n / 256); byte_of n]
  ++ src ++ dst ++ sport ++ dport ++ tlvs.

(** A version-1 line. *)
Definition v1_line (proto src dst sport dport : bytes) : bytes :=
  bs "PROXY " ++ proto ++ SP :: src ++ SP :: dst ++ SP :: sport ++ SP :: dport ++ [CR; LF].

End Proxy.
