(* ===== verification/ProxyThms.v ===== *)
(** Theorems on the PROXY protocol decoder: round trips of both versions, stability
    under more input, and the behaviour on fragments. *)
From S2P Require Import Prelude CString Proxy.

(** ** Bytes and numbers *)

Lemma byte_of_val z : b2z (byte_of z) = (z mod 256)%Z.
Proof.
  unfold byte_of, b2z. pose proof (Z.mod_pos_bound z 256 ltac:(lia)) as Hz.
  destruct (Byte.of_N (Z.to_N (z mod 256))) as [b|] eqn:E; simpl.
  - apply Byte.to_of_N in E. rewrite E. lia.
  - apply Byte.of_N_None_iff in E. lia.
Qed.

Lemma lor_shift8 a b : (0 <= b < 256)%Z -> Z.lor (Z.shiftl a 8) b = (a * 256 + b)%Z.
Proof.
  intros Hb. rewrite <- Z.add_nocarry_lor; [by rewrite Z.shiftl_mul_pow2 by lia|].
  apply Z.bits_inj'. intros n Hn. rewrite Z.land_spec, Z.bits_0.
  destruct (Z.lt_ge_cases n 8).
  - by rewrite Z.shiftl_spec_low.
  - replace (Z.testbit b n) with false; [by rewrite andb_false_r|].
    symmetry. destruct (decide (b = 0%Z)) as [->|]; [apply Z.bits_0|].
    apply Z.bits_above_log2; [lia|]. assert (Z.log2 b < 8)%Z; [apply Z.log2_lt_pow2; lia|lia].
Qed.

(** A 16-bit number written high byte first reads back. *)
Lemma be16_read n :
  (0 <= n < 65536)%Z -> Z.lor (Z.shiftl (b2z (byte_of (n / 256))) 8) (b2z (byte_of n)) = n.
Proof.
  intros Hn. rewrite lor_shift8 by apply b2z_range. rewrite !byte_of_val.
  rewrite (Z.mod_small (n / 256)); [pose proof (Z.div_mod n 256); lia|].
  split; [apply Z.div_pos; lia|apply Z.div_lt_upper_bound; lia].
Qed.

(** Digits accumulated modulo 2^32. *)
Lemma port_loop_digits p acc :
  Forall (fun b => is_digit b = true) p -> port_loop p (u32 acc) = Some (u32 (dec_val acc p)).
Proof.
  intros Hp. revert acc. induction Hp as [|b p Hb Hp IH]; intros acc; simpl; [done|].
  rewrite Hb. rewrite <- IH. f_equal. unfold u32.
  rewrite <- (Z.add_mod_idemp_l (acc mod 2 ^ 32 * 10)) by lia.
  rewrite Z.mul_mod_idemp_l by lia. by rewrite Z.add_mod_idemp_l by lia.
Qed.

(** ** Texts *)

Lemma memchr_cut (a p : bytes) c n :
  c ∉ a -> length a < n -> memchr (a ++ c :: p) c n = Some (length a).
Proof.
  revert n. induction a as [|b a IH]; intros [|n] Hn Hl; simpl in *; try lia; [by rewrite beq_refl|].
  destruct (b =b c) eqn:E; [apply beq_true in E; set_solver|]. rewrite IH; [done|set_solver|lia].
Qed.

Definition plain (s : bytes) : Prop := Forall (fun b => b ∉ [NUL; SP; CR; LF]) s.

Lemma plain_not b s : plain s -> b ∈ [NUL; SP; CR; LF] -> b ∉ s.
Proof. intros Hs Hb Hin. unfold plain in Hs. rewrite Forall_forall in Hs. by apply (Hs b). Qed.

Lemma not_nul_not_in s : NUL ∉ s -> Forall (fun b => not_nul b = true) s.
Proof.
  intros Hn. apply Forall_forall. intros b Hb. unfold not_nul.
  destruct (b =b NUL) eqn:E; [|done]. apply beq_true in E. by subst.
Qed.

Lemma strchr_sp (a p : bytes) : plain a -> NUL ∉ p -> strchr (a ++ SP :: p) SP = Some (length a).
Proof.
  intros Ha Hp. unfold strchr, strlen. rewrite c_str_id.
  - apply memchr_cut; [by eapply plain_not; [|bcompute]|]. rewrite length_app. simpl. lia.
  - apply not_nul_not_in. rewrite elem_of_app, elem_of_cons.
    intros [Hx|[Hx|Hx]]; [|done|done]. revert Hx. by eapply plain_not; [|bcompute].
Qed.

Lemma address_token_spec (a p : bytes) :
  plain a -> NUL ∉ p -> length a < INET6_ADDRSTRLEN -> address_token (a ++ SP :: p) = Some (a, p).
Proof.
  intros Ha Hp Hl. unfold address_token. rewrite strchr_sp by done.
  test_false (INET6_ADDRSTRLEN <=? length a).
  rewrite take_app_length. do 2 f_equal.
  change (SP :: p) with ([SP] ++ p). rewrite app_assoc. apply drop_app_length'. by rewrite length_app.
Qed.

Lemma find_crlf_cons a b r limit i :
  find_crlf_at (a :: b :: r) limit i =
  if i + 1 <? limit
  then if (a =b CR) && (b =b LF) then Some i else find_crlf_at (b :: r) limit (S i)
  else None.
Proof. reflexivity. Qed.

Lemma find_crlf_spec (l rest : bytes) limit i :
  CR ∉ l -> i + length l + 1 < limit ->
  find_crlf_at (l ++ CR :: LF :: rest) limit i = Some (i + length l).
Proof.
  revert i. induction l as [|a l IH]; intros i Hl Hlim.
  - cbn [app]. rewrite find_crlf_cons. simpl in Hlim.
    replace (i + 1 <? limit) with true by (symmetry; apply Nat.ltb_lt; lia). rewrite !beq_refl. simpl.
    f_equal. lia.
  - simpl in Hlim. cbn [app]. destruct (l ++ CR :: LF :: rest) as [|b r] eqn:E; [by destruct l|].
    rewrite find_crlf_cons. replace (i + 1 <? limit) with true by (symmetry; apply Nat.ltb_lt; lia).
    replace (a =b CR) with false by (symmetry; apply beq_false; set_solver). cbn [andb].
    rewrite IH by (set_solver || lia). f_equal. simpl. lia.
Qed.

(** A CRLF that was found is found at the same place when more bytes follow. *)
Lemma find_crlf_more buf limit limit' i j more :
  find_crlf_at buf limit i = Some j -> limit ≤ limit' ->
  find_crlf_at (buf ++ more) limit' i = Some j.
Proof.
  revert i. induction buf as [|a buf IH]; intros i; [done|]. destruct buf as [|b buf]; [done|].
  cbn [app]. rewrite !find_crlf_cons. destruct (i + 1 <? limit) eqn:E; [|done]. bprop. intros Hf Hl.
  replace (i + 1 <? limit') with true by (symmetry; apply Nat.ltb_lt; lia).
  destruct ((a =b CR) && (b =b LF)); [done|]. by apply IH.
Qed.

Lemma find_crlf_bound buf limit i j :
  find_crlf_at buf limit i = Some j -> limit ≤ i + length buf -> j + 1 < limit /\ i ≤ j.
Proof.
  revert i. induction buf as [|a buf IH]; intros i; [done|]. destruct buf as [|b buf]; [done|].
  rewrite find_crlf_cons. destruct (i + 1 <? limit) eqn:E; [|done]. bprop. intros Hf Hl.
  destruct ((a =b CR) && (b =b LF)); [injection Hf as <-; lia|].
  apply IH in Hf; [lia|]. simpl in *. lia.
Qed.

Section Thms.
Context (inet_pton : Z -> bytes -> option bytes).

Lemma decode_v2_more buf more n r :
  decode_v2 buf = Ok (n, r) -> decode_v2 (buf ++ more) = Ok (n, r) /\ 0 < n ≤ length buf.
Proof.
  unfold decode_v2. destruct (length buf <? IOH_PROXY_V2_MIN_LEN) eqn:El; [done|]. bprop.
  unfold IOH_PROXY_V2_MIN_LEN in *.
  replace (length (buf ++ more) <? 16) with false by (symmetry; apply Nat.ltb_ge; rewrite length_app; lia).
  assert (Hm : memcmp_eq (buf ++ more) IOH_PROXY_V2_SIG 12 = memcmp_eq buf IOH_PROXY_V2_SIG 12).
  { unfold memcmp_eq. by rewrite take_app_le by lia. }
  assert (Hb : forall i, i < 16 -> byte_at (buf ++ more) i = byte_at buf i).
  { intros i Hi. unfold byte_at. by rewrite lookup_app_l by lia. }
  rewrite Hm, !Hb by lia. destruct (memcmp_eq buf _ 12); [|done]. cbn [negb].
  destruct (_ =? 2)%Z; [|done]. cbn [negb]. destruct (1 <? _)%Z; [done|].
  set (al := Z.to_nat (Z.lor _ _)).
  destruct (length buf <? 16 + al) eqn:Et; [done|]. bprop.
  replace (length (buf ++ more) <? 16 + al) with false by (symmetry; apply Nat.ltb_ge; rewrite length_app; lia).
  assert (Hs : forall i k, i + k ≤ al -> slice (drop 16 (buf ++ more)) i k = slice (drop 16 buf) i k).
  { intros i k Hik. unfold slice. rewrite !drop_drop.
    rewrite drop_app_le by lia. rewrite take_app_le by (rewrite length_drop; lia). done. }
  intros Hd. split; [|repeat brk_in Hd; simplify_eq; lia].
  destruct (_ =? 0)%Z; [done|]. destruct (_ =? 1)%Z.
  - destruct (al <? 12) eqn:E12; [done|]. bprop. by rewrite !Hs by lia.
  - destruct (_ =? 2)%Z; [|done]. destruct (al <? 36) eqn:E36; [done|]. bprop. by rewrite !Hs by lia.
Qed.

Lemma decode_v1_more buf more n r :
  decode_v1 inet_pton buf = Ok (n, r) ->
  decode_v1 inet_pton (buf ++ more) = Ok (n, r) /\ 0 < n ≤ length buf.
Proof.
  unfold decode_v1. destruct (length buf <? 6) eqn:El; [done|]. bprop.
  replace (length (buf ++ more) <? 6) with false by (symmetry; apply Nat.ltb_ge; rewrite length_app; lia).
  destruct (find_crlf buf IOH_PROXY_V1_MAX_LEN) as [j|] eqn:Ef; [|by destruct (_ <=? _)].
  unfold find_crlf in *. pose proof Ef as Hb. apply find_crlf_bound in Hb; [|lia].
  rewrite (find_crlf_more _ _ _ _ _ more Ef) by llia.
  assert (Ht : take j (buf ++ more) = take j buf) by (apply take_app_le; lia). rewrite Ht.
  intros Hd. split; [done|]. repeat brk_in Hd; simplify_eq; lia.
Qed.

(** What a decoded header takes. *)
Lemma proxy_decode_bound buf n r : ioh_proxy_decode inet_pton (Some buf) = Ok (n, r) -> 0 < n ≤ length buf.
Proof.
  unfold ioh_proxy_decode. destruct (_ =? 0); [done|]. destruct (_ && _); [|destruct (_ && _); [|by destruct (_ <? _)]].
  - intros Hd. by destruct (decode_v2_more _ [] _ _ Hd).
  - intros Hd. by destruct (decode_v1_more _ [] _ _ Hd).
Qed.

(** ** The properties *)

(** A decoded header is final.  When decoding succeeds it consumes at least
    one and at most all bytes given, and decoding the same bytes followed by
    anything gives the same result: what was decoded does not depend on how much
    of the following request has already arrived. *)
Theorem proxy_decode_stable buf more n r :
  ioh_proxy_decode inet_pton (Some buf) = Ok (n, r) ->
  0 < n ≤ length buf /\ ioh_proxy_decode inet_pton (Some (buf ++ more)) = Ok (n, r).
Proof.
  unfold ioh_proxy_decode. destruct (length buf =? 0) eqn:E0; [done|]. bprop.
  replace (length (buf ++ more) =? 0) with false by (symmetry; apply Nat.eqb_neq; rewrite length_app; lia).
  assert (Hm : forall k s, k ≤ length buf -> memcmp_eq (buf ++ more) s k = memcmp_eq buf s k).
  { intros k s Hk. unfold memcmp_eq. by rewrite take_app_le by lia. }
  assert (Hle : forall k, (k <=? length buf) = true -> (k <=? length (buf ++ more)) = true).
  { intros k Hk. bprop. apply Nat.leb_le. rewrite length_app. lia. }
  destruct ((12 <=? length buf) && memcmp_eq buf IOH_PROXY_V2_SIG 12) eqn:E2.
  { bprop. intros Hd. rewrite Hle by by apply Nat.leb_le. rewrite Hm by done.
    rename select (memcmp_eq _ _ 12 = true) into Hsig. rewrite Hsig. simpl andb. cbv iota.
    by destruct (decode_v2_more _ more _ _ Hd). }
  destruct ((6 <=? length buf) && memcmp_eq buf (bs "PROXY ") 6) eqn:E1; [|by destruct (_ <? _)].
  bprop. intros Hd.
  assert (Hno : (12 <=? length (buf ++ more)) && memcmp_eq (buf ++ more) IOH_PROXY_V2_SIG 12 = false).
  { apply andb_false_iff. right. unfold memcmp_eq. apply not_true_is_false. intros Hx. bprop.
    apply (f_equal (take 6)) in Hx. rewrite !take_take in Hx.
    rename select (memcmp_eq buf (bs "PROXY ") 6 = true) into Hp. unfold memcmp_eq in Hp. bprop.
    change (Nat.min 6 12) with 6 in Hx. rewrite take_app_le in Hx by lia. rewrite Hp in Hx.
    by vm_compute in Hx. }
  rewrite Hno. rewrite Hle by by apply Nat.leb_le. rewrite Hm by done.
  rename select (memcmp_eq _ _ 6 = true) into Hsig. rewrite Hsig. simpl andb. cbv iota.
  by destruct (decode_v1_more _ more _ _ Hd).
Qed.

Lemma slice_app (a b c : bytes) i k : i = length a -> k = length b -> slice (a ++ b ++ c) i k = b.
Proof. intros -> ->. unfold slice. by rewrite drop_app_length, take_app_length. Qed.

Lemma v2_slices (src dst sport dport tail : bytes) n :
  length src = n -> length dst = n -> length sport = 2 -> length dport = 2 ->
  let b := src ++ dst ++ sport ++ dport ++ tail in
  slice b 0 n = src /\ slice b n n = dst /\ slice b (2 * n) 2 = sport /\ slice b (2 * n + 2) 2 = dport.
Proof.
  intros H1 H2 H3 H4. split_and!.
  - by apply (slice_app []).
  - by apply slice_app.
  - rewrite app_assoc. apply slice_app; [rewrite length_app; lia|done].
  - rewrite app_assoc, (app_assoc _ sport). apply slice_app; [rewrite !length_app; lia|done].
Qed.

(** C40: version-2 headers round-trip.  For both address families, any addresses,
    ports and trailing fields (total below 2^16), decoding the encoded header
    followed by any bytes consumes exactly the header and returns exactly the
    addresses and ports, the ports in network byte order. *)
Theorem proxy_v2_roundtrip (v6 : bool) src dst sport dport tlvs rest :
  length src = (if v6 then 16 else 4) -> length dst = (if v6 then 16 else 4) ->
  length sport = 2 -> length dport = 2 ->
  (Z.of_nat (length (src ++ dst ++ sport ++ dport ++ tlvs)) < 65536)%Z ->
  let af := if v6 then AF_INET6 else AF_INET in
  ioh_proxy_decode inet_pton (Some (encode_v2 v6 src dst sport dport tlvs ++ rest)) =
    Ok (length (encode_v2 v6 src dst sport dport tlvs),
        mk_proxy_result 2 false af (mk_sockaddr af sport src) (mk_sockaddr af dport dst)).
Proof.
  intros Hs Hd Hsp Hdp Hn. unfold encode_v2.
  set (body := src ++ dst ++ sport ++ dport ++ tlvs) in *.
  assert (Hbody : length body = 2 * length src + 4 + length tlvs).
  { unfold body. rewrite !length_app. lia. }
  set (n := Z.of_nat (length body)) in *.
  pose proof (be16_read n ltac:(lia)) as Hrd.
  pose proof (v2_slices src dst sport dport (tlvs ++ rest) (length src)) as Hsl.
  replace (src ++ dst ++ sport ++ dport ++ tlvs ++ rest) with (body ++ rest) in Hsl
    by (unfold body; by rewrite <- !app_assoc).
  destruct Hsl as (S1 & S2 & S3 & S4); try lia.
  set (hdr := IOH_PROXY_V2_SIG ++ [x21; if v6 then x21 else x11; byte_of (n / 256); byte_of n]).
  assert (Hbuf : (IOH_PROXY_V2_SIG ++ [x21; if v6 then x21 else x11; byte_of (n / 256); byte_of n] ++ body)
                 ++ rest = hdr ++ body ++ rest) by (unfold hdr; by rewrite <- !app_assoc).
  rewrite Hbuf. unfold ioh_proxy_decode.
  assert (Hlen : length (hdr ++ body ++ rest) = 16 + length body + length rest).
  { rewrite !length_app. done. }
  rewrite Hlen. change (memcmp_eq (hdr ++ body ++ rest) IOH_PROXY_V2_SIG 12) with true.
  replace (16 + length body + length rest =? 0) with false by done.
  replace (12 <=? 16 + length body + length rest) with true by done. cbn [andb].
  unfold decode_v2. rewrite Hlen. change (memcmp_eq (hdr ++ body ++ rest) IOH_PROXY_V2_SIG 12) with true.
  change (byte_at (hdr ++ body ++ rest) 12) with 33%Z.
  change (byte_at (hdr ++ body ++ rest) 14) with (b2z (byte_of (n / 256))).
  change (byte_at (hdr ++ body ++ rest) 15) with (b2z (byte_of n)).
  change (drop IOH_PROXY_V2_MIN_LEN (hdr ++ body ++ rest)) with (body ++ rest).
  rewrite Hrd. unfold n, IOH_PROXY_V2_MIN_LEN. rewrite Nat2Z.id.
  test_false (16 + length body + length rest <? 16).
  test_false (16 + length body + length rest <? 16 + length body).
  change (negb true) with false. change (negb (Z.shiftr 33 4 =? 2)%Z) with false.
  change (1 <? Z.land 33 15)%Z with false. change (Z.land 33 15 =? 0)%Z with false. cbv iota.
  assert (Hres : length (IOH_PROXY_V2_SIG ++ [x21; if v6 then x21 else x11; byte_of (Z.of_nat (length body) / 256);
            byte_of (Z.of_nat (length body))] ++ body) = 16 + length body) by by rewrite !length_app.
  rewrite Hres. destruct v6.
  - change (byte_at (hdr ++ body ++ rest) 13) with 33%Z.
    change (Z.land (Z.shiftr 33 4) 15 =? 1)%Z with false. change (Z.land (Z.shiftr 33 4) 15 =? 2)%Z with true.
    cbv iota. test_false (length body <? 36).
    rewrite Hs in S1, S2, S3, S4. simpl in S3, S4. by rewrite S1, S2, S3, S4.
  - change (byte_at (hdr ++ body ++ rest) 13) with 17%Z.
    change (Z.land (Z.shiftr 17 4) 15 =? 1)%Z with true.
    cbv iota. test_false (length body <? 12).
    rewrite Hs in S1, S2, S3, S4. simpl in S3, S4. by rewrite S1, S2, S3, S4.
Qed.

Lemma digits_plain s : Forall (fun x => is_digit x = true) s -> plain s.
Proof.
  intros Hs. eapply Forall_impl; [exact Hs|]. intros b Hb Hin.
  assert (Hall : forall x, x ∈ [NUL; SP; CR; LF] -> is_digit x = false).
  { intros x Hx. repeat (apply elem_of_cons in Hx as [->|Hx]; [done|]). by apply not_elem_of_nil in Hx. }
  specialize (Hall b Hin). simpl in Hb. congruence.
Qed.

Lemma plain_sp_app bad (a b : bytes) : bad ∈ [NUL; CR; LF] -> plain a -> bad ∉ b -> bad ∉ a ++ SP :: b.
Proof.
  intros Hbad Ha Hb. rewrite elem_of_app, elem_of_cons. intros [Hx|[Hx|Hx]]; [| |done].
  - revert Hx. eapply plain_not; [done|]. set_solver.
  - subst. revert Hbad. bcompute.
Qed.

(** The fields after the protocol name. *)
Lemma v1_fields (src dst sport dport : bytes) :
  let core := src ++ SP :: dst ++ SP :: sport ++ SP :: dport in
  plain src -> plain dst -> length src < INET6_ADDRSTRLEN -> length dst < INET6_ADDRSTRLEN ->
  Forall (fun x => is_digit x = true) sport -> Forall (fun x => is_digit x = true) dport ->
  address_token core = Some (src, dst ++ SP :: sport ++ SP :: dport)
  /\ address_token (dst ++ SP :: sport ++ SP :: dport) = Some (dst, sport ++ SP :: dport)
  /\ strchr (sport ++ SP :: dport) SP = Some (length sport)
  /\ take (length sport) (sport ++ SP :: dport) = sport
  /\ c_str (drop (length sport + 1) (sport ++ SP :: dport)) = dport
  /\ (NUL ∉ core) /\ CR ∉ core.
Proof.
  intros core Hs Hd Hls Hld Hsp Hdp.
  assert (Psp : plain sport) by by apply digits_plain.
  assert (Pdp : plain dport) by by apply digits_plain.
  assert (Hn : forall x, x ∈ [NUL; CR; LF] -> x ∉ dport /\ x ∉ sport ++ SP :: dport
                 /\ x ∉ dst ++ SP :: sport ++ SP :: dport /\ x ∉ core).
  { intros x Hx. assert (H0 : x ∉ dport) by (eapply plain_not; [done|set_solver]).
    assert (H1 : x ∉ sport ++ SP :: dport) by by apply plain_sp_app.
    assert (H2 : x ∉ dst ++ SP :: sport ++ SP :: dport) by by apply plain_sp_app.
    split_and!; try done. by apply plain_sp_app. }
  destruct (Hn NUL ltac:(bcompute)) as (N0 & N1 & N2 & N3).
  destruct (Hn CR ltac:(bcompute)) as (_ & _ & _ & C3).
  split_and!; try done.
  - by apply address_token_spec.
  - by apply address_token_spec.
  - by apply strchr_sp.
  - by rewrite take_app_length.
  - change (SP :: dport) with ([SP] ++ dport). rewrite app_assoc, drop_app_length' by by rewrite length_app.
    by apply c_str_id, not_nul_not_in.
Qed.

(** The text of a version-1 line after the protocol word. *)
Definition v1_core (src dst sport dport : bytes) : bytes := src ++ SP :: dst ++ SP :: sport ++ SP :: dport.
Definition v1_prefix (v6 : bool) : bytes := if v6 then bs "PROXY TCP6 " else bs "PROXY TCP4 ".

Lemma v1_line_split (v6 : bool) src dst sport dport :
  v1_line (if v6 then bs "TCP6" else bs "TCP4") src dst sport dport
  = (v1_prefix v6 ++ v1_core src dst sport dport) ++ [CR; LF].
Proof. unfold v1_line, v1_prefix, v1_core. by destruct v6; simpl; repeat (rewrite <- app_assoc; simpl). Qed.

(** Input that starts with a version-1 prefix goes to the version-1 decoder. *)
Lemma decode_is_v1 (v6 : bool) tail :
  ioh_proxy_decode inet_pton (Some (v1_prefix v6 ++ tail)) = decode_v1 inet_pton (v1_prefix v6 ++ tail).
Proof.
  unfold ioh_proxy_decode.
  replace (length (v1_prefix v6 ++ tail) =? 0) with false by by destruct v6.
  assert (Hsig : memcmp_eq (v1_prefix v6 ++ tail) IOH_PROXY_V2_SIG 12 = false).
  { unfold memcmp_eq. apply bool_decide_eq_false. by destruct v6. }
  assert (Hpx : memcmp_eq (v1_prefix v6 ++ tail) (bs "PROXY ") 6 = true) by by destruct v6.
  rewrite Hsig, andb_false_r, Hpx.
  by replace (6 <=? length (v1_prefix v6 ++ tail)) with true by by destruct v6.
Qed.

(** What the decoder reads before the addresses. *)
Lemma v1_words (v6 : bool) core :
  NUL ∉ core ->
  let pos := drop 6 (v1_prefix v6 ++ core) in
  strncmp_eq pos (bs "UNKNOWN") 7 = false /\ strncmp_eq pos (bs "TCP4 ") 5 = negb v6
  /\ strncmp_eq pos (bs "TCP6 ") 5 = v6 /\ drop 5 pos = core.
Proof.
  intros N pos. assert (Hc : c_str pos = pos).
  { apply c_str_id, not_nul_not_in. unfold pos. rewrite drop_app_le by (destruct v6; simpl; lia).
    rewrite elem_of_app.
    intros [Hx|Hx]; [|done]. revert Hx. destruct v6; bcompute. }
  unfold strncmp_eq, strndup. rewrite Hc. split_and!.
  - apply bool_decide_eq_false. by destruct v6.
  - destruct v6; [by apply bool_decide_eq_false|by apply bool_decide_eq_true].
  - destruct v6; [by apply bool_decide_eq_true|by apply bool_decide_eq_false].
  - unfold pos. rewrite drop_drop. apply drop_app_length'. by destruct v6.
Qed.

(** Version-1 lines, for any decimal port texts.  A TCP4 or TCP6 line whose
    address texts the library accepts is decoded to those addresses and consumed
    to its end exactly when both port numbers, reduced modulo 2^32, are at most
    65535, and the ports are those reduced numbers; otherwise it is malformed.
    For ports below 2^32 this is the right answer; a longer digit string is
    reduced and may be accepted as another port. *)
Theorem proxy_v1_decode (v6 : bool) src dst sport dport a b rest :
  let af := if v6 then AF_INET6 else AF_INET in
  let line := v1_line (if v6 then bs "TCP6" else bs "TCP4") src dst sport dport in
  plain src -> plain dst -> length src < INET6_ADDRSTRLEN -> length dst < INET6_ADDRSTRLEN ->
  Forall (fun x => is_digit x = true) sport -> Forall (fun x => is_digit x = true) dport ->
  inet_pton af src = Some a -> inet_pton af dst = Some b ->
  length line ≤ IOH_PROXY_V1_MAX_LEN ->
  ioh_proxy_decode inet_pton (Some (line ++ rest)) =
    if decide (u32 (dec_val 0 sport) <= 65535 /\ u32 (dec_val 0 dport) <= 65535)%Z
    then Ok (length line,
             mk_proxy_result 1 false af (mk_sockaddr af (htons (u32 (dec_val 0 sport))) a)
               (mk_sockaddr af (htons (u32 (dec_val 0 dport))) b))
    else Err EINVAL.
Proof.
  intros af line Hs Hd Hls Hld Hsp Hdp Ha Hb Hlen.
  destruct (v1_fields src dst sport dport Hs Hd Hls Hld Hsp Hdp) as (T1 & T2 & T3 & T4 & T5 & N & C).
  fold (v1_core src dst sport dport) in *. pose proof (v1_line_split v6 src dst sport dport) as Hline.
  fold line in Hline. set (core := v1_core src dst sport dport) in *.
  set (pc := v1_prefix v6 ++ core) in *.
  assert (Hpc : length pc = 11 + length core) by (unfold pc; rewrite length_app; by destruct v6).
  assert (Hll : length line = length pc + 2) by (rewrite Hline, length_app; done).
  assert (Hbuf : line ++ rest = pc ++ CR :: LF :: rest) by by rewrite Hline, <- app_assoc.
  assert (Hcrlf : find_crlf (line ++ rest) IOH_PROXY_V1_MAX_LEN = Some (length pc)).
  { unfold find_crlf. rewrite Hbuf. apply (find_crlf_spec pc rest _ 0).
    - unfold pc. rewrite elem_of_app. intros [Hx|Hx]; [|done]. revert Hx. destruct v6; bcompute.
    - rewrite length_app. simpl. unfold IOH_PROXY_V1_MAX_LEN in *. lia. }
  destruct (v1_words v6 core N) as (W1 & W2 & W3 & W4). fold pc in W1, W2, W3, W4.
  assert (Hdec : ioh_proxy_decode inet_pton (Some (line ++ rest)) = decode_v1 inet_pton (line ++ rest)).
  { rewrite Hbuf. unfold pc. rewrite <- app_assoc. apply decode_is_v1. }
  rewrite Hdec. unfold decode_v1. replace (length (line ++ rest) <? 6) with false.
  2:{ symmetry. apply Nat.ltb_ge. rewrite length_app. lia. }
  rewrite Hcrlf, Hbuf, take_app_length, W1, W2, W3.
  replace (negb (negb v6) && negb v6) with false by by destruct v6. cbv iota.
  rewrite W4, T1, T2, T3, T4, T5. change 0%Z with (u32 0) at 1 2.
  rewrite !port_loop_digits by done. unfold v1_addr.
  replace (if negb v6 then AF_INET else AF_INET6) with af by by destruct v6.
  rewrite Ha, Hb, Hll. destruct (decide _) as [[P1 P2]|P].
  - by replace ((65535 <? u32 (dec_val 0 sport)) || (65535 <? u32 (dec_val 0 dport)))%Z with false
      by (symmetry; apply orb_false_iff; lia).
  - by replace ((65535 <? u32 (dec_val 0 sport)) || (65535 <? u32 (dec_val 0 dport)))%Z with true
      by (symmetry; apply orb_true_iff; lia).
Qed.

(** A fragmented version-2 signature is refused.  When only 6 to 11 bytes of
    a version-2 header have arrived the decoder answers [ENOSPC] (not a PROXY
    header) instead of asking for more data, whatever the rest of the header
    would be; with 5 bytes or fewer it asks for more. *)
Theorem proxy_v2_fragment_refused n :
  n < 12 ->
  ioh_proxy_decode inet_pton (Some (take n IOH_PROXY_V2_SIG)) =
    if n <? 6 then Err EAGAIN else Err ENOSPC.
Proof. intros Hn. do 12 (destruct n as [|n]; [reflexivity|]). lia. Qed.

End Thms.

(** ** The properties at concrete headers *)

(** A text-to-address function that knows one address per family. *)
Definition demo_pton (af : Z) (s : bytes) : option bytes :=
  if (af =? AF_INET)%Z && bytes_eqb s (bs "10.0.0.1") then Some [x0a; x00; x00; x01] else None.

Lemma proxy_decode_stable_witness :
  ioh_proxy_decode demo_pton (Some (bs "PROXY UNKNOWN" ++ [CR; LF] ++ bs "GET")) =
    Ok (15, mk_proxy_result 1 true 0 no_addr no_addr).
Proof.
  apply (proxy_decode_stable demo_pton (bs "PROXY UNKNOWN" ++ [CR; LF]) (bs "GET")).
  vm_compute. reflexivity.
Defined.

Lemma proxy_v2_roundtrip_witness :
  ioh_proxy_decode demo_pton
    (Some (encode_v2 false [x0a; x00; x00; x01] [x0a; x00; x00; x02] [x00; x50] [x01; xbb] [] ++ bs "GET")) =
  Ok (28, mk_proxy_result 2 false AF_INET (mk_sockaddr AF_INET [x00; x50] [x0a; x00; x00; x01])
            (mk_sockaddr AF_INET [x01; xbb] [x0a; x00; x00; x02])).
Proof.
  apply (proxy_v2_roundtrip demo_pton false [x0a; x00; x00; x01] [x0a; x00; x00; x02]
           [x00; x50] [x01; xbb] [] (bs "GET")); first [reflexivity | vm_compute; reflexivity].
Defined.

(** A port text of ten digits is accepted as port 80. *)
Lemma proxy_v1_decode_witness :
  ioh_proxy_decode demo_pton
    (Some (bs "PROXY TCP4 10.0.0.1 10.0.0.1 4294967376 443" ++ [CR; LF])) =
  Ok (45, mk_proxy_result 1 false AF_INET (mk_sockaddr AF_INET (htons 80) [x0a; x00; x00; x01])
            (mk_sockaddr AF_INET (htons 443) [x0a; x00; x00; x01])).
Proof.
  pose proof (proxy_v1_decode demo_pton false (bs "10.0.0.1") (bs "10.0.0.1") (bs "4294967376") (bs "443")
                [x0a; x00; x00; x01] [x0a; x00; x00; x01] []) as Hd.
  refine (eq_trans _ (eq_trans (Hd _ _ _ _ _ _ _ _ _) _));
    first [ reflexivity | repeat constructor; bcompute | repeat constructor
          | apply Nat.ltb_lt; reflexivity | nle
          | vm_compute; reflexivity ].
Defined.

Lemma proxy_v2_fragment_refused_witness :
  ioh_proxy_decode demo_pton (Some (take 8 IOH_PROXY_V2_SIG)) = Err ENOSPC.
Proof. apply (proxy_v2_fragment_refused demo_pton 8). lia. Defined.
