(* ===== verification/Conn.v ===== *)
(** Connections ([src/src/core/ioh_conn.h], [ioh_conn.c]): the state machine with
    its transition table, and the pool of connection slots. *)
From stdpp Require Import relations.
From S2P Require Import Prelude Proxy.

(** ** Data *)

Inductive ioh_conn_state_t :=
| IOH_CONN_FREE | IOH_CONN_ACCEPTING | IOH_CONN_PROXY_HEADER | IOH_CONN_TLS_HANDSHAKE
| IOH_CONN_HTTP_ACTIVE | IOH_CONN_WEBSOCKET | IOH_CONN_SSE | IOH_CONN_QUIC
| IOH_CONN_DRAINING | IOH_CONN_CLOSING.

#[export] Instance conn_state_eq_dec : EqDecision ioh_conn_state_t.
Proof. solve_decision. Defined.

Definition state_val (s : ioh_conn_state_t) : Z :=
  match s with
  | IOH_CONN_FREE => 0 | IOH_CONN_ACCEPTING => 1 | IOH_CONN_PROXY_HEADER => 2
  | IOH_CONN_TLS_HANDSHAKE => 3 | IOH_CONN_HTTP_ACTIVE => 4 | IOH_CONN_WEBSOCKET => 5
  | IOH_CONN_SSE => 6 | IOH_CONN_QUIC => 7 | IOH_CONN_DRAINING => 8 | IOH_CONN_CLOSING => 9
  end.

Inductive ioh_timeout_phase_t :=
| IOH_TIMEOUT_NONE | IOH_TIMEOUT_HEADER | IOH_TIMEOUT_BODY | IOH_TIMEOUT_KEEPALIVE.

(** Socket addresses are as the PROXY decoder fills them, opaque pointers are
    numbers. *)
Record ioh_conn_t := mk_conn {
  fd : Z;
  state : ioh_conn_state_t;
  id : Z;
  peer_addr : sockaddr;
  proxy_addr : sockaddr;
  proxy_used : bool;
  created_at_ms : Z;
  last_activity_ms : Z;
  protocol_ctx : option Z;
  tls_ctx : option Z;
  recv_buf : option bytes;
  recv_buf_size : Z;
  recv_len : Z;
  send_buf : option bytes;
  send_len : Z;
  send_offset : Z;
  send_active : bool;
  c_keep_alive : bool;
  tls_done : bool;
  timeout_phase : ioh_timeout_phase_t;
  timeout_ts : Z * Z;
  route_body_timeout_ms : Z;
  route_keepalive_timeout_ms : Z;
}.

Record ioh_conn_pool := mk_pool {
  conns : list ioh_conn_t;
  max_conns : Z;
  active_count : Z;
  next_id : Z;
}.

Definition IOH_CONN_RECV_BUF_SIZE : Z := 8192.

(** ** The transition table *)

Definition bit (s : ioh_conn_state_t) : Z := Z.shiftl 1 (state_val s).

(** [valid_transitions], by state value; the entry of [IOH_CONN_QUIC] is not
    given in the source, so it is zero. *)
Definition valid_transitions : list Z :=
  [ bit IOH_CONN_ACCEPTING;
    Z.lor (Z.lor (Z.lor (bit IOH_CONN_PROXY_HEADER) (bit IOH_CONN_TLS_HANDSHAKE))
                 (bit IOH_CONN_HTTP_ACTIVE)) (bit IOH_CONN_CLOSING);
    Z.lor (Z.lor (bit IOH_CONN_TLS_HANDSHAKE) (bit IOH_CONN_HTTP_ACTIVE)) (bit IOH_CONN_CLOSING);
    Z.lor (bit IOH_CONN_HTTP_ACTIVE) (bit IOH_CONN_CLOSING);
    Z.lor (Z.lor (Z.lor (bit IOH_CONN_WEBSOCKET) (bit IOH_CONN_SSE)) (bit IOH_CONN_DRAINING))
          (bit IOH_CONN_CLOSING);
    Z.lor (bit IOH_CONN_DRAINING) (bit IOH_CONN_CLOSING);
    Z.lor (bit IOH_CONN_DRAINING) (bit IOH_CONN_CLOSING);
    0;
    bit IOH_CONN_CLOSING;
    0 ]%Z.

(** [state_names]; [None] is the null entry the table leaves for QUIC. *)
Definition state_names : list (option bytes) :=
  [ Some (bs "FREE"); Some (bs "ACCEPTING"); Some (bs "PROXY_HEADER"); Some (bs "TLS_HANDSHAKE");
    Some (bs "HTTP_ACTIVE"); Some (bs "WEBSOCKET"); Some (bs "SSE"); None; Some (bs "DRAINING");
    Some (bs "CLOSING") ].

Definition set_state (c : ioh_conn_t) (s : ioh_conn_state_t) : ioh_conn_t :=
  mk_conn (fd c) s (id c) (peer_addr c) (proxy_addr c) (proxy_used c) (created_at_ms c)
    (last_activity_ms c) (protocol_ctx c) (tls_ctx c) (recv_buf c) (recv_buf_size c) (recv_len c)
    (send_buf c) (send_len c) (send_offset c) (send_active c) (c_keep_alive c) (tls_done c)
    (timeout_phase c) (timeout_ts c) (route_body_timeout_ms c) (route_keepalive_timeout_ms c).

Definition ioh_conn_transition (c : option ioh_conn_t) (new : ioh_conn_state_t)
    : option ioh_conn_t * res unit :=
  match c with
  | None => (None, Err EINVAL)
  | Some c =>
      if (Z.of_nat (length valid_transitions) <=? state_val (state c))%Z then (Some c, Err EINVAL) else
      if (Z.of_nat (length valid_transitions) <=? state_val new)%Z then (Some c, Err EINVAL) else
      let mask := default 0%Z (valid_transitions !! Z.to_nat (state_val (state c))) in
      if (Z.land mask (bit new) =? 0)%Z then (Some c, Err EINVAL)
      else (Some (set_state c new), Ok tt)
  end.

Definition ioh_conn_state_name (s : ioh_conn_state_t) : option bytes :=
  if (Z.of_nat (length state_names) <=? state_val s)%Z then Some (bs "UNKNOWN")
  else default None (state_names !! Z.to_nat (state_val s)).

(** ** The pool *)

(** A slot after [memset] and the assignments of [fd] and [state]. *)
Definition blank_conn (s : ioh_conn_state_t) : ioh_conn_t :=
  mk_conn (-1) s 0 no_addr no_addr false 0 0 None None None 0 0 None 0 0 false false false
    IOH_TIMEOUT_NONE (0, 0)%Z 0 0.

Definition set_id (c : ioh_conn_t) (i : Z) : ioh_conn_t :=
  mk_conn (fd c) (state c) i (peer_addr c) (proxy_addr c) (proxy_used c) (created_at_ms c)
    (last_activity_ms c) (protocol_ctx c) (tls_ctx c) (recv_buf c) (recv_buf_size c) (recv_len c)
    (send_buf c) (send_len c) (send_offset c) (send_active c) (c_keep_alive c) (tls_done c)
    (timeout_phase c) (timeout_ts c) (route_body_timeout_ms c) (route_keepalive_timeout_ms c).

Definition set_recv_buf (c : ioh_conn_t) (b : bytes) (size : Z) : ioh_conn_t :=
  mk_conn (fd c) (state c) (id c) (peer_addr c) (proxy_addr c) (proxy_used c) (created_at_ms c)
    (last_activity_ms c) (protocol_ctx c) (tls_ctx c) (Some b) size 0
    None 0 0 false false (tls_done c)
    (timeout_phase c) (timeout_ts c) (route_body_timeout_ms c) (route_keepalive_timeout_ms c).

Definition ioh_conn_pool_create (max : Z) (h : heap) : option ioh_conn_pool * heap :=
  if (max =? 0)%Z then (None, h) else
  let '(ok, h) := xalloc h in
  if negb ok then (None, h) else
  let '(ok, h) := xalloc h in
  if negb ok then (None, h) else
  (Some (mk_pool (replicate (Z.to_nat max) (blank_conn IOH_CONN_FREE)) max 0 1), h).

Definition is_free (c : ioh_conn_t) : bool := bool_decide (state c = IOH_CONN_FREE).

(** The index of the first slot with the property. *)
Fixpoint find_slot (p : ioh_conn_t -> bool) (cs : list ioh_conn_t) : option nat :=
  match cs with
  | [] => None
  | c :: cs => if p c then Some 0 else S <$> find_slot p cs
  end.

(** The slot of the new connection; the receive buffer's contents are left
    unspecified by [malloc] and are empty here. *)
Definition ioh_conn_alloc (p : ioh_conn_pool) (h : heap) : option nat * ioh_conn_pool * heap :=
  match find_slot is_free (conns p) with
  | None => (None, p, h)
  | Some i =>
      let conn := set_id (blank_conn IOH_CONN_ACCEPTING) (next_id p) in
      let p := mk_pool (<[i := conn]> (conns p)) (max_conns p) (u32 (active_count p + 1))
                       (u32 (next_id p + 1)) in
      let '(ok, h) := xalloc h in
      if negb ok then
        (None, mk_pool (<[i := set_state conn IOH_CONN_FREE]> (conns p)) (max_conns p)
                       (u32 (active_count p - 1)) (next_id p), h)
      else
        (Some i, mk_pool (<[i := set_recv_buf conn [] IOH_CONN_RECV_BUF_SIZE]> (conns p)) (max_conns p)
                         (active_count p) (next_id p), h)
  end.

Definition ioh_conn_free (p : ioh_conn_pool) (i : nat) : ioh_conn_pool :=
  mk_pool (<[i := blank_conn IOH_CONN_FREE]> (conns p)) (max_conns p)
          (u32 (active_count p - 1)) (next_id p).

Definition ioh_conn_find (p : ioh_conn_pool) (x : Z) : option nat :=
  if (x <? 0)%Z then None
  else find_slot (fun c => negb (is_free c) && (fd c =? x)%Z) (conns p).

Definition ioh_conn_pool_get (p : ioh_conn_pool) (index : Z) : option ioh_conn_t :=
  if (max_conns p <=? index)%Z then None else conns p !! Z.to_nat index.

Definition ioh_conn_pool_active (p : option ioh_conn_pool) : Z :=
  match p with Some p => active_count p | None => 0 end.

Definition ioh_conn_pool_capacity (p : option ioh_conn_pool) : Z :=
  match p with Some p => max_conns p | None => 0 end.

(** ** Specification vocabulary *)

(** The transitions the source documents. *)
Inductive edge : ioh_conn_state_t -> ioh_conn_state_t -> Prop :=
| e_accept : edge IOH_CONN_FREE IOH_CONN_ACCEPTING
| e_proxy : edge IOH_CONN_ACCEPTING IOH_CONN_PROXY_HEADER
| e_tls s : s ∈ [IOH_CONN_ACCEPTING; IOH_CONN_PROXY_HEADER] -> edge s IOH_CONN_TLS_HANDSHAKE
| e_http s : s ∈ [IOH_CONN_ACCEPTING; IOH_CONN_PROXY_HEADER; IOH_CONN_TLS_HANDSHAKE] ->
    edge s IOH_CONN_HTTP_ACTIVE
| e_ws : edge IOH_CONN_HTTP_ACTIVE IOH_CONN_WEBSOCKET
| e_sse : edge IOH_CONN_HTTP_ACTIVE IOH_CONN_SSE
| e_drain s : s ∈ [IOH_CONN_HTTP_ACTIVE; IOH_CONN_WEBSOCKET; IOH_CONN_SSE] -> edge s IOH_CONN_DRAINING
| e_close s : s ∉ [IOH_CONN_FREE; IOH_CONN_QUIC; IOH_CONN_CLOSING] -> edge s IOH_CONN_CLOSING.

(** How far a state is from the end of a connection's life. *)
Definition remaining (s : ioh_conn_state_t) : nat :=
  match s with
  | IOH_CONN_FREE => 7 | IOH_CONN_ACCEPTING => 6 | IOH_CONN_PROXY_HEADER => 5
  | IOH_CONN_TLS_HANDSHAKE => 4 | IOH_CONN_HTTP_ACTIVE => 3 | IOH_CONN_WEBSOCKET => 2
  | IOH_CONN_SSE => 2 | IOH_CONN_QUIC => 0 | IOH_CONN_DRAINING => 1 | IOH_CONN_CLOSING => 0
  end.

(** One successful call of [ioh_conn_transition]. *)
Definition steps_to (c c' : ioh_conn_t) : Prop :=
  ioh_conn_transition (Some c) (state c') = (Some c', Ok tt).

(** Number of slots in use. *)
Definition used (cs : list ioh_conn_t) : nat := length (filter (fun c => is_free c = false) cs).

(** The server's use of a pool: it allocates, changes live connections (fields, or
    the state by a transition), and frees live ones. *)
Inductive pool_step : ioh_conn_pool -> ioh_conn_pool -> Prop :=
| ps_alloc p r p' h h' : ioh_conn_alloc p h = (r, p', h') -> pool_step p p'
| ps_change p i c c' :
    conns p !! i = Some c -> is_free c = false -> is_free c' = false -> id c' = id c ->
    pool_step p (mk_pool (<[i := c']> (conns p)) (max_conns p) (active_count p) (next_id p))
| ps_free p i c : conns p !! i = Some c -> is_free c = false -> pool_step p (ioh_conn_free p i).

(** The pool invariant: the counter is the number of live slots, free slots own
    no buffers, live connections have distinct ids below the next one. *)
Record pool_inv (p : ioh_conn_pool) : Prop := {
  inv_len : length (conns p) = Z.to_nat (max_conns p);
  inv_max : (0 < max_conns p < 2 ^ 32)%Z;
  inv_count : active_count p = Z.of_nat (used (conns p));
  inv_free : forall c, c ∈ conns p -> is_free c = true -> recv_buf c = None /\ send_buf c = None /\ fd c = (-1)%Z;
}.

(** Live connections have distinct ids, all below the next one; [n] bounds the
    number of ids handed out. *)
Definition ids_inv (n : nat) (p : ioh_conn_pool) : Prop :=
  (0 < next_id p <= Z.of_nat n + 1)%Z
  /\ (forall i c, conns p !! i = Some c -> is_free c = false -> (id c < next_id p)%Z)
  /\ (forall i j c d, conns p !! i = Some c -> conns p !! j = Some d ->
        is_free c = false -> is_free d = false -> id c = id d -> i = j).

(** ** Lemmas *)

Lemma transition_ok_iff c new :
  ioh_conn_transition (Some c) new = (Some (set_state c new), Ok tt) <-> edge (state c) new.
Proof.
  unfold ioh_conn_transition. split.
  - destruct (state c), new; vm_compute; try done; intros _;
      first [constructor; bcompute | constructor].
  - intros He. inv He; destruct (state c) eqn:E; try done; try bcompute;
      exfalso; set_solver.
Qed.

Lemma transition_err c new :
  ~ edge (state c) new -> ioh_conn_transition (Some c) new = (Some c, Err EINVAL).
Proof.
  intros He. destruct (ioh_conn_transition (Some c) new) as [c' rc] eqn:E.
  pose proof (transition_ok_iff c new) as Hi. unfold ioh_conn_transition in E, Hi.
  repeat brk_in E; simplify_eq; try done. destruct He. by apply Hi.
Qed.

Lemma edge_remaining s s' : edge s s' -> remaining s' < remaining s.
Proof.
  intros He. inv He; simpl; try lia; destruct s; simpl; try lia; exfalso; set_solver.
Qed.

Lemma steps_to_edge c c' : steps_to c c' -> edge (state c) (state c') /\ c' = set_state c (state c').
Proof.
  unfold steps_to. intros E.
  assert (Hc : c' = set_state c (state c')).
  { unfold ioh_conn_transition in E. repeat brk_in E; try discriminate E. congruence. }
  split; [|exact Hc]. rewrite Hc in E at 2. by apply transition_ok_iff.
Qed.

(** ** Slots *)

Lemma find_slot_Some f cs i :
  find_slot f cs = Some i -> exists c, cs !! i = Some c /\ f c = true.
Proof.
  revert i. induction cs as [|c cs IH]; intros i; simpl; [done|]. destruct (f c) eqn:E.
  - intros [= <-]. by exists c.
  - destruct (find_slot f cs) as [j|]; [|done]. intros [= <-]. by apply IH.
Qed.

Lemma find_slot_None f cs : find_slot f cs = None -> Forall (fun c => f c = false) cs.
Proof.
  induction cs as [|c cs IH]; simpl; [done|]. destruct (f c) eqn:E; [done|].
  destruct (find_slot f cs); [done|]. intros _. by constructor; auto.
Qed.

Lemma used_insert cs i c c' :
  cs !! i = Some c ->
  used (<[i := c']> cs) + (if is_free c then 0 else 1) = used cs + (if is_free c' then 0 else 1).
Proof.
  revert i. induction cs as [|d cs IH]; intros [|i]; try done; unfold used in *.
  - intros [= <-]. change (<[0 := c']> (d :: cs)) with (c' :: cs). rewrite !filter_cons.
    destruct (is_free d) eqn:E1, (is_free c') eqn:E2; simpl; lia.
  - intros Hi. specialize (IH i Hi). change (<[S i := c']> (d :: cs)) with (d :: <[i := c']> cs).
    rewrite !filter_cons. destruct (decide (is_free d = false)); cbn [length]; lia.
Qed.

Lemma used_le cs : used cs ≤ length cs.
Proof. apply length_filter. Qed.

Lemma used_free cs i c : cs !! i = Some c -> is_free c = true -> used cs < length cs.
Proof.
  revert i. induction cs as [|d cs IH]; intros [|i]; try done; unfold used in *; simpl.
  - intros [= ->] Hf. rewrite filter_cons, Hf. simpl. pose proof (used_le cs). unfold used in *. lia.
  - intros Hi Hf. specialize (IH i Hi Hf). rewrite filter_cons. destruct (decide (is_free d = false)); cbn [length]; lia.
Qed.

Lemma used_live cs i c : cs !! i = Some c -> is_free c = false -> 0 < used cs.
Proof.
  intros Hi Hf. unfold used.
  assert (Hin : c ∈ filter (fun c => is_free c = false) cs).
  { apply list_elem_of_filter. split; [done|]. by eapply list_elem_of_lookup_2. }
  destruct (filter _ cs); [by apply not_elem_of_nil in Hin|]. simpl. lia.
Qed.

(** ** Preservation *)

Lemma pool_create_inv max p h :
  (0 <= max < 2 ^ 32)%Z -> ioh_conn_pool_create max [] = (Some p, h) -> pool_inv p /\ ids_inv 0 p.
Proof.
  intros Hm. unfold ioh_conn_pool_create. destruct (max =? 0)%Z eqn:E; [done|]. bprop. simpl.
  intros [= <- <-]. split; [constructor; simpl|split_and!; simpl].
  - apply length_replicate.
  - lia.
  - unfold used. clear. induction (Z.to_nat max) as [|n IH]; [done|]. cbn [replicate].
    rewrite filter_cons. simpl. exact IH.
  - intros c Hc _. apply elem_of_replicate in Hc as [-> _]. done.
  - lia.
  - lia.
  - intros i c Hc. apply lookup_replicate in Hc as [-> _]. done.
  - intros i j c d Hc _ Hf. apply lookup_replicate in Hc as [-> _]. done.
Qed.

Lemma alloc_spec p r p' h h' :
  pool_inv p -> ioh_conn_alloc p h = (r, p', h') ->
  pool_inv p'
  /\ match r with
     | Some i => exists c c', conns p !! i = Some c /\ is_free c = true
                   /\ conns p' = <[i := c']> (conns p)
                   /\ state c' = IOH_CONN_ACCEPTING /\ id c' = next_id p /\ recv_buf c' <> None
                   /\ active_count p' = (active_count p + 1)%Z /\ next_id p' = u32 (next_id p + 1)
     | None => used (conns p') = used (conns p)
               /\ (p' = p \/ exists i c c', conns p !! i = Some c /\ is_free c = true
                     /\ is_free c' = true /\ conns p' = <[i := c']> (conns p)
                     /\ next_id p' = u32 (next_id p + 1))
     end.
Proof.
  intros Hinv. pose proof Hinv as [Hl Hm Hc Hf]. unfold ioh_conn_alloc.
  destruct (find_slot is_free (conns p)) as [i|] eqn:E; [|intros [= <- <- <-]; split; [done|by split; [|left]]].
  apply find_slot_Some in E as (c & Hi & Hfree). pose proof (lookup_lt_Some _ _ _ Hi) as Hlt.
  pose proof (used_free _ _ _ Hi Hfree) as Hu.
  destruct (xalloc h) as [ok h1]. destruct ok; cbn [negb]; intros [= <- <- <-]; cbn [conns].
  - set (c' := set_recv_buf _ _ _). rewrite list_insert_insert_eq.
    pose proof (used_insert _ _ _ c' Hi) as Hui. rewrite Hfree in Hui.
    change (is_free c') with false in Hui. cbv iota in Hui.
    split.
    + constructor; cbn [conns max_conns active_count].
      * by rewrite length_insert.
      * done.
      * rewrite u32_small; lia.
      * intros d Hd Hdf. apply list_elem_of_lookup in Hd as [j Hj].
        apply list_lookup_insert_Some in Hj as [(<- & <- & _)|(_ & Hj)]; [done|].
        apply Hf; [by eapply list_elem_of_lookup_2|done].
    + exists c, c'. split_and!; try done. cbn [active_count]. rewrite u32_small; lia.
  - set (c' := set_state _ IOH_CONN_FREE). rewrite list_insert_insert_eq.
    pose proof (used_insert _ _ _ c' Hi) as Hui. rewrite Hfree in Hui.
    change (is_free c') with true in Hui. cbv iota in Hui.
    split; [|split; [cbn [conns]; lia|right; by exists i, c, c']].
    constructor; cbn [conns max_conns active_count].
    + by rewrite length_insert.
    + done.
    + rewrite (u32_small (active_count p + 1)) by lia. rewrite u32_small; lia.
    + intros d Hd Hdf. apply list_elem_of_lookup in Hd as [j Hj].
      apply list_lookup_insert_Some in Hj as [(<- & <- & _)|(_ & Hj)]; [done|].
      apply Hf; [by eapply list_elem_of_lookup_2|done].
Qed.

Lemma pool_step_inv p p' : pool_inv p -> pool_step p p' -> pool_inv p'.
Proof.
  intros Hinv Hs. pose proof Hinv as [Hl Hm Hc Hf].
  destruct Hs as [p r p' h h' Ha|p i c c' Hi Hcf Hcf' _|p i c Hi Hcf].
  - by eapply alloc_spec.
  - pose proof (used_insert _ _ _ c' Hi) as Hu. rewrite Hcf, Hcf' in Hu. cbv iota in Hu.
    constructor; cbn [conns max_conns active_count]; [by rewrite length_insert|done|lia|].
    intros d Hd Hdf. apply list_elem_of_lookup in Hd as [j Hj].
    apply list_lookup_insert_Some in Hj as [(<- & <- & _)|(_ & Hj)]; [congruence|].
    apply Hf; [by eapply list_elem_of_lookup_2|done].
  - pose proof (used_insert _ _ _ (blank_conn IOH_CONN_FREE) Hi) as Hu. rewrite Hcf in Hu.
    change (is_free (blank_conn IOH_CONN_FREE)) with true in Hu. cbv iota in Hu.
    pose proof (used_live _ _ _ Hi Hcf). pose proof (used_le (conns p)).
    unfold ioh_conn_free. constructor; cbn [conns max_conns active_count]; [by rewrite length_insert|done| |].
    + rewrite u32_small; lia.
    + intros d Hd Hdf. apply list_elem_of_lookup in Hd as [j Hj].
      apply list_lookup_insert_Some in Hj as [(<- & <- & _)|(_ & Hj)]; [done|].
      apply Hf; [by eapply list_elem_of_lookup_2|done].
Qed.

(** An update of one slot keeps the ids distinct when the new content is free,
    keeps its id, or takes a fresh one. *)
Lemma ids_insert n m p i c c' nid :
  ids_inv n p -> conns p !! i = Some c -> (next_id p <= nid <= Z.of_nat m + 1)%Z ->
  (is_free c' = false -> (id c' < nid)%Z /\ (is_free c = false /\ id c' = id c \/ id c' = next_id p)) ->
  forall mx ac, ids_inv m (mk_pool (<[i := c']> (conns p)) mx ac nid).
Proof.
  intros (Hn & Hlt & Hd) Hi Hnid Hc' mx ac. split_and!; simpl.
  - lia.
  - lia.
  - intros j d Hj Hdf. apply list_lookup_insert_Some in Hj as [(<- & <- & _)|(_ & Hj)].
    + by apply Hc'.
    + specialize (Hlt _ _ Hj Hdf). lia.
  - intros j k d e Hj Hk Hdf Hef Hide.
    apply list_lookup_insert_Some in Hj as [(<- & <- & _)|(Hij & Hj)];
      apply list_lookup_insert_Some in Hk as [(<- & <- & _)|(Hik & Hk)]; try done.
    + destruct (Hc' Hdf) as [_ [[Hcf Hid]|Hid]].
      * by apply (Hd _ _ c e); [..|congruence].
      * specialize (Hlt _ _ Hk Hef). lia.
    + destruct (Hc' Hef) as [_ [[Hcf Hid]|Hid]].
      * by apply (Hd _ _ d c); [..|congruence].
      * specialize (Hlt _ _ Hj Hdf). lia.
    + by apply (Hd _ _ d e).
Qed.

Lemma pool_step_ids n p p' :
  (Z.of_nat n < 2 ^ 32 - 2)%Z -> pool_inv p -> ids_inv n p -> pool_step p p' -> ids_inv (S n) p'.
Proof.
  intros Hn Hinv Hids Hs. pose proof Hids as ((Hpos & Hle) & _).
  destruct Hs as [p r p' h h' Ha|p i c c' Hi Hcf Hcf' Hid|p i c Hi Hcf].
  - assert (Hu : u32 (next_id p + 1) = (next_id p + 1)%Z) by (apply u32_small; lia).
    destruct (alloc_spec _ _ _ _ _ Hinv Ha) as [_ Hspec]. destruct r as [i|].
    + destruct Hspec as (c & c' & Hi & _ & Hcs & _ & Hid & _ & _ & Hnx).
      destruct p' as [cs mx ac nid]. simpl in *. subst cs. rewrite Hu in Hnx. subst nid.
      eapply ids_insert; [done|done|lia|]. intros _. split; [lia|by right].
    + destruct Hspec as [_ [->|(i & c & c' & Hi & Hf & Hf' & Hcs & Hnx)]].
      * destruct Hids as (? & ? & ?). split_and!; try done; lia.
      * destruct p' as [cs mx ac nid]. simpl in *. subst cs. rewrite Hu in Hnx. subst nid.
        eapply ids_insert; [done|done|lia|]. congruence.
  - eapply ids_insert; [done|done|lia|]. intros _. split; [|by left].
    destruct Hids as (_ & Hlt & _). specialize (Hlt _ _ Hi Hcf). lia.
  - unfold ioh_conn_free. eapply ids_insert; [done|done|lia|done].
Qed.

(** ** The properties *)

(** The transition table implements the documented state machine: a
    transition succeeds exactly along an edge and then changes only the state;
    otherwise it returns [EINVAL] and changes nothing. *)
Theorem conn_transition_spec c new :
  (edge (state c) new -> ioh_conn_transition (Some c) new = (Some (set_state c new), Ok tt))
  /\ (~ edge (state c) new -> ioh_conn_transition (Some c) new = (Some c, Err EINVAL)).
Proof. split; [apply transition_ok_iff|apply transition_err]. Qed.

(** Every connection's life ends.  A sequence of successful transitions never
    revisits a state and is at most seven long; a closing connection accepts no
    transition; and a connection that was accepted and is not closing can always
    be moved to closing at once. *)
Theorem conn_transitions_terminate n c c' :
  nsteps steps_to n c c' ->
  n + remaining (state c') ≤ remaining (state c) /\ n ≤ 7
  /\ (state c = IOH_CONN_ACCEPTING -> state c' ≠ IOH_CONN_CLOSING ->
      ioh_conn_transition (Some c') IOH_CONN_CLOSING = (Some (set_state c' IOH_CONN_CLOSING), Ok tt))
  /\ (state c' = IOH_CONN_CLOSING -> forall s,
      ioh_conn_transition (Some c') s = (Some c', Err EINVAL)).
Proof.
  intros Hs.
  assert (Hrem : n + remaining (state c') ≤ remaining (state c)).
  { induction Hs as [x|n x y z Hxy _ IH]; [lia|].
    apply steps_to_edge in Hxy as [He%edge_remaining _]. lia. }
  assert (Hkeep : state c = IOH_CONN_ACCEPTING -> state c' ≠ IOH_CONN_FREE /\ state c' ≠ IOH_CONN_QUIC).
  { intros Hc. assert (Hne : state c ≠ IOH_CONN_FREE /\ state c ≠ IOH_CONN_QUIC) by by rewrite Hc.
    clear Hc Hrem. induction Hs as [x|n x y z Hxy _ IH]; [done|]. apply IH.
    apply steps_to_edge in Hxy as [He _]. by inv He. }
  split; [done|]. split; [destruct (state c); simpl in Hrem; lia|]. split.
  - intros Hc Hcl. apply transition_ok_iff, e_close. destruct (Hkeep Hc). set_solver.
  - intros Hc s. apply transition_err. rewrite Hc. intros He. inv He; set_solver.
Qed.

Definition demo_conn : ioh_conn_t := blank_conn IOH_CONN_ACCEPTING.

Lemma conn_transitions_terminate_witness :
  nsteps steps_to 2 demo_conn (set_state demo_conn IOH_CONN_DRAINING) /\ 2 ≤ 7.
Proof.
  assert (Hs : nsteps steps_to 2 demo_conn (set_state demo_conn IOH_CONN_DRAINING)).
  { eapply nsteps_l; [|eapply nsteps_l; [|apply nsteps_O]];
      [instantiate (1 := set_state demo_conn IOH_CONN_HTTP_ACTIVE)|]; vm_compute; reflexivity. }
  split; [exact Hs|]. exact (proj1 (proj2 (conn_transitions_terminate 2 _ _ Hs))).
Defined.

(** C39: pool accounting.  In every pool reached by allocations (failing ones
    included), changes to live connections and frees of live connections, the
    counter equals the number of live slots and never exceeds the capacity, and
    no free slot owns a buffer, so that clearing it on allocation leaks nothing;
    an allocation with memory available succeeds exactly when a slot is free. *)
Theorem pool_accounting max p0 p h0 :
  (0 <= max < 2 ^ 32)%Z -> ioh_conn_pool_create max [] = (Some p0, h0) -> rtc pool_step p0 p ->
  ioh_conn_pool_active (Some p) = Z.of_nat (used (conns p))
  /\ (ioh_conn_pool_active (Some p) <= ioh_conn_pool_capacity (Some p))%Z
  /\ (forall c, c ∈ conns p -> is_free c = true -> recv_buf c = None /\ send_buf c = None)
  /\ (forall r p' h', ioh_conn_alloc p [] = (r, p', h') ->
        (r <> None <-> (ioh_conn_pool_active (Some p) < ioh_conn_pool_capacity (Some p))%Z)).
Proof.
  intros Hm Hc Hs.
  assert (Hinv : pool_inv p).
  { destruct (pool_create_inv _ _ _ Hm Hc) as [Hi _]. clear Hc.
    induction Hs as [x|x y z Hxy _ IH]; [done|]. by apply IH; eapply pool_step_inv. }
  pose proof Hinv as [Hl Hmx Hcnt Hf]. pose proof (used_le (conns p)). simpl.
  split; [done|]. split; [lia|]. split; [intros c Hin Hfr; by destruct (Hf c Hin Hfr) as (? & ? & _)|].
  intros r p' h' Ha. pose proof Ha as Ha'. unfold ioh_conn_alloc in Ha'.
  destruct (find_slot is_free (conns p)) as [i|] eqn:E; simpl in Ha'.
  - injection Ha' as <- _ _. apply find_slot_Some in E as (c & Hi & Hcf).
    pose proof (used_free _ _ _ Hi Hcf). split; [lia|done].
  - injection Ha' as <- _ _. apply find_slot_None in E.
    assert (Hall : used (conns p) = length (conns p)).
    { unfold used. clear -E. induction E as [|c cs Hc _ IH]; [done|].
      rewrite filter_cons, decide_True by done. cbn [length]. by rewrite IH. }
    split; [done|]. lia.
Qed.

Definition pool3 : ioh_conn_pool :=
  mk_pool (replicate 3 (blank_conn IOH_CONN_FREE)) 3 0 1.
Definition pool3' : ioh_conn_pool := snd (fst (ioh_conn_alloc pool3 [])).

Lemma pool_accounting_witness :
  ioh_conn_pool_active (Some pool3') = 1%Z /\ used (conns pool3') = 1.
Proof.
  destruct (pool_accounting 3 pool3 pool3' []) as (H1 & _).
  - lia.
  - reflexivity.
  - apply rtc_once. apply (ps_alloc pool3 (Some 0) pool3' [] []). vm_compute. reflexivity.
  - split; [rewrite H1; vm_compute; reflexivity|vm_compute; reflexivity].
Defined.

(** Connection ids are unique within the pool.  As long as fewer than
    2^32 - 2 pool operations have happened (before the 32-bit id counter can
    wrap), two live slots never carry the same id. *)
Theorem conn_ids_unique max p0 p h0 n i j c d :
  (0 <= max < 2 ^ 32)%Z -> ioh_conn_pool_create max [] = (Some p0, h0) ->
  nsteps pool_step n p0 p -> (Z.of_nat n < 2 ^ 32 - 2)%Z ->
  conns p !! i = Some c -> conns p !! j = Some d -> is_free c = false -> is_free d = false ->
  id c = id d -> i = j.
Proof.
  intros Hm Hc Hs Hn. destruct (pool_create_inv _ _ _ Hm Hc) as [Hinv Hids].
  assert (Hfin : exists k, ids_inv k p); [|destruct Hfin as (k & _ & _ & Hd); apply Hd].
  assert (Hgen : forall k, (Z.of_nat (k + n) < 2 ^ 32 - 2)%Z -> ids_inv k p0 -> exists k', ids_inv k' p).
  { clear Hc Hids Hn. induction Hs as [x|n x y z Hxy _ IH]; intros k Hk Hids; [by exists k|].
    apply (IH (pool_step_inv _ _ Hinv Hxy) (S k)); [lia|]. eapply pool_step_ids; [lia|done..]. }
  by apply (Hgen 0).
Qed.

Definition pool3'' : ioh_conn_pool := snd (fst (ioh_conn_alloc pool3' [])).

Lemma conn_ids_unique_witness :
  exists c d, conns pool3'' !! 0 = Some c /\ conns pool3'' !! 1 = Some d
    /\ is_free c = false /\ is_free d = false /\ (id c =? id d)%Z = false.
Proof.
  eexists _, _. split; [vm_compute; reflexivity|]. split; [vm_compute; reflexivity|].
  split; [reflexivity|]. split; [reflexivity|]. apply Z.eqb_neq. intros E.
  enough (0 = 1) by discriminate.
  refine (conn_ids_unique 3 pool3 pool3'' [] 2 0 1 _ _ _ _ _ _ _ _ _ _ E);
    try lia; try (vm_compute; reflexivity).
  eapply nsteps_l; [apply (ps_alloc pool3 (Some 0) pool3' [] []); vm_compute; reflexivity|].
  eapply nsteps_l; [|apply nsteps_O]. apply (ps_alloc pool3' (Some 1) pool3'' [] []). vm_compute. reflexivity.
Defined.

(** Freeing is not guarded by the state.  A second free of the same slot, or
    a free of a slot that was never allocated, on an idle pool wraps the 32-bit
    counter, after which the pool reports more connections than it holds. *)
Theorem conn_free_unguarded_wraps max p h i :
  (0 < max < 2 ^ 32)%Z -> ioh_conn_pool_create max [] = (Some p, h) ->
  ioh_conn_pool_active (Some (ioh_conn_free p i)) = (2 ^ 32 - 1)%Z.
Proof.
  intros Hm. unfold ioh_conn_pool_create. destruct (max =? 0)%Z eqn:E; [done|]. simpl.
  intros [= <- <-]. reflexivity.
Qed.

Lemma conn_free_unguarded_wraps_witness :
  ioh_conn_pool_active (Some (ioh_conn_free pool3 0)) = (2 ^ 32 - 1)%Z.
Proof. apply (conn_free_unguarded_wraps 3 pool3 [] 0); [lia|reflexivity]. Defined.
