(* ===== verification/Tls.v ===== *)
(** TLS connections ([src/src/tls/ioh_tls.h], [ioh_tls.c]): the buffers between the
    event loop and the TLS library, and the calls of the library.

    wolfSSL is third-party code: the class [WolfSSL] has what the source calls of
    it.  The library reads and writes ciphertext through two callbacks while a call
    runs, so a call is a tree: it returns, or asks for ciphertext, or hands
    ciphertext out, and goes on with the callback's answer. *)
From S2P Require Import Prelude.

(** ** The library *)

(** The answer of a callback: data (received bytes, or the bytes taken), or the
    WANT_READ/WANT_WRITE code. *)
Inductive io_answer :=
| IoData (b : bytes)
| IoWant.

Inductive ssl_prog (S A : Type) :=
| SslRet (a : A) (s : S)
| SslRecv (sz : nat) (k : io_answer -> ssl_prog S A)
| SslSend (data : bytes) (k : io_answer -> ssl_prog S A).
Arguments SslRet {S A}.
Arguments SslRecv {S A}.
Arguments SslSend {S A}.

Definition WOLFSSL_SUCCESS : Z := 1.
Definition WOLFSSL_ERROR_WANT_READ : Z := 2.
Definition WOLFSSL_ERROR_WANT_WRITE : Z := 3.

(** Sessions [S] of contexts [X].  [ssl_use_alpn] and [ssl_alpn] are the ALPN
    calls; the integers are the library's return codes. *)
Class WolfSSL (X S : Type) := {
  ssl_new : X -> option S;
  ssl_use_alpn : S -> bytes -> Z * S;
  ssl_accept : S -> ssl_prog S Z;
  ssl_read : S -> nat -> ssl_prog S (Z * bytes);
  ssl_write : S -> bytes -> ssl_prog S Z;
  ssl_shutdown : S -> ssl_prog S Z;
  ssl_get_error : S -> Z -> Z;
  ssl_alpn : S -> option bytes;
}.

(** ** Data *)

Definition IOH_TLS_CIPHER_BUF_SIZE : nat := Z.to_nat 16384.

Record ioh_tls_config_t := mk_tls_config {
  cert_file : option bytes;
  key_file : option bytes;
  ca_file : option bytes;
  require_client_cert : bool;
  enable_session_tickets : bool;
  session_cache_size : Z;
  alpn : option bytes;
}.

Record ioh_tls_ctx (X : Type) := mk_tls_ctx {
  wolf_ctx : X;
  alpn_copy : option bytes;
}.
Arguments mk_tls_ctx {X}.
Arguments wolf_ctx {X}.
Arguments alpn_copy {X}.

(** [cipher_in] is the first [cipher_in_len] bytes of the input buffer,
    [cipher_out] the first [cipher_out_len] of the output buffer. *)
Record ioh_tls_conn_t (S : Type) := mk_tls_conn {
  ssl : S;
  cipher_in : bytes;
  cipher_in_pos : nat;
  cipher_in_cap : nat;
  cipher_out : bytes;
  cipher_out_cap : nat;
  handshake_done : bool;
}.
Arguments mk_tls_conn {S}.
Arguments ssl {S}.
Arguments cipher_in {S}.
Arguments cipher_in_pos {S}.
Arguments cipher_in_cap {S}.
Arguments cipher_out {S}.
Arguments cipher_out_cap {S}.
Arguments handshake_done {S}.

(** ** Configuration *)

Definition ioh_tls_config_init : ioh_tls_config_t := mk_tls_config None None None false false 256 None.

Definition ioh_tls_config_validate (cfg : option ioh_tls_config_t) : res unit :=
  match cfg with
  | None => Err EINVAL
  | Some cfg =>
      match cert_file cfg, key_file cfg with
      | None, _ => Err EINVAL
      | _, None => Err EINVAL
      | _, _ => Ok tt
      end
  end.

Section Tls.
Context {X S : Type} `{W : WolfSSL X S}.
Abbreviation conn := (ioh_tls_conn_t S).
Implicit Types (c : conn) (h : heap).

Definition set_in c (b : bytes) (pos : nat) : conn :=
  mk_tls_conn (ssl c) b pos (cipher_in_cap c) (cipher_out c) (cipher_out_cap c) (handshake_done c).
Definition set_out c (b : bytes) : conn :=
  mk_tls_conn (ssl c) (cipher_in c) (cipher_in_pos c) (cipher_in_cap c) b (cipher_out_cap c) (handshake_done c).
Definition set_ssl c (s : S) : conn :=
  mk_tls_conn s (cipher_in c) (cipher_in_pos c) (cipher_in_cap c) (cipher_out c) (cipher_out_cap c) (handshake_done c).
Definition set_done c (d : bool) : conn :=
  mk_tls_conn (ssl c) (cipher_in c) (cipher_in_pos c) (cipher_in_cap c) (cipher_out c) (cipher_out_cap c) d.

(** ** Callbacks *)

Definition tls_ioh_recv_cb c (sz : nat) : conn * io_answer :=
  let avail := length (cipher_in c) - cipher_in_pos c in
  if avail =? 0 then (c, IoWant) else
  let to_copy := if sz <? avail then sz else avail in
  let data := take to_copy (drop (cipher_in_pos c) (cipher_in c)) in
  let pos := cipher_in_pos c + to_copy in
  (if pos =? length (cipher_in c) then set_in c [] 0 else set_in c (cipher_in c) pos, IoData data).

Definition tls_ioh_send_cb c (buf : bytes) : conn * io_answer :=
  let space := cipher_out_cap c - length (cipher_out c) in
  if space =? 0 then (c, IoWant) else
  let to_copy := if length buf <? space then length buf else space in
  (set_out c (cipher_out c ++ take to_copy buf), IoData (take to_copy buf)).

(** A library call with its callbacks; also the bytes it received and sent. *)
Fixpoint run_ssl {A} c (p : ssl_prog S A) : conn * A * bytes * bytes :=
  match p with
  | SslRet a s => (set_ssl c s, a, [], [])
  | SslRecv sz k =>
      let '(c, ans) := tls_ioh_recv_cb c sz in
      let '(c, a, got, put) := run_ssl c (k ans) in
      (c, a, (match ans with IoData b => b | IoWant => [] end) ++ got, put)
  | SslSend data k =>
      let '(c, ans) := tls_ioh_send_cb c data in
      let '(c, a, got, put) := run_ssl c (k ans) in
      (c, a, got, (match ans with IoData b => b | IoWant => [] end) ++ put)
  end.

(** ** Lifecycle *)

Definition ioh_tls_conn_create (ctx : option (ioh_tls_ctx X)) h : option conn * heap :=
  match ctx with
  | None => (None, h)
  | Some ctx =>
      let '(ok, h) := xalloc h in
      if negb ok then (None, h) else
      let '(ok, h) := xalloc h in
      if negb ok then (None, h) else
      let '(ok, h) := xalloc h in
      if negb ok then (None, h) else
      match ssl_new (wolf_ctx ctx) with
      | None => (None, h)
      | Some s =>
          let fresh s := mk_tls_conn s [] 0 IOH_TLS_CIPHER_BUF_SIZE [] IOH_TLS_CIPHER_BUF_SIZE false in
          match alpn_copy ctx with
          | Some a =>
              if 0 <? length a then
                let '(ret, s) := ssl_use_alpn s a in
                if negb (ret =? WOLFSSL_SUCCESS)%Z then (None, h) else (Some (fresh s), h)
              else (Some (fresh s), h)
          | None => (Some (fresh s), h)
          end
      end
  end.

(** ** Buffer I/O *)

Definition ioh_tls_feed_input c (data : option bytes) : conn * res unit :=
  match data with
  | None => (c, Err EINVAL)
  | Some data =>
      if length data =? 0 then (c, Ok tt) else
      let c := if 0 <? cipher_in_pos c then
                 if cipher_in_pos c <? length (cipher_in c)
                 then set_in c (drop (cipher_in_pos c) (cipher_in c)) 0
                 else set_in c [] 0
               else c in
      let space := cipher_in_cap c - length (cipher_in c) in
      if space <? length data then (c, Err ENOMEM)
      else (set_in c (cipher_in c ++ data) (cipher_in_pos c), Ok tt)
  end.

(** WANT_READ and WANT_WRITE are [-EAGAIN], anything else [-EIO]. *)
Definition error_of c (ret : Z) : errno :=
  let err := ssl_get_error (ssl c) ret in
  if (err =? WOLFSSL_ERROR_WANT_READ)%Z || (err =? WOLFSSL_ERROR_WANT_WRITE)%Z then EAGAIN else EIO.

Definition ioh_tls_handshake c : conn * res unit :=
  if handshake_done c then (c, Ok tt) else
  let '(c, ret, _, _) := run_ssl c (ssl_accept (ssl c)) in
  if (ret =? WOLFSSL_SUCCESS)%Z then (set_done c true, Ok tt) else (c, Err (error_of c ret)).

Definition ioh_tls_read c (len : nat) : conn * res bytes :=
  let '(c, (ret, data), _, _) := run_ssl c (ssl_read (ssl c) len) in
  if (0 <? ret)%Z then (c, Ok (take (Z.to_nat ret) data)) else (c, Err (error_of c ret)).

Definition ioh_tls_write c (buf : bytes) : conn * res Z :=
  let '(c, ret, _, _) := run_ssl c (ssl_write (ssl c) buf) in
  if (0 <? ret)%Z then (c, Ok ret) else (c, Err (error_of c ret)).

Definition ioh_tls_get_output c : bytes := cipher_out c.

Definition ioh_tls_consume_output c (len : nat) : conn :=
  if len =? 0 then c else
  if length (cipher_out c) <=? len then set_out c [] else set_out c (drop len (cipher_out c)).

Definition ioh_tls_shutdown c : conn * res unit :=
  let '(c, ret, _, _) := run_ssl c (ssl_shutdown (ssl c)) in
  if (ret =? WOLFSSL_SUCCESS)%Z then (c, Ok tt) else
  match error_of c ret with
  | EAGAIN => (c, Err EAGAIN)
  | e => (c, Err (if (ret =? 0)%Z then EAGAIN else e))
  end.

Definition ioh_tls_get_alpn c : option bytes :=
  match ssl_alpn (ssl c) with
  | Some p => if length p =? 0 then None else Some p
  | None => None
  end.

(** ** Specification: two queues *)

(** Ciphertext received and not yet given to the library. *)
Definition pending c : bytes := drop (cipher_in_pos c) (cipher_in c).

(** Positions and lengths stay inside the buffers. *)
Definition tls_inv c : Prop :=
  cipher_in_pos c ≤ length (cipher_in c) /\ length (cipher_in c) ≤ cipher_in_cap c
  /\ length (cipher_out c) ≤ cipher_out_cap c.

(** The calls of the event loop. *)
Inductive tls_op :=
| TFeed (data : bytes) | THandshake | TRead (len : nat) | TWrite (buf : bytes)
| TConsume (len : nat) | TShutdown.

(** What an operation adds to the input queue, what the library takes from it,
    what the library puts into the output queue and what is taken from that. *)
Record traffic := mk_traffic { fed : bytes; got : bytes; put : bytes; sent : bytes }.
Definition no_traffic : traffic := mk_traffic [] [] [] [].
Definition join (t u : traffic) : traffic :=
  mk_traffic (fed t ++ fed u) (got t ++ got u) (put t ++ put u) (sent t ++ sent u).

(** The traffic of a library call. *)
Definition ssl_traffic {A} c (p : ssl_prog S A) : traffic :=
  let '(_, _, g, p) := run_ssl c p in mk_traffic [] g p [].

Definition tls_do c (op : tls_op) : conn * traffic :=
  match op with
  | TFeed d => let '(c, rc) := ioh_tls_feed_input c (Some d) in
               (c, mk_traffic (if is_ok rc then d else []) [] [] [])
  | THandshake => (fst (ioh_tls_handshake c),
                   if handshake_done c then no_traffic else ssl_traffic c (ssl_accept (ssl c)))
  | TRead n => (fst (ioh_tls_read c n), ssl_traffic c (ssl_read (ssl c) n))
  | TWrite b => (fst (ioh_tls_write c b), ssl_traffic c (ssl_write (ssl c) b))
  | TConsume n => (ioh_tls_consume_output c n, mk_traffic [] [] [] (take n (ioh_tls_get_output c)))
  | TShutdown => (fst (ioh_tls_shutdown c), ssl_traffic c (ssl_shutdown (ssl c)))
  end.

Fixpoint tls_run c (ops : list tls_op) : conn * traffic :=
  match ops with
  | [] => (c, no_traffic)
  | op :: ops =>
      let '(c, t) := tls_do c op in
      let '(c, u) := tls_run c ops in
      (c, join t u)
  end.

(** Capacities never change. *)
Definition same_caps c c' : Prop :=
  cipher_in_cap c' = cipher_in_cap c /\ cipher_out_cap c' = cipher_out_cap c.

(** One operation as seen from the queues. *)
Definition queue_step c c' (t : traffic) : Prop :=
  tls_inv c' /\ same_caps c c'
  /\ pending c ++ fed t = got t ++ pending c' /\ cipher_out c ++ put t = sent t ++ cipher_out c'.

(** ** Lemmas *)

Lemma queue_step_refl c : tls_inv c -> queue_step c c no_traffic.
Proof. intros Hi. split; [done|]. split; [done|]. by rewrite !app_nil_r. Qed.

Lemma queue_step_trans c1 c2 c3 t u :
  queue_step c1 c2 t -> queue_step c2 c3 u -> queue_step c1 c3 (join t u).
Proof.
  intros (_ & [S1 S2] & P1 & O1) (Hi & [S3 S4] & P2 & O2). split; [done|]. split; [split; congruence|].
  simpl. split.
  - by rewrite app_assoc, P1, <- app_assoc, P2, app_assoc.
  - by rewrite app_assoc, O1, <- app_assoc, O2, app_assoc.
Qed.

Lemma recv_cb_step c sz c' ans :
  tls_inv c -> tls_ioh_recv_cb c sz = (c', ans) ->
  queue_step c c' (mk_traffic [] (match ans with IoData b => b | IoWant => [] end) [] []).
Proof.
  intros (Hp & Hc & Ho). unfold tls_ioh_recv_cb.
  destruct (Nat.eqb_spec (length (cipher_in c) - cipher_in_pos c) 0) as [Ha|Ha].
  { intros [= <- <-]. apply queue_step_refl. done. }
  set (n := if _ <? _ then _ else _).
  assert (Hn : n ≤ length (cipher_in c) - cipher_in_pos c).
  { subst n. destruct (Nat.ltb_spec sz (length (cipher_in c) - cipher_in_pos c)); lia. }
  intros [= <- <-]. destruct (Nat.eqb_spec (cipher_in_pos c + n) (length (cipher_in c))) as [He|He];
    (split; [split_and!; simpl; lia|]); (split; [done|]); unfold pending; simpl; rewrite !app_nil_r; (split; [|done]).
  - by rewrite take_ge by (rewrite length_drop; lia).
  - rewrite <- drop_drop. by rewrite take_drop.
Qed.

Lemma send_cb_step c data c' ans :
  tls_inv c -> tls_ioh_send_cb c data = (c', ans) ->
  queue_step c c' (mk_traffic [] [] (match ans with IoData b => b | IoWant => [] end) []).
Proof.
  intros (Hp & Hc & Ho). unfold tls_ioh_send_cb.
  destruct (Nat.eqb_spec (cipher_out_cap c - length (cipher_out c)) 0) as [Ha|Ha].
  { intros [= <- <-]. apply queue_step_refl. done. }
  intros [= <- <-]. split.
  - split_and!; simpl; [lia|lia|]. rewrite length_app, length_take.
    destruct (Nat.ltb_spec (length data) (cipher_out_cap c - length (cipher_out c))); lia.
  - split; [done|]. unfold pending. simpl. by rewrite !app_nil_r.
Qed.

Lemma run_ssl_step {A} (p : ssl_prog S A) c c' a g w :
  tls_inv c -> run_ssl c p = (c', a, g, w) -> queue_step c c' (mk_traffic [] g w []).
Proof.
  revert c c' a g w. induction p as [a0 s|sz k IH|data k IH]; intros c c' a g w Hi; simpl.
  - intros [= <- <- <- <-]. destruct Hi as (?&?&?). split; [done|]. split; [done|]. unfold pending. simpl.
    by rewrite !app_nil_r.
  - destruct (tls_ioh_recv_cb c sz) as [c1 ans] eqn:E. pose proof (recv_cb_step _ _ _ _ Hi E) as H1.
    destruct (run_ssl c1 (k ans)) as [[[c2 a2] g2] w2] eqn:E2. intros [= <- <- <- <-].
    exact (queue_step_trans _ _ _ _ _ H1 (IH ans c1 _ _ _ _ (proj1 H1) E2)).
  - destruct (tls_ioh_send_cb c data) as [c1 ans] eqn:E. pose proof (send_cb_step _ _ _ _ Hi E) as H1.
    destruct (run_ssl c1 (k ans)) as [[[c2 a2] g2] w2] eqn:E2. intros [= <- <- <- <-].
    exact (queue_step_trans _ _ _ _ _ H1 (IH ans c1 _ _ _ _ (proj1 H1) E2)).
Qed.

(** Feeding is an enqueue bounded by the capacity. *)
Lemma feed_spec c data :
  tls_inv c ->
  let '(c', rc) := ioh_tls_feed_input c (Some data) in
  rc = (if decide (length (pending c) + length data ≤ cipher_in_cap c) then Ok tt
        else if decide (data = []) then Ok tt else Err ENOMEM)
  /\ queue_step c c' (mk_traffic (if is_ok rc then data else []) [] [] []).
Proof.
  intros Hi. pose proof Hi as (Hp & Hc & Ho). unfold ioh_tls_feed_input.
  destruct data as [|x data]; [simpl; split; [by destruct (decide _)|by apply queue_step_refl]|].
  set (c1 := if 0 <? cipher_in_pos c then _ else c).
  assert (H1 : queue_step c c1 no_traffic /\ cipher_in_pos c1 = 0).
  { subst c1. destruct (Nat.ltb_spec 0 (cipher_in_pos c)); [|split; [by apply queue_step_refl|lia]].
    destruct (Nat.ltb_spec (cipher_in_pos c) (length (cipher_in c))); (split; [|done]);
      (split; [split_and!; simpl; rewrite ?length_drop; lia|]); (split; [done|]); unfold pending; simpl; rewrite !app_nil_r; (split; [|done]).
    - by rewrite drop_0.
    - by rewrite drop_ge by lia. }
  destruct H1 as [Hq Hz]. pose proof Hq as ((_ & Hc1 & _) & [Hcap _] & Hpd & _).
  unfold no_traffic in Hpd. simpl in Hpd. rewrite app_nil_r in Hpd.
  assert (Hin : cipher_in c1 = pending c) by (unfold pending in *; by rewrite Hz in Hpd).
  change (length (x :: data) =? 0) with false. cbv zeta iota.
  destruct (Nat.ltb_spec (cipher_in_cap c1 - length (cipher_in c1)) (length (x :: data))) as [Hlt|Hge].
  - rewrite Hin, Hcap in *. rewrite decide_False by (simpl in *; lia). split; [done|]. exact Hq.
  - rewrite decide_True by (rewrite Hin, Hcap in *; simpl in *; lia). split; [done|]. simpl.
    apply (queue_step_trans _ _ _ _ (mk_traffic (x :: data) [] [] [])) with (1 := Hq).
    destruct Hq as ((? & ? & ?) & _). split; [split_and!; simpl in *; rewrite ?length_app; simpl in *; lia|].
    split; [done|]. unfold pending. simpl. rewrite Hz, !drop_0, !app_nil_r. done.
Qed.

Lemma tls_do_step c op c' t : tls_inv c -> tls_do c op = (c', t) -> queue_step c c' t.
Proof.
  intros Hi. destruct op as [d| |n|b|n|]; cbn [tls_do].
  - pose proof (feed_spec c d Hi) as Hf. destruct (ioh_tls_feed_input c (Some d)) as [c1 rc].
    intros [= <- <-]. apply Hf.
  - unfold ioh_tls_handshake. destruct (handshake_done c) eqn:Eh.
    { intros [= <- <-]. by apply queue_step_refl. }
    unfold ssl_traffic. destruct (run_ssl c _) as [[[c1 a] g] w] eqn:E.
    pose proof (run_ssl_step _ _ _ _ _ _ Hi E) as (H1 & H2 & H3).
    destruct (a =? WOLFSSL_SUCCESS)%Z; intros [= <- <-]; (split; [exact H1|]); (split; [exact H2|exact H3]).
  - unfold ioh_tls_read, ssl_traffic. destruct (run_ssl c _) as [[[c1 [a dd]] g] w] eqn:E.
    pose proof (run_ssl_step _ _ _ _ _ _ Hi E). destruct (0 <? a)%Z; intros [= <- <-]; done.
  - unfold ioh_tls_write, ssl_traffic. destruct (run_ssl c _) as [[[c1 a] g] w] eqn:E.
    pose proof (run_ssl_step _ _ _ _ _ _ Hi E). destruct (0 <? a)%Z; intros [= <- <-]; done.
  - intros [= <- <-]. destruct Hi as (? & ? & ?). unfold ioh_tls_consume_output, ioh_tls_get_output.
    destruct (Nat.eqb_spec n 0) as [->|Hn]; [by apply queue_step_refl|].
    destruct (Nat.leb_spec (length (cipher_out c)) n); (split; [split_and!; simpl; rewrite ?length_drop; lia|]);
      (split; [done|]); unfold pending; simpl; rewrite !app_nil_r; (split; [done|]).
    + by rewrite take_ge.
    + by rewrite take_drop.
  - unfold ioh_tls_shutdown, ssl_traffic. destruct (run_ssl c _) as [[[c1 a] g] w] eqn:E.
    pose proof (run_ssl_step _ _ _ _ _ _ Hi E). destruct (a =? WOLFSSL_SUCCESS)%Z; [intros [= <- <-]; done|].
    destruct (error_of c1 a); intros [= <- <-]; done.
Qed.

Lemma tls_run_step c ops : tls_inv c -> queue_step c (fst (tls_run c ops)) (snd (tls_run c ops)).
Proof.
  revert c. induction ops as [|op ops IH]; intros c Hi; simpl; [by apply queue_step_refl|].
  destruct (tls_do c op) as [c1 t] eqn:E. pose proof (tls_do_step _ _ _ _ Hi E) as H1.
  specialize (IH c1 (proj1 H1)). destruct (tls_run c1 ops) as [c2 u]. exact (queue_step_trans _ _ _ _ _ H1 IH).
Qed.

(** C35: the TLS buffers are two queues, whatever the TLS library does.  After any
    sequence of calls on a fresh connection, the ciphertext accepted from the
    network is what the library was given followed by what is still buffered, in
    order, with nothing lost or repeated; what the library produced is what was
    taken for sending followed by what is still buffered; both buffers stay within
    their capacity; and input is refused, with ENOMEM, exactly when it does not
    fit beside what is buffered. *)
Theorem tls_buffers_are_queues ctx h c h' ops data :
  ioh_tls_conn_create ctx h = (Some c, h') ->
  let '(c', t) := tls_run c ops in
  fed t = got t ++ pending c' /\ put t = sent t ++ cipher_out c'
  /\ length (pending c') ≤ IOH_TLS_CIPHER_BUF_SIZE /\ length (cipher_out c') ≤ IOH_TLS_CIPHER_BUF_SIZE
  /\ (data ≠ [] -> snd (ioh_tls_feed_input c' (Some data)) =
        if decide (length (pending c') + length data ≤ IOH_TLS_CIPHER_BUF_SIZE) then Ok tt else Err ENOMEM).
Proof.
  intros Hc. assert (Hi : tls_inv c /\ cipher_in c = [] /\ cipher_out c = [] /\ pending c = []
    /\ cipher_in_cap c = IOH_TLS_CIPHER_BUF_SIZE /\ cipher_out_cap c = IOH_TLS_CIPHER_BUF_SIZE).
  { unfold ioh_tls_conn_create in Hc. repeat brk_in Hc; simplify_eq; (split; [split_and!; simpl; lia|done]). }
  destruct Hi as (Hi & _ & Ho & Hp & C1 & C2). pose proof (tls_run_step c ops Hi) as Hq.
  destruct (tls_run c ops) as [c' t]. destruct Hq as (Hi' & [S1 S2] & P & O). cbn [fst snd] in *.
  rewrite Hp in P. rewrite Ho in O. cbn [app] in *. pose proof Hi' as (Hp' & Hc' & Ho').
  split; [done|]. split; [done|]. split; [unfold pending; rewrite length_drop; lia|]. split; [lia|].
  intros Hd. pose proof (feed_spec c' data Hi') as Hf. destruct (ioh_tls_feed_input c' (Some data)) as [c2 rc].
  cbn [snd].  destruct Hf as [-> _]. rewrite S1, C1. by rewrite (decide_False (P := data = [])).
Qed.

End Tls.

(** A toy library: sessions count the bytes they echo. *)
#[local] Instance toy_ssl : WolfSSL unit unit := {|
  ssl_new _ := Some tt;
  ssl_use_alpn s _ := (WOLFSSL_SUCCESS, s);
  ssl_accept s := SslRecv 4 (fun _ => SslSend (bs "hello") (fun _ => SslRet WOLFSSL_SUCCESS s));
  ssl_read s n := SslRecv n (fun a => SslRet (match a with IoData b => (Z.of_nat (length b), b) | IoWant => (0%Z, []) end) s);
  ssl_write s b := SslSend b (fun _ => SslRet (Z.of_nat (length b)) s);
  ssl_shutdown s := SslRet WOLFSSL_SUCCESS s;
  ssl_get_error _ _ := WOLFSSL_ERROR_WANT_READ;
  ssl_alpn _ := None;
|}.

Lemma tls_buffers_are_queues_witness :
  exists c, ioh_tls_conn_create (Some (mk_tls_ctx tt None)) [] = (Some c, [])
    /\ fed (snd (tls_run c [TFeed (bs "abcdef"); THandshake; TConsume 2])) = bs "abcdef"
    /\ (let '(c', t) := tls_run c [TFeed (bs "abcdef"); THandshake; TConsume 2] in
        fed t = got t ++ pending c' /\ pending c' = bs "ef" /\ sent t = bs "he").
Proof.
  eexists. split; [reflexivity|]. split; [reflexivity|].
  pose proof (tls_buffers_are_queues (Some (mk_tls_ctx tt None)) [] _ [] [TFeed (bs "abcdef"); THandshake; TConsume 2] [x00] eq_refl) as H.
  destruct (tls_run _ _) as [c' t] eqn:E. destruct H as (H & _). split; [exact H|].
  vm_compute in E. injection E as <- <-. split; reflexivity.
Defined.
