(* ===== verification/TlsCtx.v ===== *)
(** * TLS contexts

    [ioh_tls_ctx_create] and [ioh_tls_ctx_destroy] of [src/src/tls/ioh_tls.c].  wolfSSL's
    context calls are the class [WolfCtx]; what they are documented to set is [WolfCtxLaws].
    [tls_lib] is the process-wide state: the initialisation flag, how often the library was
    initialised, and the number of contexts and of copies of ALPN texts that are allocated. *)
From S2P Require Import Prelude CString Tls.

Definition WOLFSSL_TLSV1_2 : Z := 3.

(** A failing call gives [false]. *)
Class WolfCtx (X : Type) := {
  ctx_new : option X;
  ctx_min_version : X -> Z -> bool * X;
  ctx_certificate_file : X -> bytes -> bool * X;
  ctx_key_file : X -> bytes -> bool * X;
  ctx_verify_locations : X -> bytes -> bool * X;
  ctx_set_verify : X -> X;              (* a certificate of the peer, or failure *)
  ctx_cache_off : X -> X;
  ctx_no_ticket : X -> X;
  ctx_io_callbacks : X -> X;            (* both, and the moving write buffer *)
}.

Record tls_lib := mk_tls_lib {
  wolfssl_initialized : bool;
  lib_inits : nat;
  lib_contexts : nat;
  lib_alpn_copies : nat;
}.

Definition ensure_wolfssl_init (l : tls_lib) : tls_lib :=
  if wolfssl_initialized l then l else mk_tls_lib true (S (lib_inits l)) (lib_contexts l) (lib_alpn_copies l).

Definition add_context (l : tls_lib) : tls_lib := mk_tls_lib (wolfssl_initialized l) (lib_inits l) (S (lib_contexts l)) (lib_alpn_copies l).
Definition free_context (l : tls_lib) : tls_lib := mk_tls_lib (wolfssl_initialized l) (lib_inits l) (lib_contexts l - 1) (lib_alpn_copies l).
Definition add_copy (l : tls_lib) : tls_lib := mk_tls_lib (wolfssl_initialized l) (lib_inits l) (lib_contexts l) (S (lib_alpn_copies l)).
Definition free_copy (l : tls_lib) : tls_lib := mk_tls_lib (wolfssl_initialized l) (lib_inits l) (lib_contexts l) (lib_alpn_copies l - 1).

Section TlsCtx.
Context {X : Type} `{WC : WolfCtx X}.

(** Version, certificate, key and, when given, the certificates of the authorities. *)
Definition load_files (cfg : ioh_tls_config_t) (x : X) : option X :=
  let step (r : bool * X) := if fst r then Some (snd r) else None in
  x ← step (ctx_min_version x WOLFSSL_TLSV1_2);
  x ← step (ctx_certificate_file x (default [] (cert_file cfg)));
  x ← step (ctx_key_file x (default [] (key_file cfg)));
  match ca_file cfg with
  | Some ca => step (ctx_verify_locations x ca)
  | None => Some x
  end.

Definition set_policy (cfg : ioh_tls_config_t) (x : X) : X :=
  let x := if require_client_cert cfg then ctx_set_verify x else x in
  let x := if (session_cache_size cfg =? 0)%Z then ctx_cache_off x else x in
  if negb (enable_session_tickets cfg) then ctx_no_ticket x else x.

Definition ioh_tls_ctx_create (cfg : option ioh_tls_config_t) (l : tls_lib) (h : heap) : option (ioh_tls_ctx X) * tls_lib * heap :=
  match cfg, ioh_tls_config_validate cfg with
  | Some cfg, Ok _ =>
      let l := ensure_wolfssl_init l in
      let '(ok, h) := xalloc h in
      if negb ok then (None, l, h) else
      match ctx_new with
      | None => (None, l, h)
      | Some x =>
          let l := add_context l in
          match load_files cfg x with
          | None => (None, free_context l, h)
          | Some x =>
              let x := set_policy cfg x in
              match alpn cfg with
              | None => (Some (mk_tls_ctx (ctx_io_callbacks x) None), l, h)
              | Some a =>
                  let '(ok, h) := xalloc h in
                  if negb ok then (None, free_context l, h)
                  else (Some (mk_tls_ctx (ctx_io_callbacks x) (Some (c_str a))), add_copy l, h)
              end
          end
      end
  | _, _ => (None, l, h)
  end.

Definition ioh_tls_ctx_destroy (ctx : option (ioh_tls_ctx X)) (l : tls_lib) : tls_lib :=
  match ctx with
  | None => l
  | Some c => let l := free_context l in match alpn_copy c with Some _ => free_copy l | None => l end
  end.
End TlsCtx.

(** ** What the library documents *)

Record ctx_settings := mk_settings {
  cs_min_version : Z;
  cs_certificate : option bytes;
  cs_key : option bytes;
  cs_authorities : option bytes;
  cs_verify_peer : bool;
  cs_cache : bool;
  cs_tickets : bool;
  cs_callbacks : bool;
}.

(** A successful call sets what it is for and nothing else; a new context has its defaults. *)
Class WolfCtxLaws (X : Type) `{WolfCtx X} := {
  settings : X -> ctx_settings;
  new_settings x : ctx_new = Some x -> exists v, settings x = mk_settings v None None None false true true false;
  min_version_settings x v x' : ctx_min_version x v = (true, x') ->
    settings x' = mk_settings v (cs_certificate (settings x)) (cs_key (settings x)) (cs_authorities (settings x)) (cs_verify_peer (settings x)) (cs_cache (settings x)) (cs_tickets (settings x)) (cs_callbacks (settings x));
  certificate_settings x f x' : ctx_certificate_file x f = (true, x') ->
    settings x' = mk_settings (cs_min_version (settings x)) (Some f) (cs_key (settings x)) (cs_authorities (settings x)) (cs_verify_peer (settings x)) (cs_cache (settings x)) (cs_tickets (settings x)) (cs_callbacks (settings x));
  key_settings x f x' : ctx_key_file x f = (true, x') ->
    settings x' = mk_settings (cs_min_version (settings x)) (cs_certificate (settings x)) (Some f) (cs_authorities (settings x)) (cs_verify_peer (settings x)) (cs_cache (settings x)) (cs_tickets (settings x)) (cs_callbacks (settings x));
  authorities_settings x f x' : ctx_verify_locations x f = (true, x') ->
    settings x' = mk_settings (cs_min_version (settings x)) (cs_certificate (settings x)) (cs_key (settings x)) (Some f) (cs_verify_peer (settings x)) (cs_cache (settings x)) (cs_tickets (settings x)) (cs_callbacks (settings x));
  verify_settings x :
    settings (ctx_set_verify x) = mk_settings (cs_min_version (settings x)) (cs_certificate (settings x)) (cs_key (settings x)) (cs_authorities (settings x)) true (cs_cache (settings x)) (cs_tickets (settings x)) (cs_callbacks (settings x));
  cache_settings x :
    settings (ctx_cache_off x) = mk_settings (cs_min_version (settings x)) (cs_certificate (settings x)) (cs_key (settings x)) (cs_authorities (settings x)) (cs_verify_peer (settings x)) false (cs_tickets (settings x)) (cs_callbacks (settings x));
  ticket_settings x :
    settings (ctx_no_ticket x) = mk_settings (cs_min_version (settings x)) (cs_certificate (settings x)) (cs_key (settings x)) (cs_authorities (settings x)) (cs_verify_peer (settings x)) (cs_cache (settings x)) false (cs_callbacks (settings x));
  callbacks_settings x :
    settings (ctx_io_callbacks x) = mk_settings (cs_min_version (settings x)) (cs_certificate (settings x)) (cs_key (settings x)) (cs_authorities (settings x)) (cs_verify_peer (settings x)) (cs_cache (settings x)) (cs_tickets (settings x)) true;
}.

Section Policy.
Context {X : Type} `{WL : WolfCtxLaws X}.

(** The settings a configuration asks for. *)
Definition wanted (cfg : ioh_tls_config_t) : ctx_settings :=
  mk_settings WOLFSSL_TLSV1_2 (cert_file cfg) (key_file cfg) (ca_file cfg) (require_client_cert cfg)
    (negb (session_cache_size cfg =? 0)%Z) (enable_session_tickets cfg) true.

Lemma load_files_settings cfg (x x' : X) v :
  settings x = mk_settings v None None None false true true false -> is_Some (cert_file cfg) -> is_Some (key_file cfg) ->
  load_files cfg x = Some x' -> settings x' = mk_settings WOLFSSL_TLSV1_2 (cert_file cfg) (key_file cfg) (ca_file cfg) false true true false.
Proof.
  intros Hx [cf Ec] [kf Ek]. unfold load_files. rewrite Ec, Ek. cbn [default].
  destruct (ctx_min_version x _) as [[] x1] eqn:E1; [|done]. cbn [fst snd mbind option_bind]. apply min_version_settings in E1.
  destruct (ctx_certificate_file x1 _) as [[] x2] eqn:E2; [|done]. cbn [fst snd mbind option_bind]. apply certificate_settings in E2.
  destruct (ctx_key_file x2 _) as [[] x3] eqn:E3; [|done]. cbn [fst snd mbind option_bind]. apply key_settings in E3.
  assert (H3 : settings x3 = mk_settings WOLFSSL_TLSV1_2 (Some cf) (Some kf) None false true true false) by (rewrite E3, E2, E1, Hx; done).
  destruct (ca_file cfg) as [ca|]; [|intros [= <-]; done].
  destruct (ctx_verify_locations x3 ca) as [[] x4] eqn:E4; [|done]. cbn [fst snd]. intros [= <-]. apply authorities_settings in E4. by rewrite E4, H3.
Qed.

Lemma policy_settings cfg (x : X) :
  settings x = mk_settings WOLFSSL_TLSV1_2 (cert_file cfg) (key_file cfg) (ca_file cfg) false true true false ->
  settings (ctx_io_callbacks (set_policy cfg x)) = wanted cfg.
Proof.
  intros Hx. rewrite callbacks_settings. unfold set_policy, wanted.
  destruct (require_client_cert cfg), (session_cache_size cfg =? 0)%Z, (enable_session_tickets cfg); cbn [negb];
    repeat (rewrite ticket_settings || rewrite cache_settings || rewrite verify_settings); by rewrite Hx.
Qed.

(** A context enforces its configuration.  For every outcome of the library's calls and of
    the allocations: a context that is created has TLS 1.2 as its minimum, the
    configured certificate and key, asks the peer for a certificate exactly when that was
    configured, and has the cache, the tickets and the authorities configured; one context
    (and the copy of the ALPN text, if there is one) is then allocated more, and destroying it
    restores the count; when none is created nothing stays allocated; and the library
    is initialised at most once. *)
Theorem tls_ctx_enforces cfg l h :
  let '(ctx, l', h') := ioh_tls_ctx_create (X := X) cfg l h in
  (lib_inits l' <= S (lib_inits l))%nat /\ (wolfssl_initialized l = true -> lib_inits l' = lib_inits l)
  /\ match ctx with
     | Some c =>
         exists k, cfg = Some k /\ settings (wolf_ctx c) = wanted k /\ alpn_copy c = c_str <$> alpn k /\ wolfssl_initialized l' = true
           /\ lib_contexts l' = S (lib_contexts l)
           /\ lib_contexts (ioh_tls_ctx_destroy (Some c) l') = lib_contexts l /\ lib_alpn_copies (ioh_tls_ctx_destroy (Some c) l') = lib_alpn_copies l
     | None => lib_contexts l' = lib_contexts l /\ lib_alpn_copies l' = lib_alpn_copies l
     end.
Proof.
  unfold ioh_tls_ctx_create. destruct cfg as [k|]; [|simpl; split_and!; auto]. unfold ioh_tls_config_validate.
  destruct (cert_file k) as [cf|] eqn:Ec; [|simpl; split_and!; auto]. destruct (key_file k) as [kf|] eqn:Ek; [|simpl; split_and!; auto].
  assert (Hl : let l1 := ensure_wolfssl_init l in (lib_inits l1 <= S (lib_inits l))%nat /\ (wolfssl_initialized l = true -> lib_inits l1 = lib_inits l)
           /\ wolfssl_initialized l1 = true /\ lib_contexts l1 = lib_contexts l /\ lib_alpn_copies l1 = lib_alpn_copies l).
  { unfold ensure_wolfssl_init. destruct (wolfssl_initialized l) eqn:E; cbn; split_and!; auto; lia || done. }
  cbn zeta in *. set (l1 := ensure_wolfssl_init l) in *. clearbody l1. destruct Hl as (H1 & H2 & H3 & H4 & H5).
  destruct (xalloc h) as [[] h1]; cbn [negb]; [|split_and!; auto]. destruct ctx_new as [x|] eqn:En; [|split_and!; auto].
  destruct (new_settings x En) as [v Hx]. destruct (load_files k x) as [x1|] eqn:El; [|cbn; split_and!; auto; lia].
  assert (Hs : settings (ctx_io_callbacks (set_policy k x1)) = wanted k) by (eapply policy_settings, load_files_settings; eauto; rewrite ?Ec, ?Ek; eauto).
  destruct (alpn k) as [a|] eqn:Ea.
  - destruct (xalloc h1) as [[] h2]; cbn [negb]; [|cbn; split_and!; auto; lia]. cbn. split_and!; auto. exists k. rewrite Ea. split_and!; auto; lia.
  - cbn. split_and!; auto. exists k. rewrite Ea. split_and!; auto; lia.
Qed.
End Policy.

(** A library whose contexts are their settings and whose calls succeed. *)
#[export] Instance plain_ctx : WolfCtx ctx_settings := {
  ctx_new := Some (mk_settings 0 None None None false true true false);
  ctx_min_version s v := (true, mk_settings v (cs_certificate s) (cs_key s) (cs_authorities s) (cs_verify_peer s) (cs_cache s) (cs_tickets s) (cs_callbacks s));
  ctx_certificate_file s f := (true, mk_settings (cs_min_version s) (Some f) (cs_key s) (cs_authorities s) (cs_verify_peer s) (cs_cache s) (cs_tickets s) (cs_callbacks s));
  ctx_key_file s f := (true, mk_settings (cs_min_version s) (cs_certificate s) (Some f) (cs_authorities s) (cs_verify_peer s) (cs_cache s) (cs_tickets s) (cs_callbacks s));
  ctx_verify_locations s f := (true, mk_settings (cs_min_version s) (cs_certificate s) (cs_key s) (Some f) (cs_verify_peer s) (cs_cache s) (cs_tickets s) (cs_callbacks s));
  ctx_set_verify s := mk_settings (cs_min_version s) (cs_certificate s) (cs_key s) (cs_authorities s) true (cs_cache s) (cs_tickets s) (cs_callbacks s);
  ctx_cache_off s := mk_settings (cs_min_version s) (cs_certificate s) (cs_key s) (cs_authorities s) (cs_verify_peer s) false (cs_tickets s) (cs_callbacks s);
  ctx_no_ticket s := mk_settings (cs_min_version s) (cs_certificate s) (cs_key s) (cs_authorities s) (cs_verify_peer s) (cs_cache s) false (cs_callbacks s);
  ctx_io_callbacks s := mk_settings (cs_min_version s) (cs_certificate s) (cs_key s) (cs_authorities s) (cs_verify_peer s) (cs_cache s) (cs_tickets s) true;
}.

#[export] Instance plain_ctx_laws : WolfCtxLaws ctx_settings.
Proof.
  apply (Build_WolfCtxLaws _ _ (fun s => s)); try done; try (intros s f s' [= <-]; done). intros s [= <-]. eauto.
Defined.

(** Client certificates can be required without naming an authority: no peer can then be
    verified. *)
Example required_without_authority :
  exists c l h, ioh_tls_ctx_create (X := ctx_settings) (Some (mk_tls_config (Some (bs "c.pem")) (Some (bs "k.pem")) None true false 256 None)) (mk_tls_lib false 0 0 0) []
    = (Some c, l, h) /\ cs_verify_peer (wolf_ctx c) = true /\ cs_authorities (wolf_ctx c) = None.
Proof. vm_compute. eauto 6. Qed.
