(* ===== verification/Pico.v ===== *)
(** The HTTP request parser [src/src/http/picohttpparser.c], as the HTTP/1 layer
    uses it: tokens, header lines, the request line and [phr_parse_request].

    A position in the buffer is an offset together with the bytes from it to the
    end of the input; tokens are reported as offset and length.  [simd] selects
    the build with SSE4.2, in which [findchar_fast] skips ahead in blocks of 16; the
    other build scans header values in blocks of 8. *)
From S2P Require Import Prelude CString.

(** ** Results *)

(** A parse step: done at a position, malformed ([ret = -1]), or the input ended
    ([ret = -2]). *)
Inductive pres (A : Type) :=
| PDone (a : A) (pos : nat) (rest : bytes)
| PFail
| PPartial.
Arguments PDone {A}.
Arguments PFail {A}.
Arguments PPartial {A}.

Definition pbind {A B} (m : pres A) (f : A -> nat -> bytes -> pres B) : pres B :=
  match m with
  | PDone a pos rest => f a pos rest
  | PFail => PFail
  | PPartial => PPartial
  end.

(** A token: its offset and length. *)
Record tokn := mk_tok { t_off : nat; t_len : nat }.

Record phr_header := mk_phr_header {
  ph_name : option tokn;        (* [None]: the continuation of the previous line *)
  ph_value : tokn;
}.

(** ** Characters *)

Definition is_printable_ascii (b : byte) : bool := ((32 <=? b2z b) && (b2z b <? 127))%Z.

(** [token_char_map]. *)
Definition token_char (b : byte) : bool :=
  let c := b2z b in
  ((c =? 33) || ((35 <=? c) && (c <=? 39)) || (c =? 42) || (c =? 43) || (c =? 45) || (c =? 46)
   || ((48 <=? c) && (c <=? 57)) || ((65 <=? c) && (c <=? 90)) || ((94 <=? c) && (c <=? 122))
   || (c =? 124) || (c =? 126))%Z.

(** A control character other than HT, or DEL. *)
Definition is_ctl (b : byte) : bool :=
  negb (is_printable_ascii b) && (((b2z b <? 32)%Z && negb (b =b HT)) || (b =b x7f)).

(** A control character (HT included) or DEL. *)
Definition is_ctl_or_ht (b : byte) : bool :=
  negb (is_printable_ascii b) && ((b2z b <? 32)%Z || (b =b x7f)).

Definition blank (b : byte) : bool := (b =b SP) || (b =b HT).

(** ** [findchar_fast] *)

(** Is the byte in one of the ranges? *)
Definition in_ranges (rs : list (byte * byte)) (b : byte) : bool :=
  existsb (fun r => ((b2z (fst r) <=? b2z b) && (b2z b <=? b2z (snd r)))%Z) rs.

(** [_mm_cmpestri] over 16 bytes: the index of the first byte in a range, or 16. *)
Fixpoint cmpestri (rs : list (byte * byte)) (l : bytes) (i : nat) : nat :=
  match l with
  | [] => i
  | b :: l => if in_ranges rs b then i else cmpestri rs l (S i)
  end.

(** [blocks] is the number of whole 16-byte blocks left. *)
Fixpoint findchar_fast (rs : list (byte * byte)) (blocks pos : nat) (rest : bytes)
    : nat * bytes * bool :=
  match blocks with
  | O => (pos, rest, false)
  | S blocks =>
      let r := cmpestri rs (take 16 rest) 0 in
      if negb (r =? 16) then (pos + r, drop r rest, true)
      else findchar_fast rs blocks (pos + 16) (drop 16 rest)
  end.

Definition findchar (simd : bool) (rs : list (byte * byte)) (pos : nat) (rest : bytes)
    : nat * bytes * bool :=
  if simd then findchar_fast rs (length rest / 16) pos rest else (pos, rest, false).

(** ** Tokens *)

(** The loop of [parse_token] and of [ADVANCE_TOKEN]: up to the stop byte. *)
Fixpoint token_loop (stop ok : byte -> bool) (start pos : nat) (rest : bytes) : pres tokn :=
  match rest with
  | [] => PPartial
  | b :: rest' =>
      if stop b then PDone (mk_tok start (pos - start)) pos rest
      else if negb (ok b) then PFail
      else token_loop stop ok start (S pos) rest'
  end.

Definition token_ranges : list (byte * byte) :=
  [(x00, x20); (x22, x22); (x28, x29); (x2c, x2c); (x2f, x2f); (x3a, x40); (x5b, x5d); (x7b, xff)].

Definition parse_token (simd : bool) (next_char : byte) (pos : nat) (rest : bytes) : pres tokn :=
  let '(p, r, _) := findchar simd token_ranges pos rest in
  token_loop (fun b => b =b next_char) token_char pos p r.

Definition path_ranges : list (byte * byte) := [(x00, x20); (x7f, x7f)].

(** [ADVANCE_TOKEN]. *)
Definition advance_token (simd : bool) (pos : nat) (rest : bytes) : pres tokn :=
  let '(p, r, _) := findchar simd path_ranges pos rest in
  token_loop (fun b => b =b SP) (fun b => negb (is_ctl_or_ht b)) pos p r.

(** [do { ++buf; CHECK_EOF(); } while ( *buf == ' ')], after the first step. *)
Fixpoint skip_spaces (pos : nat) (rest : bytes) : pres unit :=
  match rest with
  | [] => PPartial
  | b :: rest' => if b =b SP then skip_spaces (S pos) rest' else PDone tt pos rest
  end.

Definition eol_ranges : list (byte * byte) := [(x00, x08); (x0a, x1f); (x7f, x7f)].

(** From the control character at [pos] that ends the line that began at [start]. *)
Definition found_ctl (start pos : nat) (rest : bytes) : pres tokn :=
  match rest with
  | b :: rest' =>
      if b =b CR then
        match rest' with
        | [] => PPartial
        | c :: rest'' => if c =b LF then PDone (mk_tok start (pos - start)) (pos + 2) rest'' else PFail
        end
      else if b =b LF then PDone (mk_tok start (pos - start)) (S pos) rest'
      else PFail
  | [] => PPartial
  end.

Fixpoint eol_loop (start pos : nat) (rest : bytes) : pres tokn :=
  match rest with
  | [] => PPartial
  | b :: rest' => if is_ctl b then found_ctl start pos rest else eol_loop start (S pos) rest'
  end.

(** [n] [DOIT()]s: past printable bytes, to the first other one ([NonPrintable]). *)
Fixpoint doit (n pos : nat) (rest : bytes) : nat * bytes * bool :=
  match n, rest with
  | S n, b :: rest' => if is_printable_ascii b then doit n (S pos) rest' else (pos, rest, true)
  | _, _ => (pos, rest, false)
  end.

(** The portable build's loop over blocks of eight bytes; the flag is the jump to
    [FOUND_CTL].  Every turn consumes a byte. *)
Fixpoint eol_blocks (fuel pos : nat) (rest : bytes) : nat * bytes * bool :=
  match fuel with
  | O => (pos, rest, false)
  | S fuel =>
      if length rest <? 8 then (pos, rest, false) else
      let '(p, r, non_printable) := doit 8 pos rest in
      if non_printable then
        if is_ctl (char_at r 0) then (p, r, true) else eol_blocks fuel (S p) (drop 1 r)
      else eol_blocks fuel p r
  end.

Definition get_token_to_eol (simd : bool) (pos : nat) (rest : bytes) : pres tokn :=
  let '(p, r, found) := if simd then findchar true eol_ranges pos rest
                        else eol_blocks (length rest) pos rest in
  if found then found_ctl pos p r else eol_loop pos p r.

(** ** Header lines *)

Fixpoint skip_blanks (pos : nat) (rest : bytes) : pres unit :=
  match rest with
  | [] => PPartial
  | b :: rest' => if blank b then skip_blanks (S pos) rest' else PDone tt pos rest
  end.

(** The length of the first [n] bytes of [v] without trailing blanks. *)
Fixpoint trim_blanks (v : bytes) (n : nat) : nat :=
  match n with
  | O => 0
  | S n' => if blank (char_at v n') then trim_blanks v n' else n
  end.

(** The name part of a header line, up to its value. *)
Definition parse_name (simd : bool) (first : bool) (pos : nat) (rest : bytes) : pres (option tokn) :=
  if negb (negb first && blank (char_at rest 0)) then
    pbind (parse_token simd ":"%byte pos rest) (fun t pos rest =>
      if t_len t =? 0 then PFail else
      pbind (skip_blanks (S pos) (drop 1 rest)) (fun _ pos rest => PDone (Some t) pos rest))
  else PDone None pos rest.

(** [parse_headers]; [acc] holds the headers so far, last first.  Every header
    line consumes a byte: fuel [length rest + 1] is enough. *)
Fixpoint parse_headers (simd : bool) (fuel : nat) (acc : list phr_header) (max_headers : nat)
    (pos : nat) (rest : bytes) : pres (list phr_header) :=
  match fuel with
  | O => PFail
  | S fuel =>
      match rest with
      | [] => PPartial
      | b :: rest' =>
          if b =b CR then
            match rest' with
            | [] => PPartial
            | c :: rest'' => if c =b LF then PDone (rev acc) (pos + 2) rest'' else PFail
            end
          else if b =b LF then PDone (rev acc) (S pos) rest'
          else if length acc =? max_headers then PFail
          else
            pbind (parse_name simd (length acc =? 0) pos rest) (fun name pos rest =>
            pbind (get_token_to_eol simd pos rest) (fun v pos' rest' =>
              let value := mk_tok (t_off v) (trim_blanks rest (t_len v)) in
              parse_headers simd fuel (mk_phr_header name value :: acc) max_headers pos' rest'))
      end
  end.

(** ** The request line *)

Definition parse_http_version (pos : nat) (rest : bytes) : pres Z :=
  if length rest <? 9 then PPartial else
  if negb (bytes_eqb (take 7 rest) (bs "HTTP/1.")) then PFail else
  match drop 7 rest with
  | b :: rest' => if is_digit b then PDone (digit_val b) (pos + 8) rest' else PFail
  | [] => PPartial
  end.

(** A line end: CRLF or LF. *)
Definition line_end (pos : nat) (rest : bytes) : pres unit :=
  match rest with
  | b :: rest' =>
      if b =b CR then
        match rest' with
        | [] => PPartial
        | c :: rest'' => if c =b LF then PDone tt (pos + 2) rest'' else PFail
        end
      else if b =b LF then PDone tt (S pos) rest' else PFail
  | [] => PPartial
  end.

(** An optional empty line before the request. *)
Definition skip_empty_line (pos : nat) (rest : bytes) : pres unit :=
  match rest with
  | [] => PPartial
  | b :: rest' =>
      if b =b CR then
        match rest' with
        | [] => PPartial
        | c :: rest'' => if c =b LF then PDone tt (pos + 2) rest'' else PFail
        end
      else if b =b LF then PDone tt (S pos) rest' else PDone tt pos rest
  end.

Record phr_request := mk_phr_request {
  pr_method : tokn;
  pr_path : tokn;
  pr_minor_version : Z;
  pr_headers : list phr_header;
}.

Definition parse_request (simd : bool) (max_headers pos : nat) (rest : bytes) : pres phr_request :=
  pbind (skip_empty_line pos rest) (fun _ pos rest =>
  pbind (parse_token simd SP pos rest) (fun method pos rest =>
  pbind (skip_spaces (S pos) (drop 1 rest)) (fun _ pos rest =>
  pbind (advance_token simd pos rest) (fun path pos rest =>
  pbind (skip_spaces (S pos) (drop 1 rest)) (fun _ pos rest =>
    if (t_len method =? 0) || (t_len path =? 0) then PFail else
  pbind (parse_http_version pos rest) (fun minor pos rest =>
  pbind (line_end pos rest) (fun _ pos rest =>
  pbind (parse_headers simd (S (length rest)) [] max_headers pos rest) (fun hs pos rest =>
    PDone (mk_phr_request method path minor hs) pos rest)))))))).

(** [is_complete]: two line ends in a row, from shortly before the new data. *)
Fixpoint complete_loop (fuel ret_cnt : nat) (rest : bytes) : pres unit :=
  match fuel with
  | O => PPartial
  | S fuel =>
      let continue ret_cnt rest :=
        if ret_cnt =? 2 then PDone tt 0 rest else complete_loop fuel ret_cnt rest in
      match rest with
      | [] => PPartial
      | b :: rest =>
          if b =b CR then
            match rest with
            | [] => PPartial
            | c :: rest => if c =b LF then continue (S ret_cnt) rest else PFail
            end
          else if b =b LF then continue (S ret_cnt) rest
          else continue 0 rest
      end
  end.

Definition is_complete (buf : bytes) (last_len : nat) : pres unit :=
  complete_loop (S (length buf)) 0 (if last_len <? 3 then buf else drop (last_len - 3) buf).

(** The position of the result is the number of bytes consumed. *)
Definition phr_parse_request (simd : bool) (buf : bytes) (max_headers last_len : nat) : pres phr_request :=
  let go := parse_request simd max_headers 0 buf in
  if last_len =? 0 then go
  else match is_complete buf last_len with
       | PDone _ _ _ => go
       | PFail => PFail
       | PPartial => PPartial
       end.
