(* ===== verification/PicoThms.v ===== *)
(** Theorems on the request parser: the SSE4.2 build equals the portable one,
    incremental parsing is consistent, and a rendered request parses to its
    parts. *)
From S2P Require Import Prelude CString Pico.

(** ** The vectorised scan *)

Lemma cmpestri_spec rs l i :
  exists s r, l = s ++ r /\ cmpestri rs l i = i + length s
    /\ Forall (fun b => in_ranges rs b = false) s
    /\ match r with [] => True | b :: _ => in_ranges rs b = true end.
Proof.
  revert i. induction l as [|b l IH]; intros i; cbn [cmpestri].
  - exists [], []. split_and!; try done; simpl; lia.
  - destruct (in_ranges rs b) eqn:E.
    + exists [], (b :: l). split_and!; try done; simpl; lia.
    + destruct (IH (S i)) as (s & r & -> & Hc & Hs & Hr). exists (b :: s), r.
      split_and!; try done; [rewrite Hc; simpl; lia|by constructor].
Qed.

Lemma findchar_fast_spec rs blocks pos rest p r found :
  16 * blocks ≤ length rest ->
  findchar_fast rs blocks pos rest = (p, r, found) ->
  exists s, rest = s ++ r /\ p = pos + length s /\ Forall (fun b => in_ranges rs b = false) s
    /\ (found = true -> exists b r', r = b :: r' /\ in_ranges rs b = true).
Proof.
  revert pos rest. induction blocks as [|blocks IH]; intros pos rest Hl; cbn [findchar_fast].
  { intros [= <- <- <-]. exists []. split_and!; try done; simpl; lia. }
  destruct (cmpestri_spec rs (take 16 rest) 0) as (s & q & Hsq & Hc & Hs & Hq). rewrite Hc.
  assert (Hrest : rest = s ++ q ++ drop 16 rest) by (rewrite app_assoc, <- Hsq; by rewrite take_drop).
  assert (Hlen : length s + length q = 16).
  { rewrite <- length_app, <- Hsq, length_take. lia. }
  simpl Nat.add. destruct (length s =? 16) eqn:E; cbn [negb]; bprop.
  - assert (q = []) as -> by (destruct q; [done|simpl in Hlen; lia]).
    intros Hf. destruct (IH (pos + 16) (drop 16 rest)) as (s2 & Hs2 & Hp & Hf2 & Hfd); [|done|].
    { rewrite length_drop. lia. }
    exists (s ++ s2). split_and!; try done.
    + rewrite Hrest at 1. rewrite Hs2 at 1. by rewrite <- app_assoc.
    + rewrite length_app. lia.
    + by apply Forall_app.
  - intros [= <- <- <-]. exists s. split_and!; try done.
    + assert (Hd : drop (length s) rest = q ++ drop 16 rest) by (rewrite Hrest at 1; by rewrite drop_app_length).
      by rewrite Hd.
    + intros _. destruct q as [|b q]; [simpl in Hlen; lia|]. exists b, (q ++ drop 16 rest).
      split; [|done]. rewrite Hrest at 1. by rewrite drop_app_length.
Qed.

Lemma findchar_spec simd rs pos rest p r found :
  findchar simd rs pos rest = (p, r, found) ->
  exists s, rest = s ++ r /\ p = pos + length s /\ Forall (fun b => in_ranges rs b = false) s
    /\ (found = true -> exists b r', r = b :: r' /\ in_ranges rs b = true).
Proof.
  unfold findchar. destruct simd.
  - apply findchar_fast_spec. pose proof (Nat.div_mod_eq (length rest) 16). lia.
  - intros [= <- <- <-]. exists []. split_and!; try done; simpl; lia.
Qed.

Lemma token_loop_skip stop ok start pos s r :
  Forall (fun b => stop b = false /\ ok b = true) s ->
  token_loop stop ok start pos (s ++ r) = token_loop stop ok start (pos + length s) r.
Proof.
  intros Hs. revert pos. induction Hs as [|b s [H1 H2] _ IH]; intros pos; [by rewrite Nat.add_0_r|].
  cbn [app token_loop]. rewrite H1, H2. cbn [negb]. rewrite IH. f_equal. simpl. lia.
Qed.

Lemma eol_loop_skip start pos s r :
  Forall (fun b => is_ctl b = false) s ->
  eol_loop start pos (s ++ r) = eol_loop start (pos + length s) r.
Proof.
  intros Hs. revert pos. induction Hs as [|b s H1 _ IH]; intros pos; [by rewrite Nat.add_0_r|].
  cbn [app eol_loop]. rewrite H1, IH. f_equal. simpl. lia.
Qed.

(** What the ranges exclude, byte by byte. *)
Lemma token_ranges_ok b :
  in_ranges token_ranges b = false ->
  (b =b SP) = false /\ (b =b ":"%byte) = false /\ token_char b = true.
Proof. destruct b; vm_compute; intros H; first [discriminate H | done]. Qed.

Lemma path_ranges_ok b :
  in_ranges path_ranges b = false -> (b =b SP) = false /\ negb (is_ctl_or_ht b) = true.
Proof. destruct b; vm_compute; intros H; first [discriminate H | done]. Qed.

Lemma eol_ranges_ok b : in_ranges eol_ranges b = is_ctl b.
Proof. destruct b; reflexivity. Qed.

Lemma parse_token_simd simd c pos rest :
  c = SP \/ c = ":"%byte -> parse_token simd c pos rest = parse_token false c pos rest.
Proof.
  intros Hc. unfold parse_token. destruct (findchar simd _ pos rest) as [[p r] found] eqn:E.
  destruct (findchar_spec _ _ _ _ _ _ _ E) as (s & -> & -> & Hs & _). cbn [findchar].
  symmetry. apply token_loop_skip. eapply Forall_impl; [exact Hs|]. intros b Hb.
  destruct (token_ranges_ok b Hb) as (H1 & H2 & H3). by destruct Hc as [->| ->].
Qed.

Lemma advance_token_simd simd pos rest : advance_token simd pos rest = advance_token false pos rest.
Proof.
  unfold advance_token. destruct (findchar simd _ pos rest) as [[p r] found] eqn:E.
  destruct (findchar_spec _ _ _ _ _ _ _ E) as (s & -> & -> & Hs & _). cbn [findchar].
  symmetry. apply token_loop_skip. eapply Forall_impl; [exact Hs|]. intros b Hb. by apply path_ranges_ok.
Qed.

Lemma doit_spec n pos rest p r np :
  doit n pos rest = (p, r, np) ->
  exists s, rest = s ++ r /\ p = pos + length s /\ Forall (fun b => is_ctl b = false) s
    /\ (np = true -> exists b r', r = b :: r').
Proof.
  revert pos rest. induction n as [|n IH]; intros pos rest.
  { intros [= <- <- <-]. exists []. split_and!; [done|simpl; lia|constructor|done]. }
  destruct rest as [|b rest]; cbn [doit].
  { intros [= <- <- <-]. exists []. split_and!; [done|simpl; lia|constructor|done]. }
  destruct (is_printable_ascii b) eqn:Eb.
  - intros (s & -> & -> & Hs & Hn)%IH. exists (b :: s). split_and!; [done|simpl; lia| |done].
    constructor; [|done]. unfold is_ctl. by rewrite Eb.
  - intros [= <- <- <-]. exists []. split_and!; [done|simpl; lia|constructor|]. intros _. by eexists _, _.
Qed.

Lemma eol_blocks_spec fuel pos rest p r found :
  eol_blocks fuel pos rest = (p, r, found) ->
  exists s, rest = s ++ r /\ p = pos + length s /\ Forall (fun b => is_ctl b = false) s
    /\ (found = true -> exists b r', r = b :: r' /\ is_ctl b = true).
Proof.
  revert pos rest. induction fuel as [|fuel IH]; intros pos rest; cbn [eol_blocks].
  { intros [= <- <- <-]. exists []. split_and!; [done|simpl; lia|constructor|done]. }
  destruct (_ <? 8).
  { intros [= <- <- <-]. exists []. split_and!; [done|simpl; lia|constructor|done]. }
  destruct (doit 8 pos rest) as [[p1 r1] np] eqn:Ed.
  destruct (doit_spec _ _ _ _ _ _ Ed) as (s1 & -> & -> & Hs1 & Hnp). destruct np.
  - destruct (Hnp eq_refl) as (b & r' & ->). change (char_at (b :: r') 0) with b.
    destruct (is_ctl b) eqn:Eb.
    + intros [= <- <- <-]. exists s1. split_and!; [done|done|done|]. intros _. by eexists _, _.
    + cbn [drop]. rewrite drop_0. intros (s2 & -> & -> & Hs2 & Hf)%IH. exists (s1 ++ b :: s2).
      split_and!; [by rewrite <- app_assoc|llia| |done].
      apply Forall_app. split; [done|by constructor].
  - intros (s2 & -> & -> & Hs2 & Hf)%IH. exists (s1 ++ s2).
    split_and!; [by rewrite <- app_assoc|rewrite length_app; lia| |done]. by apply Forall_app.
Qed.

(** Both builds' scans for the end of a line are the byte-by-byte one. *)
Lemma get_token_to_eol_scalar simd pos rest : get_token_to_eol simd pos rest = eol_loop pos pos rest.
Proof.
  unfold get_token_to_eol.
  assert (Hscan : exists s p r found,
    (if simd then findchar true eol_ranges pos rest else eol_blocks (length rest) pos rest) = (p, r, found)
    /\ rest = s ++ r /\ p = pos + length s /\ Forall (fun b => is_ctl b = false) s
    /\ (found = true -> exists b r', r = b :: r' /\ is_ctl b = true)).
  { destruct simd.
    - destruct (findchar true eol_ranges pos rest) as [[p r] found] eqn:E.
      destruct (findchar_spec _ _ _ _ _ _ _ E) as (s & -> & -> & Hs & Hf). exists s, (pos + length s), r, found.
      split_and!; [done|done|done|eapply Forall_impl; [exact Hs|]; intros b Hb; by rewrite <- eol_ranges_ok|].
      intros Hfd. destruct (Hf Hfd) as (b & r' & -> & Hb). exists b, r'. by rewrite <- eol_ranges_ok.
    - destruct (eol_blocks (length rest) pos rest) as [[p r] found] eqn:E.
      destruct (eol_blocks_spec _ _ _ _ _ _ E) as (s & Hr & Hp & Hs & Hf). by exists s, p, r, found. }
  destruct Hscan as (s & p & r & found & -> & -> & -> & Hs & Hf). rewrite eol_loop_skip by done.
  destruct found; [|done]. destruct (Hf eq_refl) as (b & r' & -> & Hb). cbn [eol_loop]. by rewrite Hb.
Qed.

Lemma parse_name_simd simd first pos rest : parse_name simd first pos rest = parse_name false first pos rest.
Proof. unfold parse_name. by rewrite parse_token_simd by by right. Qed.

Lemma parse_headers_simd simd fuel acc mx pos rest :
  parse_headers simd fuel acc mx pos rest = parse_headers false fuel acc mx pos rest.
Proof.
  revert acc pos rest. induction fuel as [|fuel IH]; intros acc pos rest; [done|].
  cbn [parse_headers]. destruct rest as [|b rest]; [done|].
  destruct (b =b CR); [done|]. destruct (b =b LF); [done|]. destruct (_ =? mx); [done|].
  rewrite parse_name_simd. destruct (parse_name false _ pos (b :: rest)) as [name p r| |]; [|done..].
  cbn [pbind]. rewrite !get_token_to_eol_scalar.
  destruct (eol_loop p p r) as [v p' r'| |]; [|done..]. apply IH.
Qed.

Lemma parse_request_simd simd mx pos rest :
  parse_request simd mx pos rest = parse_request false mx pos rest.
Proof.
  unfold parse_request. destruct (skip_empty_line pos rest) as [? p r| |]; [|done..]. cbn [pbind].
  rewrite (parse_token_simd simd) by by left. destruct (parse_token false SP p r) as [m p1 r1| |]; [|done..].
  cbn [pbind]. destruct (skip_spaces _ _) as [? p2 r2| |]; [|done..]. cbn [pbind].
  rewrite (advance_token_simd simd). destruct (advance_token false p2 r2) as [pa p3 r3| |]; [|done..].
  cbn [pbind]. destruct (skip_spaces _ (drop 1 r3)) as [? p4 r4| |]; [|done..]. cbn [pbind].
  destruct (_ || _); [done|]. destruct (parse_http_version p4 r4) as [v p5 r5| |]; [|done..]. cbn [pbind].
  destruct (line_end p5 r5) as [? p6 r6| |]; [|done..]. cbn [pbind].
  by rewrite (parse_headers_simd simd).
Qed.

(** ** More input *)

(** A step that ended, well or badly, is not changed by more input. *)
Definition stable {A} (P : nat -> bytes -> pres A) : Prop :=
  forall pos rest more,
    match P pos rest with
    | PDone a p r => P pos (rest ++ more) = PDone a p (r ++ more)
    | PFail => P pos (rest ++ more) = PFail
    | PPartial => True
    end.

(** Positions count the bytes passed. *)
Definition moves {A} (P : nat -> bytes -> pres A) : Prop :=
  forall pos rest a p r, P pos rest = PDone a p r -> exists s, rest = s ++ r /\ p = pos + length s.

Lemma stable_bind {A B} (P : nat -> bytes -> pres A) (Q : A -> nat -> bytes -> pres B) :
  stable P -> (forall a, stable (Q a)) -> stable (fun pos rest => pbind (P pos rest) Q).
Proof.
  intros HP HQ pos rest more. specialize (HP pos rest more).
  destruct (P pos rest) as [a p r| |]; cbn [pbind]; [|by rewrite HP|done].
  rewrite HP. cbn [pbind]. apply HQ.
Qed.

Lemma moves_bind {A B} (P : nat -> bytes -> pres A) (Q : A -> nat -> bytes -> pres B) :
  moves P -> (forall a, moves (Q a)) -> moves (fun pos rest => pbind (P pos rest) Q).
Proof.
  intros HP HQ pos rest b p r. destruct (P pos rest) as [a p1 r1| |] eqn:E; cbn [pbind]; [|done..].
  intros Hq. destruct (HP _ _ _ _ _ E) as (s1 & -> & ->). destruct (HQ _ _ _ _ _ _ Hq) as (s2 & -> & ->).
  exists (s1 ++ s2). rewrite length_app, <- app_assoc. split; [done|lia].
Qed.

Lemma stable_token_loop stop ok start : stable (token_loop stop ok start).
Proof.
  intros pos rest more. revert pos. induction rest as [|b rest IH]; intros pos; [done|].
  cbn [app token_loop]. destruct (stop b); [done|]. destruct (ok b); [|done]. apply IH.
Qed.

Lemma moves_token_loop stop ok start : moves (token_loop stop ok start).
Proof.
  intros pos rest. revert pos. induction rest as [|b rest IH]; intros pos a p r; [done|].
  cbn [token_loop]. destruct (stop b).
  - intros [= _ <- <-]. exists []. split; [done|simpl; lia].
  - destruct (ok b); [|done]. intros (s & -> & ->)%IH. exists (b :: s). split; [done|simpl; lia].
Qed.

Lemma stable_skip_spaces : stable skip_spaces.
Proof.
  intros pos rest more. revert pos. induction rest as [|b rest IH]; intros pos; [done|].
  cbn [app skip_spaces]. destruct (b =b SP); [apply IH|done].
Qed.

Lemma moves_skip_spaces : moves skip_spaces.
Proof.
  intros pos rest. revert pos. induction rest as [|b rest IH]; intros pos a p r; [done|].
  cbn [skip_spaces]. destruct (b =b SP).
  - intros (s & -> & ->)%IH. exists (b :: s). split; [done|simpl; lia].
  - intros [= <- <- <-]. exists []. split; [done|simpl; lia].
Qed.

Lemma stable_skip_blanks : stable skip_blanks.
Proof.
  intros pos rest more. revert pos. induction rest as [|b rest IH]; intros pos; [done|].
  cbn [app skip_blanks]. destruct (blank b); [apply IH|done].
Qed.

Lemma moves_skip_blanks : moves skip_blanks.
Proof.
  intros pos rest. revert pos. induction rest as [|b rest IH]; intros pos a p r; [done|].
  cbn [skip_blanks]. destruct (blank b).
  - intros (s & -> & ->)%IH. exists (b :: s). split; [done|simpl; lia].
  - intros [= <- <- <-]. exists []. split; [done|simpl; lia].
Qed.

(** The steps that look at one or two bytes. *)
Ltac two_bytes :=
  intros pos rest; destruct rest as [|b [|c rest]]; intros; cbn in *;
  repeat (match goal with
          | H : context [if ?x then _ else _] |- _ => destruct x
          | |- context [if ?x then _ else _] => destruct x
          end; cbn in *); try done.

Lemma stable_found_ctl start : stable (found_ctl start).
Proof. unfold stable. two_bytes. Qed.

Lemma stable_line_end : stable line_end.
Proof. unfold stable. two_bytes. Qed.

Lemma stable_skip_empty_line : stable skip_empty_line.
Proof. unfold stable. two_bytes. Qed.

Ltac moves_by n := simplify_eq; match goal with |- exists s, ?l = s ++ _ /\ _ =>
  exists (take n l); split; [done|simpl; lia] end.

Lemma moves_found_ctl start : moves (found_ctl start).
Proof. unfold moves. two_bytes; first [moves_by 1 | moves_by 2]. Qed.

Lemma moves_line_end : moves line_end.
Proof. unfold moves. two_bytes; first [moves_by 1 | moves_by 2]. Qed.

Lemma moves_skip_empty_line : moves skip_empty_line.
Proof. unfold moves. two_bytes; first [moves_by 0 | moves_by 1 | moves_by 2]. Qed.

Lemma stable_eol_loop start : stable (eol_loop start).
Proof.
  intros pos rest more. revert pos. induction rest as [|b rest IH]; intros pos; [done|].
  cbn [app eol_loop]. destruct (is_ctl b); [apply (stable_found_ctl start pos (b :: rest))|apply IH].
Qed.

Lemma moves_eol_loop start : moves (eol_loop start).
Proof.
  intros pos rest. revert pos. induction rest as [|b rest IH]; intros pos a p r; [done|].
  cbn [eol_loop]. destruct (is_ctl b).
  - apply (moves_found_ctl start pos (b :: rest)).
  - intros (s & -> & ->)%IH. exists (b :: s). split; [done|simpl; lia].
Qed.

Lemma eol_loop_len start pos rest t p r :
  eol_loop start pos rest = PDone t p r -> start ≤ pos ->
  t_off t = start /\ t_len t ≤ (pos - start) + length rest /\ length r < length rest.
Proof.
  revert pos. induction rest as [|b rest IH]; intros pos; [done|]. cbn [eol_loop].
  destruct (is_ctl b).
  - unfold found_ctl. destruct (b =b CR).
    + destruct rest as [|c rest]; [done|]. destruct (c =b LF); [|done].
      intros [= <- <- <-] Hs. simpl. lia.
    + destruct (b =b LF); [|done]. intros [= <- <- <-] Hs. simpl. lia.
  - intros He Hs. destruct (IH _ He ltac:(lia)) as (H1 & H2 & H3). simpl. split_and!; [done|lia|lia].
Qed.

(** The line, without its end, is among the bytes passed. *)
Lemma eol_line_len start pos rest t p r :
  eol_loop start pos rest = PDone t p r -> start ≤ pos ->
  t_len t + length r < (pos - start) + length rest /\ t_off t = start.
Proof.
  revert pos. induction rest as [|b rest IH]; intros pos; [done|]. cbn [eol_loop].
  destruct (is_ctl b).
  - unfold found_ctl. destruct (b =b CR).
    + destruct rest as [|c rest]; [done|]. destruct (c =b LF); [|done].
      intros [= <- <- <-] Hs. simpl. lia.
    + destruct (b =b LF); [|done]. intros [= <- <- <-] Hs. simpl. lia.
  - intros He Hs. destruct (IH _ He ltac:(lia)) as (H1 & H2). simpl. split; [lia|done].
Qed.

Lemma stable_drop1 {A} (P : nat -> bytes -> pres A) :
  stable P -> (forall pos, P pos [] = PPartial) -> stable (fun pos rest => P (S pos) (drop 1 rest)).
Proof.
  intros HP He pos rest more. destruct rest as [|b rest]; [simpl; by rewrite He|].
  exact (HP (S pos) rest more).
Qed.

Lemma moves_drop1 {A} (P : nat -> bytes -> pres A) :
  moves P -> (forall pos, P pos [] = PPartial) -> moves (fun pos rest => P (S pos) (drop 1 rest)).
Proof.
  intros HP He pos rest a p r. destruct rest as [|b rest]; [simpl; by rewrite He|].
  intros (s & Hs & ->)%(HP (S pos) rest). simpl in Hs. exists (b :: s). subst. split; [done|simpl; lia].
Qed.

Lemma stable_done {A} (a : A) : stable (fun pos rest => PDone a pos rest).
Proof. done. Qed.

Lemma moves_done {A} (a : A) : moves (fun pos rest => PDone a pos rest).
Proof. intros pos rest b p r [= _ <- <-]. exists []. split; [done|simpl; lia]. Qed.

Lemma stable_fail {A} : stable (fun _ _ => @PFail A).
Proof. done. Qed.

Lemma moves_fail {A} : moves (fun _ _ => @PFail A).
Proof. done. Qed.

Lemma stable_if {A} (x : bool) (P Q : nat -> bytes -> pres A) :
  stable P -> stable Q -> stable (fun pos rest => if x then P pos rest else Q pos rest).
Proof. by destruct x. Qed.

Lemma moves_if {A} (x : bool) (P Q : nat -> bytes -> pres A) :
  moves P -> moves Q -> moves (fun pos rest => if x then P pos rest else Q pos rest).
Proof. by destruct x. Qed.

Lemma stable_version : stable parse_http_version.
Proof.
  intros pos rest more. unfold parse_http_version. destruct (length rest <? 9) eqn:E; [done|]. bprop.
  replace (length (rest ++ more) <? 9) with false by (symmetry; apply Nat.ltb_ge; rewrite length_app; lia).
  rewrite take_app_le, drop_app_le by lia. destruct (negb _); [done|].
  destruct (drop 7 rest) as [|b r] eqn:Ed; [apply (f_equal length) in Ed; rewrite length_drop in Ed; simpl in Ed; lia|].
  simpl. by destruct (is_digit b).
Qed.

Lemma moves_version : moves parse_http_version.
Proof.
  intros pos rest a p r. unfold parse_http_version. destruct (_ <? 9) eqn:E; [done|]. bprop.
  destruct (negb _); [done|]. destruct (drop 7 rest) as [|b r'] eqn:Ed; [done|].
  destruct (is_digit b); [|done]. intros [= <- <- <-]. exists (take 8 rest).
  assert (Hd : drop 8 rest = r') by (change 8 with (7 + 1); by rewrite <- drop_drop, Ed).
  rewrite <- Hd, take_drop. split; [done|]. rewrite length_take. lia.
Qed.

Lemma stable_parse_token c : stable (fun pos rest => parse_token false c pos rest).
Proof. intros pos rest more. apply (stable_token_loop _ _ pos pos rest more). Qed.

Lemma moves_parse_token c : moves (fun pos rest => parse_token false c pos rest).
Proof. intros pos rest. apply (moves_token_loop _ _ pos pos rest). Qed.

Lemma stable_advance_token : stable (fun pos rest => advance_token false pos rest).
Proof. intros pos rest more. apply (stable_token_loop _ _ pos pos rest more). Qed.

Lemma moves_advance_token : moves (fun pos rest => advance_token false pos rest).
Proof. intros pos rest. apply (moves_token_loop _ _ pos pos rest). Qed.

Lemma stable_parse_name first : stable (fun pos rest => parse_name false first pos rest).
Proof.
  intros pos rest more. unfold parse_name. destruct rest as [|b rest].
  { change (char_at [] 0) with NUL. change (blank NUL) with false. rewrite andb_false_r. done. }
  change (char_at ((b :: rest) ++ more) 0) with (char_at (b :: rest) 0).
  destruct (negb (negb first && _)); [|done].
  apply (stable_bind (fun pos rest => parse_token false ":"%byte pos rest)); [apply stable_parse_token|].
  intros t. apply stable_if; [apply stable_fail|].
  apply (stable_bind (fun pos rest => skip_blanks (S pos) (drop 1 rest)));
    [by apply stable_drop1; [apply stable_skip_blanks|]|]. intros _. apply stable_done.
Qed.

Lemma moves_parse_name first : moves (fun pos rest => parse_name false first pos rest).
Proof.
  intros pos rest a p r. unfold parse_name. destruct (negb (negb first && _)); [|apply moves_done].
  apply (moves_bind (fun pos rest => parse_token false ":"%byte pos rest)); [apply moves_parse_token|].
  intros t. apply moves_if; [apply moves_fail|].
  apply (moves_bind (fun pos rest => skip_blanks (S pos) (drop 1 rest)));
    [by apply moves_drop1; [apply moves_skip_blanks|]|]. intros _. apply moves_done.
Qed.

Lemma trim_blanks_app v more n : n ≤ length v -> trim_blanks (v ++ more) n = trim_blanks v n.
Proof.
  induction n as [|n IH]; intros Hn; [done|]. cbn [trim_blanks]. unfold char_at.
  rewrite lookup_app_l by lia. rewrite IH by lia. done.
Qed.

(** ** Header blocks *)

(** One header line. *)
Definition header_line (first : bool) (pos : nat) (rest : bytes) : pres phr_header :=
  pbind (parse_name false first pos rest) (fun name pos rest =>
  pbind (eol_loop pos pos rest) (fun v pos' rest' =>
    PDone (mk_phr_header name (mk_tok (t_off v) (trim_blanks rest (t_len v)))) pos' rest')).

Lemma parse_headers_eq fuel acc mx pos rest :
  parse_headers false (S fuel) acc mx pos rest =
  match rest with
  | [] => PPartial
  | b :: _ =>
      if (b =b CR) || (b =b LF) then pbind (line_end pos rest) (fun _ p r => PDone (rev acc) p r)
      else if length acc =? mx then PFail
      else pbind (header_line (length acc =? 0) pos rest) (fun h p r =>
             parse_headers false fuel (h :: acc) mx p r)
  end.
Proof.
  cbn [parse_headers]. destruct rest as [|b rest]; [done|]. unfold line_end.
  destruct (b =b CR) eqn:E1; cbn [orb].
  { destruct rest as [|c rest]; [done|]. by destruct (c =b LF). }
  destruct (b =b LF) eqn:E2; cbn [orb pbind]; [done|]. destruct (_ =? mx); [done|].
  unfold header_line. destruct (parse_name false _ pos (b :: rest)) as [name p r| |]; [|done..].
  cbn [pbind]. rewrite get_token_to_eol_scalar. by destruct (eol_loop p p r).
Qed.

Lemma header_line_moves first pos rest h p r :
  header_line first pos rest = PDone h p r ->
  exists s, rest = s ++ r /\ p = pos + length s /\ 0 < length s.
Proof.
  unfold header_line. destruct (parse_name false first pos rest) as [name p1 r1| |] eqn:E1; [|done..].
  cbn [pbind]. destruct (eol_loop p1 p1 r1) as [v p2 r2| |] eqn:E2; [|done..].
  cbn [pbind]. intros [= <- <- <-]. destruct (moves_parse_name _ _ _ _ _ _ E1) as (s1 & -> & ->).
  destruct (eol_loop_len _ _ _ _ _ _ E2) as (_ & _ & Hlt); [lia|].
  destruct (moves_eol_loop _ _ _ _ _ _ E2) as (s2 & -> & ->). rewrite length_app in Hlt.
  exists (s1 ++ s2). rewrite length_app, <- app_assoc. split_and!; [done|lia|lia].
Qed.

Lemma stable_header_line first : stable (header_line first).
Proof.
  intros pos rest more. unfold header_line. pose proof (stable_parse_name first pos rest more) as HP.
  cbv beta in HP. destruct (parse_name false first pos rest) as [name p r| |]; cbn [pbind];
    [|by rewrite HP|done].
  rewrite HP. cbn [pbind]. pose proof (stable_eol_loop p p r more) as HE.
  destruct (eol_loop p p r) as [v p' r'| |] eqn:Ev; cbn [pbind]; [|by rewrite HE|done].
  rewrite HE. cbn [pbind]. rewrite trim_blanks_app; [done|].
  apply (eol_loop_len p p r v p' r') in Ev as (_ & Hl & _); lia.
Qed.

(** More fuel than bytes is as good as any. *)
Lemma parse_headers_fuel f1 f2 acc mx pos rest :
  length rest < f1 -> length rest < f2 ->
  parse_headers false f1 acc mx pos rest = parse_headers false f2 acc mx pos rest.
Proof.
  revert f2 acc pos rest. induction f1 as [|f1 IH]; intros [|f2] acc pos rest H1 H2; try lia.
  rewrite !parse_headers_eq. destruct rest as [|b rest]; [done|].
  destruct (_ || _); [done|]. destruct (_ =? mx); [done|].
  destruct (header_line _ pos (b :: rest)) as [h p r| |] eqn:Eh; [|done..]. cbn [pbind].
  destruct (header_line_moves _ _ _ _ _ _ Eh) as (s & Hs & _ & Hpos).
  apply (f_equal length) in Hs. rewrite length_app in Hs. simpl in *. apply IH; lia.
Qed.

(** The header block, with fuel for all the input. *)
Definition headers_of (mx pos : nat) (rest : bytes) : pres (list phr_header) :=
  parse_headers false (S (length rest)) [] mx pos rest.

Lemma stable_headers mx : stable (headers_of mx).
Proof.
  assert (Hgen : forall f acc pos rest more, length rest + length more < f ->
    match parse_headers false f acc mx pos rest with
    | PDone a p r => parse_headers false f acc mx pos (rest ++ more) = PDone a p (r ++ more)
    | PFail => parse_headers false f acc mx pos (rest ++ more) = PFail
    | PPartial => True
    end).
  { induction f as [|f IH]; intros acc pos rest more Hf; [lia|]. rewrite !parse_headers_eq.
    destruct rest as [|b rest]; [done|]. cbn [app].
    destruct (_ || _).
    - apply (stable_bind line_end (fun _ p r => PDone (rev acc) p r) stable_line_end (fun _ => stable_done _)
               pos (b :: rest) more).
    - destruct (_ =? mx); [done|]. pose proof (stable_header_line (length acc =? 0) pos (b :: rest) more) as HP.
      cbn [app] in HP. destruct (header_line _ pos (b :: rest)) as [h p r| |] eqn:Eh; cbn [pbind];
        [|by rewrite HP|done].
      rewrite HP. cbn [pbind]. apply IH.
      destruct (header_line_moves _ _ _ _ _ _ Eh) as (s & Hs & _ & Hpos).
      apply (f_equal length) in Hs. rewrite length_app in Hs. simpl in *. lia. }
  intros pos rest more. unfold headers_of.
  rewrite (parse_headers_fuel (S (length rest)) (S (length (rest ++ more)))) by llia.
  apply Hgen. rewrite length_app. lia.
Qed.

Lemma moves_parse_headers mx f acc : moves (parse_headers false f acc mx).
Proof.
  revert acc. induction f as [|f IH]; intros acc pos rest a p r; [done|]. rewrite parse_headers_eq.
  destruct rest as [|b rest]; [done|]. destruct (_ || _).
  - apply (moves_bind line_end (fun _ p r => PDone (rev acc) p r) moves_line_end (fun _ => moves_done _)
             pos (b :: rest)).
  - destruct (_ =? mx); [done|].
    destruct (header_line _ pos (b :: rest)) as [h p1 r1| |] eqn:Eh; cbn [pbind]; [|done..].
    intros (s2 & -> & ->)%IH. destruct (header_line_moves _ _ _ _ _ _ Eh) as (s & -> & -> & _).
    exists (s ++ s2). rewrite length_app, <- app_assoc. split; [done|lia].
Qed.

Lemma moves_headers mx : moves (headers_of mx).
Proof. intros pos rest. apply moves_parse_headers. Qed.

Lemma parse_request_eq mx pos rest :
  parse_request false mx pos rest =
  pbind (skip_empty_line pos rest) (fun _ pos rest =>
  pbind (parse_token false SP pos rest) (fun method pos rest =>
  pbind (skip_spaces (S pos) (drop 1 rest)) (fun _ pos rest =>
  pbind (advance_token false pos rest) (fun path pos rest =>
  pbind (skip_spaces (S pos) (drop 1 rest)) (fun _ pos rest =>
    if (t_len method =? 0) || (t_len path =? 0) then PFail else
  pbind (parse_http_version pos rest) (fun minor pos rest =>
  pbind (line_end pos rest) (fun _ pos rest =>
  pbind (headers_of mx pos rest) (fun hs pos rest =>
    PDone (mk_phr_request method path minor hs) pos rest)))))))).
Proof. reflexivity. Qed.

Lemma stable_request mx : stable (parse_request false mx).
Proof.
  intros pos rest more. rewrite !parse_request_eq. revert pos rest more.
  refine (stable_bind skip_empty_line _ stable_skip_empty_line _). intros _.
  refine (stable_bind (fun p r => parse_token false SP p r) _ (stable_parse_token SP) _). intros m.
  refine (stable_bind (fun p r => skip_spaces (S p) (drop 1 r)) _
            (stable_drop1 _ stable_skip_spaces (fun _ => eq_refl)) _). intros _.
  refine (stable_bind (fun p r => advance_token false p r) _ stable_advance_token _). intros pa.
  refine (stable_bind (fun p r => skip_spaces (S p) (drop 1 r)) _
            (stable_drop1 _ stable_skip_spaces (fun _ => eq_refl)) _). intros _.
  apply stable_if; [apply stable_fail|].
  refine (stable_bind parse_http_version _ stable_version _). intros v.
  refine (stable_bind line_end _ stable_line_end _). intros _.
  refine (stable_bind (headers_of mx) _ (stable_headers mx) _). intros hs. apply stable_done.
Qed.

Lemma moves_request mx : moves (parse_request false mx).
Proof.
  intros pos rest a p r. rewrite parse_request_eq. revert pos rest a p r.
  refine (moves_bind skip_empty_line _ moves_skip_empty_line _). intros _.
  refine (moves_bind (fun p r => parse_token false SP p r) _ (moves_parse_token SP) _). intros m.
  refine (moves_bind (fun p r => skip_spaces (S p) (drop 1 r)) _
            (moves_drop1 _ moves_skip_spaces (fun _ => eq_refl)) _). intros _.
  refine (moves_bind (fun p r => advance_token false p r) _ moves_advance_token _). intros pa.
  refine (moves_bind (fun p r => skip_spaces (S p) (drop 1 r)) _
            (moves_drop1 _ moves_skip_spaces (fun _ => eq_refl)) _). intros _.
  apply moves_if; [apply moves_fail|].
  refine (moves_bind parse_http_version _ moves_version _). intros v.
  refine (moves_bind line_end _ moves_line_end _). intros _.
  refine (moves_bind (headers_of mx) _ (moves_headers mx) _). intros hs. apply moves_done.
Qed.

(** ** How far ahead a step looks *)

(** The step's result depends only on the bytes it passes ([closed]), or on those
    and the byte after them ([local1]). *)
Definition closed {A} (P : nat -> bytes -> pres A) : Prop :=
  forall pos s r a p r', P pos (s ++ r) = PDone a p r -> P pos (s ++ r') = PDone a p r'.
Definition local1 {A} (P : nat -> bytes -> pres A) : Prop :=
  forall pos s b r a p r', P pos (s ++ b :: r) = PDone a p (b :: r) -> P pos (s ++ b :: r') = PDone a p (b :: r').
Definition consumes {A} (P : nat -> bytes -> pres A) : Prop :=
  forall pos rest a p r, P pos rest = PDone a p r -> length r < length rest.

Lemma closed_local1 {A} (P : nat -> bytes -> pres A) : closed P -> local1 P.
Proof. intros HP pos s b r a p r' Hd. by apply (HP pos s (b :: r)). Qed.

Lemma closed_bind {A B} (P : nat -> bytes -> pres A) (Q : A -> nat -> bytes -> pres B) :
  local1 P -> moves P -> (forall a, closed (Q a)) -> (forall a, moves (Q a)) -> (forall a, consumes (Q a)) ->
  closed (fun pos rest => pbind (P pos rest) Q).
Proof.
  intros HP HM HQ HQM HQC pos s r b p r' Hd.
  destruct (P pos (s ++ r)) as [a p1 r1| |] eqn:E1; cbn [pbind] in Hd; [|done..].
  destruct (HM _ _ _ _ _ E1) as (s1 & Hs1 & _). destruct (HQM a _ _ _ _ _ Hd) as (s2 & Hs2 & _).
  pose proof (HQC a _ _ _ _ _ Hd) as Hlt. rewrite Hs2, length_app in Hlt.
  rewrite Hs2, app_assoc in Hs1. apply app_inv_tail in Hs1. subst s r1.
  destruct s2 as [|c s2]; [simpl in Hlt; lia|]. rewrite <- app_assoc in E1 |- *. cbn [app] in E1 |- *.
  rewrite (HP pos s1 c (s2 ++ r) a p1 (s2 ++ r') E1). cbn [pbind]. by apply (HQ a p1 (c :: s2) r).
Qed.

Lemma consumes_bind {A B} (P : nat -> bytes -> pres A) (Q : A -> nat -> bytes -> pres B) :
  moves P -> (forall a, consumes (Q a)) -> consumes (fun pos rest => pbind (P pos rest) Q).
Proof.
  intros HM HQ pos rest b p r Hd. destruct (P pos rest) as [a p1 r1| |] eqn:E1; cbn [pbind] in Hd; [|done..].
  destruct (HM _ _ _ _ _ E1) as (s1 & -> & _). specialize (HQ a _ _ _ _ _ Hd). rewrite length_app. lia.
Qed.

Lemma closed_if {A} (x : bool) (P Q : nat -> bytes -> pres A) :
  closed P -> closed Q -> closed (fun pos rest => if x then P pos rest else Q pos rest).
Proof. by destruct x. Qed.

Lemma consumes_if {A} (x : bool) (P Q : nat -> bytes -> pres A) :
  consumes P -> consumes Q -> consumes (fun pos rest => if x then P pos rest else Q pos rest).
Proof. by destruct x. Qed.

Lemma PDone_len {A} (a a' : A) p p' r r' : PDone a p r = PDone a' p' r' -> length r = length r'.
Proof. congruence. Qed.

(** A scan over a prefix of bytes that satisfy a test. *)
Lemma local1_token_loop stop ok start : local1 (token_loop stop ok start).
Proof.
  intros pos s b r a p r'. revert pos. induction s as [|c s IH]; intros pos; cbn [app token_loop].
  - destruct (stop b); [by intros [= <- <-]|]. destruct (ok b); [|done]. cbn [negb].
    intros Hd. apply moves_token_loop in Hd as (s & Hs & _).
    apply (f_equal length) in Hs. rewrite length_app in Hs. simpl in Hs. lia.
  - destruct (stop c).
    + intros Hs%PDone_len. simpl in Hs. rewrite length_app in Hs. simpl in Hs. lia.
    + destruct (ok c); [|done]. apply IH.
Qed.

Lemma local1_skip_spaces : local1 skip_spaces.
Proof.
  intros pos s b r a p r'. revert pos. induction s as [|c s IH]; intros pos; cbn [app skip_spaces].
  - destruct (b =b SP); [|by intros [= <- <-]]. intros Hd. apply moves_skip_spaces in Hd as (s & Hs & _).
    apply (f_equal length) in Hs. rewrite length_app in Hs. simpl in Hs. lia.
  - destruct (c =b SP); [apply IH|].
    intros Hs%PDone_len. simpl in Hs. rewrite length_app in Hs. simpl in Hs. lia.
Qed.

Lemma local1_skip_blanks : local1 skip_blanks.
Proof.
  intros pos s b r a p r'. revert pos. induction s as [|c s IH]; intros pos; cbn [app skip_blanks].
  - destruct (blank b); [|by intros [= <- <-]]. intros Hd. apply moves_skip_blanks in Hd as (s & Hs & _).
    apply (f_equal length) in Hs. rewrite length_app in Hs. simpl in Hs. lia.
  - destruct (blank c); [apply IH|].
    intros Hs%PDone_len. simpl in Hs. rewrite length_app in Hs. simpl in Hs. lia.
Qed.

Lemma local1_drop1 {A} (P : nat -> bytes -> pres A) :
  local1 P -> moves P -> local1 (fun pos rest => P (S pos) (drop 1 rest)).
Proof.
  intros HP HM pos s b r a p r'. destruct s as [|c s]; cbn [app drop]; [|apply HP].
  intros Hd. apply HM in Hd as (s & Hs & _). apply (f_equal length) in Hs.
  rewrite length_app in Hs. rewrite drop_0 in Hs. simpl in Hs. lia.
Qed.

Lemma local1_version : local1 parse_http_version.
Proof.
  intros pos s b r a p r' Hd. destruct (moves_version _ _ _ _ _ Hd) as (s' & Hs & Hp).
  apply app_inv_tail in Hs. subst s'. unfold parse_http_version in Hd |- *.
  destruct (length (s ++ b :: r) <? 9) eqn:E; [done|]. bprop.
  destruct (negb _) eqn:E1; [done|]. destruct (drop 7 (s ++ b :: r)) as [|c q] eqn:Ed; [done|].
  destruct (is_digit c) eqn:Ec; [|done]. injection Hd as <- <- ->.
  assert (Hls : length s = 8) by lia.
  rewrite length_app in E. simpl in E. rewrite take_app_le in E1 |- * by lia. rewrite drop_app_le in Ed |- * by lia.
  replace (length (s ++ b :: r') <? 9) with false
    by (symmetry; apply Nat.ltb_ge; rewrite length_app; simpl; lia).
  rewrite E1. destruct (drop 7 s) as [|d s7] eqn:E7; [apply (f_equal length) in E7; rewrite length_drop in E7; simpl in E7; lia|].
  assert (s7 = []) as ->.
  { apply (f_equal length) in E7. rewrite length_drop in E7. destruct s7; [done|]. simpl in E7. lia. }
  simpl in Ed. injection Ed as ->. simpl. by rewrite Ec.
Qed.

Lemma consumes_found_ctl start : consumes (found_ctl start).
Proof.
  intros pos rest a p r. unfold found_ctl. destruct rest as [|b [|c rest]]; try done;
    repeat case_match; intros; simplify_eq; simpl; lia.
Qed.

Lemma consumes_line_end : consumes line_end.
Proof.
  intros pos rest a p r. unfold line_end. destruct rest as [|b [|c rest]]; try done;
    repeat case_match; intros; simplify_eq; simpl; lia.
Qed.

Lemma app_self (s r : bytes) : s ++ r = r -> s = [].
Proof. intros E%(f_equal length). rewrite length_app in E. destruct s; [done|]. simpl in E. lia. Qed.

Lemma closed_found_ctl start : closed (found_ctl start).
Proof.
  intros pos s r a p r' Hd. destruct s as [|b s].
  { apply consumes_found_ctl in Hd. simpl in Hd. lia. }
  cbn [app found_ctl] in *. destruct (b =b CR).
  - destruct s as [|c s]; cbn [app] in *.
    + destruct r as [|c r]; [done|]. destruct (c =b LF); [|done].
      apply PDone_len in Hd. simpl in Hd. lia.
    + destruct (c =b LF); [|done]. injection Hd as <- <- ->%app_self. done.
  - destruct (b =b LF); [|done]. injection Hd as <- <- ->%app_self. done.
Qed.

Lemma closed_line_end : closed line_end.
Proof.
  intros pos s r a p r' Hd. destruct s as [|b s].
  { apply consumes_line_end in Hd. simpl in Hd. lia. }
  cbn [app line_end] in *. destruct (b =b CR).
  - destruct s as [|c s]; cbn [app] in *.
    + destruct r as [|c r]; [done|]. destruct (c =b LF); [|done].
      apply PDone_len in Hd. simpl in Hd. lia.
    + destruct (c =b LF); [|done]. injection Hd as <- <- ->%app_self. done.
  - destruct (b =b LF); [|done]. injection Hd as <- <- ->%app_self. done.
Qed.

Lemma local1_skip_empty_line : local1 skip_empty_line.
Proof.
  intros pos s x r a p r' Hd. destruct s as [|b s]; cbn [app skip_empty_line] in *.
  - destruct (x =b CR).
    + destruct r as [|c r]; [done|]. destruct (c =b LF); [|done]. apply PDone_len in Hd. simpl in Hd. lia.
    + destruct (x =b LF); [apply PDone_len in Hd; simpl in Hd; lia|]. by injection Hd as <- <-.
  - destruct (b =b CR).
    + destruct s as [|c s]; cbn [app] in *.
      * destruct (x =b LF); [|done]. apply PDone_len in Hd. simpl in Hd. lia.
      * destruct (c =b LF); [|done]. injection Hd as <- <- ->%app_self. done.
    + destruct (b =b LF); [injection Hd as <- <- ->%app_self; done|].
      apply PDone_len in Hd. simpl in Hd. rewrite length_app in Hd. simpl in Hd. lia.
Qed.

Lemma consumes_eol : forall start, consumes (eol_loop start).
Proof.
  intros start pos rest. revert pos. induction rest as [|b rest IH]; intros pos a p r; [done|].
  cbn [eol_loop]. destruct (is_ctl b); [apply consumes_found_ctl|]. intros Hd%IH. simpl. lia.
Qed.

Lemma closed_eol start : closed (eol_loop start).
Proof.
  intros pos s r a p r'. revert pos. induction s as [|b s IH]; intros pos Hd.
  { apply consumes_eol in Hd. simpl in Hd. lia. }
  cbn [app eol_loop] in *. destruct (is_ctl b); [|by apply IH].
  by apply (closed_found_ctl start pos (b :: s) r).
Qed.

Lemma local1_parse_name first : local1 (fun pos rest => parse_name false first pos rest).
Proof.
  intros pos s b r a p r'. unfold parse_name.
  assert (Hc : char_at (s ++ b :: r) 0 = char_at (s ++ b :: r') 0) by by destruct s.
  rewrite <- Hc. destruct (negb (negb first && _)).
  2:{ intros Hd. injection Hd as <- <- Hs. change (b :: r) with ([] ++ b :: r) in Hs at 2.
      apply app_inv_tail in Hs. by subst s. }
  intros Hd. destruct (parse_token false ":"%byte pos (s ++ b :: r)) as [t p1 r1| |] eqn:E1; [|done..].
  cbn [pbind] in Hd. destruct (t_len t =? 0) eqn:E0; [done|].
  destruct (skip_blanks (S p1) (drop 1 r1)) as [[] p2 r2| |] eqn:E2; [|done..]. cbn [pbind] in Hd.
  injection Hd as <- <- ->.
  destruct (moves_parse_token _ _ _ _ _ _ E1) as (s1 & Hs1 & _).
  destruct r1 as [|c r1]; [done|]. cbn [drop] in E2. rewrite drop_0 in E2.
  destruct (moves_skip_blanks _ _ _ _ _ E2) as (s2 & -> & _).
  replace (s1 ++ c :: s2 ++ b :: r) with ((s1 ++ c :: s2) ++ b :: r) in Hs1 by by rewrite <- app_assoc.
  apply app_inv_tail in Hs1. subst s. rewrite <- app_assoc in E1 |- *. cbn [app] in E1 |- *.
  unfold parse_token in E1 |- *. cbn [findchar] in E1 |- *.
  rewrite (local1_token_loop _ _ _ _ _ _ _ _ _ (s2 ++ b :: r') E1). cbn [pbind]. rewrite E0. cbn [drop].
  rewrite drop_0. by rewrite (local1_skip_blanks _ _ _ _ _ _ r' E2).
Qed.

Lemma closed_header_line first : closed (header_line first).
Proof.
  intros pos s r h p r' Hd. unfold header_line in Hd |- *.
  destruct (parse_name false first pos (s ++ r)) as [name p1 r1| |] eqn:E1; [|done..]. cbn [pbind] in Hd.
  destruct (eol_loop p1 p1 r1) as [v p2 r2| |] eqn:E2; [|done..]. cbn [pbind] in Hd.
  injection Hd as <- <- ->. destruct (moves_parse_name _ _ _ _ _ _ E1) as (s1 & Hs1 & _).
  destruct (moves_eol_loop _ _ _ _ _ _ E2) as (s2 & Hs2 & Hp2). pose proof (consumes_eol _ _ _ _ _ _ E2) as Hlt.
  subst r1. rewrite length_app in Hlt. rewrite app_assoc in Hs1. apply app_inv_tail in Hs1. subst s.
  destruct s2 as [|c s2]; [simpl in Hlt; lia|].
  rewrite <- app_assoc in E1 |- *. cbn [app] in E1 |- *.
  rewrite (local1_parse_name first _ _ _ _ _ _ (s2 ++ r') E1). cbn [pbind].
  change (c :: s2 ++ r') with ((c :: s2) ++ r').
  rewrite (closed_eol p1 p1 (c :: s2) r v p2 r' E2). cbn [pbind]. do 3 f_equal.
  destruct (eol_line_len _ _ _ _ _ _ E2) as [Hl _]; [lia|]. rewrite length_app in Hl.
  change (c :: s2 ++ ?x) with ((c :: s2) ++ x). rewrite !trim_blanks_app by lia. done.
Qed.

Lemma closed_parse_headers f acc mx : closed (parse_headers false f acc mx).
Proof.
  revert acc. induction f as [|f IH]; intros acc pos s r a p r' Hd; [done|].
  rewrite parse_headers_eq in Hd |- *. destruct s as [|b s].
  { exfalso. cbn [app] in Hd. destruct r as [|b r]; [done|]. destruct (_ || _).
    - destruct (line_end pos (b :: r)) as [[] p1 r1| |] eqn:E; [|done..]. cbn [pbind] in Hd.
      injection Hd as _ _ ->. apply consumes_line_end in E. simpl in E. lia.
    - destruct (_ =? mx); [done|]. destruct (header_line _ pos (b :: r)) as [h p1 r1| |] eqn:E; [|done..].
      cbn [pbind] in Hd. destruct (header_line_moves _ _ _ _ _ _ E) as (s1 & Hs1 & _ & Hp1).
      assert (Hm : moves (parse_headers false f (h :: acc) mx)) by apply moves_parse_headers.
      destruct (Hm _ _ _ _ _ Hd) as (s2 & -> & _). apply (f_equal length) in Hs1.
      rewrite !length_app in Hs1. simpl in Hs1. lia. }
  cbn [app] in Hd |- *. destruct (_ || _).
  - destruct (line_end pos (b :: s ++ r)) as [[] p1 r1| |] eqn:E; [|done..]. cbn [pbind] in Hd.
    injection Hd as <- <- ->. change (b :: s ++ r) with ((b :: s) ++ r) in E.
    change (b :: s ++ r') with ((b :: s) ++ r'). by rewrite (closed_line_end _ _ _ _ _ r' E).
  - destruct (_ =? mx); [done|].
    destruct (header_line _ pos (b :: s ++ r)) as [h p1 r1| |] eqn:E; [|done..]. cbn [pbind] in Hd.
    destruct (header_line_moves _ _ _ _ _ _ E) as (s1 & Hs1 & _ & _).
    assert (Hm : moves (parse_headers false f (h :: acc) mx)) by apply moves_parse_headers.
    destruct (Hm _ _ _ _ _ Hd) as (s2 & -> & _).
    assert (Hbs : b :: s = s1 ++ s2).
    { rewrite app_assoc in Hs1. by apply (app_inv_tail r (b :: s)). }
    change (b :: s ++ r) with ((b :: s) ++ r) in E. change (b :: s ++ r') with ((b :: s) ++ r').
    rewrite Hbs, <- app_assoc in E |- *. rewrite (closed_header_line _ _ _ _ _ _ (s2 ++ r') E). cbn [pbind].
    by apply (IH _ _ _ r).
Qed.

Lemma closed_headers mx : closed (headers_of mx).
Proof.
  intros pos s r a p r' Hd. unfold headers_of in *.
  rewrite (parse_headers_fuel _ (S (length (s ++ r) + length (s ++ r')))) in Hd by lia.
  rewrite (parse_headers_fuel _ (S (length (s ++ r) + length (s ++ r')))) by lia.
  by apply (closed_parse_headers _ _ _ _ _ r).
Qed.

Lemma consumes_headers mx : consumes (headers_of mx).
Proof.
  intros pos rest a p r Hd. destruct (moves_headers mx _ _ _ _ _ Hd) as (s & -> & _).
  destruct s as [|b s]; [|llia]. exfalso.
  pose proof (closed_headers mx _ _ _ _ _ [] Hd) as Hx. done.
Qed.

(** The rest of the request line, from the right. *)
Lemma closed_request mx : closed (parse_request false mx).
Proof.
  set (Q8 := fun (m pa : tokn) (v : Z) (hs : list phr_header) (p : nat) (r : bytes) =>
               PDone (mk_phr_request m pa v hs) p r).
  assert (C7 : forall m pa v, closed (fun p r => pbind (headers_of mx p r) (Q8 m pa v))
            /\ moves (fun p r => pbind (headers_of mx p r) (Q8 m pa v))
            /\ consumes (fun p r => pbind (headers_of mx p r) (Q8 m pa v))).
  { intros m pa v. split_and!.
    - intros pos s r a p r' Hd. destruct (headers_of mx pos (s ++ r)) as [hs p1 r1| |] eqn:E; [|done..].
      cbn [pbind] in Hd. injection Hd as <- <- ->. by rewrite (closed_headers _ _ _ _ _ _ r' E).
    - apply moves_bind; [apply moves_headers|intros hs; apply moves_done].
    - intros pos rest a p r Hd. destruct (headers_of mx pos rest) as [hs p1 r1| |] eqn:E; [|done..].
      cbn [pbind] in Hd. injection Hd as _ _ ->. by eapply consumes_headers. }
  assert (Cbind : forall {A B} (P : nat -> bytes -> pres A) (Q : A -> nat -> bytes -> pres B),
     local1 P -> moves P -> (forall a, closed (Q a) /\ moves (Q a) /\ consumes (Q a)) ->
     closed (fun p r => pbind (P p r) Q) /\ moves (fun p r => pbind (P p r) Q)
     /\ consumes (fun p r => pbind (P p r) Q)).
  { intros A B P Q HP HM HQ. split_and!.
    - apply closed_bind; try done; intros a; apply HQ.
    - apply moves_bind; [done|]. intros a. apply HQ.
    - apply consumes_bind; [done|]. intros a. apply HQ. }
  enough (Hall : closed (parse_request false mx) /\ moves (parse_request false mx)
                 /\ consumes (parse_request false mx)) by apply Hall.
  change (parse_request false mx) with (fun pos rest => parse_request false mx pos rest).
  unfold parse_request. fold (headers_of mx).
  apply Cbind; [apply local1_skip_empty_line|apply moves_skip_empty_line|]. intros _.
  apply Cbind; [intros ? ?; apply local1_token_loop|apply moves_parse_token|]. intros m.
  apply Cbind; [apply local1_drop1; [apply local1_skip_spaces|apply moves_skip_spaces]
               |by apply moves_drop1; [apply moves_skip_spaces|]|]. intros _.
  apply Cbind; [intros ? ?; apply local1_token_loop|apply moves_advance_token|]. intros pa.
  apply Cbind; [apply local1_drop1; [apply local1_skip_spaces|apply moves_skip_spaces]
               |by apply moves_drop1; [apply moves_skip_spaces|]|]. intros _.
  destruct (_ || _); [done|].
  apply Cbind; [apply local1_version|apply moves_version|]. intros v.
  apply Cbind; [apply closed_local1, closed_line_end|apply moves_line_end|]. intros _. apply C7.
Qed.

(** ** Rendered requests *)

(** The text of a token. *)
Definition text (buf : bytes) (t : tokn) : bytes := take (t_len t) (drop (t_off t) buf).

Definition header_text (buf : bytes) (h : phr_header) : option bytes * bytes :=
  (text buf <$> ph_name h, text buf (ph_value h)).

Definition CRLF : bytes := [CR; LF].

Definition render_header (h : bytes * bytes) : bytes := fst h ++ ":"%byte :: SP :: snd h ++ CRLF.

Definition render_request (method path : bytes) (minor : Z) (hs : list (bytes * bytes)) : bytes :=
  method ++ SP :: path ++ SP :: bs "HTTP/1." ++ digit_byte minor :: CRLF
  ++ mjoin (render_header <$> hs) ++ CRLF.

(** A header name is a non-empty token; a value holds no control characters and
    neither starts nor ends with a blank. *)
Definition header_wf (h : bytes * bytes) : Prop :=
  fst h ≠ [] /\ Forall (fun b => token_char b = true) (fst h)
  /\ Forall (fun b => is_ctl b = false) (snd h)
  /\ blank (char_at (snd h) 0) = false /\ blank (char_at (snd h) (length (snd h) - 1)) = false.

Fixpoint header_toks (pos : nat) (hs : list (bytes * bytes)) : list phr_header :=
  match hs with
  | [] => []
  | h :: hs =>
      mk_phr_header (Some (mk_tok pos (length (fst h))))
        (mk_tok (pos + length (fst h) + 2) (length (snd h)))
      :: header_toks (pos + length (render_header h)) hs
  end.

Lemma text_app (pre t post : bytes) : text (pre ++ t ++ post) (mk_tok (length pre) (length t)) = t.
Proof. unfold text. simpl. by rewrite drop_app_length, take_app_length. Qed.

Lemma header_texts pre hs post :
  header_text (pre ++ mjoin (render_header <$> hs) ++ post) <$> header_toks (length pre) hs
  = (fun h => (Some (fst h), snd h)) <$> hs.
Proof.
  revert pre. induction hs as [|[n v] hs IH]; intros pre; [done|].
  change (mjoin (render_header <$> (n, v) :: hs)) with (render_header (n, v) ++ mjoin (render_header <$> hs)).
  set (rest := mjoin (render_header <$> hs)) in *. cbn [header_toks fmap list_fmap]. f_equal.
  - unfold header_text. simpl. unfold render_header. simpl.
    f_equal.
    + f_equal. rewrite <- !app_assoc. simpl. by rewrite text_app.
    + rewrite <- !app_assoc. simpl. rewrite <- !app_assoc.
      replace (pre ++ n ++ ":"%byte :: SP :: v ++ CRLF ++ rest ++ post)
        with ((pre ++ n ++ [":"%byte; SP]) ++ v ++ CRLF ++ rest ++ post) by (rewrite <- !app_assoc; done).
      replace (length pre + length n + 2) with (length (pre ++ n ++ [":"%byte; SP]))
        by llia. by rewrite text_app.
  - rewrite <- app_assoc, app_assoc. rewrite <- length_app. apply IH.
Qed.

Lemma token_loop_cut stop ok start pos (s : bytes) b r :
  Forall (fun b => stop b = false /\ ok b = true) s -> stop b = true ->
  token_loop stop ok start pos (s ++ b :: r) =
    PDone (mk_tok start (pos + length s - start)) (pos + length s) (b :: r).
Proof. intros Hs Hb. rewrite token_loop_skip by done. cbn [token_loop]. by rewrite Hb. Qed.

Lemma token_char_special b :
  token_char b = true ->
  (b =b SP) = false /\ (b =b ":"%byte) = false /\ (b =b CR) = false /\ (b =b LF) = false
  /\ blank b = false.
Proof. destruct b; vm_compute; intros H; first [discriminate H | done]. Qed.

Lemma parse_token_cut c pos (s r : bytes) :
  c = SP \/ c = ":"%byte -> Forall (fun b => token_char b = true) s ->
  parse_token false c pos (s ++ c :: r) = PDone (mk_tok pos (length s)) (pos + length s) (c :: r).
Proof.
  intros Hc Hs. unfold parse_token. cbn [findchar].
  rewrite token_loop_cut; [f_equal; f_equal; lia| |apply beq_refl].
  eapply Forall_impl; [exact Hs|]. intros b Hb. split; [|done].
  destruct (token_char_special b Hb) as (H1 & H2 & _). by destruct Hc as [->| ->].
Qed.

Lemma eol_cut pos (v r : bytes) :
  Forall (fun b => is_ctl b = false) v ->
  eol_loop pos pos (v ++ CRLF ++ r) = PDone (mk_tok pos (length v)) (pos + length v + 2) r.
Proof.
  intros Hv. rewrite eol_loop_skip by done.
  cbn [CRLF app eol_loop]. change (is_ctl CR) with true. cbn. f_equal. f_equal. lia.
Qed.

Lemma trim_none v post : blank (char_at v (length v - 1)) = false -> trim_blanks (v ++ post) (length v) = length v.
Proof.
  intros Hv. rewrite trim_blanks_app by lia. destruct (length v) as [|n] eqn:E; [done|].
  cbn [trim_blanks]. replace (S n - 1) with n in Hv by lia. by rewrite Hv.
Qed.

Lemma skip_blanks_stop pos (l : bytes) : l ≠ [] -> blank (char_at l 0) = false -> skip_blanks pos l = PDone tt pos l.
Proof. intros Hl Hb. destruct l as [|b l]; [done|]. cbn [skip_blanks]. unfold char_at in Hb. simpl in Hb. by rewrite Hb. Qed.

Lemma header_line_render first pos h r :
  header_wf h ->
  header_line first pos (render_header h ++ r) =
    PDone (mk_phr_header (Some (mk_tok pos (length (fst h))))
             (mk_tok (pos + length (fst h) + 2) (length (snd h))))
          (pos + length (render_header h)) r.
Proof.
  destruct h as [n v]. intros (Hn & Ht & Hv & Hb0 & Hb1). simpl in *.
  unfold header_line, parse_name, render_header. simpl.
  assert (Hc0 : blank (char_at ((n ++ ":"%byte :: SP :: v ++ CRLF) ++ r) 0) = false).
  { destruct n as [|b n]; [done|]. inv Ht. unfold char_at. simpl. by apply token_char_special. }
  rewrite Hc0, andb_false_r. cbn [negb]. rewrite <- app_assoc. cbn [app].
  rewrite parse_token_cut by (done || by right). cbn [pbind t_len].
  replace (length n =? 0) with false by (destruct n; [done|reflexivity]).
  cbn [drop skip_blanks]. change (blank SP) with true. cbv iota.
  rewrite <- app_assoc. rewrite skip_blanks_stop; [|by destruct v|].
  2:{ destruct v as [|b v]; [reflexivity|]. exact Hb0. }
  cbn [pbind]. rewrite eol_cut by done. cbn [pbind t_off t_len]. rewrite trim_none by done.
  f_equal; [f_equal; f_equal; lia|]. rewrite length_app. simpl. rewrite length_app. simpl. lia.
Qed.

Lemma parse_headers_render fuel acc mx pos hs r :
  Forall header_wf hs -> length acc + length hs ≤ mx ->
  length (mjoin (render_header <$> hs)) + 2 < fuel ->
  parse_headers false fuel acc mx pos (mjoin (render_header <$> hs) ++ CRLF ++ r) =
    PDone (rev acc ++ header_toks pos hs) (pos + length (mjoin (render_header <$> hs)) + 2) r.
Proof.
  intros Hh. revert fuel acc pos. induction Hh as [|h hs Hw Hh IH]; intros fuel acc pos Hmx Hf.
  - destruct fuel as [|fuel]; [lia|]. rewrite parse_headers_eq. cbn. by rewrite app_nil_r, Nat.add_0_r.
  - change (mjoin (render_header <$> h :: hs)) with (render_header h ++ mjoin (render_header <$> hs)) in *.
    set (rest := mjoin (render_header <$> hs)) in *. rewrite length_app in Hf.
    destruct fuel as [|fuel]; [lia|]. rewrite parse_headers_eq.
    assert (Hhead : exists b q, (render_header h ++ rest) ++ CRLF ++ r = b :: q
                      /\ (b =b CR) = false /\ (b =b LF) = false).
    { destruct Hw as (Hn & Ht & _). unfold render_header. destruct (fst h) as [|b n]; [done|]. inv Ht.
      destruct (token_char_special b) as (_ & _ & Hb1 & Hb2 & _); [done|]. eexists b, _. by split. }
    destruct Hhead as (b & q & Hq & Hb1 & Hb2). rewrite Hq, Hb1, Hb2. cbn [orb]. rewrite <- Hq.
    simpl in Hmx. test_false (length acc =? mx).
    rewrite <- app_assoc, header_line_render by done. cbn [pbind].
    assert (Hpos : 0 < length (render_header h)) by (unfold render_header; rewrite length_app; simpl; lia).
    rewrite IH by (simpl; lia). cbn [rev]. rewrite <- app_assoc. cbn [header_toks app].
    f_equal. rewrite length_app. lia.
Qed.

Definition path_char (b : byte) : bool := negb (b =b SP) && negb (is_ctl_or_ht b).

Lemma skip_spaces_stop pos (l : bytes) : l ≠ [] -> char_at l 0 ≠ SP -> skip_spaces pos l = PDone tt pos l.
Proof.
  intros Hl Hb. destruct l as [|b l]; [done|]. cbn [skip_spaces]. unfold char_at in Hb. simpl in Hb.
  apply beq_false in Hb. by rewrite Hb.
Qed.

Lemma parse_request_render method path minor hs mx r :
  method ≠ [] -> Forall (fun b => token_char b = true) method ->
  path ≠ [] -> Forall (fun b => path_char b = true) path ->
  (0 <= minor <= 9)%Z -> Forall header_wf hs -> length hs ≤ mx ->
  let hpos := length method + length path + 12 in
  parse_request false mx 0 (render_request method path minor hs ++ r) =
    PDone (mk_phr_request (mk_tok 0 (length method)) (mk_tok (length method + 1) (length path)) minor
             (header_toks hpos hs))
          (length (render_request method path minor hs)) r.
Proof.
  intros Hm Hmt Hp Hpt Hv Hh Hmx hpos. rewrite parse_request_eq.
  unfold render_request. set (hl := mjoin (render_header <$> hs)).
  assert (Hbuf : (method ++ SP :: path ++ SP :: bs "HTTP/1." ++ digit_byte minor :: CRLF ++ hl ++ CRLF) ++ r
    = method ++ SP :: path ++ SP :: bs "HTTP/1." ++ digit_byte minor :: CRLF ++ hl ++ CRLF ++ r).
  { repeat (rewrite <- app_assoc; simpl). done. }
  rewrite Hbuf. clear Hbuf.
  assert (Hskip : forall z, skip_empty_line 0 (method ++ z) = PDone tt 0 (method ++ z)).
  { intros z. destruct method as [|b m]; [done|]. inv Hmt.
    destruct (token_char_special b) as (_ & _ & Hb1 & Hb2 & _); [done|]. cbn [app skip_empty_line].
    by rewrite Hb1, Hb2. }
  rewrite Hskip. cbn [pbind]. rewrite parse_token_cut by (done || by left). cbn [pbind drop]. rewrite drop_0.
  rewrite skip_spaces_stop; [|by destruct path|].
  2:{ destruct path as [|b p]; [done|]. inv Hpt. unfold char_at. simpl. intros ->. done. }
  cbn [pbind]. unfold advance_token. cbn [findchar].
  rewrite token_loop_cut; [| |apply beq_refl].
  2:{ eapply Forall_impl; [exact Hpt|]. intros b Hb. unfold path_char in Hb.
      apply andb_prop in Hb as [Hb1%negb_true_iff Hb2]. done. }
  cbn [pbind drop]. rewrite drop_0, skip_spaces_stop by done. cbn [pbind t_len].
  replace (length method =? 0) with false by (destruct method; [done|reflexivity]).
  replace (_ - _ =? 0) with false by (symmetry; apply Nat.eqb_neq; destruct path; [done|simpl; lia]).
  cbn [orb]. set (tail := CRLF ++ hl ++ CRLF ++ r).
  assert (Hver : forall p, parse_http_version p (bs "HTTP/1." ++ digit_byte minor :: tail) =
            PDone minor (p + 8) tail).
  { intros p. unfold parse_http_version.
    replace (length (bs "HTTP/1." ++ digit_byte minor :: tail) <? 9) with false by done.
    change (take 7 (bs "HTTP/1." ++ digit_byte minor :: tail)) with (bs "HTTP/1.").
    rewrite bytes_eqb_refl. cbn [negb].
    change (drop 7 (bs "HTTP/1." ++ digit_byte minor :: tail)) with (digit_byte minor :: tail). cbv iota.
    by rewrite is_digit_digit_byte, digit_val_digit_byte by lia. }
  rewrite Hver. cbn [pbind]. unfold tail. cbn [CRLF app line_end].
  change (CR =b CR) with true. change (LF =b LF) with true. cbv iota. cbn [pbind].
  unfold headers_of. change (CR :: LF :: r) with (CRLF ++ r). unfold hl.
  rewrite (parse_headers_render _ [] mx) by (done || (fold hl; rewrite !length_app; unfold CRLF; simpl length; lia)).
  cbn [pbind rev app]. fold hl. unfold hpos. f_equal; [f_equal; f_equal; lia|].
  rewrite length_app. simpl. rewrite length_app. simpl. rewrite !length_app. simpl. lia.
Qed.

(** ** The properties *)

(** The SSE4.2 build and the portable build of the parser agree.  Skipping
    ahead in blocks of sixteen bytes (or of eight, in header values of the
    portable build) never passes a byte at which the byte-by-byte loop would stop
    or fail, so both give the same result on every input. *)
Theorem parser_simd_equiv simd buf max_headers last_len :
  phr_parse_request simd buf max_headers last_len = phr_parse_request false buf max_headers last_len.
Proof. unfold phr_parse_request. by rewrite parse_request_simd. Qed.

(** Prefixes and extensions of an accepted input. *)
Lemma phr_prefixes simd buf mx q n rest :
  phr_parse_request simd buf mx 0 = PDone q n rest ->
  n ≤ length buf /\ rest = drop n buf
  /\ (forall k, k < n -> phr_parse_request simd (take k buf) mx 0 = PPartial)
  /\ (forall k more, n ≤ k -> phr_parse_request simd (take k buf ++ more) mx 0 =
                               PDone q n (drop n (take k buf) ++ more)).
Proof.
  unfold phr_parse_request. cbn [Nat.eqb]. rewrite parse_request_simd. intros Hb.
  destruct (moves_request mx _ _ _ _ _ Hb) as (s & Hs & Hn). simpl in Hn. subst n.
  assert (Hd : drop (length s) buf = rest) by (rewrite Hs; by rewrite drop_app_length).
  assert (Hlen : length s ≤ length buf) by (rewrite Hs, length_app; lia).
  assert (Hpre : forall k, match parse_request false mx 0 (take k buf) with
                           | PDone q' n' r' => q' = q /\ n' = length s /\ length s ≤ k
                                               /\ r' = drop (length s) (take k buf)
                           | PFail => False
                           | PPartial => True
                           end).
  { intros k. pose proof (stable_request mx 0 (take k buf) (drop k buf)) as Hst. rewrite take_drop in Hst.
    destruct (parse_request false mx 0 (take k buf)) as [q' n' r'| |] eqn:E; [|congruence|done].
    rewrite Hb in Hst. injection Hst as -> <- Hr.
    destruct (moves_request mx _ _ _ _ _ E) as (s' & Hs' & Hl). simpl in Hl.
    split_and!; try done.
    - rewrite Hl. apply (f_equal length) in Hs'. rewrite length_take, length_app in Hs'. lia.
    - rewrite Hs', Hl. by rewrite drop_app_length. }
  split; [done|]. split; [done|]. split.
  - intros k Hk. specialize (Hpre k). rewrite parse_request_simd.
    destruct (parse_request false mx 0 (take k buf)); [lia|done|done].
  - intros k more Hk. rewrite parse_request_simd.
    assert (Ht : take k buf = s ++ take (k - length s) rest) by (rewrite Hs; by apply take_app_ge).
    rewrite Ht, drop_app_length, <- app_assoc. apply (closed_request mx 0 s rest). by rewrite <- Hs.
Qed.

(** C8: incremental parsing is consistent.  If the parser accepts a request on
    some input and says [n] bytes were consumed, then [n] is at most the input's
    length, every prefix shorter than [n] is reported as incomplete (never as
    malformed, never accepted early), and every other prefix or extension of the
    input gives the same request and the same [n]. *)
Theorem parser_incremental simd buf mx q n rest :
  phr_parse_request simd buf mx 0 = PDone q n rest ->
  n ≤ length buf /\ rest = drop n buf
  /\ (forall k, k < n -> phr_parse_request simd (take k buf) mx 0 = PPartial)
  /\ (forall k more, n ≤ k -> phr_parse_request simd (take k buf ++ more) mx 0 =
                               PDone q n (drop n (take k buf) ++ more)).
Proof. apply phr_prefixes. Qed.

Definition demo_request : bytes :=
  render_request (bs "GET") (bs "/a") 1 [(bs "Host", bs "x"); (bs "Accept", bs "*/*")].

Lemma parser_incremental_witness :
  phr_parse_request true (take 20 demo_request) 64 0 = PPartial
  /\ exists q, phr_parse_request true demo_request 64 0 = PDone q (length demo_request) [].
Proof.
  assert (E : exists q, phr_parse_request true demo_request 64 0 = PDone q (length demo_request) []).
  { eexists. vm_compute. reflexivity. }
  split; [|exact E]. destruct E as [q E].
  destruct (parser_incremental true demo_request 64 q (length demo_request) [] E) as (_ & _ & Hp & _).
  apply Hp. nle.
Defined.

(** Where the parts of a rendered request are. *)
Definition request_toks (method path : bytes) (minor : Z) (hs : list (bytes * bytes)) : phr_request :=
  mk_phr_request (mk_tok 0 (length method)) (mk_tok (length method + 1) (length path)) minor
    (header_toks (length method + length path + 12) hs).

Lemma request_texts method path minor hs rest :
  let buf := render_request method path minor hs ++ rest in
  let q := request_toks method path minor hs in
  text buf (pr_method q) = method /\ text buf (pr_path q) = path
  /\ header_text buf <$> pr_headers q = (fun h => (Some (fst h), snd h)) <$> hs.
Proof.
  cbn zeta. cbn [request_toks pr_method pr_path pr_headers].
  unfold render_request. set (hl := mjoin (render_header <$> hs)).
  set (l1 := bs "HTTP/1." ++ digit_byte minor :: CRLF).
  assert (Hmsg : (method ++ SP :: path ++ SP :: bs "HTTP/1." ++ digit_byte minor :: CRLF ++ hl ++ CRLF) ++ rest
                 = method ++ SP :: path ++ SP :: l1 ++ hl ++ CRLF ++ rest).
  { unfold l1. repeat (rewrite <- app_assoc; simpl). done. }
  rewrite Hmsg. split_and!.
  - apply (text_app []).
  - replace (length method + 1) with (length (method ++ [SP])) by (rewrite length_app; done).
    replace (method ++ SP :: path ++ SP :: l1 ++ hl ++ CRLF ++ rest)
      with ((method ++ [SP]) ++ path ++ SP :: l1 ++ hl ++ CRLF ++ rest) by by rewrite <- app_assoc.
    apply text_app.
  - replace (length method + length path + 12) with (length (method ++ SP :: path ++ SP :: l1))
      by (rewrite length_app; simpl; rewrite length_app; simpl; lia).
    replace (method ++ SP :: path ++ SP :: l1 ++ hl ++ CRLF ++ rest)
      with ((method ++ SP :: path ++ SP :: l1) ++ hl ++ CRLF ++ rest).
    + apply header_texts.
    + rewrite <- app_assoc. simpl. by rewrite <- app_assoc.
Qed.

(** Rendered requests parse back.  For every method token, path without
    blanks or control characters, minor version and list of at most [mx] headers
    (non-empty token names, values without control characters or surrounding
    blanks), the parser accepts the rendered request followed by any bytes,
    consumes exactly the request, and the tokens it reports are exactly the
    method, the path, the version and the headers in order. *)
Theorem parser_roundtrip simd method path minor hs mx rest :
  method ≠ [] -> Forall (fun b => token_char b = true) method ->
  path ≠ [] -> Forall (fun b => path_char b = true) path ->
  (0 <= minor <= 9)%Z -> Forall header_wf hs -> length hs ≤ mx ->
  let msg := render_request method path minor hs in
  exists q, phr_parse_request simd (msg ++ rest) mx 0 = PDone q (length msg) rest
    /\ text (msg ++ rest) (pr_method q) = method
    /\ text (msg ++ rest) (pr_path q) = path
    /\ pr_minor_version q = minor
    /\ header_text (msg ++ rest) <$> pr_headers q = (fun h => (Some (fst h), snd h)) <$> hs.
Proof.
  intros Hm Hmt Hp Hpt Hv Hh Hmx msg. unfold phr_parse_request. cbn [Nat.eqb]. rewrite parse_request_simd.
  unfold msg. rewrite parse_request_render by done. eexists. split; [reflexivity|].
  destruct (request_texts method path minor hs rest) as (H1 & H2 & H3). by split_and!.
Qed.

Lemma parser_roundtrip_witness :
  exists q, phr_parse_request false (demo_request ++ bs "next") 64 0 = PDone q (length demo_request) (bs "next")
    /\ text (demo_request ++ bs "next") (pr_path q) = bs "/a".
Proof.
  destruct (parser_roundtrip false (bs "GET") (bs "/a") 1 [(bs "Host", bs "x"); (bs "Accept", bs "*/*")]
              64 (bs "next")) as (q & Hq & _ & Hp & _);
    [discriminate|repeat constructor|discriminate|repeat constructor|lia
    |repeat constructor; discriminate|apply Nat.leb_le; reflexivity|].
  exists q. split; [exact Hq|exact Hp].
Defined.
