(* ===== verification/Chunked.v ===== *)
(** The chunked transfer decoder ([phr_decode_chunked] of
    [src/src/http/picohttpparser.c]).

    The code decodes in place: decoded bytes are moved down to [dst], which never
    passes [src].  The model keeps the decoded bytes ([buf[0 .. dst)]) and the
    unread ones ([buf + src]) apart. *)
From S2P Require Import Prelude CString.

(** ** State *)

Inductive chunk_state :=
| CHUNKED_IN_CHUNK_SIZE
| CHUNKED_IN_CHUNK_EXT
| CHUNKED_IN_CHUNK_HEADER_EXPECT_LF
| CHUNKED_IN_CHUNK_DATA
| CHUNKED_IN_CHUNK_DATA_EXPECT_CR
| CHUNKED_IN_CHUNK_DATA_EXPECT_LF
| CHUNKED_IN_TRAILERS_LINE_HEAD
| CHUNKED_IN_TRAILERS_LINE_MIDDLE.

Record phr_chunked_decoder := mk_chunked {
  bytes_left_in_chunk : Z;
  consume_trailer : bool;
  hex_count : nat;
  cstate : chunk_state;
  total_read : Z;
  total_overhead : Z;
}.

Definition chunked_zero : phr_chunked_decoder := mk_chunked 0 false 0 CHUNKED_IN_CHUNK_SIZE 0 0.

Definition set_cstate (d : phr_chunked_decoder) (s : chunk_state) : phr_chunked_decoder :=
  mk_chunked (bytes_left_in_chunk d) (consume_trailer d) (hex_count d) s (total_read d) (total_overhead d).
Definition set_left (d : phr_chunked_decoder) (n : Z) : phr_chunked_decoder :=
  mk_chunked n (consume_trailer d) (hex_count d) (cstate d) (total_read d) (total_overhead d).
Definition set_hex (d : phr_chunked_decoder) (n : nat) : phr_chunked_decoder :=
  mk_chunked (bytes_left_in_chunk d) (consume_trailer d) n (cstate d) (total_read d) (total_overhead d).
Definition set_totals (d : phr_chunked_decoder) (r o : Z) : phr_chunked_decoder :=
  mk_chunked (bytes_left_in_chunk d) (consume_trailer d) (hex_count d) (cstate d) r o.

Definition decode_hex (b : byte) : option Z :=
  let c := b2z b in
  if ((48 <=? c) && (c <=? 57))%Z then Some (c - 48)%Z
  else if ((65 <=? c) && (c <=? 70))%Z then Some (c - 65 + 10)%Z
  else if ((97 <=? c) && (c <=? 102))%Z then Some (c - 97 + 10)%Z
  else None.

(** ** One case of the switch *)

(** How the loop is left. *)
Inductive exit_kind := Complete | Incomplete | Malformed.

(** The next turn, or an exit; both with the decoder, the unread bytes and the
    decoded bytes. *)
Inductive turn :=
| Next (d : phr_chunked_decoder) (src out : bytes)
| Exit (k : exit_kind) (d : phr_chunked_decoder) (src out : bytes).

(** The loop over the digits of the chunk size. *)
Fixpoint size_loop (d : phr_chunked_decoder) (src out : bytes) : turn :=
  match src with
  | [] => Exit Incomplete d [] out
  | b :: src' =>
      match decode_hex b with
      | None =>
          if hex_count d =? 0 then Exit Malformed d src out
          else if (b =b SP) || (b =b HT) || (b =b ";"%byte) || (b =b LF) || (b =b CR)
          then Next (set_cstate (set_hex d 0) CHUNKED_IN_CHUNK_EXT) src out
          else Exit Malformed d src out
      | Some v =>
          if hex_count d =? 16 then Exit Malformed d src out
          else size_loop (set_hex (set_left d (u64 (bytes_left_in_chunk d * 16 + v))) (S (hex_count d)))
                         src' out
      end
  end.

Fixpoint ext_loop (d : phr_chunked_decoder) (src out : bytes) : turn :=
  match src with
  | [] => Exit Incomplete d [] out
  | b :: src' =>
      if b =b CR then Next (set_cstate d CHUNKED_IN_CHUNK_HEADER_EXPECT_LF) src' out
      else if b =b LF then Exit Malformed d src out
      else ext_loop d src' out
  end.

Fixpoint trailer_head_loop (d : phr_chunked_decoder) (src out : bytes) : turn :=
  match src with
  | [] => Exit Incomplete d [] out
  | b :: src' =>
      if b =b CR then trailer_head_loop d src' out
      else if b =b LF then Exit Complete d src' out
      else Next (set_cstate d CHUNKED_IN_TRAILERS_LINE_MIDDLE) src' out
  end.

Fixpoint trailer_middle_loop (d : phr_chunked_decoder) (src out : bytes) : turn :=
  match src with
  | [] => Exit Incomplete d [] out
  | b :: src' =>
      if b =b LF then Next (set_cstate d CHUNKED_IN_TRAILERS_LINE_HEAD) src' out
      else trailer_middle_loop d src' out
  end.

Definition switch (d : phr_chunked_decoder) (src out : bytes) : turn :=
  match cstate d with
  | CHUNKED_IN_CHUNK_SIZE => size_loop d src out
  | CHUNKED_IN_CHUNK_EXT => ext_loop d src out
  | CHUNKED_IN_CHUNK_HEADER_EXPECT_LF =>
      match src with
      | [] => Exit Incomplete d [] out
      | b :: src' =>
          if negb (b =b LF) then Exit Malformed d src out
          else if (bytes_left_in_chunk d =? 0)%Z then
            if consume_trailer d then Next (set_cstate d CHUNKED_IN_TRAILERS_LINE_HEAD) src' out
            else Exit Complete d src' out
          else Next (set_cstate d CHUNKED_IN_CHUNK_DATA) src' out
      end
  | CHUNKED_IN_CHUNK_DATA =>
      let left := bytes_left_in_chunk d in
      if (Z.of_nat (length src) <? left)%Z
      then Exit Incomplete (set_left d (left - Z.of_nat (length src))) [] (out ++ src)
      else Next (set_cstate (set_left d 0) CHUNKED_IN_CHUNK_DATA_EXPECT_CR)
                (drop (Z.to_nat left) src) (out ++ take (Z.to_nat left) src)
  | CHUNKED_IN_CHUNK_DATA_EXPECT_CR =>
      match src with
      | [] => Exit Incomplete d [] out
      | b :: src' => if negb (b =b CR) then Exit Malformed d src out
                     else Next (set_cstate d CHUNKED_IN_CHUNK_DATA_EXPECT_LF) src' out
      end
  | CHUNKED_IN_CHUNK_DATA_EXPECT_LF =>
      match src with
      | [] => Exit Incomplete d [] out
      | b :: src' => if negb (b =b LF) then Exit Malformed d src out
                     else Next (set_cstate d CHUNKED_IN_CHUNK_SIZE) src' out
      end
  | CHUNKED_IN_TRAILERS_LINE_HEAD => trailer_head_loop d src out
  | CHUNKED_IN_TRAILERS_LINE_MIDDLE => trailer_middle_loop d src out
  end.

(** The outer loop.  Two turns consume at least a byte, so [2 * length + 2] turns
    are enough; [None] is fuel run out. *)
Fixpoint chunk_loop (fuel : nat) (d : phr_chunked_decoder) (src out : bytes)
    : option (exit_kind * phr_chunked_decoder * bytes * bytes) :=
  match fuel with
  | O => None
  | S fuel =>
      match switch d src out with
      | Next d src out => chunk_loop fuel d src out
      | Exit k d src out => Some (k, d, src, out)
      end
  end.

(** What a call leaves: the return value, the decoder, the decoded bytes
    ([buf[0 .. *bufsz)]) and the bytes after them. *)
Record chunk_result := mk_chunk_result {
  cr_ret : Z;
  cr_decoder : phr_chunked_decoder;
  cr_out : bytes;
  cr_left : bytes;
}.

Definition phr_decode_chunked (d : phr_chunked_decoder) (buf : bytes) : chunk_result :=
  let bufsz := Z.of_nat (length buf) in
  let d := set_totals d (u64 (total_read d + bufsz)) (total_overhead d) in
  match chunk_loop (2 * length buf + 2) d buf [] with
  | None => mk_chunk_result (-1) d [] buf
  | Some (Complete, d, src, out) => mk_chunk_result (Z.of_nat (length src)) d out src
  | Some (Malformed, d, src, out) => mk_chunk_result (-1) d out src
  | Some (Incomplete, d, src, out) =>
      let d := set_totals d (total_read d) (u64 (total_overhead d + (bufsz - Z.of_nat (length out)))) in
      if ((100 * 1024 <=? total_overhead d)
          && (u64 (total_read d - total_overhead d) <? total_read d / 4))%Z
      then mk_chunk_result (-1) d out src
      else mk_chunk_result (-2) d out src
  end.

Definition phr_decode_chunked_is_in_data (d : phr_chunked_decoder) : bool :=
  match cstate d with CHUNKED_IN_CHUNK_DATA => true | _ => false end.

(** ** Specification vocabulary *)

(** Hexadecimal notation, as an encoder writes it. *)
Definition hex_digit (d : Z) : byte :=
  default x30 (Byte.of_N (Z.to_N (if (d <? 10)%Z then 48 + d else 87 + d))).
Fixpoint print_hex_aux (fuel : nat) (n : Z) : bytes :=
  match fuel with
  | O => []
  | S f => if (n <? 16)%Z then [hex_digit n] else print_hex_aux f (n / 16) ++ [hex_digit (n mod 16)]
  end.
Definition print_hex (n : Z) : bytes := print_hex_aux 16 n.

Definition encode_chunk (c : bytes) : bytes :=
  print_hex (Z.of_nat (length c)) ++ [CR; LF] ++ c ++ [CR; LF].

(** A body as its chunks, with the last chunk and no trailers. *)
Definition encode_body (cs : list bytes) : bytes :=
  mjoin (encode_chunk <$> cs) ++ bs "0" ++ [CR; LF; CR; LF].

(** A decoder ready for a new body. *)
Definition fresh (d : phr_chunked_decoder) : Prop :=
  cstate d = CHUNKED_IN_CHUNK_SIZE /\ bytes_left_in_chunk d = 0%Z /\ hex_count d = 0
  /\ consume_trailer d = true.

(** The run of the outer loop on some input. *)
Definition run (d : phr_chunked_decoder) (src out : bytes) :=
  chunk_loop (2 * length src + 2) d src out.

(** ** Enough turns *)

Definition rank (s : chunk_state) : nat :=
  match s with CHUNKED_IN_CHUNK_SIZE | CHUNKED_IN_CHUNK_DATA => 1 | _ => 0 end.

Definition measure (d : phr_chunked_decoder) (src : bytes) : nat := 2 * length src + rank (cstate d).

Lemma size_loop_len d src out d' src' out' :
  size_loop d src out = Next d' src' out' ->
  length src' ≤ length src /\ cstate d' = CHUNKED_IN_CHUNK_EXT /\ out' = out.
Proof.
  revert d. induction src as [|b src IH]; intros d; [done|]. cbn [size_loop].
  destruct (decode_hex b).
  - destruct (_ =? 16); [done|]. intros Hs%IH. simpl. destruct Hs as (? & ? & ?). split_and!; try done; lia.
  - destruct (_ =? 0); [done|]. destruct (_ || _); [|done]. intros [= <- <- <-]. by simpl.
Qed.

Lemma loop_len d src out d' src' out' :
  (ext_loop d src out = Next d' src' out' ->
     length src' < length src /\ cstate d' = CHUNKED_IN_CHUNK_HEADER_EXPECT_LF)
  /\ (trailer_head_loop d src out = Next d' src' out' ->
     length src' < length src /\ cstate d' = CHUNKED_IN_TRAILERS_LINE_MIDDLE)
  /\ (trailer_middle_loop d src out = Next d' src' out' ->
     length src' < length src /\ cstate d' = CHUNKED_IN_TRAILERS_LINE_HEAD).
Proof.
  induction src as [|b src (IH1 & IH2 & IH3)]; [done|].
  cbn [ext_loop trailer_head_loop trailer_middle_loop]. split_and!.
  - destruct (b =b CR); [intros [= <- <- <-]; simpl; split; [lia|done]|].
    destruct (b =b LF); [done|]. intros Hs%IH1. simpl. destruct Hs. split; [lia|done].
  - destruct (b =b CR); [intros Hs%IH2; simpl; destruct Hs; split; [lia|done]|].
    destruct (b =b LF); [done|]. intros [= <- <- <-]. simpl. split; [lia|done].
  - destruct (b =b LF); [intros [= <- <- <-]; simpl; split; [lia|done]|].
    intros Hs%IH3. simpl. destruct Hs. split; [lia|done].
Qed.

Lemma switch_measure d src out d' src' out' :
  switch d src out = Next d' src' out' -> measure d' src' < measure d src.
Proof.
  unfold switch, measure. destruct (cstate d) eqn:E; intros Hs.
  - apply size_loop_len in Hs as (? & -> & _). simpl. lia.
  - apply loop_len in Hs as (? & ->). simpl. lia.
  - destruct src as [|b src]; [done|]. destruct (negb _); [done|]. destruct (_ =? 0)%Z.
    + destruct (consume_trailer d); [|done]. injection Hs as <- <- <-. simpl. lia.
    + injection Hs as <- <- <-. simpl. lia.
  - destruct (_ <? _)%Z; [done|]. injection Hs as <- <- <-. rewrite length_drop. simpl. lia.
  - destruct src as [|b src]; [done|]. destruct (negb _); [done|]. injection Hs as <- <- <-. simpl. lia.
  - destruct src as [|b src]; [done|]. destruct (negb _); [done|]. injection Hs as <- <- <-. simpl. lia.
  - apply loop_len in Hs as (? & ->). simpl. lia.
  - apply loop_len in Hs as (? & ->). simpl. lia.
Qed.

Lemma chunk_loop_fuel f1 f2 d src out :
  measure d src < f1 -> measure d src < f2 -> chunk_loop f1 d src out = chunk_loop f2 d src out.
Proof.
  revert f2 d src out. induction f1 as [|f1 IH]; intros [|f2] d src out H1 H2; try lia.
  cbn [chunk_loop]. destruct (switch d src out) as [d' src' out'|] eqn:E; [|done].
  apply switch_measure in E. apply IH; lia.
Qed.

Lemma measure_fuel d src : measure d src < 2 * length src + 2.
Proof. unfold measure. destruct (cstate d); simpl; lia. Qed.

Lemma run_eq d src out :
  run d src out =
  match switch d src out with Next d src out => run d src out | Exit k d src out => Some (k, d, src, out) end.
Proof.
  unfold run at 1. replace (2 * length src + 2) with (S (2 * length src + 1)) by lia. cbn [chunk_loop].
  destruct (switch d src out) as [d' src' out'|] eqn:E; [|done].
  pose proof (switch_measure _ _ _ _ _ _ E). pose proof (measure_fuel d src).
  apply chunk_loop_fuel; [lia|apply measure_fuel].
Qed.

(** The loop always ends within its turns. *)
Lemma run_total d src out : is_Some (run d src out).
Proof.
  assert (Hgen : forall n d src out, measure d src < n -> is_Some (run d src out)).
  { clear. induction n as [|n IH]; intros d src out Hm; [lia|]. rewrite run_eq.
    destruct (switch d src out) as [d' src' out'|] eqn:E; [|by eexists].
    apply switch_measure in E. apply IH. lia. }
  eapply Hgen. apply Nat.lt_succ_diag_r.
Qed.

(** ** What the loop does not depend on *)

(** Other totals, and bytes decoded before. *)
Definition shift_turn (x y : Z) (o : bytes) (t : turn) : turn :=
  match t with
  | Next d src out => Next (set_totals d x y) src (o ++ out)
  | Exit k d src out => Exit k (set_totals d x y) src (o ++ out)
  end.

Lemma size_loop_shift x y o d src out :
  size_loop (set_totals d x y) src (o ++ out) = shift_turn x y o (size_loop d src out).
Proof.
  revert d. induction src as [|b src IH]; intros d; [done|]. cbn [size_loop].
  destruct (decode_hex b); simpl.
  - destruct (_ =? 16); [done|]. apply (IH (set_hex (set_left d _) _)).
  - destruct (_ =? 0); [done|]. by destruct (_ || _).
Qed.

Lemma loops_shift x y o d src out :
  ext_loop (set_totals d x y) src (o ++ out) = shift_turn x y o (ext_loop d src out)
  /\ trailer_head_loop (set_totals d x y) src (o ++ out) = shift_turn x y o (trailer_head_loop d src out)
  /\ trailer_middle_loop (set_totals d x y) src (o ++ out) = shift_turn x y o (trailer_middle_loop d src out).
Proof.
  induction src as [|b src (IH1 & IH2 & IH3)]; [done|].
  cbn [ext_loop trailer_head_loop trailer_middle_loop].
  split_and!; destruct (b =b CR), (b =b LF); done.
Qed.

Lemma switch_shift x y o d src out :
  switch (set_totals d x y) src (o ++ out) = shift_turn x y o (switch d src out).
Proof.
  unfold switch. simpl cstate. destruct (cstate d) eqn:E.
  - apply size_loop_shift.
  - apply loops_shift.
  - destruct src as [|b src]; [done|]. simpl. destruct (negb _); [done|]. destruct (_ =? 0)%Z; [|done].
    by destruct (consume_trailer d).
  - simpl. destruct (_ <? _)%Z; simpl; by rewrite app_assoc.
  - destruct src as [|b src]; [done|]. simpl. by destruct (negb _).
  - destruct src as [|b src]; [done|]. simpl. by destruct (negb _).
  - apply loops_shift.
  - apply loops_shift.
Qed.

Lemma run_shift x y o d src out :
  run (set_totals d x y) src (o ++ out) =
  match run d src out with
  | Some (k, d', s, out') => Some (k, set_totals d' x y, s, o ++ out')
  | None => None
  end.
Proof.
  assert (Hgen : forall n d src out, measure d src < n ->
    run (set_totals d x y) src (o ++ out) =
    match run d src out with
    | Some (k, d', s, out') => Some (k, set_totals d' x y, s, o ++ out')
    | None => None
    end).
  { clear. induction n as [|n IH]; intros d src out Hm; [lia|]. rewrite run_eq, (run_eq d), switch_shift.
    destruct (switch d src out) as [d' src' out'|k d' src' out'] eqn:E; cbn [shift_turn]; [|done].
    apply switch_measure in E. apply IH. lia. }
  eapply Hgen. apply Nat.lt_succ_diag_r.
Qed.

(** The totals are only carried along. *)
Lemma run_keeps_totals d src out k d' s out' :
  run d src out = Some (k, d', s, out') -> total_read d' = total_read d /\ total_overhead d' = total_overhead d.
Proof.
  intros Hr. pose proof (run_shift (total_read d) (total_overhead d) [] d src out) as Hs.
  replace (set_totals d (total_read d) (total_overhead d)) with d in Hs by by destruct d.
  simpl app in Hs. rewrite Hr in Hs. injection Hs as ->. done.
Qed.

(** ** More input *)

Lemma size_loop_more d a b out :
  match size_loop d a out with
  | Next d' a' out' => size_loop d (a ++ b) out = Next d' (a' ++ b) out'
  | Exit Incomplete d' a' out' =>
      a' = [] /\ cstate d' = cstate d /\ size_loop d (a ++ b) out = size_loop d' b out'
  | Exit k d' a' out' => size_loop d (a ++ b) out = Exit k d' (a' ++ b) out'
  end.
Proof.
  revert d. induction a as [|x a IH]; intros d; [done|]. cbn [app size_loop].
  destruct (decode_hex x).
  - destruct (_ =? 16); [done|]. apply (IH (set_hex (set_left d _) _)).
  - destruct (_ =? 0); [done|]. by destruct (_ || _).
Qed.

Lemma loops_more (f : phr_chunked_decoder -> bytes -> bytes -> turn) d a b out :
  f = ext_loop \/ f = trailer_head_loop \/ f = trailer_middle_loop ->
  match f d a out with
  | Next d' a' out' => f d (a ++ b) out = Next d' (a' ++ b) out'
  | Exit Incomplete d' a' out' => a' = [] /\ d' = d /\ out' = out /\ f d (a ++ b) out = f d b out
  | Exit k d' a' out' => f d (a ++ b) out = Exit k d' (a' ++ b) out'
  end.
Proof.
  intros [->|[->| ->]]; (induction a as [|x a IH]; [done|]);
    cbn [app ext_loop trailer_head_loop trailer_middle_loop];
    destruct (x =b CR), (x =b LF); done.
Qed.

Lemma switch_more d a b out :
  match switch d a out with
  | Next d' a' out' => switch d (a ++ b) out = Next d' (a' ++ b) out'
  | Exit Incomplete d' a' out' => a' = [] /\ switch d (a ++ b) out = switch d' b out'
  | Exit k d' a' out' => switch d (a ++ b) out = Exit k d' (a' ++ b) out'
  end.
Proof.
  assert (Hloops : forall f, f = ext_loop \/ f = trailer_head_loop \/ f = trailer_middle_loop ->
    (forall src out, switch d src out = f d src out) ->
    match switch d a out with
    | Next d' a' out' => switch d (a ++ b) out = Next d' (a' ++ b) out'
    | Exit Incomplete d' a' out' => a' = [] /\ switch d (a ++ b) out = switch d' b out'
    | Exit k d' a' out' => switch d (a ++ b) out = Exit k d' (a' ++ b) out'
    end).
  { intros f Hf Hsw. rewrite !Hsw. pose proof (loops_more f d a b out Hf) as Hm.
    destruct (f d a out) as [d' a' out'|[] d' a' out']; try done.
    destruct Hm as (-> & -> & -> & Hm). split; [done|]. by rewrite Hsw. }
  destruct (cstate d) eqn:E.
  - assert (Hsw : forall src out, switch d src out = size_loop d src out).
    { intros. unfold switch. by rewrite E. }
    rewrite !Hsw. pose proof (size_loop_more d a b out) as Hm.
    destruct (size_loop d a out) as [d' a' out'|[] d' a' out']; try done.
    destruct Hm as (-> & Hst & Hm). split; [done|]. unfold switch. by rewrite Hst, E.
  - apply (Hloops ext_loop); [by left|]. intros. unfold switch. by rewrite E.
  - destruct a as [|x a]; [by unfold switch; rewrite E; split; [|rewrite E]|]. unfold switch. rewrite E. cbn [app].
    destruct (negb _); [done|]. destruct (_ =? 0)%Z; [|done]. by destruct (consume_trailer d).
  - assert (Hsw : forall src out, switch d src out =
      if (Z.of_nat (length src) <? bytes_left_in_chunk d)%Z
      then Exit Incomplete (set_left d (bytes_left_in_chunk d - Z.of_nat (length src))) [] (out ++ src)
      else Next (set_cstate (set_left d 0) CHUNKED_IN_CHUNK_DATA_EXPECT_CR)
             (drop (Z.to_nat (bytes_left_in_chunk d)) src) (out ++ take (Z.to_nat (bytes_left_in_chunk d)) src)).
    { intros. unfold switch. by rewrite E. }
    rewrite !Hsw. destruct (Z.of_nat (length a) <? bytes_left_in_chunk d)%Z eqn:El.
    + bprop. split; [done|]. unfold switch. simpl cstate. rewrite E. simpl bytes_left_in_chunk.
      rewrite length_app. set (l := bytes_left_in_chunk d) in *.
      destruct (Z.of_nat (length a + length b) <? l)%Z eqn:E1,
               (Z.of_nat (length b) <? l - Z.of_nat (length a))%Z eqn:E2; bprop; try lia.
      * f_equal; [|by rewrite app_assoc]. unfold set_left. simpl. f_equal. lia.
      * f_equal; [rewrite drop_app_ge by lia; f_equal; lia|].
        rewrite take_app_ge by lia. rewrite app_assoc. do 2 f_equal. lia.
    + bprop. replace (Z.of_nat (length (a ++ b)) <? bytes_left_in_chunk d)%Z with false
        by (symmetry; apply Z.ltb_ge; rewrite length_app; lia).
      f_equal; [by rewrite drop_app_le by lia|by rewrite take_app_le by lia].
  - destruct a as [|x a]; [by unfold switch; rewrite E; split; [|rewrite E]|]. unfold switch. rewrite E. cbn [app].
    by destruct (negb _).
  - destruct a as [|x a]; [by unfold switch; rewrite E; split; [|rewrite E]|]. unfold switch. rewrite E. cbn [app].
    by destruct (negb _).
  - apply (Hloops trailer_head_loop); [by right; left|]. intros. unfold switch. by rewrite E.
  - apply (Hloops trailer_middle_loop); [by right; right|]. intros. unfold switch. by rewrite E.
Qed.

Lemma run_more d a b out :
  run d (a ++ b) out =
  match run d a out with
  | Some (Incomplete, d', _, out') => run d' b out'
  | Some (k, d', s, out') => Some (k, d', s ++ b, out')
  | None => None
  end.
Proof.
  assert (Hgen : forall n d a out, measure d a < n ->
    run d (a ++ b) out =
    match run d a out with
    | Some (Incomplete, d', _, out') => run d' b out'
    | Some (k, d', s, out') => Some (k, d', s ++ b, out')
    | None => None
    end).
  { clear. induction n as [|n IH]; intros d a out Hm; [lia|]. rewrite (run_eq d a).
    pose proof (switch_more d a b out) as Hs. rewrite (run_eq d (a ++ b)).
    destruct (switch d a out) as [d' a' out'|k d' a' out'] eqn:E.
    - rewrite Hs. apply switch_measure in E. apply IH. lia.
    - destruct k; [by rewrite Hs| |by rewrite Hs]. destruct Hs as [-> ->]. by rewrite (run_eq d' b). }
  eapply Hgen. apply Nat.lt_succ_diag_r.
Qed.

(** ** Reading what an encoder wrote *)

Definition hex_val (acc : Z) (l : bytes) : Z :=
  fold_left (fun r b => r * 16 + default 0 (decode_hex b))%Z l acc.

Lemma decode_hex_digit d : (0 <= d < 16)%Z -> decode_hex (hex_digit d) = Some d.
Proof.
  intros Hd.
  assert (Hc : (d = 0 \/ d = 1 \/ d = 2 \/ d = 3 \/ d = 4 \/ d = 5 \/ d = 6 \/ d = 7 \/ d = 8 \/ d = 9
                \/ d = 10 \/ d = 11 \/ d = 12 \/ d = 13 \/ d = 14 \/ d = 15)%Z) by lia.
  repeat destruct Hc as [->|Hc]; try reflexivity. by subst.
Qed.

Lemma print_hex_aux_spec f n :
  (0 <= n < 16 ^ Z.of_nat f)%Z ->
  hex_val 0 (print_hex_aux f n) = n /\ Forall (fun b => is_Some (decode_hex b)) (print_hex_aux f n)
  /\ length (print_hex_aux f n) ≤ f /\ (0 < f -> print_hex_aux f n ≠ []).
Proof.
  revert n. induction f as [|f IH]; intros n Hn.
  - rewrite Z.pow_0_r in Hn. unfold hex_val. simpl. split_and!; try done; lia.
  - rewrite Nat2Z.inj_succ, Z.pow_succ_r in Hn by lia. cbn [print_hex_aux].
    destruct (n <? 16)%Z eqn:E; bprop.
    + unfold hex_val. simpl. rewrite decode_hex_digit by lia. simpl. split_and!; try done; try lia.
      constructor; [|done]. by rewrite decode_hex_digit by lia.
    + assert (Hq : (0 <= n / 16 < 16 ^ Z.of_nat f)%Z).
      { split; [apply Z.div_pos; lia|]. apply Z.div_lt_upper_bound; lia. }
      pose proof (Z.mod_pos_bound n 16 ltac:(lia)) as Hm.
      destruct (IH _ Hq) as (IHv & IHd & IHl & _). split_and!.
      * unfold hex_val in *. rewrite fold_left_app, IHv. simpl. rewrite decode_hex_digit by lia. simpl.
        pose proof (Z.div_mod n 16). lia.
      * apply Forall_app; split; [done|]. constructor; [|done]. by rewrite decode_hex_digit by lia.
      * rewrite length_app. simpl. lia.
      * intros _ Hx. by apply app_nil in Hx as [_ ?].
Qed.

Lemma print_hex_spec n :
  (0 <= n < 2 ^ 64)%Z ->
  hex_val 0 (print_hex n) = n /\ Forall (fun b => is_Some (decode_hex b)) (print_hex n)
  /\ length (print_hex n) ≤ 16 /\ print_hex n ≠ [].
Proof.
  intros Hn. destruct (print_hex_aux_spec 16 n) as (H1 & H2 & H3 & H4); [exact Hn|].
  split_and!; try done. apply H4. lia.
Qed.

(** The digits of a chunk size, ended by a carriage return. *)
Lemma size_loop_digits d l r out :
  Forall (fun b => is_Some (decode_hex b)) l -> hex_count d + length l ≤ 16 ->
  hex_count d + length l ≠ 0 -> bytes_left_in_chunk d = u64 (bytes_left_in_chunk d) ->
  size_loop d (l ++ CR :: r) out =
    Next (set_cstate (set_hex (set_left d (u64 (hex_val (bytes_left_in_chunk d) l))) 0) CHUNKED_IN_CHUNK_EXT)
         (CR :: r) out.
Proof.
  intros Hl. revert d. induction Hl as [|b l [v Hv] Hl IH]; intros d Hc Hne Hu.
  - cbn [app size_loop]. change (decode_hex CR) with (@None Z). simpl in Hne. rewrite Nat.add_0_r in Hne.
    replace (hex_count d =? 0) with false by (symmetry; by apply Nat.eqb_neq).
    change (CR =b CR) with true. rewrite orb_true_r. unfold hex_val. simpl. by rewrite <- Hu; destruct d.
  - cbn [app size_loop]. rewrite Hv. simpl in Hc.
    test_false (hex_count d =? 16).
    rewrite IH.
    + cbn [hex_count bytes_left_in_chunk set_hex set_left]. f_equal. unfold set_cstate, set_hex, set_left. simpl.
      f_equal. unfold hex_val. simpl. rewrite Hv. simpl.
      assert (Hfold : forall acc, u64 (fold_left (fun r b => r * 16 + default 0 (decode_hex b))%Z l (u64 acc))
                = u64 (fold_left (fun r b => r * 16 + default 0 (decode_hex b))%Z l acc)).
      { clear. induction l as [|b l IH]; intros acc; simpl.
        - unfold u64. by rewrite Z.mod_mod by lia.
        - rewrite <- IH, <- (IH (acc * 16 + _)%Z). do 2 f_equal. unfold u64.
          rewrite <- (Z.add_mod_idemp_l (acc mod 2 ^ 64 * 16)) by lia.
          rewrite Z.mul_mod_idemp_l by lia. by rewrite Z.add_mod_idemp_l by lia. }
      apply Hfold.
    + cbn [hex_count set_hex set_left]. lia.
    + cbn [hex_count set_hex set_left]. lia.
    + cbn [bytes_left_in_chunk set_hex set_left]. unfold u64. by rewrite Z.mod_mod by lia.
Qed.

(** A chunk header line takes the decoder to the line feed check. *)
Lemma run_size d n r out :
  fresh d -> (0 <= n < 2 ^ 64)%Z ->
  run d (print_hex n ++ CR :: LF :: r) out =
  run (set_cstate (set_left d n) CHUNKED_IN_CHUNK_HEADER_EXPECT_LF) (LF :: r) out.
Proof.
  intros (Hs & Hl & Hh & Ht) Hn. destruct (print_hex_spec n Hn) as (Hv & Hd & Hlen & Hne).
  rewrite run_eq. unfold switch. rewrite Hs.
  rewrite size_loop_digits; [|done|lia|destruct (print_hex n); [done|simpl; lia]|by rewrite Hl].
  rewrite Hl, Hv, u64_small by lia. rewrite run_eq. unfold switch. simpl cstate.
  cbn [ext_loop]. change (CR =b CR) with true. cbv iota. f_equal.
  unfold set_cstate, set_hex, set_left. simpl. by rewrite Hh.
Qed.

Lemma run_chunk d c r out :
  fresh d -> c ≠ [] -> (Z.of_nat (length c) < 2 ^ 64)%Z ->
  run d (encode_chunk c ++ r) out = run d r (out ++ c).
Proof.
  intros Hf Hc Hlen. unfold encode_chunk.
  assert (Hb : forall h, (h ++ [CR; LF] ++ c ++ [CR; LF]) ++ r = h ++ CR :: LF :: c ++ CR :: LF :: r).
  { intros h. by repeat (rewrite <- app_assoc; simpl). }
  rewrite Hb. clear Hb.
  rewrite run_size by (done || lia). destruct Hf as (Hs & Hl & Hh & Ht).
  rewrite run_eq. unfold switch. simpl cstate. change (LF =b LF) with true. cbn [negb bytes_left_in_chunk set_cstate set_left].
  replace (Z.of_nat (length c) =? 0)%Z with false
    by (symmetry; apply Z.eqb_neq; destruct c; [done|simpl; lia]).
  rewrite run_eq. unfold switch. cbn [cstate set_cstate bytes_left_in_chunk set_left].
  replace (Z.of_nat (length (c ++ CR :: LF :: r)) <? Z.of_nat (length c))%Z with false
    by (symmetry; apply Z.ltb_ge; rewrite length_app; lia).
  rewrite Nat2Z.id, drop_app_length, take_app_length.
  rewrite run_eq. unfold switch. cbn [cstate set_cstate]. change (CR =b CR) with true. cbn [negb].
  rewrite run_eq. unfold switch. cbn [cstate set_cstate]. change (LF =b LF) with true. cbn [negb].
  f_equal. destruct d. simpl in *. unfold set_cstate, set_left. simpl. by subst.
Qed.

Lemma run_body d cs r out :
  fresh d -> Forall (fun c => c ≠ [] /\ (Z.of_nat (length c) < 2 ^ 64)%Z) cs ->
  run d (encode_body cs ++ r) out =
    Some (Complete, set_cstate d CHUNKED_IN_TRAILERS_LINE_HEAD, r, out ++ mjoin cs).
Proof.
  intros Hf Hcs. revert out. unfold encode_body.
  induction Hcs as [|c cs [Hc Hl] _ IH]; intros out.
  - change ((mjoin (encode_chunk <$> []) ++ bs "0" ++ [CR; LF; CR; LF]) ++ r)
      with (print_hex 0 ++ CR :: LF :: CR :: LF :: r).
    rewrite run_size by (done || lia). destruct Hf as (Hs & Hl & Hh & Ht).
    rewrite run_eq. unfold switch. cbn [cstate set_cstate]. change (LF =b LF) with true.
    cbn [negb bytes_left_in_chunk set_cstate set_left consume_trailer]. rewrite Ht.
    change (0 =? 0)%Z with true. cbv iota. rewrite run_eq. unfold switch. cbn [cstate set_cstate trailer_head_loop].
    change (CR =b CR) with true. change (LF =b CR) with false. change (LF =b LF) with true. cbv iota.
    rewrite app_nil_r. destruct d. simpl in *. unfold set_cstate, set_left. simpl. by subst.
  - change (mjoin (encode_chunk <$> c :: cs)) with (encode_chunk c ++ mjoin (encode_chunk <$> cs)).
    rewrite <- !app_assoc. rewrite run_chunk by done. rewrite !app_assoc, <- (app_assoc _ (bs "0")).
    rewrite IH. simpl mjoin. by rewrite app_assoc.
Qed.

(** ** The properties *)

(** C11: chunked bodies round-trip.  For every list of non-empty chunks, a decoder
    ready for a new body and given the encoded body followed by any bytes
    reports completion with exactly those bytes left over, and the decoded data
    are the chunks joined. *)
Theorem chunked_roundtrip d cs rest :
  fresh d -> Forall (fun c => c ≠ [] /\ (Z.of_nat (length c) < 2 ^ 64)%Z) cs ->
  let r := phr_decode_chunked d (encode_body cs ++ rest) in
  cr_ret r = Z.of_nat (length rest) /\ cr_out r = mjoin cs /\ cr_left r = rest.
Proof.
  intros Hf Hcs. unfold phr_decode_chunked.
  set (d0 := set_totals d _ _). change (chunk_loop (2 * length (encode_body cs ++ rest) + 2) d0
    (encode_body cs ++ rest) []) with (run d0 (encode_body cs ++ rest) []).
  rewrite run_body; [done|done|exact Hcs].
Qed.

Definition ready : phr_chunked_decoder := mk_chunked 0 true 0 CHUNKED_IN_CHUNK_SIZE 0 0.

Lemma chunked_roundtrip_witness :
  cr_out (phr_decode_chunked ready (encode_body [bs "Wiki"; bs "pedia in chunks."] ++ bs "GET /")) =
    bs "Wikipedia in chunks."
  /\ cr_ret (phr_decode_chunked ready (encode_body [bs "Wiki"; bs "pedia in chunks."] ++ bs "GET /")) = 5%Z.
Proof.
  destruct (chunked_roundtrip ready [bs "Wiki"; bs "pedia in chunks."] (bs "GET /")) as (H1 & H2 & _).
  - repeat split.
  - repeat constructor; discriminate.
  - split; [exact H2|exact H1].
Defined.

(** A call in terms of the loop, the accounting apart. *)
Definition finish (d : phr_chunked_decoder) (n : nat) (k : exit_kind) (d' : phr_chunked_decoder)
    (s out : bytes) : chunk_result :=
  let x := u64 (total_read d + Z.of_nat n) in
  match k with
  | Complete => mk_chunk_result (Z.of_nat (length s)) (set_totals d' x (total_overhead d)) out s
  | Malformed => mk_chunk_result (-1) (set_totals d' x (total_overhead d)) out s
  | Incomplete =>
      let ov := u64 (total_overhead d + (Z.of_nat n - Z.of_nat (length out))) in
      mk_chunk_result (if ((100 * 1024 <=? ov) && (u64 (x - ov) <? x / 4))%Z then (-1) else (-2))%Z
        (set_totals d' x ov) out s
  end.

Lemma decode_run d buf k d' s out :
  run d buf [] = Some (k, d', s, out) -> phr_decode_chunked d buf = finish d (length buf) k d' s out.
Proof.
  intros Hr. unfold phr_decode_chunked.
  set (x := u64 (total_read d + Z.of_nat (length buf))).
  pose proof (run_shift x (total_overhead d) [] d buf []) as Hs. rewrite Hr in Hs. simpl app in Hs.
  unfold run in Hs. rewrite Hs. unfold finish. fold x. destruct k; [done| |done].
  cbn [total_read total_overhead set_totals].
  destruct (_ && _)%Z; reflexivity.
Qed.

Lemma u64_add_l a b : u64 (u64 a + b) = u64 (a + b).
Proof. unfold u64. by rewrite Z.add_mod_idemp_l by lia. Qed.

(** Chunked decoding does not depend on how the body is cut.  When a first
    call asks for more input, decoding the next piece with the decoder it left
    gives the return value and the leftover of decoding both pieces at once, and
    the two outputs together are the output of the single call; if more input is
    still needed, the decoders are equal, so the statement extends to any number
    of pieces.  Every call ends. *)
Theorem chunked_incremental d a b :
  let r1 := phr_decode_chunked d a in
  cr_ret r1 = (-2)%Z ->
  let r2 := phr_decode_chunked (cr_decoder r1) b in
  let r := phr_decode_chunked d (a ++ b) in
  cr_ret r = cr_ret r2 /\ cr_out r = cr_out r1 ++ cr_out r2 /\ cr_left r = cr_left r2
  /\ (cr_ret r2 = (-2)%Z -> cr_decoder r = cr_decoder r2).
Proof.
  intros r1 Hr1 r2 r.
  destruct (run_total d a []) as [[[[k d1] s1] out1] E1].
  assert (Er1 : r1 = finish d (length a) k d1 s1 out1) by by apply decode_run.
  rewrite Er1 in Hr1. destruct k; cbn [cr_ret finish] in Hr1; [lia| |lia].
  destruct (run_total d1 b []) as [[[[k2 d2] s2] out2] E2].
  assert (E : run d (a ++ b) [] = Some (k2, d2, s2, out1 ++ out2)).
  { rewrite run_more, E1. pose proof (run_shift (total_read d1) (total_overhead d1) out1 d1 b []) as Hs.
    destruct (run_keeps_totals _ _ _ _ _ _ _ E2) as [Ht Ho].
    rewrite E2, app_nil_r in Hs. rewrite <- Ht, <- Ho in Hs at 2.
    replace (set_totals d1 (total_read d1) (total_overhead d1)) with d1 in Hs by by destruct d1.
    rewrite Hs. by destruct d2. }
  set (x1 := u64 (total_read d + Z.of_nat (length a))) in *.
  set (ov1 := u64 (total_overhead d + (Z.of_nat (length a) - Z.of_nat (length out1)))) in *.
  assert (Ed1 : cr_decoder r1 = set_totals d1 x1 ov1) by by rewrite Er1.
  assert (E2' : run (set_totals d1 x1 ov1) b [] = Some (k2, set_totals d2 x1 ov1, s2, out2)).
  { pose proof (run_shift x1 ov1 [] d1 b []) as Hs. rewrite E2 in Hs. exact Hs. }
  assert (Er2 : r2 = finish (set_totals d1 x1 ov1) (length b) k2 (set_totals d2 x1 ov1) s2 out2).
  { unfold r2. rewrite Ed1. by apply decode_run. }
  assert (Er : r = finish d (length (a ++ b)) k2 d2 s2 (out1 ++ out2)) by by apply decode_run.
  assert (Hx : u64 (x1 + Z.of_nat (length b)) = u64 (total_read d + Z.of_nat (length (a ++ b)))).
  { unfold x1. rewrite u64_add_l, length_app. f_equal. lia. }
  assert (Hov : u64 (ov1 + (Z.of_nat (length b) - Z.of_nat (length out2)))
                = u64 (total_overhead d + (Z.of_nat (length (a ++ b)) - Z.of_nat (length (out1 ++ out2))))).
  { unfold ov1. rewrite u64_add_l, !length_app. f_equal. lia. }
  assert (Eo1 : cr_out r1 = out1) by by rewrite Er1.
  rewrite Er, Er2, Eo1. unfold finish. cbn [total_read total_overhead set_totals]. rewrite Hx, Hov.
  destruct k2; cbn [cr_ret cr_out cr_left cr_decoder]; split_and!; try done; lia.
Qed.

Lemma chunked_incremental_witness :
  let a := bs "4" ++ [CR; LF] ++ bs "Wi" in
  let b := bs "ki" ++ [CR; LF] ++ bs "0" ++ [CR; LF; CR; LF] in
  cr_out (phr_decode_chunked ready (a ++ b)) = bs "Wi" ++ bs "ki".
Proof.
  cbv zeta.
  destruct (chunked_incremental ready (bs "4" ++ [CR; LF] ++ bs "Wi")
              (bs "ki" ++ [CR; LF] ++ bs "0" ++ [CR; LF; CR; LF])) as (_ & Ho & _).
  - vm_compute. reflexivity.
  - rewrite Ho. vm_compute. reflexivity.
Defined.
