(* ===== verification/Response.v ===== *)
(** The response builder ([src/src/http/ioh_response.h], [ioh_response.c]):
    header list with replace and append, [Vary] maintenance, body buffer and the
    convenience calls.

    Header strings are the copies the builder owns.  The header array and the
    body buffer are fixed-capacity objects: a store past the capacity or
    through a null pointer has no defined result, which the operations report as [None].  Allocations take
    their outcome from the [heap] argument. *)
From S2P Require Import Prelude CString Radix Request.

(** ** Data *)

Definition IOH_RESPONSE_INITIAL_HEADERS : Z := 16.
Definition IOH_RESPONSE_INITIAL_BODY : Z := 1024.

Record ioh_response_t := mk_response {
  r_status : Z;
  r_array : bool;                      (* [headers] is not a null pointer *)
  r_headers : list ioh_header_t;       (* the first [header_count] entries *)
  r_header_capacity : Z;
  r_body : option bytes;               (* the bytes written to the buffer so far *)
  r_body_len : Z;
  r_body_capacity : Z;
  r_headers_sent : bool;
  r_chunked : bool;
}.

Definition with_headers (r : ioh_response_t) (hs : list ioh_header_t) : ioh_response_t :=
  mk_response (r_status r) (r_array r) hs (r_header_capacity r) (r_body r) (r_body_len r) (r_body_capacity r)
    (r_headers_sent r) (r_chunked r).

(** The array after a successful [realloc] to [cap] entries. *)
Definition with_capacity (r : ioh_response_t) (cap : Z) : ioh_response_t :=
  mk_response (r_status r) true (r_headers r) cap (r_body r) (r_body_len r) (r_body_capacity r)
    (r_headers_sent r) (r_chunked r).

Definition with_body (r : ioh_response_t) (b : option bytes) (len cap : Z) : ioh_response_t :=
  mk_response (r_status r) (r_array r) (r_headers r) (r_header_capacity r) b len cap
    (r_headers_sent r) (r_chunked r).

Definition with_status (r : ioh_response_t) (st : Z) : ioh_response_t :=
  mk_response st (r_array r) (r_headers r) (r_header_capacity r) (r_body r) (r_body_len r) (r_body_capacity r)
    (r_headers_sent r) (r_chunked r).

(** What a builder call does: its return code, the response and the allocator
    after it; [None] for a store out of bounds. *)
Definition step : Type := option (res unit * ioh_response_t * heap).

(** ** Life cycle *)

Definition ioh_response_init (h : heap) : res unit * ioh_response_t * heap :=
  let '(ok, h) := xalloc h in
  if negb ok then (Err ENOMEM, mk_response 200 false [] 0 None 0 0 false false, h) else
  let '(ok, h) := xalloc h in
  if negb ok
  then (Err ENOMEM, mk_response 200 false [] IOH_RESPONSE_INITIAL_HEADERS None 0 0 false false, h)
  else (Ok (), mk_response 200 true [] IOH_RESPONSE_INITIAL_HEADERS (Some []) 0
                 IOH_RESPONSE_INITIAL_BODY false false, h).

Definition ioh_response_reset (r : ioh_response_t) : ioh_response_t :=
  mk_response 200 (r_array r) [] (r_header_capacity r) (r_body r) 0 (r_body_capacity r) false false.

Definition ioh_response_destroy (r : ioh_response_t) : ioh_response_t :=
  mk_response 0 false [] 0 None 0 0 false false.

(** ** Headers *)

(** Doubling of the array when it is full. *)
Definition grow_headers (h : heap) (r : ioh_response_t) : res ioh_response_t * heap :=
  if (r_header_capacity r <=? Z.of_nat (length (r_headers r)))%Z then
    let '(ok, h) := xalloc h in
    if negb ok then (Err ENOMEM, h)
    else (Ok (with_capacity r (u32 (r_header_capacity r * 2))), h)
  else (Ok r, h).

(** The part [ioh_response_set_header] and [ioh_response_add_header] share: grow,
    copy the two strings, store the entry. *)
Definition append_header (h : heap) (r : ioh_response_t) (name value : bytes) : step :=
  let name_len := strnlen name IOH_MAX_HEADER_SIZE in
  let value_len := strnlen value IOH_MAX_HEADER_SIZE in
  let '(grown, h) := grow_headers h r in
  match grown with
  | Err e => Some (Err e, r, h)
  | Ok r =>
      let '(ok, h) := xalloc h in
      if negb ok then Some (Err ENOMEM, r, h) else
      let '(ok, h) := xalloc h in
      if negb ok then Some (Err ENOMEM, r, h) else
      if negb (r_array r) || (r_header_capacity r <=? Z.of_nat (length (r_headers r)))%Z then None else
      let hdr := mk_header (strndup name name_len) name_len (strndup value value_len) value_len in
      Some (Ok (), with_headers r (r_headers r ++ [hdr]), h)
  end.

Definition set_value (v : bytes) (len : nat) (h : ioh_header_t) : ioh_header_t :=
  mk_header (h_name h) (h_name_len h) v len.

Definition ioh_response_set_header (h : heap) (r : ioh_response_t) (name value : option bytes) : step :=
  match name, value with
  | Some name, Some value =>
      let value_len := strnlen value IOH_MAX_HEADER_SIZE in
      match list_find (fun e => header_is name e = true) (r_headers r) with
      | Some (i, e) =>
          let '(ok, h) := xalloc h in
          if negb ok then Some (Err ENOMEM, r, h)
          else Some (Ok (), with_headers r
                 (<[i := set_value (strndup value value_len) value_len e]> (r_headers r)), h)
      | None => append_header h r name value
      end
  | _, _ => Some (Err EINVAL, r, h)
  end.

Definition ioh_response_add_header (h : heap) (r : ioh_response_t) (name value : option bytes) : step :=
  match name, value with
  | Some name, Some value => append_header h r name value
  | _, _ => Some (Err EINVAL, r, h)
  end.

(** ** The [Vary] header *)

Definition vary_sep (b : byte) : bool := (b =b SP) || (b =b ","%byte) || (b =b HT).

(** The loop of [vary_token_exists] over what is left of the value.  Every turn
    consumes a token: fuel above the length is enough. *)
Fixpoint vary_scan (fuel : nat) (v token : bytes) (token_len : nat) : bool :=
  match fuel with
  | O => false
  | S fuel =>
      match snd (span vary_sep v) with
      | [] => false
      | start =>
          let '(t, rest) := span (fun b => negb (vary_sep b)) start in
          if (length t =? token_len) && strncasecmp_eq start token token_len then true
          else vary_scan fuel rest token token_len
      end
  end.

Definition vary_token_exists (value : bytes) (value_len : nat) (token : bytes) (token_len : nat) : bool :=
  vary_scan (S value_len) (take value_len value) token token_len.

Definition vary_header (e : ioh_header_t) : bool :=
  (h_name_len e =? 4) && strncasecmp_eq (h_name e) (bs "Vary") 4.

Definition ioh_response_add_vary (h : heap) (r : ioh_response_t) (token : option bytes) : step :=
  match token with
  | None => Some (Err EINVAL, r, h)
  | Some token =>
      let token_len := strnlen token IOH_MAX_HEADER_SIZE in
      if token_len =? 0 then Some (Err EINVAL, r, h) else
      match list_find (fun e => vary_header e = true) (r_headers r) with
      | Some (i, e) =>
          if vary_token_exists (h_value e) (h_value_len e) token token_len
          then Some (Ok (), r, h)
          else
            let new_len := h_value_len e + 2 + token_len in
            let '(ok, h) := xalloc h in
            if negb ok then Some (Err ENOMEM, r, h) else
            let new_value := take (h_value_len e) (h_value e) ++ bs ", " ++ take token_len token in
            Some (Ok (), with_headers r (<[i := set_value new_value new_len e]> (r_headers r)), h)
      | None => ioh_response_set_header h r (Some (bs "Vary")) (Some token)
      end
  end.

(** ** Body *)

(** [memcpy] to the start of a buffer. *)
Definition overwrite (src : bytes) (len : nat) (dst : bytes) : bytes := take len src ++ drop len dst.

Definition grow_body (h : heap) (r : ioh_response_t) (len : Z) : res ioh_response_t * heap :=
  if (r_body_capacity r <? len)%Z then
    let new_cap := if (len <? u64 (r_body_capacity r * 2))%Z
                   then u64 (r_body_capacity r * 2) else len in
    let '(ok, h) := xalloc h in
    if negb ok then (Err ENOMEM, h)
    else (Ok (with_body r (Some (default [] (r_body r))) (r_body_len r) new_cap), h)
  else (Ok r, h).

Definition ioh_response_set_body (h : heap) (r : ioh_response_t) (body : option bytes) (len : Z) : step :=
  if (len =? 0)%Z then Some (Ok (), with_body r (r_body r) 0 (r_body_capacity r), h) else
  match body with
  | None => Some (Err EINVAL, r, h)
  | Some src =>
      let '(grown, h) := grow_body h r len in
      match grown with
      | Err e => Some (Err e, r, h)
      | Ok r =>
          match r_body r with
          | Some dst =>
              if (r_body_capacity r <? len)%Z then None else
              Some (Ok (), with_body r (Some (overwrite src (Z.to_nat len) dst)) len (r_body_capacity r), h)
          | None => None
          end
      end
  end.

(** ** Convenience builders *)

Definition ioh_respond (h : heap) (r : ioh_response_t) (status : Z) (content_type : option bytes)
    (body : option bytes) (body_len : Z) : step :=
  let r := with_status r status in
  let with_ct := match content_type with
                 | None => Some (Ok (), r, h)
                 | Some _ => ioh_response_set_header h r (Some (bs "Content-Type")) content_type
                 end in
  match with_ct with
  | Some (Ok _, r, h) =>
      match body with
      | Some _ => if (0 <? body_len)%Z then ioh_response_set_body h r body body_len
                  else Some (Ok (), r, h)
      | None => Some (Ok (), r, h)
      end
  | stop => stop
  end.

Definition JSON_LIMIT : nat := Z.to_nat (1024 * 1024).

Definition ioh_respond_json (h : heap) (r : ioh_response_t) (status : Z) (json : option bytes) : step :=
  match json with
  | None => Some (Err EINVAL, r, h)
  | Some j => ioh_respond h r status (Some (bs "application/json")) json (Z.of_nat (strnlen j JSON_LIMIT))
  end.

(** The reason phrases, in the order of the source's [switch]. *)
Definition status_texts : list (Z * bytes) :=
  [(100, bs "Continue"); (101, bs "Switching Protocols"); (200, bs "OK"); (201, bs "Created");
   (202, bs "Accepted"); (204, bs "No Content"); (206, bs "Partial Content");
   (301, bs "Moved Permanently"); (302, bs "Found"); (304, bs "Not Modified");
   (307, bs "Temporary Redirect"); (308, bs "Permanent Redirect"); (400, bs "Bad Request");
   (401, bs "Unauthorized"); (403, bs "Forbidden"); (404, bs "Not Found");
   (405, bs "Method Not Allowed"); (406, bs "Not Acceptable"); (408, bs "Request Timeout");
   (409, bs "Conflict"); (411, bs "Length Required"); (413, bs "Content Too Large");
   (414, bs "URI Too Long"); (415, bs "Unsupported Media Type"); (416, bs "Range Not Satisfiable");
   (422, bs "Unprocessable Content"); (429, bs "Too Many Requests");
   (500, bs "Internal Server Error"); (501, bs "Not Implemented"); (502, bs "Bad Gateway");
   (503, bs "Service Unavailable"); (504, bs "Gateway Timeout")]%Z.

Definition ioh_status_text (status : Z) : bytes :=
  match list_find (fun e => fst e = status) status_texts with
  | Some (_, (_, t)) => t
  | None => bs "Unknown"
  end.
