(* ===== verification/ResponseThms.v ===== *)
(** Theorems on the response builder: the header list as a multimap, the [Vary]
    token list, the body, and the bounds of every store. *)
From S2P Require Import Prelude CString Radix Request RequestThms Response.

(** ** Specification vocabulary *)

Definition header_value (h : ioh_header_t) : bytes := take (h_value_len h) (h_value h).

(** The values of the headers named [k], up to ASCII case, in order. *)
Definition values_in (k : bytes) (hs : list ioh_header_t) : list bytes :=
  header_value <$> filter (fun h => lower (header_name h) = lower k) hs.
Definition values (k : bytes) (r : ioh_response_t) : list bytes := values_in k (r_headers r).

Definition body_text (r : ioh_response_t) : bytes :=
  take (Z.to_nat (r_body_len r)) (default [] (r_body r)).

(** A header whose two strings are complete and hold no NUL. *)
Definition owned (h : ioh_header_t) : Prop :=
  h_name_len h = length (h_name h) /\ h_value_len h = length (h_value h)
  /\ NUL ∉ h_name h /\ NUL ∉ h_value h.

(** The invariant of a response that was initialised. *)
Record response_ok (r : ioh_response_t) : Prop := {
  ok_array : r_array r = true;
  ok_headers : Forall owned (r_headers r);
  ok_capacity : (0 < r_header_capacity r < 2 ^ 32)%Z;
  ok_count : (Z.of_nat (length (r_headers r)) <= r_header_capacity r)%Z;
  ok_body : exists b, r_body r = Some b /\ (0 <= r_body_len r <= Z.of_nat (length b))%Z
              /\ (Z.of_nat (length b) <= r_body_capacity r < 2 ^ 64)%Z;
}.

(** The tokens of a comma- or blank-separated list. *)
Fixpoint tokens_aux (cur : bytes) (v : bytes) : list bytes :=
  match v with
  | [] => if decide (cur = []) then [] else [cur]
  | b :: v => if vary_sep b then (if decide (cur = []) then [] else [cur]) ++ tokens_aux [] v
              else tokens_aux (cur ++ [b]) v
  end.
Definition tokens (v : bytes) : list bytes := tokens_aux [] v.

(** The tokens of the first [Vary] header. *)
Definition vary_tokens (r : ioh_response_t) : list bytes :=
  match values (bs "Vary") r with [] => [] | v :: _ => tokens v end.

(** ** Headers *)

Lemma owned_ok h : owned h -> header_ok h /\ header_name h = h_name h /\ header_value h = h_value h.
Proof.
  intros (Hn & Hv & Hnn & Hvn). unfold header_ok, header_name, header_value.
  rewrite Hn, Hv, !firstn_all. done.
Qed.

Lemma c_str_nul p : NUL ∉ c_str p.
Proof.
  intros Hin. pose proof (c_str_no_nul p) as Hf. rewrite Forall_forall in Hf.
  apply Hf in Hin. done.
Qed.

Lemma strndup_owned p n : NUL ∉ strndup p (strnlen p n) /\ length (strndup p (strnlen p n)) = strnlen p n.
Proof.
  unfold strndup, strnlen, strlen. split.
  - intros Hin. apply (c_str_nul p).
    apply list_elem_of_lookup in Hin as [i Hi]. apply lookup_take_Some in Hi as [Hi _].
    by eapply list_elem_of_lookup_2.
  - rewrite length_take. lia.
Qed.

(** A string within the limit is copied whole. *)
Lemma strndup_whole p n : NUL ∉ p -> length p ≤ n -> strndup p (strnlen p n) = p.
Proof.
  intros Hn Hl. rewrite strnlen_id by done. unfold strndup.
  rewrite c_str_id by by apply no_nul_forall. apply firstn_all.
Qed.

Lemma values_app k a b : values_in k (a ++ b) = values_in k a ++ values_in k b.
Proof. unfold values_in. by rewrite filter_app, fmap_app. Qed.

Lemma values_one k h :
  values_in k [h] = if decide (lower (header_name h) = lower k) then [header_value h] else [].
Proof. unfold values_in. rewrite filter_cons, filter_nil. by case_decide. Qed.

Lemma values_absent k hs :
  Forall (fun h => lower (header_name h) ≠ lower k) hs -> values_in k hs = [].
Proof.
  induction 1 as [|h hs Hh _ IH]; [done|]. change (h :: hs) with ([h] ++ hs).
  rewrite values_app, values_one, IH. by rewrite decide_False.
Qed.

(** The list at the first entry that passes a test. *)
Lemma list_find_split (f : ioh_header_t -> bool) hs i e :
  list_find (fun x => f x = true) hs = Some (i, e) ->
  exists a b, hs = a ++ e :: b /\ i = length a /\ f e = true /\ Forall (fun x => f x = false) a.
Proof.
  intros Hf. apply list_find_Some in Hf as (Hi & He & Hb).
  exists (take i hs), (drop (S i) hs). split; [by rewrite take_drop_middle|].
  split; [rewrite length_take; apply lookup_lt_Some in Hi; lia|]. split; [done|].
  apply Forall_forall. intros x [j Hj]%list_elem_of_lookup.
  apply lookup_take_Some in Hj as [Hj Hlt]. destruct (f x) eqn:E; [|done].
  by destruct (Hb j x Hj Hlt).
Qed.

(** The entry [append_header] stores. *)
Definition owned_header (name value : bytes) : ioh_header_t :=
  mk_header (strndup name (strnlen name IOH_MAX_HEADER_SIZE)) (strnlen name IOH_MAX_HEADER_SIZE)
    (strndup value (strnlen value IOH_MAX_HEADER_SIZE)) (strnlen value IOH_MAX_HEADER_SIZE).

Lemma owned_header_owned name value : owned (owned_header name value).
Proof.
  pose proof (strndup_owned name IOH_MAX_HEADER_SIZE) as [? E1].
  pose proof (strndup_owned value IOH_MAX_HEADER_SIZE) as [? E2].
  by split_and!.
Qed.

(** The parts of a response the header operations leave alone. *)
Definition same_rest (r r' : ioh_response_t) : Prop :=
  r_status r' = r_status r /\ r_body r' = r_body r /\ r_body_len r' = r_body_len r
  /\ r_body_capacity r' = r_body_capacity r /\ r_headers_sent r' = r_headers_sent r
  /\ r_chunked r' = r_chunked r.

(** The outcome of a header operation: a defined store, the invariant kept, and
    the header list changed by [f] or, on [ENOMEM], not at all. *)
Definition header_step (r : ioh_response_t) (hs : list ioh_header_t) (s : step) : Prop :=
  exists rc r' h', s = Some (rc, r', h') /\ response_ok r' /\ same_rest r r'
    /\ match rc with
       | Ok _ => r_headers r' = hs
       | Err e => e = ENOMEM /\ r_headers r' = r_headers r
       end.

Lemma same_rest_refl r : same_rest r r.
Proof. by repeat split. Qed.

#[export] Hint Resolve same_rest_refl : iohttp.

Lemma body_text_same r r' : same_rest r r' -> body_text r' = body_text r.
Proof. intros (_ & Hb & Hl & _). unfold body_text. by rewrite Hb, Hl. Qed.

Lemma header_step_oom r hs r' h' :
  response_ok r' -> same_rest r r' -> r_headers r' = r_headers r ->
  header_step r hs (Some (Err ENOMEM, r', h')).
Proof. intros. eexists _, _, _. by split_and!. Qed.

Lemma header_step_ok r hs r' h' :
  response_ok r' -> same_rest r r' -> r_headers r' = hs ->
  header_step r hs (Some (Ok (), r', h')).
Proof. intros. eexists _, _, _. by split_and!. Qed.

Lemma with_headers_ok r hs :
  response_ok r -> Forall owned hs -> (Z.of_nat (length hs) <= r_header_capacity r)%Z ->
  response_ok (with_headers r hs).
Proof. intros [] ??. by split. Qed.

Lemma grow_headers_ok h r :
  response_ok r -> (Z.of_nat (length (r_headers r)) < 2 ^ 31)%Z ->
  exists rc h', grow_headers h r = (rc, h')
    /\ match rc with
       | Ok r' => response_ok r' /\ same_rest r r' /\ r_headers r' = r_headers r
                  /\ (Z.of_nat (length (r_headers r)) < r_header_capacity r')%Z
       | Err e => e = ENOMEM
       end.
Proof.
  intros Hr Hlt. pose proof Hr as [Ha Hh Hc Hn Hb]. unfold grow_headers.
  destruct (_ <=? _)%Z eqn:E; bprop.
  - destruct (xalloc h) as [[] h'] eqn:Ex; simpl; eexists _, _; (split; [reflexivity|]); [|done].
    rewrite u32_small by lia. split; [|split; [by repeat split|cbn; split; [done|lia]]].
    split; cbn; try done; lia.
  - eexists _, _. split; [reflexivity|]. simpl. split; [done|]. split; [by repeat split|]. split; [done|lia].
Qed.

Lemma append_header_ok h r name value :
  response_ok r -> (Z.of_nat (length (r_headers r)) < 2 ^ 31)%Z ->
  header_step r (r_headers r ++ [owned_header name value]) (append_header h r name value).
Proof.
  intros Hr Hlt. unfold append_header. pose proof owned_header_owned name value as Ho.
  destruct (grow_headers_ok h r Hr Hlt) as (rc & h1 & -> & Hg).
  destruct rc as [r1|e]; [|subst e; apply header_step_oom; auto with iohttp].
  destruct Hg as (Hr1 & Hs1 & Hh1 & Hc1).
  destruct (xalloc h1) as [[] h2]; cbn [negb]; [|by apply header_step_oom].
  destruct (xalloc h2) as [[] h3]; cbn [negb]; [|by apply header_step_oom].
  rewrite (ok_array _ Hr1), Hh1. cbn [negb orb].
  destruct (_ <=? _)%Z eqn:E; bprop; [lia|].
  pose proof (ok_headers _ Hr) as Hf. apply header_step_ok; [|done|done].
  apply with_headers_ok; [done| |llia].
  apply Forall_app. split; [done|by constructor].
Qed.

(** ** [ioh_response_set_header] *)

(** The header list after a successful call. *)
Definition set_spec (name value : bytes) (hs : list ioh_header_t) : list ioh_header_t :=
  match list_find (fun e => header_is name e = true) hs with
  | Some (i, e) =>
      <[i := set_value (strndup value (strnlen value IOH_MAX_HEADER_SIZE))
               (strnlen value IOH_MAX_HEADER_SIZE) e]> hs
  | None => hs ++ [owned_header name value]
  end.

Lemma set_header_step h r name value :
  response_ok r -> (Z.of_nat (length (r_headers r)) < 2 ^ 31)%Z ->
  header_step r (set_spec name value (r_headers r)) (ioh_response_set_header h r (Some name) (Some value)).
Proof.
  intros Hr Hlt. unfold ioh_response_set_header, set_spec.
  destruct (list_find _ _) as [[i e]|] eqn:Ef; [|by apply append_header_ok].
  destruct (xalloc h) as [[] h1]; cbn [negb]; [|apply header_step_oom; auto with iohttp].
  apply header_step_ok; [|by repeat split|done].
  pose proof Hr as [Ha Hh Hc Hn Hb]. apply with_headers_ok; [done| |by rewrite length_insert].
  pose proof (strndup_owned value IOH_MAX_HEADER_SIZE) as [Hv1 Hv2].
  apply list_find_Some in Ef as (Hi & _). rewrite Forall_forall in Hh.
  destruct (Hh e) as (E1 & E2 & E3 & E4); [by eapply list_elem_of_lookup_2|].
  apply Forall_insert; [by apply Forall_forall|]. by split_and!.
Qed.

(** While memory lasts, setting a header succeeds. *)
Lemma set_header_mem r n v rc r' h' :
  ioh_response_set_header [] r (Some n) (Some v) = Some (rc, r', h') -> rc = Ok () /\ h' = [].
Proof.
  unfold ioh_response_set_header, append_header, grow_headers. destruct (list_find _ _) as [[i e]|]; simpl; [by intros [= <- _ <-]|].
  intros H. repeat case_match; simplify_eq/=; done.
Qed.

(** Replacing one entry of the list by another with the same name. *)
Lemma values_replace k a b e e' :
  header_name e' = header_name e ->
  values_in k (a ++ e' :: b) =
    if decide (lower (header_name e) = lower k)
    then values_in k a ++ header_value e' :: values_in k b else values_in k (a ++ e :: b).
Proof.
  intros Hn. change (e' :: b) with ([e'] ++ b). change (e :: b) with ([e] ++ b).
  rewrite !values_app, !values_one, Hn. by case_decide.
Qed.

Lemma set_spec_values name value hs k :
  Forall owned hs -> NUL ∉ name -> length name ≤ IOH_MAX_HEADER_SIZE ->
  NUL ∉ value -> length value ≤ IOH_MAX_HEADER_SIZE ->
  values_in k (set_spec name value hs) =
    if decide (lower k = lower name) then value :: tail (values_in k hs) else values_in k hs.
Proof.
  intros Ho Hn Hnl Hv Hvl. unfold set_spec. destruct (list_find _ _) as [[i e]|] eqn:Ef.
  - apply list_find_split in Ef as (a & b & -> & -> & He & Ha).
    apply Forall_app in Ho as [Hoa Hob]. apply Forall_cons in Hob as [Hoe Hob].
    apply header_is_iff in He; [|by apply owned_ok|done|done].
    rewrite insert_app_r_alt, Nat.sub_diag by lia. cbn [list_insert insert].
    assert (Hna : Forall (fun x => lower (header_name x) ≠ lower name) a).
    { apply Forall_forall. intros x Hx. rewrite Forall_forall in Ha, Hoa. intros Eq.
      apply header_is_iff in Eq; [|by apply owned_ok, Hoa|done|done]. rewrite Ha in Eq; done. }
    rewrite (values_replace _ _ _ e) by done. unfold header_value at 1. cbn [h_value h_value_len set_value].
    rewrite strndup_whole, strnlen_id, firstn_all by done. rewrite He.
    destruct (decide (lower name = lower k)) as [E|E]; [|by rewrite decide_False].
    rewrite decide_True by done. rewrite (values_replace k a b e e) by done.
    rewrite He, decide_True by done. rewrite E in Hna. by rewrite values_absent.
  - apply list_find_None in Ef.
    rewrite values_app, values_one. unfold header_name, header_value, owned_header. cbn.
    rewrite !strndup_whole, !strnlen_id, !firstn_all by done.
    destruct (decide (lower k = lower name)) as [E|E].
    + rewrite decide_True by done. rewrite values_absent; [done|].
      eapply Forall_impl; [apply Forall_and; split; [exact Ef|exact Ho]|].
      intros x [Hx Hxo] Eq. apply Hx, header_is_iff; [by apply owned_ok|done|done|congruence].
    + rewrite decide_False by done. apply app_nil_r.
Qed.

(** Setting a header.  On an initialised response with fewer than 2^31
    headers and for every allocation outcome, the call stores nothing out of
    bounds, keeps the invariant, and either returns 0, and then the first value
    under the name (up to ASCII case) is the new one, later values under it and
    all values under other names are as before, or returns [ENOMEM] with the
    header list unchanged. *)
Theorem response_set_header_spec h r name value :
  response_ok r -> (Z.of_nat (length (r_headers r)) < 2 ^ 31)%Z ->
  NUL ∉ name -> length name ≤ IOH_MAX_HEADER_SIZE ->
  NUL ∉ value -> length value ≤ IOH_MAX_HEADER_SIZE ->
  exists rc r' h', ioh_response_set_header h r (Some name) (Some value) = Some (rc, r', h')
    /\ response_ok r' /\ same_rest r r'
    /\ match rc with
       | Ok _ => forall k, values k r' =
                   if decide (lower k = lower name) then value :: tail (values k r) else values k r
       | Err e => e = ENOMEM /\ r_headers r' = r_headers r
       end.
Proof.
  intros Hr Hlt Hn Hnl Hv Hvl. destruct (set_header_step h r name value Hr Hlt) as (rc & r' & h' & E & Hr' & Hs & Hrc).
  exists rc, r', h'. do 3 (split; [done|]). destruct rc; [|done]. intros k. unfold values. rewrite Hrc.
  by apply set_spec_values; [apply ok_headers|..].
Qed.

Definition demo_response : ioh_response_t :=
  mk_response 200 true [mk_header (bs "Content-Type") 12 (bs "text/html") 9] 16 (Some []) 0 1024 false false.

Lemma demo_response_ok : response_ok demo_response.
Proof.
  split; cbn [demo_response r_array r_headers r_header_capacity r_body r_body_len r_body_capacity length];
    [reflexivity| |lia|lia|].
  - constructor; [|constructor]. split_and!; try reflexivity; bcompute.
  - exists []. cbn. split; [done|lia].
Qed.

Lemma response_set_header_spec_witness :
  exists rc r' h', ioh_response_set_header [] demo_response (Some (bs "content-type")) (Some (bs "text/css"))
    = Some (rc, r', h') /\ response_ok r' /\ values (bs "Content-Type") r' = [bs "text/css"].
Proof.
  destruct (response_set_header_spec [] demo_response (bs "content-type") (bs "text/css"))
    as (rc & r' & h' & E & Hr' & _ & Hrc).
  - exact demo_response_ok.
  - reflexivity.
  - bcompute.
  - nle.
  - bcompute.
  - nle.
  - exists rc, r', h'. split; [exact E|]. split; [exact Hr'|].
    vm_compute in E. injection E as <- <- <-. vm_compute. reflexivity.
Defined.

(** ** The [Vary] header *)

Lemma tokens_aux_run cur s r :
  Forall (fun b => negb (vary_sep b) = true) s -> tokens_aux cur (s ++ r) = tokens_aux (cur ++ s) r.
Proof.
  intros Hs. revert cur. induction Hs as [|b s Hb Hs IH]; intros cur; simpl; [by rewrite app_nil_r|].
  apply negb_true_iff in Hb. by rewrite Hb, IH, <- app_assoc.
Qed.

Lemma tokens_aux_sep cur v w :
  tokens_aux cur (v ++ ","%byte :: w) = tokens_aux cur v ++ tokens w.
Proof.
  revert cur. induction v as [|b v IH]; intros cur; [done|]. simpl app. cbn [tokens_aux].
  destruct (vary_sep b); [|apply IH]. by rewrite IH, <- app_assoc.
Qed.

Lemma tokens_skip s r : Forall (fun b => vary_sep b = true) s -> tokens (s ++ r) = tokens r.
Proof.
  induction 1 as [|b s Hb _ IH]; [done|]. unfold tokens in *. cbn [app tokens_aux]. by rewrite Hb, IH.
Qed.

(** The token list read off the way the scan does. *)
Lemma tokens_span v :
  tokens v = match snd (span vary_sep v) with
             | [] => []
             | start => let '(t, rest) := span (fun b => negb (vary_sep b)) start in t :: tokens rest
             end.
Proof.
  rewrite <- (span_eq vary_sep v) at 1. rewrite tokens_skip by apply span_fst.
  destruct (snd (span vary_sep v)) as [|b s] eqn:E; [done|]. apply span_snd in E.
  pose proof (span_eq (fun b => negb (vary_sep b)) (b :: s)) as Hs.
  pose proof (span_fst (fun b => negb (vary_sep b)) (b :: s)) as Hf.
  assert (Hne : fst (span (fun b => negb (vary_sep b)) (b :: s)) ≠ []).
  { cbn. rewrite E. cbn. by destruct (span _ s). }
  pose proof (span_snd (fun b => negb (vary_sep b)) (b :: s)) as Hr.
  destruct (span _ (b :: s)) as [t rest]. cbn [fst snd] in *. rewrite <- Hs.
  unfold tokens. rewrite tokens_aux_run by done. cbn [app].
  destruct rest as [|c rest]; cbn [tokens_aux]; rewrite decide_False by done; [done|].
  specialize (Hr c rest eq_refl). apply negb_false_iff in Hr. by rewrite Hr.
Qed.

Lemma span_snd_len p l : length (snd (span p l)) ≤ length l.
Proof. rewrite <- (span_eq p l) at 2. rewrite length_app. lia. Qed.

Lemma nul_sub (a b c : bytes) : a = b ++ c -> NUL ∉ a -> NUL ∉ b /\ NUL ∉ c.
Proof. intros -> Hn. split; contradict Hn; set_solver. Qed.

Lemma vary_scan_spec fuel v token :
  length v < fuel -> NUL ∉ v -> NUL ∉ token ->
  vary_scan fuel v token (length token) = bool_decide (lower token ∈ lower <$> tokens v).
Proof.
  intros Hf Hv Ht. revert v Hf Hv. induction fuel as [|fuel IH]; intros v Hf Hv; [lia|].
  cbn [vary_scan]. rewrite tokens_span.
  pose proof (span_snd_len vary_sep v) as Hl.
  destruct (nul_sub v _ _ (eq_sym (span_eq vary_sep v)) Hv) as [_ Hn].
  destruct (snd (span vary_sep v)) as [|b s] eqn:E.
  { rewrite bool_decide_eq_false_2; [done|]. cbn. set_solver. }
  apply span_snd in E.
  assert (Hne : fst (span (fun b => negb (vary_sep b)) (b :: s)) ≠ []).
  { cbn. rewrite E. cbn. by destruct (span _ s). }
  pose proof (span_eq (fun b => negb (vary_sep b)) (b :: s)) as Hs.
  destruct (span _ (b :: s)) as [t rest]. cbn [fst snd] in *. rewrite <- Hs in Hn, Hl |- *.
  destruct (nul_sub _ _ _ eq_refl Hn) as [Hnt Hnr].
  destruct t as [|b' t]; [done|]. cbn [app]. rewrite fmap_cons.
  set (tok := b' :: t) in *. change (b' :: t ++ rest) with (tok ++ rest).
  assert (Hlr : length rest < fuel) by (rewrite length_app in Hl; simpl in Hl; lia).
  rewrite (IH rest Hlr Hnr).
  assert (Htest : (length tok =? length token) && strncasecmp_eq (tok ++ rest) token (length token)
                  = bool_decide (lower token = lower tok)).
  { apply eq_true_iff_eq. rewrite andb_true_iff, Nat.eqb_eq, bool_decide_eq_true.
    unfold strncasecmp_eq. rewrite bytes_eqb_true.
    assert (Hdup : strndup token (length token) = token).
    { rewrite <- (app_nil_r token) at 1. by apply strndup_prefix. }
    rewrite Hdup. split.
    - intros [El Eq]. by rewrite <- El, strndup_prefix in Eq.
    - intros Eq. assert (El : length tok = length token).
      { apply (f_equal length) in Eq. unfold lower in Eq. rewrite !length_fmap in Eq. done. }
      split; [done|]. by rewrite <- El, strndup_prefix. }
  rewrite Htest. case_bool_decide as H1.
  - rewrite bool_decide_eq_true_2; [done|]. rewrite H1. set_solver.
  - apply bool_decide_ext. set_solver.
Qed.

Lemma vary_header_is e : vary_header e = header_is (bs "Vary") e.
Proof. unfold vary_header, header_is. rewrite strnlen_id; [done|bcompute|]. nle. Qed.

(** The header list after a successful [ioh_response_add_vary]. *)
Definition vary_spec (token : bytes) (hs : list ioh_header_t) : list ioh_header_t :=
  match list_find (fun e => vary_header e = true) hs with
  | Some (i, e) =>
      let n := strnlen token IOH_MAX_HEADER_SIZE in
      if vary_token_exists (h_value e) (h_value_len e) token n then hs
      else <[i := set_value (take (h_value_len e) (h_value e) ++ bs ", " ++ take n token)
                    (h_value_len e + 2 + n) e]> hs
  | None => set_spec (bs "Vary") token hs
  end.

Lemma take_strnlen p n : take (strnlen p n) p = strndup p (strnlen p n).
Proof.
  unfold strnlen, strndup, strlen, c_str. rewrite (span_fst_take not_nul p) at 3.
  rewrite take_take. f_equal. lia.
Qed.

Lemma add_vary_step h r token :
  response_ok r -> (Z.of_nat (length (r_headers r)) < 2 ^ 31)%Z ->
  strnlen token IOH_MAX_HEADER_SIZE ≠ 0 ->
  header_step r (vary_spec token (r_headers r)) (ioh_response_add_vary h r (Some token)).
Proof.
  intros Hr Hlt Hne. unfold ioh_response_add_vary, vary_spec.
  rewrite (proj2 (Nat.eqb_neq _ _) Hne).
  destruct (list_find _ _) as [[i e]|] eqn:Ef; [|by apply set_header_step].
  cbv zeta. destruct (vary_token_exists _ _ _ _); [apply header_step_ok; auto with iohttp|].
  destruct (xalloc h) as [[] h1]; cbn [negb]; [|apply header_step_oom; auto with iohttp].
  apply header_step_ok; [|by repeat split|done].
  pose proof Hr as [Ha Hh Hc Hn Hb]. apply with_headers_ok; [done| |by rewrite length_insert].
  apply list_find_Some in Ef as (Hi & _). rewrite Forall_forall in Hh.
  destruct (Hh e) as (E1 & E2 & E3 & E4); [by eapply list_elem_of_lookup_2|].
  apply Forall_insert; [by apply Forall_forall|].
  pose proof (strndup_owned token IOH_MAX_HEADER_SIZE) as [Hv1 Hv2].
  rewrite take_strnlen. unfold owned, set_value. cbn [h_name h_name_len h_value h_value_len].
  rewrite E2, firstn_all, !length_app, Hv2. split_and!; [done|simpl; lia|done|].
  rewrite !elem_of_app. intros [?|[Hx|?]]; [done| |done]. revert Hx. bcompute.
Qed.

Lemma vary_spec_tokens token hs :
  Forall owned hs -> token ≠ [] -> NUL ∉ token -> Forall (fun b => vary_sep b = false) token ->
  length token ≤ IOH_MAX_HEADER_SIZE ->
  let toks l := match values_in (bs "Vary") l with [] => [] | v :: _ => tokens v end in
  toks (vary_spec token hs) = (if decide (lower token ∈ lower <$> toks hs) then toks hs else toks hs ++ [token])
  /\ forall k, lower k ≠ lower (bs "Vary") -> values_in k (vary_spec token hs) = values_in k hs.
Proof.
  intros Ho Hne Hn Hsep Hl toks.
  assert (Htok : tokens token = [token]).
  { unfold tokens. rewrite <- (app_nil_r token) at 1. rewrite tokens_aux_run.
    - cbn. by rewrite decide_False.
    - eapply Forall_impl; [exact Hsep|]. by intros b ->. }
  assert (HV : NUL ∉ bs "Vary" /\ length (bs "Vary") ≤ IOH_MAX_HEADER_SIZE).
  { split; [bcompute|]. nle. }
  destruct HV as [HV1 HV2]. unfold vary_spec.
  destruct (list_find _ _) as [[i e]|] eqn:Ef.
  - apply list_find_split in Ef as (a & b & -> & -> & He & Ha).
    apply Forall_app in Ho as [Hoa Hob]. apply Forall_cons in Hob as [Hoe Hob].
    rewrite vary_header_is in He. apply header_is_iff in He; [|by apply owned_ok|done|done].
    assert (Hna : values_in (bs "Vary") a = []).
    { apply values_absent, Forall_forall. intros x Hx Eq. rewrite Forall_forall in Ha, Hoa.
      apply header_is_iff in Eq; [|by apply owned_ok, Hoa|done|done].
      rewrite <- vary_header_is, Ha in Eq; done. }
    assert (Htoks : forall e', header_name e' = header_name e -> toks (a ++ e' :: b) = tokens (header_value e')).
    { intros e' E'. unfold toks. rewrite (values_replace _ _ _ e) by done.
      by rewrite decide_True, Hna by done. }
    rewrite strnlen_id, firstn_all by done. unfold vary_token_exists.
    destruct (owned_ok e Hoe) as (_ & _ & Hval). destruct Hoe as (E1 & E2 & E3 & E4).
    rewrite E2, firstn_all, vary_scan_spec by (done || lia).
    rewrite (Htoks e), Hval by done. case_bool_decide as Hd.
    + rewrite decide_True by done. by rewrite (Htoks e), Hval.
    + rewrite decide_False by done. rewrite insert_app_r_alt, Nat.sub_diag by lia. cbn [list_insert insert].
      split.
      * rewrite Htoks by done. unfold header_value, set_value. cbn [h_value h_value_len].
        rewrite take_ge by llia. unfold tokens at 1.
        change (bs ", " ++ token) with (","%byte :: SP :: token). rewrite tokens_aux_sep.
        change (SP :: token) with ([SP] ++ token).
        by rewrite (tokens_skip [SP] token), Htok by (repeat constructor).
      * intros k Hk. rewrite (values_replace _ _ _ e) by done. rewrite He. by rewrite decide_False by done.
  - assert (Hnone : values_in (bs "Vary") hs = []).
    { apply values_absent. apply list_find_None in Ef.
      eapply Forall_impl; [apply Forall_and; split; [exact Ef|exact Ho]|].
      intros x [Hx Hxo] Eq. apply Hx. rewrite vary_header_is.
      by apply header_is_iff; [apply owned_ok|..]. }
    split.
    + unfold toks. rewrite set_spec_values by done. rewrite decide_True, Hnone by done.
      rewrite Htok, decide_False; [done|]. cbn. set_solver.
    + intros k Hk. rewrite set_spec_values by done. by rewrite decide_False.
Qed.

(** Maintaining [Vary].  For a non-empty token without separators, the call
    either fails with [ENOMEM] and changes no header, or succeeds, and then the
    token list of the [Vary] header is the old one when the token was already
    listed (up to ASCII case) and the old one with the token appended otherwise,
    the headers under other names being untouched; in particular a second call
    changes nothing.  A substring of a listed token is not taken for it. *)
Theorem response_add_vary_spec h r token :
  response_ok r -> (Z.of_nat (length (r_headers r)) < 2 ^ 31)%Z ->
  token ≠ [] -> NUL ∉ token -> Forall (fun b => vary_sep b = false) token ->
  length token ≤ IOH_MAX_HEADER_SIZE ->
  exists rc r' h', ioh_response_add_vary h r (Some token) = Some (rc, r', h')
    /\ response_ok r' /\ same_rest r r'
    /\ match rc with
       | Ok _ =>
           vary_tokens r' = (if decide (lower token ∈ lower <$> vary_tokens r) then vary_tokens r
                             else vary_tokens r ++ [token])
           /\ forall k, lower k ≠ lower (bs "Vary") -> values k r' = values k r
       | Err e => e = ENOMEM /\ r_headers r' = r_headers r
       end.
Proof.
  intros Hr Hlt Hne Hn Hs Hl.
  destruct (add_vary_step h r token Hr Hlt) as (rc & r' & h' & E & Hr' & Hsr & Hrc).
  { rewrite strnlen_id by done. by destruct token. }
  exists rc, r', h'. do 3 (split; [done|]). destruct rc; [|done]. unfold vary_tokens, values. rewrite Hrc.
  apply vary_spec_tokens; try done. by apply ok_headers.
Qed.

Definition demo_vary : ioh_response_t :=
  with_headers demo_response [mk_header (bs "vary") 4 (bs "Accept-Encoding, Origin") 23].

Lemma response_add_vary_spec_witness :
  exists r', ioh_response_add_vary [] demo_vary (Some (bs "Accept")) = Some (Ok (), r', [])
    /\ vary_tokens r' = [bs "Accept-Encoding"; bs "Origin"; bs "Accept"].
Proof.
  destruct (response_add_vary_spec [] demo_vary (bs "Accept")) as (rc & r' & h' & E & Hr' & _ & Hrc).
  - apply with_headers_ok; [exact demo_response_ok| |vm_compute; discriminate].
    constructor; [|constructor]. split_and!; try reflexivity; bcompute.
  - reflexivity.
  - discriminate.
  - bcompute.
  - repeat constructor.
  - nle.
  - vm_compute in E. injection E as <- <- <-. eexists. split; [vm_compute; reflexivity|].
    destruct Hrc as [Hrc _]. rewrite Hrc. vm_compute. reflexivity.
Defined.

(** ** Body *)

Lemma with_body_ok r b len cap :
  response_ok r -> (0 <= len <= Z.of_nat (length b))%Z -> (Z.of_nat (length b) <= cap < 2 ^ 64)%Z ->
  response_ok (with_body r (Some b) len cap).
Proof. intros [] ??. split; try done. by exists b. Qed.

Lemma grow_body_ok h r len :
  response_ok r -> (0 <= len < 2 ^ 64)%Z ->
  exists rc h', grow_body h r len = (rc, h')
    /\ match rc with
       | Ok r' => response_ok r' /\ r_headers r' = r_headers r /\ r_status r' = r_status r
                  /\ r_body r' = r_body r /\ (len <= r_body_capacity r')%Z
       | Err e => e = ENOMEM
       end.
Proof.
  intros Hr Hlen. pose proof Hr as [_ _ _ _ (b & Eb & Hb & Hbc)]. unfold grow_body.
  destruct (_ <? len)%Z eqn:E; bprop; [|eexists _, _; split; [reflexivity|]; by split_and!].
  pose proof (u64_range (r_body_capacity r * 2)) as Hu.
  destruct (xalloc h) as [[] h1]; cbn [negb]; eexists _, _; (split; [reflexivity|]); [|done].
  rewrite Eb. change (default [] (Some b)) with b. match goal with |- context [with_body r _ _ ?x] => set (c := x) end.
  assert (Hc : (len <= c < 2 ^ 64)%Z) by (unfold c; destruct (_ <? u64 _)%Z eqn:E2; bprop; lia).
  split; [apply with_body_ok; [done|lia|lia]|]. split_and!; try done. cbn. lia.
Qed.

Lemma set_body_step h r src len :
  response_ok r -> (0 <= len <= Z.of_nat (length src))%Z -> (len < 2 ^ 64)%Z ->
  exists rc r' h', ioh_response_set_body h r (Some src) len = Some (rc, r', h')
    /\ response_ok r' /\ r_headers r' = r_headers r /\ r_status r' = r_status r
    /\ match rc with
       | Ok _ => body_text r' = take (Z.to_nat len) src
       | Err e => e = ENOMEM /\ r' = r
       end.
Proof.
  intros Hr Hlen Hmax. unfold ioh_response_set_body.
  destruct (len =? 0)%Z eqn:E0; bprop.
  { subst len. eexists _, _, _. split; [reflexivity|].
    pose proof Hr as [_ _ _ _ (b & Eb & Hb & Hbc)]. rewrite Eb.
    split; [apply with_body_ok; [done|lia|lia]|done]. }
  destruct (grow_body_ok h r len Hr ltac:(lia)) as (rc & h1 & -> & Hg).
  destruct rc as [r1|e]; [|subst e; eexists _, _, _; split; [reflexivity|done]].
  destruct Hg as (Hr1 & Hh & Hst & Hbd & Hcap).
  pose proof Hr1 as [_ _ _ _ (b & Eb & Hb & Hbc)]. rewrite Eb.
  destruct (_ <? len)%Z eqn:E1; bprop; [lia|].
  assert (Hlo : length (overwrite src (Z.to_nat len) b) = Nat.max (Z.to_nat len) (length b)).
  { unfold overwrite. rewrite length_app, length_take, length_drop. lia. }
  eexists _, _, _. split; [reflexivity|]. split; [apply with_body_ok; [done|lia|lia]|].
  split; [done|]. split; [done|].
  change (take (Z.to_nat len) (overwrite src (Z.to_nat len) b) = take (Z.to_nat len) src). unfold overwrite. rewrite take_app_le by (rewrite length_take; lia). rewrite take_take. f_equal. lia.
Qed.

(** ** [ioh_respond] *)

Lemma with_status_ok r st : response_ok r -> response_ok (with_status r st).
Proof. intros []. by split. Qed.

#[export] Hint Resolve with_status_ok : iohttp.

Lemma respond_step h r st ct src len :
  response_ok r -> (Z.of_nat (length (r_headers r)) < 2 ^ 31)%Z ->
  (0 < len <= Z.of_nat (length src))%Z -> (len < 2 ^ 64)%Z ->
  exists rc r' h', ioh_respond h r st (Some ct) (Some src) len = Some (rc, r', h')
    /\ response_ok r'
    /\ r_headers r' ∈ [r_headers r; set_spec (bs "Content-Type") ct (r_headers r)]
    /\ match rc with
       | Ok _ => r_status r' = st /\ body_text r' = take (Z.to_nat len) src
                 /\ r_headers r' = set_spec (bs "Content-Type") ct (r_headers r)
       | Err e => e = ENOMEM
       end.
Proof.
  intros Hr Hlt Hlen Hmax. unfold ioh_respond.
  destruct (set_header_step h (with_status r st) (bs "Content-Type") ct) as
    (rc & r1 & h1 & -> & Hr1 & Hs1 & Hrc); [auto with iohttp|done|].
  destruct rc as [[]|e].
  2:{ eexists _, _, _. split; [reflexivity|]. destruct Hrc as [-> Hh]. split; [done|].
      split; [rewrite Hh; set_solver|done]. }
  replace (0 <? len)%Z with true by (symmetry; apply Z.ltb_lt; lia).
  destruct (set_body_step h1 r1 src len Hr1 ltac:(lia) Hmax) as (rc & r2 & h2 & -> & Hr2 & Hh2 & Hst2 & Hrc2).
  eexists _, _, _. split; [reflexivity|]. split; [done|].
  cbn [with_status r_headers] in Hrc. split; [rewrite Hh2, Hrc; set_solver|].
  destruct rc; [|by destruct Hrc2]. split_and!; [|done|congruence]. rewrite Hst2. by apply Hs1.
Qed.

(** JSON responses.  For an initialised response, every non-empty JSON text
    without NUL and every allocation outcome, [ioh_respond_json] stores nothing
    out of bounds, keeps the invariant and fails only with [ENOMEM]; when it
    returns 0 the status is the given one, the Content-Type is application/json
    and the body is the text, cut at 1 MiB, whatever the buffer held before. *)
Theorem respond_json_spec h r st json :
  response_ok r -> (Z.of_nat (length (r_headers r)) < 2 ^ 31)%Z -> json ≠ [] -> NUL ∉ json ->
  exists rc r' h', ioh_respond_json h r st (Some json) = Some (rc, r', h')
    /\ response_ok r'
    /\ match rc with
       | Ok _ => r_status r' = st /\ body_text r' = take JSON_LIMIT json
                 /\ head (values (bs "Content-Type") r') = Some (bs "application/json")
       | Err e => e = ENOMEM
       end.
Proof.
  intros Hr Hlt Hne Hn. unfold ioh_respond_json.
  assert (Hs : strnlen json JSON_LIMIT = Nat.min (length json) JSON_LIMIT).
  { unfold strnlen, strlen. by rewrite c_str_id by by apply no_nul_forall. }
  assert (Hj : 0 < length json) by (destruct json; [done|simpl; lia]).
  assert (HJ : Z.of_nat JSON_LIMIT = 1048576%Z) by (unfold JSON_LIMIT; by rewrite Z2Nat.id).
  destruct (respond_step h r st (bs "application/json") json (Z.of_nat (strnlen json JSON_LIMIT)) Hr Hlt)
    as (rc & r' & h' & E & Hr' & _ & Hrc); [rewrite Hs; lia|rewrite Hs; lia|].
  exists rc, r', h'. split; [exact E|]. split; [done|]. destruct rc; [|done].
  destruct Hrc as (Hst & Hb & Hh). split; [done|]. split.
  - rewrite Hb, Nat2Z.id, Hs. destruct (Nat.min_spec (length json) JSON_LIMIT) as [[? ->]|[? ->]]; [|done].
    by rewrite firstn_all, take_ge by lia.
  - unfold values. rewrite Hh, set_spec_values; [by rewrite decide_True by done|by apply ok_headers|bcompute|..];
      first [bcompute|nle].
Qed.

Lemma respond_json_spec_witness :
  exists rc r' h', ioh_respond_json [] demo_response 201 (Some (bs "{}")) = Some (rc, r', h')
    /\ response_ok r' /\ body_text r' = bs "{}".
Proof.
  destruct (respond_json_spec [] demo_response 201 (bs "{}")) as (rc & r' & h' & E & Hr' & _);
    [exact demo_response_ok|reflexivity|discriminate|bcompute|].
  exists rc, r', h'. split; [exact E|]. split; [exact Hr'|].
  vm_compute in E. injection E as <- <- <-. vm_compute. reflexivity.
Defined.

(** ** Sequences of calls *)

(** A builder call; a body is given with its readable bytes and its length. *)
Inductive call :=
| CSetHeader (name value : option bytes)
| CAddHeader (name value : option bytes)
| CAddVary (token : option bytes)
| CSetBody (body : option bytes) (len : Z)
| CRespond (status : Z) (content_type body : option bytes) (len : Z)
| CRespondJson (status : Z) (json : option bytes)
| CReset.

Definition exec_call (h : heap) (r : ioh_response_t) (c : call) : step :=
  match c with
  | CSetHeader n v => ioh_response_set_header h r n v
  | CAddHeader n v => ioh_response_add_header h r n v
  | CAddVary t => ioh_response_add_vary h r t
  | CSetBody b len => ioh_response_set_body h r b len
  | CRespond st ct b len => ioh_respond h r st ct b len
  | CRespondJson st j => ioh_respond_json h r st j
  | CReset => Some (Ok (), ioh_response_reset r, h)
  end.

Fixpoint exec_calls (h : heap) (r : ioh_response_t) (cs : list call) : option (ioh_response_t * heap) :=
  match cs with
  | [] => Some (r, h)
  | c :: cs => match exec_call h r c with
               | Some (_, r, h) => exec_calls h r cs
               | None => None
               end
  end.

(** The length a caller passes does not exceed the body it points to. *)
Definition body_arg (b : option bytes) (len : Z) : Prop :=
  (0 <= len < 2 ^ 64)%Z /\ forall src, b = Some src -> (len <= Z.of_nat (length src))%Z.

Definition call_ok (c : call) : Prop :=
  match c with
  | CSetBody b len | CRespond _ _ b len => body_arg b len
  | _ => True
  end.

(** A step with a defined result, that keeps the invariant and adds at most one
    header. *)
Definition safe (r : ioh_response_t) (s : step) : Prop :=
  exists rc r' h', s = Some (rc, r', h') /\ response_ok r'
    /\ length (r_headers r') ≤ S (length (r_headers r)).

Lemma safe_same r rc r' h :
  response_ok r' -> r_headers r' = r_headers r -> safe r (Some (rc, r', h)).
Proof. intros H E. eexists _, _, _. split; [reflexivity|]. split; [done|]. rewrite E. lia. Qed.

Lemma safe_header r hs s :
  length hs ≤ S (length (r_headers r)) -> header_step r hs s -> safe r s.
Proof.
  intros Hl (rc & r' & h' & -> & Hr & _ & Hrc). eexists _, _, _. split; [reflexivity|]. split; [done|].
  destruct rc; [by rewrite Hrc|]. destruct Hrc as [_ ->]. lia.
Qed.

Lemma set_spec_length name value hs : length (set_spec name value hs) ≤ S (length hs).
Proof.
  unfold set_spec. destruct (list_find _ _) as [[i e]|]; [rewrite length_insert; lia|].
  rewrite length_app. simpl. lia.
Qed.

Lemma vary_spec_length token hs : length (vary_spec token hs) ≤ S (length hs).
Proof.
  unfold vary_spec. destruct (list_find _ _) as [[i e]|]; [|apply set_spec_length].
  cbv zeta. destruct (vary_token_exists _ _ _ _); rewrite ?length_insert; lia.
Qed.

Lemma set_header_safe h r n v :
  response_ok r -> (Z.of_nat (length (r_headers r)) < 2 ^ 31)%Z -> safe r (ioh_response_set_header h r n v).
Proof.
  intros Hr Hlt. destruct n as [n|], v as [v|]; try by apply safe_same.
  eapply safe_header; [|by apply set_header_step]. apply set_spec_length.
Qed.

Lemma set_body_safe h r b len :
  response_ok r -> body_arg b len -> safe r (ioh_response_set_body h r b len).
Proof.
  intros Hr [Hlen Hb]. destruct b as [src|].
  - destruct (set_body_step h r src len Hr) as (rc & r' & h' & -> & Hr' & Hh & _);
      [specialize (Hb src eq_refl); lia|lia|]. by apply safe_same.
  - unfold ioh_response_set_body. destruct (len =? 0)%Z; [|by apply safe_same].
    apply safe_same; [|done]. pose proof Hr as [_ _ _ _ (b & Eb & Hbl & Hbc)]. rewrite Eb.
    apply with_body_ok; [done|lia|lia].
Qed.

Lemma respond_safe h r st ct b len :
  response_ok r -> (Z.of_nat (length (r_headers r)) < 2 ^ 31)%Z -> body_arg b len ->
  safe r (ioh_respond h r st ct b len).
Proof.
  intros Hr Hlt Hb. unfold ioh_respond.
  assert (Hct : safe r (match ct with
                        | None => Some (Ok (), with_status r st, h)
                        | Some _ => ioh_response_set_header h (with_status r st) (Some (bs "Content-Type")) ct
                        end)).
  { destruct ct; [|by apply safe_same; [apply with_status_ok|]].
    apply (set_header_safe h (with_status r st)); [by apply with_status_ok|done]. }
  destruct Hct as (rc & r1 & h1 & -> & Hr1 & Hl1).
  destruct rc; [|eexists _, _, _; by split_and!].
  destruct b as [src|]; [destruct (0 <? len)%Z|]; try (eexists _, _, _; by split_and!).
  destruct (set_body_step h1 r1 src len Hr1) as (rc & r2 & h2 & -> & Hr2 & Hh2 & _).
  - destruct Hb as [? Hb]. specialize (Hb src eq_refl). lia.
  - destruct Hb. lia.
  - eexists _, _, _. split; [reflexivity|]. split; [done|]. by rewrite Hh2.
Qed.

Lemma call_safe h r c :
  response_ok r -> (Z.of_nat (length (r_headers r)) < 2 ^ 31)%Z -> call_ok c -> safe r (exec_call h r c).
Proof.
  intros Hr Hlt Hc. destruct c as [n v|n v|t|b len|st ct b len|st j|]; cbn [exec_call].
  - by apply set_header_safe.
  - destruct n as [n|], v as [v|]; try by apply safe_same.
    eapply safe_header; [|by apply append_header_ok]. rewrite length_app. simpl. lia.
  - destruct t as [t|]; [|by apply safe_same].
    destruct (decide (strnlen t IOH_MAX_HEADER_SIZE = 0)) as [E|E].
    + unfold ioh_response_add_vary. rewrite E. by apply safe_same.
    + eapply safe_header; [|by apply add_vary_step]. apply vary_spec_length.
  - by apply set_body_safe.
  - by apply respond_safe.
  - destruct j as [j|]; [|by apply safe_same]. apply respond_safe; [done|done|].
    assert (HJ : Z.of_nat JSON_LIMIT = 1048576%Z) by (unfold JSON_LIMIT; by rewrite Z2Nat.id).
    pose proof (span_len not_nul j). split.
    + unfold strnlen. lia.
    + intros src [= <-]. unfold strnlen, strlen, c_str. lia.
  - eexists _, _, _. split; [reflexivity|]. cbn. split; [|lia].
    pose proof Hr as [? ? ? ? (b & Eb & Hbl & Hbc)]. split; cbn; try done; try lia.
    exists b. split; [done|]. lia.
Qed.

Lemma calls_safe h r cs :
  response_ok r -> (Z.of_nat (length (r_headers r) + length cs) < 2 ^ 31)%Z -> Forall call_ok cs ->
  exists r' h', exec_calls h r cs = Some (r', h') /\ response_ok r'.
Proof.
  intros Hr Hlt Hcs. revert h r Hr Hlt. induction Hcs as [|c cs Hc Hcs IH]; intros h r Hr Hlt.
  - by eexists _, _.
  - cbn [length] in Hlt. destruct (call_safe h r c Hr ltac:(lia) Hc) as (rc & r1 & h1 & E & Hr1 & Hl1).
    cbn [exec_calls]. rewrite E. apply IH; [done|lia].
Qed.

(** C15: no store is out of bounds.  After a successful initialisation, every
    sequence of fewer than 2^31 builder calls (setting, adding, [Vary], bodies of
    at least the stated length, convenience calls, resets; null arguments
    included), with any allocation outcomes, runs without writing past the header
    array or the body buffer, and ends with the invariant: at most
    [header_capacity] headers, NUL-free strings of the recorded lengths, and
    [body_len] bytes of body inside the capacity. *)
Theorem response_calls_in_bounds h cs :
  (Z.of_nat (length cs) < 2 ^ 31)%Z -> Forall call_ok cs ->
  match ioh_response_init h with
  | (Ok _, r, h') => exists r' h'', exec_calls h' r cs = Some (r', h'') /\ response_ok r'
  | (Err e, _, _) => e = ENOMEM
  end.
Proof.
  intros Hl Hcs. unfold ioh_response_init.
  destruct (xalloc h) as [[] h1]; cbn [negb]; [|done].
  destruct (xalloc h1) as [[] h2]; cbn [negb]; [|done].
  apply calls_safe; [|simpl; lia|done].
  split; cbn -[Z.lt Z.le]; [done|constructor|unfold IOH_RESPONSE_INITIAL_HEADERS; lia..|].
  exists []. unfold IOH_RESPONSE_INITIAL_BODY. simpl. split; [done|lia].
Qed.

Lemma response_calls_in_bounds_witness :
  exists r' h'', exec_calls [] (snd (fst (ioh_response_init [])))
      [CAddVary (Some (bs "Origin")); CRespond 200 None (Some (bs "hi")) 2; CReset] = Some (r', h'')
    /\ response_ok r'.
Proof.
  apply (response_calls_in_bounds [] [CAddVary (Some (bs "Origin")); CRespond 200 None (Some (bs "hi")) 2; CReset]).
  - reflexivity.
  - constructor; [exact I|]. constructor; [|constructor; [exact I|constructor]].
    split; [lia|]. intros src [= <-]. vm_compute. discriminate.
Defined.
