(* ===== verification/Http1.v ===== *)
(** The HTTP/1.1 layer ([src/src/http/ioh_http1.h], [ioh_http1.c]): the request
    parser with its checks against request smuggling, the response serializer and
    the chunked-decoder wrapper.

    [buf] is the received input; a token of the parser becomes the pointer
    [drop off buf]. *)
From S2P Require Import Prelude CString PathNorm Radix Request Response Pico Chunked.

Definition IOH_HTTP1_MAX_HEADERS : nat := 64.
Definition IOH_HTTP1_MAX_URI_SIZE : nat := 4096.

(** ** Content-Length and Transfer-Encoding values *)

Definition is_valid_content_length (value : bytes) (len : nat) : bool :=
  if len =? 0 then false
  else forallb (fun i => is_digit (char_at value i)) (seq 0 len).

Definition parse_content_length (value : bytes) (len : nat) : Z :=
  fold_left (fun result i => u64 (result * 10 + digit_val (char_at value i))) (seq 0 len) 0%Z.

Definition chunked_name : bytes := bs "chunked".

(** The first offset at which "chunked" occurs, trying [n] of them from [v]. *)
Fixpoint find_chunked (v : bytes) (n : nat) : option nat :=
  match n with
  | O => None
  | S n => if strncasecmp_eq v chunked_name 7 then Some 0 else S <$> find_chunked (drop 1 v) n
  end.

(** Is "chunked", when it occurs, followed by nothing but blanks? *)
Definition te_chunked_last (value : bytes) (vlen : nat) : bool :=
  if 7 <=? vlen then
    match find_chunked value (vlen - 6) with
    | None => true
    | Some j => forallb (fun b => (b =b SP) || (b =b HT)) (drop (j + 7) (take vlen value))
    end
  else true.

(** ** Requests *)

Definition ptr (buf : bytes) (t : tokn) : bytes := drop (t_off t) buf.

(** [nlen == n && strncasecmp(name, lit, n) == 0]. *)
Definition name_eq (buf : bytes) (t : tokn) (lit : bytes) : bool :=
  (t_len t =? length lit) && strncasecmp_eq (ptr buf t) lit (length lit).

Definition with_request_line (r : ioh_request_t) (m : ioh_method_t) (minor : Z)
    (p : bytes) (plen : nat) (q : option bytes) (qlen : nat) : ioh_request_t :=
  mk_request m (Some p) plen q qlen (headers r) (body r) (body_len r) (params r) 1 minor
    (1 <=? minor)%Z (content_length r) (content_type r) (host r).

Definition with_content_length (r : ioh_request_t) (n : Z) : ioh_request_t :=
  mk_request (method r) (path r) (path_len r) (query r) (query_len r) (headers r) (body r)
    (body_len r) (params r) (http_version_major r) (http_version_minor r) (keep_alive r) n
    (content_type r) (host r).

(** One header copied into the request with what is extracted from it. *)
Definition with_header (r : ioh_request_t) (h : ioh_header_t) (ka : bool) (ct hst : option bytes)
    : ioh_request_t :=
  mk_request (method r) (path r) (path_len r) (query r) (query_len r) (headers r ++ [h]) (body r)
    (body_len r) (params r) (http_version_major r) (http_version_minor r) ka (content_length r) ct hst.

(** The first pass: what it has seen, and the request. *)
Fixpoint check_headers (buf : bytes) (hs : list phr_header) (cl te hst : bool) (r : ioh_request_t)
    : res (bool * bool * bool) * ioh_request_t :=
  match hs with
  | [] => (Ok (cl, te, hst), r)
  | h :: hs =>
      match ph_name h with
      | None => (Err EINVAL, r)
      | Some name =>
          let value := ptr buf (ph_value h) in
          let vlen := t_len (ph_value h) in
          let is_cl := name_eq buf name (bs "Content-Length") in
          if is_cl && cl then (Err EINVAL, r) else
          if is_cl && negb (is_valid_content_length value vlen) then (Err EINVAL, r) else
          let r := if is_cl then with_content_length r (parse_content_length value vlen) else r in
          let is_te := name_eq buf name (bs "Transfer-Encoding") in
          if is_te && negb (te_chunked_last value vlen) then (Err EINVAL, r) else
          check_headers buf hs (cl || is_cl) (te || is_te) (hst || name_eq buf name (bs "Host")) r
      end
  end.

(** The second pass, [n] headers being already in the request. *)
Fixpoint copy_headers (buf : bytes) (hs : list phr_header) (n : nat) (r : ioh_request_t) : ioh_request_t :=
  match hs with
  | [] => r
  | h :: hs =>
      if IOH_MAX_HEADERS <=? n then r else
      let name := default (mk_tok 0 0) (ph_name h) in
      let value := ptr buf (ph_value h) in
      let vlen := t_len (ph_value h) in
      let hdr := mk_header (ptr buf name) (t_len name) value vlen in
      let ct := if name_eq buf name (bs "Content-Type") then Some value else content_type r in
      let hst := if name_eq buf name (bs "Host") then Some value else host r in
      let ka :=
        if name_eq buf name (bs "Connection") then
          if (vlen =? 5) && strncasecmp_eq value (bs "close") 5 then false
          else if (vlen =? 10) && strncasecmp_eq value (bs "keep-alive") 10 then true
          else keep_alive r
        else keep_alive r in
      copy_headers buf hs (S n) (with_header r hdr ka ct hst)
  end.

(** The request line and both passes, on what the parser reported. *)
Definition fill_request (buf : bytes) (q : phr_request) (consumed : nat) (r : ioh_request_t)
    : res nat * ioh_request_t :=
  if IOH_HTTP1_MAX_URI_SIZE <? t_len (pr_path q) then (Err E2BIG, r) else
  if IOH_HTTP1_MAX_HEADERS <? length (pr_headers q) then (Err E2BIG, r) else
  let r := ioh_request_init in
  let m := ioh_method_parse (Some (ptr buf (pr_method q))) (t_len (pr_method q)) in
  let minor := pr_minor_version q in
  let p := ptr buf (pr_path q) in
  let plen := t_len (pr_path q) in
  let r := match memchr p "?"%byte plen with
           | Some i => with_request_line r m minor p i (Some (drop (i + 1) p)) (plen - i - 1)
           | None => with_request_line r m minor p plen (query r) (query_len r)
           end in
  match check_headers buf (pr_headers q) false false false r with
  | (Err e, r) => (Err e, r)
  | (Ok (cl, te, hst), r) =>
      if cl && te then (Err EINVAL, r) else
      if (1 <=? minor)%Z && negb hst then (Err EINVAL, r) else
      (Ok consumed, copy_headers buf (pr_headers q) 0 r)
  end.

Definition ioh_http1_parse_request (simd : bool) (buf : bytes) (r : ioh_request_t)
    : res nat * ioh_request_t :=
  if length buf =? 0 then (Err EAGAIN, r) else
  match phr_parse_request simd buf IOH_HTTP1_MAX_HEADERS 0 with
  | PPartial => (Err EAGAIN, r)
  | PFail => (Err EINVAL, r)
  | PDone q consumed _ => fill_request buf q consumed r
  end.

(** ** Responses *)

(** Output written so far and the room left; [None] when a piece did not fit. *)
Definition out : Type := option (bytes * nat).

(** [snprintf], which needs room for a terminator: the text or [-ENOSPC]. *)
Definition emit (o : out) (s : bytes) : out :=
  match o with
  | Some (buf, remaining) =>
      if remaining <=? length s then None else Some (buf ++ s, remaining - length s)
  | None => None
  end.

Definition crlf : bytes := [CR; LF].

(** ["HTTP/1.1 %u %s\r\n"]. *)
Definition status_line (status : Z) : bytes :=
  bs "HTTP/1.1 " ++ print_dec status ++ SP :: ioh_status_text status ++ crlf.

(** ["%.*s: %.*s\r\n"], the precisions being the recorded lengths; past 2^31 the
    cast to [int] is negative, which [printf] takes as no precision, so a string
    of the recorded length prints the same. *)
Definition header_line_text (h : ioh_header_t) : bytes :=
  strndup (h_name h) (h_name_len h) ++ bs ": " ++ strndup (h_value h) (h_value_len h) ++ crlf.

(** ["Content-Length: %zu\r\n"]. *)
Definition length_line (n : Z) : bytes := bs "Content-Length: " ++ print_dec n ++ crlf.

Definition ioh_http1_serialize_response (r : ioh_response_t) (buf_size : nat) : res bytes :=
  if buf_size =? 0 then Err EINVAL else
  let o := emit (Some ([], buf_size)) (status_line (r_status r)) in
  let o := fold_left (fun o h => emit o (header_line_text h)) (r_headers r) o in
  let o := if (0 <? r_body_len r)%Z && negb (r_chunked r) then emit o (length_line (r_body_len r)) else o in
  match o with
  | None => Err ENOSPC
  | Some (text, remaining) =>
      if remaining <? 2 then Err ENOSPC else
      let text := text ++ crlf in
      let remaining := remaining - 2 in
      match r_body r with
      | Some b =>
          if (0 <? r_body_len r)%Z then
            if (Z.of_nat remaining <? r_body_len r)%Z then Err ENOSPC
            else Ok (text ++ take (Z.to_nat (r_body_len r)) b)
          else Ok text
      | None => Ok text
      end
  end.

(** ** Chunked bodies *)

Record ioh_chunked_decoder_t := mk_ioh_chunked {
  decoder : phr_chunked_decoder;
  icd_consume_trailer : bool;
}.

Definition ioh_http1_chunked_init : ioh_chunked_decoder_t :=
  mk_ioh_chunked (mk_chunked 0 true 0 CHUNKED_IN_CHUNK_SIZE 0 0) true.

(** The return code, the decoder and the contents of the buffer: the decoded
    bytes, then the ones not consumed. *)
Definition ioh_http1_chunked_decode (dec : ioh_chunked_decoder_t) (buf : bytes)
    : res Z * ioh_chunked_decoder_t * bytes * bytes :=
  let r := phr_decode_chunked (decoder dec) buf in
  let rc := if (0 <=? cr_ret r)%Z then Ok (cr_ret r)
            else if (cr_ret r =? -2)%Z then Err EAGAIN else Err EINVAL in
  (rc, mk_ioh_chunked (cr_decoder r) (icd_consume_trailer dec), cr_out r, cr_left r).
