(* ===== verification/Http1Thms.v ===== *)
(** Theorems on the HTTP/1.1 layer: which requests are accepted, what the
    request record then holds, and what the serializer writes. *)
From S2P Require Import Prelude CString PathNorm Radix Request RequestThms.
From S2P Require Import Response ResponseThms Pico PicoThms Chunked Http1.

(** ** The parser's tokens lie in the input *)

Ltac pstep H :=
  match type of H with
  | pbind ?m _ = PDone _ _ _ => let E := fresh "E" in destruct m eqn:E; cbn [pbind] in H; [|done..]
  end.

Definition tok_in (n : nat) (t : tokn) : Prop := t_off t + t_len t ≤ n.

Lemma token_loop_in stop ok start pos rest t p r :
  token_loop stop ok start pos rest = PDone t p r -> start ≤ pos -> tok_in p t.
Proof.
  revert pos. induction rest as [|b rest IH]; intros pos; [done|]. cbn [token_loop].
  destruct (stop b); [intros [= <- <- <-] Hs; unfold tok_in; simpl; lia|].
  destruct (ok b); [|done]. intros He Hs. apply (IH _ He). lia.
Qed.

Lemma moves_le {A} (P : nat -> bytes -> pres A) pos rest a p r :
  moves P -> P pos rest = PDone a p r -> pos ≤ p /\ p + length r = pos + length rest.
Proof. intros HP E. destruct (HP _ _ _ _ _ E) as (s & -> & ->). rewrite length_app. lia. Qed.

Lemma tok_in_le n m t : tok_in n t -> n ≤ m -> tok_in m t.
Proof. unfold tok_in. lia. Qed.

Definition hdr_in (n : nat) (h : phr_header) : Prop :=
  tok_in n (ph_value h) /\ forall t, ph_name h = Some t -> tok_in n t.

Lemma hdr_in_le n m h : hdr_in n h -> n ≤ m -> hdr_in m h.
Proof. intros [H1 H2] Hl. split; [by eapply tok_in_le|]. intros t Ht. eapply tok_in_le; [by apply H2|done]. Qed.

Lemma parse_name_in first pos rest name p r :
  parse_name false first pos rest = PDone name p r -> forall t, name = Some t -> tok_in p t.
Proof.
  unfold parse_name. destruct (negb _); intros H; [|by injection H as <- _ _]. pstep H.
  destruct (_ =? 0); [done|]. pstep H. injection H as <- <- <-. intros t [= <-].
  eapply tok_in_le; [eapply token_loop_in; [exact E|lia]|]. 
  destruct (moves_drop1 _ moves_skip_blanks (fun _ => eq_refl) _ _ _ _ _ E0) as (s & _ & ->). lia.
Qed.

Lemma trim_blanks_le v n : trim_blanks v n ≤ n.
Proof. induction n as [|n IH]; [done|]. cbn [trim_blanks]. destruct (blank _); lia. Qed.

Lemma header_line_in first pos rest h p r :
  header_line first pos rest = PDone h p r -> hdr_in p h.
Proof.
  unfold header_line. intros H. pstep H. pstep H. injection H as <- <- <-. cbn.
  pose proof E0 as E1.
  destruct (moves_le _ _ _ _ _ _ (moves_eol_loop pos0) E1) as [Hle Hlen].
  apply eol_line_len in E1 as [Hl Ho]; [|lia]. pose proof (trim_blanks_le rest0 (t_len a0)). split.
  - unfold tok_in. cbn. lia.
  - cbn. intros t ->. eapply tok_in_le; [by eapply parse_name_in|done].
Qed.

Lemma parse_headers_in f acc mx pos rest hs p r :
  parse_headers false f acc mx pos rest = PDone hs p r -> Forall (hdr_in pos) acc -> Forall (hdr_in p) hs.
Proof.
  revert acc pos rest. induction f as [|f IH]; intros acc pos rest; [done|]. rewrite parse_headers_eq.
  destruct rest as [|b rest]; [done|]. destruct (_ || _).
  - intros H Ha. pstep H. injection H as <- <- <-. apply moves_line_end in E as (s & _ & ->).
    apply Forall_rev. eapply Forall_impl; [exact Ha|]. intros h Hh. eapply hdr_in_le; [done|lia].
  - destruct (_ =? mx); [done|]. intros H Ha. pstep H. apply IH in H; [done|].
    constructor; [by eapply header_line_in|].
    apply header_line_moves in E as (s & _ & -> & _).
    eapply Forall_impl; [exact Ha|]. intros x Hx. eapply hdr_in_le; [done|lia].
Qed.

Lemma request_tokens_in mx buf q n r :
  parse_request false mx 0 buf = PDone q n r ->
  n ≤ length buf /\ tok_in n (pr_method q) /\ tok_in n (pr_path q) /\ Forall (hdr_in n) (pr_headers q).
Proof.
  intros H. destruct (moves_le _ _ _ _ _ _ (moves_request mx) H) as [_ Hn]. split; [lia|]. clear Hn.
  rewrite parse_request_eq in H. do 5 pstep H. destruct (_ || _); [done|]. do 3 pstep H.
  injection H as <- <- <-. cbn [pr_method pr_path pr_headers].
  apply moves_skip_empty_line in E as (s1 & _ & ->).
  pose proof (token_loop_in _ _ _ _ _ _ _ _ E0 ltac:(lia)) as T0.
  pose proof (token_loop_in _ _ _ _ _ _ _ _ E2 ltac:(lia)) as T2.
  apply (moves_drop1 _ moves_skip_spaces (fun _ => eq_refl)) in E1 as (s2 & _ & ->).
  apply moves_advance_token in E2 as (s3 & _ & ->).
  apply (moves_drop1 _ moves_skip_spaces (fun _ => eq_refl)) in E3 as (s4 & _ & ->).
  apply moves_version in E4 as (s5 & _ & ->). apply moves_line_end in E5 as (s6 & _ & ->).
  pose proof (parse_headers_in _ _ _ _ _ _ _ _ E6 (Forall_nil_2 _)) as T6.
  apply moves_headers in E6 as (s7 & _ & ->).
  split_and!; [eapply tok_in_le; [exact T0|lia]|eapply tok_in_le; [exact T2|lia]|exact T6].
Qed.

(** ** Comparing names *)

Lemma to_lower_nul b : to_lower b = NUL <-> b = NUL.
Proof. split; [|by intros ->]. destruct b; vm_compute; congruence. Qed.

Lemma lower_nul s : NUL ∈ lower s <-> NUL ∈ s.
Proof.
  unfold lower. rewrite list_elem_of_fmap. split.
  - intros (b & Hb & Hin). symmetry in Hb. apply (proj1 (to_lower_nul b)) in Hb. by subst.
  - intros Hin. by exists NUL.
Qed.

(** [strncasecmp] against a literal compares the first bytes, NUL or not. *)
Lemma strncasecmp_lit p lit :
  NUL ∉ lit -> strncasecmp_eq p lit (length lit) = bool_decide (lower (take (length lit) p) = lower lit).
Proof.
  intros Hn. apply eq_true_iff_eq. unfold strncasecmp_eq. rewrite bytes_eqb_true, bool_decide_eq_true.
  assert (Hl : strndup lit (length lit) = lit) by (rewrite <- (app_nil_r lit) at 1; by apply strndup_prefix).
  rewrite Hl. unfold strndup. fold (lower (take (length lit) (c_str p))) (lower lit). split; intros E.
  - assert (Hlen : length (take (length lit) (c_str p)) = length lit).
    { apply (f_equal length) in E. unfold lower in E. by rewrite !length_fmap in E. }
    rewrite length_take in Hlen. rewrite <- E. f_equal.
    unfold c_str. rewrite span_fst_take, take_take. f_equal. unfold c_str in Hlen. lia.
  - rewrite c_str_take; [done|]. by rewrite <- lower_nul, E, lower_nul.
Qed.

Lemma text_length buf t : tok_in (length buf) t -> length (text buf t) = t_len t.
Proof. unfold tok_in, text. intros H. rewrite length_take, length_drop. lia. Qed.

Lemma lower_length s : length (lower s) = length s.
Proof. apply length_fmap. Qed.

Lemma name_eq_text buf t lit :
  NUL ∉ lit -> tok_in (length buf) t -> name_eq buf t lit = bool_decide (lower (text buf t) = lower lit).
Proof.
  intros Hn Ht. unfold name_eq. rewrite strncasecmp_lit by done.
  apply eq_true_iff_eq. rewrite andb_true_iff, Nat.eqb_eq, !bool_decide_eq_true. unfold ptr. split.
  - intros [<- E]. exact E.
  - intros E. assert (Hl : t_len t = length lit).
    { rewrite <- (text_length buf t) by done. by rewrite <- lower_length, E, lower_length. }
    split; [done|]. by rewrite <- Hl.
Qed.

(** ** Header values *)

Lemma char_at_seq v n : n ≤ length v -> char_at v <$> seq 0 n = take n v.
Proof.
  revert v. induction n as [|n IH]; intros v Hn; [done|]. destruct v as [|b v]; [simpl in Hn; lia|].
  cbn [seq fmap list_fmap take]. f_equal. rewrite <- (fmap_S_seq 0 n), <- list_fmap_compose.
  rewrite <- (IH v) by (simpl in Hn; lia). done.
Qed.

Definition digits (v : bytes) : Prop := v ≠ [] /\ Forall (fun b => is_digit b = true) v.

Lemma fold_left_fmap {A B C} (g : C -> B -> C) (f : A -> B) l a :
  fold_left g (f <$> l) a = fold_left (fun r i => g r (f i)) l a.
Proof. revert a. induction l as [|x l IH]; intros a; [done|]. cbn. apply IH. Qed.

Lemma forallb_fmap {A B} (g : B -> bool) (f : A -> B) l : forallb g (f <$> l) = forallb (fun i => g (f i)) l.
Proof. induction l as [|x l IH]; [done|]. cbn. f_equal. apply IH. Qed.

Lemma valid_length_text v n : n ≤ length v -> is_valid_content_length v n = true <-> digits (take n v).
Proof.
  intros Hn. unfold is_valid_content_length, digits. destruct n as [|n]; [split; [done|by intros [? _]]|].
  cbn [Nat.eqb]. rewrite <- (forallb_fmap is_digit (char_at v)), char_at_seq by done.
  rewrite forallb_forall, Forall_forall. split.
  - intros H. split; [destruct v; [simpl in Hn; lia|done]|]. intros x Hx. apply H. by apply list_elem_of_In.
  - intros [_ H] x Hx. apply H. by apply list_elem_of_In.
Qed.

Lemma u64_step a d : u64 (u64 a * 10 + d) = u64 (a * 10 + d).
Proof.
  unfold u64. rewrite <- Zplus_mod_idemp_l, Zmult_mod_idemp_l, Zplus_mod_idemp_l. done.
Qed.

(** The number read is the value of the digits, modulo 2^64. *)
Lemma parse_length_text v n : n ≤ length v -> parse_content_length v n = u64 (dec_val 0 (take n v)).
Proof.
  intros Hn. unfold parse_content_length.
  rewrite <- (fold_left_fmap (fun r b => u64 (r * 10 + digit_val b)) (char_at v)), char_at_seq by done.
  generalize (take n v) as l. intros l. change 0%Z with (u64 0) at 1. unfold dec_val. generalize 0%Z as a.
  induction l as [|b l IH]; intros a; [done|]. cbn [fold_left]. by rewrite u64_step, IH.
Qed.

(** "chunked" occurs at offset [j], up to ASCII case. *)
Definition occurs (v : bytes) (j : nat) : Prop := lower (take 7 (drop j v)) = chunked_name.

(** What follows the first occurrence of "chunked" is blank. *)
Definition chunked_last (v : bytes) : Prop :=
  forall j, occurs v j -> (forall i, i < j -> ~ occurs v i) -> Forall (fun b => blank b = true) (drop (j + 7) v).

Lemma find_chunked_spec v n :
  match find_chunked v n with
  | Some j => j < n /\ occurs v j /\ forall i, i < j -> ~ occurs v i
  | None => forall i, i < n -> ~ occurs v i
  end.
Proof.
  revert v. induction n as [|n IH]; intros v; cbn [find_chunked]; [intros; lia|].
  change 7 with (length chunked_name) at 1. rewrite strncasecmp_lit by bcompute.
  change (length chunked_name) with 7. change (lower chunked_name) with chunked_name.
  case_bool_decide as E; [split_and!; [lia|exact E|intros; lia]|].
  assert (Hs : forall i, occurs v (S i) <-> occurs (drop 1 v) i).
  { intros i. unfold occurs. by rewrite drop_drop. }
  specialize (IH (drop 1 v)). destruct (find_chunked (drop 1 v) n) as [j|]; cbn.
  - destruct IH as (Hj & Ho & Hmin). split_and!; [lia|by apply Hs|].
    intros [|i] Hi; [exact E|]. rewrite Hs. apply Hmin. lia.
  - intros [|i] Hi; [exact E|]. rewrite Hs. apply IH. lia.
Qed.

Lemma occurs_bound v j : occurs v j -> j + 7 ≤ length v.
Proof.
  intros Ho. apply (f_equal length) in Ho. rewrite lower_length, length_take, length_drop in Ho.
  change (length chunked_name) with 7 in Ho. lia.
Qed.

Lemma occurs_take v n j : j + 7 ≤ n -> occurs (take n v) j <-> occurs v j.
Proof.
  intros Hj. unfold occurs. rewrite skipn_firstn_comm, take_take. by replace (7 `min` (n - j)) with 7 by lia.
Qed.

Lemma te_last_text v n : n ≤ length v -> te_chunked_last v n = true <-> chunked_last (take n v).
Proof.
  intros Hn. unfold te_chunked_last. destruct (7 <=? n) eqn:E7; bprop.
  2:{ split; [|done]. intros _ j Ho _. apply occurs_bound in Ho. rewrite length_take in Ho. lia. }
  pose proof (find_chunked_spec v (n - 6)) as Hf. destruct (find_chunked v (n - 6)) as [j|].
  - destruct Hf as (Hj & Ho & Hmin). rewrite forallb_forall. split.
    + intros Hb k Hk Hkm. assert (k = j) as ->.
      { pose proof (occurs_bound _ _ Hk) as Hkb. rewrite length_take in Hkb.
        apply occurs_take in Hk; [|lia]. destruct (lt_eq_lt_dec k j) as [[Hlt| ->]|Hgt]; [|done|].
        - by destruct (Hmin k Hlt).
        - destruct (Hkm j Hgt). apply occurs_take; [lia|done]. }
      apply Forall_forall. intros b Hin. apply Hb. by apply list_elem_of_In.
    + intros Hc. specialize (Hc j). rewrite occurs_take in Hc by lia.
      specialize (Hc Ho). rewrite Forall_forall in Hc. intros b Hin. apply Hc; [|by apply list_elem_of_In].
      intros i Hi. rewrite occurs_take by lia. by apply Hmin.
  - split; [|done]. intros _ j Ho _. pose proof (occurs_bound _ _ Ho) as Hb. rewrite length_take in Hb.
    apply occurs_take in Ho; [|lia]. destruct (Hf j); [lia|done].
Qed.

(** ** Which requests are accepted *)

(** The values of the header fields with a name, up to ASCII case. *)
Definition field (lit : bytes) (hs : list (option bytes * bytes)) : list bytes :=
  snd <$> filter (fun h => lower <$> fst h = Some (lower lit)) hs.

(** The conditions of RFC 9112 the parser enforces against request smuggling. *)
Record acceptable (minor : Z) (hs : list (option bytes * bytes)) : Prop := {
  acc_no_fold : Forall (fun h => is_Some (fst h)) hs;
  acc_one_length : length (field (bs "Content-Length") hs) ≤ 1;
  acc_digits : Forall digits (field (bs "Content-Length") hs);
  acc_not_both : field (bs "Content-Length") hs = [] \/ field (bs "Transfer-Encoding") hs = [];
  acc_chunked : Forall chunked_last (field (bs "Transfer-Encoding") hs);
  acc_host : (1 <= minor)%Z -> field (bs "Host") hs ≠ [];
}.

Definition nonempty {A} (l : list A) : bool := match l with [] => false | _ => true end.

Lemma field_cons lit n v hs :
  field lit ((Some n, v) :: hs) =
    if bool_decide (lower n = lower lit) then v :: field lit hs else field lit hs.
Proof.
  unfold field. rewrite filter_cons. cbn [fst fmap option_fmap option_map].
  case_bool_decide as E.
  - rewrite decide_True; [done|]. cbn. by rewrite E.
  - rewrite decide_False; [done|]. cbn. congruence.
Qed.

(** The part of the conditions the first pass checks, [cl] telling whether a
    Content-Length was seen before. *)
Record checked (cl : bool) (hs : list (option bytes * bytes)) : Prop := {
  ck_no_fold : Forall (fun h => is_Some (fst h)) hs;
  ck_seen : cl = true -> field (bs "Content-Length") hs = [];
  ck_one_length : length (field (bs "Content-Length") hs) ≤ 1;
  ck_digits : Forall digits (field (bs "Content-Length") hs);
  ck_chunked : Forall chunked_last (field (bs "Transfer-Encoding") hs);
}.

Definition length_set (r : ioh_request_t) (vs : list bytes) : ioh_request_t :=
  match vs with v :: _ => with_content_length r (u64 (dec_val 0 v)) | [] => r end.

Lemma checked_cons cl n v hs :
  let is_cl := bool_decide (lower n = lower (bs "Content-Length")) in
  let is_te := bool_decide (lower n = lower (bs "Transfer-Encoding")) in
  checked cl ((Some n, v) :: hs) <->
  (is_cl = true -> cl = false /\ digits v) /\ (is_te = true -> chunked_last v) /\ checked (cl || is_cl) hs.
Proof.
  intros is_cl is_te. split.
  - intros [H1 H2 H3 H4 H5]. rewrite field_cons in *. fold is_cl in H2, H3, H4. fold is_te in H5. inv H1.
    split; [|split].
    + intros E. rewrite E in *. apply Forall_cons in H4 as [Hv _]. split; [|done]. destruct cl; [|done].
      by specialize (H2 eq_refl).
    + intros E. rewrite E in *. by apply Forall_cons in H5 as [Hv _].
    + destruct is_cl.
      * apply Forall_cons in H4 as [_ H4]. cbn [length] in H3.
        assert (field (bs "Content-Length") hs = []) as Hnil by (destruct (field _ hs); [done|simpl in H3; lia]).
        split; [done|done|lia|done|]. destruct is_te; [by apply Forall_cons in H5 as [_ H5]|done].
      * rewrite orb_false_r. split; [done|done|done|done|].
        destruct is_te; [by apply Forall_cons in H5 as [_ H5]|done].
  - intros (Hc & Ht & [H1 H2 H3 H4 H5]).
    assert (Hte : Forall chunked_last (field (bs "Transfer-Encoding") ((Some n, v) :: hs))).
    { rewrite field_cons. fold is_te. destruct is_te; [constructor; [by apply Ht|done]|done]. }
    assert (Hcl : field (bs "Content-Length") ((Some n, v) :: hs)
                  = if is_cl then v :: field (bs "Content-Length") hs else field (bs "Content-Length") hs)
      by apply field_cons.
    destruct is_cl.
    + destruct (Hc eq_refl) as [-> Hd]. specialize (H2 eq_refl).
      split; [constructor; [by eexists|done]|done|rewrite Hcl, H2; simpl; lia| |done].
      rewrite Hcl. by constructor.
    + rewrite orb_false_r in H2.
      split; [constructor; [by eexists|done]|by rewrite Hcl|by rewrite Hcl|by rewrite Hcl|done].
Qed.

Lemma orb_nonempty {A} (b : bool) (x : A) l (c : bool) :
  b || nonempty (if c then x :: l else l) = (b || c) || nonempty l.
Proof. destruct b, c; done. Qed.

Lemma check_headers_spec buf hs cl te hst r :
  Forall (hdr_in (length buf)) hs ->
  let ts := header_text buf <$> hs in
  match check_headers buf hs cl te hst r with
  | (Ok flags, r') =>
      checked cl ts /\ r' = length_set r (field (bs "Content-Length") ts)
      /\ flags = (cl || nonempty (field (bs "Content-Length") ts),
                  te || nonempty (field (bs "Transfer-Encoding") ts),
                  hst || nonempty (field (bs "Host") ts))
  | (Err e, _) => e = EINVAL /\ ~ checked cl ts
  end.
Proof.
  intros Hin. cbv zeta. revert cl te hst r. induction Hin as [|h hs [Hv Hn] Hin IH]; intros cl te hst r.
  { cbn. split; [|by rewrite !orb_false_r]. split; try constructor; done. }
  change (header_text buf <$> h :: hs)
    with ((text buf <$> ph_name h, text buf (ph_value h)) :: (header_text buf <$> hs)).
  cbn [check_headers]. destruct (ph_name h) as [t|]; cbn [fmap option_fmap option_map].
  2:{ split; [done|]. intros [Hf _ _ _ _]. apply Forall_cons in Hf as [Hs _]. by destruct Hs. }
  specialize (Hn t eq_refl). set (v := text buf (ph_value h)) in *.
  assert (Hvl : t_len (ph_value h) ≤ length (ptr buf (ph_value h))).
  { unfold tok_in in Hv. unfold ptr. rewrite length_drop. lia. }
  assert (Htx : take (t_len (ph_value h)) (ptr buf (ph_value h)) = v) by done.
  rewrite !name_eq_text by (done || bcompute).
  pose proof (valid_length_text _ _ Hvl) as Hval. pose proof (te_last_text _ _ Hvl) as Hlast.
  rewrite parse_length_text, !Htx in * by done.
  pose proof (checked_cons cl (text buf t) v (header_text buf <$> hs)) as Hck. cbv zeta in Hck.
  rewrite !field_cons.
  set (is_cl := bool_decide (lower (text buf t) = lower (bs "Content-Length"))) in *.
  set (is_te := bool_decide (lower (text buf t) = lower (bs "Transfer-Encoding"))) in *.
  destruct (is_cl && cl) eqn:E1.
  { apply andb_prop in E1 as [E1 ->]. split; [done|]. rewrite Hck. intros (Hc & _). by destruct (Hc E1). }
  destruct (is_cl && negb (is_valid_content_length _ _)) eqn:E2.
  { apply andb_prop in E2 as [E2 E3]. split; [done|]. rewrite Hck. intros (Hc & _). destruct (Hc E2) as [_ Hd].
    apply Hval in Hd. by rewrite Hd in E3. }
  destruct (is_te && negb (te_chunked_last _ _)) eqn:E3.
  { apply andb_prop in E3 as [E3 E4]. split; [done|]. rewrite Hck. intros (_ & Ht & _). specialize (Ht E3).
    apply Hlast in Ht. by rewrite Ht in E4. }
  match goal with |- context [check_headers buf hs ?a ?b ?c ?d] => specialize (IH a b c d) end.
  assert (Hclv : is_cl = true -> cl = false /\ digits v).
  { intros E. rewrite E in E1, E2. cbn [andb] in E1, E2. split; [done|].
    apply Hval. by apply negb_false_iff in E2. }
  assert (Htev : is_te = true -> chunked_last v).
  { intros E. rewrite E in E3. cbn [andb] in E3. apply Hlast. by apply negb_false_iff in E3. }
  destruct (check_headers _ _ _ _ _ _) as [[flags|e] r'].
  - destruct IH as (Hs & -> & ->). split; [by apply Hck|]. split; [|by rewrite !orb_nonempty].
    destruct is_cl; [|done]. destruct Hs as [_ H2 _ _ _]. rewrite H2 by apply orb_true_r. done.
  - destruct IH as [-> Hno]. split; [done|]. rewrite Hck. by intros (_ & _ & ?).
Qed.

(** ** What an accepted request holds *)

(** Persistence after the Connection options, the last recognised one deciding. *)
Definition keep_step (ka : bool) (v : bytes) : bool :=
  if decide (lower v = bs "close") then false
  else if decide (lower v = bs "keep-alive") then true else ka.

Definition header_pair (h : ioh_header_t) : bytes * bytes := (header_name h, header_value h).

(** What the second pass does not touch. *)
Definition same_line (r r' : ioh_request_t) : Prop :=
  method r' = method r /\ path r' = path r /\ path_len r' = path_len r /\ query r' = query r
  /\ query_len r' = query_len r /\ http_version_major r' = http_version_major r
  /\ http_version_minor r' = http_version_minor r /\ content_length r' = content_length r.

Lemma copy_headers_spec buf hs n r :
  Forall (hdr_in (length buf)) hs -> Forall (fun h => is_Some (ph_name h)) hs ->
  n + length hs ≤ IOH_MAX_HEADERS ->
  let ts := header_text buf <$> hs in
  let r' := copy_headers buf hs n r in
  same_line r r'
  /\ (fun p => (Some (fst p), snd p)) <$> (header_pair <$> headers r')
     = ((fun p => (Some (fst p), snd p)) <$> (header_pair <$> headers r)) ++ ts
  /\ keep_alive r' = fold_left keep_step (field (bs "Connection") ts) (keep_alive r).
Proof.
  intros Hin Hnm. cbv zeta. revert n r. induction Hin as [|h hs [Hv Hn] Hin IH]; intros n r Hlen.
  { cbn. rewrite app_nil_r. by repeat split. }
  apply Forall_cons in Hnm as [[t Et] Hnm]. cbn [length] in Hlen.
  change (header_text buf <$> h :: hs)
    with ((text buf <$> ph_name h, text buf (ph_value h)) :: (header_text buf <$> hs)).
  cbn [copy_headers]. test_false (IOH_MAX_HEADERS <=? n).
  rewrite Et. cbn [default]. specialize (Hn t Et).
  match goal with |- context [copy_headers buf hs (S n) ?x] => specialize (IH Hnm (S n) x ltac:(lia)) end.
  destruct IH as (Hs & Hh & Hk). split_and!; [exact Hs|..].
  - rewrite Hh. cbn [with_header headers]. rewrite !fmap_app, <- app_assoc. done.
  - rewrite Hk. cbn [with_header keep_alive fmap option_fmap option_map]. rewrite field_cons.
    unfold id. rewrite name_eq_text by (done || bcompute).
    case_bool_decide as E; [|done]. cbn [fold_left]. f_equal. unfold keep_step.
    change ((t_len (ph_value h) =? 5) && strncasecmp_eq (ptr buf (ph_value h)) (bs "close") 5)
      with (name_eq buf (ph_value h) (bs "close")).
    change ((t_len (ph_value h) =? 10) && strncasecmp_eq (ptr buf (ph_value h)) (bs "keep-alive") 10)
      with (name_eq buf (ph_value h) (bs "keep-alive")).
    rewrite !name_eq_text by (done || bcompute).
    change (lower (bs "close")) with (bs "close"). change (lower (bs "keep-alive")) with (bs "keep-alive").
    repeat first [case_bool_decide|case_decide]; done || congruence.
Qed.

Lemma parse_headers_count f acc mx pos rest hs p r :
  parse_headers false f acc mx pos rest = PDone hs p r -> length acc ≤ mx -> length hs ≤ mx.
Proof.
  revert acc pos rest. induction f as [|f IH]; intros acc pos rest; [done|]. rewrite parse_headers_eq.
  destruct rest as [|b rest]; [done|]. destruct (_ || _).
  - intros H Ha. pstep H. injection H as <- <- <-. by rewrite length_rev.
  - destruct (length acc =? mx) eqn:El; [done|]. bprop. intros H Ha. pstep H. apply IH in H; [done|].
    simpl. lia.
Qed.

Lemma request_header_count mx buf q n r :
  parse_request false mx 0 buf = PDone q n r -> length (pr_headers q) ≤ mx.
Proof.
  intros H. rewrite parse_request_eq in H. do 5 pstep H. destruct (_ || _); [done|]. do 3 pstep H.
  injection H as <- <- <-. cbn [pr_headers]. eapply parse_headers_count; [exact E6|simpl; lia].
Qed.

(** The path and the query as the request denotes them. *)
Definition path_text (r : ioh_request_t) : option bytes := take (path_len r) <$> path r.
Definition query_text (r : ioh_request_t) : option bytes := take (query_len r) <$> query r.

(** A request target with an optional query. *)
Definition target (p : bytes) (q : option bytes) : bytes :=
  p ++ match q with Some q => "?"%byte :: q | None => [] end.

(** The request [fill_request] starts both passes from. *)
Definition line_request (buf : bytes) (q : phr_request) : ioh_request_t :=
  let m := ioh_method_parse (Some (ptr buf (pr_method q))) (t_len (pr_method q)) in
  let p := ptr buf (pr_path q) in
  let plen := t_len (pr_path q) in
  match memchr p "?"%byte plen with
  | Some i => with_request_line ioh_request_init m (pr_minor_version q) p i (Some (drop (i + 1) p)) (plen - i - 1)
  | None => with_request_line ioh_request_init m (pr_minor_version q) p plen None 0
  end.

Lemma line_request_target buf q p query :
  text buf (pr_path q) = target p query -> tok_in (length buf) (pr_path q) -> "?"%byte ∉ p ->
  path_text (line_request buf q) = Some p /\ query_text (line_request buf q) = query.
Proof.
  intros Ht Hin Hp. unfold line_request. pose proof (text_length _ _ Hin) as Hlen. rewrite Ht in Hlen.
  set (pp := ptr buf (pr_path q)). assert (Hpp : pp = target p query ++ drop (t_len (pr_path q)) pp).
  { rewrite <- Ht. symmetry. apply take_drop. }
  set (post := drop (t_len (pr_path q)) pp) in *. clearbody pp post. subst pp. rewrite <- Hlen.
  unfold target. destruct query as [qu|].
  - rewrite <- app_assoc. cbn [app]. rewrite length_app. cbn [length]. rewrite memchr_skip by done.
    unfold path_text, query_text. cbn [with_request_line path path_len Request.query query_len fmap option_fmap option_map].
    rewrite take_app_length. split; [done|]. f_equal.
    change (p ++ "?"%byte :: qu ++ post) with (p ++ ["?"%byte] ++ qu ++ post).
    rewrite app_assoc, drop_app_length' by (rewrite length_app; done).
    apply take_app_length'. lia.
  - rewrite app_nil_r, memchr_absent by done. unfold path_text, query_text.
    cbn [with_request_line path path_len Request.query query_len fmap option_fmap option_map].
    by rewrite take_app_length.
Qed.

Lemma checked_acceptable minor hs :
  acceptable minor hs <->
  checked false hs
  /\ nonempty (field (bs "Content-Length") hs) && nonempty (field (bs "Transfer-Encoding") hs) = false
  /\ (1 <=? minor)%Z && negb (nonempty (field (bs "Host") hs)) = false.
Proof.
  split.
  - intros [H1 H2 H3 H4 H5 H6]. split_and!.
    + by split.
    + destruct H4 as [-> | ->]; [done|]. apply andb_false_r.
    + destruct (1 <=? minor)%Z eqn:E; [|done]. bprop. specialize (H6 E).
      by destruct (field (bs "Host") hs).
  - intros ([H1 _ H3 H4 H5] & Hb & Hh). split; try done.
    + apply andb_false_iff in Hb as [Hb|Hb]; [left|right].
      * by destruct (field (bs "Content-Length") hs).
      * by destruct (field (bs "Transfer-Encoding") hs).
    + intros Hm. apply Z.leb_le in Hm. rewrite Hm in Hh. by destruct (field (bs "Host") hs).
Qed.

Lemma fill_request_spec buf q n r :
  Forall (hdr_in (length buf)) (pr_headers q) -> t_len (pr_path q) ≤ IOH_HTTP1_MAX_URI_SIZE ->
  length (pr_headers q) ≤ IOH_HTTP1_MAX_HEADERS ->
  let ts := header_text buf <$> pr_headers q in
  match fill_request buf q n r with
  | (Ok m, r') => m = n /\ acceptable (pr_minor_version q) ts
      /\ r' = copy_headers buf (pr_headers q) 0
                (length_set (line_request buf q) (field (bs "Content-Length") ts))
  | (Err e, _) => e = EINVAL /\ ~ acceptable (pr_minor_version q) ts
  end.
Proof.
  intros Hin Hp Hc. cbv zeta. unfold fill_request.
  rewrite (proj2 (Nat.ltb_ge _ _) Hp), (proj2 (Nat.ltb_ge _ _) Hc).
  change (match memchr _ _ _ with Some _ => _ | None => _ end) with (line_request buf q).
  pose proof (check_headers_spec buf (pr_headers q) false false false (line_request buf q) Hin) as Hck.
  cbv zeta in Hck. destruct (check_headers _ _ _ _ _ _) as [[flags|e] r1].
  - destruct Hck as (Hc1 & -> & ->). cbn [orb].
    pose proof (checked_acceptable (pr_minor_version q) (header_text buf <$> pr_headers q)) as Hacc.
    destruct (nonempty _ && nonempty _) eqn:E1.
    { split; [done|]. intros (_ & Hb & _)%Hacc. congruence. }
    destruct ((1 <=? _)%Z && _) eqn:E2.
    { split; [done|]. intros (_ & _ & Hb)%Hacc. congruence. }
    split; [done|]. split; [|done]. by apply Hacc.
  - destruct Hck as [-> Hno]. split; [done|]. by intros (? & _)%checked_acceptable.
Qed.

(** The request before the second pass. *)
Lemma line_request_fields buf q vs :
  let r := length_set (line_request buf q) vs in
  method r = ioh_method_parse (Some (ptr buf (pr_method q))) (t_len (pr_method q))
  /\ path_text r = path_text (line_request buf q) /\ query_text r = query_text (line_request buf q)
  /\ http_version_major r = 1%Z /\ http_version_minor r = pr_minor_version q /\ headers r = []
  /\ content_length r = match vs with v :: _ => u64 (dec_val 0 v) | [] => 0%Z end
  /\ keep_alive r = (1 <=? pr_minor_version q)%Z.
Proof.
  cbv zeta. unfold line_request. destruct (memchr _ _ _), vs; done.
Qed.

(** The headers the parser reports all have names when their texts do. *)
Lemma named_headers buf hs ts :
  header_text buf <$> hs = (fun h : bytes * bytes => (Some (fst h), snd h)) <$> ts ->
  Forall (fun h => is_Some (ph_name h)) hs.
Proof.
  revert ts. induction hs as [|h hs IH]; intros [|t ts] E; try done.
  injection E as E1 E2 E3. constructor; [|by eapply IH].
  destruct (ph_name h); [by eexists|done].
Qed.

(** ** The properties *)

(** C6: exactly the unambiguous requests are accepted.  When the parser delimits a
    request of [n] bytes whose target is within the limit, the layer returns [n]
    precisely when no header is folded, there is at most one Content-Length, it
    is a non-empty digit string, Content-Length and Transfer-Encoding do not
    occur together, nothing but blanks follows "chunked" in a Transfer-Encoding,
    and a request of minor version 1 or more names a Host; every other request is
    refused with [EINVAL]. *)
Theorem http1_accepts_unambiguous simd buf q n rest r :
  phr_parse_request simd buf IOH_HTTP1_MAX_HEADERS 0 = PDone q n rest ->
  t_len (pr_path q) ≤ IOH_HTTP1_MAX_URI_SIZE ->
  match fst (ioh_http1_parse_request simd buf r) with
  | Ok m => m = n /\ acceptable (pr_minor_version q) (header_text buf <$> pr_headers q)
  | Err e => e = EINVAL /\ ~ acceptable (pr_minor_version q) (header_text buf <$> pr_headers q)
  end.
Proof.
  intros Hq Hp. unfold ioh_http1_parse_request. rewrite Hq.
  unfold phr_parse_request in Hq. cbn [Nat.eqb] in Hq. rewrite parse_request_simd in Hq.
  destruct (length buf =? 0) eqn:E0; bprop; [by destruct buf|].
  destruct (request_tokens_in _ _ _ _ _ Hq) as (Hn & _ & _ & Hin).
  pose proof (fill_request_spec buf q n r) as Hf. cbv zeta in Hf.
  destruct (fill_request buf q n r) as [[m|e] r']; [destruct Hf as (? & ? & _)|destruct Hf as (? & ?)]; try done.
  - eapply Forall_impl; [exact Hin|]. intros h Hh. eapply hdr_in_le; [exact Hh|lia].
  - by apply request_header_count in Hq.
  - eapply Forall_impl; [exact Hin|]. intros h Hh. eapply hdr_in_le; [exact Hh|lia].
  - by apply request_header_count in Hq.
Qed.

Definition both_lengths : bytes :=
  bs "POST /a HTTP/1.1" ++ crlf ++ bs "Host: x" ++ crlf ++ bs "Content-Length: 5" ++ crlf
  ++ bs "Transfer-Encoding: chunked" ++ crlf ++ crlf.

Lemma http1_accepts_unambiguous_witness :
  exists q n rest, phr_parse_request false both_lengths IOH_HTTP1_MAX_HEADERS 0 = PDone q n rest
    /\ ~ acceptable (pr_minor_version q) (header_text both_lengths <$> pr_headers q).
Proof.
  destruct (phr_parse_request false both_lengths IOH_HTTP1_MAX_HEADERS 0) as [q n rest| |] eqn:E;
    [|vm_compute in E; discriminate..].
  exists q, n, rest. split; [reflexivity|].
  assert (Hp : t_len (pr_path q) ≤ IOH_HTTP1_MAX_URI_SIZE).
  { vm_compute in E. injection E as <- _ _. nle. }
  pose proof (http1_accepts_unambiguous false both_lengths q n rest ioh_request_init E Hp) as H.
  replace (fst (ioh_http1_parse_request false both_lengths ioh_request_init)) with (@Err nat EINVAL) in H
    by (vm_compute; reflexivity).
  apply H.
Defined.

Lemma method_parse_text p m : take (length m) p = m ->
  ioh_method_parse (Some p) (length m) = ioh_method_parse (Some m) (length m).
Proof.
  intros Hm. assert (Hc : forall lit, memcmp_eq p lit (length m) = memcmp_eq m lit (length m)).
  { intros lit. unfold memcmp_eq. by rewrite Hm, firstn_all. }
  unfold ioh_method_parse. remember (length m) as n eqn:En.
  do 8 (destruct n as [|n]; [by rewrite ?Hc|]). done.
Qed.

(** C9: rendered requests come back.  For every method token, target made of a path
    without a question mark and an optional query, minor version and at most 64
    well-formed headers that satisfy the conditions above, the layer accepts the
    rendered request followed by any bytes, consumes exactly it, and the record
    holds the method, the path and the query apart, every header in order, the
    Content-Length modulo 2^64, and the persistence the version and the
    Connection headers give. *)
Theorem http1_request_roundtrip simd m p query minor hs rest r :
  m ≠ [] -> Forall (fun b => token_char b = true) m ->
  target p query ≠ [] -> Forall (fun b => path_char b = true) (target p query) -> "?"%byte ∉ p ->
  length (target p query) ≤ IOH_HTTP1_MAX_URI_SIZE ->
  (0 <= minor <= 9)%Z -> Forall header_wf hs -> length hs ≤ IOH_HTTP1_MAX_HEADERS ->
  let ts := (fun h => (Some (fst h), snd h)) <$> hs in
  acceptable minor ts ->
  let msg := render_request m (target p query) minor hs in
  exists r', ioh_http1_parse_request simd (msg ++ rest) r = (Ok (length msg), r')
    /\ method r' = ioh_method_parse (Some m) (length m)
    /\ path_text r' = Some p /\ query_text r' = query
    /\ http_version_major r' = 1%Z /\ http_version_minor r' = minor
    /\ header_pair <$> headers r' = hs
    /\ content_length r' = match field (bs "Content-Length") ts with v :: _ => u64 (dec_val 0 v) | [] => 0%Z end
    /\ keep_alive r' = fold_left keep_step (field (bs "Connection") ts) (1 <=? minor)%Z.
Proof.
  intros Hm Hmt Ht Htt Hp Htl Hv Hh Hhl ts Hacc msg.
  pose proof (parse_request_render m (target p query) minor hs IOH_HTTP1_MAX_HEADERS rest
                Hm Hmt Ht Htt Hv Hh Hhl) as Hq. cbv zeta in Hq. fold msg in Hq.
  fold (request_toks m (target p query) minor hs) in Hq.
  destruct (request_texts m (target p query) minor hs rest) as (T1 & T2 & T3). fold msg in T1, T2, T3.
  set (q := request_toks m (target p query) minor hs) in *. set (buf := msg ++ rest) in *.
  destruct (request_tokens_in _ _ _ _ _ Hq) as (Hn & _ & Hpin & Hin).
  assert (Hin' : Forall (hdr_in (length buf)) (pr_headers q)).
  { eapply Forall_impl; [exact Hin|]. intros h Hhi. eapply hdr_in_le; [exact Hhi|lia]. }
  pose proof (fill_request_spec buf q (length msg) r Hin' Htl) as Hf. cbv zeta in Hf. rewrite T3 in Hf.
  specialize (Hf (request_header_count _ _ _ _ _ Hq)). fold ts in Hf.
  unfold ioh_http1_parse_request, phr_parse_request. cbn [Nat.eqb]. rewrite parse_request_simd, Hq.
  destruct (length buf =? 0) eqn:E0; bprop.
  { unfold buf in E0. rewrite length_app in E0. unfold msg, render_request in E0.
    rewrite length_app in E0. destruct m; [done|simpl in E0; lia]. }
  destruct (fill_request buf q (length msg) r) as [[k|e] r'].
  2:{ destruct Hf as [_ Hf]. by destruct Hf. }
  destruct Hf as (-> & _ & ->). eexists. split; [reflexivity|].
  pose proof (line_request_fields buf q (field (bs "Content-Length") ts)) as
    (F1 & F2 & F3 & F4 & F5 & F6 & F7 & F8).
  destruct (copy_headers_spec buf (pr_headers q) 0 (length_set (line_request buf q) (field (bs "Content-Length") ts))
              Hin' (named_headers _ _ _ T3)) as (Hs & Hhd & Hk); [by apply request_header_count in Hq|].
  rewrite T3 in Hhd, Hk. fold ts in Hhd, Hk.
  destruct Hs as (S1 & S2 & S3 & S4 & S5 & S6 & S7 & S8).
  destruct (line_request_target buf q p query T2) as [L1 L2]; [eapply tok_in_le; [exact Hpin|lia]|done|].
  unfold path_text, query_text in *. rewrite S1, S2, S3, S4, S5, S6, S7, S8, F1, F2, F3, F4, F5, F7, Hk, F8.
  split_and!; try done; [by apply method_parse_text|].
  rewrite F6 in Hhd. cbn [fmap list_fmap app] in Hhd. unfold ts in Hhd.
  apply (list_fmap_eq_inj _) in Hhd; [done|]. by intros [??] [??] [= -> ->].
Qed.

Definition demo_headers : list (bytes * bytes) :=
  [(bs "Host", bs "x"); (bs "Content-Length", bs "5"); (bs "Connection", bs "Close")].

Lemma http1_request_roundtrip_witness :
  exists r', ioh_http1_parse_request true
      (render_request (bs "POST") (bs "/a?k=v") 1 demo_headers ++ bs "hello") ioh_request_init
    = (Ok (length (render_request (bs "POST") (bs "/a?k=v") 1 demo_headers)), r')
    /\ path_text r' = Some (bs "/a") /\ query_text r' = Some (bs "k=v")
    /\ content_length r' = 5%Z /\ keep_alive r' = false.
Proof.
  destruct (http1_request_roundtrip true (bs "POST") (bs "/a") (Some (bs "k=v")) 1 demo_headers (bs "hello")
              ioh_request_init) as (r' & E & _ & Hp & Hq & _ & _ & _ & Hc & Hk).
  - discriminate.
  - repeat constructor.
  - discriminate.
  - repeat constructor.
  - bcompute.
  - nle.
  - lia.
  - repeat constructor; discriminate.
  - nle.
  - split.
    + repeat constructor; eexists; reflexivity.
    + nle.
    + vm_compute. repeat constructor. discriminate.
    + right. vm_compute. reflexivity.
    + vm_compute. constructor.
    + intros _. vm_compute. discriminate.
  - exists r'. split; [exact E|]. split; [exact Hp|]. split; [exact Hq|].
    split; [rewrite Hc|rewrite Hk]; vm_compute; reflexivity.
Defined.

Definition huge_length : bytes :=
  render_request (bs "POST") (bs "/a") 1 [(bs "Host", bs "x"); (bs "Content-Length", bs "18446744073709551621")].

(** A Content-Length that does not fit [size_t] is not refused: 2^64 + 5 passes
    the digit check and is recorded as 5, so the layer and a peer that reads the
    number exactly delimit the body differently. *)
Theorem http1_content_length_wraps :
  exists n r', ioh_http1_parse_request false huge_length ioh_request_init = (Ok n, r')
    /\ content_length r' = 5%Z.
Proof. eexists _, _. split; vm_compute; reflexivity. Qed.

(** The values of parsed headers are not terminated: a header's value, read up to
    the next NUL as the lookups' callers do, runs on through the line end and the
    headers that follow.  Copied into a response (as the server does with
    X-Request-Id), it carries those lines along. *)
Theorem header_value_runs_on :
  let msg := render_request (bs "GET") (bs "/") 1 [(bs "X-Request-Id", bs "abc"); (bs "Host", bs "x")] in
  exists n req r, ioh_http1_parse_request false msg ioh_request_init = (Ok n, req)
    /\ ioh_response_set_header [] (snd (fst (ioh_response_init []))) (Some (bs "X-Request-Id"))
         (ioh_request_header req (bs "x-request-id")) = Some (Ok (), r, [])
    /\ values (bs "X-Request-Id") r = [bs "abc" ++ CRLF ++ bs "Host: x" ++ CRLF ++ CRLF].
Proof. eexists _, _, _. split; [vm_compute; reflexivity|]. split; vm_compute; reflexivity. Qed.

(** ** The serializer *)

(** The text of a response. *)
Definition header_field (h : ioh_header_t) : bytes := h_name h ++ bs ": " ++ h_value h ++ crlf.

Definition head_pieces (r : ioh_response_t) : list bytes :=
  status_line (r_status r) :: (header_field <$> r_headers r)
  ++ (if (0 <? r_body_len r)%Z && negb (r_chunked r) then [length_line (r_body_len r)] else []).

Definition response_text (r : ioh_response_t) : bytes :=
  mjoin (head_pieces r) ++ crlf ++ body_text r.

Lemma emit_none l : fold_left emit l None = None.
Proof. by induction l. Qed.

Lemma emit_all l b n :
  0 < n ->
  fold_left emit l (Some (b, n)) =
    if decide (length (mjoin l) < n) then Some (b ++ mjoin l, n - length (mjoin l)) else None.
Proof.
  revert b n. induction l as [|s l IH]; intros b n Hn.
  - cbn. rewrite decide_True by lia. by rewrite app_nil_r, Nat.sub_0_r.
  - change (mjoin (s :: l)) with (s ++ mjoin l). cbn [fold_left emit]. rewrite length_app.
    destruct (n <=? length s) eqn:E; bprop.
    + rewrite emit_none, decide_False by lia. done.
    + rewrite IH by lia. destruct (decide (length (mjoin l) < n - length s)).
      * rewrite decide_True by lia. rewrite <- app_assoc. do 2 f_equal. lia.
      * by rewrite decide_False by lia.
Qed.

Lemma header_field_text h : owned h -> header_line_text h = header_field h.
Proof.
  intros (E1 & E2 & E3 & E4). unfold header_line_text, header_field. rewrite E1, E2. unfold strndup.
  by rewrite !c_str_id, !firstn_all by by apply no_nul_forall.
Qed.

Lemma emit_head r n :
  response_ok r ->
  (let o := emit (Some ([], n)) (status_line (r_status r)) in
   let o := fold_left (fun o h => emit o (header_line_text h)) (r_headers r) o in
   if (0 <? r_body_len r)%Z && negb (r_chunked r) then emit o (length_line (r_body_len r)) else o)
  = fold_left emit (head_pieces r) (Some ([], n)).
Proof.
  intros Hr. cbv zeta. unfold head_pieces. cbn [fold_left]. rewrite fold_left_app, fold_left_fmap.
  assert (Hf : forall o, fold_left (fun o h => emit o (header_line_text h)) (r_headers r) o
                    = fold_left (fun o h => emit o (header_field h)) (r_headers r) o).
  { pose proof (ok_headers _ Hr) as Ho. induction Ho as [|h hs Hh _ IH]; intros o; [done|].
    cbn [fold_left]. rewrite header_field_text by done. apply IH. }
  rewrite Hf. by destruct (_ && _).
Qed.

Lemma serialize_text r n :
  response_ok r -> 0 < n ->
  ioh_http1_serialize_response r n =
    if decide (length (response_text r) ≤ n) then Ok (response_text r) else Err ENOSPC.
Proof.
  intros Hr Hn. unfold ioh_http1_serialize_response.
  test_false (n =? 0).
  pose proof (emit_head r n Hr) as He. cbv zeta in He. cbv zeta. rewrite He, emit_all by done. clear He.
  unfold response_text. set (hd := mjoin (head_pieces r)).
  pose proof Hr as [_ _ _ _ (b & Eb & Hb & _)]. rewrite Eb.
  assert (Hbt : body_text r = take (Z.to_nat (r_body_len r)) b) by (unfold body_text; by rewrite Eb).
  assert (Hlen : Z.of_nat (length (body_text r)) = r_body_len r) by (rewrite Hbt, length_take; lia).
  rewrite !length_app. change (length crlf) with 2. cbn [app].
  destruct (decide (length hd < n)); [|rewrite decide_False by lia; done].
  destruct (n - length hd <? 2) eqn:E2; bprop; [rewrite decide_False by lia; done|].
  destruct (0 <? r_body_len r)%Z eqn:E3; bprop.
  - destruct (_ <? r_body_len r)%Z eqn:E4; bprop; [rewrite decide_False by lia; done|].
    rewrite decide_True by lia. by rewrite <- Hbt, <- app_assoc.
  - rewrite decide_True by lia. assert (body_text r = []) as -> by (apply nil_length_inv; lia).
    by rewrite app_nil_r.
Qed.

(** The serializer is exact.  For an initialised response and a non-empty
    buffer, it returns [ENOSPC] precisely when the whole text (status line, every
    header, Content-Length for a non-chunked body, empty line, body) is longer
    than the buffer, and otherwise writes exactly that text; it never truncates
    a line or the body. *)
Theorem http1_serialize_exact r n :
  response_ok r -> 0 < n ->
  ioh_http1_serialize_response r n =
    if decide (length (response_text r) ≤ n) then Ok (response_text r) else Err ENOSPC.
Proof. apply serialize_text. Qed.

Lemma http1_serialize_exact_witness :
  ioh_http1_serialize_response demo_response 64 =
    Ok (bs "HTTP/1.1 200 OK" ++ crlf ++ bs "Content-Type: text/html" ++ crlf ++ crlf).
Proof.
  rewrite (http1_serialize_exact demo_response 64); [|exact demo_response_ok|lia].
  vm_compute. reflexivity.
Defined.
