(* ===== verification/PicoResponse.v ===== *)
(** * Responses in picohttpparser

    The parsers of [src/src/http/picohttpparser.c] for responses and for bare header
    blocks, on the header lines of [Pico]; and what the server's serializer writes
    ([Http1]) read back with them. *)
From S2P Require Import Prelude CString Request RequestThms Pico PicoThms Response ResponseThms Http1 Http1Thms.
Local Open Scope nat_scope.

(** ** The status line *)

(** [PARSE_INT_3]; the caller has checked that there are four bytes. *)
Definition parse_int_3 (pos : nat) (rest : bytes) : pres Z :=
  match rest with
  | a :: b :: c :: rest' =>
      if is_digit a then
        if is_digit b then
          if is_digit c then PDone (100 * digit_val a + 10 * digit_val b + digit_val c)%Z (pos + 3) rest' else PFail
        else PFail
      else PFail
  | _ => PPartial
  end.

(** The loop over the blanks before the message; it is entered at a blank. *)
Fixpoint skip_msg (rest : bytes) (off len : nat) : tokn :=
  match rest with
  | b :: rest => if b =b SP then skip_msg rest (S off) (len - 1) else mk_tok off len
  | [] => mk_tok off len
  end.

(** The message behind the status code, without its blanks; other bytes before it make
    the response malformed. *)
Definition parse_message (simd : bool) (pos : nat) (rest : bytes) : pres tokn :=
  pbind (get_token_to_eol simd pos rest) (fun m pos' rest' =>
    if t_len m =? 0 then PDone m pos' rest'
    else if char_at rest 0 =b SP then PDone (skip_msg rest (t_off m) (t_len m)) pos' rest'
    else PFail).

(** The blanks before the status code: one at least. *)
Definition skip_status_blanks (pos : nat) (rest : bytes) : pres unit :=
  match rest with
  | [] => PPartial
  | b :: rest => if b =b SP then skip_spaces (S pos) rest else PFail
  end.

Record phr_response := mk_phr_response {
  ps_minor_version : Z;
  ps_status : Z;
  ps_msg : tokn;
  ps_headers : list phr_header;
}.

Definition parse_response (simd : bool) (max_headers pos : nat) (rest : bytes) : pres phr_response :=
  pbind (parse_http_version pos rest) (fun minor pos rest =>
  pbind (skip_status_blanks pos rest) (fun _ pos rest =>
    if length rest <? 4 then PPartial else
  pbind (parse_int_3 pos rest) (fun status pos rest =>
  pbind (parse_message simd pos rest) (fun msg pos rest =>
  pbind (parse_headers simd (S (length rest)) [] max_headers pos rest) (fun hs pos rest =>
    PDone (mk_phr_response minor status msg hs) pos rest))))).

(** ** The entry points *)

(** Once part of the input has been seen, the rest is parsed only when it is complete. *)
Definition when_complete {A} (buf : bytes) (last_len : nat) (go : pres A) : pres A :=
  if last_len =? 0 then go
  else match is_complete buf last_len with
       | PDone _ _ _ => go
       | PFail => PFail
       | PPartial => PPartial
       end.

Definition phr_parse_response (simd : bool) (buf : bytes) (max_headers last_len : nat) : pres phr_response :=
  when_complete buf last_len (parse_response simd max_headers 0 buf).

Definition phr_parse_headers (simd : bool) (buf : bytes) (max_headers last_len : nat) : pres (list phr_header) :=
  when_complete buf last_len (parse_headers simd (S (length buf)) [] max_headers 0 buf).

(** ** Both builds agree *)

Lemma parse_response_simd simd mx pos rest : parse_response simd mx pos rest = parse_response false mx pos rest.
Proof.
  unfold parse_response. destruct (parse_http_version pos rest) as [v p r| |]; [|done..]. cbn [pbind].
  destruct (skip_status_blanks p r) as [? p1 r1| |]; [|done..]. cbn [pbind]. destruct (_ <? 4); [done|].
  destruct (parse_int_3 p1 r1) as [st p2 r2| |]; [|done..]. cbn [pbind]. unfold parse_message. rewrite !get_token_to_eol_scalar.
  destruct (pbind (eol_loop p2 p2 r2) _) as [m p3 r3| |]; [|done..]. cbn [pbind]. by rewrite (parse_headers_simd simd).
Qed.

(** ** More input *)

Definition message_of (pos : nat) (rest : bytes) : pres tokn := parse_message false pos rest.

Lemma skip_msg_more rest more off len : Exists (fun b => b ≠ SP) rest -> skip_msg (rest ++ more) off len = skip_msg rest off len.
Proof.
  intros H. revert off len. induction H as [b rest Hb|b rest _ IH]; intros off len; cbn [app skip_msg].
  - by apply beq_false in Hb as ->.
  - destruct (b =b SP); [apply IH|done].
Qed.

Lemma eol_not_blank start pos rest t p r : eol_loop start pos rest = PDone t p r -> Exists (fun b => b ≠ SP) rest.
Proof.
  revert pos. induction rest as [|b rest IH]; intros pos; [done|]. cbn [eol_loop]. destruct (is_ctl b) eqn:E.
  - intros _. apply Exists_cons_hd. intros ->. done.
  - intros H. apply Exists_cons_tl. by eapply IH.
Qed.

Lemma stable_message : stable message_of.
Proof.
  intros pos rest more. unfold message_of, parse_message. rewrite !get_token_to_eol_scalar.
  pose proof (stable_eol_loop pos pos rest more) as Hs. destruct (eol_loop pos pos rest) as [m p r| |] eqn:E; [|by rewrite Hs|done].
  rewrite Hs. cbn [pbind]. destruct (t_len m =? 0); [done|]. pose proof (eol_not_blank _ _ _ _ _ _ E) as Hb.
  rewrite skip_msg_more by done. replace (char_at (rest ++ more) 0) with (char_at rest 0) by (destruct rest; [by inversion Hb|done]).
  by destruct (char_at rest 0 =b SP).
Qed.

Lemma moves_message : moves message_of.
Proof.
  intros pos rest a p r. unfold message_of, parse_message. rewrite get_token_to_eol_scalar.
  destruct (eol_loop pos pos rest) as [m p1 r1| |] eqn:E; [|done..]. cbn [pbind]. intros H. apply (moves_eol_loop pos _ _ m).
  rewrite E. destruct (t_len m =? 0); [by injection H as <- <- <-|]. destruct (char_at rest 0 =b SP); [|done]. by injection H as _ <- <-.
Qed.

Lemma stable_status_blanks : stable skip_status_blanks.
Proof. intros pos [|b rest] more; [done|]. cbn [app skip_status_blanks]. destruct (b =b SP); [apply stable_skip_spaces|done]. Qed.

Lemma moves_status_blanks : moves skip_status_blanks.
Proof.
  intros pos [|b rest] a p r; [done|]. cbn [skip_status_blanks]. destruct (b =b SP); [|done]. intros (s & -> & ->)%moves_skip_spaces.
  exists (b :: s). split; [done|simpl; lia].
Qed.

Definition status_code (pos : nat) (rest : bytes) : pres Z := if length rest <? 4 then PPartial else parse_int_3 pos rest.

Lemma stable_status_code : stable status_code.
Proof.
  intros pos rest more. unfold status_code. destruct (length rest <? 4) eqn:E; [done|]. bprop.
  replace (length (rest ++ more) <? 4) with false by (symmetry; apply Nat.ltb_ge; rewrite length_app; lia).
  destruct rest as [|a [|b [|c rest]]]; try (simpl in E; lia). cbn [app parse_int_3]. by destruct (is_digit a), (is_digit b), (is_digit c).
Qed.

Lemma moves_status_code : moves status_code.
Proof.
  intros pos rest a p r. unfold status_code. destruct (length rest <? 4); [done|]. destruct rest as [|x [|y [|z rest]]]; try done. cbn [parse_int_3].
  destruct (is_digit x), (is_digit y), (is_digit z); try done. intros [= <- <- <-]. by exists [x; y; z].
Qed.

Lemma parse_response_eq mx pos rest :
  parse_response false mx pos rest =
  pbind (parse_http_version pos rest) (fun minor pos rest =>
  pbind (skip_status_blanks pos rest) (fun _ pos rest =>
  pbind (status_code pos rest) (fun status pos rest =>
  pbind (message_of pos rest) (fun msg pos rest =>
  pbind (headers_of mx pos rest) (fun hs pos rest =>
    PDone (mk_phr_response minor status msg hs) pos rest))))).
Proof.
  unfold parse_response. destruct (parse_http_version pos rest) as [v p r| |]; [|done..]. cbn [pbind].
  destruct (skip_status_blanks p r) as [? p1 r1| |]; [|done..]. cbn [pbind]. unfold status_code. by destruct (_ <? 4).
Qed.

Lemma stable_response mx : stable (parse_response false mx).
Proof.
  intros pos rest more. rewrite !parse_response_eq. revert pos rest more.
  refine (stable_bind parse_http_version _ stable_version _). intros v.
  refine (stable_bind skip_status_blanks _ stable_status_blanks _). intros _.
  refine (stable_bind status_code _ stable_status_code _). intros st.
  refine (stable_bind message_of _ stable_message _). intros m.
  refine (stable_bind (headers_of mx) _ (stable_headers mx) _). intros hs. apply stable_done.
Qed.

Lemma moves_response mx : moves (parse_response false mx).
Proof.
  intros pos rest a p r. rewrite parse_response_eq. revert pos rest a p r.
  refine (moves_bind parse_http_version _ moves_version _). intros v.
  refine (moves_bind skip_status_blanks _ moves_status_blanks _). intros _.
  refine (moves_bind status_code _ moves_status_code _). intros st.
  refine (moves_bind message_of _ moves_message _). intros m.
  refine (moves_bind (headers_of mx) _ (moves_headers mx) _). intros hs. apply moves_done.
Qed.

(** ** What the serializer writes *)

(** The headers of a response as a client sees them. *)
Definition sent_headers (r : ioh_response_t) : list (bytes * bytes) :=
  ((fun h => (h_name h, h_value h)) <$> r_headers r)
  ++ (if (0 <? r_body_len r)%Z && negb (r_chunked r) then [(bs "Content-Length", print_dec (r_body_len r))] else []).

Lemma response_text_eq r :
  response_text r = bs "HTTP/1.1 " ++ print_dec (r_status r) ++ SP :: ioh_status_text (r_status r) ++ CRLF
                    ++ mjoin (render_header <$> sent_headers r) ++ CRLF ++ body_text r.
Proof.
  unfold response_text, head_pieces, sent_headers, status_line. change crlf with CRLF.
  assert (Hh : forall (hs : list ioh_header_t) l,
    mjoin ((header_field <$> hs) ++ l) = mjoin (render_header <$> ((fun h => (h_name h, h_value h)) <$> hs)) ++ mjoin l).
  { intros hs l. rewrite join_app. f_equal. induction hs as [|h hs IH]; [done|].
    change (header_field h ++ mjoin (header_field <$> hs) = header_field h ++ mjoin (render_header <$> ((fun h => (h_name h, h_value h)) <$> hs))). by rewrite IH. }
  match goal with |- mjoin (?x :: ?l) ++ _ = _ => change (mjoin (x :: l)) with (x ++ mjoin l) end. rewrite Hh, fmap_app, join_app. repeat rewrite <- app_assoc. cbn [app]. repeat rewrite <- app_assoc.
  do 5 f_equal. by destruct (_ && _).
Qed.

Definition clean_text (t : bytes) : bool := forallb (fun b => negb (is_ctl b)) t && negb (char_at t 0 =b SP) && negb (length t =? 0).

Lemma status_text_clean st : clean_text (ioh_status_text st) = true.
Proof.
  unfold ioh_status_text. destruct (list_find _ _) as [[i [c t]]|] eqn:E; [|by vm_compute]. apply list_find_Some in E as (Hl & _).
  assert (Ha : Forall (fun e : Z * bytes => clean_text (snd e) = true) status_texts) by bcompute.
  rewrite Forall_lookup in Ha. exact (Ha _ _ Hl).
Qed.

Lemma three_digits st : (100 <= st <= 999)%Z ->
  exists a b c, print_dec st = [a; b; c] /\ is_digit a = true /\ is_digit b = true /\ is_digit c = true
    /\ st = (100 * digit_val a + 10 * digit_val b + digit_val c)%Z.
Proof.
  intros H. pose proof (print_dec_digits st ltac:(lia)) as Hd. pose proof (dec_val_print_dec st ltac:(lia)) as Hv.
  pose proof (print_dec_length st 3 ltac:(simpl; lia) ltac:(lia)) as Hl. revert Hd Hv Hl. unfold dec_val.
  assert (Hr : forall b, is_digit b = true -> (0 <= digit_val b <= 9)%Z) by (intros b Hb; unfold is_digit, digit_val in *; lia).
  destruct (print_dec st) as [|a [|b [|c [|]]]]; cbn [fold_left length]; intros Hd Hv Hl; repeat apply Forall_cons in Hd as [? Hd];
    repeat match goal with Hb : is_digit _ = true |- _ => pose proof (Hr _ Hb); revert Hb end; intros; try lia.
  exists a, b, c. split_and!; try done. lia.
Qed.

Lemma digit_plain b : is_digit b = true -> is_ctl b = false /\ blank b = false.
Proof. destruct b; vm_compute; intros H; first [discriminate H|done]. Qed.

Lemma content_length_wf n : (0 <= n)%Z -> header_wf (bs "Content-Length", print_dec n).
Proof.
  intros Hn. pose proof (print_dec_digits n Hn) as Hd. pose proof (print_dec_nonempty n Hn) as Hl.
  assert (Hb : forall i, i < length (print_dec n) -> blank (char_at (print_dec n) i) = false).
  { intros i [b Hi]%lookup_lt_is_Some. rewrite Forall_lookup in Hd. unfold char_at. rewrite Hi. apply digit_plain, (Hd i), Hi. }
  split; [done|]. split; [bcompute|]. split; [eapply Forall_impl; [exact Hd|]; intros b Hdb; by apply digit_plain|].
  split; apply Hb; cbn [snd]; lia.
Qed.

Lemma sent_headers_wf r :
  Forall (fun h => header_wf (h_name h, h_value h)) (r_headers r) -> (0 <= r_body_len r)%Z -> Forall header_wf (sent_headers r).
Proof.
  intros Hh Hl. unfold sent_headers. apply Forall_app. split; [by apply Forall_fmap|].
  destruct (_ && _); [|done]. by apply Forall_cons; split; [apply content_length_wf|].
Qed.

Lemma parse_message_render pos txt rest :
  clean_text txt = true ->
  message_of pos (SP :: txt ++ CRLF ++ rest) = PDone (mk_tok (S pos) (length txt)) (pos + length txt + 3) rest.
Proof.
  intros [[Hc Hs]%andb_prop Hne]%andb_prop. unfold message_of, parse_message. rewrite get_token_to_eol_scalar.
  assert (Hv : Forall (fun b => is_ctl b = false) (SP :: txt)).
  { constructor; [done|]. rewrite Forall_forall. intros b Hb%list_elem_of_In. rewrite forallb_forall in Hc.
    specialize (Hc b Hb). by apply negb_true_iff in Hc. }
  change (SP :: txt ++ CRLF ++ rest) with ((SP :: txt) ++ CRLF ++ rest). rewrite eol_cut by done. cbn [pbind t_len t_off length Nat.eqb].
  change (char_at ((SP :: txt) ++ CRLF ++ rest) 0) with SP. rewrite beq_refl. cbn [app skip_msg]. rewrite beq_refl.
  destruct txt as [|b txt]; [done|]. cbn [app skip_msg]. change (char_at (b :: txt) 0) with b in Hs. apply negb_true_iff in Hs. rewrite Hs.
  f_equal. simpl. lia.
Qed.

Lemma parse_response_render st hs mx rest :
  (100 <= st <= 999)%Z -> Forall header_wf hs -> length hs ≤ mx ->
  let pre := bs "HTTP/1.1 " ++ print_dec st ++ SP :: ioh_status_text st ++ CRLF in
  parse_response false mx 0 (pre ++ mjoin (render_header <$> hs) ++ CRLF ++ rest)
  = PDone (mk_phr_response 1 st (mk_tok 13 (length (ioh_status_text st))) (header_toks (length pre) hs))
      (length pre + length (mjoin (render_header <$> hs)) + 2) rest.
Proof.
  intros Hst Hh Hmx pre. destruct (three_digits st Hst) as (a & b & c & Hd & Ha & Hb & Hc & Hv). unfold pre. rewrite Hd, parse_response_eq.
  set (tl := mjoin (render_header <$> hs) ++ CRLF ++ rest). rewrite <- !app_assoc. cbn [app].
  assert (Hver : forall k, parse_http_version 0 (bs "HTTP/1.1 " ++ k) = PDone 1%Z 8 (SP :: k)) by (intros k; reflexivity).
  rewrite Hver. cbn [pbind skip_status_blanks]. rewrite beq_refl. cbn [skip_spaces].
  assert (Hna : (a =b SP) = false) by (apply beq_false; intros ->; done). rewrite Hna. cbn [pbind].
  unfold status_code. cbn [length Nat.ltb Nat.leb parse_int_3]. rewrite Ha, Hb, Hc. cbn [pbind]. rewrite <- Hv.
  rewrite <- app_assoc. cbn [app]. change (CR :: LF :: tl) with (CRLF ++ tl). rewrite parse_message_render by apply status_text_clean. cbn [pbind].
  unfold headers_of, tl. rewrite (parse_headers_render _ [] mx) by (done || (rewrite !length_app; unfold CRLF; simpl length; lia)).
  cbn [pbind rev app]. unfold CRLF. repeat (rewrite length_app || cbn [length]). f_equal; [f_equal; f_equal; simpl; lia|]. simpl. lia.
Qed.

Lemma response_text_reads simd r mx more :
  response_ok r -> (100 <= r_status r <= 999)%Z -> Forall (fun h => header_wf (h_name h, h_value h)) (r_headers r) ->
  length (sent_headers r) ≤ mx ->
  let out := response_text r in
  exists q k, phr_parse_response simd (out ++ more) mx 0 = PDone q k (body_text r ++ more)
    /\ ps_minor_version q = 1%Z /\ ps_status q = r_status r /\ text (out ++ more) (ps_msg q) = ioh_status_text (r_status r)
    /\ header_text (out ++ more) <$> ps_headers q = (fun h => (Some (fst h), snd h)) <$> sent_headers r.
Proof.
  intros Hr Hst Hh Hmx out. pose proof Hr as [_ _ _ _ (b & _ & Hb & _)]. unfold out.
  pose proof (parse_response_render (r_status r) (sent_headers r) mx (body_text r ++ more) Hst (sent_headers_wf r Hh ltac:(lia)) Hmx) as Hp.
  cbn zeta in Hp. set (pre := bs "HTTP/1.1 " ++ _) in Hp.
  assert (Ht : response_text r ++ more = pre ++ mjoin (render_header <$> sent_headers r) ++ CRLF ++ body_text r ++ more).
  { rewrite response_text_eq. unfold pre. repeat (rewrite <- app_assoc; cbn [app]). done. }
  eexists _, _. rewrite Ht. split; [unfold phr_parse_response, when_complete; cbn [Nat.eqb]; rewrite parse_response_simd; exact Hp|].
  cbn [ps_minor_version ps_status ps_msg ps_headers]. split_and!; [done|done| |apply header_texts].
  destruct (three_digits _ Hst) as (x & y & z & Hd & _). unfold pre. rewrite Hd.
  change 13 with (length (bs "HTTP/1.1 " ++ [x; y; z; SP])). rewrite <- (app_assoc (bs "HTTP/1.1 ")). cbn [app]. rewrite <- app_assoc.
  apply (text_app (bs "HTTP/1.1 " ++ [x; y; z; SP])).
Qed.

(** ** The properties *)

(** More input never changes what was decided.  What either build accepts as a response
    stays accepted, with the same fields and the same end, whatever follows; what it
    refuses stays refused; and the bytes consumed are a prefix of the input. *)
Theorem response_parser_stable simd buf more mx :
  match phr_parse_response simd buf mx 0 with
  | PDone q n rest => phr_parse_response simd (buf ++ more) mx 0 = PDone q n (rest ++ more) /\ n ≤ length buf /\ rest = drop n buf
  | PFail => phr_parse_response simd (buf ++ more) mx 0 = PFail
  | PPartial => True
  end.
Proof.
  unfold phr_parse_response, when_complete. cbn [Nat.eqb]. rewrite !(parse_response_simd simd).
  pose proof (stable_response mx 0 buf more) as Hs. destruct (parse_response false mx 0 buf) as [q n rest| |] eqn:E; [|exact Hs|done].
  destruct (moves_response mx _ _ _ _ _ E) as (s & Hb & Hn). simpl in Hn. subst n buf. split; [exact Hs|].
  rewrite length_app. split; [lia|]. by rewrite drop_app_length.
Qed.

(** What the server writes, its parser reads.  For every initialised response with a
    status of three digits and headers of token names and values without control characters
    or surrounding blanks, that fits the buffer, the serialized bytes followed by anything
    parse, in both builds of the parser, as a response of version 1.1 with the given status, the status's text
    and exactly the headers set, in order, followed by Content-Length for a body that is
    not chunked; the parser stops where the body starts. *)
Theorem response_reads_back simd r n mx more :
  response_ok r -> (100 <= r_status r <= 999)%Z -> Forall (fun h => header_wf (h_name h, h_value h)) (r_headers r) ->
  length (sent_headers r) ≤ mx -> length (response_text r) ≤ n ->
  exists out q k, ioh_http1_serialize_response r n = Ok out
    /\ phr_parse_response simd (out ++ more) mx 0 = PDone q k (body_text r ++ more)
    /\ ps_minor_version q = 1%Z /\ ps_status q = r_status r /\ text (out ++ more) (ps_msg q) = ioh_status_text (r_status r)
    /\ header_text (out ++ more) <$> ps_headers q = (fun h => (Some (fst h), snd h)) <$> sent_headers r.
Proof.
  intros Hr Hst Hh Hmx Hn. destruct (response_text_reads simd r mx more Hr Hst Hh Hmx) as (q & k & H).
  exists (response_text r), q, k. split; [|exact H].
  rewrite serialize_text; [by rewrite decide_True|done|]. rewrite response_text_eq in Hn. simpl in Hn. lia.
Qed.

Lemma response_reads_back_witness :
  exists out q k, ioh_http1_serialize_response demo_response 64 = Ok out
    /\ phr_parse_response true (out ++ bs "HTTP") 8 0 = PDone q k (bs "HTTP") /\ ps_status q = 200%Z
    /\ header_text (out ++ bs "HTTP") <$> ps_headers q = [(Some (bs "Content-Type"), bs "text/html")].
Proof.
  destruct (response_reads_back true demo_response 64 8 (bs "HTTP")) as (out & q & k & E1 & E2 & _ & E3 & _ & E4);
    [exact demo_response_ok|vm_compute; split; discriminate|bcompute|nle|nle|].
  exists out, q, k. split; [exact E1|]. split; [exact E2|]. split; [exact E3|exact E4].
Defined.
