(* ===== verification/Cookie.v ===== *)
(** The Set-Cookie builder ([src/src/http/ioh_cookie.h], [ioh_cookie.c]). *)
From S2P Require Import Prelude CString RequestThms.

(** ** Data *)

Inductive ioh_same_site_t :=
| IOH_SAME_SITE_DEFAULT | IOH_SAME_SITE_LAX | IOH_SAME_SITE_STRICT | IOH_SAME_SITE_NONE.

#[export] Instance same_site_eq_dec : EqDecision ioh_same_site_t.
Proof. solve_decision. Defined.

Record ioh_cookie_t := mk_cookie {
  ck_name : option bytes;
  ck_value : option bytes;
  ck_domain : option bytes;
  ck_path : option bytes;
  ck_max_age : Z;
  ck_same_site : ioh_same_site_t;
  ck_secure : bool;
  ck_http_only : bool;
}.

Definition IOH_COOKIE_NAME_MAX : nat := 256.

(** ** Operations *)

(** The byte tests of the validation loop. *)
Definition cookie_name_char (b : byte) : bool :=
  let ch := b2z b in
  negb ((ch <=? 31) || (ch =? 127))%Z
  && negb ((b =b "="%byte) || (b =b ";"%byte) || (b =b SP) || (b =b HT)).

Definition ioh_cookie_validate_name (name : option bytes) : res unit :=
  match name with
  | None => Err EINVAL
  | Some name =>
      let len := strnlen name (IOH_COOKIE_NAME_MAX + 1) in
      if (len =? 0) || (IOH_COOKIE_NAME_MAX <? len) then Err EINVAL
      else if forallb cookie_name_char (take len name) then Ok () else Err EINVAL
  end.

(** One [snprintf] at the write position: the text so far, or [-ENOSPC]. *)
Definition put (buf_size : nat) (o : res bytes) (s : bytes) : res bytes :=
  match o with
  | Ok text => if buf_size <=? length text + length s then Err ENOSPC else Ok (text ++ s)
  | Err e => Err e
  end.

(** [PRId64] of a non-negative number, [%s] of a nullable string. *)
Definition opt_attr (prefix : bytes) (s : option bytes) : option bytes :=
  (fun s => prefix ++ c_str s) <$> s.

Definition same_site_attr (s : ioh_same_site_t) : bytes :=
  match s with
  | IOH_SAME_SITE_LAX => bs "; SameSite=Lax"
  | IOH_SAME_SITE_STRICT => bs "; SameSite=Strict"
  | IOH_SAME_SITE_NONE => bs "; SameSite=None"
  | IOH_SAME_SITE_DEFAULT => []
  end.

Definition put_opt (buf_size : nat) (o : res bytes) (s : option bytes) : res bytes :=
  match s with Some s => put buf_size o s | None => o end.

Definition ioh_cookie_serialize (c : ioh_cookie_t) (buf_size : nat) : res bytes :=
  if buf_size =? 0 then Err EINVAL else
  match ioh_cookie_validate_name (ck_name c) with
  | Err e => Err e
  | Ok _ =>
      match ck_value c with
      | None => Err EINVAL
      | Some value =>
          let secure := if bool_decide (ck_same_site c = IOH_SAME_SITE_NONE) then true else ck_secure c in
          let o := put buf_size (Ok []) (c_str (default [] (ck_name c)) ++ bs "=" ++ c_str value) in
          let o := put_opt buf_size o (opt_attr (bs "; Domain=") (ck_domain c)) in
          let o := put_opt buf_size o (opt_attr (bs "; Path=") (ck_path c)) in
          let o := if (0 <=? ck_max_age c)%Z
                   then put buf_size o (bs "; Max-Age=" ++ print_dec (ck_max_age c)) else o in
          let o := put buf_size o (same_site_attr (ck_same_site c)) in
          let o := if secure then put buf_size o (bs "; Secure") else o in
          if ck_http_only c then put buf_size o (bs "; HttpOnly") else o
      end
  end.

(** ** Specification *)

(** The attributes of a cookie, in order. *)
Definition cookie_attributes (c : ioh_cookie_t) : list bytes :=
  match ck_domain c with Some d => [bs "Domain=" ++ d] | None => [] end
  ++ match ck_path c with Some p => [bs "Path=" ++ p] | None => [] end
  ++ (if decide (0 <= ck_max_age c)%Z then [bs "Max-Age=" ++ print_dec (ck_max_age c)] else [])
  ++ match ck_same_site c with
     | IOH_SAME_SITE_LAX => [bs "SameSite=Lax"]
     | IOH_SAME_SITE_STRICT => [bs "SameSite=Strict"]
     | IOH_SAME_SITE_NONE => [bs "SameSite=None"]
     | IOH_SAME_SITE_DEFAULT => []
     end
  ++ (if decide (ck_secure c = true \/ ck_same_site c = IOH_SAME_SITE_NONE) then [bs "Secure"] else [])
  ++ (if ck_http_only c then [bs "HttpOnly"] else []).

Definition cookie_text (c : ioh_cookie_t) (name value : bytes) : bytes :=
  name ++ bs "=" ++ value ++ mjoin ((fun a => bs "; " ++ a) <$> cookie_attributes c).

(** Strings without a NUL. *)
Definition cookie_strings (c : ioh_cookie_t) : Prop :=
  forall s, s ∈ [ck_name c; ck_value c; ck_domain c; ck_path c] -> forall b, s = Some b -> NUL ∉ b.

(** ** Lemmas *)

Lemma put_all n l text :
  length text < n ->
  fold_left (put n) l (Ok text) =
    if decide (length (text ++ mjoin l) < n) then Ok (text ++ mjoin l) else Err ENOSPC.
Proof.
  revert text. induction l as [|s l IH]; intros text Ht; cbn [fold_left].
  - cbn. rewrite app_nil_r, decide_True by done. done.
  - change (mjoin (s :: l)) with (s ++ mjoin l). cbn [put].
    destruct (n <=? length text + length s) eqn:E; bprop.
    + assert (Hn : forall l, fold_left (put n) l (Err ENOSPC) = Err ENOSPC) by (induction l0; done).
      rewrite Hn, decide_False; [done|]. rewrite !length_app. lia.
    + rewrite IH by llia. by rewrite <- app_assoc.
Qed.

(** The pieces the builder writes, in order. *)
Definition cookie_pieces (c : ioh_cookie_t) (name value : bytes) : list bytes :=
  [name ++ bs "=" ++ value]
  ++ option_list (opt_attr (bs "; Domain=") (ck_domain c))
  ++ option_list (opt_attr (bs "; Path=") (ck_path c))
  ++ (if (0 <=? ck_max_age c)%Z then [bs "; Max-Age=" ++ print_dec (ck_max_age c)] else [])
  ++ [same_site_attr (ck_same_site c)]
  ++ (if bool_decide (ck_same_site c = IOH_SAME_SITE_NONE) || ck_secure c then [bs "; Secure"] else [])
  ++ (if ck_http_only c then [bs "; HttpOnly"] else []).

Lemma serialize_pieces c name value n :
  0 < n -> ck_name c = Some name -> ck_value c = Some value -> ioh_cookie_validate_name (Some name) = Ok () ->
  ioh_cookie_serialize c n = fold_left (put n) (cookie_pieces c (c_str name) (c_str value)) (Ok []).
Proof.
  intros Hn Hname Hval Hv. unfold ioh_cookie_serialize, cookie_pieces.
  test_false (n =? 0).
  rewrite Hname, Hv, Hval. unfold put_opt. cbv zeta. rewrite !fold_left_app.
  destruct (opt_attr (bs "; Domain=") (ck_domain c)), (opt_attr (bs "; Path=") (ck_path c)),
    (0 <=? ck_max_age c)%Z, (bool_decide _), (ck_secure c), (ck_http_only c); reflexivity.
Qed.

Lemma pieces_text c name value :
  cookie_strings c -> mjoin (cookie_pieces c name value) = cookie_text c name value.
Proof.
  intros Hs. unfold cookie_pieces, cookie_text, cookie_attributes, opt_attr.
  assert (Hd : forall s b, s ∈ [ck_name c; ck_value c; ck_domain c; ck_path c] -> s = Some b -> c_str b = b).
  { intros s b Hin ->. apply c_str_id, no_nul_forall. by apply (Hs _ Hin). }
  rewrite !fmap_app, !join_app, !app_assoc.
  f_equal; [f_equal; [f_equal; [f_equal; [f_equal; [f_equal|]|]|]|]|].
  - apply app_nil_r.
  - destruct (ck_domain c) as [d|] eqn:E; [|reflexivity]. cbn. rewrite (Hd (Some d) d); [done| |done].
    rewrite <- E. set_solver.
  - destruct (ck_path c) as [d|] eqn:E; [|reflexivity]. cbn. rewrite (Hd (Some d) d); [done| |done].
    rewrite <- E. set_solver.
  - destruct (0 <=? ck_max_age c)%Z eqn:E; bprop; [rewrite decide_True by done|rewrite decide_False by lia];
    reflexivity.
  - by destruct (ck_same_site c).
  - rewrite (orb_comm _ (ck_secure c)). destruct (decide _) as [Hx|Hx].
    + destruct Hx as [-> | ->]; [done|]. by rewrite bool_decide_eq_true_2, orb_true_r.
    + destruct (ck_secure c); [naive_solver|]. rewrite bool_decide_eq_false_2 by naive_solver. done.
  - by destruct (ck_http_only c).
Qed.

Lemma validate_name_ok name :
  NUL ∉ name ->
  ioh_cookie_validate_name (Some name) = Ok () <->
  name ≠ [] /\ length name ≤ IOH_COOKIE_NAME_MAX /\ Forall (fun b => cookie_name_char b = true) name.
Proof.
  intros Hn. unfold ioh_cookie_validate_name.
  assert (Hl : strnlen name (IOH_COOKIE_NAME_MAX + 1) = Nat.min (length name) (IOH_COOKIE_NAME_MAX + 1)).
  { unfold strnlen, strlen. by rewrite c_str_id by by apply no_nul_forall. }
  rewrite Hl. destruct (_ || _) eqn:E.
  - split; [done|]. intros (Hne & Hle & _). apply orb_true_iff in E as [E|E]; bprop; destruct name; simpl in *; lia || done.
  - bprop. rewrite take_ge by lia. destruct (forallb _ name) eqn:Ef.
    + split; [|done]. intros _. split_and!; [intros ->; simpl in *; lia|lia|].
      apply Forall_forall. rewrite forallb_forall in Ef. intros x Hx. apply Ef. by apply list_elem_of_In.
    + split; [done|]. intros (_ & _ & Hf). rewrite Forall_forall in Hf.
      assert (forallb cookie_name_char name = true) as Ht; [|by rewrite Ht in Ef].
      apply forallb_forall. intros x Hx. apply Hf. by apply list_elem_of_In.
Qed.

(** ** The property *)

(** The Set-Cookie text is exact.  For NUL-free strings and a non-empty
    buffer, the builder refuses (with [EINVAL]) exactly the names that are empty,
    longer than 256 bytes or hold a control character, a separator or a blank,
    and missing values; otherwise it returns name=value followed by precisely the
    attributes asked for, each after a semicolon and a blank, with Secure forced by
    SameSite=None, and [ENOSPC] exactly when that text and its terminator do not
    fit. *)
Theorem cookie_serialize_exact c name value n :
  cookie_strings c -> 0 < n -> ck_name c = Some name -> ck_value c = Some value ->
  ioh_cookie_serialize c n =
    if decide (name ≠ [] /\ length name ≤ IOH_COOKIE_NAME_MAX /\ Forall (fun b => cookie_name_char b = true) name)
    then if decide (length (cookie_text c name value) < n) then Ok (cookie_text c name value) else Err ENOSPC
    else Err EINVAL.
Proof.
  intros Hs Hn Hname Hval.
  assert (Hnn : NUL ∉ name) by (apply (Hs (Some name)); [rewrite Hname; set_solver|done]).
  assert (Hvn : NUL ∉ value) by (apply (Hs (Some value)); [rewrite Hval; set_solver|done]).
  pose proof (validate_name_ok name Hnn) as Hv. destruct (decide _) as [Hd|Hd].
  - rewrite (serialize_pieces c name value) by (done || by apply Hv).
    rewrite put_all by (simpl; lia). cbn [app].
    rewrite !c_str_id by by apply no_nul_forall. by rewrite pieces_text.
  - unfold ioh_cookie_serialize. test_false (n =? 0).
    rewrite Hname. destruct (ioh_cookie_validate_name (Some name)) as [[]|e] eqn:E.
    + destruct Hd. by apply Hv.
    + revert E. unfold ioh_cookie_validate_name. destruct (_ || _); [congruence|]. by destruct (forallb _ _); [|congruence].
Qed.

Definition demo_cookie : ioh_cookie_t :=
  mk_cookie (Some (bs "sid")) (Some (bs "42")) None (Some (bs "/")) 60 IOH_SAME_SITE_NONE false true.

Lemma cookie_serialize_exact_witness :
  ioh_cookie_serialize demo_cookie 128 = Ok (bs "sid=42; Path=/; Max-Age=60; SameSite=None; Secure; HttpOnly").
Proof.
  rewrite (cookie_serialize_exact demo_cookie (bs "sid") (bs "42") 128); [vm_compute; reflexivity| |lia|reflexivity|reflexivity].
  intros s Hin b ->. cbn in Hin.
  repeat match goal with H : _ ∈ _ :: _ |- _ => apply elem_of_cons in H as [H|H] end;
    try discriminate; try (injection Hin as ->; bcompute). by apply not_elem_of_nil in Hin.
Defined.
