(* ===== verification/Ctx.v ===== *)
(** The request context ([src/src/core/ioh_ctx.h], [ioh_ctx.c]): the key-value
    store with destructors, the accessors, the response helpers and the bump
    allocator of the request's arena.

    A context of a request in flight has both its request and its response; the
    response is part of the context's state here, since the helpers write it.  A
    growing arena is moved by [realloc]: its blocks are numbered in the order of
    allocation, and a pointer into the arena is a block and an offset, so that a
    pointer into an earlier block is visibly stale. *)
From stdpp Require Import gmap.
From S2P Require Import Prelude CString PathNorm Radix Request Response Cookie.

(** ** Data *)

Definition IOH_CTX_MAX_VALUES : nat := 16.
Definition IOH_CTX_ARENA_DEFAULT : Z := 4096.

(** What a [void *] of the context's interface points to: an object of the
    application, a byte of a buffer that outlives the context, or the arena. *)
Inductive pointer :=
| PObj (n : Z)
| PBuf (s : bytes)
| PArena (block : nat) (off : Z).

#[export] Instance pointer_eq_dec : EqDecision pointer.
Proof. solve_decision. Defined.

Record ioh_ctx_value_t := mk_value {
  v_key : bytes;
  v_value : option pointer;
  v_destructor : option Z;             (* a function pointer *)
}.

(** [a_mem] holds the bytes written to the current block; a byte that was not
    written, or lies past the end of the list, is indeterminate. *)
Record ioh_arena_t := mk_arena {
  a_base : option nat;
  a_size : Z;
  a_used : Z;
  a_mem : list (option byte);
}.

Record ioh_ctx_t := mk_ctx {
  c_req : ioh_request_t;
  c_resp : ioh_response_t;
  c_arena : ioh_arena_t;
  c_values : list ioh_ctx_value_t;     (* the first [value_count] entries *)
  c_conn_fd : Z;
  c_aborted : bool;
}.

Definition with_resp (c : ioh_ctx_t) (r : ioh_response_t) : ioh_ctx_t :=
  mk_ctx (c_req c) r (c_arena c) (c_values c) (c_conn_fd c) (c_aborted c).
Definition with_arena (c : ioh_ctx_t) (a : ioh_arena_t) : ioh_ctx_t :=
  mk_ctx (c_req c) (c_resp c) a (c_values c) (c_conn_fd c) (c_aborted c).
Definition with_values (c : ioh_ctx_t) (vs : list ioh_ctx_value_t) : ioh_ctx_t :=
  mk_ctx (c_req c) (c_resp c) (c_arena c) vs (c_conn_fd c) (c_aborted c).

(** ** Lifecycle *)

(** A refused or failed initialisation leaves no usable context. *)
Definition ioh_ctx_init (req : option ioh_request_t) (resp : option ioh_response_t) (h : heap)
    : res ioh_ctx_t * heap :=
  match req, resp with
  | Some req, Some resp =>
      let '(ok, h) := xalloc h in
      if negb ok then (Err ENOMEM, h)
      else (Ok (mk_ctx req resp (mk_arena (Some 0) IOH_CTX_ARENA_DEFAULT 0 []) [] (-1) false), h)
  | _, _ => (Err EINVAL, h)
  end.

(** The calls of destructors, in order, with their arguments. *)
Fixpoint destructor_calls (vs : list ioh_ctx_value_t) : list (Z * pointer) :=
  match vs with
  | [] => []
  | v :: vs =>
      match v_destructor v, v_value v with
      | Some d, Some p => (d, p) :: destructor_calls vs
      | _, _ => destructor_calls vs
      end
  end.

Definition ioh_ctx_reset (c : ioh_ctx_t) : ioh_ctx_t * list (Z * pointer) :=
  let a := c_arena c in
  (mk_ctx (c_req c) (c_resp c) (mk_arena (a_base a) (a_size a) 0 (a_mem a)) [] (c_conn_fd c) false,
   destructor_calls (c_values c)).

Definition ioh_ctx_destroy (c : ioh_ctx_t) : ioh_ctx_t * list (Z * pointer) :=
  let '(c, calls) := ioh_ctx_reset c in
  (with_arena c (mk_arena None 0 (a_used (c_arena c)) []), calls).

(** ** Values *)

Definition key_is (key : bytes) (v : ioh_ctx_value_t) : bool := strcmp_eq (v_key v) key.

Definition ioh_ctx_set_with_destructor (c : ioh_ctx_t) (key : option bytes) (value : option pointer)
    (dtor : option Z) : ioh_ctx_t * res unit :=
  match key with
  | None => (c, Err EINVAL)
  | Some key =>
      match list_find (fun v => key_is key v = true) (c_values c) with
      | Some (i, v) => (with_values c (<[i := mk_value (v_key v) value dtor]> (c_values c)), Ok tt)
      | None =>
          if IOH_CTX_MAX_VALUES <=? length (c_values c) then (c, Err ENOSPC)
          else (with_values c (c_values c ++ [mk_value key value dtor]), Ok tt)
      end
  end.

Definition ioh_ctx_set (c : ioh_ctx_t) (key : option bytes) (value : option pointer) : ioh_ctx_t * res unit :=
  ioh_ctx_set_with_destructor c key value None.

Definition ioh_ctx_get (c : ioh_ctx_t) (key : option bytes) : option pointer :=
  match key with
  | None => None
  | Some key =>
      match list_find (fun v => key_is key v = true) (c_values c) with
      | Some (_, v) => v_value v
      | None => None
      end
  end.

(** ** Request accessors *)

Definition ioh_ctx_param (c : ioh_ctx_t) (name : bytes) : option bytes := ioh_request_param (c_req c) name.
Definition ioh_ctx_param_i64 (c : ioh_ctx_t) (name : bytes) : res Z := ioh_request_param_i64 (c_req c) name.
Definition ioh_ctx_param_u64 (c : ioh_ctx_t) (name : bytes) : res Z := ioh_request_param_u64 (c_req c) name.
Definition ioh_ctx_query (c : ioh_ctx_t) (name : bytes) : option bytes := ioh_request_query_param (c_req c) name.
Definition ioh_ctx_header (c : ioh_ctx_t) (name : bytes) : option bytes := ioh_request_header (c_req c) name.
Definition ioh_ctx_cookie (c : ioh_ctx_t) (name : bytes) : option bytes := ioh_request_cookie (c_req c) name.
Definition ioh_ctx_method (c : ioh_ctx_t) : ioh_method_t := method (c_req c).
Definition ioh_ctx_path (c : ioh_ctx_t) : option bytes := path (c_req c).
Definition ioh_ctx_body (c : ioh_ctx_t) : option bytes * Z := (body (c_req c), body_len (c_req c)).

(** ** Response helpers *)

(** What a helper does: its return code, the context and the allocator after it;
    [None] for a store out of bounds. *)
Definition ctx_step : Type := option (res unit * ioh_ctx_t * heap).

(** The effect of a builder call on the context's response. *)
Definition respond_with (c : ioh_ctx_t) (s : step) : ctx_step :=
  match s with
  | Some (rc, r, h) => Some (rc, with_resp c r, h)
  | None => None
  end.

Definition ioh_ctx_status (c : ioh_ctx_t) (status : Z) : ioh_ctx_t := with_resp c (with_status (c_resp c) status).

Definition ioh_ctx_set_header (h : heap) (c : ioh_ctx_t) (name value : option bytes) : ctx_step :=
  respond_with c (ioh_response_set_header h (c_resp c) name value).

Definition COOKIE_BUF : nat := 512.

Definition ioh_ctx_set_cookie (h : heap) (c : ioh_ctx_t) (cookie : option ioh_cookie_t) : ctx_step :=
  match cookie with
  | None => Some (Err EINVAL, c, h)
  | Some cookie =>
      match ioh_cookie_serialize cookie COOKIE_BUF with
      | Err e => Some (Err e, c, h)
      | Ok buf => respond_with c (ioh_response_add_header h (c_resp c) (Some (bs "Set-Cookie")) (Some buf))
      end
  end.

Definition ioh_ctx_json (h : heap) (c : ioh_ctx_t) (status : Z) (json : option bytes) : ctx_step :=
  respond_with c (ioh_respond_json h (c_resp c) status json).

Definition ioh_ctx_text (h : heap) (c : ioh_ctx_t) (status : Z) (text : option bytes) : ctx_step :=
  match text with
  | None => Some (Err EINVAL, c, h)
  | Some t => respond_with c (ioh_respond h (c_resp c) status (Some (bs "text/plain")) text
                                (Z.of_nat (strnlen t JSON_LIMIT)))
  end.

Definition ioh_ctx_html (h : heap) (c : ioh_ctx_t) (status : Z) (html : option bytes) : ctx_step :=
  match html with
  | None => Some (Err EINVAL, c, h)
  | Some t => respond_with c (ioh_respond h (c_resp c) status (Some (bs "text/html")) html
                                (Z.of_nat (strnlen t JSON_LIMIT)))
  end.

Definition ioh_ctx_blob (h : heap) (c : ioh_ctx_t) (status : Z) (content_type data : option bytes) (len : Z)
    : ctx_step :=
  respond_with c (ioh_respond h (c_resp c) status content_type data len).

Definition ioh_ctx_no_content (c : ioh_ctx_t) : ioh_ctx_t := with_resp c (with_status (c_resp c) 204).

Definition ioh_ctx_redirect (h : heap) (c : ioh_ctx_t) (status : Z) (url : option bytes) : ctx_step :=
  match url with
  | None => Some (Err EINVAL, c, h)
  | Some _ => respond_with c (ioh_response_set_header h (with_status (c_resp c) status) (Some (bs "Location")) url)
  end.

Definition ERROR_BUF : nat := 512.

(** The JSON text of an error answer. *)
Definition error_text (status : Z) (message : bytes) : bytes :=
  x7b :: DQUOTE :: bs "error" ++ DQUOTE :: x3a :: DQUOTE :: c_str message
  ++ DQUOTE :: x2c :: DQUOTE :: bs "status" ++ DQUOTE :: x3a :: print_dec status ++ [x7d].

Definition ioh_ctx_error (h : heap) (c : ioh_ctx_t) (status : Z) (message : option bytes) : ctx_step :=
  match message with
  | None => Some (Err EINVAL, c, h)
  | Some m =>
      let buf := error_text status m in
      if ERROR_BUF <=? length buf then Some (Err ENOMEM, c, h)
      else respond_with c (ioh_respond_json h (c_resp c) status (Some buf))
  end.

Definition ioh_ctx_abort (c : ioh_ctx_t) : ioh_ctx_t :=
  mk_ctx (c_req c) (c_resp c) (c_arena c) (c_values c) (c_conn_fd c) true.

(** ** The arena *)

(** The doubling loop; [None] when it did not end within the fuel. *)
Fixpoint grow_size (fuel : nat) (new_size needed : Z) : option Z :=
  if (new_size <? needed)%Z then
    match fuel with
    | O => None
    | S fuel => grow_size fuel (u64 (new_size * 2)) needed
    end
  else Some new_size.

(** Sixty-four doublings exceed every [size_t]. *)
Definition GROW_FUEL : nat := 64.

(** [None] when the loop does not end. *)
Definition arena_grow (a : ioh_arena_t) (needed : Z) (h : heap) : option (res ioh_arena_t * heap) :=
  match grow_size GROW_FUEL (a_size a) needed with
  | None => None
  | Some new_size =>
      let '(ok, h) := xalloc h in
      if negb ok then Some (Err ENOMEM, h)
      else Some (Ok (mk_arena (S <$> a_base a) new_size (a_used a) (a_mem a)), h)
  end.

Definition room (a : ioh_arena_t) (needed : Z) (h : heap) : option (res ioh_arena_t * heap) :=
  if (a_size a <? needed)%Z then arena_grow a needed h else Some (Ok a, h).

(** The result of an allocation: the pointer or null, the context and the
    allocator; [None] when the code does not return or the arena has no block. *)
Definition alloc_result : Type := option (option pointer * ioh_ctx_t * heap).

(** Hand out [size] bytes at [off]. *)
Definition bump (c : ioh_ctx_t) (a : ioh_arena_t) (off size : Z) (h : heap) : alloc_result :=
  match a_base a with
  | None => None
  | Some b => Some (Some (PArena b off), with_arena c (mk_arena (Some b) (a_size a) (u64 (off + size)) (a_mem a)), h)
  end.

Definition ioh_ctx_alloc (c : ioh_ctx_t) (size : Z) (h : heap) : alloc_result :=
  if (size =? 0)%Z then Some (None, c, h) else
  match room (c_arena c) (u64 (a_used (c_arena c) + size)) h with
  | None => None
  | Some (Err _, h) => Some (None, c, h)
  | Some (Ok a, h) => bump c a (a_used a) size h
  end.

Section Aligned.
(** The address of each block. *)
Variable addr : nat -> Z.

(** The padding in front of an object aligned to [align] at the end of [a]. *)
Definition padding (a : ioh_arena_t) (align : Z) : Z :=
  let cur := u64 (default 0%Z (addr <$> a_base a) + a_used a) in
  let mask := (align - 1)%Z in
  u64 (Z.land (u64 (cur + mask)) (u64 (Z.lnot mask)) - cur).

Definition ioh_ctx_alloc_aligned (c : ioh_ctx_t) (size align : Z) (h : heap) : alloc_result :=
  if (size =? 0)%Z || (align =? 0)%Z then Some (None, c, h) else
  if negb (Z.land align (align - 1) =? 0)%Z then Some (None, c, h) else
  let a := c_arena c in
  match room a (u64 (u64 (a_used a + padding a align) + size)) h with
  | None => None
  | Some (Err _, h) => Some (None, c, h)
  | Some (Ok a, h) => bump c a (u64 (a_used a + padding a align)) size h
  end.
End Aligned.

(** Write [s] at [off] of a block. *)
Definition write_at (m : list (option byte)) (off : nat) (s : bytes) : list (option byte) :=
  take off (m ++ replicate (off - length m) None) ++ (Some <$> s) ++ drop (off + length s) m.

(** [text] is what the format and its arguments expand to. *)
Definition ioh_ctx_sprintf (c : ioh_ctx_t) (text : bytes) (h : heap) : alloc_result :=
  match ioh_ctx_alloc c (Z.of_nat (length text) + 1) h with
  | Some (Some (PArena b off), c, h) =>
      let a := c_arena c in
      Some (Some (PArena b off),
            with_arena c (mk_arena (a_base a) (a_size a) (a_used a) (write_at (a_mem a) (Z.to_nat off) (text ++ [NUL]))),
            h)
  | r => r
  end.

(** The string an arena pointer denotes: none when its block is gone or a byte
    before the terminator is indeterminate. *)
Fixpoint read_str (m : list (option byte)) : option bytes :=
  match m with
  | Some b :: m => if b =b NUL then Some [] else cons b <$> read_str m
  | _ => None
  end.

Definition deref (c : ioh_ctx_t) (p : pointer) : option bytes :=
  match p with
  | PBuf s => Some (c_str s)
  | PObj _ => None
  | PArena b off =>
      if bool_decide (a_base (c_arena c) = Some b) then read_str (drop (Z.to_nat off) (a_mem (c_arena c))) else None
  end.
