(* ===== verification/CtxThms.v ===== *)
(** Properties of the request context: the value store is a map of bounded size,
    arena allocations never overlap, formatted strings read back, error answers
    are exact; and what goes wrong when the arena moves or a size wraps. *)
From stdpp Require Import gmap.
From S2P Require Import Prelude CString PathNorm Radix Request Response ResponseThms Cookie Ctx.

(** ** Specification vocabulary *)

(** A call of [ioh_ctx_set_with_destructor]. *)
Record set_call := mk_set { s_key : bytes; s_value : option pointer; s_dtor : option Z }.

Definition do_set (c : ioh_ctx_t) (s : set_call) : ioh_ctx_t :=
  fst (ioh_ctx_set_with_destructor c (Some (s_key s)) (s_value s) (s_dtor s)).

(** The bounded map the store implements: keys are C strings; a new key is
    refused once there are sixteen. *)
Definition map_set (m : gmap bytes (option pointer)) (s : set_call) : gmap bytes (option pointer) :=
  let k := c_str (s_key s) in
  if bool_decide (is_Some (m !! k)) || (size m <? IOH_CTX_MAX_VALUES) then <[k := s_value s]> m else m.

(** The representation: distinct keys, at most sixteen, each with its value. *)
Record values_repr (vs : list ioh_ctx_value_t) (m : gmap bytes (option pointer)) : Prop := {
  vr_nodup : NoDup ((fun v => c_str (v_key v)) <$> vs);
  vr_map : m = list_to_map ((fun v => (c_str (v_key v), v_value v)) <$> vs);
  vr_len : length vs ≤ IOH_CTX_MAX_VALUES;
}.

(** A well-formed arena: a block whose size is a power of two, filled up to
    [a_used]. *)
Definition arena_inv (a : ioh_arena_t) : Prop :=
  is_Some (a_base a) /\ (exists k, 12 <= k <= 63 /\ a_size a = 2 ^ k)%Z /\ (0 <= a_used a <= a_size a)%Z.

(** An allocation request: a size, and an alignment for the aligned call. *)
Record request := mk_req { q_size : Z; q_align : option Z }.

(** Memory handed out: block, offset, size and alignment. *)
Record region := mk_region { g_block : nat; g_off : Z; g_size : Z; g_align : Z }.

Section Runs.
Variable addr : nat -> Z.

Definition alloc_one (c : ioh_ctx_t) (q : request) (h : heap) : alloc_result :=
  match q_align q with
  | None => ioh_ctx_alloc c (q_size q) h
  | Some al => ioh_ctx_alloc_aligned addr c (q_size q) al h
  end.

Definition region_of (q : request) (p : option pointer) : list region :=
  match p with
  | Some (PArena b off) => [mk_region b off (q_size q) (default 1%Z (q_align q))]
  | _ => []
  end.

(** A sequence of allocations and the memory it hands out, in order. *)
Fixpoint alloc_run (c : ioh_ctx_t) (qs : list request) (h : heap) : option (list region * ioh_ctx_t) :=
  match qs with
  | [] => Some ([], c)
  | q :: qs =>
      match alloc_one c q h with
      | None => None
      | Some (p, c, h) =>
          match alloc_run c qs h with
          | None => None
          | Some (rs, c) => Some (region_of q p ++ rs, c)
          end
      end
  end.

(** Room the requests can take, padding included. *)
Definition demand (qs : list request) : Z :=
  fold_right (fun q n => q_size q + default 1 (q_align q) + n)%Z 0%Z qs.
End Runs.

(** ** The value store *)

#[local] Opaque IOH_CTX_MAX_VALUES.

Lemma key_is_true key v : key_is key v = true <-> c_str (v_key v) = c_str key.
Proof. unfold key_is, strcmp_eq. apply bytes_eqb_true. Qed.

Lemma values_find_Some vs m key i v :
  values_repr vs m -> list_find (fun v => key_is key v = true) vs = Some (i, v) ->
  m !! c_str key = Some (v_value v).
Proof.
  intros [Hn -> _] (Hi & Hk & _)%list_find_Some. apply key_is_true in Hk.
  apply elem_of_list_to_map; [by rewrite <- list_fmap_compose|].
  apply list_elem_of_fmap. exists v. split; [by rewrite Hk|]. by eapply list_elem_of_lookup_2.
Qed.

Lemma values_find_None vs m key :
  values_repr vs m -> list_find (fun v => key_is key v = true) vs = None -> m !! c_str key = None.
Proof.
  intros [Hn -> _] Hf%list_find_None. apply not_elem_of_list_to_map_1. rewrite <- list_fmap_compose.
  intros (v & E & Hv)%list_elem_of_fmap. rewrite Forall_forall in Hf. apply (Hf v Hv).
  by apply key_is_true.
Qed.

Lemma values_size vs m : values_repr vs m -> size m = length vs.
Proof.
  intros [Hn -> _].
  revert Hn. induction vs as [|v vs IH]; intros Hn; [done|]. simpl in *. apply NoDup_cons in Hn as [Hv Hn].
  rewrite map_size_insert_None; [f_equal; by apply IH|].
  apply not_elem_of_list_to_map_1. by rewrite <- list_fmap_compose.
Qed.

Lemma get_repr c m key : values_repr (c_values c) m -> ioh_ctx_get c (Some key) = default None (m !! c_str key).
Proof.
  intros Hr. unfold ioh_ctx_get. destruct (list_find _ _) as [[i v]|] eqn:E.
  - by rewrite (values_find_Some _ _ _ _ _ Hr E).
  - by rewrite (values_find_None _ _ _ Hr E).
Qed.

Lemma list_to_map_insert (vs : list ioh_ctx_value_t) i v x :
  NoDup ((fun v => c_str (v_key v)) <$> vs) -> vs !! i = Some v ->
  (list_to_map ((fun v => (c_str (v_key v), v_value v)) <$> <[i := mk_value (v_key v) x (v_destructor v)]> vs)
     : gmap bytes (option pointer))
  = <[c_str (v_key v) := x]> (list_to_map ((fun v => (c_str (v_key v), v_value v)) <$> vs)).
Proof.
  revert i. induction vs as [|w vs IH]; intros [|i]; try done; simpl; intros [Hw Hn]%NoDup_cons.
  - intros [= ->]. simpl. by rewrite insert_insert_eq.
  - intros Hi. rewrite IH by done. apply insert_insert_ne.
    intros E. apply Hw. apply list_elem_of_fmap. exists v. split; [by rewrite E|]. by eapply list_elem_of_lookup_2.
Qed.

(** Only keys and values matter for the representation. *)
Lemma fmap_insert_keys (vs : list ioh_ctx_value_t) i v x d :
  vs !! i = Some v ->
  (fun v => c_str (v_key v)) <$> <[i := mk_value (v_key v) x d]> vs = (fun v => c_str (v_key v)) <$> vs.
Proof.
  intros Hi. rewrite list_fmap_insert. simpl. apply list_insert_id. by rewrite list_lookup_fmap, Hi.
Qed.

Lemma fmap_insert_values (vs : list ioh_ctx_value_t) (i : nat) v x d d' :
  (fun v => (c_str (v_key v), v_value v)) <$> <[i := mk_value (v_key v) x d]> vs
  = (fun v => (c_str (v_key v), v_value v)) <$> <[i := mk_value (v_key v) x d']> vs.
Proof. by rewrite !list_fmap_insert. Qed.

Lemma do_set_repr c m s :
  values_repr (c_values c) m -> values_repr (c_values (do_set c s)) (map_set m s).
Proof.
  intros Hr. unfold do_set, ioh_ctx_set_with_destructor, map_set.
  destruct (list_find _ _) as [[i v]|] eqn:E; simpl.
  - rewrite bool_decide_eq_true_2 by (rewrite (values_find_Some _ _ _ _ _ Hr E); by eexists). simpl.
    apply list_find_Some in E as (Hi & Hk & _). apply key_is_true in Hk. destruct Hr as [Hn -> Hl].
    split.
    + by rewrite (fmap_insert_keys _ _ _ _ _ Hi).
    + rewrite (fmap_insert_values _ _ _ _ _ (v_destructor v)), list_to_map_insert by done. by rewrite Hk.
    + by rewrite length_insert.
  - rewrite bool_decide_eq_false_2 by (rewrite (values_find_None _ _ _ Hr E); by apply is_Some_None). simpl.
    rewrite (values_size _ _ Hr). destruct (Nat.leb_spec IOH_CTX_MAX_VALUES (length (c_values c))) as [Hle|Hlt].
    + test_false (length (c_values c) <? IOH_CTX_MAX_VALUES). exact Hr.
    + rewrite (proj2 (Nat.ltb_lt _ _) Hlt). simpl.
      pose proof (values_find_None _ _ _ Hr E) as Hnone. destruct Hr as [Hn -> Hl]. split.
      * rewrite fmap_app. apply NoDup_app. split; [done|]. split; [|apply NoDup_singleton].
        intros k Hk Hk'%list_elem_of_singleton. subst k. simpl in Hk.
        apply not_elem_of_list_to_map_2 in Hnone. apply Hnone. by rewrite <- list_fmap_compose.
      * rewrite fmap_app, list_to_map_app. simpl. apply map_eq. intros k.
        destruct (decide (k = c_str (s_key s))) as [->|Hne].
        -- rewrite lookup_insert_eq, lookup_union_r by done. by rewrite lookup_insert_eq.
        -- rewrite lookup_insert_ne by done. destruct (list_to_map _ !! k) eqn:Ek.
           ++ symmetry. by apply lookup_union_Some_l.
           ++ rewrite lookup_union_r by done. by rewrite lookup_insert_ne.
      * rewrite length_app. simpl. lia.
Qed.

Lemma sets_repr ss c m :
  values_repr (c_values c) m -> values_repr (c_values (fold_left do_set ss c)) (fold_left map_set ss m).
Proof. revert c m. induction ss as [|s ss IH]; intros c m Hr; [done|]. by apply IH, do_set_repr. Qed.

(** C16: the context's values are a map.  After any sequence of calls that set
    values, reading a key gives what the map from strings to values gives that
    takes each call in turn and ignores new keys once it has sixteen; a call
    returns ENOSPC exactly for a key that is new to a map of sixteen. *)
Theorem ctx_values_refine_map c ss key value dtor :
  c_values c = [] ->
  let m := fold_left map_set ss ∅ in
  let c' := fold_left do_set ss c in
  ioh_ctx_get c' (Some key) = default None (m !! c_str key)
  /\ length (c_values c') = size m /\ size m ≤ IOH_CTX_MAX_VALUES
  /\ snd (ioh_ctx_set_with_destructor c' (Some key) value dtor)
     = (if bool_decide (m !! c_str key = None /\ size m = IOH_CTX_MAX_VALUES) then Err ENOSPC else Ok tt).
Proof.
  intros Hc m c'.
  assert (Hr : values_repr (c_values c') m).
  { apply sets_repr. rewrite Hc. split; [constructor|done|simpl; lia]. }
  split; [by apply get_repr|]. rewrite (values_size _ _ Hr). split; [done|]. split; [apply Hr|].
  unfold ioh_ctx_set_with_destructor. destruct (list_find _ _) as [[i v]|] eqn:E; simpl.
  - rewrite (values_find_Some _ _ _ _ _ Hr E). by rewrite bool_decide_eq_false_2 by naive_solver.
  - rewrite (values_find_None _ _ _ Hr E). pose proof (vr_len _ _ Hr).
    destruct (Nat.leb_spec IOH_CTX_MAX_VALUES (length (c_values c'))); simpl.
    + rewrite bool_decide_eq_true_2; [done|]. split; [done|lia].
    + rewrite bool_decide_eq_false_2; [done|]. lia.
Qed.

Definition demo_ctx : ioh_ctx_t :=
  mk_ctx ioh_request_init (snd (fst (ioh_response_init []))) (mk_arena (Some 0) IOH_CTX_ARENA_DEFAULT 0 []) [] (-1) false.

Definition demo_sets : list set_call :=
  [mk_set (bs "user") (Some (PObj 1)) None; mk_set (bs "db") (Some (PObj 2)) None;
   mk_set (bs "user") (Some (PObj 3)) None].

Lemma ctx_values_refine_map_witness :
  ioh_ctx_get (fold_left do_set demo_sets demo_ctx) (Some (bs "user")) = Some (PObj 3).
Proof.
  destruct (ctx_values_refine_map demo_ctx demo_sets (bs "user") None None eq_refl) as [-> _].
  vm_compute. reflexivity.
Defined.

(** A value that is replaced is never passed to its destructor. *)
Theorem ctx_replaced_value_leaks c key v d v' d' :
  c_values c = [] ->
  let c1 := fst (ioh_ctx_set_with_destructor c (Some key) (Some v) (Some d)) in
  let c2 := fst (ioh_ctx_set_with_destructor c1 (Some key) (Some v') (Some d')) in
  snd (ioh_ctx_reset c2) = [(d', v')].
Proof.
  intros Hc c1 c2.
  assert (H1 : c_values c1 = [mk_value key (Some v) (Some d)]).
  { subst c1. unfold ioh_ctx_set_with_destructor. by rewrite Hc. }
  assert (H2 : c_values c2 = [mk_value key (Some v') (Some d')]).
  { subst c2. unfold ioh_ctx_set_with_destructor. rewrite H1.
    replace (list_find _ _) with (Some (0, mk_value key (Some v) (Some d))); [done|].
    symmetry. apply list_find_Some. split; [done|]. split; [by apply key_is_true|]. intros j y _ Hj. lia. }
  unfold ioh_ctx_reset. by rewrite H2.
Qed.

(** ** The arena *)

Lemma grow_size_pow fuel k needed :
  (0 <= k <= 63)%Z -> (needed <= 2 ^ 63)%Z -> (63 - k <= Z.of_nat fuel)%Z ->
  exists k', (k <= k' <= 63)%Z /\ grow_size fuel (2 ^ k) needed = Some (2 ^ k')%Z /\ (needed <= 2 ^ k')%Z.
Proof.
  revert k. induction fuel as [|fuel IH]; intros k Hk Hn Hf; cbn [grow_size];
    destruct (Z.ltb_spec (2 ^ k) needed) as [Hlt|Hge].
  - assert (k = 63%Z) by lia. subst k. lia.
  - exists k. split; [lia|]. done.
  - assert (Hk63 : (k < 63)%Z).
    { destruct (decide (k = 63%Z)) as [->|]; lia. }
    replace (u64 (2 ^ k * 2)) with (2 ^ (k + 1))%Z.
    { destruct (IH (k + 1)%Z) as (k' & ? & ? & ?); [lia..|]. exists k'. split; [lia|]. done. }
    assert (2 ^ (k + 1) <= 2 ^ 63)%Z by (apply Z.pow_le_mono_r; lia).
    rewrite Z.pow_add_r in * by lia. rewrite u64_small; lia.
  - exists k. split; [lia|]. done.
Qed.

(** A size beyond 2^63 is never reached: the doubling wraps to zero and stays
    there, so the loop does not end, whatever the number of turns. *)
Lemma grow_size_diverges fuel k needed :
  (0 <= k <= 63)%Z -> (2 ^ 63 < needed)%Z -> grow_size fuel (2 ^ k) needed = None.
Proof.
  intros Hk Hn.
  assert (Hz : forall fuel, grow_size fuel 0 needed = None).
  { intros f. induction f as [|f IH]; cbn [grow_size]; rewrite (proj2 (Z.ltb_lt 0 needed)) by lia; [done|].
    by rewrite u64_small by lia. }
  revert k Hk. induction fuel as [|fuel IH]; intros k Hk; cbn [grow_size];
    assert (Hle : (2 ^ k <= 2 ^ 63)%Z) by (apply Z.pow_le_mono_r; lia);
    rewrite (proj2 (Z.ltb_lt _ _)) by lia; [done|].
  destruct (decide (k = 63%Z)) as [->|Hne]; [apply Hz|].
  assert (2 ^ (k + 1) <= 2 ^ 63)%Z by (apply Z.pow_le_mono_r; lia).
  replace (u64 (2 ^ k * 2)) with (2 ^ (k + 1))%Z; [apply IH; lia|].
  rewrite Z.pow_add_r in * by lia. rewrite u64_small; lia.
Qed.

Lemma room_spec a needed h :
  arena_inv a -> (needed <= 2 ^ 63)%Z ->
  (exists h', room a needed h = Some (Err ENOMEM, h'))
  \/ (exists a' h', room a needed h = Some (Ok a', h') /\ is_Some (a_base a')
        /\ (exists k, 12 <= k <= 63 /\ a_size a' = 2 ^ k)%Z /\ (needed <= a_size a')%Z
        /\ a_used a' = a_used a /\ a_mem a' = a_mem a).
Proof.
  intros ([b Hb] & (k & Hk & Hs) & Hu) Hn. unfold room.
  destruct (Z.ltb_spec (a_size a) needed) as [Hlt|Hge].
  - unfold arena_grow. rewrite Hs.
    destruct (grow_size_pow GROW_FUEL k needed) as (k' & Hk' & -> & Hn'); [lia|lia|unfold GROW_FUEL; lia|].
    destruct (xalloc h) as [[] h']; simpl; [right|left; by eexists].
    eexists _, _. split; [done|]. simpl. rewrite Hb. simpl. split; [by eexists|].
    split; [|split; [lia|done]]. exists k'. split; [lia|done].
  - right. exists a, h. split; [done|]. rewrite Hb. split; [by eexists|]. split; [|by auto].
    exists k. split; [lia|done].
Qed.

(** What an allocation with padding [pad] does. *)
Lemma bump_spec c a size pad h :
  arena_inv a -> (0 < size)%Z -> (0 <= pad)%Z -> (a_used a + pad + size <= a_size a)%Z ->
  exists b, a_base a = Some b
    /\ bump c a (a_used a + pad) size h
       = Some (Some (PArena b (a_used a + pad)),
               with_arena c (mk_arena (Some b) (a_size a) (a_used a + pad + size) (a_mem a)), h).
Proof.
  intros ([b Hb] & (k & Hk & Hs) & Hu) Hsz Hp Hle. exists b. split; [done|]. unfold bump. rewrite Hb.
  rewrite u64_small; [done|].
  assert (2 ^ k <= 2 ^ 63)%Z by (apply Z.pow_le_mono_r; lia). lia.
Qed.

(** The bit test is a power-of-two test. *)
Lemma pow2_test n : (0 < n)%Z -> Z.land n (n - 1) = 0%Z -> exists k, (0 <= k)%Z /\ n = (2 ^ k)%Z.
Proof.
  intros Hn Hl. exists (Z.log2 n). split; [apply Z.log2_nonneg|].
  destruct (Z.log2_spec n Hn) as [Hlo Hhi]. destruct (decide (n = 2 ^ Z.log2 n)%Z) as [|Hne]; [done|].
  assert (Hb : Z.testbit (Z.land n (n - 1)) (Z.log2 n) = true).
  { rewrite Z.land_spec, Z.bit_log2 by done. simpl.
    pose proof (Z.log2_nonneg n). pose proof (Z.pow_pos_nonneg 2 (Z.log2 n)).
    replace (Z.log2 n) with (Z.log2 (n - 1)); [apply Z.bit_log2; lia|].
    apply Z.log2_unique; [apply Z.log2_nonneg|]. lia. }
  by rewrite Hl, Z.bits_0 in Hb.
Qed.

(** Clearing the low bits in 64-bit arithmetic. *)
Lemma land_lnot_mask x k :
  (0 <= k <= 64)%Z -> (0 <= x < 2 ^ 64)%Z ->
  Z.land x (u64 (Z.lnot (2 ^ k - 1))) = (x - x mod 2 ^ k)%Z.
Proof.
  intros Hk Hx. unfold u64.
  assert (Ek : (2 ^ k - 1 = Z.ones k)%Z) by (rewrite Z.ones_equiv; lia).
  rewrite Ek, <- Z.land_ones by lia.
  rewrite (Z.land_comm (Z.lnot _)), Z.land_assoc, Z.land_ones by lia.
  rewrite (Z.mod_small x) by done. rewrite <- Z.ldiff_land, Z.ldiff_ones_r by lia.
  rewrite Z.shiftr_div_pow2, Z.shiftl_mul_pow2 by lia.
  pose proof (Z.div_mod x (2 ^ k)). lia.
Qed.

Lemma align_up cur k :
  (0 <= k)%Z -> (0 <= cur)%Z -> (cur + 2 ^ k <= 2 ^ 64)%Z ->
  let pad := u64 (Z.land (u64 (cur + (2 ^ k - 1))) (u64 (Z.lnot (2 ^ k - 1))) - cur) in
  (0 <= pad < 2 ^ k)%Z /\ ((cur + pad) mod 2 ^ k = 0)%Z.
Proof.
  intros Hk Hc Hle. assert (Hp : (0 < 2 ^ k)%Z) by lia.
  assert (Hk64 : (k <= 64)%Z).
  { apply (Z.pow_le_mono_r_iff 2); lia. }
  cbv zeta. rewrite (u64_small (cur + (2 ^ k - 1))) by lia. rewrite land_lnot_mask by lia.
  pose proof (Z.mod_pos_bound (cur + (2 ^ k - 1)) (2 ^ k) Hp).
  rewrite u64_small by lia. split; [lia|].
  replace (cur + _)%Z with (cur + (2 ^ k - 1) - (cur + (2 ^ k - 1)) mod 2 ^ k)%Z by lia.
  rewrite Zminus_mod_idemp_r, Z.sub_diag. by apply Z.mod_0_l; lia.
Qed.

Section Allocations.
Variable addr : nat -> Z.
(** Blocks are where [malloc] may put them: at multiples of 16 in the lower half
    of the address space. *)
Hypothesis addr_ok : forall b, (0 <= addr b < 2 ^ 62 /\ addr b mod 16 = 0)%Z.

Lemma padding_eq a k b :
  (0 <= k <= 4)%Z -> a_base a = Some b -> (0 <= a_used a <= 2 ^ 62)%Z ->
  padding addr a (2 ^ k) = ((- a_used a) mod 2 ^ k)%Z
  /\ ((addr b + (a_used a + padding addr a (2 ^ k))) mod 2 ^ k = 0)%Z.
Proof.
  intros Hk Hb Hu. destruct (addr_ok b) as [Hr H16].
  assert (Hpk : (0 < 2 ^ k <= 2 ^ 4)%Z) by (split; [lia|apply Z.pow_le_mono_r; lia]).
  unfold padding. rewrite Hb. simpl. rewrite (u64_small (addr b + a_used a)) by lia.
  destruct (align_up (addr b + a_used a) k) as [Hp Hm]; [lia..|]. cbv zeta in *.
  set (pad := u64 _) in *. split; [|by rewrite Z.add_assoc].
  assert (Ha : (addr b mod 2 ^ k = 0)%Z).
  { apply Z.mod_divide in H16 as [q Hq]; [|lia]. rewrite Hq.
    replace 16%Z with (2 ^ (4 - k) * 2 ^ k)%Z by (rewrite <- Z.pow_add_r by lia; by replace (4 - k + k)%Z with 4%Z by lia).
    rewrite Z.mul_assoc. apply Z.mod_mul. lia. }
  apply (Z.mod_unique_pos _ _ (- (a_used a + pad) / 2 ^ k)); [lia|].
  assert (Hd : ((a_used a + pad) mod 2 ^ k = 0)%Z).
  { rewrite <- Z.add_assoc, Zplus_mod, Ha, Z.add_0_l, Z.mod_mod in Hm by lia. exact Hm. }
  apply Z.mod_divide in Hd as [q Hq]; [|lia]. rewrite Hq, Z.mul_opp_l || rewrite Hq.
  replace (- (q * 2 ^ k))%Z with ((- q) * 2 ^ k)%Z by lia. rewrite Z.div_mul by lia. lia.
Qed.

(** A request the run theorem covers: an alignment up to that of [malloc]. *)
Definition plain (q : request) : Prop :=
  (0 <= q_size q)%Z /\ (0 <= default 1 (q_align q) <= 16)%Z.

(** What the allocation of [q] may answer: null, with the context as it was, or a
    region behind the used part that lies in the arena's block. *)
Definition alloc_ok (c : ioh_ctx_t) (q : request) (r : alloc_result) : Prop :=
  (exists h', r = Some (None, c, h'))
  \/ (exists b off a' h', r = Some (Some (PArena b off), with_arena c a', h')
      /\ arena_inv a' /\ a_base a' = Some b /\ (0 < q_size q)%Z
      /\ (a_used (c_arena c) <= off)%Z /\ a_used a' = (off + q_size q)%Z
      /\ ((addr b + off) mod default 1 (q_align q) = 0)%Z
      /\ (a_used a' <= a_used (c_arena c) + q_size q + default 1 (q_align q))%Z
      /\ a_mem a' = a_mem (c_arena c)).

(** An allocation with a padding that does not depend on the block. *)
Lemma alloc_padded c q h pad :
  arena_inv (c_arena c) -> (0 <= pad < default 1 (q_align q))%Z -> (0 < q_size q)%Z ->
  (a_used (c_arena c) + q_size q + default 1 (q_align q) <= 2 ^ 62)%Z ->
  (forall a b, a_used a = a_used (c_arena c) -> a_base a = Some b -> (0 <= a_used a <= 2 ^ 62)%Z ->
     (addr b + (a_used a + pad)) mod default 1 (q_align q) = 0)%Z ->
  alloc_ok c q (match room (c_arena c) (a_used (c_arena c) + pad + q_size q) h with
                | None => None
                | Some (Err _, h) => Some (None, c, h)
                | Some (Ok a, h) => bump c a (a_used a + pad) (q_size q) h
                end).
Proof.
  intros Hinv Hpad Hpos Hle Hmod. pose proof Hinv as (_ & _ & Hu).
  destruct (room_spec (c_arena c) (a_used (c_arena c) + pad + q_size q) h)
    as [(h' & ->)|(a' & h' & -> & Hb' & Hk' & Hn & Hua & Hm)]; [done|lia|left; by eexists|right].
  destruct (bump_spec c a' (q_size q) pad h') as (b & Hba & ->); [|lia..|].
  { split; [done|]. split; [done|]. lia. }
  exists b, (a_used a' + pad)%Z. eexists _, _. split; [done|]. simpl.
  split; [split; [by eexists|split; [exact Hk'|simpl; lia]]|]. split; [done|]. split; [done|].
  split; [lia|]. split; [done|]. split; [apply Hmod; [lia|done|lia]|]. split; [lia|done].
Qed.

Lemma alloc_one_spec c q h :
  arena_inv (c_arena c) -> plain q ->
  (a_used (c_arena c) + q_size q + default 1 (q_align q) <= 2 ^ 62)%Z ->
  alloc_ok c q (alloc_one addr c q h).
Proof.
  intros Hinv [Hs Hal] Hle. pose proof Hinv as ([b Hb] & _ & Hu).
  unfold alloc_one. destruct (q_align q) as [al|] eqn:Eal; simpl in *.
  - unfold ioh_ctx_alloc_aligned. destruct (Z.eqb_spec (q_size q) 0) as [|Hs0]; [left; by eexists|].
    destruct (Z.eqb_spec al 0) as [|Ha0]; [left; by eexists|]. simpl.
    destruct (Z.eqb_spec (Z.land al (al - 1)) 0) as [Hp2|]; [|left; by eexists]. simpl.
    destruct (pow2_test al) as (k & Hk & ->); [lia|done|].
    assert (Hk4 : (k <= 4)%Z) by (apply (Z.pow_le_mono_r_iff 2); lia).
    destruct (padding_eq (c_arena c) k b) as [-> _]; [lia|done|lia|].
    pose proof (Z.mod_pos_bound (- a_used (c_arena c)) (2 ^ k)) as Hmb.
    rewrite (u64_small (a_used (c_arena c) + _)), (u64_small (_ + _ + _)) by lia.
    pose proof (alloc_padded c q h ((- a_used (c_arena c)) mod 2 ^ k)) as Hp. rewrite Eal in Hp. simpl in Hp.
    specialize (Hp Hinv ltac:(lia) ltac:(lia) ltac:(lia)).
    ospecialize (Hp _).
    { intros a b' Hua Hb' Hua'. destruct (padding_eq a k b') as [Hpe Hm]; [lia|done|lia|].
      rewrite Hpe in Hm. by rewrite Hua in *. }
    destruct (room_spec (c_arena c) (a_used (c_arena c) + (- a_used (c_arena c)) mod 2 ^ k + q_size q) h)
      as [(h' & E)|(a' & h' & E & [b' Hb'] & _ & _ & Hua & _)]; [done|lia|by rewrite E in *|].
    rewrite E in *. destruct (padding_eq a' k b') as [-> _]; [lia|done|lia|]. rewrite Hua in *. by rewrite u64_small by lia.
  - unfold ioh_ctx_alloc. destruct (Z.eqb_spec (q_size q) 0) as [|Hs0]; [left; by eexists|].
    pose proof (alloc_padded c q h 0) as Hp. rewrite Eal in Hp. simpl in Hp.
    rewrite Z.add_0_r in Hp. rewrite u64_small by lia.
    specialize (Hp Hinv ltac:(lia) ltac:(lia) ltac:(lia) ltac:(intros; apply Z.mod_1_r)).
    destruct (room _ _ h) as [[[a'|] h']|]; try done. by rewrite Z.add_0_r in Hp.
Qed.

(** A region between the offsets [lo] and [hi], at an aligned address. *)
Definition good_region (lo hi : Z) (g : region) : Prop :=
  (lo <= g_off g)%Z /\ (0 < g_size g)%Z /\ (g_off g + g_size g <= hi)%Z
  /\ ((addr (g_block g) + g_off g) mod g_align g = 0)%Z.

Lemma alloc_run_ok qs c h :
  arena_inv (c_arena c) -> Forall plain qs -> (a_used (c_arena c) + demand qs <= 2 ^ 62)%Z ->
  exists rs c', alloc_run addr c qs h = Some (rs, c') /\ arena_inv (c_arena c')
    /\ (a_used (c_arena c) <= a_used (c_arena c'))%Z
    /\ Forall (good_region (a_used (c_arena c)) (a_used (c_arena c'))) rs
    /\ ForallOrdPairs (fun g g' => g_off g + g_size g <= g_off g')%Z rs.
Proof.
  revert c h. induction qs as [|q qs IH]; intros c h Hinv Hp Hd; simpl in *.
  { eexists _, _. split; [done|]. split; [done|]. split; [lia|]. split; constructor. }
  apply Forall_cons_1 in Hp as [Hq Hqs].
  assert (Hdn : forall l, Forall plain l -> (0 <= demand l)%Z).
  { induction 1 as [|? ? [? ?] ? IHl]; simpl; lia. }
  pose proof (Hdn _ Hqs). pose proof Hq as [Hs Ha].
  destruct (alloc_one_spec c q h Hinv Hq) as [(h' & ->)|(b & off & a' & h' & -> & Hi' & Hb & Hpos & Hlo & Hu & Hm & Hle & _)];
    [lia|..].
  - destruct (IH c h') as (rs & c' & -> & Hr); [done|done|lia|]. exists rs, c'. split; [done|]. exact Hr.
  - destruct (IH (with_arena c a') h') as (rs & c' & -> & Hic & Huc & Hf & Ho); [done|done|simpl; lia|].
    eexists _, _. split; [done|]. simpl in *. split; [done|]. split; [lia|]. split.
    + constructor; [split_and!; simpl; try lia; done|].
      eapply Forall_impl; [exact Hf|]. intros g (? & ? & ? & ?). split_and!; try lia; done.
    + constructor; [|done]. eapply Forall_impl; [exact Hf|]. intros g (? & _). simpl. lia.
Qed.

(** Arena allocations never overlap.  When blocks lie where [malloc] puts
    them (multiples of 16) and alignments are at most 16, every sequence of plain
    and aligned allocations on a fresh context, with any allocation failures and
    a total demand of at most 2^62 bytes, returns; the regions it hands out lie
    one behind the other inside the block, each is non-empty and at an address
    that is a multiple of its alignment, and the arena stays well-formed. *)
Theorem arena_allocations_disjoint req resp c qs h h0 h1 :
  ioh_ctx_init (Some req) (Some resp) h0 = (Ok c, h1) ->
  Forall plain qs -> (demand qs <= 2 ^ 62)%Z ->
  exists rs c', alloc_run addr c qs h = Some (rs, c') /\ arena_inv (c_arena c')
    /\ Forall (good_region 0 (a_size (c_arena c'))) rs
    /\ ForallOrdPairs (fun g g' => g_off g + g_size g <= g_off g')%Z rs.
Proof.
  unfold ioh_ctx_init. destruct (xalloc h0) as [[] h2]; intros [= <- <-] Hp Hd.
  destruct (alloc_run_ok qs (mk_ctx req resp (mk_arena (Some 0) IOH_CTX_ARENA_DEFAULT 0 []) [] (-1) false) h)
    as (rs & c' & Hr & Hi & _ & Hf & Ho); [|done|simpl; lia|].
  { split; [by eexists|]. split; [by exists 12%Z|]. simpl. unfold IOH_CTX_ARENA_DEFAULT. lia. }
  exists rs, c'. split; [done|]. split; [done|]. split; [|done].
  pose proof Hi as (_ & _ & Hu). eapply Forall_impl; [exact Hf|]. intros g (? & ? & ? & ?). simpl in *.
  split_and!; try lia; done.
Qed.
End Allocations.

Lemma arena_allocations_disjoint_witness :
  exists rs c', alloc_run (fun b => 16 * Z.of_nat b)%Z demo_ctx
      [mk_req 10 None; mk_req 8 (Some 8); mk_req 5000 (Some 16)]%Z [] = Some (rs, c')
    /\ g_off <$> rs = [0; 16; 32]%Z /\ arena_inv (c_arena c').
Proof.
  destruct (arena_allocations_disjoint (fun b => 16 * Z.of_nat b mod 2 ^ 62)%Z) with
    (req := ioh_request_init) (resp := snd (fst (ioh_response_init []))) (c := demo_ctx)
    (qs := [mk_req 10 None; mk_req 8 (Some 8); mk_req 5000 (Some 16)]%Z) (h := @nil bool) (h0 := @nil bool) (h1 := @nil bool)
    as (rs & c' & E & Hi & _).
  - intros b. split; [apply Z.mod_pos_bound; lia|].
    change (2 ^ 62)%Z with (16 * 2 ^ 58)%Z. rewrite Zmult_mod_distr_l, Z.mul_comm. apply Z.mod_mul. lia.
  - reflexivity.
  - repeat constructor; simpl; lia.
  - simpl. lia.
  - exists rs, c'. vm_compute in E. injection E as <- <-. split; [vm_compute; reflexivity|]. split; [reflexivity|exact Hi].
Defined.

(** With an alignment above that of [malloc] the bound fails: the room is computed
    with the padding in the old block, and the padding in the new block is larger.
    Here the object ends 48 bytes behind the end of the block. *)
Theorem arena_overaligned_overflows :
  exists c p h, let addr := fun b => if decide (b = 0) then 4096%Z else 8208%Z in
    ioh_ctx_alloc_aligned addr demo_ctx 8192 64 [] = Some (p, c, h)
    /\ a_size (c_arena c) = 8192%Z /\ a_used (c_arena c) = 8240%Z.
Proof. eexists _, _, _. split; [vm_compute; reflexivity|]. split; reflexivity. Qed.

(** A size near 2^64 wraps: the call answers with a pointer, and the arena's fill
    level moves back, so the next allocation overlaps an earlier one. *)
Theorem ctx_alloc_wraps :
  exists c1 c2 h1 h2,
    ioh_ctx_alloc demo_ctx 100 [] = Some (Some (PArena 0 0), c1, h1)
    /\ ioh_ctx_alloc c1 (2 ^ 64 - 100) h1 = Some (Some (PArena 0 100), c2, h2)
    /\ a_used (c_arena c2) = 0%Z.
Proof. eexists _, _, _, _. split; [reflexivity|]. split; [vm_compute; reflexivity|]. reflexivity. Qed.

(** The arena's growth loop does not end for a request that takes the fill
    level beyond 2^63: the doubled size wraps to zero and stays zero, however many
    turns are allowed; up to 2^63 the loop ends with a size that suffices. *)
Theorem arena_grow_termination a needed fuel :
  arena_inv a ->
  ((2 ^ 63 < needed)%Z -> grow_size fuel (a_size a) needed = None)
  /\ ((needed <= 2 ^ 63)%Z -> exists n, grow_size GROW_FUEL (a_size a) needed = Some n
        /\ (Z.max (a_size a) needed <= n <= 2 ^ 63)%Z).
Proof.
  intros (_ & (k & Hk & ->) & _). split; intros Hn; [apply grow_size_diverges; lia|].
  destruct (grow_size_pow GROW_FUEL k needed) as (k' & Hk' & -> & Hle); [lia|lia|unfold GROW_FUEL; lia|].
  exists (2 ^ k')%Z. split; [done|].
  assert (2 ^ k <= 2 ^ k')%Z by (apply Z.pow_le_mono_r; lia).
  assert (2 ^ k' <= 2 ^ 63)%Z by (apply Z.pow_le_mono_r; lia). lia.
Qed.

Lemma arena_grow_termination_witness :
  grow_size 1000 4096 (2 ^ 63 + 1) = None /\ grow_size GROW_FUEL 4096 5000 = Some 8192%Z.
Proof.
  assert (Hi : arena_inv (c_arena demo_ctx)).
  { split; [by eexists|]. split; [exists 12%Z; split; [lia|reflexivity]|]. vm_compute. split; discriminate. }
  split; [|reflexivity].
  apply (proj1 (arena_grow_termination (c_arena demo_ctx) (2 ^ 63 + 1) 1000 Hi)). lia.
Defined.

(** ** Strings in the arena *)

#[local] Opaque GROW_FUEL.

Lemma read_str_write m off s :
  Forall (fun b => not_nul b = true) s -> read_str (drop off (write_at m off (s ++ [NUL]))) = Some s.
Proof.
  intros Hs. unfold write_at.
  rewrite drop_app_length'.
  - generalize (drop (off + length (s ++ [NUL])) m) as tl. intros tl.
    induction Hs as [|b s Hb Hs IH]; simpl; [done|]. unfold not_nul in Hb. apply negb_true_iff in Hb.
    rewrite Hb. exact (f_equal (fmap (cons b)) IH).
  - rewrite length_take, length_app, length_replicate. lia.
Qed.

(** A formatted string reads back, until the arena grows.  On a well-formed
    arena with room for the text or memory to grow, [ioh_ctx_sprintf] returns a
    pointer to the terminated text, or null with nothing changed; and any later
    allocation that makes the arena grow leaves that pointer dangling. *)
Theorem ctx_sprintf_reads_back c text h :
  arena_inv (c_arena c) -> Forall (fun b => not_nul b = true) text ->
  (a_used (c_arena c) + Z.of_nat (length text) + 2 <= 2 ^ 62)%Z ->
  (exists h', ioh_ctx_sprintf c text h = Some (None, c, h'))
  \/ (exists b off c' h', ioh_ctx_sprintf c text h = Some (Some (PArena b off), c', h')
      /\ deref c' (PArena b off) = Some text
      /\ forall size p c'' h1 h2, ioh_ctx_alloc c' size h1 = Some (Some p, c'', h2) ->
           (a_size (c_arena c') < u64 (a_used (c_arena c') + size))%Z -> deref c'' (PArena b off) = None).
Proof.
  intros Hinv Ht Hle. unfold ioh_ctx_sprintf.
  destruct (alloc_one_spec (fun _ => 0%Z) ltac:(intros; split; [lia|done]) c (mk_req (Z.of_nat (length text) + 1) None) h Hinv)
    as [(h' & E)|(b & off & a' & h' & E & _ & Hb & _ & Hlo & _)]; [split; simpl; lia|simpl; lia|..];
    unfold alloc_one in E; simpl in E; rewrite E; [left; by eexists|right].
  eexists b, off, _, h'. split; [done|]. unfold deref. simpl. rewrite Hb. split.
  - rewrite bool_decide_eq_true_2 by done. by apply read_str_write.
  - intros size p c'' h1 h2 Ha Hgrow. unfold ioh_ctx_alloc, room in Ha. simpl in Ha.
    destruct (size =? 0)%Z; [done|]. rewrite (proj2 (Z.ltb_lt _ _) Hgrow) in Ha.
    unfold arena_grow in Ha. simpl in Ha. destruct (grow_size _ _ _); [|done].
    destruct (xalloc h1) as [[] ?]; simpl in Ha; [|done]. injection Ha as _ <- _. simpl.
    rewrite bool_decide_eq_false_2; [done|]. intros [=]. lia.
Qed.

Lemma ctx_sprintf_reads_back_witness :
  exists p c h, ioh_ctx_sprintf demo_ctx (bs "abc") [] = Some (Some p, c, h) /\ deref c p = Some (bs "abc").
Proof.
  destruct (ctx_sprintf_reads_back demo_ctx (bs "abc") []) as [(h' & E)|(b & off & c' & h' & E & Hd & _)].
  - split; [by eexists|]. split; [exists 12%Z; split; [lia|reflexivity]|]. vm_compute. split; discriminate.
  - repeat constructor.
  - simpl. lia.
  - vm_compute in E. discriminate E.
  - exists (PArena b off), c', h'. split; [exact E|exact Hd].
Defined.
