(* ===== verification/Sse.v ===== *)
(** Server-sent events ([src/src/ws/ioh_sse.h], [ioh_sse.c]): formatting of events and
    comments into a growing buffer.

    An operation returns its code, the stream and the allocator after it; [None] is a
    store outside the buffer or a growth loop that does not end. *)
From S2P Require Import Prelude CString Radix Request Response Ctx CtxThms.

(** ** Data *)

Definition IOH_SSE_INITIAL_BUF : Z := 1024.

Record ioh_sse_event_t := mk_event {
  e_event : option bytes; e_data : option bytes; e_id : option bytes; e_retry_ms : Z;
}.

Record ioh_sse_stream_t := mk_stream {
  s_buf : option bytes;                (* the bytes written to the buffer so far *)
  s_buf_len : Z;
  s_buf_capacity : Z;
  s_last_event_id : option bytes;
  s_headers_sent : bool;
}.

Definition set_buf (s : ioh_sse_stream_t) (b : option bytes) (len cap : Z) : ioh_sse_stream_t :=
  mk_stream b len cap (s_last_event_id s) (s_headers_sent s).
Definition set_last_id (s : ioh_sse_stream_t) (i : option bytes) : ioh_sse_stream_t :=
  mk_stream (s_buf s) (s_buf_len s) (s_buf_capacity s) i (s_headers_sent s).

Definition sse_result : Type := option (res unit * ioh_sse_stream_t * heap).
Abbreviation sse_op := (ioh_sse_stream_t -> heap -> sse_result).

(** [rc = f; if (rc != 0) return rc; g]. *)
Definition sse_then (f g : sse_op) : sse_op := fun s h =>
  match f s h with
  | Some (Ok _, s, h) => g s h
  | r => r
  end.
Infix "&>" := sse_then (at level 60, right associativity) : iohttp_scope.

Definition sse_nop : sse_op := fun s h => Some (Ok tt, s, h).

(** ** The buffer *)

Definition sse_ensure_capacity (additional : Z) : sse_op := fun s h =>
  let needed := u64 (s_buf_len s + additional) in
  if (needed <=? s_buf_capacity s)%Z then Some (Ok tt, s, h) else
  let new_cap := if (s_buf_capacity s =? 0)%Z then IOH_SSE_INITIAL_BUF else s_buf_capacity s in
  match grow_size GROW_FUEL new_cap needed with
  | None => None
  | Some new_cap =>
      let '(ok, h) := xalloc h in
      if negb ok then Some (Err ENOMEM, s, h)
      else Some (Ok tt, set_buf s (Some (default [] (s_buf s))) (s_buf_len s) new_cap, h)
  end.

(** [memcpy(buf + buf_len, data, len)]. *)
Definition sse_store (data : bytes) : sse_op := fun s h =>
  match s_buf s with
  | None => None
  | Some b =>
      if (s_buf_capacity s <? s_buf_len s + Z.of_nat (length data))%Z then None else
      let at_ := Z.to_nat (s_buf_len s) in
      Some (Ok tt, set_buf s (Some (take at_ b ++ data ++ drop (at_ + length data) b))
                     (s_buf_len s + Z.of_nat (length data)) (s_buf_capacity s), h)
  end.

Definition sse_append (data : bytes) : sse_op := sse_ensure_capacity (Z.of_nat (length data)) &> sse_store data.

Definition sse_append_str (str : bytes) : sse_op := sse_append (c_str str).

Definition ioh_sse_stream_init (h : heap) : res unit * ioh_sse_stream_t * heap :=
  let '(ok, h) := xalloc h in
  if negb ok then (Err ENOMEM, mk_stream None 0 0 None false, h)
  else (Ok tt, mk_stream (Some []) 0 IOH_SSE_INITIAL_BUF None false, h).

Definition ioh_sse_stream_destroy (s : ioh_sse_stream_t) : ioh_sse_stream_t := mk_stream None 0 0 None false.

(** ** Formatting *)

Definition IOH_SSE_HEADERS : bytes :=
  bs "Content-Type: text/event-stream; charset=utf-8" ++ [CR; LF] ++ bs "Cache-Control: no-cache" ++ [CR; LF]
  ++ bs "Connection: keep-alive" ++ [CR; LF] ++ [CR; LF].

Definition ioh_sse_format_headers (buf_size : nat) : res bytes :=
  if buf_size <? length IOH_SSE_HEADERS then Err ENOSPC else Ok IOH_SSE_HEADERS.

(** The [strdup] of the event's identifier. *)
Definition track_id (i : bytes) : sse_op := fun s h =>
  let '(ok, h) := xalloc h in
  if ok then Some (Ok tt, set_last_id s (Some (c_str i)), h) else Some (Err ENOMEM, set_last_id s None, h).

(** The loop over the lines of the data; a turn consumes a byte at least. *)
Fixpoint data_loop (fuel : nat) (p : bytes) : sse_op :=
  match fuel with
  | O => fun _ _ => None
  | S fuel =>
      match p with
      | [] => sse_nop
      | _ =>
          let nl := memchr p LF (length p) in
          let line_len := default (length p) nl in
          sse_append_str (bs "data: ") &> sse_append (take line_len p) &> sse_append [LF]
          &> data_loop fuel (drop (match nl with Some _ => line_len + 1 | None => line_len end) p)
      end
  end.

Definition ioh_sse_format_event (event : ioh_sse_event_t) : sse_op :=
  match e_data event with
  | None => fun s h => Some (Err EINVAL, s, h)
  | Some data =>
      let d := c_str data in
      match e_event event with
      | Some ty => sse_append_str (bs "event: ") &> sse_append_str ty &> sse_append [LF]
      | None => sse_nop
      end
      &> match e_id event with
          | Some i => sse_append_str (bs "id: ") &> sse_append_str i &> sse_append [LF] &> track_id i
          | None => sse_nop
          end
      &> (if (0 <? e_retry_ms event)%Z then sse_append (bs "retry: " ++ print_dec (e_retry_ms event) ++ [LF]) else sse_nop)
      &> data_loop (S (length d)) d
      &> (if length d =? 0 then sse_append_str (bs "data: " ++ [LF]) else sse_nop)
      &> sse_append [LF]
  end.

Definition ioh_sse_format_comment (comment : option bytes) : sse_op :=
  match comment with
  | None => fun s h => Some (Err EINVAL, s, h)
  | Some c => sse_append_str (bs ": ") &> sse_append_str c &> sse_append [LF; LF]
  end.

(** The text handed out, and the stream with an empty buffer. *)
Definition ioh_sse_stream_flush (s : ioh_sse_stream_t) : bytes * ioh_sse_stream_t :=
  (take (Z.to_nat (s_buf_len s)) (default [] (s_buf s)), set_buf s (s_buf s) 0 (s_buf_capacity s)).

(** ** Specification: an event-stream reader *)

(** The complete lines of a stream; a line ends at LF, CR or CRLF. *)
Fixpoint split_lines (cur t : bytes) : list bytes :=
  match t with
  | [] => []
  | b :: t =>
      if b =b LF then cur :: split_lines [] t else
      if b =b CR then cur :: match t with
                             | b' :: t' => if b' =b LF then split_lines [] t' else split_lines [] t
                             | [] => []
                             end
      else split_lines (cur ++ [b]) t
  end.

(** The field name of a line and its value, one blank behind the colon dropped. *)
Definition field_of (l : bytes) : bytes * bytes :=
  let '(n, r) := span (fun b => negb (b =b ":"%byte)) l in
  (n, match drop 1 r with b :: v => if b =b SP then v else b :: v | [] => [] end).

Record message := mk_message { m_type : bytes; m_data : bytes; m_id : option bytes; m_retry : option bytes }.

Fixpoint join_lf (ls : list bytes) : bytes :=
  match ls with
  | [] => []
  | [l] => l
  | l :: ls => l ++ LF :: join_lf ls
  end.

(** The messages a reader dispatches: at an empty line, if there was data. *)
Fixpoint read_lines (ls : list bytes) (ty : bytes) (data : list bytes) (id rt : option bytes) : list message :=
  match ls with
  | [] => []
  | [] :: ls =>
      match data with [] => [] | _ => [mk_message ty (join_lf data) id rt] end ++ read_lines ls [] [] None None
  | l :: ls =>
      let '(n, v) := field_of l in
      if bytes_eqb n (bs "event") then read_lines ls v data id rt
      else if bytes_eqb n (bs "data") then read_lines ls ty (data ++ [v]) id rt
      else if bytes_eqb n (bs "id") then read_lines ls ty data (Some v) rt
      else if bytes_eqb n (bs "retry") then read_lines ls ty data id (Some v)
      else read_lines ls ty data id rt
  end.
Definition read_stream (t : bytes) : list message := read_lines (split_lines [] t) [] [] None None.

(** ** What is written *)

Definition stream_text (s : ioh_sse_stream_t) : bytes := take (Z.to_nat (s_buf_len s)) (default [] (s_buf s)).

Record stream_ok (s : ioh_sse_stream_t) : Prop := {
  st_buf : exists b, s_buf s = Some b /\ (0 <= s_buf_len s <= Z.of_nat (length b))%Z
             /\ (Z.of_nat (length b) <= s_buf_capacity s)%Z;
  st_cap : exists k, s_buf_capacity s = (2 ^ k)%Z /\ (10 <= k <= 63)%Z;
}.

(** An operation that appends [t]: for every allocation outcome nothing is stored out
    of bounds and the invariant is kept, and either all of [t] is appended or, with
    [ENOMEM], a part from its start. *)
Definition writes (f : sse_op) (t : bytes) : Prop :=
  forall s h, stream_ok s -> (s_buf_len s + Z.of_nat (length t) <= 2 ^ 63)%Z ->
  exists rc s' h' t', f s h = Some (rc, s', h') /\ stream_ok s' /\ stream_text s' = stream_text s ++ t' /\ t' `prefix_of` t
    /\ s_buf_len s' = (s_buf_len s + Z.of_nat (length t'))%Z
    /\ (rc = Ok tt /\ t' = t /\ (h = [] -> h' = []) \/ rc = Err ENOMEM /\ h ≠ []).

Lemma writes_nop : writes sse_nop [].
Proof. intros s h Hs _. exists (Ok tt), s, h, []. rewrite app_nil_r. split_and!; auto; simpl; lia. Qed.

Lemma writes_then f g a b : writes f a -> writes g b -> writes (f &> g) (a ++ b).
Proof.
  intros Hf Hg s h Hs Hl. rewrite length_app in Hl.
  destruct (Hf s h Hs) as (rc & s1 & h1 & t1 & E & Hs1 & Ht1 & Hp1 & Hn1 & Hrc); [lia|]. unfold sse_then. rewrite E.
  destruct Hrc as [(-> & -> & Hh)|[-> Hh]].
  - destruct (Hg s1 h1 Hs1) as (rc2 & s2 & h2 & t2 & E2 & Hs2 & Ht2 & Hp2 & Hn2 & Hrc2); [lia|]. rewrite E2.
    exists rc2, s2, h2, (a ++ t2). rewrite Ht2, Ht1, app_assoc, length_app. split_and!; auto; [by apply prefix_app|lia|].
    destruct Hrc2 as [(-> & -> & ?)|[-> ?]]; [left|right]; auto.
  - exists (Err ENOMEM), s1, h1, t1. split_and!; auto. by apply prefix_app_r.
Qed.

Lemma store_text s data b :
  stream_ok s -> s_buf s = Some b -> (s_buf_len s + Z.of_nat (length data) <= s_buf_capacity s)%Z ->
  exists s', forall h, sse_store data s h = Some (Ok tt, s', h) /\ stream_ok s' /\ stream_text s' = stream_text s ++ data
    /\ s_buf_len s' = (s_buf_len s + Z.of_nat (length data))%Z.
Proof.
  intros [(b' & Hb & Hl & Hc) Hk] E Hfit. rewrite E in Hb. injection Hb as <-. eexists. intros h. unfold sse_store. rewrite E.
  rewrite (proj2 (Z.ltb_ge _ _)) by lia. split; [reflexivity|]. split; [split; simpl; [|done]|split; [|done]].
  - eexists. split; [reflexivity|]. rewrite !length_app, length_take, length_drop. lia.
  - unfold stream_text. simpl. rewrite E. simpl. rewrite app_assoc.
    rewrite take_app_le by (rewrite length_app, length_take; lia). apply take_ge. rewrite length_app, length_take. lia.
Qed.

Lemma writes_append data : writes (sse_append data) data.
Proof.
  intros s h Hs Hl. pose proof Hs as [(b & Hb & Hbl & Hbc) (k & Hk & Hkr)]. unfold sse_append, sse_then, sse_ensure_capacity.
  assert (Hbig : (2 ^ 63 < 2 ^ 64)%Z) by lia. rewrite u64_small by lia. destruct (Z.leb_spec (s_buf_len s + Z.of_nat (length data)) (s_buf_capacity s)) as [Hle|Hgt].
  - destruct (store_text s data b Hs Hb Hle) as (s' & H). destruct (H h) as (E & Hs' & Ht & Hn). exists (Ok tt), s', h, data.
    split_and!; auto.
  - assert (2 ^ 10 <= 2 ^ k)%Z by (apply Z.pow_le_mono_r; lia).
    rewrite (proj2 (Z.eqb_neq _ _)) by lia. rewrite Hk.
    destruct (grow_size_pow GROW_FUEL k (s_buf_len s + Z.of_nat (length data))) as (k' & Hk' & -> & Hn'); [lia|lia|unfold GROW_FUEL; lia|].
    destruct (xalloc h) as [ok h1] eqn:Ex. destruct ok; cbn [negb].
    + set (s1 := set_buf _ _ _ _). assert (Hs1 : stream_ok s1).
      { split; simpl; [|exists k'; split; [done|lia]]. exists b. rewrite Hb. simpl. split; [done|].
        assert (2 ^ k <= 2 ^ k')%Z by (apply Z.pow_le_mono_r; lia). lia. }
      destruct (store_text s1 data b Hs1) as (s' & Hst); [by subst s1; simpl; rewrite Hb|simpl; lia|].
      destruct (Hst h1) as (E & Hs' & Ht & Hn). exists (Ok tt), s', h1, data. rewrite E. split_and!; [done|done|by rewrite Ht|done|done|].
      left. split_and!; auto. intros ->. simpl in Ex. congruence.
    + exists (Err ENOMEM), s, h1, []. rewrite app_nil_r. split_and!; auto; [apply prefix_nil|simpl; lia|].
      right. split; [done|]. by intros ->.
Qed.

Lemma writes_str t : writes (sse_append_str t) (c_str t).
Proof. apply writes_append. Qed.

Lemma writes_id i : writes (track_id i) [].
Proof.
  intros s h Hs _. unfold track_id. destruct (xalloc h) as [ok h1] eqn:Ex.
  destruct Hs as [Hb Hc]. destruct ok; eexists _, _, h1, []; rewrite app_nil_r; (split; [reflexivity|]); split_and!; auto;
    try (by split); try (simpl; lia); [left|right]; split_and!; auto; intros ->; simpl in Ex; congruence.
Qed.

(** The lines the loop makes of the data. *)
Fixpoint data_lines (fuel : nat) (p : bytes) : list bytes :=
  match fuel with
  | O => []
  | S fuel =>
      match p with
      | [] => []
      | _ => match memchr p LF (length p) with
             | Some i => take i p :: data_lines fuel (drop (i + 1) p)
             | None => [p]
             end
      end
  end.

Definition data_text (ls : list bytes) : bytes := ls ≫= fun l => bs "data: " ++ l ++ [LF].

Lemma writes_data fuel p : length p < fuel -> writes (data_loop fuel p) (data_text (data_lines fuel p)).
Proof.
  revert p. induction fuel as [|fuel IH]; intros p Hf; [lia|]. cbn [data_loop data_lines].
  destruct p as [|b p]; [apply writes_nop|]. set (q := b :: p) in *.
  destruct (memchr q LF (length q)) as [i|] eqn:E; cbn [default from_option Datatypes.id].
  - unfold data_text. rewrite bind_cons. rewrite <- !app_assoc.
    repeat apply writes_then; [apply (writes_str (bs "data: "))|apply writes_append|apply writes_append|].
    apply IH. rewrite length_drop. subst q. simpl in *. lia.
  - rewrite (take_ge q), (drop_ge q) by done. destruct fuel as [|fuel]; [subst q; simpl in Hf; lia|].
    unfold data_text. rewrite bind_cons. cbn [mbind list_bind]. rewrite <- !app_assoc.
    repeat apply writes_then; [apply (writes_str (bs "data: "))|apply writes_append|apply writes_append|apply writes_nop].
Qed.

(** The text of an event and of a comment. *)
Definition field_text (n : bytes) (v : option bytes) : bytes :=
  match v with Some v => n ++ c_str v ++ [LF] | None => [] end.
Definition lines_of (d : bytes) : list bytes := if length d =? 0 then [[]] else data_lines (S (length d)) d.
Definition event_text (e : ioh_sse_event_t) (d : bytes) : bytes :=
  field_text (bs "event: ") (e_event e) ++ field_text (bs "id: ") (e_id e)
  ++ (if (0 <? e_retry_ms e)%Z then bs "retry: " ++ print_dec (e_retry_ms e) ++ [LF] else [])
  ++ data_text (lines_of (c_str d)) ++ [LF].
Definition comment_text (c : bytes) : bytes := bs ": " ++ c_str c ++ [LF; LF].

Lemma writes_event e d : e_data e = Some d -> writes (ioh_sse_format_event e) (event_text e d).
Proof.
  intros Ed. unfold ioh_sse_format_event, event_text. rewrite Ed. apply writes_then; [|apply writes_then; [|apply writes_then]].
  - destruct (e_event e) as [ty|]; [|apply writes_nop]. repeat apply writes_then; [apply (writes_str (bs "event: "))|apply writes_str|apply writes_append].
  - destruct (e_id e) as [i|]; [|apply writes_nop]. cbn [field_text]. rewrite <- (app_nil_r [LF]).
    repeat apply writes_then; [apply (writes_str (bs "id: "))|apply writes_str|apply writes_append|apply writes_id].
  - destruct (0 <? _)%Z; [apply writes_append|apply writes_nop].
  - set (q := c_str d). unfold lines_of. pose proof (writes_data (S (length q)) q ltac:(lia)) as Hd.
    destruct q as [|b q]; cbn [length Nat.eqb].
    + apply (writes_then _ _ [] (data_text [[]] ++ [LF])); [exact Hd|].
      apply writes_then; [apply (writes_str (bs "data: " ++ [LF]))|apply writes_append].
    + apply writes_then; [exact Hd|]. apply (writes_then _ _ [] [LF]); [apply writes_nop|apply writes_append].
Qed.

Lemma writes_comment c : writes (ioh_sse_format_comment (Some c)) (comment_text c).
Proof. repeat apply writes_then; [apply (writes_str (bs ": "))|apply writes_str|apply writes_append]. Qed.

(** ** What is read *)

(** A text without line ends. *)
Definition one_line (v : bytes) : Prop := LF ∉ v /\ CR ∉ v.

Lemma split_one l t : one_line l -> split_lines [] (l ++ LF :: t) = l :: split_lines [] t.
Proof.
  intros [Hl Hc]. assert (Hgo : forall cur, split_lines cur (l ++ LF :: t) = (cur ++ l) :: split_lines [] t); [|apply Hgo].
  induction l as [|b l IH]; intros cur; simpl; [by rewrite app_nil_r|].
  apply not_elem_of_cons in Hl as [? Hl]. apply not_elem_of_cons in Hc as [? Hc].
  unfold beq. rewrite !bool_decide_false by done. rewrite IH by done. by rewrite <- app_assoc.
Qed.

Abbreviation reads t := (read_lines (split_lines [] t)).

Lemma field_of_line n v : ":"%byte ∉ n -> field_of (n ++ bs ": " ++ v) = (n, v).
Proof.
  intros Hn. unfold field_of. change (bs ": " ++ v) with (":"%byte :: SP :: v).
  rewrite (span_app _ n (":"%byte :: SP :: v)); [done| |done].
  apply Forall_forall. intros b Hb. apply negb_true_iff, bool_decide_eq_false. by intros ->.
Qed.

(** A line with a field. *)
Lemma reads_field n v t ty d i r :
  n ≠ [] -> ":"%byte ∉ n -> one_line n -> one_line v ->
  reads (n ++ bs ": " ++ v ++ LF :: t) ty d i r =
    if bytes_eqb n (bs "event") then reads t v d i r
    else if bytes_eqb n (bs "data") then reads t ty (d ++ [v]) i r
    else if bytes_eqb n (bs "id") then reads t ty d (Some v) r
    else if bytes_eqb n (bs "retry") then reads t ty d i (Some v)
    else reads t ty d i r.
Proof.
  intros Hne Hc [Hn1 Hn2] [Hv1 Hv2]. replace (n ++ bs ": " ++ v ++ LF :: t) with ((n ++ bs ": " ++ v) ++ LF :: t) by (by rewrite <- !app_assoc).
  rewrite split_one.
  2:{ split; rewrite !elem_of_app; (intros [?|[H|?]]; [done| |done]); revert H; bcompute. }
  destruct n as [|b n]; [done|]. cbn [app read_lines]. change (b :: n ++ bs ": " ++ v) with ((b :: n) ++ bs ": " ++ v).
  by rewrite field_of_line.
Qed.

Lemma reads_blank t ty d i r :
  reads (LF :: t) ty d i r = match d with [] => [] | _ => [mk_message ty (join_lf d) i r] end ++ reads t [] [] None None.
Proof. done. Qed.

Lemma reads_data ls t ty d i r :
  Forall one_line ls -> reads (data_text ls ++ t) ty d i r = reads t ty (d ++ ls) i r.
Proof.
  revert d. induction ls as [|l ls IH]; intros d Hls; [by rewrite app_nil_r|]. apply Forall_cons in Hls as [Hl Hls].
  unfold data_text in *. rewrite bind_cons. change (bs "data: " ++ ?x) with (bs "data" ++ bs ": " ++ x).
  rewrite <- !app_assoc. cbn [app]. change ((l ++ LF :: ?x)) with (l ++ LF :: x).
  rewrite (reads_field (bs "data") l); [|done|bcompute|split; bcompute|done].
  replace (bytes_eqb (bs "data") (bs "event")) with false by (vm_compute; reflexivity).
  replace (bytes_eqb (bs "data") (bs "data")) with true by (vm_compute; reflexivity).
  rewrite IH by done. by rewrite <- app_assoc.
Qed.

Lemma data_lines_spec fuel p :
  length p < fuel -> CR ∉ p ->
  Forall one_line (data_lines fuel p) /\ (p ≠ [] -> data_lines fuel p ≠ [])
  /\ (last p ≠ Some LF -> join_lf (data_lines fuel p) = p).
Proof.
  revert p. induction fuel as [|fuel IH]; intros p Hf Hc; [lia|]. cbn [data_lines].
  destruct p as [|b p]; [done|]. set (q := b :: p) in *. assert (Hq : 0 < length q) by (subst q; simpl; lia).
  destruct (memchr q LF (length q)) as [i|] eqn:E.
  - apply memchr_Some in E as (Hi & Hlf & Hno). assert (Hsplit : q = take i q ++ LF :: drop (i + 1) q).
    { rewrite <- (take_drop i q) at 1. f_equal. rewrite (drop_S _ _ _ Hlf). f_equal. f_equal. lia. }
    assert (Hc2 : CR ∉ drop (i + 1) q) by (intros H; apply Hc; rewrite Hsplit; apply elem_of_app; right; by right).
    destruct (IH (drop (i + 1) q)) as (Hl & Hn & Hj); [rewrite length_drop; lia|done|]. split_and!.
    + constructor; [|done]. split; [done|]. intros H. apply Hc. rewrite Hsplit. apply elem_of_app. by left.
    + done.
    + intros Hlast. assert (Hne : drop (i + 1) q ≠ []).
      { intros Hnil. rewrite Hsplit, Hnil in Hlast. rewrite last_app in Hlast. done. }
      specialize (Hn Hne). specialize (Hj ltac:(intros H; apply Hlast; rewrite Hsplit, last_app_cons;
        change (LF :: drop (i + 1) q) with ([LF] ++ drop (i + 1) q); by rewrite last_app, H)).
      destruct (data_lines fuel (drop (i + 1) q)) as [|x xs] eqn:Ed; [done|].
      change (join_lf (take i q :: x :: xs)) with (take i q ++ LF :: join_lf (x :: xs)). rewrite Hj. by rewrite <- Hsplit.
  - apply memchr_None in E. rewrite firstn_all in E. split_and!; [by repeat constructor|done|done].
Qed.

(** An event whose texts are free of line ends, apart from those inside the data. *)
Record event_ok (e : ioh_sse_event_t) (d : bytes) : Prop := {
  eo_data : e_data e = Some d;
  eo_plain : NUL ∉ d /\ CR ∉ d /\ last d ≠ Some LF;
  eo_event : forall t, e_event e = Some t -> NUL ∉ t /\ one_line t;
  eo_id : forall t, e_id e = Some t -> NUL ∉ t /\ one_line t;
  eo_retry : (0 <= e_retry_ms e)%Z;
}.

Definition event_message (e : ioh_sse_event_t) (d : bytes) : message :=
  mk_message (default [] (e_event e)) d (e_id e)
    (if (0 <? e_retry_ms e)%Z then Some (print_dec (e_retry_ms e)) else None).

Lemma digits_one_line z : (0 <= z)%Z -> one_line (print_dec z).
Proof. intros Hz. pose proof (print_dec_digits z Hz) as Hd. rewrite Forall_forall in Hd. split; intros H; by apply Hd in H. Qed.

Lemma reads_event e d t :
  event_ok e d -> reads (event_text e d ++ t) [] [] None None = event_message e d :: reads t [] [] None None.
Proof.
  intros [Hd (Hn & Hc & Hlast) He Hi Hr]. unfold event_text, event_message. rewrite (c_str_plain d) by done.
  rewrite <- !app_assoc. cbn [app].
  set (t3 := data_text (lines_of d) ++ LF :: t).
  assert (H3 : forall ty i r, reads t3 ty [] i r = mk_message ty d i r :: reads t [] [] None None).
  { intros ty i r. subst t3. unfold lines_of. destruct (data_lines_spec (S (length d)) d) as (Hl & Hne & Hj); [lia|done|].
    destruct d as [|b d]; [done|]. change (length (b :: d) =? 0) with false. cbv iota.
    specialize (Hne ltac:(done)). specialize (Hj Hlast). destruct (data_lines _ _) as [|x xs]; [done|].
    rewrite reads_data by done. rewrite reads_blank. cbn [app]. by rewrite Hj. }
  clearbody t3.
  set (t2 := (if (0 <? e_retry_ms e)%Z then bs "retry: " ++ print_dec (e_retry_ms e) ++ [LF] else []) ++ t3).
  assert (H2 : forall ty i, reads t2 ty [] i None =
    mk_message ty d i (if (0 <? e_retry_ms e)%Z then Some (print_dec (e_retry_ms e)) else None) :: reads t [] [] None None).
  { intros ty i. subst t2. destruct (0 <? _)%Z; [|apply H3].
    change (bs "retry: " ++ ?x) with (bs "retry" ++ bs ": " ++ x). rewrite <- !app_assoc. cbn [app].
    rewrite (reads_field (bs "retry")); [apply H3|done|bcompute|split; bcompute|by apply digits_one_line]. }
  clearbody t2. set (t1 := field_text (bs "id: ") (e_id e) ++ t2).
  assert (H1 : forall ty, reads t1 ty [] None None =
    mk_message ty d (e_id e) (if (0 <? e_retry_ms e)%Z then Some (print_dec (e_retry_ms e)) else None) :: reads t [] [] None None).
  { intros ty. subst t1. destruct (e_id e) as [i|]; [|apply H2]. destruct (Hi i eq_refl). cbn [field_text]. rewrite c_str_plain by done.
    change (bs "id: " ++ ?x) with (bs "id" ++ bs ": " ++ x). rewrite <- !app_assoc. cbn [app].
    rewrite (reads_field (bs "id")); [apply H2|done|bcompute|split; bcompute|done]. }
  clearbody t1. destruct (e_event e) as [ty|]; [|apply H1]. destruct (He ty eq_refl). cbn [field_text]. rewrite c_str_plain by done.
  change (bs "event: " ++ ?x) with (bs "event" ++ bs ": " ++ x). rewrite <- !app_assoc. cbn [app].
  rewrite (reads_field (bs "event")); [apply H1|done|bcompute|split; bcompute|done].
Qed.

Lemma reads_comment c t : NUL ∉ c -> one_line c -> reads (comment_text c ++ t) [] [] None None = reads t [] [] None None.
Proof.
  intros Hn [Hc1 Hc2]. unfold comment_text. rewrite c_str_plain by done. rewrite <- !app_assoc. cbn [app].
  replace (bs ": " ++ c ++ LF :: LF :: t) with ((bs ": " ++ c) ++ LF :: LF :: t) by (by rewrite <- app_assoc).
  rewrite split_one; [by vm_compute|]. split; rewrite elem_of_app; (intros [H|?]; [|done]); revert H; bcompute.
Qed.

(** ** Calls on a stream *)

Inductive sse_call := CEvent (e : ioh_sse_event_t) (d : bytes) | CComment (c : bytes).

Definition call_op (c : sse_call) : sse_op :=
  match c with CEvent e _ => ioh_sse_format_event e | CComment c => ioh_sse_format_comment (Some c) end.
Definition call_text (c : sse_call) : bytes :=
  match c with CEvent e d => event_text e d | CComment c => comment_text c end.
Definition call_message (c : sse_call) : list message :=
  match c with CEvent e d => [event_message e d] | CComment _ => [] end.
Definition call_ok (c : sse_call) : Prop :=
  match c with CEvent e d => event_ok e d | CComment c => NUL ∉ c /\ one_line c end.

Fixpoint run_calls (cs : list sse_call) : sse_op :=
  match cs with [] => sse_nop | c :: cs => call_op c &> run_calls cs end.

Lemma writes_calls cs : Forall call_ok cs -> writes (run_calls cs) (cs ≫= call_text).
Proof.
  induction 1 as [|c cs Hc _ IH]; [apply writes_nop|]. rewrite bind_cons. apply writes_then; [|done].
  destruct c as [e d|c]; [apply writes_event, Hc|apply writes_comment].
Qed.

Lemma reads_calls cs : Forall call_ok cs -> read_stream (cs ≫= call_text) = cs ≫= call_message.
Proof.
  unfold read_stream. induction 1 as [|c cs Hc _ IH]; [done|]. rewrite !bind_cons.
  destruct c as [e d|c]; cbn [call_text call_message app]; [rewrite reads_event by done|destruct Hc; rewrite reads_comment by done]; by rewrite IH.
Qed.

(** C32: Events reach the reader.  After any sequence of events and comments formatted
    into a new stream (any allocation failures apart, which end the sequence with
    [ENOMEM] and store nothing out of bounds), the flushed text, read as an event
    stream, is exactly those events in order: type, identifier, retry time and data,
    the data's inner line ends included.  Types, identifiers and comments hold no line
    end, the data no CR and no LF at its end. *)
Theorem sse_events_read_back cs h s0 h0 :
  ioh_sse_stream_init h0 = (Ok tt, s0, h) -> Forall call_ok cs -> (Z.of_nat (length (cs ≫= call_text)) <= 2 ^ 63)%Z ->
  exists rc s h', run_calls cs s0 h = Some (rc, s, h') /\ stream_ok s
    /\ (rc = Ok tt /\ read_stream (fst (ioh_sse_stream_flush s)) = cs ≫= call_message \/ rc = Err ENOMEM /\ h ≠ [])
    /\ stream_text (snd (ioh_sse_stream_flush s)) = [].
Proof.
  unfold ioh_sse_stream_init. destruct (xalloc h0) as [[] h1]; cbn [negb]; intros [= <- <-] Hcs Hl.
  set (s0 := mk_stream _ _ _ _ _). assert (Hs0 : stream_ok s0).
  { split; simpl; [exists []; simpl; unfold IOH_SSE_INITIAL_BUF; split; [done|lia]|exists 10%Z; split; [done|lia]]. }
  destruct (writes_calls cs Hcs s0 h1 Hs0 ltac:(simpl; lia)) as (rc & s & h' & t & E & Hs & Ht & _ & _ & Hrc).
  exists rc, s, h'. split; [done|]. split; [done|]. split; [|done].
  destruct Hrc as [(-> & -> & _)|[-> Hh]]; [left|by right]. split; [done|].
  change (fst (ioh_sse_stream_flush s)) with (stream_text s). rewrite Ht. by apply reads_calls.
Qed.

(** ** Witness and examples *)

Definition demo_calls : list sse_call :=
  [CComment (bs "hello"); CEvent (mk_event (Some (bs "tick")) (Some (bs "a" ++ [LF; LF] ++ bs "b")) (Some (bs "7")) 250) (bs "a" ++ [LF; LF] ++ bs "b");
   CEvent (mk_event None (Some []) None 0) []].

Lemma demo_calls_ok : Forall call_ok demo_calls.
Proof.
  unfold demo_calls. apply Forall_cons_2; [split; [bcompute|split; bcompute]|].
  apply Forall_cons_2; [|apply Forall_cons_2; [|apply Forall_nil_2]]; split; cbn [e_data e_event e_id e_retry_ms].
  - done.
  - split_and!; [bcompute|bcompute|vm_compute; discriminate].
  - intros t [= <-]. split; [bcompute|split; bcompute].
  - intros t [= <-]. split; [bcompute|split; bcompute].
  - lia.
  - done.
  - split_and!; [bcompute|bcompute|vm_compute; discriminate].
  - intros t [=].
  - intros t [=].
  - lia.
Qed.

Lemma sse_events_read_back_witness :
  exists s, run_calls demo_calls (snd (fst (ioh_sse_stream_init []))) [] = Some (Ok tt, s, [])
    /\ read_stream (fst (ioh_sse_stream_flush s)) =
         [mk_message (bs "tick") (bs "a" ++ [LF; LF] ++ bs "b") (Some (bs "7")) (Some (bs "250")); mk_message [] [] None None].
Proof.
  destruct (sse_events_read_back demo_calls [] (snd (fst (ioh_sse_stream_init []))) []) as (rc & s & h' & E & _ & Hr & _).
  - reflexivity.
  - exact demo_calls_ok.
  - vm_compute. discriminate.
  - destruct Hr as [[Hok Hr]|[_ Hn]]; [|destruct (Hn eq_refl)]. subst rc.
    exists s. split; [|rewrite Hr; vm_compute; reflexivity]. rewrite E. f_equal. f_equal.
    vm_compute in E. injection E as <- <-. reflexivity.
Defined.

(** A line end at the end of the data is lost, and a CR inside it starts a new field. *)
Example sse_trailing_newline_lost :
  lines_of (bs "a" ++ [LF]) = [bs "a"].
Proof. vm_compute. reflexivity. Qed.

Example sse_cr_splits_data :
  m_type <$> read_stream (event_text (mk_event None (Some (bs "a" ++ CR :: bs "event: x")) None 0) (bs "a" ++ CR :: bs "event: x")) = [bs "x"].
Proof. vm_compute. reflexivity. Qed.
