(* ===== verification/Auth.v ===== *)
(** Basic and Bearer authentication ([src/src/middleware/ioh_auth.h],
    [ioh_auth.c]): the Base64 decoder and the two middleware functions.

    The verification callback is an argument.  The decode buffer of the Basic
    middleware is an uninitialised local array: its contents before the call are
    the argument [stack]. *)
From S2P Require Import Prelude CString Radix Request RequestThms Response ResponseThms.

(** ** Base64 *)

(** [B64_TABLE], zero where the source's initialiser has no entry. *)
Definition b64_table (b : byte) : Z :=
  let c := b2z b in
  (if (65 <=? c) && (c <=? 90) then c - 65
   else if (97 <=? c) && (c <=? 122) then c - 97 + 26
   else if (48 <=? c) && (c <=? 57) then c - 48 + 52
   else if c =? 43 then 62 else if c =? 47 then 63 else 0)%Z.

(** The conversion to [char]. *)
Definition low_byte (z : Z) : byte := default x00 (Byte.of_N (Z.to_N (z mod 256))).

(** The number of characters left when trailing padding is dropped. *)
Fixpoint strip_padding (src : bytes) (len : nat) : nat :=
  match len with
  | O => 0
  | S n => if char_at src n =b "="%byte then strip_padding src n else len
  end.

(** The loop over the characters; [out] holds the bytes written so far. *)
Fixpoint b64_loop (src : bytes) (accum bits : Z) (out : bytes) : option bytes :=
  match src with
  | [] => Some out
  | ch :: src =>
      let val := b64_table ch in
      if ((val =? 0)%Z && negb (ch =b "A"%byte)) then None else
      let accum := Z.lor (u32 (Z.shiftl accum 6)) val in
      let bits := (bits + 6)%Z in
      if (8 <=? bits)%Z then
        let bits := (bits - 8)%Z in
        b64_loop src (Z.land accum (Z.shiftl 1 bits - 1)) bits (out ++ [low_byte (Z.shiftr accum bits)])
      else b64_loop src accum bits out
  end.

(** The decoded length and the output buffer, [out] before the call; [None] is the
    result -1. *)
Definition b64_decode (src : bytes) (src_len : nat) (out : bytes) (out_size : nat) : option (nat * bytes) :=
  if src_len =? 0 then Some (0, out) else
  let len := strip_padding src src_len in
  if out_size <=? len * 3 / 4 then None else
  match b64_loop (take len src) 0 0 [] with
  | None => None
  | Some decoded => Some (length decoded, decoded ++ NUL :: drop (length decoded + 1) out)
  end.

(** ** Middleware *)

(** What a middleware does: it answers, or it calls [next]. *)
Inductive verdict :=
| Answered (s : step)
| Forwarded.

(** Status 401 and the challenge; the result of setting the header is ignored. *)
Definition challenge (h : heap) (r : ioh_response_t) (realm : bytes) : verdict :=
  Answered (ioh_response_set_header h (with_status r 401) (Some (bs "WWW-Authenticate")) (Some realm)).

Definition basic_realm : bytes := bs "Basic realm=" ++ DQUOTE :: bs "iohttp" ++ [DQUOTE].

Definition DECODED_SIZE : nat := 512.

Definition basic_middleware (verify : bytes -> bool) (stack : bytes) (req : ioh_request_t)
    (h : heap) (r : ioh_response_t) : verdict :=
  match ioh_request_header req (bs "Authorization") with
  | None => challenge h r basic_realm
  | Some auth =>
      if negb (strncmp_eq auth (bs "Basic ") 6) then challenge h r basic_realm else
      let encoded := drop 6 auth in
      match b64_decode encoded (strlen encoded) stack DECODED_SIZE with
      | None => challenge h r basic_realm
      | Some (_, decoded) => if verify (c_str decoded) then Forwarded else challenge h r basic_realm
      end
  end.

Definition bearer_middleware (verify : bytes -> bool) (req : ioh_request_t)
    (h : heap) (r : ioh_response_t) : verdict :=
  match ioh_request_header req (bs "Authorization") with
  | None => challenge h r (bs "Bearer")
  | Some auth =>
      if negb (strncmp_eq auth (bs "Bearer ") 7) then challenge h r (bs "Bearer") else
      if verify (c_str (drop 7 auth)) then Forwarded else challenge h r (bs "Bearer")
  end.

(** The thread-local state of the two middleware functions: one callback each. *)
Record auth_state := mk_auth_state {
  tl_basic_state : option (bytes -> bool);
  tl_bearer_state : option (bytes -> bool);
}.

(** Was a middleware returned, and the state after the call. *)
Definition ioh_auth_basic_create (verify : option (bytes -> bool)) (h : heap) (st : auth_state)
    : bool * auth_state * heap :=
  match verify with
  | None => (false, st, h)
  | Some v => let '(ok, h) := xalloc h in
              if negb ok then (false, st, h) else (true, mk_auth_state (Some v) (tl_bearer_state st), h)
  end.

Definition ioh_auth_bearer_create (verify : option (bytes -> bool)) (h : heap) (st : auth_state)
    : bool * auth_state * heap :=
  match verify with
  | None => (false, st, h)
  | Some v => let '(ok, h) := xalloc h in
              if negb ok then (false, st, h) else (true, mk_auth_state (tl_basic_state st) (Some v), h)
  end.

Definition ioh_auth_destroy (st : auth_state) : auth_state := mk_auth_state None None.

(** ** Base64 encoding (RFC 4648), the specification *)

Definition b64_alphabet : bytes :=
  bs "ABCDEFGHIJKLMNOPQRSTUVWXYZabcdefghijklmnopqrstuvwxyz0123456789+/".
Definition b64_char (v : Z) : byte := default x00 (b64_alphabet !! Z.to_nat v).

Fixpoint b64_encode (s : bytes) : bytes :=
  match s with
  | a :: b :: c :: s =>
      [b64_char (b2z a / 4); b64_char (b2z a mod 4 * 16 + b2z b / 16);
       b64_char (b2z b mod 16 * 4 + b2z c / 64); b64_char (b2z c mod 64)]%Z ++ b64_encode s
  | [a; b] =>
      [b64_char (b2z a / 4); b64_char (b2z a mod 4 * 16 + b2z b / 16); b64_char (b2z b mod 16 * 4); "="%byte]%Z
  | [a] => [b64_char (b2z a / 4); b64_char (b2z a mod 4 * 16); "="%byte; "="%byte]%Z
  | [] => []
  end.

(** ** Lemmas *)

Lemma b64_char_ok v :
  (0 <= v < 64)%Z ->
  b64_table (b64_char v) = v /\ (b64_char v = "A"%byte \/ v ≠ 0%Z) /\ b64_char v ≠ "="%byte /\ b64_char v ≠ NUL.
Proof.
  intros Hv.
  assert (Hall : Forall (fun n =>
            b64_table (b64_char (Z.of_nat n)) = Z.of_nat n
            /\ (b64_char (Z.of_nat n) = "A"%byte \/ Z.of_nat n ≠ 0%Z)
            /\ b64_char (Z.of_nat n) ≠ "="%byte /\ b64_char (Z.of_nat n) ≠ NUL) (seq 0 64)).
  { bcompute. }
  rewrite Forall_forall in Hall. specialize (Hall (Z.to_nat v)). rewrite Z2Nat.id in Hall by lia.
  apply Hall. apply elem_of_seq. lia.
Qed.

Lemma lor_shift a v : (0 <= v < 64)%Z -> Z.lor (Z.shiftl a 6) v = (a * 64 + v)%Z.
Proof.
  intros Hv. assert (Hz : Z.land (Z.shiftl a 6) v = 0%Z).
  { apply Z.bits_inj'. intros n Hn. rewrite Z.land_spec, Z.bits_0.
    destruct (Z.lt_ge_cases n 6); [by rewrite Z.shiftl_spec_low|].
    rewrite <- (Z.mod_small v (2 ^ 6)) by lia. rewrite Z.mod_pow2_bits_high by lia. apply andb_false_r. }
  rewrite <- Z.lxor_lor by done. rewrite <- Z.add_nocarry_lxor by done. rewrite Z.shiftl_mul_pow2 by lia. lia.
Qed.

Lemma low_byte_id b : low_byte (b2z b) = b.
Proof.
  unfold low_byte, b2z. pose proof (Byte.to_N_bounded b). rewrite Z.mod_small by lia.
  rewrite N2Z.id, Byte.of_to_N. done.
Qed.

(** One character, in arithmetic. *)
Lemma b64_step v src acc bits out :
  (0 <= v < 64)%Z -> (0 <= bits <= 6)%Z -> (0 <= acc < 64)%Z ->
  b64_loop (b64_char v :: src) acc bits out =
    if (2 <=? bits)%Z
    then b64_loop src ((acc * 64 + v) mod 2 ^ (bits - 2)) (bits - 2)
           (out ++ [low_byte ((acc * 64 + v) / 2 ^ (bits - 2))])
    else b64_loop src (acc * 64 + v) (bits + 6) out.
Proof.
  intros Hv Hb Ha. destruct (b64_char_ok v Hv) as (Ht & Hz & _). cbn [b64_loop]. rewrite Ht.
  replace ((v =? 0)%Z && negb (b64_char v =b "A"%byte)) with false.
  2:{ symmetry. destruct Hz as [Hz|Hz].
      - rewrite Hz. rewrite beq_refl. apply andb_false_r.
      - apply Z.eqb_neq in Hz. by rewrite Hz. }
  rewrite u32_small by (rewrite Z.shiftl_mul_pow2 by lia; lia). rewrite lor_shift by done.
  replace (8 <=? bits + 6)%Z with (2 <=? bits)%Z by (apply eq_true_iff_eq; rewrite !Z.leb_le; lia).
  destruct (2 <=? bits)%Z eqn:E; [|done]. bprop.
  replace (bits + 6 - 8)%Z with (bits - 2)%Z by lia.
  change (Z.shiftl 1 (bits - 2) - 1)%Z with (Z.pred (Z.shiftl 1 (bits - 2))). fold (Z.ones (bits - 2)).
  rewrite Z.land_ones by lia. by rewrite Z.shiftr_div_pow2 by lia.
Qed.

(** One character as a step on the pair (bits held, their value). *)
Lemma b64_step0 v src out :
  (0 <= v < 64)%Z -> b64_loop (b64_char v :: src) 0 0 out = b64_loop src v 6 out.
Proof. intros Hv. by rewrite b64_step by lia. Qed.

Lemma b64_step_emit (k : Z) v src acc out :
  (k = 2 \/ k = 4 \/ k = 6)%Z -> (0 <= v < 64)%Z -> (0 <= acc < 64)%Z ->
  b64_loop (b64_char v :: src) acc k out =
    b64_loop src ((acc * 64 + v) mod 2 ^ (k - 2)) (k - 2) (out ++ [low_byte ((acc * 64 + v) / 2 ^ (k - 2))]).
Proof. intros Hk Hv Ha. rewrite b64_step by lia. by destruct Hk as [->|[->| ->]]. Qed.

(** The two characters that hold a byte [a] and the upper half [x] of the next. *)
Lemma b64_first a x src out :
  (0 <= x < 16)%Z ->
  b64_loop (b64_char (b2z a / 4) :: b64_char (b2z a mod 4 * 16 + x) :: src) 0 0 out
  = b64_loop src x 4 (out ++ [a]).
Proof.
  intros Hx. pose proof (b2z_range a). rewrite b64_step0 by zdiv. rewrite b64_step_emit by (lia || zdiv).
  change (2 ^ (6 - 2))%Z with 16%Z. change (6 - 2)%Z with 4%Z.
  replace ((b2z a / 4 * 64 + (b2z a mod 4 * 16 + x)) mod 16)%Z with x by zdiv.
  replace ((b2z a / 4 * 64 + (b2z a mod 4 * 16 + x)) / 16)%Z with (b2z a) by zdiv.
  by rewrite low_byte_id.
Qed.

Lemma b64_second b y src out :
  (0 <= y < 4)%Z ->
  b64_loop (b64_char (b2z b mod 16 * 4 + y) :: src) (b2z b / 16) 4 out = b64_loop src y 2 (out ++ [b]).
Proof.
  intros Hy. pose proof (b2z_range b). rewrite b64_step_emit by (lia || zdiv).
  change (2 ^ (4 - 2))%Z with 4%Z. change (4 - 2)%Z with 2%Z.
  replace ((b2z b / 16 * 64 + (b2z b mod 16 * 4 + y)) mod 4)%Z with y by zdiv.
  replace ((b2z b / 16 * 64 + (b2z b mod 16 * 4 + y)) / 4)%Z with (b2z b) by zdiv.
  by rewrite low_byte_id.
Qed.

Lemma b64_third c src out :
  b64_loop (b64_char (b2z c mod 64) :: src) (b2z c / 64) 2 out = b64_loop src 0 0 (out ++ [c]).
Proof.
  pose proof (b2z_range c). rewrite b64_step_emit by (lia || zdiv).
  change (2 ^ (2 - 2))%Z with 1%Z. change (2 - 2)%Z with 0%Z. rewrite Z.mod_1_r, Z.div_1_r.
  replace (b2z c / 64 * 64 + b2z c mod 64)%Z with (b2z c) by zdiv. by rewrite low_byte_id.
Qed.

(** The characters of an encoding, and the padding after them. *)
Fixpoint b64_body (s : bytes) : bytes :=
  match s with
  | a :: b :: c :: s =>
      [b64_char (b2z a / 4); b64_char (b2z a mod 4 * 16 + b2z b / 16);
       b64_char (b2z b mod 16 * 4 + b2z c / 64); b64_char (b2z c mod 64)]%Z ++ b64_body s
  | [a; b] => [b64_char (b2z a / 4); b64_char (b2z a mod 4 * 16 + b2z b / 16); b64_char (b2z b mod 16 * 4)]%Z
  | [a] => [b64_char (b2z a / 4); b64_char (b2z a mod 4 * 16)]%Z
  | [] => []
  end.

(** Induction three bytes at a time. *)
Lemma bytes_ind3 (P : bytes -> Prop) :
  P [] -> (forall a, P [a]) -> (forall a b, P [a; b]) ->
  (forall a b c s, P s -> P (a :: b :: c :: s)) -> forall s, P s.
Proof.
  intros H0 H1 H2 H3. assert (Hall : forall n s, length s < n -> P s).
  { induction n as [|n IH]; intros s Hl; [lia|].
    destruct s as [|a [|b [|c s]]]; auto. apply H3, IH. simpl in Hl. lia. }
  intros s. apply (Hall (S (length s))). lia.
Qed.

Lemma b64_loop_body s out : b64_loop (b64_body s) 0 0 out = Some (out ++ s).
Proof.
  revert out. induction s as [|a|a b|a b c s IH] using bytes_ind3; intros out; cbn [b64_body app].
  - by rewrite app_nil_r.
  - rewrite <- (Z.add_0_r (b2z a mod 4 * 16)). by rewrite b64_first by lia.
  - pose proof (b2z_range b). rewrite b64_first by zdiv.
    rewrite <- (Z.add_0_r (b2z b mod 16 * 4)), b64_second by lia. cbn [b64_loop]. by rewrite <- app_assoc.
  - pose proof (b2z_range b). pose proof (b2z_range c).
    rewrite b64_first, b64_second, b64_third, IH by zdiv. by rewrite <- !app_assoc.
Qed.

Lemma b64_encode_body s :
  exists pad, b64_encode s = b64_body s ++ pad /\ Forall (fun b => b = "="%byte) pad
    /\ length (b64_body s) * 3 / 4 = length s.
Proof.
  induction s as [|a|a b|a b c s IH] using bytes_ind3.
  - exists []. by repeat split.
  - exists ["="%byte; "="%byte]. by repeat constructor.
  - exists ["="%byte]. by repeat constructor.
  - destruct IH as (pad & E & Hp & Hl). exists pad. cbn [b64_encode b64_body]. rewrite E, app_assoc.
    split; [done|]. split; [done|]. rewrite length_app. cbn [length].
    replace ((4 + length (b64_body s)) * 3) with (length (b64_body s) * 3 + 3 * 4) by lia.
    rewrite Nat.div_add by lia. lia.
Qed.

Lemma b64_body_chars s : Forall (fun b => b ≠ "="%byte /\ b ≠ NUL) (b64_body s).
Proof.
  assert (Hc : forall v, (0 <= v < 64)%Z -> b64_char v ≠ "="%byte /\ b64_char v ≠ NUL).
  { intros v Hv. by destruct (b64_char_ok v Hv) as (_ & _ & ? & ?). }
  induction s as [|a|a b|a b c s IH] using bytes_ind3; cbn [b64_body app]; try pose proof (b2z_range a);
    try pose proof (b2z_range b); try pose proof (b2z_range c); repeat constructor; try done;
    apply Hc; zdiv.
Qed.

Lemma strip_padding_app body pad post :
  Forall (fun b => b ≠ "="%byte) body -> Forall (fun b => b = "="%byte) pad ->
  strip_padding (body ++ pad ++ post) (length (body ++ pad)) = length body.
Proof.
  intros Hb Hp. revert post. induction pad as [|x pad IH] using rev_ind; intros post.
  - rewrite app_nil_r. destruct body as [|y body] using rev_ind; [done|].
    apply Forall_app in Hb as [_ Hy]. inv Hy. rewrite length_app, Nat.add_comm. cbn [length Nat.add strip_padding].
    unfold char_at. rewrite <- app_assoc. cbn [app]. rewrite list_lookup_middle by done.
    change (default NUL (Some y)) with y. rewrite (proj2 (beq_false y "="%byte)) by done. done.
  - apply Forall_app in Hp as [Hp Hx]. inv Hx. rewrite !length_app. cbn [length].
    replace (length body + (length pad + 1)) with (S (length (body ++ pad))) by llia.
    cbn [strip_padding]. unfold char_at. rewrite <- app_assoc. rewrite (app_assoc body pad).
    cbn [app]. rewrite list_lookup_middle by done.
    change (default NUL (Some "="%byte)) with "="%byte. rewrite beq_refl.
    rewrite <- app_assoc. by apply IH.
Qed.

Lemma b64_encode_no_nul s : NUL ∉ b64_encode s.
Proof.
  destruct (b64_encode_body s) as (pad & -> & Hp & _). rewrite elem_of_app. intros [Hin|Hin].
  - pose proof (b64_body_chars s) as Hf. rewrite Forall_forall in Hf. by apply Hf in Hin as [_ ?].
  - rewrite Forall_forall in Hp. by apply Hp in Hin.
Qed.

Lemma b64_decode_encode s post out n :
  s ≠ [] -> length s < n ->
  b64_decode (b64_encode s ++ post) (length (b64_encode s)) out n
  = Some (length s, s ++ NUL :: drop (length s + 1) out).
Proof.
  intros Hne Hn. unfold b64_decode. destruct (b64_encode_body s) as (pad & -> & Hp & Hl).
  replace (length (b64_body s ++ pad) =? 0) with false.
  2:{ symmetry. apply Nat.eqb_neq. rewrite length_app. destruct s as [|? [|? [|? ?]]]; [done|simpl; lia..]. }
  rewrite <- app_assoc. rewrite strip_padding_app; [|eapply Forall_impl; [apply b64_body_chars|]; by intros ? []|done].
  rewrite Hl. test_false (n <=? length s).
  by rewrite take_app_length, b64_loop_body.
Qed.

(** ** The properties *)

(** The answer is 401 with the Basic challenge, over the response [r]. *)
Definition challenged (r : ioh_response_t) (v : verdict) : Prop :=
  exists r', v = Answered (Some (Ok tt, r', [])) /\ response_ok r' /\ r_status r' = 401%Z /\ body_text r' = body_text r
    /\ values (bs "WWW-Authenticate") r' = (bs "Basic realm=" ++ DQUOTE :: bs "iohttp" ++ [DQUOTE]) :: tail (values (bs "WWW-Authenticate") r)
    /\ forall k, lower k ≠ bs "www-authenticate" -> values k r' = values k r.

Lemma challenge_made r :
  response_ok r -> (Z.of_nat (length (r_headers r)) < 2 ^ 31)%Z -> challenged r (challenge [] r basic_realm).
Proof.
  intros Hr Hc. unfold challenge, challenged.
  destruct (response_set_header_spec [] (with_status r 401) (bs "WWW-Authenticate") basic_realm) as (rc & r' & h' & E & Hr' & Hs & Hv);
    [by destruct Hr; split|done|bcompute|nle|bcompute|nle|].
  rewrite E. destruct (set_header_mem _ _ _ _ _ _ E) as [-> ->]. exists r'. destruct Hs as (H1 & H2 & H3 & _).
  split; [done|]. split; [done|]. split; [done|]. split; [unfold body_text; by rewrite H2, H3|]. split.
  - rewrite Hv, decide_True by done. done.
  - intros k Hk. rewrite Hv, decide_False; [done|]. exact Hk.
Qed.

Lemma basic_decoded verify stack creds tail req h r :
  creds ≠ [] -> NUL ∉ creds -> length creds < DECODED_SIZE ->
  ioh_request_header req (bs "Authorization") = Some (bs "Basic " ++ b64_encode creds ++ NUL :: tail) ->
  basic_middleware verify stack req h r = if verify creds then Forwarded else challenge h r basic_realm.
Proof.
  intros Hne Hn Hl Hh. unfold basic_middleware. rewrite Hh.
  assert (Hpre : strncmp_eq (bs "Basic " ++ b64_encode creds ++ NUL :: tail) (bs "Basic ") 6 = true).
  { unfold strncmp_eq. apply bytes_eqb_true. change 6 with (length (bs "Basic ")).
    rewrite strndup_prefix by bcompute. reflexivity. }
  rewrite Hpre. cbn [negb].
  change (drop 6 (bs "Basic " ++ ?x)) with x. unfold strlen.
  rewrite c_str_app_nul by (apply no_nul_forall, b64_encode_no_nul).
  rewrite b64_decode_encode by done. by rewrite c_str_app_nul by by apply no_nul_forall.
Qed.

(** C38: Basic authentication decides on the decoded credentials.  Memory is available and
    the response is a well-formed one with fewer than 2^31 headers.  For every
    credential text without NUL of 1 to 511 bytes, a request whose Authorization value is
    the word Basic and the text's Base64 encoding, NUL-terminated, is forwarded exactly
    when the callback accepts that text, whatever the decode buffer held before; otherwise, and
    whenever the header is missing or of another scheme, the request is answered by a
    401 whose first WWW-Authenticate value is the Basic challenge with the realm
    iohttp, the body and the values of all other headers as they were. *)
Theorem basic_auth_decides verify stack req r creds tail :
  response_ok r -> (Z.of_nat (length (r_headers r)) < 2 ^ 31)%Z ->
  creds ≠ [] -> NUL ∉ creds -> length creds < DECODED_SIZE ->
  ioh_request_header req (bs "Authorization") = Some (bs "Basic " ++ b64_encode creds ++ NUL :: tail) ->
  (verify creds = true -> basic_middleware verify stack req [] r = Forwarded)
  /\ (verify creds = false -> challenged r (basic_middleware verify stack req [] r))
  /\ forall req',
       match ioh_request_header req' (bs "Authorization") with
       | None => True
       | Some v => strncmp_eq v (bs "Basic ") 6 = false
       end -> challenged r (basic_middleware verify stack req' [] r).
Proof.
  intros Hr Hc Hne Hn Hl Hh. pose proof (challenge_made r Hr Hc) as Hch. split_and!.
  - intros Hv. by rewrite (basic_decoded verify stack creds tail), Hv.
  - intros Hv. by rewrite (basic_decoded verify stack creds tail), Hv.
  - intros req'. unfold basic_middleware. destruct (ioh_request_header req' _) as [v|]; [|done]. by intros ->.
Qed.

Definition auth_request (v : bytes) : ioh_request_t :=
  mk_request IOH_METHOD_GET None 0 None 0
    [mk_header (bs "authorization") 13 (v ++ [NUL]) (length v)] None 0 [] 1 1 true 0 None None.

Definition only_user (creds : bytes) : bool := bytes_eqb creds (bs "user:pass").

Definition fresh_response : ioh_response_t := snd (fst (ioh_response_init [])).

Lemma basic_auth_decides_witness :
  basic_middleware only_user [] (auth_request (bs "Basic dXNlcjpwYXNz")) [] demo_response = Forwarded
  /\ challenged demo_response (basic_middleware only_user [] (auth_request (bs "Bearer x")) [] demo_response).
Proof.
  destruct (basic_auth_decides only_user [] (auth_request (bs "Basic dXNlcjpwYXNz")) demo_response (bs "user:pass") []) as (H1 & _ & H2).
  - exact demo_response_ok.
  - reflexivity.
  - discriminate.
  - bcompute.
  - nle.
  - vm_compute. reflexivity.
  - split; [apply H1; vm_compute; reflexivity|apply H2; vm_compute; reflexivity].
Defined.

(** There is one Basic callback per thread: after a second creation, the first
    middleware verifies with the second one's callback. *)
Theorem auth_last_callback_wins v1 v2 st :
  let '(_, st1, h1) := ioh_auth_basic_create (Some v1) [] st in
  let '(_, st2, _) := ioh_auth_basic_create (Some v2) h1 st1 in
  tl_basic_state st2 = Some v2 /\ tl_bearer_state st2 = tl_bearer_state st.
Proof. done. Qed.

(** Empty Basic credentials reach the callback with whatever the decode buffer
    held before: the decoder returns 0 without writing a terminator. *)
Theorem basic_auth_stale_buffer verify stack req h r tail :
  ioh_request_header req (bs "Authorization") = Some (bs "Basic " ++ NUL :: tail) ->
  basic_middleware verify stack req h r =
    (if verify (c_str stack) then Forwarded else challenge h r basic_realm).
Proof.
  intros Hh. unfold basic_middleware. rewrite Hh.
  assert (Hpre : strncmp_eq (bs "Basic " ++ NUL :: tail) (bs "Basic ") 6 = true).
  { unfold strncmp_eq. apply bytes_eqb_true. change 6 with (length (bs "Basic ")).
    rewrite strndup_prefix by bcompute. reflexivity. }
  rewrite Hpre. cbn [negb]. change (drop 6 (bs "Basic " ++ ?x)) with x. reflexivity.
Qed.
