(* ===== verification/Middleware.v ===== *)
(** The middleware chain ([src/src/middleware/ioh_middleware.c]).

    A middleware receives the context and a [next] function that it may call any
    number of times.  Its behaviour is a tree: it returns, or it calls [next] and
    goes on with the result.  The chain's position is shared, mutable state
    ([chain->current]): it only moves forward, also across several calls of
    [next] by the same middleware. *)
From S2P Require Import Prelude.

Section Chain.
Context {C : Type}.

(** ** Programs *)

Inductive prog :=
| Return (rc : Z) (c : C)
| CallNext (c : C) (k : Z -> C -> prog).

Local Abbreviation middleware := (C -> prog).
Local Abbreviation handler := (C -> Z * C)%type.

(** A middleware's run, given what [next] does at a chain position. *)
Fixpoint run (next : nat -> C -> option (Z * C * nat)) (p : prog) (current : nat) : option (Z * C * nat) :=
  match p with
  | Return rc c => Some (rc, c, current)
  | CallNext c k => match next current c with
                    | Some (rc, c, current) => run next (k rc c) current
                    | None => None
                    end
  end.

(** [chain_next].  The position moves before the middleware runs, so the nesting
    is at most the number of middleware left plus one: the fuel. *)
Fixpoint chain_next (fuel : nat) (mws : list middleware) (h : handler) (current : nat) (c : C)
    : option (Z * C * nat) :=
  match fuel with
  | O => None
  | S fuel =>
      match mws !! current with
      | None => let '(rc, c) := h c in Some (rc, c, current)
      | Some mw => run (chain_next fuel mws h) (mw c) (S current)
      end
  end.

Definition IOH_MAX_GLOBAL_MIDDLEWARE : nat := 32.
Definition IOH_MAX_GROUP_MIDDLEWARE : nat := 16.

(** The return code and the context after it; [None] would be fuel run out. *)
Definition ioh_chain_execute (c : C) (global group : list middleware) (h : option handler) : option (Z * C) :=
  match h with
  | None => Some ((- errno_code EINVAL)%Z, c)
  | Some h =>
      if IOH_MAX_GLOBAL_MIDDLEWARE <? length global then Some ((- errno_code ENOSPC)%Z, c) else
      if IOH_MAX_GROUP_MIDDLEWARE <? length group then Some ((- errno_code ENOSPC)%Z, c) else
      let all := global ++ group in
      match chain_next (S (length all)) all h 0 c with
      | Some (rc, c, _) => Some (rc, c)
      | None => None
      end
  end.

(** ** Specification *)

(** A run against a [next] without state. *)
Fixpoint run_pure (next : C -> Z * C) (p : prog) : Z * C :=
  match p with
  | Return rc c => (rc, c)
  | CallNext c k => let '(rc, c) := next c in run_pure next (k rc c)
  end.

(** The middleware wrapped around the handler, the first outermost. *)
Fixpoint onion (mws : list middleware) (h : handler) (c : C) : Z * C :=
  match mws with
  | [] => h c
  | mw :: mws => run_pure (onion mws h) (mw c)
  end.

(** The program calls [next] at most once. *)
Definition once (p : prog) : Prop :=
  match p with
  | Return _ _ => True
  | CallNext _ k => forall rc c, exists rc' c', k rc c = Return rc' c'
  end.

(** ** Lemmas *)

(** Every chain ends, whatever its middleware do, and the position never moves
    back. *)
Lemma chain_next_total fuel mws h cur c :
  length mws - cur < fuel ->
  exists rc c' cur', chain_next fuel mws h cur c = Some (rc, c', cur') /\ cur ≤ cur'.
Proof.
  revert cur c. induction fuel as [|fuel IH]; intros cur c Hf; [lia|]. cbn [chain_next].
  destruct (mws !! cur) as [mw|] eqn:E.
  - assert (Hlt : cur < length mws) by (eapply lookup_lt_Some, E).
    assert (Hrun : forall p k, cur < k -> exists rc c' cur', run (chain_next fuel mws h) p k = Some (rc, c', cur') /\ cur ≤ cur').
    { induction p as [rc c0|c0 k0 IHp]; intros k Hk; cbn [run].
      { exists rc, c0, k. split; [done|lia]. }
      destruct (IH k c0) as (rc & c' & cur' & -> & Hle); [lia|]. apply IHp. lia. }
    apply Hrun. lia.
  - destruct (h c) as [rc c'] eqn:Eh. by eexists _, _, _.
Qed.

Lemma chain_next_onion fuel mws h cur c :
  Forall (fun mw => forall c, once (mw c)) mws -> length mws - cur < fuel ->
  exists cur', chain_next fuel mws h cur c = Some (onion (drop cur mws) h c, cur').
Proof.
  intros Hl. revert cur c. induction fuel as [|fuel IH]; intros cur c Hf; [lia|]. cbn [chain_next].
  destruct (mws !! cur) as [mw|] eqn:E.
  - rewrite (drop_S mws mw cur E). cbn [onion]. assert (Hlt : cur < length mws) by (eapply lookup_lt_Some, E).
    rewrite Forall_forall in Hl. specialize (Hl mw (list_elem_of_lookup_2 _ _ _ E) c).
    destruct (mw c) as [rc c0|c0 k]; cbn [run run_pure]; [by eexists|].
    destruct (IH (S cur) c0) as (cur' & ->); [lia|].
    destruct (onion (drop (S cur) mws) h c0) as [rc1 c1]. destruct (Hl rc1 c1) as (rc2 & c2 & ->).
    cbn [run run_pure]. by eexists.
  - rewrite drop_ge by by apply lookup_ge_None. cbn [onion]. destruct (h c). by eexists.
Qed.

(** ** The property *)

(** The chain is an onion.  When every middleware calls [next] at most once,
    executing a chain with at most 32 global and 16 group middleware returns, and
    its result is that of the middleware wrapped around the handler, global ones
    outermost, each in order: one that does not call [next] keeps all later ones
    and the handler from running.  Too many middleware or no handler are refused
    without running anything; and the chain ends whatever the middleware do. *)
Theorem chain_execute_onion c global group h :
  Forall (fun mw => forall c, once (mw c)) (global ++ group) ->
  ioh_chain_execute c global group (Some h) =
    (if decide (length global ≤ IOH_MAX_GLOBAL_MIDDLEWARE /\ length group ≤ IOH_MAX_GROUP_MIDDLEWARE)
     then Some (onion (global ++ group) h c) else Some ((- errno_code ENOSPC)%Z, c))
  /\ ioh_chain_execute c global group None = Some ((- errno_code EINVAL)%Z, c)
  /\ forall mws, is_Some (chain_next (S (length mws)) mws h 0 c).
Proof.
  intros Hl. split; [|split; [done|]].
  - unfold ioh_chain_execute. destruct (decide _) as [[H1 H2]|Hd].
    + rewrite (proj2 (Nat.ltb_ge _ _) H1), (proj2 (Nat.ltb_ge _ _) H2).
      destruct (chain_next_onion (S (length (global ++ group))) (global ++ group) h 0 c Hl) as (cur' & E); [lia|].
      cbv zeta. rewrite E, drop_0. by destruct (onion _ _ _).
    + destruct (_ <? length global) eqn:E1; [done|]. destruct (_ <? length group) eqn:E2; [done|].
      bprop. destruct Hd. lia.
  - intros mws. destruct (chain_next_total (S (length mws)) mws h 0 c) as (rc & c' & k & -> & _); [lia|].
    by eexists.
Qed.

End Chain.
Arguments prog : clear implicits.

(** A context that records who ran. *)
Definition log_mw (n : nat) : list nat -> prog (list nat) :=
  fun c => CallNext (c ++ [n]) (fun rc c => Return rc (c ++ [n])).
Definition log_handler : list nat -> Z * list nat := fun c => (0%Z, c ++ [9]).

Lemma chain_execute_onion_witness :
  ioh_chain_execute [] [log_mw 1] [log_mw 2; fun c => Return 7%Z c] (Some log_handler) = Some (7%Z, [1; 2; 2; 1]).
Proof.
  destruct (chain_execute_onion [] [log_mw 1] [log_mw 2; fun c => Return 7%Z c] log_handler) as [-> _].
  - apply Forall_cons_2; [intros c rc c'; eexists _, _; reflexivity|].
    apply Forall_cons_2; [intros c rc c'; eexists _, _; reflexivity|].
    apply Forall_cons_2; [intros c; exact I|apply Forall_nil_2].
  - vm_compute. reflexivity.
Defined.

(** A middleware that calls [next] a second time, to retry, does not run the rest
    of the chain again: the second call goes straight to the handler. *)
Theorem chain_second_next_skips :
  ioh_chain_execute [] [fun c => CallNext (c ++ [1]) (fun _ c => CallNext c (fun rc c => Return rc c)); log_mw 2] []
    (Some log_handler) = Some (0%Z, [1; 2; 9; 2; 9]).
Proof. vm_compute. reflexivity. Qed.
