(* ===== verification/Nested.v ===== *)
(** * Nested middleware chains

    [src/src/middleware/ioh_middleware.c] with the thread-local pointer to the running
    chain: a middleware or a handler may execute another chain, and the [next] a
    middleware calls is always the chain the pointer leads to.  [Middleware] has the case
    without nesting.

    Chains are local variables of [ioh_chain_execute]: a chain's address is its place on
    the stack of frames.  [tl_ctx], which is written and never read, is left out.  A
    definition gives [None] when a pointer leads nowhere or the fuel is used up. *)
From S2P Require Import Prelude Middleware.
Local Open Scope nat_scope.

Section Nested.
Context {C : Type}.

(** ** Programs *)

(** A middleware returns, calls [next], or executes a chain; a handler has no [next]. *)
Inductive mact :=
| MReturn (rc : Z) (c : C)
| MNext (c : C) (k : Z -> C -> mact)
| MExecute (c : C) (global group : list (C -> mact)) (h : option (C -> hact)) (k : Z -> C -> mact)
with hact :=
| HReturn (rc : Z) (c : C)
| HExecute (c : C) (global group : list (C -> mact)) (h : option (C -> hact)) (k : Z -> C -> hact).

Record ioh_chain_t := mk_chain {
  ch_middleware : list (C -> mact);
  ch_current : nat;
  ch_handler : C -> hact;
}.

Record tls := mk_tls { tl_chain : option nat; frames : list ioh_chain_t }.

Definition move_to (ch : ioh_chain_t) (n : nat) : ioh_chain_t := mk_chain (ch_middleware ch) n (ch_handler ch).

(** The pointer is saved, set to the new frame, and restored when the frame goes away. *)
Fixpoint chain_next (fuel : nat) (st : tls) (c : C) : option (Z * C * tls) :=
  match fuel with
  | O => None
  | S fuel =>
      i ← tl_chain st; ch ← frames st !! i;
      match ch_middleware ch !! ch_current ch with
      | None => run_h fuel st (ch_handler ch c)
      | Some mw => run_m fuel (mk_tls (tl_chain st) (<[i := move_to ch (S (ch_current ch))]> (frames st))) (mw c)
      end
  end
with run_m (fuel : nat) (st : tls) (p : mact) : option (Z * C * tls) :=
  match fuel with
  | O => None
  | S fuel =>
      match p with
      | MReturn rc c => Some (rc, c, st)
      | MNext c k => '(rc, c, st) ← chain_next fuel st c; run_m fuel st (k rc c)
      | MExecute c global group h k => '(rc, c, st) ← execute fuel st c global group h; run_m fuel st (k rc c)
      end
  end
with run_h (fuel : nat) (st : tls) (p : hact) : option (Z * C * tls) :=
  match fuel with
  | O => None
  | S fuel =>
      match p with
      | HReturn rc c => Some (rc, c, st)
      | HExecute c global group h k => '(rc, c, st) ← execute fuel st c global group h; run_h fuel st (k rc c)
      end
  end
with execute (fuel : nat) (st : tls) (c : C) (global group : list (C -> mact)) (h : option (C -> hact)) : option (Z * C * tls) :=
  match fuel with
  | O => None
  | S fuel =>
      match h with
      | None => Some ((- errno_code EINVAL)%Z, c, st)
      | Some h =>
          if IOH_MAX_GLOBAL_MIDDLEWARE <? length global then Some ((- errno_code ENOSPC)%Z, c, st) else
          if IOH_MAX_GROUP_MIDDLEWARE <? length group then Some ((- errno_code ENOSPC)%Z, c, st) else
          let here := length (frames st) in
          '(rc, c, st') ← chain_next fuel (mk_tls (Some here) (frames st ++ [mk_chain (global ++ group) 0 h])) c;
          Some (rc, c, mk_tls (tl_chain st) (take here (frames st')))
      end
  end.

(** ** What the programs mean *)

(** A program with a given meaning of [next], and a chain: its middleware wrapped around
    the handler, or the code of a refusal.  No pointer is involved. *)
Fixpoint mden (next : C -> Z * C) (p : mact) : Z * C :=
  match p with
  | MReturn rc c => (rc, c)
  | MNext c k => let '(rc, c) := next c in mden next (k rc c)
  | MExecute c global group h k =>
      let wrap := fix go (l : list (C -> mact)) (inner : C -> Z * C) (c : C) : Z * C :=
        match l with [] => inner c | mw :: l => mden (go l inner) (mw c) end in
      let '(rc, c) :=
        match h with
        | None => ((- errno_code EINVAL)%Z, c)
        | Some h =>
            if (IOH_MAX_GLOBAL_MIDDLEWARE <? length global) || (IOH_MAX_GROUP_MIDDLEWARE <? length group) then ((- errno_code ENOSPC)%Z, c)
            else wrap global (wrap group (fun c => hden (h c))) c
        end in
      mden next (k rc c)
  end
with hden (p : hact) : Z * C :=
  match p with
  | HReturn rc c => (rc, c)
  | HExecute c global group h k =>
      let wrap := fix go (l : list (C -> mact)) (inner : C -> Z * C) (c : C) : Z * C :=
        match l with [] => inner c | mw :: l => mden (go l inner) (mw c) end in
      let '(rc, c) :=
        match h with
        | None => ((- errno_code EINVAL)%Z, c)
        | Some h =>
            if (IOH_MAX_GLOBAL_MIDDLEWARE <? length global) || (IOH_MAX_GROUP_MIDDLEWARE <? length group) then ((- errno_code ENOSPC)%Z, c)
            else wrap global (wrap group (fun c => hden (h c))) c
        end in
      hden (k rc c)
  end.

Definition wrap : list (C -> mact) -> (C -> Z * C) -> C -> Z * C :=
  fix go (l : list (C -> mact)) (inner : C -> Z * C) (c : C) : Z * C :=
    match l with [] => inner c | mw :: l => mden (go l inner) (mw c) end.

Definition chain_meaning (c : C) (global group : list (C -> mact)) (h : option (C -> hact)) : Z * C :=
  match h with
  | None => ((- errno_code EINVAL)%Z, c)
  | Some h =>
      if (IOH_MAX_GLOBAL_MIDDLEWARE <? length global) || (IOH_MAX_GROUP_MIDDLEWARE <? length group) then ((- errno_code ENOSPC)%Z, c)
      else wrap (global ++ group) (fun c => hden (h c)) c
  end.

(** ** Induction *)

Section Induction.
Context (P : mact -> Prop) (Q : hact -> Prop).
Local Abbreviation all_m := (Forall (fun mw : C -> mact => forall c, P (mw c))).
Local Abbreviation all_h := (fun h : option (C -> hact) => match h with Some h => forall c, Q (h c) | None => True end).
Context (Pret : forall rc c, P (MReturn rc c))
  (Pnext : forall c k, (forall rc c, P (k rc c)) -> P (MNext c k))
  (Pexec : forall c g gr h k, all_m g -> all_m gr -> all_h h -> (forall rc c, P (k rc c)) -> P (MExecute c g gr h k))
  (Qret : forall rc c, Q (HReturn rc c))
  (Qexec : forall c g gr h k, all_m g -> all_m gr -> all_h h -> (forall rc c, Q (k rc c)) -> Q (HExecute c g gr h k)).

Fixpoint mact_rect' (p : mact) : P p :=
  let each := fix go (l : list (C -> mact)) : all_m l :=
    match l return all_m l with [] => Forall_nil_2 _ | mw :: l => Forall_cons_2 _ _ _ (fun c => mact_rect' (mw c)) (go l) end in
  match p return P p with
  | MReturn rc c => Pret rc c
  | MNext c k => Pnext c k (fun rc c => mact_rect' (k rc c))
  | MExecute c g gr h k =>
      Pexec c g gr h k (each g) (each gr) (match h return all_h h with Some h => fun c => hact_rect' (h c) | None => I end)
        (fun rc c => mact_rect' (k rc c))
  end
with hact_rect' (p : hact) : Q p :=
  let each := fix go (l : list (C -> mact)) : all_m l :=
    match l return all_m l with [] => Forall_nil_2 _ | mw :: l => Forall_cons_2 _ _ _ (fun c => mact_rect' (mw c)) (go l) end in
  match p return Q p with
  | HReturn rc c => Qret rc c
  | HExecute c g gr h k =>
      Qexec c g gr h k (each g) (each gr) (match h return all_h h with Some h => fun c => hact_rect' (h c) | None => I end)
        (fun rc c => hact_rect' (k rc c))
  end.

Lemma programs_ind : (forall p, P p) /\ (forall p, Q p).
Proof. split; [exact mact_rect'|exact hact_rect']. Qed.
End Induction.

(** Every middleware, at any depth, calls its [next] at most once ([may]: it still can). *)
Fixpoint once_m (may : bool) (p : mact) : Prop :=
  let each := fix go (l : list (C -> mact)) : Prop := match l with [] => True | mw :: l => (forall c, once_m true (mw c)) /\ go l end in
  match p with
  | MReturn _ _ => True
  | MNext _ k => may = true /\ forall rc c, once_m false (k rc c)
  | MExecute _ g gr h k => each g /\ each gr /\ match h with Some h => forall c, once_h (h c) | None => True end /\ forall rc c, once_m may (k rc c)
  end
with once_h (p : hact) : Prop :=
  let each := fix go (l : list (C -> mact)) : Prop := match l with [] => True | mw :: l => (forall c, once_m true (mw c)) /\ go l end in
  match p with
  | HReturn _ _ => True
  | HExecute _ g gr h k => each g /\ each gr /\ match h with Some h => forall c, once_h (h c) | None => True end /\ forall rc c, once_h (k rc c)
  end.

Definition each_once (l : list (C -> mact)) : Prop := Forall (fun mw => forall c, once_m true (mw c)) l.
Definition handler_once (h : option (C -> hact)) : Prop := match h with Some h => forall c, once_h (h c) | None => True end.

Lemma each_once_eq l :
  (fix go (l : list (C -> mact)) : Prop := match l with [] => True | mw :: l => (forall c, once_m true (mw c)) /\ go l end) l <-> each_once l.
Proof.
  induction l as [|mw l IH]; [split; [constructor|done]|]. unfold each_once. rewrite Forall_cons. fold (each_once l). by rewrite <- IH.
Qed.

(** ** Lemmas *)

Lemma mden_ext f g p : (forall c, f c = g c) -> mden f p = mden g p.
Proof.
  intros E. induction p as [rc c|c k IH|c gl gr h k IH]; cbn [mden]; [done| |].
  - rewrite E. destruct (g c). apply IH.
  - match goal with |- (let '(_, _) := ?r in _) = _ => destruct r end. apply IH.
Qed.

Lemma wrap_app l1 l2 inner c : wrap (l1 ++ l2) inner c = wrap l1 (wrap l2 inner) c.
Proof. revert c. induction l1 as [|mw l1 IH]; intros c; [done|]. cbn [app wrap]. by apply mden_ext. Qed.

Lemma mden_execute next c g gr h k :
  mden next (MExecute c g gr h k) = let '(rc, c) := chain_meaning c g gr h in mden next (k rc c).
Proof. unfold chain_meaning. cbn [mden]. fold wrap. destruct h as [h|]; [|done]. destruct (_ || _); [done|]. by rewrite wrap_app. Qed.

Lemma hden_execute c g gr h k : hden (HExecute c g gr h k) = let '(rc, c) := chain_meaning c g gr h in hden (k rc c).
Proof. unfold chain_meaning. cbn [hden]. fold wrap. destruct h as [h|]; [|done]. destruct (_ || _); [done|]. by rewrite wrap_app. Qed.

(** From some fuel on the result is [r]. *)
Definition settles (f : nat -> option (Z * C * tls)) (r : Z * C * tls) : Prop := exists n, forall m, n <= m -> f m = Some r.

Lemma settles_step f g r : settles g r -> (forall n, f (S n) = g n) -> settles f r.
Proof. intros [n Hn] E. exists (S n). intros [|m] Hm; [lia|]. rewrite E. apply Hn. lia. Qed.

Lemma settles_bind f g r q : settles f r -> settles (fun n => g n r) q -> settles (fun n => r ← f n; g n r) q.
Proof. intros [n Hn] [k Hk]. exists (n + k). intros m Hm. rewrite Hn by lia. apply Hk. lia. Qed.

(** The state in which the chain [ch] runs above the frames [base]. *)
Definition on (base : list ioh_chain_t) (ch : ioh_chain_t) : tls := mk_tls (Some (length base)) (base ++ [ch]).

Definition runs_m (p : mact) : Prop :=
  forall may next base ch, once_m may p ->
    (may = true -> forall c, exists n, settles (fun f => chain_next f (on base ch) c) (next c, on base (move_to ch n))) ->
    exists n, settles (fun f => run_m f (on base ch) p) (mden next p, on base (move_to ch n)).

Definition runs_h (p : hact) : Prop := forall st, once_h p -> settles (fun f => run_h f st p) (hden p, st).

(** The rest of a chain, from a position on. *)
Lemma chain_settles base h l : forall done_ c,
  Forall (fun mw => forall c, runs_m (mw c)) l -> each_once l -> (forall c, runs_h (h c) /\ once_h (h c)) ->
  exists n, settles (fun f => chain_next f (on base (mk_chain (done_ ++ l) (length done_) h)) c)
              (wrap l (fun c => hden (h c)) c, on base (mk_chain (done_ ++ l) n h)).
Proof.
  induction l as [|mw l IH]; intros d c Hr Ho Hh.
  - exists (length d). cbn [wrap]. destruct (Hh c) as [H1 H2].
    eapply settles_step; [exact (H1 (on base (mk_chain (d ++ []) (length d) h)) H2)|]. intros n. cbn [chain_next on tl_chain frames mbind option_bind].
    rewrite lookup_app_r, Nat.sub_diag by lia. cbn [lookup list_lookup mbind option_bind ch_middleware ch_current ch_handler].
    rewrite app_nil_r. by rewrite lookup_ge_None_2 by lia.
  - inversion Hr as [|?? Hm Hr']; subst. inversion Ho as [|?? Om Ho']; subst.
    set (ch := mk_chain (d ++ mw :: l) (S (length d)) h).
    destruct (Hm c true (wrap l (fun c => hden (h c))) base ch (Om c)) as [n Hn].
    { intros _ c1. destruct (IH (d ++ [mw]) c1 Hr' Ho' Hh) as [n Hn]. exists n. rewrite <- app_assoc in Hn. cbn [app] in Hn.
      rewrite length_app in Hn. cbn [length] in Hn. unfold ch, move_to. cbn [ch_middleware ch_handler].
      replace (S (length d)) with (length d + 1) by lia. exact Hn. }
    exists n. eapply settles_step; [exact Hn|]. intros f. cbn [chain_next on tl_chain frames mbind option_bind].
    rewrite lookup_app_r, Nat.sub_diag by lia. cbn [lookup list_lookup mbind option_bind ch_middleware ch_current ch_handler].
    rewrite lookup_app_r, Nat.sub_diag by lia. cbn [lookup list_lookup]. rewrite insert_app_r_alt, Nat.sub_diag by lia. done.
Qed.

Lemma execute_settles st c g gr h :
  Forall (fun mw => forall c, runs_m (mw c)) g -> Forall (fun mw => forall c, runs_m (mw c)) gr ->
  match h with Some h => forall c, runs_h (h c) | None => True end ->
  each_once g -> each_once gr -> handler_once h ->
  settles (fun f => execute f st c g gr h) (chain_meaning c g gr h, st).
Proof.
  intros Rg Rgr Rh Og Ogr Oh. destruct st as [tl fs]. unfold chain_meaning. destruct h as [h|]; [|by exists 1; intros [|m] Hm; [lia|]].
  destruct (IOH_MAX_GLOBAL_MIDDLEWARE <? length g) eqn:E1; [exists 1; intros [|m] Hm; [lia|]; cbn [execute]; by rewrite E1|].
  destruct (IOH_MAX_GROUP_MIDDLEWARE <? length gr) eqn:E2; [exists 1; intros [|m] Hm; [lia|]; cbn [execute]; by rewrite E1, E2|].
  cbn [orb]. destruct (chain_settles fs h (g ++ gr) [] c) as [n Hn];
    [by apply Forall_app|by apply Forall_app|intros c1; split; [apply Rh|apply Oh]|]. cbn [app length] in Hn.
  eapply (settles_step _ (fun f => r ← chain_next f (on fs (mk_chain (g ++ gr) 0 h)) c; let '(rc, c, st') := r in Some (rc, c, mk_tls tl (take (length fs) (frames st'))))).
  - eapply settles_bind; [exact Hn|]. exists 0. intros m _. destruct (wrap (g ++ gr) _ c) as [rc c1]. cbn [on frames]. by rewrite take_app_length.
  - intros f. cbn [execute]. by rewrite E1, E2.
Qed.

Lemma programs_run : (forall p, runs_m p) /\ (forall p, runs_h p).
Proof.
  apply programs_ind.
  - intros rc c may next base ch _ _. exists (ch_current ch). exists 1. intros [|m] Hm; [lia|]. by destruct ch.
  - intros c k IH may next base ch [-> Hk] Hn. destruct (Hn eq_refl c) as [n1 H1]. cbn [mden]. destruct (next c) as [rc c1] eqn:En.
    destruct (IH rc c1 false next base (move_to ch n1) (Hk rc c1)) as [n2 H2]; [done|]. exists n2.
    eapply (settles_step _ (fun f => r ← chain_next f (on base ch) c; let '(rc, c, st) := r in run_m f st (k rc c)));
      [|intros f; reflexivity]. eapply settles_bind; [exact H1|exact H2].
  - intros c g gr h k Rg Rgr Rh IH may next base ch Ho Hn. cbn [once_m] in Ho. rewrite !each_once_eq in Ho. destruct Ho as (Og & Ogr & Oh & Ok).
    rewrite mden_execute. pose proof (execute_settles (on base ch) c g gr h Rg Rgr Rh Og Ogr Oh) as He. destruct (chain_meaning c g gr h) as [rc c1].
    destruct (IH rc c1 may next base ch (Ok rc c1) Hn) as [n H2]. exists n.
    eapply (settles_step _ (fun f => r ← execute f (on base ch) c g gr h; let '(rc, c, st) := r in run_m f st (k rc c)));
      [|intros f; reflexivity]. eapply settles_bind; [exact He|exact H2].
  - intros rc c st _. exists 1. by intros [|m] Hm; [lia|].
  - intros c g gr h k Rg Rgr Rh IH st Ho. cbn [once_h] in Ho. rewrite !each_once_eq in Ho. destruct Ho as (Og & Ogr & Oh & Ok).
    rewrite hden_execute. pose proof (execute_settles st c g gr h Rg Rgr Rh Og Ogr Oh) as He. destruct (chain_meaning c g gr h) as [rc c1].
    eapply (settles_step _ (fun f => r ← execute f st c g gr h; let '(rc, c, st) := r in run_h f st (k rc c)));
      [|intros f; reflexivity]. eapply settles_bind; [exact He|by apply IH].
Qed.

(** ** The property *)

(** C37: nested chains are transparent.  When every middleware, at any depth of nesting, calls
    its [next] at most once, executing a chain terminates and gives what its programs mean: the middleware wrapped
    around the handler, where each chain that a middleware or a handler executes on the way
    stands for its own result, whatever it runs and also when it is refused or cut short; a
    middleware that calls [next] after a nested chain still continues its own chain; and
    afterwards the thread-local pointer and every outer chain are as they were. *)
Theorem nested_chains_transparent st c global group h :
  each_once global -> each_once group -> handler_once h ->
  exists n, forall fuel, n <= fuel -> execute fuel st c global group h = Some (chain_meaning c global group h, st).
Proof.
  intros Hg Hgr Hh. destruct programs_run as [Rm Rh]. apply execute_settles; try done.
  - apply Forall_true. intros mw c1. apply Rm.
  - apply Forall_true. intros mw c1. apply Rm.
  - destruct h; [intros c1; apply Rh|done].
Qed.

(** ** Chains without nesting *)

Fixpoint plain (p : prog C) : mact :=
  match p with
  | Return rc c => MReturn rc c
  | CallNext c k => MNext c (fun rc c => plain (k rc c))
  end.

Definition plain_handler (h : C -> Z * C) (c : C) : hact := let '(rc, c) := h c in HReturn rc c.

Lemma plain_meaning mws h c : wrap ((fun mw c => plain (mw c)) <$> mws) (fun c => hden (plain_handler h c)) c = onion mws h c.
Proof.
  revert c. induction mws as [|mw mws IH]; intros c; [cbn; unfold plain_handler; by destruct (h c)|].
  cbn [fmap list_fmap wrap onion]. fold wrap. induction (mw c) as [rc c1|c1 k IHk]; [done|]. cbn [plain mden run_pure].
  change ((fix go l inner c := match l with [] => inner c | mw0 :: l0 => mden (go l0 inner) (mw0 c) end)) with wrap in *.
  rewrite IH. destruct (onion mws h c1) as [rc c2]. apply IHk.
Qed.
End Nested.
Arguments mact : clear implicits.
Arguments hact : clear implicits.

(** A middleware that executes a chain of its own before it goes on, and one that does so
    afterwards. *)
Definition log_m (n : nat) : list nat -> mact (list nat) := fun c => MNext (c ++ [n]) (fun rc c => MReturn rc (c ++ [n])).
Definition log_h (n : nat) : list nat -> hact (list nat) := fun c => HReturn 0 (c ++ [n]).
Definition nest_before : list nat -> mact (list nat) :=
  fun c => MExecute (c ++ [5]) [log_m 6] [] (Some (log_h 7)) (fun _ c => MNext c (fun rc c => MReturn rc (c ++ [5]))).
Definition nest_after : list nat -> mact (list nat) :=
  fun c => MNext c (fun rc c => MExecute c [] [log_m 8] None (fun _ c => MReturn rc (c ++ [4]))).

Lemma nested_chains_transparent_witness :
  exists n, execute n (mk_tls None []) [] [log_m 1; nest_before] [nest_after] (Some (log_h 9))
            = Some ((0%Z, [1; 5; 6; 7; 6; 9; 4; 5; 1]), mk_tls None []).
Proof.
  destruct (nested_chains_transparent (mk_tls None []) [] [log_m 1; nest_before] [nest_after] (Some (log_h 9))) as [n Hn].
  - repeat constructor.
  - repeat constructor.
  - intros c. exact I.
  - exists n. apply Hn, Nat.le_refl.
Defined.
