(* ===== verification/Group.v ===== *)
(** Route groups ([src/src/router/ioh_route_group.h], [ioh_route_group.c]): prefixes
    that compose, middleware slots, and registration through a group.

    Groups are objects that point to their router and to one another: a store holds
    them, and a group pointer is an index into it. *)
From S2P Require Import Prelude CString Radix PathNorm Request Router Middleware.

Definition IOH_MAX_GROUP_PREFIX : nat := 256.
Definition GROUP_INITIAL_SUBGROUP_CAP : Z := 4.

Record ioh_group (W : Type) := mk_group {
  g_parent : option nat;
  g_prefix : bytes;
  g_middleware : list W;
  g_subgroups : list nat;
  g_subgroup_capacity : Z;
}.
Arguments mk_group {W}.
Arguments g_parent {W}.
Arguments g_prefix {W}.
Arguments g_middleware {W}.
Arguments g_subgroups {W}.
Arguments g_subgroup_capacity {W}.

Section Group.
Context {T H W Er : Type} `{RT : RouteTable T H ioh_route_opts_t}.
Abbreviation group := (ioh_group W).
Abbreviation router := (ioh_router T H W Er nat).

(** The router and the groups on it; a freed group leaves its place empty. *)
Record world := mk_world {
  w_router : router;
  w_groups : list (option group);
}.
Implicit Types (w : world) (h : heap).

Definition group_at w (g : nat) : option group := default None (w_groups w !! g).
Definition set_router w (r : router) : world := mk_world r (w_groups w).
Definition set_group w (g : nat) (x : option group) : world := mk_world (w_router w) (<[g := x]> (w_groups w)).
Definition add_group w (x : group) : world := mk_world (w_router w) (w_groups w ++ [Some x]).

(** [snprintf(out, out_size, "%s%s", ..)] when it fits. *)
Definition build_full_path (g : group) (pattern : bytes) (out_size : nat) : res bytes :=
  let full := g_prefix g ++ c_str pattern in
  if out_size <=? length full then Err EINVAL else Ok full.

Definition group_add_subgroup (parent : group) (child : nat) h : res group * heap :=
  let with_sub cap := mk_group (g_parent parent) (g_prefix parent) (g_middleware parent)
                        (g_subgroups parent ++ [child]) cap in
  if (g_subgroup_capacity parent <=? Z.of_nat (length (g_subgroups parent)))%Z then
    let new_cap := if (g_subgroup_capacity parent =? 0)%Z then GROUP_INITIAL_SUBGROUP_CAP
                   else u32 (g_subgroup_capacity parent * 2) in
    let '(ok, h) := xalloc h in
    if negb ok then (Err ENOMEM, h) else (Ok (with_sub new_cap), h)
  else (Ok (with_sub (g_subgroup_capacity parent)), h).

(** The registered destructor of a group; what it frees is [ioh_group_destroy]. *)
Definition group_destroy_wrapper (g : nat) : unit := tt.

Definition ioh_router_group w (prefix : option bytes) h : option nat * world * heap :=
  match prefix with
  | None => (None, w, h)
  | Some prefix =>
      let prefix_len := strlen prefix in
      if (prefix_len =? 0) || (IOH_MAX_GROUP_PREFIX <=? prefix_len) then (None, w, h) else
      let '(ok, h) := xalloc h in
      if negb ok then (None, w, h) else
      let g := length (w_groups w) in
      match ioh_router_own_group (Some (w_router w)) (Some g) (Some group_destroy_wrapper) h with
      | (Some r, Ok _, h) => (Some g, add_group (set_router w r) (mk_group None (c_str prefix) [] [] 0), h)
      | (_, _, h) => (None, w, h)
      end
  end.

Definition ioh_group_subgroup w (g : option nat) (prefix : option bytes) h : option nat * world * heap :=
  match g, prefix with
  | Some gi, Some prefix =>
      match group_at w gi with
      | None => (None, w, h)
      | Some g =>
          let prefix_len := strlen prefix in
          if (prefix_len =? 0) || (IOH_MAX_GROUP_PREFIX <=? length (g_prefix g) + prefix_len) then (None, w, h) else
          let '(ok, h) := xalloc h in
          if negb ok then (None, w, h) else
          let sub := mk_group (Some gi) (g_prefix g ++ c_str prefix) [] [] 0 in
          match group_add_subgroup g (length (w_groups w)) h with
          | (Err _, h) => (None, w, h)
          | (Ok g, h) => (Some (length (w_groups w)), add_group (set_group w gi (Some g)) sub, h)
          end
      end
  | _, _ => (None, w, h)
  end.

Definition FULL_SIZE : nat := IOH_MAX_GROUP_PREFIX + IOH_MAX_URI_SIZE.

(** The five registration calls and the one with options. *)
Definition group_handle (m : ioh_method_t) w (g : option nat) (pattern : option bytes) (hd : option H)
    (o : option ioh_route_opts_t) h : world * res unit * heap :=
  match g, pattern, hd with
  | Some g, Some pattern, Some hd =>
      match group_at w g with
      | None => (w, Err EINVAL, h)
      | Some g =>
          match build_full_path g pattern FULL_SIZE with
          | Err e => (w, Err e, h)
          | Ok full =>
              match ioh_router_handle_with (Some (w_router w)) m (Some full) (Some hd) o h with
              | (Some r, rc, h) => (set_router w r, rc, h)
              | (None, rc, h) => (w, rc, h)
              end
          end
      end
  | _, _, _ => (w, Err EINVAL, h)
  end.

Definition ioh_group_get w g p hd := group_handle IOH_METHOD_GET w g p hd None.
Definition ioh_group_post w g p hd := group_handle IOH_METHOD_POST w g p hd None.
Definition ioh_group_put w g p hd := group_handle IOH_METHOD_PUT w g p hd None.
Definition ioh_group_delete w g p hd := group_handle IOH_METHOD_DELETE w g p hd None.
Definition ioh_group_patch w g p hd := group_handle IOH_METHOD_PATCH w g p hd None.
Definition ioh_group_get_with w g p hd o := group_handle IOH_METHOD_GET w g p hd o.

Definition ioh_group_use w (g : option nat) (mw : option W) : world * res unit :=
  match g, mw with
  | Some gi, Some mw =>
      match group_at w gi with
      | None => (w, Err EINVAL)
      | Some g =>
          if IOH_MAX_GROUP_MIDDLEWARE <=? length (g_middleware g) then (w, Err ENOSPC) else
          (set_group w gi (Some (mk_group (g_parent g) (g_prefix g) (g_middleware g ++ [mw])
                                   (g_subgroups g) (g_subgroup_capacity g))), Ok tt)
      end
  | _, _ => (w, Err EINVAL)
  end.

Definition ioh_group_prefix (g : option group) : option bytes := g_prefix <$> g.
Definition ioh_group_parent (g : option group) : option nat := match g with Some g => g_parent g | None => None end.
Definition ioh_group_middleware_count (g : option group) : nat :=
  match g with Some g => length (g_middleware g) | None => 0 end.
Definition ioh_group_middleware_at (g : option group) (idx : nat) : option W :=
  match g with Some g => g_middleware g !! idx | None => None end.

(** Frees the subgroups, then the group; the fuel bounds the nesting. *)
Fixpoint ioh_group_destroy (fuel : nat) w (g : nat) : world :=
  match fuel with
  | O => w
  | S fuel =>
      match group_at w g with
      | None => w
      | Some x => set_group (fold_left (ioh_group_destroy fuel) (g_subgroups x) w) g None
      end
  end.

(** ** Specification vocabulary *)

(** The calls of a program that sets up routes. *)
Inductive gop :=
| NewGroup (prefix : bytes)
| SubGroup (g : nat) (prefix : bytes)
| Use (g : nat) (mw : W)
| Route (g : nat) (m : ioh_method_t) (pattern : bytes) (hd : H) (o : option ioh_route_opts_t).

Definition exec w (x : gop) : world :=
  match x with
  | NewGroup p => snd (fst (ioh_router_group w (Some p) []))
  | SubGroup g p => snd (fst (ioh_group_subgroup w (Some g) (Some p) []))
  | Use g mw => fst (ioh_group_use w (Some g) (Some mw))
  | Route g m pat hd o => fst (fst (group_handle m w (Some g) (Some pat) (Some hd) o []))
  end.

(** The program without groups: [fulls] are the whole prefixes of the groups made
    so far. *)
Fixpoint flatten (fulls : list bytes) (xs : list gop) : list (ioh_method_t * bytes * H * option ioh_route_opts_t) :=
  match xs with
  | [] => []
  | NewGroup p :: xs =>
      flatten (if decide (0 < length (c_str p) < IOH_MAX_GROUP_PREFIX) then fulls ++ [c_str p] else fulls) xs
  | SubGroup g p :: xs =>
      flatten (match fulls !! g with
               | Some q => if decide (0 < length (c_str p) /\ length (q ++ c_str p) < IOH_MAX_GROUP_PREFIX)
                           then fulls ++ [q ++ c_str p] else fulls
               | None => fulls
               end) xs
  | Use _ _ :: xs => flatten fulls xs
  | Route g m pat hd o :: xs =>
      match fulls !! g with
      | Some q => if decide (length (q ++ c_str pat) < FULL_SIZE) then (m, q ++ c_str pat, hd, o) :: flatten fulls xs
                  else flatten fulls xs
      | None => flatten fulls xs
      end
  end.

(** Direct registration. *)
Definition register_route (r : router) (x : ioh_method_t * bytes * H * option ioh_route_opts_t) : router :=
  let '(m, full, hd, o) := x in
  match router_add_route (Some r) m (Some full) (Some hd) o [] with
  | (Some r, _, _) => r
  | (None, _, _) => r
  end.

(** ** Lemmas *)

(** The store holds the groups with the given prefixes. *)
Definition holds w (fulls : list bytes) : Prop := fmap g_prefix <$> w_groups w = Some <$> fulls.

Lemma holds_at w fulls g : holds w fulls -> g_prefix <$> group_at w g = fulls !! g.
Proof.
  intros Hh. apply (f_equal (fun l => l !! g)) in Hh. rewrite !list_lookup_fmap in Hh. unfold group_at.
  destruct (w_groups w !! g) as [[x|]|], (fulls !! g); simpl in *; congruence.
Qed.

Lemma holds_add w fulls x r : holds w fulls -> holds (add_group (set_router w r) x) (fulls ++ [g_prefix x]).
Proof. intros Hh. unfold holds in *. simpl. rewrite !fmap_app, Hh. done. Qed.

Lemma holds_set w fulls g x y : holds w fulls -> group_at w g = Some x -> g_prefix y = g_prefix x -> holds (set_group w g (Some y)) fulls.
Proof.
  intros Hh Hg Hy. unfold holds in *. simpl. rewrite list_fmap_insert. simpl. rewrite Hy, <- Hh. apply list_insert_id.
  unfold group_at in Hg. rewrite list_lookup_fmap. destruct (w_groups w !! g) as [[z|]|]; simpl in *; congruence.
Qed.

(** Routers with the same tables. *)
Definition same_trees (r r' : router) : Prop := trees r = trees r'.

Lemma register_same r r' x : same_trees r r' -> same_trees (register_route r x) (register_route r' x).
Proof.
  intros E. destruct x as [[[m full] hd] o]. unfold register_route, router_add_route, get_tree, set_tree. rewrite <- E.
  destruct (_ <=? _); [done|]. destruct (match default None (trees r !! method_index m) with Some t => (Some t, []) | None => rt_create [] end) as [[t|] h]; [|done].
  destruct (rt_insert _ _ _ _ _ _) as [[t' rc] h']. unfold same_trees. simpl. by rewrite E.
Qed.

Lemma exec_spec w fulls x xs r :
  holds w fulls -> same_trees (w_router w) r ->
  exists fulls' r', holds (exec w x) fulls' /\ same_trees (w_router (exec w x)) r'
    /\ fold_left register_route (flatten fulls (x :: xs)) r = fold_left register_route (flatten fulls' xs) r'.
Proof.
  intros Hh Ht. destruct x as [p|g p|g mw|g m pat hd o]; cbn [exec flatten].
  - unfold ioh_router_group, strlen. destruct (decide _) as [[L1 L2]|Hno].
    + rewrite (proj2 (Nat.eqb_neq _ _)), (proj2 (Nat.leb_gt _ _)) by lia. simpl. unfold ioh_router_own_group.
      eexists _, r. split; [|split; [|reflexivity]].
      * destruct (_ <=? _)%Z; simpl; apply (holds_add w fulls (mk_group None (c_str p) [] [] 0)); done.
      * destruct (_ <=? _)%Z; done.
    + replace ((length (c_str p) =? 0) || (IOH_MAX_GROUP_PREFIX <=? length (c_str p))) with true
        by (symmetry; apply orb_true_iff; rewrite Nat.eqb_eq, Nat.leb_le; lia). by exists fulls, r.
  - unfold ioh_group_subgroup, strlen. pose proof (holds_at _ _ g Hh) as Hg.
    destruct (group_at w g) as [x|] eqn:Eg; simpl in Hg; rewrite <- Hg; [|by exists fulls, r].
    rewrite length_app. destruct (decide _) as [[L1 L2]|Hno].
    + rewrite (proj2 (Nat.eqb_neq _ _)), (proj2 (Nat.leb_gt _ _)) by lia. simpl. unfold group_add_subgroup.
      eexists _, r. split; [|split; [|reflexivity]].
      * destruct (_ <=? _)%Z; simpl; eapply (holds_add (set_group w g _) fulls (mk_group (Some g) (g_prefix x ++ c_str p) [] [] 0)); by eapply holds_set.
      * destruct (_ <=? _)%Z; done.
    + replace ((length (c_str p) =? 0) || (IOH_MAX_GROUP_PREFIX <=? length (g_prefix x) + length (c_str p))) with true
        by (symmetry; apply orb_true_iff; rewrite Nat.eqb_eq, Nat.leb_le; lia). by exists fulls, r.
  - exists fulls, r. unfold ioh_group_use. destruct (group_at w g) as [x|] eqn:Eg; [|done].
    destruct (_ <=? _); [done|]. split; [by eapply holds_set|done].
  - unfold group_handle, build_full_path. pose proof (holds_at _ _ g Hh) as Hg.
    destruct (group_at w g) as [x|] eqn:Eg; simpl in Hg; rewrite <- Hg; [|by exists fulls, r].
    destruct (decide _) as [L1|Hno].
    + rewrite (proj2 (Nat.leb_gt _ _)) by lia. exists fulls, (register_route r (m, g_prefix x ++ c_str pat, hd, o)).
      pose proof (register_same _ _ (m, g_prefix x ++ c_str pat, hd, o) Ht) as Hs. unfold register_route at 1 in Hs.
      unfold ioh_router_handle_with. destruct (router_add_route _ _ _ _ _ _) as [[[r'|] rc] h']; done.
    + rewrite (proj2 (Nat.leb_le _ _)) by lia. by exists fulls, r.
Qed.

Lemma exec_all xs : forall w fulls r,
  holds w fulls -> same_trees (w_router w) r ->
  trees (w_router (fold_left exec xs w)) = trees (fold_left register_route (flatten fulls xs) r).
Proof.
  induction xs as [|x xs IH]; intros w fulls r Hh Ht; [exact Ht|]. cbn [fold_left].
  destruct (exec_spec w fulls x xs r Hh Ht) as (fulls' & r' & Hh' & Ht' & ->). by apply IH.
Qed.

(** Groups are prefixes and nothing else.  Any program that makes groups and
    subgroups, attaches middleware to them and registers routes through them leaves
    the router with exactly the route tables of the program that registers the
    composed paths (the prefixes of the group and of all groups around it, then the pattern)
    directly with the router, calls that are refused included; in particular the
    middleware of a group has no effect on any route. *)
Theorem groups_are_prefixes xs (r : router) :
  trees (w_router (fold_left exec xs (mk_world r []))) = trees (fold_left register_route (flatten [] xs) r).
Proof. by apply exec_all. Qed.
End Group.
