(* ===== verification/Policy.v ===== *)
(** Response policies: the CORS middleware ([src/src/middleware/ioh_cors.c]), the
    security headers ([src/src/middleware/ioh_security.c]) and the [alt-svc] header
    ([src/src/http/ioh_alt_svc.c]).

    A middleware is a function of [next], the context and the allocator; its
    result is the return code, the context and the allocator after it, [None]
    for an access outside an object.  The thread-local configuration each
    middleware reads is an argument. *)
From S2P Require Import Prelude CString Radix Request RequestThms Router RouterThms Response ResponseThms Pico PicoThms Http1 Http1Thms Ctx.

(** ** Steps on a context *)

Definition mw_step : Type := option (Z * ioh_ctx_t * heap).
Abbreviation next_fn := (ioh_ctx_t -> heap -> mw_step).

Definition rc_unit (r : res unit) : Z := match r with Ok _ => 0 | Err e => - errno_code e end.

(** [ioh_response_set_header(c->resp, name, value)]. *)
Definition put_header (name value : bytes) : next_fn := fun c h =>
  match ioh_response_set_header h (c_resp c) (Some name) (Some value) with
  | Some (rc, r, h) => Some (rc_unit rc, with_resp c r, h)
  | None => None
  end.

Definition skip : next_fn := fun c h => Some (0%Z, c, h).

(** [rc = f; if (rc != 0) return rc; g]. *)
Definition and_then (f g : next_fn) : next_fn := fun c h =>
  match f c h with
  | Some (rc, c, h) => if (rc =? 0)%Z then g c h else Some (rc, c, h)
  | None => None
  end.
Infix ">>>" := and_then (at level 60, right associativity) : iohttp_scope.

(** ** CORS *)

Record ioh_cors_config_t := mk_cors {
  allowed_origins : option (list bytes); origin_count : nat;
  allowed_methods : option (list bytes); method_count : nat;
  allowed_headers : option (list bytes); cors_header_count : nat;
  allow_credentials : bool;
  max_age_seconds : Z;
}.

Definition DEFAULT_METHODS : bytes := bs "GET, POST, PUT, DELETE, PATCH".
Definition DEFAULT_HEADERS : bytes := bs "Content-Type, Authorization".

(** The loop over [allowed_origins[i]] for [i] below the count. *)
Fixpoint origin_loop (origins : list bytes) (count : nat) (origin : bytes) {struct count} : option bool :=
  match count with
  | O => Some false
  | S count =>
      match origins with
      | [] => None
      | o :: origins => if strcmp_eq o origin then Some true else origin_loop origins count origin
      end
  end.

Definition origin_allowed (cfg : ioh_cors_config_t) (origin : bytes) : option bool :=
  match allowed_origins cfg with
  | None => Some true
  | Some os => if origin_count cfg =? 0 then Some true else origin_loop os (origin_count cfg) origin
  end.

Definition ALLOW_ORIGIN : bytes := bs "Access-Control-Allow-Origin".
Definition ALLOW_METHODS : bytes := bs "Access-Control-Allow-Methods".
Definition ALLOW_HEADERS : bytes := bs "Access-Control-Allow-Headers".
Definition MAX_AGE : bytes := bs "Access-Control-Max-Age".
Definition ALLOW_CREDENTIALS : bytes := bs "Access-Control-Allow-Credentials".

Definition no_list {A} (l : option (list A)) (count : nat) : bool :=
  (count =? 0) || match l with None => true | Some _ => false end.

(** The middleware calls it with a non-null origin. *)
Definition set_origin_header (cfg : ioh_cors_config_t) (origin : bytes) : next_fn :=
  if allow_credentials cfg then put_header ALLOW_ORIGIN origin else
  if no_list (allowed_origins cfg) (origin_count cfg) then put_header ALLOW_ORIGIN (bs "*")
  else put_header ALLOW_ORIGIN origin.

Definition LIST_BUF : nat := 512.

(** [off += snprintf(buf + off, sizeof(buf) - off, ..)]: past the end the size
    wraps around and the store is outside the buffer. *)
Definition append_text (b : bytes * nat) (text : bytes) : option (bytes * nat) :=
  let '(buf, off) := b in
  if LIST_BUF <? off then None else
  let '(buf, n) := snprintf_at buf LIST_BUF off text in Some (buf, off + n).

Fixpoint list_loop (items : list bytes) (count : nat) (first : bool) (b : bytes * nat) {struct count}
    : option (bytes * nat) :=
  match count with
  | O => Some b
  | S count =>
      match items with
      | [] => None
      | x :: items =>
          match (if first then Some b else append_text b (bs ", ")) with
          | Some b =>
              match append_text b (c_str x) with
              | Some b => list_loop items count false b
              | None => None
              end
          | None => None
          end
      end
  end.

(** The list header of a preflight answer: the configured items or the default. *)
Definition put_list (name : bytes) (items : option (list bytes)) (count : nat) (default_text : bytes) : next_fn :=
  match items with
  | Some xs =>
      if 0 <? count then
        match list_loop xs count true ([], 0) with
        | Some (buf, _) => put_header name buf
        | None => fun _ _ => None
        end
      else put_header name default_text
  | None => put_header name default_text
  end.

Definition AGE_BUF : nat := 32.

Definition preflight (cfg : ioh_cors_config_t) (origin : bytes) : next_fn :=
  set_origin_header cfg origin
  >>> put_list ALLOW_METHODS (allowed_methods cfg) (method_count cfg) DEFAULT_METHODS
  >>> put_list ALLOW_HEADERS (allowed_headers cfg) (cors_header_count cfg) DEFAULT_HEADERS
  >>> put_header MAX_AGE (take (AGE_BUF - 1) (print_dec (max_age_seconds cfg)))
  >>> (if allow_credentials cfg then put_header ALLOW_CREDENTIALS (bs "true") else skip).

Definition set_status (c : ioh_ctx_t) (st : Z) : ioh_ctx_t := with_resp c (with_status (c_resp c) st).

Definition is_options (c : ioh_ctx_t) : bool := bool_decide (method (c_req c) = IOH_METHOD_OPTIONS).

Definition cors_middleware (tl_cors_cfg : option ioh_cors_config_t) (next : next_fn) : next_fn := fun c h =>
  match ioh_request_header (c_req c) (bs "Origin") with
  | None => next c h
  | Some origin =>
      match tl_cors_cfg with
      | None => None
      | Some cfg =>
          match origin_allowed cfg origin with
          | None => None
          | Some false => if is_options c then Some (0%Z, set_status c 204, h) else next c h
          | Some true =>
              if is_options c then preflight cfg origin (set_status c 204) h
              else (next >>> set_origin_header cfg origin) c h
          end
      end
  end.

Definition ioh_cors_config_init : ioh_cors_config_t := mk_cors None 0 None 0 None 0 false 86400.

(** Was a middleware returned, and the thread's configuration after the call. *)
Definition ioh_cors_create (cfg : option ioh_cors_config_t) (h : heap) (tl : option ioh_cors_config_t)
    : bool * option ioh_cors_config_t * heap :=
  match cfg with
  | None => (false, tl, h)
  | Some _ => let '(ok, h) := xalloc h in if negb ok then (false, tl, h) else (true, cfg, h)
  end.

Definition ioh_cors_destroy (tl : option ioh_cors_config_t) : option ioh_cors_config_t := None.

(** ** Security headers *)

Record ioh_security_config_t := mk_security {
  csp : option bytes;
  hsts : bool; hsts_max_age : Z;
  frame_options : option bytes;
  referrer_policy : option bytes;
  nosniff : bool;
}.

Definition put_opt (name : bytes) (value : option bytes) : next_fn :=
  match value with Some v => put_header name v | None => skip end.

Definition HSTS_BUF : nat := 64.
Definition hsts_text (age : Z) : bytes := take (HSTS_BUF - 1) (bs "max-age=" ++ print_dec age ++ bs "; includeSubDomains").

Definition CSP : bytes := bs "Content-Security-Policy".
Definition HSTS : bytes := bs "Strict-Transport-Security".
Definition FRAME : bytes := bs "X-Frame-Options".
Definition REFERRER : bytes := bs "Referrer-Policy".
Definition CTYPE_OPTIONS : bytes := bs "X-Content-Type-Options".

(** The headers set once the handler has succeeded. *)
Definition security_headers (st : ioh_security_config_t) : next_fn :=
  put_opt CSP (csp st)
  >>> (if hsts st then put_header HSTS (hsts_text (hsts_max_age st)) else skip)
  >>> put_opt FRAME (frame_options st)
  >>> put_opt REFERRER (referrer_policy st)
  >>> (if nosniff st then put_header CTYPE_OPTIONS (bs "nosniff") else skip).

Definition security_middleware (tl_sec_state : option ioh_security_config_t) (next : next_fn) : next_fn :=
  next >>> fun c h => match tl_sec_state with None => None | Some st => security_headers st c h end.

Definition ioh_security_config_init : ioh_security_config_t :=
  mk_security None true 31536000 (Some (bs "DENY")) (Some (bs "strict-origin-when-cross-origin")) true.

(** [strdup] of an optional text: a failed copy leaves a null pointer. *)
Definition dup_opt (v : option bytes) (h : heap) : option bytes * heap :=
  match v with
  | None => (None, h)
  | Some t => let '(ok, h) := xalloc h in (if ok then Some (c_str t) else None, h)
  end.

Definition ioh_security_create (cfg : option ioh_security_config_t) (h : heap) (tl : option ioh_security_config_t)
    : bool * option ioh_security_config_t * heap :=
  match cfg with
  | None => (false, tl, h)
  | Some cfg =>
      let '(ok, h) := xalloc h in
      if negb ok then (false, tl, h) else
      let '(c, h) := dup_opt (csp cfg) h in
      let '(f, h) := dup_opt (frame_options cfg) h in
      let '(r, h) := dup_opt (referrer_policy cfg) h in
      (true, Some (mk_security c (hsts cfg) (hsts_max_age cfg) f r (nosniff cfg)), h)
  end.

Definition ioh_security_destroy (tl : option ioh_security_config_t) : option ioh_security_config_t := None.

(** ** Alt-Svc *)

Definition alt_svc_text (port max_age : Z) : bytes :=
  bs "h3=" ++ DQUOTE :: bs ":" ++ print_dec port ++ DQUOTE ::
  (if (0 <? max_age)%Z then bs "; ma=" ++ print_dec max_age else []).

Definition ioh_alt_svc_format (buf_len : nat) (port max_age : Z) : res bytes :=
  if buf_len =? 0 then Err EINVAL else
  let text := alt_svc_text port max_age in
  if buf_len <=? length text then Err ENOSPC else Ok text.

Definition ALT_SVC_BUF : nat := 64.

Definition ioh_alt_svc_add_header (h : heap) (r : ioh_response_t) (port max_age : Z) : step :=
  match ioh_alt_svc_format ALT_SVC_BUF port max_age with
  | Err e => Some (Err e, r, h)
  | Ok buf => ioh_response_set_header h r (Some (bs "alt-svc")) (Some buf)
  end.

(** ** Specification vocabulary *)

Abbreviation policy := (list (bytes * bytes)).

Definition set_one (hs : list ioh_header_t) (kv : bytes * bytes) : list ioh_header_t := set_spec (fst kv) (snd kv) hs.
Definition set_all (p : policy) (hs : list ioh_header_t) : list ioh_header_t := foldl set_one hs p.

(** A run of header settings: for every allocation outcome the invariant and all but
    the headers are kept, and the headers of the policy are set in order, all of them
    with the return code 0, or those before an [ENOMEM]. *)
Definition sets (f : next_fn) (p : policy) : Prop :=
  forall c h, response_ok (c_resp c) -> (Z.of_nat (length (r_headers (c_resp c)) + length p) < 2 ^ 31)%Z ->
  exists rc r' h' j, f c h = Some (rc, with_resp c r', h') /\ response_ok r' /\ same_rest (c_resp c) r'
    /\ r_headers r' = set_all (take j p) (r_headers (c_resp c))
    /\ (rc = 0%Z /\ j = length p \/ rc = (- errno_code ENOMEM)%Z /\ j < length p).

(** Names and values that fit a header. *)
Definition fits_header (kv : bytes * bytes) : Prop :=
  NUL ∉ fst kv /\ length (fst kv) ≤ IOH_MAX_HEADER_SIZE /\ NUL ∉ snd kv /\ length (snd kv) ≤ IOH_MAX_HEADER_SIZE.

(** The response after a policy has been applied: under each of its names the first
    value is the policy's, later values and all other headers are as before. *)
Definition carries (p : policy) (r r' : ioh_response_t) : Prop :=
  (forall k v, (k, v) ∈ p -> values k r' = v :: tail (values k r))
  /\ forall k, lower k ∉ lower ∘ fst <$> p -> values k r' = values k r.

(** ** Lemmas *)

Lemma with_resp_twice c r r' : with_resp (with_resp c r) r' = with_resp c r'.
Proof. done. Qed.

Lemma same_rest_trans r1 r2 r3 : same_rest r1 r2 -> same_rest r2 r3 -> same_rest r1 r3.
Proof. unfold same_rest. intros (?&?&?&?&?&?) (?&?&?&?&?&?). split_and!; congruence. Qed.

Lemma c_str_idem p : c_str (c_str p) = c_str p.
Proof. apply c_str_id, c_str_no_nul. Qed.

Lemma set_spec_c_str n p hs : set_spec n p hs = set_spec n (c_str p) hs.
Proof.
  assert (E : strnlen (c_str p) IOH_MAX_HEADER_SIZE = strnlen p IOH_MAX_HEADER_SIZE)
    by (unfold strnlen, strlen; by rewrite c_str_idem).
  unfold set_spec, owned_header, strndup. by rewrite E, c_str_idem.
Qed.

Lemma set_all_length p hs : length (set_all p hs) ≤ length p + length hs.
Proof.
  revert hs. induction p as [|kv p IH]; intros hs; simpl; [lia|].
  specialize (IH (set_one hs kv)). pose proof (set_spec_length (fst kv) (snd kv) hs). unfold set_one, set_all in *. lia.
Qed.

Lemma sets_skip : sets skip [].
Proof. intros c h Hr _. exists 0%Z, (c_resp c), h, 0. split; [by destruct c|]. split_and!; auto with iohttp. Qed.

Lemma sets_put n v : sets (put_header n v) [(n, c_str v)].
Proof.
  intros c h Hr Hl. simpl in Hl. destruct (set_header_step h (c_resp c) n v) as (rc & r' & h' & E & Hr' & Hs & Hrc); [done|lia|].
  unfold put_header. rewrite E. destruct rc as [[]|e]; simpl.
  - exists 0%Z, r', h', 1. split_and!; auto. simpl. unfold set_all, set_one. simpl. by rewrite <- set_spec_c_str.
  - destruct Hrc as [-> Hh]. exists (- errno_code ENOMEM)%Z, r', h', 0. split_and!; auto.
Qed.

Lemma sets_then f g p q : sets f p -> sets g q -> sets (f >>> g) (p ++ q).
Proof.
  intros Hf Hg c h Hr Hl. rewrite length_app in Hl.
  destruct (Hf c h Hr) as (rc & r1 & h1 & j & E & Hr1 & Hs1 & Hh1 & Hrc); [lia|].
  unfold and_then. rewrite E. destruct Hrc as [[-> ->]|[-> Hj]].
  - rewrite firstn_all in Hh1. destruct (Hg (with_resp c r1) h1) as (rc2 & r2 & h2 & k & E2 & Hr2 & Hs2 & Hh2 & Hrc2).
    { done. } { simpl. rewrite Hh1. pose proof (set_all_length p (r_headers (c_resp c))). lia. }
    simpl. rewrite E2. exists rc2, r2, h2, (length p + k). rewrite length_app. split; [done|]. split; [done|].
    split; [by eapply same_rest_trans|]. split; [|destruct Hrc2 as [[-> ->]|[-> ?]]; [left|right]; split; auto; lia].
    rewrite take_app_ge, Nat.add_comm, Nat.add_sub by lia. simpl in Hh2. rewrite Hh2, Hh1.
    unfold set_all. by rewrite foldl_app.
  - simpl. exists (- errno_code ENOMEM)%Z, r1, h1, j. rewrite length_app. split_and!; auto.
    + by rewrite take_app_le by lia.
    + right. split; [done|lia].
Qed.

Lemma sets_if (b : bool) f p : sets f p -> sets (if b then f else skip) (if b then p else []).
Proof. intros. destruct b; [done|apply sets_skip]. Qed.

Lemma sets_opt n v : sets (put_opt n v) (match v with Some v => [(n, c_str v)] | None => [] end).
Proof. destruct v; [apply sets_put|apply sets_skip]. Qed.

#[export] Hint Resolve sets_skip sets_put sets_then sets_if sets_opt : iohttp.

Lemma set_spec_owned n v hs : Forall owned hs -> Forall owned (set_spec n v hs).
Proof.
  intros Ho. unfold set_spec. destruct (list_find _ _) as [[i e]|] eqn:Ef.
  - apply list_find_Some in Ef as (Hi & _). apply Forall_insert; [done|].
    rewrite Forall_forall in Ho. destruct (Ho e) as (E1 & E2 & E3 & E4); [by eapply list_elem_of_lookup_2|].
    pose proof (strndup_owned v IOH_MAX_HEADER_SIZE) as [? ?]. by split_and!.
  - apply Forall_app. split; [done|]. constructor; [apply owned_header_owned|constructor].
Qed.

Lemma set_all_other p hs k :
  Forall owned hs -> Forall fits_header p -> lower k ∉ lower ∘ fst <$> p -> values_in k (set_all p hs) = values_in k hs.
Proof.
  revert hs. induction p as [|[n v] p IH]; intros hs Ho Hp Hk; [done|].
  apply Forall_cons in Hp as [(Hn & Hnl & Hv & Hvl) Hp]. rewrite fmap_cons in Hk. apply not_elem_of_cons in Hk as [Hk1 Hk2].
  cbn [set_all foldl]. unfold set_all in IH. rewrite IH; [|by apply set_spec_owned|done|done]. unfold set_one. cbn [fst snd] in *.
  rewrite set_spec_values by done. by rewrite decide_False.
Qed.

Lemma set_all_mine p hs k v :
  Forall owned hs -> Forall fits_header p -> NoDup (lower ∘ fst <$> p) -> (k, v) ∈ p ->
  values_in k (set_all p hs) = v :: tail (values_in k hs).
Proof.
  revert hs. induction p as [|[n w] p IH]; intros hs Ho Hp Hd Hin; [by apply not_elem_of_nil in Hin|].
  pose proof Hp as Hp0. apply Forall_cons in Hp as [(Hn & Hnl & Hv & Hvl) Hp]. rewrite fmap_cons in Hd.
  apply NoDup_cons in Hd as [Hnd Hd]. cbn [set_all foldl]. unfold set_one at 2. cbn [fst snd] in *.
  change (foldl set_one ?x p) with (set_all p x).
  apply elem_of_cons in Hin as [[= <- <-]|Hin].
  - rewrite set_all_other; [|by apply set_spec_owned|done|done]. rewrite set_spec_values by done. by rewrite decide_True.
  - rewrite (IH _ (set_spec_owned _ _ _ Ho) Hp Hd Hin). rewrite set_spec_values by done.
    rewrite decide_False; [done|]. intros E. apply Hnd. unfold compose at 1. cbn [fst]. rewrite <- E.
    apply list_elem_of_fmap. by exists (k, v).
Qed.

Lemma set_all_carries p r r' :
  response_ok r -> Forall fits_header p -> NoDup (lower ∘ fst <$> p) ->
  r_headers r' = set_all p (r_headers r) -> carries p r r'.
Proof.
  intros Hr Hp Hd E. pose proof (ok_headers _ Hr) as Ho. unfold carries, values. rewrite E. split; intros.
  - by apply set_all_mine.
  - by apply set_all_other.
Qed.

(** What a run of settings leaves in the response. *)
Lemma sets_carries f p c h :
  sets f p -> Forall fits_header p -> NoDup (lower ∘ fst <$> p) ->
  response_ok (c_resp c) -> (Z.of_nat (length (r_headers (c_resp c)) + length p) < 2 ^ 31)%Z ->
  exists rc r' h', f c h = Some (rc, with_resp c r', h') /\ response_ok r' /\ same_rest (c_resp c) r'
    /\ (rc = 0%Z /\ carries p (c_resp c) r' \/ rc = (- errno_code ENOMEM)%Z).
Proof.
  intros Hs Hp Hd Hr Hl. destruct (Hs c h Hr Hl) as (rc & r' & h' & j & E & Hr' & Hsr & Hh & Hrc).
  exists rc, r', h'. split_and!; [done..|]. destruct Hrc as [[-> ->]|[-> _]]; [left|by right].
  split; [done|]. rewrite firstn_all in Hh. by apply set_all_carries.
Qed.

(** ** CORS decisions *)

(** The items behind a first one, each with its separator. *)
Definition rest_items (xs : list bytes) : bytes := xs ≫= fun x => bs ", " ++ x.
Definition join_items (xs : list bytes) : bytes := match xs with [] => [] | x :: xs => x ++ rest_items xs end.

(** The items a list option configures. *)
Definition items (l : option (list bytes)) (count : nat) : list bytes := c_str <$> take count (default [] l).

Definition list_text (l : option (list bytes)) (count : nat) (default_text : bytes) : bytes :=
  if no_list l count then default_text else join_items (items l count).

(** A list option with its count, whose text fits the buffer. *)
Definition list_ok (l : option (list bytes)) (count : nat) : Prop :=
  (forall xs, l = Some xs -> count ≤ length xs) /\ length (join_items (items l count)) < LIST_BUF.

Definition cors_ok (cfg : ioh_cors_config_t) : Prop :=
  (forall os, allowed_origins cfg = Some os -> origin_count cfg ≤ length os)
  /\ list_ok (allowed_methods cfg) (method_count cfg) /\ list_ok (allowed_headers cfg) (cors_header_count cfg)
  /\ (0 <= max_age_seconds cfg < 2 ^ 32)%Z.

(** An origin the configuration lets in: any when it has no list, else one of the list. *)
Definition origin_ok (cfg : ioh_cors_config_t) (o : bytes) : Prop :=
  no_list (allowed_origins cfg) (origin_count cfg) = true \/ o ∈ items (allowed_origins cfg) (origin_count cfg).

(** The origin named in the answer: the request's own, except without a list and
    without credentials. *)
Definition answer_origin (cfg : ioh_cors_config_t) (o : bytes) : bytes :=
  if negb (allow_credentials cfg) && no_list (allowed_origins cfg) (origin_count cfg) then bs "*" else o.

Definition preflight_policy (cfg : ioh_cors_config_t) (o : bytes) : policy :=
  [(ALLOW_ORIGIN, answer_origin cfg o)]
  ++ [(ALLOW_METHODS, list_text (allowed_methods cfg) (method_count cfg) DEFAULT_METHODS)]
  ++ [(ALLOW_HEADERS, list_text (allowed_headers cfg) (cors_header_count cfg) DEFAULT_HEADERS)]
  ++ [(MAX_AGE, print_dec (max_age_seconds cfg))]
  ++ (if allow_credentials cfg then [(ALLOW_CREDENTIALS, bs "true")] else []).

Lemma origin_loop_spec os n p :
  n ≤ length os -> origin_loop os n p = Some (bool_decide (c_str p ∈ c_str <$> take n os)).
Proof.
  revert os. induction n as [|n IH]; intros os Hn.
  { rewrite take_0, bool_decide_false; [done|]. apply not_elem_of_nil. }
  destruct os as [|o os]; simpl in Hn; [lia|]. cbn [origin_loop take fmap list_fmap].
  unfold strcmp_eq. destruct (bytes_eqb (c_str o) (c_str p)) eqn:E; bprop.
  - rewrite bool_decide_true; [done|]. rewrite E. left.
  - rewrite IH by lia. f_equal. apply bool_decide_ext. rewrite elem_of_cons. split; [by right|]. intros [Eq|?]; [by rewrite Eq in E|done].
Qed.

Lemma origin_allowed_spec cfg p :
  cors_ok cfg -> exists b, origin_allowed cfg p = Some b /\ (b = true <-> origin_ok cfg (c_str p)).
Proof.
  intros (Ho & _). unfold origin_allowed, origin_ok, no_list, items. destruct (allowed_origins cfg) as [os|]; simpl.
  - destruct (origin_count cfg =? 0) eqn:E; simpl; [by exists true; intuition|].
    rewrite origin_loop_spec by auto. eexists. split; [done|]. rewrite bool_decide_eq_true. split; [by right|]. by intros [?|?].
  - exists true. rewrite orb_true_r. intuition.
Qed.

Lemma append_text_fits buf t :
  length (buf ++ t) < LIST_BUF -> append_text (buf, length buf) t = Some (buf ++ t, length (buf ++ t)).
Proof.
  rewrite length_app. intros Hl. unfold append_text. rewrite (proj2 (Nat.ltb_ge _ _)) by lia.
  rewrite snprintf_fits by lia. done.
Qed.

Lemma list_loop_rest xs n buf :
  n ≤ length xs -> length (buf ++ rest_items (c_str <$> take n xs)) < LIST_BUF ->
  exists k, list_loop xs n false (buf, length buf) = Some (buf ++ rest_items (c_str <$> take n xs), k).
Proof.
  revert xs buf. induction n as [|n IH]; intros xs buf Hn Hl.
  { rewrite take_0. unfold rest_items. simpl. rewrite app_nil_r. by eexists. }
  destruct xs as [|x xs]; simpl in Hn; [lia|]. cbn [take fmap list_fmap] in *. unfold rest_items in *.
  rewrite bind_cons in *. rewrite <- app_assoc in *. rewrite !length_app in Hl. cbn [list_loop].
  assert (H2 : length (bs ", ") = 2) by done. rewrite append_text_fits by llia. rewrite append_text_fits by llia.
  destruct (IH xs ((buf ++ bs ", ") ++ c_str x)) as [k ->]; [lia|rewrite !length_app; lia|]. exists k. by rewrite <- !app_assoc.
Qed.

Lemma list_loop_text xs n :
  n ≤ length xs -> length (join_items (c_str <$> take n xs)) < LIST_BUF ->
  exists k, list_loop xs n true ([], 0) = Some (join_items (c_str <$> take n xs), k).
Proof.
  intros Hn Hl. destruct n as [|n]; [rewrite take_0; by eexists|]. destruct xs as [|x xs]; simpl in Hn; [lia|].
  cbn [take fmap list_fmap join_items] in *. cbn [list_loop].
  change (append_text ([], 0) (c_str x)) with (append_text ([], length (@nil byte)) (c_str x)).
  rewrite append_text_fits; [|rewrite length_app in Hl; simpl; lia]. apply list_loop_rest; [lia|done].
Qed.

Lemma c_str_rest xs : c_str (rest_items (c_str <$> xs)) = rest_items (c_str <$> xs).
Proof.
  apply c_str_id. unfold rest_items. induction xs as [|x xs IH]; [done|]. rewrite fmap_cons, bind_cons.
  rewrite !Forall_app. split_and!; [by repeat constructor|apply c_str_no_nul|done].
Qed.

Lemma c_str_join xs : c_str (join_items (c_str <$> xs)) = join_items (c_str <$> xs).
Proof.
  destruct xs as [|x xs]; [done|]. cbn [fmap list_fmap join_items]. apply c_str_id. apply Forall_app.
  split; [apply c_str_no_nul|]. rewrite <- c_str_rest. apply c_str_no_nul.
Qed.

Lemma sets_list n l count d :
  list_ok l count -> c_str d = d -> sets (put_list n l count d) [(n, list_text l count d)].
Proof.
  intros [Hc Hl] Hd. unfold put_list, list_text, no_list, items in *. destruct l as [xs|].
  - destruct count as [|k]; cbn [Nat.ltb Nat.leb Nat.eqb orb]; [rewrite <- Hd at 2; apply sets_put|].
    destruct (list_loop_text xs (S k)) as [j ->]; [by apply Hc|done|]. simpl default in *.
    rewrite <- c_str_join at 2. apply sets_put.
  - rewrite orb_true_r. rewrite <- Hd at 2. apply sets_put.
Qed.

Lemma print_dec_c_str z : (0 <= z)%Z -> c_str (print_dec z) = print_dec z.
Proof.
  intros Hz. apply c_str_id. eapply Forall_impl; [by apply print_dec_digits|].
  intros b Hb. destruct b; done.
Qed.

Lemma sets_origin cfg p : sets (set_origin_header cfg p) [(ALLOW_ORIGIN, answer_origin cfg (c_str p))].
Proof.
  unfold set_origin_header, answer_origin. destruct (allow_credentials cfg); simpl; [apply sets_put|].
  destruct (no_list _ _); apply sets_put.
Qed.

Lemma u32_digits z : (0 <= z < 2 ^ 32)%Z -> length (print_dec z) ≤ 10.
Proof. intros Hz. apply print_dec_length; [|lia]. change (10 ^ Z.of_nat 10)%Z with 10000000000%Z. lia. Qed.

Lemma sets_preflight cfg p : cors_ok cfg -> sets (preflight cfg p) (preflight_policy cfg (c_str p)).
Proof.
  intros (_ & Hm & Hh & Ha). unfold preflight, preflight_policy. repeat apply sets_then.
  - apply sets_origin.
  - by apply sets_list.
  - by apply sets_list.
  - pose proof (u32_digits _ Ha). rewrite take_ge by (unfold AGE_BUF; lia).
    rewrite <- (print_dec_c_str (max_age_seconds cfg)) at 2 by lia. apply sets_put.
  - apply sets_if, sets_put.
Qed.

(** A text that fits a header value. *)
Definition value_ok (v : bytes) : Prop := NUL ∉ v /\ length v ≤ IOH_MAX_HEADER_SIZE.

Lemma value_ok_c_str v : length (c_str v) ≤ IOH_MAX_HEADER_SIZE -> value_ok (c_str v).
Proof. split; [apply c_str_nul|done]. Qed.

Lemma short_value n : n ≤ 512 -> n ≤ IOH_MAX_HEADER_SIZE.
Proof. intros Hn. etrans; [exact Hn|nle]. Qed.

Lemma value_ok_list l count d : list_ok l count -> value_ok d -> value_ok (list_text l count d).
Proof.
  intros [_ Hl] Hd. unfold list_text. destruct (no_list l count); [done|]. unfold items in *. rewrite <- c_str_join.
  apply value_ok_c_str. rewrite c_str_join. apply short_value. unfold LIST_BUF in Hl. lia.
Qed.

Lemma value_ok_dec z : (0 <= z < 2 ^ 32)%Z -> value_ok (print_dec z).
Proof.
  intros Hz. rewrite <- print_dec_c_str by lia. apply value_ok_c_str. rewrite print_dec_c_str by lia.
  pose proof (u32_digits z Hz). apply short_value. lia.
Qed.

(** Literal names and values. *)
Ltac fits := first [bcompute | nle].

Lemma value_ok_origin cfg o : value_ok o -> value_ok (answer_origin cfg o).
Proof. intros. unfold answer_origin. destruct (_ && _); [split; fits|done]. Qed.

Lemma preflight_fits cfg o : cors_ok cfg -> value_ok o -> Forall fits_header (preflight_policy cfg o).
Proof.
  intros (_ & Hm & Hh & Ha) Ho. unfold preflight_policy.
  assert (Hn : forall n v, NUL ∉ n -> length n ≤ IOH_MAX_HEADER_SIZE -> value_ok v -> fits_header (n, v))
    by (intros n v ?? [? ?]; by split_and!).
  repeat apply Forall_app_2; try (apply Forall_singleton, Hn; [bcompute|nle|]).
  - by apply value_ok_origin.
  - apply value_ok_list; [done|split; fits].
  - apply value_ok_list; [done|split; fits].
  - by apply value_ok_dec.
  - destruct (allow_credentials cfg); [|done]. apply Forall_singleton, Hn; [bcompute|nle|split; fits].
Qed.

Lemma preflight_names cfg o : NoDup (lower ∘ fst <$> preflight_policy cfg o).
Proof. unfold preflight_policy. destruct (allow_credentials cfg); simpl; bcompute. Qed.

(** C27: CORS decisions.  A request without [Origin] is handled as without the
    middleware.  For an origin that is not let in, a preflight request is answered 204
    without any CORS header and without running the handler, and any other request
    runs as without the middleware.  For an origin that is let in, a preflight is
    answered 204 with exactly the configured origin, methods, headers, age and
    credentials (the origin echoed, never the star, with credentials or a list), and
    any other request gets, after the handler succeeded, the allowed origin and no
    other change; when memory runs out the error is returned and no store is out of
    bounds.  The configured lists fit their 512-byte buffer. *)
Theorem cors_decides cfg next c h :
  cors_ok cfg -> response_ok (c_resp c) -> (Z.of_nat (length (r_headers (c_resp c))) + 5 < 2 ^ 31)%Z ->
  (forall p, ioh_request_header (c_req c) (bs "Origin") = Some p -> length (c_str p) ≤ IOH_MAX_HEADER_SIZE) ->
  match ioh_request_header (c_req c) (bs "Origin") with
  | None => cors_middleware (Some cfg) next c h = next c h
  | Some p =>
      (~ origin_ok cfg (c_str p) ->
       cors_middleware (Some cfg) next c h = if is_options c then Some (0%Z, set_status c 204, h) else next c h)
      /\ (origin_ok cfg (c_str p) -> is_options c = true ->
          exists rc r' h', cors_middleware (Some cfg) next c h = Some (rc, with_resp c r', h')
            /\ response_ok r' /\ r_status r' = 204%Z
            /\ (rc = 0%Z /\ carries (preflight_policy cfg (c_str p)) (c_resp c) r' \/ rc = (- errno_code ENOMEM)%Z))
      /\ (origin_ok cfg (c_str p) -> is_options c = false ->
          forall rc c1 h1, next c h = Some (rc, c1, h1) ->
          (rc ≠ 0%Z -> cors_middleware (Some cfg) next c h = next c h)
          /\ (rc = 0%Z -> response_ok (c_resp c1) -> (Z.of_nat (length (r_headers (c_resp c1))) + 1 < 2 ^ 31)%Z ->
              exists rc r' h', cors_middleware (Some cfg) next c h = Some (rc, with_resp c1 r', h')
                /\ response_ok r' /\ same_rest (c_resp c1) r'
                /\ (rc = 0%Z /\ carries [(ALLOW_ORIGIN, answer_origin cfg (c_str p))] (c_resp c1) r'
                    \/ rc = (- errno_code ENOMEM)%Z)))
  end.
Proof.
  intros Hc Hr Hl Hp. unfold cors_middleware.
  destruct (ioh_request_header (c_req c) (bs "Origin")) as [p|] eqn:Eo; [|done].
  pose proof (value_ok_c_str p (Hp p eq_refl)) as Hv.
  destruct (origin_allowed_spec cfg p Hc) as (b & -> & Hb). split_and!.
  - intros Hn. destruct b; [by destruct Hn; apply Hb|done].
  - intros Ho Hm. rewrite (proj2 Hb Ho), Hm.
    destruct (sets_carries _ _ (set_status c 204) h (sets_preflight cfg p Hc)) as (rc & r' & h' & -> & Hr' & Hs & Hrc).
    { by apply preflight_fits. } { apply preflight_names. } { by apply with_status_ok. }
    { assert (length (preflight_policy cfg (c_str p)) ≤ 5) by (unfold preflight_policy; destruct (allow_credentials cfg); simpl; lia).
      cbn [c_resp set_status with_resp r_headers with_status]. lia. }
    exists rc, r', h'. split_and!; [done|done|by destruct Hs|done].
  - intros Ho Hm rc c1 h1 En. rewrite (proj2 Hb Ho), Hm. unfold and_then. rewrite En. split.
    + intros Hne. by rewrite (proj2 (Z.eqb_neq _ _) Hne).
    + intros -> Hr1 Hl1. rewrite Z.eqb_refl. apply (sets_carries _ _ c1 h1 (sets_origin cfg p)); simpl.
      * apply Forall_singleton. destruct (value_ok_origin cfg _ Hv). split_and!; [bcompute|nle|done|done].
      * bcompute.
      * done.
      * lia.
Qed.

(** ** Security headers *)

Definition opt_policy (n : bytes) (v : option bytes) : policy :=
  match v with Some v => [(n, c_str v)] | None => [] end.

Definition security_policy (st : ioh_security_config_t) : policy :=
  opt_policy CSP (csp st)
  ++ (if hsts st then [(HSTS, bs "max-age=" ++ print_dec (hsts_max_age st) ++ bs "; includeSubDomains")] else [])
  ++ opt_policy FRAME (frame_options st)
  ++ opt_policy REFERRER (referrer_policy st)
  ++ (if nosniff st then [(CTYPE_OPTIONS, bs "nosniff")] else []).

Definition opt_value_ok (v : option bytes) : Prop :=
  match v with Some v => length (c_str v) ≤ IOH_MAX_HEADER_SIZE | None => True end.

Definition security_ok (st : ioh_security_config_t) : Prop :=
  opt_value_ok (csp st) /\ opt_value_ok (frame_options st) /\ opt_value_ok (referrer_policy st)
  /\ (0 <= hsts_max_age st < 2 ^ 32)%Z.

Lemma hsts_value age :
  (0 <= age < 2 ^ 32)%Z ->
  let t := bs "max-age=" ++ print_dec age ++ bs "; includeSubDomains" in hsts_text age = t /\ c_str t = t /\ value_ok t.
Proof.
  intros Ha t. pose proof (u32_digits age Ha).
  assert (Ht : length t ≤ 37) by (subst t; rewrite !length_app; change (length (bs "max-age=")) with 8;
    change (length (bs "; includeSubDomains")) with 19; lia).
  assert (Hs : c_str t = t).
  { apply c_str_id. subst t. rewrite !Forall_app. split_and!; [by repeat constructor| |by repeat constructor].
    rewrite <- print_dec_c_str by lia. apply c_str_no_nul. }
  split; [apply take_ge; unfold HSTS_BUF; lia|]. split; [done|]. rewrite <- Hs. apply value_ok_c_str. rewrite Hs.
  apply short_value. lia.
Qed.

(** Security headers.  When the handler fails its error is passed on with the
    context as it left it; when it succeeds the response gets every configured header
    (policy, transport security with its age, framing, referrer, sniffing), each
    replacing the first value the handler gave it, and no other header changes; an
    exhausted allocator gives the error and no store out of bounds. *)
Theorem security_headers_set st next c h rc c1 h1 :
  security_ok st -> next c h = Some (rc, c1, h1) ->
  (rc ≠ 0%Z -> security_middleware (Some st) next c h = next c h)
  /\ (rc = 0%Z -> response_ok (c_resp c1) -> (Z.of_nat (length (r_headers (c_resp c1))) + 5 < 2 ^ 31)%Z ->
      exists rc r' h', security_middleware (Some st) next c h = Some (rc, with_resp c1 r', h')
        /\ response_ok r' /\ same_rest (c_resp c1) r'
        /\ (rc = 0%Z /\ carries (security_policy st) (c_resp c1) r' \/ rc = (- errno_code ENOMEM)%Z)).
Proof.
  intros (Hc & Hf & Hp & Ha) En. unfold security_middleware, and_then. rewrite En. split.
  { intros Hne. by rewrite (proj2 (Z.eqb_neq _ _) Hne). }
  intros -> Hr Hl. rewrite Z.eqb_refl. destruct (hsts_value (hsts_max_age st) Ha) as (Et & Es & Hv).
  apply (sets_carries _ (security_policy st)); [..|done|].
  - unfold security_headers, security_policy. repeat apply sets_then; try apply sets_opt; apply sets_if; [|apply sets_put].
    rewrite Et. rewrite <- Es at 2. apply sets_put.
  - assert (Ho : forall n v, NUL ∉ n -> length n ≤ IOH_MAX_HEADER_SIZE -> opt_value_ok v -> Forall fits_header (opt_policy n v)).
    { intros n [v|] ???; [|done]. apply Forall_singleton. destruct (value_ok_c_str v); [done|]. by split_and!. }
    unfold security_policy. repeat apply Forall_app_2; try (apply Ho; [bcompute|nle|done]).
    + destruct (hsts st); [|done]. apply Forall_singleton. destruct Hv. split_and!; [bcompute|nle|done|done].
    + destruct (nosniff st); [|done]. apply Forall_singleton. split_and!; fits.
  - unfold security_policy. destruct (csp st), (hsts st), (frame_options st), (referrer_policy st), (nosniff st); simpl; bcompute.
  - assert (length (security_policy st) ≤ 5); [|lia]. unfold security_policy.
    destruct (csp st), (hsts st), (frame_options st), (referrer_policy st), (nosniff st); simpl; lia.
Qed.

(** The [alt-svc] header of any port and age fits its buffer and is set. *)
Theorem alt_svc_set h r port age :
  (0 <= port < 2 ^ 16)%Z -> (0 <= age < 2 ^ 32)%Z ->
  ioh_alt_svc_add_header h r port age =
    ioh_response_set_header h r (Some (bs "alt-svc")) (Some (alt_svc_text port age)).
Proof.
  intros Hp Ha. unfold ioh_alt_svc_add_header, ioh_alt_svc_format. cbn [Nat.eqb ALT_SVC_BUF].
  assert (Hl : length (alt_svc_text port age) < 64).
  { pose proof (u32_digits port). pose proof (u32_digits age Ha). unfold alt_svc_text.
    rewrite !length_app. simpl. rewrite length_app. simpl. destruct (0 <? age)%Z; rewrite ?length_app; simpl; lia. }
  by rewrite (proj2 (Nat.leb_gt _ _)) by exact Hl.
Qed.

(** ** Witnesses and examples *)

Definition demo_cors : ioh_cors_config_t :=
  mk_cors (Some [bs "https://a"; bs "https://b"]) 2 (Some [bs "GET"; bs "PUT"]) 2 None 0 true 60.

Definition demo_cors_ctx : ioh_ctx_t :=
  mk_ctx (mk_request IOH_METHOD_OPTIONS None 0 None 0 [mk_header (bs "Origin") 6 (bs "https://b") 9] None 0 [] 1 1 true 0 None None)
    demo_response (mk_arena (Some 0) IOH_CTX_ARENA_DEFAULT 0 []) [] (-1) false.

Definition no_next : next_fn := fun _ _ => None.

Lemma demo_cors_ok : cors_ok demo_cors.
Proof.
  unfold cors_ok, list_ok. split; [intros ? [= <-]; nle|]. split; [split; [intros ? [= <-]; nle|nle]|].
  split; [split; [intros ? [=]|nle]|]. cbn. lia.
Qed.

Lemma cors_decides_witness :
  exists r', cors_middleware (Some demo_cors) no_next demo_cors_ctx [] = Some (0%Z, with_resp demo_cors_ctx r', [])
    /\ r_status r' = 204%Z /\ values (bs "access-control-allow-methods") r' = [bs "GET, PUT"].
Proof.
  pose proof (cors_decides demo_cors no_next demo_cors_ctx []) as T.
  assert (E : ioh_request_header (c_req demo_cors_ctx) (bs "Origin") = Some (bs "https://b")) by (vm_compute; reflexivity).
  rewrite E in T. destruct T as (_ & T & _).
  - exact demo_cors_ok.
  - exact demo_response_ok.
  - cbn. lia.
  - intros p [= <-]. nle.
  - destruct T as (rc & r' & h' & R & _ & Hs & _).
    + right. bcompute.
    + reflexivity.
    + assert (Hr : cors_middleware (Some demo_cors) no_next demo_cors_ctx [] = Some (0%Z, with_resp demo_cors_ctx r', [])).
      { vm_compute in R |- *. injection R as <- <- <-. reflexivity. }
      exists r'. split; [exact Hr|]. split; [exact Hs|]. vm_compute in R. injection R as <- <- <-. vm_compute. reflexivity.
Defined.

Definition ok_next : next_fn := fun c h => Some (0%Z, c, h).

Lemma security_headers_set_witness :
  exists r', security_middleware (Some ioh_security_config_init) ok_next demo_cors_ctx [] =
      Some (0%Z, with_resp demo_cors_ctx r', []) /\ values HSTS r' = [bs "max-age=31536000; includeSubDomains"].
Proof.
  destruct (security_headers_set ioh_security_config_init ok_next demo_cors_ctx [] 0 demo_cors_ctx []) as [_ T].
  - unfold security_ok. split_and!; simpl; first [nle | lia | exact I].
  - reflexivity.
  - destruct T as (rc & r' & h' & R & _).
    + reflexivity.
    + exact demo_response_ok.
    + cbn. lia.
    + exists r'. vm_compute in R. injection R as <- <- <-. split; vm_compute; reflexivity.
Defined.

(** A configured list longer than the buffer: the next item is stored outside it. *)
Example cors_long_list_overflows :
  put_list ALLOW_METHODS (Some [replicate 600 "A"%byte; bs "GET"]) 2 DEFAULT_METHODS demo_cors_ctx [] = None.
Proof. vm_compute. reflexivity. Qed.

(** The header values of a parsed request are not terminated, so the comparison with
    a listed origin sees the following lines too and refuses the listed origin. *)
Example parsed_origin_not_recognised :
  let msg := render_request (bs "GET") (bs "/") 1 [(bs "Origin", bs "https://a"); (bs "Host", bs "x")] in
  exists n req p, ioh_http1_parse_request false msg ioh_request_init = (Ok n, req)
    /\ ioh_request_header req (bs "Origin") = Some p /\ origin_allowed demo_cors p = Some false.
Proof. eexists _, _, _. split; [vm_compute; reflexivity|]. split; vm_compute; reflexivity. Qed.
