(* ===== verification/Dates.v ===== *)
(** * Calendar time and HTTP dates

    The time functions of the C library that conditional requests use: [gmtime_r] and
    [timegm] on the proleptic Gregorian calendar, and [strftime] and [strptime] with the
    one format the sources pass, ["%a, %d %b %Y %H:%M:%S GMT"], in the C locale.  A
    printed date reads back as the time it was printed from. *)
From S2P Require Import Prelude CString.
Local Open Scope Z_scope.

Record tm := mk_tm {
  tm_sec : Z; tm_min : Z; tm_hour : Z; tm_mday : Z; tm_mon : Z; tm_year : Z; tm_wday : Z;
}.

(** ** Days and dates *)

(** Day numbers count from 1970-01-01.  Years are taken from March on, so that the leap
    day ends them; 400 of them have 146097 days. *)
Definition EPOCH : Z := 719468.
Definition ERA : Z := 146097.

Definition days_of_civil (y m d : Z) : Z :=
  let y := if m <=? 1 then y - 1 else y in
  let yoe := y mod 400 in
  let doy := (153 * ((m + 10) mod 12) + 2) / 5 + d - 1 in
  y / 400 * ERA + (yoe * 365 + yoe / 4 - yoe / 100 + doy) - EPOCH.

Definition civil_of_days (n : Z) : Z * Z * Z :=
  let z := n + EPOCH in
  let doe := z mod ERA in
  let cent := Z.min 3 (doe / 36524) in
  let doc := doe - cent * 36524 in
  let quad := doc / 1461 in
  let doq := doc mod 1461 in
  let yr := Z.min 3 (doq / 365) in
  let doy := doq - yr * 365 in
  let mp := (5 * doy + 2) / 153 in
  let m := if mp <? 10 then mp + 2 else mp - 10 in
  (z / ERA * 400 + cent * 100 + quad * 4 + yr + (if m <=? 1 then 1 else 0), m, doy - (153 * mp + 2) / 5 + 1).

(** [gmtime_r] fails when the year does not fit [int]. *)
Definition gmtime_r (t : Z) : option tm :=
  let days := t / 86400 in
  let s := t mod 86400 in
  let '(y, m, d) := civil_of_days days in
  let year := y - 1900 in
  if (year <? - 2 ^ 31) || (2 ^ 31 - 1 <? year) then None
  else Some (mk_tm (s mod 60) (s / 60 mod 60) (s / 3600) d m year ((days + 4) mod 7)).

(** [timegm] on fields in the ranges [strptime] reads; the day of the month may exceed
    the month's length and then counts on. *)
Definition timegm (t : tm) : Z :=
  days_of_civil (tm_year t + 1900) (tm_mon t) (tm_mday t) * 86400
  + tm_hour t * 3600 + tm_min t * 60 + tm_sec t.

(** ** Printing *)

Definition weekday_names : list bytes :=
  [bs "Sunday"; bs "Monday"; bs "Tuesday"; bs "Wednesday"; bs "Thursday"; bs "Friday"; bs "Saturday"].

Definition month_names : list bytes :=
  [bs "January"; bs "February"; bs "March"; bs "April"; bs "May"; bs "June"; bs "July"; bs "August";
   bs "September"; bs "October"; bs "November"; bs "December"].

Definition abbreviated (names : list bytes) (i : Z) : bytes := take 3 (default [] (names !! Z.to_nat i)).

Definition two_digits (n : Z) : bytes := [digit_byte (n / 10); digit_byte (n mod 10)].

Definition year_text (y : Z) : bytes := if y <? 0 then "-"%byte :: print_dec (- y) else print_dec y.

(** [strftime] with the HTTP format; [None] when the text and its terminator do not fit. *)
Definition http_date (t : tm) : bytes :=
  abbreviated weekday_names (tm_wday t) ++ bs ", " ++ two_digits (tm_mday t) ++ bs " "
  ++ abbreviated month_names (tm_mon t) ++ bs " " ++ year_text (tm_year t + 1900) ++ bs " "
  ++ two_digits (tm_hour t) ++ bs ":" ++ two_digits (tm_min t) ++ bs ":" ++ two_digits (tm_sec t) ++ bs " GMT".

Definition strftime_http (size : nat) (t : tm) : option bytes :=
  if (size <=? length (http_date t))%nat then None else Some (http_date t).

(** ** Reading *)

(** A reader takes a field off the text. *)
Definition reader (A : Type) : Type := bytes -> option (A * bytes).

Definition and_read {A B} (f : reader A) (g : A -> reader B) : reader B := fun p =>
  match f p with Some (a, p) => g a p | None => None end.

Notation "x <- f ;; g" := (and_read f (fun x => g)) (at level 100, f at next level, right associativity) : iohttp_scope.

(** Blanks in the format match any white space; other characters match themselves. *)
Definition white (b : byte) : bool := (b =b SP) || ((9 <=? b2z b) && (b2z b <=? 13)).
Definition read_white : reader unit := fun p => Some (tt, snd (span white p)).
Definition read_text (t : bytes) : reader unit := fun p =>
  if bytes_eqb (take (length t) p) t then Some (tt, drop (length t) p) else None.

(** A name, in full or abbreviated, in any case. *)
Fixpoint starts_ci (name p : bytes) : bool :=
  match name, p with
  | [], _ => true
  | x :: name, y :: p => (to_lower x =b to_lower y) && starts_ci name p
  | _, [] => false
  end.

Fixpoint read_name (names : list bytes) (i : Z) (p : bytes) : option (Z * bytes) :=
  match names with
  | [] => None
  | n :: names =>
      if starts_ci n p then Some (i, drop (length n) p)
      else if starts_ci (take 3 n) p then Some (i, drop 3 p)
      else read_name names (i + 1) p
  end.

(** A number of at most [n] digits: blanks, a digit, and further digits while the value
    can stay within the limit. *)
Fixpoint more_digits (n : nat) (hi v : Z) (p : bytes) : Z * bytes :=
  match n, p with
  | S n, b :: p' => if (v * 10 <=? hi) && is_digit b then more_digits n hi (v * 10 + digit_val b) p' else (v, p)
  | _, _ => (v, p)
  end.

Definition read_number (lo hi : Z) (n : nat) : reader Z := fun p =>
  match snd (span (fun b => b =b SP) p) with
  | b :: p => if is_digit b then
                let '(v, p) := more_digits (n - 1) hi (digit_val b) p in
                if (v <? lo) || (hi <? v) then None else Some (v, p)
              else None
  | [] => None
  end.

Definition strptime_http : reader tm :=
  w <- read_name weekday_names 0;; _ <- read_text (bs ",");; _ <- read_white;;
  d <- read_number 1 31 2;; _ <- read_white;;
  m <- read_name month_names 0;; _ <- read_white;;
  y <- read_number 0 9999 4;; _ <- read_white;;
  hh <- read_number 0 23 2;; _ <- read_text (bs ":");;
  mi <- read_number 0 59 2;; _ <- read_text (bs ":");;
  ss <- read_number 0 61 2;; _ <- read_white;; _ <- read_text (bs "GMT");;
  fun p => Some (mk_tm ss mi hh d m (y - 1900) w, p).

(** ** Lemmas *)

(** The parts of a day number, largest first. *)
Lemma era_parts z :
  let doe := z mod ERA in
  let cent := Z.min 3 (doe / 36524) in
  let doc := doe - cent * 36524 in
  let yr := Z.min 3 (doc mod 1461 / 365) in
  let doy := doc mod 1461 - yr * 365 in
  0 <= cent <= 3 /\ 0 <= doc / 1461 <= 24 /\ 0 <= yr <= 3 /\ 0 <= doy <= 365
  /\ z = z / ERA * ERA + cent * 36524 + doc / 1461 * 1461 + yr * 365 + doy.
Proof. unfold ERA. cbv zeta. zdiv. Qed.

Lemma year_days era c q yr :
  0 <= c <= 3 -> 0 <= q <= 24 -> 0 <= yr <= 3 ->
  let y := era * 400 + c * 100 + q * 4 + yr in
  let yoe := y mod 400 in
  y / 400 = era /\ yoe * 365 + yoe / 4 - yoe / 100 = c * 36524 + q * 1461 + yr * 365.
Proof.
  intros Hc Hq Hy y yoe. assert (E : yoe = c * 100 + q * 4 + yr) by (unfold yoe, y; zdiv).
  split; [unfold y; zdiv|]. rewrite E. assert ((c * 100 + q * 4 + yr) / 100 = c) as -> by zdiv.
  assert ((c * 100 + q * 4 + yr) / 4 = c * 25 + q) as -> by zdiv. lia.
Qed.

Lemma month_days doy :
  0 <= doy <= 365 ->
  let mp := (5 * doy + 2) / 153 in
  let m := if mp <? 10 then mp + 2 else mp - 10 in
  let d := doy - (153 * mp + 2) / 5 + 1 in
  0 <= m <= 11 /\ 1 <= d <= 31 /\ (m + 10) mod 12 = mp.
Proof. intros H mp m d. unfold m, d, mp. destruct (Z.ltb_spec ((5 * doy + 2) / 153) 10); zdiv. Qed.

Lemma days_civil n y m d :
  civil_of_days n = (y, m, d) ->
  days_of_civil y m d = n /\ 0 <= m <= 11 /\ 1 <= d <= 31 /\ (0 <= n < 2932897 -> 1970 <= y <= 9999).
Proof.
  unfold civil_of_days. destruct (era_parts (n + EPOCH)) as (Hc & Hq & Hyr & Hdoy & Hz). cbv zeta in *.
  set (era := (n + EPOCH) / ERA) in *. set (doe := (n + EPOCH) mod ERA) in *.
  set (c := Z.min 3 (doe / 36524)) in *. set (q := (doe - c * 36524) / 1461) in *.
  set (doq := (doe - c * 36524) mod 1461) in *. set (yr := Z.min 3 (doq / 365)) in *.
  set (doy := doq - yr * 365) in *. intros [= <- <- <-].
  destruct (month_days doy Hdoy) as (Hm & Hd & Hmp). cbv zeta in *.
  destruct (year_days era c q yr Hc Hq Hyr) as [Ey Ed]. cbv zeta in *.
  set (mp := (5 * doy + 2) / 153) in *. set (m := if mp <? 10 then mp + 2 else mp - 10) in *.
  split_and!; try lia.
  - unfold days_of_civil. rewrite Hmp. destruct (Z.leb_spec m 1).
    + replace (era * 400 + c * 100 + q * 4 + yr + 1 - 1) with (era * 400 + c * 100 + q * 4 + yr) by lia.
      rewrite Ey, Ed. lia.
    + rewrite Z.add_0_r, Ey, Ed. lia.
  - intros Hn. clearbody era c q yr. unfold EPOCH, ERA in Hz.
    assert (Hmy : m <= 1 -> 306 <= doy) by (unfold m, mp; destruct (Z.ltb_spec ((5 * doy + 2) / 153) 10); zdiv).
    assert (Hmy' : 1 < m -> doy <= 305) by (unfold m, mp; destruct (Z.ltb_spec ((5 * doy + 2) / 153) 10); zdiv).
    clearbody m doy. destruct (Z.leb_spec m 1); lia.
Qed.

(** Reading back what was printed. *)

(** One case per value of a variable in a known range. *)
Ltac enum i :=
  match goal with
  | H : 0 <= i <= 0 |- _ => assert (i = 0) by lia; subst i
  | H : 0 <= i <= Zpos ?p |- _ =>
      let m := eval compute in (Z.pred (Zpos p)) in
      assert (i = Zpos p \/ 0 <= i <= m) as [->|?] by lia; clear H; [|enum i]
  end.

Lemma weekday_name i : 0 <= i <= 6 ->
  (forall rest, read_name weekday_names 0 (abbreviated weekday_names i ++ bs ", " ++ rest) = Some (i, bs ", " ++ rest))
  /\ NUL ∉ abbreviated weekday_names i /\ length (abbreviated weekday_names i) = 3%nat.
Proof. intros H. enum i; (split; [intros rest; vm_compute; reflexivity|split; [bcompute|done]]). Qed.

Lemma month_name i : 0 <= i <= 11 ->
  (forall rest, read_name month_names 0 (abbreviated month_names i ++ bs " " ++ rest) = Some (i, bs " " ++ rest))
  /\ (forall rest, read_white (bs " " ++ abbreviated month_names i ++ rest) = Some (tt, abbreviated month_names i ++ rest))
  /\ NUL ∉ abbreviated month_names i /\ length (abbreviated month_names i) = 3%nat.
Proof. intros H. enum i; (split; [|split]; [intros rest; vm_compute; reflexivity..|split; [bcompute|done]]). Qed.

Lemma dec_val_bound ds v :
  Forall (fun b => is_digit b = true) ds -> 0 <= v ->
  v * 10 ^ Z.of_nat (length ds) <= dec_val v ds < (v + 1) * 10 ^ Z.of_nat (length ds).
Proof.
  intros Hd. revert v. induction Hd as [|b ds Hb _ IH]; intros v Hv; [simpl; lia|].
  unfold is_digit in Hb. bprop. specialize (IH (v * 10 + digit_val b)). unfold digit_val in *. simpl length.
  rewrite Nat2Z.inj_succ, Z.pow_succ_r by lia. unfold dec_val in *. simpl. unfold digit_val in *. nia.
Qed.

Lemma more_digits_all ds hi v rest :
  Forall (fun b => is_digit b = true) ds -> 0 <= v -> dec_val v ds <= hi ->
  more_digits (length ds) hi v (ds ++ rest) = (dec_val v ds, rest).
Proof.
  intros Hd. revert v. induction Hd as [|b ds Hb Hds IH]; intros v Hv Hhi; [done|]. simpl.
  assert (Hb' := Hb). unfold is_digit in Hb'. bprop.
  pose proof (dec_val_bound ds (v * 10 + digit_val b) Hds) as Hbd. unfold digit_val in *.
  change (dec_val v (b :: ds)) with (dec_val (v * 10 + digit_val b) ds) in *. unfold digit_val in *.
  assert (0 < 10 ^ Z.of_nat (length ds)) by (apply Z.pow_pos_nonneg; lia).
  replace (v * 10 <=? hi) with true by (symmetry; apply Z.leb_le; nia). rewrite Hb. simpl. apply IH; lia.
Qed.

Lemma read_digits lo hi n ds rest :
  Forall (fun b => is_digit b = true) ds -> length ds = n -> (0 < n)%nat -> lo <= dec_val 0 ds <= hi ->
  read_number lo hi n (ds ++ rest) = Some (dec_val 0 ds, rest).
Proof.
  intros Hd <- Hn Hv. destruct Hd as [|b ds Hb Hds]; [simpl in Hn; lia|]. unfold read_number. simpl app.
  assert (Hb' := Hb). unfold is_digit in Hb'. bprop.
  assert (b =b SP = false) as Hsp by (apply beq_false; intros ->; by vm_compute in Hb).
  simpl span. rewrite Hsp. simpl. rewrite Hb, Nat.sub_0_r.
  change (dec_val 0 (b :: ds)) with (dec_val (digit_val b) ds) in *.
  rewrite more_digits_all; [|done|unfold digit_val; lia|lia].
  destruct (Z.ltb_spec (dec_val (digit_val b) ds) lo), (Z.ltb_spec hi (dec_val (digit_val b) ds)); (done || lia).
Qed.

Lemma two_digits_ok n : 0 <= n <= 99 -> Forall (fun b => is_digit b = true) (two_digits n) /\ dec_val 0 (two_digits n) = n.
Proof.
  intros H. assert (0 <= n / 10 <= 9 /\ 0 <= n mod 10 <= 9) as [? ?] by zdiv. split.
  - repeat constructor; by apply is_digit_digit_byte.
  - unfold dec_val, two_digits. simpl. rewrite !digit_val_digit_byte by done. zdiv.
Qed.

Lemma read_two lo hi n rest : lo <= n <= hi -> 0 <= n <= 99 -> read_number lo hi 2 (two_digits n ++ rest) = Some (n, rest).
Proof. intros H1 H2. destruct (two_digits_ok n H2) as [Hd Hv]. rewrite read_digits; rewrite ?Hv; auto. Qed.

Lemma year_digits y :
  1000 <= y <= 9999 ->
  Forall (fun b => is_digit b = true) (year_text y) /\ length (year_text y) = 4%nat /\ dec_val 0 (year_text y) = y.
Proof.
  intros H. unfold year_text. replace (y <? 0) with false by (symmetry; apply Z.ltb_ge; lia).
  assert (Hv := dec_val_print_dec y ltac:(lia)). assert (Hd := print_dec_digits y ltac:(lia)).
  assert (Hl := print_dec_length y 4 ltac:(lia) ltac:(lia)). split_and!; auto.
  destruct (dec_val_bound (print_dec y) 0 Hd) as [_ Hb]; [lia|]. rewrite Hv in Hb.
  destruct (decide (length (print_dec y) = 4%nat)) as [|Hne]; [done|].
  assert (10 ^ Z.of_nat (length (print_dec y)) <= 10 ^ 3) by (apply Z.pow_le_mono_r; lia). lia.
Qed.

Lemma read_year y rest : 1000 <= y <= 9999 -> read_number 0 9999 4 (year_text y ++ rest) = Some (y, rest).
Proof. intros H. destruct (year_digits y H) as (Hd & Hl & Hv). rewrite read_digits; rewrite ?Hv; auto; lia. Qed.

(** The fields of a printable time. *)
Record tm_ok (c : tm) : Prop := {
  ok_wday : 0 <= tm_wday c <= 6; ok_mday : 1 <= tm_mday c <= 31; ok_mon : 0 <= tm_mon c <= 11;
  ok_year : 1000 <= tm_year c + 1900 <= 9999; ok_hour : 0 <= tm_hour c <= 23;
  ok_min : 0 <= tm_min c <= 59; ok_sec : 0 <= tm_sec c <= 59;
}.

Lemma read_step {A B} (f : reader A) (g : A -> reader B) a p q : f p = Some (a, q) -> and_read f g p = g a q.
Proof. unfold and_read. by intros ->. Qed.

Lemma read_text_app t p : read_text t (t ++ p) = Some (tt, p).
Proof. unfold read_text. by rewrite take_app_length, drop_app_length, bytes_eqb_refl. Qed.

Lemma digit_not_white b : is_digit b = true -> white b = false.
Proof.
  unfold is_digit, white. intros H. bprop. apply orb_false_iff. split; [apply beq_false; intros ->; by vm_compute in H|].
  apply andb_false_iff. right. apply Z.leb_gt. lia.
Qed.

Lemma white_digits ds p :
  Forall (fun b => is_digit b = true) ds -> (0 < length ds)%nat -> read_white (bs " " ++ ds ++ p) = Some (tt, ds ++ p).
Proof.
  intros [|b s Hb Hs] Hl; [simpl in Hl; lia|]. unfold read_white. simpl. by rewrite (digit_not_white b Hb).
Qed.

Lemma white_two n p : 0 <= n <= 99 -> read_white (bs " " ++ two_digits n ++ p) = Some (tt, two_digits n ++ p).
Proof. intros H. apply white_digits; [by apply two_digits_ok|simpl; lia]. Qed.

Lemma white_year y p : 1000 <= y <= 9999 -> read_white (bs " " ++ year_text y ++ p) = Some (tt, year_text y ++ p).
Proof. intros H. destruct (year_digits y H) as (Hd & Hl & _). apply white_digits; [done|lia]. Qed.

Lemma date_read c rest : tm_ok c -> strptime_http (http_date c ++ rest) = Some (c, rest).
Proof.
  intros [Hw Hd Hm Hy Hh Hi Hs]. unfold strptime_http, http_date. rewrite <- !app_assoc.
  destruct (weekday_name _ Hw) as (Rw & _). destruct (month_name _ Hm) as (Rm & Rb & _).
  erewrite read_step by apply Rw. erewrite read_step by apply (read_text_app (bs ",")).
  erewrite read_step by (apply white_two; lia). erewrite read_step by (apply read_two; lia).
  erewrite read_step by apply Rb. erewrite read_step by apply Rm.
  erewrite read_step by (apply white_year; lia). erewrite read_step by (apply read_year; lia).
  erewrite read_step by (apply white_two; lia). erewrite read_step by (apply read_two; lia).
  erewrite read_step by apply (read_text_app (bs ":")). erewrite read_step by (apply read_two; lia).
  erewrite read_step by apply (read_text_app (bs ":")). erewrite read_step by (apply read_two; lia).
  erewrite read_step by done. erewrite read_step by apply (read_text_app (bs "GMT")).
  destruct c; simpl. by rewrite Z.add_simpl_r.
Qed.

Lemma digits_no_nul ds : Forall (fun b => is_digit b = true) ds -> NUL ∉ ds.
Proof. rewrite Forall_forall. intros H Hn. apply H in Hn. by vm_compute in Hn. Qed.

Lemma date_plain c : tm_ok c -> NUL ∉ http_date c /\ length (http_date c) = 29%nat.
Proof.
  intros [Hw Hd Hm Hy Hh Hi Hs]. destruct (weekday_name _ Hw) as (_ & Nw & Lw). destruct (month_name _ Hm) as (_ & _ & Nm & Lm).
  destruct (year_digits _ Hy) as (Dy & Ly & _).
  assert (N : forall n, 0 <= n <= 99 -> NUL ∉ two_digits n) by (intros; by apply digits_no_nul, two_digits_ok).
  split; [|unfold http_date; rewrite !length_app, Lw, Lm, Ly; done].
  unfold http_date. rewrite !not_elem_of_app. split_and!; first [exact Nw|exact Nm|apply N; lia|by apply digits_no_nul|bcompute].
Qed.

(** Dates from 1970 to 9999 print and read back as the same time, whatever follows. *)
Theorem http_date_reads_back t :
  0 <= t < 253402300800 ->
  exists c, gmtime_r t = Some c /\ strftime_http 64 c = Some (http_date c) /\ NUL ∉ http_date c
    /\ length (http_date c) = 29%nat /\ timegm c = t
    /\ forall rest, strptime_http (http_date c ++ rest) = Some (c, rest).
Proof.
  intros Ht. unfold gmtime_r. destruct (civil_of_days (t / 86400)) as [[y m] d] eqn:Ec.
  apply days_civil in Ec as (Ed & Hm & Hd & Hy). specialize (Hy ltac:(zdiv)).
  replace ((y - 1900 <? - 2 ^ 31) || (2 ^ 31 - 1 <? y - 1900)) with false
    by (symmetry; apply orb_false_iff; split; apply Z.ltb_ge; lia).
  eexists. split; [done|].
  match goal with |- context [http_date ?c] => assert (Hok : tm_ok c) by (split; simpl; zdiv) end.
  destruct (date_plain _ Hok) as [Hn Hl]. unfold strftime_http. rewrite Hl. split_and!; try done.
  - unfold timegm. simpl. rewrite Z.sub_add, Ed. zdiv.
  - intros rest. by apply date_read.
Qed.
