(* ===== verification/Static.v ===== *)
(** * Static files

    static/ioh_static.c and static/ioh_spa.c: MIME types, entity tags, the path check,
    byte ranges, the serving of a file with its conditional and range requests, and the
    fallback of a single-page application.  The file system is a parameter: what
    [realpath], [stat] and reading an opened file give for a path. *)
From S2P Require Import Prelude CString PathNorm Request Response Dates.
Local Open Scope nat_scope.

(** ** The file system *)

Record file_stat := mk_stat {
  st_dir : bool;            (* S_ISDIR *)
  st_reg : bool;            (* S_ISREG *)
  st_size : Z;              (* 0 <= st_size < 2^63 *)
  st_mtime : Z;             (* a 64-bit time_t *)
}.

Record file_system := mk_fs {
  realpath : bytes -> option bytes;       (* the canonical path of an existing object *)
  stat : bytes -> option file_stat;
  fopen : bytes -> option bytes;          (* the bytes read from the opened file *)
  seekable : bytes -> bool;               (* whether [fseek] succeeds on it *)
}.

Definition PATH_MAX : nat := Z.to_nat 4096.

(** ** MIME types *)

Definition mime_table : list (bytes * bytes) :=
  [(bs ".html", bs "text/html"); (bs ".htm", bs "text/html");
   (bs ".css", bs "text/css"); (bs ".js", bs "text/javascript");
   (bs ".json", bs "application/json"); (bs ".xml", bs "application/xml");
   (bs ".png", bs "image/png"); (bs ".jpg", bs "image/jpeg");
   (bs ".jpeg", bs "image/jpeg"); (bs ".gif", bs "image/gif");
   (bs ".svg", bs "image/svg+xml"); (bs ".ico", bs "image/x-icon");
   (bs ".webp", bs "image/webp"); (bs ".avif", bs "image/avif");
   (bs ".woff", bs "font/woff"); (bs ".woff2", bs "font/woff2");
   (bs ".ttf", bs "font/ttf"); (bs ".otf", bs "font/otf");
   (bs ".pdf", bs "application/pdf"); (bs ".zip", bs "application/zip");
   (bs ".gz", bs "application/gzip"); (bs ".br", bs "application/x-brotli");
   (bs ".wasm", bs "application/wasm"); (bs ".txt", bs "text/plain");
   (bs ".csv", bs "text/csv"); (bs ".mp4", bs "video/mp4");
   (bs ".webm", bs "video/webm"); (bs ".mp3", bs "audio/mpeg");
   (bs ".ogg", bs "audio/ogg"); (bs ".map", bs "application/json")].

Definition OCTET_STREAM : bytes := bs "application/octet-stream".

(** The position of the last dot among the first [i] bytes, not looking past a slash. *)
Fixpoint last_dot (path : bytes) (i : nat) : option nat :=
  match i with
  | O => None
  | S i => if char_at path i =b "."%byte then Some i
           else if char_at path i =b SLASH then None else last_dot path i
  end.

Fixpoint mime_lookup (table : list (bytes * bytes)) (dot : bytes) (ext_len : nat) : bytes :=
  match table with
  | [] => OCTET_STREAM
  | (ext, mime) :: table =>
      if (ext_len =? length ext) && strncasecmp_eq dot ext ext_len then mime else mime_lookup table dot ext_len
  end.

Definition ioh_mime_type (path : option bytes) (len : nat) : bytes :=
  match path with
  | None => OCTET_STREAM
  | Some path =>
      if len =? 0 then OCTET_STREAM else
      match last_dot path len with
      | None => OCTET_STREAM
      | Some d => mime_lookup mime_table (drop d path) (len - d)
      end
  end.

(** ** Entity tags *)

Definition hex_digit (d : Z) : byte := if (d <? 10)%Z then digit_byte d else default NUL (Byte.of_N (Z.to_N (87 + d))).

Fixpoint print_hex_aux (fuel : nat) (n : Z) : bytes :=
  match fuel with
  | O => []
  | S fuel => if (n <? 16)%Z then [hex_digit n] else print_hex_aux fuel (n / 16)%Z ++ [hex_digit (n mod 16)%Z]
  end.

(** ["%lx"] on an [unsigned long]. *)
Definition print_hex (n : Z) : bytes := print_hex_aux 16 n.

Definition etag_text (mtime size : Z) : bytes :=
  DQUOTE :: print_hex mtime ++ "-"%byte :: print_hex size ++ [DQUOTE].

Definition ioh_etag_generate (mtime size : Z) (buf_size : nat) : res bytes :=
  if buf_size <? 32 then Err ENOSPC else
  if buf_size <=? length (etag_text mtime size) then Err ENOSPC else Ok (etag_text mtime size).

(** ** The path check *)

Definition dot_at (path : bytes) (i : nat) : bool := char_at path i =b "."%byte.
Definition slash_at (path : bytes) (i : nat) : bool := char_at path i =b SLASH.

(** The [i]-th turn of the search for a [..] component, [n] turns before the end. *)
Fixpoint dotdot_loop (n : nat) (path : bytes) (len i : nat) : bool :=
  match n with
  | O => false
  | S n =>
      if dot_at path i && dot_at path (i + 1)
         && ((i =? 0) || slash_at path (i - 1)) && ((len <=? i + 2) || slash_at path (i + 2))
      then true else dotdot_loop n path len (i + 1)
  end.

Definition path_is_safe (path : bytes) (len : nat) : bool :=
  if bool_decide (memchr path NUL len ≠ None) && (strnlen path len <? len) then false
  else negb (dotdot_loop (len - 1) path len 0).

(** ** Ranges *)

(** [strtoul] in base 10: saturated on overflow, negated modulo 2^64 after a minus. *)
Definition strtoul_val (r : strto_result) : Z :=
  if (UINT64_MAX <? st_magnitude r)%Z then UINT64_MAX
  else if st_negative r then u64 (- st_magnitude r) else st_magnitude r.

Definition BYTES_UNIT : bytes := bs "bytes=".

Definition check_range (start end_ size : Z) : res (Z * Z) :=
  if (end_ <? start)%Z || (size <=? end_)%Z then Err EINVAL else Ok (start, end_).

Definition parse_range (range_hdr : option bytes) (file_size : Z) : res (Z * Z) :=
  match range_hdr with
  | None => Err EINVAL
  | Some hdr =>
      if negb (strncmp_eq hdr BYTES_UNIT 6) then Err EINVAL else
      let p := drop 6 hdr in
      if char_at p 0 =b "-"%byte then
        let r := strto (c_str (drop 1 p)) in
        if (st_consumed r =? 0) || (strtoul_val r =? 0)%Z || (file_size <? strtoul_val r)%Z then Err EINVAL
        else Ok (file_size - strtoul_val r, file_size - 1)%Z
      else
        let r := strto (c_str p) in
        if (st_consumed r =? 0) || negb (char_at p (st_consumed r) =b "-"%byte) then Err EINVAL else
        let q := drop (st_consumed r + 1) p in
        let b := char_at q 0 in
        if (b =b NUL) || (b =b ","%byte) || (b =b SP) then check_range (strtoul_val r) (u64 (file_size - 1)) file_size
        else
          let e := strto (c_str q) in
          if st_consumed e =? 0 then Err EINVAL else check_range (strtoul_val r) (strtoul_val e) file_size
  end.

(** ** Serving *)

Record ioh_static_config_t := mk_static {
  root_dir : option bytes;
  directory_listing : bool;
  etag : bool;
  max_age_default : Z;
}.

Definition ioh_static_config_init : ioh_static_config_t := mk_static None false true 3600.

(** [snprintf] into a buffer of the given size. *)
Definition cut (size : nat) (text : bytes) : bytes := take (size - 1) text.

(** The calls whose result is ignored, one after the other. *)
Definition reply : Type := ioh_response_t -> heap -> option (ioh_response_t * heap).

Definition try_header (name value : bytes) : reply := fun r h =>
  match ioh_response_set_header h r (Some name) (Some value) with
  | Some (_, r, h) => Some (r, h)
  | None => None
  end.

Definition try_body (data : bytes) (len : Z) : reply := fun r h =>
  match ioh_response_set_body h r (Some data) len with
  | Some (_, r, h) => Some (r, h)
  | None => None
  end.

Definition no_call : reply := fun r h => Some (r, h).

Definition then_call (f g : reply) : reply := fun r h =>
  match f r h with Some (r, h) => g r h | None => None end.

Notation "f ;> g" := (then_call f g) (at level 60, right associativity) : iohttp_scope.

Definition done_with (f : reply) (h : heap) (r : ioh_response_t) : step :=
  match f r h with Some (r, h) => Some (Ok (), r, h) | None => None end.

Definition content_range_text (s e size : Z) : bytes :=
  bs "bytes " ++ print_dec s ++ bs "-" ++ print_dec e ++ bs "/" ++ print_dec size.

(** The headers of an answer that carries [data]. *)
Definition file_headers (cfg : ioh_static_config_t) (tag : option bytes) (st : file_stat) (mime : bytes)
    (range : option (Z * Z)) (data : bytes) : reply :=
  match range with
  | Some (s, e) => try_header (bs "Content-Range") (cut 128 (content_range_text s e (st_size st)))
  | None => no_call
  end
  ;> try_header (bs "Content-Type") mime
  ;> try_header (bs "Content-Length") (cut 32 (print_dec (Z.of_nat (length data))))
  ;> try_header (bs "Accept-Ranges") (bs "bytes")
  ;> match tag with Some t => try_header (bs "ETag") t | None => no_call end
  ;> match gmtime_r (st_mtime st) with
     | Some c => match strftime_http 64 c with
                 | Some text => try_header (bs "Last-Modified") text
                 | None => no_call
                 end
     | None => no_call
     end
  ;> try_header (bs "Cache-Control") (cut 64 (bs "public, max-age=" ++ print_dec (max_age_default cfg))).

Definition not_modified (tag : option bytes) (h : heap) (r : ioh_response_t) : step :=
  done_with (match tag with Some t => try_header (bs "ETag") t | None => no_call end) h (with_status r 304).

(** [If-None-Match] is the tag itself. *)
Definition none_match (req : ioh_request_t) (tag : bytes) : bool :=
  match ioh_request_header req (bs "If-None-Match") with
  | Some inm => (strnlen inm IOH_MAX_HEADER_SIZE =? length tag) && memcmp_eq inm tag (length tag)
  | None => false
  end.

Definition not_since (req : ioh_request_t) (mtime : Z) : bool :=
  match ioh_request_header req (bs "If-Modified-Since") with
  | Some ims =>
      match strptime_http (c_str ims) with
      | Some (c, _) => ((0 <=? timegm c) && (mtime <=? timegm c))%Z
      | None => false
      end
  | None => false
  end.

(** Where reading starts and how much is read. *)
Definition range_bounds (range : option (Z * Z)) (size : Z) : Z * Z :=
  match range with Some (s, e) => (s, e - s + 1)%Z | None => (0, size)%Z end.

(** The bytes read: from the start of the range, or of the file. *)
Definition send_file (fs : file_system) (cfg : ioh_static_config_t) (req : ioh_request_t) (resolved : bytes)
    (st : file_stat) (tag : option bytes) (h : heap) (r : ioh_response_t) : step :=
  let size := st_size st in
  let range_hdr := ioh_request_header req (bs "Range") in
  let range := if bool_decide (range_hdr ≠ None) && (0 <? size)%Z
               then match parse_range range_hdr size with Ok p => Some p | Err _ => None end
               else None in
  match fopen fs resolved with
  | None => Some (Err ENOENT, r, h)
  | Some content =>
      let '(start, read_len) := range_bounds range size in
      if bool_decide (range ≠ None) && negb (seekable fs resolved) then Some (Err EIO, r, h) else
      let '(ok, h) := xalloc h in
      if negb ok then Some (Err ENOMEM, r, h) else
      let data := take (Z.to_nat read_len) (drop (Z.to_nat start) content) in
      if negb (Z.of_nat (length data) =? read_len)%Z then Some (Err EIO, r, h) else
      done_with (file_headers cfg tag st (ioh_mime_type (path req) (path_len req)) range data
                 ;> try_body data (Z.of_nat (length data))) h
        (with_status r (match range with Some _ => 206 | None => 200 end))
  end.

(** A path under the root: equal to it or going on with a slash. *)
Definition under_root (resolved resolved_root : bytes) : bool :=
  let root_len := strnlen resolved_root PATH_MAX in
  strncmp_eq resolved resolved_root root_len
  && ((char_at resolved root_len =b SLASH) || (char_at resolved root_len =b NUL)).

(** The file's path after the checks, and what [stat] says of it. *)
Definition locate (fs : file_system) (root path : bytes) (path_len : nat) : res (bytes * file_stat) :=
  if negb (path_is_safe path path_len) then Err EACCES else
  let full_path := c_str root ++ strndup path path_len in
  if PATH_MAX <=? length full_path then Err ENAMETOOLONG else
  match realpath fs full_path with
  | None => Err ENOENT
  | Some resolved =>
      match realpath fs (c_str root) with
      | None => Err ENOENT
      | Some resolved_root =>
          if negb (under_root resolved resolved_root) then Err EACCES else
          match stat fs resolved with
          | None => Err ENOENT
          | Some st => if st_dir st then Err ENOENT else Ok (resolved, st)
          end
      end
  end.

Definition ioh_static_serve (fs : file_system) (cfg : ioh_static_config_t) (req : ioh_request_t)
    (h : heap) (r : ioh_response_t) : step :=
  match root_dir cfg, path req with
  | Some root, Some p =>
      if path_len req =? 0 then Some (Err EINVAL, r, h) else
      match locate fs root p (path_len req) with
      | Err e => Some (Err e, r, h)
      | Ok (resolved, st) =>
          let mtime := u64 (st_mtime st) in
          let tag := if etag cfg
                     then match ioh_etag_generate mtime (st_size st) 64 with Ok t => Some t | Err _ => None end
                     else None in
          if match tag with Some t => none_match req t | None => false end then not_modified tag h r else
          if not_since req mtime then not_modified tag h r else
          send_file fs cfg req resolved st tag h r
      end
  | _, _ => Some (Err EINVAL, r, h)
  end.

(** ** Single-page applications *)

Record ioh_spa_config_t := mk_spa {
  spa_root_dir : option bytes;
  index_file : option bytes;
  api_prefixes : list bytes;        (* the first [api_prefix_count] entries *)
  spa_max_age_default : Z;
  max_age_immutable : Z;
}.

Definition ioh_spa_config_init : ioh_spa_config_t := mk_spa None (Some (bs "index.html")) [] 3600 31536000.

Definition is_hex (c : byte) : bool :=
  let v := b2z c in
  ((48 <=? v) && (v <=? 57) || (97 <=? v) && (v <=? 102) || (65 <=? v) && (v <=? 70))%Z.

Fixpoint api_loop (prefixes : list bytes) (path : bytes) (path_len : nat) : bool :=
  match prefixes with
  | [] => false
  | prefix :: prefixes =>
      let prefix_len := strnlen prefix IOH_MAX_URI_SIZE in
      if (prefix_len <=? path_len) && strncmp_eq path prefix prefix_len then true
      else api_loop prefixes path path_len
  end.

Definition is_api_path (cfg : ioh_spa_config_t) (path : bytes) (path_len : nat) : bool :=
  api_loop (api_prefixes cfg) path path_len.

(** One past the last occurrence of a byte among the first [i]; 0 if there is none. *)
Fixpoint after_last (c : byte) (path : bytes) (i : nat) : nat :=
  match i with
  | O => 0
  | S i => if char_at path i =b c then S i else after_last c path i
  end.

(** The file name: what follows the last slash. *)
Definition filename (path : bytes) (path_len : nat) : bytes :=
  let k := after_last SLASH path path_len in take (path_len - k) (drop k path).

Definition has_extension (path : bytes) (path_len : nat) : bool :=
  existsb (fun b => b =b "."%byte) (filename path path_len).

(** [name.HASH.ext]: the two last dots, with at least six hexadecimal digits between. *)
Definition hashed_file (f : bytes) : bool :=
  match after_last "."%byte f (length f) with
  | O | S O => false                              (* no dot, or only a leading one *)
  | S last =>
      match after_last "."%byte f last with
      | O => false
      | S prev =>
          let hash := take (last - prev - 1) (drop (prev + 1) f) in
          (6 <=? length hash) && forallb is_hex hash
      end
  end.

Definition ioh_spa_is_hashed_asset (path : option bytes) (path_len : nat) : bool :=
  match path with
  | None => false
  | Some path => if path_len =? 0 then false else hashed_file (filename path path_len)
  end.

Definition static_config (root : option bytes) (age : Z) : ioh_static_config_t :=
  mk_static root (directory_listing ioh_static_config_init) (etag ioh_static_config_init) age.

(** Serve, then replace [Cache-Control]. *)
Definition serve_cached (fs : file_system) (scfg : ioh_static_config_t) (req : ioh_request_t) (cc : option bytes)
    (h : heap) (r : ioh_response_t) : step :=
  match ioh_static_serve fs scfg req h r with
  | Some (Ok _, r, h) =>
      done_with (match cc with Some v => try_header (bs "Cache-Control") v | None => no_call end) h r
  | other => other
  end.

Definition index_request (req : ioh_request_t) (index_path : bytes) : ioh_request_t :=
  mk_request (method req) (Some index_path) (length index_path) None 0 [] None 0 [] 0 0 false 0 None None.

Definition ioh_spa_serve (fs : file_system) (cfg : ioh_spa_config_t) (req : ioh_request_t)
    (h : heap) (r : ioh_response_t) : step :=
  match spa_root_dir cfg, path req with
  | Some root, Some p =>
      if path_len req =? 0 then Some (Err EINVAL, r, h) else
      if is_api_path cfg p (path_len req) then Some (Err ENOENT, r, h) else
      let full_path := c_str root ++ strndup p (path_len req) in
      if PATH_MAX <=? length full_path then Some (Err ENAMETOOLONG, r, h) else
      if match stat fs full_path with Some st => st_reg st | None => false end then
        serve_cached fs (static_config (Some root) (spa_max_age_default cfg)) req
          (if ioh_spa_is_hashed_asset (path req) (path_len req)
           then Some (cut 80 (bs "public, max-age=" ++ print_dec (max_age_immutable cfg) ++ bs ", immutable"))
           else None) h r
      else if has_extension p (path_len req) then Some (Err ENOENT, r, h)
      else
        let index_path := SLASH :: c_str (default (bs "index.html") (index_file cfg)) in
        if PATH_MAX <=? length index_path then Some (Err ENAMETOOLONG, r, h) else
        serve_cached fs (static_config (Some root) (max_age_default ioh_static_config_init))
          (index_request req index_path) (Some (bs "no-cache")) h r
  | _, _ => Some (Err EINVAL, r, h)
  end.
