(* ===== verification/StaticThms.v ===== *)
(** * Theorems on static files

    The path check is exactly the absence of NUL bytes and dot-dot segments; whatever is
    served lies under the root; ranges give the bytes they name; validators of an answer
    recognise the unchanged file; hashed assets and the fallback page. *)
From S2P Require Import Prelude CString PathNorm Request RequestThms Response ResponseThms Ctx Middleware Policy Dates Static.
Local Open Scope nat_scope.

(** ** Headers of an answer *)

Lemma set_body_mem r src len rc r' h' :
  ioh_response_set_body [] r (Some src) len = Some (rc, r', h') -> rc = Ok () /\ h' = [].
Proof.
  unfold ioh_response_set_body, grow_body. destruct (len =? 0)%Z; simpl; [by intros [= <- _ <-]|].
  intros H. repeat case_match; simplify_eq/=; done.
Qed.

(** A reply that only sets headers: it stores nothing out of bounds, keeps everything
    else and, while memory lasts, sets exactly the headers of the policy. *)
Definition replies (f : reply) (p : policy) : Prop :=
  forall r h, response_ok r -> (Z.of_nat (length (r_headers r) + length p) < 2 ^ 31)%Z ->
  exists r' h', f r h = Some (r', h') /\ response_ok r' /\ same_rest r r'
    /\ length (r_headers r') ≤ length (r_headers r) + length p
    /\ (h = [] -> h' = [] /\ r_headers r' = set_all p (r_headers r)).

Lemma replies_none : replies no_call [].
Proof. intros r h Hr _. exists r, h. split_and!; auto with iohttp. simpl. lia. Qed.

Lemma replies_put n v : replies (try_header n v) [(n, c_str v)].
Proof.
  intros r h Hr Hl. simpl in Hl. destruct (set_header_step h r n v) as (rc & r' & h' & E & Hr' & Hs & Hrc); [done|lia|].
  exists r', h'. unfold try_header. rewrite E. split_and!; auto.
  - pose proof (set_spec_length n v (r_headers r)). simpl. destruct rc; [rewrite Hrc; lia|destruct Hrc as [_ ->]; lia].
  - intros ->. apply set_header_mem in E as [-> ->]. split; [done|]. unfold set_all, set_one. simpl. by rewrite <- set_spec_c_str.
Qed.

Lemma replies_then f g p q : replies f p -> replies g q -> replies (f ;> g) (p ++ q).
Proof.
  intros Hf Hg r h Hr Hl. rewrite length_app in Hl.
  destruct (Hf r h Hr) as (r1 & h1 & E1 & Hr1 & Hs1 & Hl1 & Hm1); [lia|].
  destruct (Hg r1 h1 Hr1) as (r2 & h2 & E2 & Hr2 & Hs2 & Hl2 & Hm2); [lia|].
  exists r2, h2. unfold then_call. rewrite E1, length_app. split_and!; try done; [by eapply same_rest_trans|lia|].
  intros Hh. destruct (Hm1 Hh) as [Hh1 Hp]. destruct (Hm2 Hh1) as [? Hq]. split; [done|].
  rewrite Hq, Hp. unfold set_all. by rewrite foldl_app.
Qed.

Lemma replies_opt n v : replies (match v with Some v => try_header n v | None => no_call end) (opt_policy n v).
Proof. destruct v; [apply replies_put|apply replies_none]. Qed.

#[export] Hint Resolve replies_none replies_put replies_then replies_opt : iohttp.

(** ** The path check *)

Lemma strlen_le p i : p !! i = Some NUL -> strlen p ≤ i.
Proof.
  unfold strlen, c_str. revert i. induction p as [|b p IH]; intros i Hi; [done|]. simpl. unfold not_nul at 1.
  destruct (b =b NUL) eqn:E; simpl; [lia|]. destruct i as [|i]; [injection Hi as ->; by rewrite beq_refl in E|].
  apply IH in Hi. destruct (span not_nul p); simpl in *. lia.
Qed.

Lemma nul_test path len :
  bool_decide (memchr path NUL len ≠ None) && (strnlen path len <? len) = true <-> NUL ∈ take len path.
Proof.
  destruct (memchr path NUL len) as [i|] eqn:E.
  - apply memchr_Some in E as (Hi & Hl & _). pose proof (strlen_le _ _ Hl). unfold strnlen.
    rewrite bool_decide_true, andb_true_l, Nat.ltb_lt by done. split; [intros _|lia].
    apply list_elem_of_lookup. exists i. by rewrite lookup_take_lt.
  - apply memchr_None in E. rewrite bool_decide_false by auto. done.
Qed.

Lemma split_slash_app a l : split_slash (a ++ SLASH :: l) = split_slash a ++ split_slash l.
Proof.
  induction a as [|b a IH]; [apply split_slash_slash|]. simpl app. cbn [split_slash]. rewrite IH.
  pose proof (split_slash_ne a). destruct (split_slash a) as [|s ss]; [done|]. by destruct (is_slash b).
Qed.

(** The segments of a path are its maximal stretches without a slash. *)
Lemma split_slash_elem s l :
  s ∈ split_slash l <->
  exists a b, l = a ++ s ++ b /\ Forall (fun c => not_slash c = true) s
    /\ (a = [] \/ last a = Some SLASH) /\ (b = [] \/ head b = Some SLASH).
Proof.
  split.
  - remember (length l) as n eqn:Hn. revert l Hn. induction (lt_wf n) as [n _ IH]. intros l ->.
    pose proof (span_eq not_slash l) as E. pose proof (span_fst not_slash l) as Hf. pose proof (span_snd not_slash l) as Hs.
    destruct (span not_slash l) as [u v]; simpl in *. destruct v as [|c v].
    + rewrite app_nil_r in E. subst u. rewrite split_slash_plain by done. intros ->%list_elem_of_singleton.
      exists [], []. rewrite app_nil_r. auto.
    + specialize (Hs c v eq_refl). apply not_slash_false in Hs as ->. subst l. rewrite split_slash_cut by done.
      intros [->|Hin]%elem_of_cons; [exists [], (SLASH :: v); auto|].
      destruct (IH (length v)) with v as (a & b & -> & H1 & H2 & H3); [rewrite length_app; simpl; lia|done|done|].
      exists (u ++ SLASH :: a), b. rewrite <- app_assoc. split_and!; auto. right.
      rewrite last_app_cons. destruct H2 as [->|H2]; [done|]. rewrite last_cons. by rewrite H2.
  - intros (a & b & -> & Hs & Ha & Hb).
    assert (Hsb : s ∈ split_slash (s ++ b)).
    { destruct b as [|c b]; [rewrite app_nil_r, split_slash_plain by done; by apply list_elem_of_singleton|].
      destruct Hb as [Hb|[= ->]]; [done|]. rewrite split_slash_cut by done. apply elem_of_cons. by left. }
    destruct Ha as [->|[a' ->]%last_Some]; [done|]. rewrite <- app_assoc. simpl. rewrite split_slash_app.
    apply elem_of_app. by right.
Qed.

(** What the loop looks for at a position. *)
Definition dotdot_pos (path : bytes) (len k : nat) : Prop :=
  dot_at path k = true /\ dot_at path (k + 1) = true /\ (k = 0 \/ slash_at path (k - 1) = true)
  /\ (len ≤ k + 2 \/ slash_at path (k + 2) = true).

Lemma dotdot_loop_iff n path len i :
  dotdot_loop n path len i = true <-> exists k, i ≤ k < i + n /\ dotdot_pos path len k.
Proof.
  revert i. induction n as [|n IH]; intros i; simpl; [split; [done|intros (k & ? & _); lia]|].
  match goal with |- context [if ?b then _ else _] => assert (Hb : b = true <-> dotdot_pos path len i) end.
  { unfold dotdot_pos. rewrite !andb_true_iff, !orb_true_iff, Nat.eqb_eq, Nat.leb_le. tauto. }
  destruct (_ && _).
  - split; [intros _|done]. exists i. split; [lia|by apply Hb].
  - rewrite IH. split; intros (k & Hk & Hp); (exists k; split; [|done]); [lia|].
    destruct (decide (k = i)) as [->|]; [|lia]. by apply Hb in Hp.
Qed.

Lemma char_at_take p i n c : i < n -> c ≠ NUL -> char_at p i = c <-> take n p !! i = Some c.
Proof.
  intros Hi Hc. rewrite lookup_take_lt by done. unfold char_at. destruct (p !! i); simpl; [|done]. split; congruence.
Qed.

Lemma dotdot_loop_split path len :
  len ≤ length path -> dotdot_loop (len - 1) path len 0 = true <-> dotdot ∈ split_slash (take len path).
Proof.
  intros Hlen. rewrite dotdot_loop_iff, split_slash_elem. unfold dotdot_pos, dot_at, slash_at. setoid_rewrite beq_true. split.
  - intros (k & Hk & H1 & H2 & H3 & H4). exists (take k (take len path)), (drop (k + 2) (take len path)).
    rewrite (char_at_take _ _ len) in H1 by (done || lia). rewrite (char_at_take _ _ len) in H2 by (done || lia).
    split_and!.
    + rewrite <- (take_drop k (take len path)) at 1. f_equal. rewrite (drop_S _ _ _ H1).
      replace (S k) with (k + 1) by lia. rewrite (drop_S _ _ _ H2). by replace (S (k + 1)) with (k + 2) by lia.
    + by repeat constructor.
    + destruct H3 as [->|H3]; [by left|]. destruct k as [|k]; [by left|]. right. rewrite Nat.sub_1_r in H3. simpl in H3.
      rewrite (char_at_take _ _ len) in H3 by (done || lia). rewrite (take_S_r _ _ _ H3), last_snoc. done.
    + destruct H4 as [H4|H4]; [left; apply drop_ge; rewrite length_take; lia|].
      destruct (decide (len ≤ k + 2)); [left; apply drop_ge; rewrite length_take; lia|].
      right. rewrite (char_at_take _ _ len) in H4 by (done || lia). by rewrite (drop_S _ _ _ H4).
  - intros (a & b & E & _ & Ha & Hb). assert (Hl := f_equal length E). rewrite length_take, !length_app in Hl.
    simpl in Hl. exists (length a). split; [lia|].
    assert (Hx : forall j c, (dotdot ++ b) !! j = Some c -> take len path !! (length a + j) = Some c).
    { intros. rewrite E, lookup_app_r by lia. by rewrite Nat.add_comm, Nat.add_sub. }
    split_and!.
    + apply (char_at_take _ _ len); [lia|done|]. rewrite <- (Nat.add_0_r (length a)). by apply Hx.
    + apply (char_at_take _ _ len); [lia|done|]. by apply Hx.
    + destruct Ha as [->|[a' ->]%last_Some]; [by left|]. right. rewrite length_app in *. simpl in *.
      apply (char_at_take _ _ len); [lia|done|]. rewrite E, <- app_assoc, lookup_app_r by lia.
      by replace (length a' + 1 - 1 - length a') with 0 by lia.
    + destruct b as [|c b]; [left; simpl in Hl; lia|]. right. destruct Hb as [Hb|[= ->]]; [done|].
      apply (char_at_take _ _ len); [simpl in Hl; lia|done|]. by apply Hx.
Qed.

Lemma path_is_safe_iff path len :
  len ≤ length path ->
  path_is_safe path len = true <-> NUL ∉ take len path /\ dotdot ∉ split_slash (take len path).
Proof.
  intros Hl. unfold path_is_safe. pose proof (nul_test path len) as Hn. pose proof (dotdot_loop_split path len Hl) as Hd.
  destruct (_ && _); [split; [done|intros [H _]; by destruct H; apply Hn]|].
  destruct (dotdot_loop _ _ _ _); simpl; split; try done; intros H.
  - by destruct H as [_ []]; apply Hd.
  - split; [intros H'%Hn|intros H'%Hd]; done.
Qed.

(** ** Finding the file *)

(** What the C library promises: canonical paths are strings that fit their buffer,
    sizes are not negative. *)
Record fs_ok (fs : file_system) : Prop := {
  fs_paths : forall p q, realpath fs p = Some q -> NUL ∉ q /\ length q < PATH_MAX;
  fs_sizes : forall p st, stat fs p = Some st -> (0 <= st_size st < 2 ^ 63)%Z;
}.

(** The root itself or something below it. *)
Definition within (file root : bytes) : Prop := file = root \/ exists q, file = root ++ SLASH :: q.

Lemma under_root_within file root :
  NUL ∉ file -> NUL ∉ root -> length root < PATH_MAX -> under_root file root = true -> within file root.
Proof.
  intros Hf Hr Hl. unfold under_root, strncmp_eq. rewrite strnlen_id, !strndup_plain by (done || lia).
  rewrite andb_true_iff, orb_true_iff, !beq_true, bytes_eqb_true, firstn_all. intros [E Hc].
  rewrite <- (take_drop (length root) file), E. unfold within. unfold char_at in Hc.
  destruct (file !! length root) as [c|] eqn:Ec; simpl in Hc.
  - rewrite (drop_S _ _ _ Ec). destruct Hc as [->| ->]; [right; by eexists|]. destruct Hf. by eapply list_elem_of_lookup_2.
  - left. apply lookup_ge_None in Ec. rewrite drop_ge by done. apply app_nil_r.
Qed.

(** The request was found to be [st] at the path [file]. *)
Record located (fs : file_system) (root p : bytes) (n : nat) (file : bytes) (st : file_stat) : Prop := {
  loc_nul : NUL ∉ take n p;
  loc_dots : dotdot ∉ split_slash (take n p);
  loc_root : exists top, realpath fs (c_str root) = Some top /\ within file top;
  loc_stat : stat fs file = Some st;
  loc_file : st_dir st = false;
}.

Lemma locate_sound fs root p n file st :
  fs_ok fs -> n ≤ length p -> locate fs root p n = Ok (file, st) -> located fs root p n file st.
Proof.
  intros Hfs Hn. unfold locate. destruct (path_is_safe p n) eqn:Es; simpl; [|done].
  apply path_is_safe_iff in Es as [? ?]; [|done]. case_match; [done|].
  destruct (realpath fs (c_str root ++ _)) as [f|] eqn:Ef; [|done].
  destruct (realpath fs (c_str root)) as [top|] eqn:Et; [|done].
  destruct (under_root f top) eqn:Eu; simpl; [|done]. destruct (stat fs f) as [st'|] eqn:Est; [|done].
  destruct (st_dir st') eqn:Ed; intros [= <- <-].
  destruct (fs_paths _ Hfs _ _ Ef). destruct (fs_paths _ Hfs _ _ Et).
  split; auto. exists top. split; [done|]. by apply under_root_within.
Qed.

(** ** Ranges *)

Lemma dec_val_nonneg ds v : Forall (fun b => is_digit b = true) ds -> (0 <= v)%Z -> (0 <= dec_val v ds)%Z.
Proof.
  intros Hd Hv. destruct (dec_val_bound ds v Hd Hv) as [H _].
  assert (0 < 10 ^ Z.of_nat (length ds))%Z by (apply Z.pow_pos_nonneg; lia). nia.
Qed.

Lemma strto_nonneg p : (0 <= st_magnitude (strto p))%Z.
Proof.
  unfold strto. destruct (span is_space p) as [ws q].
  assert (H : forall q', (0 <= dec_val 0 (fst (span is_digit q')))%Z)
    by (intros; apply dec_val_nonneg; [apply span_fst|lia]).
  destruct (match q with [] => _ | _ => _ end) as [[neg sg] q']. specialize (H q').
  destruct (span is_digit q') as [ds ?]. destruct (length ds =? 0); [done|]. done.
Qed.

Lemma strtoul_range p : (0 <= strtoul_val (strto p) < 2 ^ 64)%Z.
Proof.
  unfold strtoul_val. pose proof (strto_nonneg p) as H. unfold UINT64_MAX.
  destruct (Z.ltb_spec (2 ^ 64 - 1) (st_magnitude (strto p))); [lia|].
  destruct (st_negative _); [apply u64_range|lia].
Qed.

Lemma check_range_sound s e size a b :
  (0 <= s)%Z -> check_range s e size = Ok (a, b) -> (0 <= a <= b)%Z /\ (b < size)%Z.
Proof. unfold check_range. destruct (_ || _) eqn:E; [done|]. bprop. intros Hs [= <- <-]. lia. Qed.

Lemma parse_range_sound hdr size s e :
  (0 <= size)%Z -> parse_range hdr size = Ok (s, e) -> (0 <= s <= e)%Z /\ (e < size)%Z.
Proof.
  intros Hsize. unfold parse_range. destruct hdr as [hdr|]; [|done]. destruct (negb _); [done|].
  destruct (char_at _ 0 =b _).
  - destruct (_ || _) eqn:E; [done|]. pose proof (strtoul_range (c_str (drop 1 (drop 6 hdr)))).
    bprop. intros [= <- <-]. lia.
  - destruct (_ || _); [done|]. destruct (_ || _); [|destruct (_ =? 0); [done|]];
      apply check_range_sound; apply strtoul_range.
Qed.

(** ** Answers *)

Definition date_of (mtime : Z) : option bytes := gmtime_r mtime ≫= strftime_http 64.

(** The headers of an answer with a body. *)
Definition file_policy (cfg : ioh_static_config_t) (tag : option bytes) (st : file_stat) (mime : bytes)
    (range : option (Z * Z)) (data : bytes) : policy :=
  opt_policy (bs "Content-Range") ((fun p => cut 128 (content_range_text (fst p) (snd p) (st_size st))) <$> range)
  ++ [(bs "Content-Type", c_str mime)]
  ++ [(bs "Content-Length", c_str (cut 32 (print_dec (Z.of_nat (length data)))))]
  ++ [(bs "Accept-Ranges", c_str (bs "bytes"))]
  ++ opt_policy (bs "ETag") tag
  ++ opt_policy (bs "Last-Modified") (date_of (st_mtime st))
  ++ [(bs "Cache-Control", c_str (cut 64 (bs "public, max-age=" ++ print_dec (max_age_default cfg))))].

Lemma file_headers_replies cfg tag st mime range data :
  replies (file_headers cfg tag st mime range data) (file_policy cfg tag st mime range data).
Proof.
  unfold file_headers, file_policy. apply replies_then.
  { destruct range as [[s e]|]; simpl; auto with iohttp. }
  do 4 (apply replies_then; [auto with iohttp|]). apply replies_then; [|apply replies_put].
  unfold date_of. destruct (gmtime_r _) as [c|]; simpl; [|auto with iohttp].
  destruct (strftime_http 64 c); simpl; auto with iohttp.
Qed.

Lemma file_policy_length cfg tag st mime range data : length (file_policy cfg tag st mime range data) ≤ 7.
Proof.
  unfold file_policy, opt_policy. rewrite !length_app. destruct range, tag, (date_of _); simpl; lia.
Qed.

(** The part of the file an answer carries. *)
Definition slice (content : bytes) (start len : Z) : bytes := take (Z.to_nat len) (drop (Z.to_nat start) content).

Definition wanted_range (req : ioh_request_t) (size : Z) : option (Z * Z) :=
  if (0 <? size)%Z
  then match parse_range (ioh_request_header req (bs "Range")) size with Ok p => Some p | Err _ => None end
  else None.

Lemma wanted_range_sound req size s e :
  (0 <= size)%Z -> wanted_range req size = Some (s, e) -> (0 <= s <= e)%Z /\ (e < size)%Z.
Proof.
  intros Hs. unfold wanted_range. destruct (0 <? size)%Z; [|done].
  destruct (parse_range _ _) as [[a b]|] eqn:E; [|done]. intros [= <- <-]. by eapply parse_range_sound.
Qed.

Lemma range_bounds_sound req size start len :
  (0 <= size)%Z -> range_bounds (wanted_range req size) size = (start, len) ->
  (0 <= start)%Z /\ (0 <= len)%Z /\ (start + len <= size)%Z /\ (len = 0 -> start = 0)%Z.
Proof.
  intros Hs. destruct (wanted_range req size) as [[s e]|] eqn:E; simpl; intros [= <- <-]; [|lia].
  apply wanted_range_sound in E; lia.
Qed.

(** An answer that carries [len] bytes of the content from [start] on. *)
Record carries_slice (cfg : ioh_static_config_t) (req : ioh_request_t) (st : file_stat) (tag : option bytes)
    (content : bytes) (h : heap) (r r' : ioh_response_t) : Prop := {
  cs_status : r_status r' = match wanted_range req (st_size st) with Some _ => 206 | None => 200 end%Z;
  cs_length : let '(start, len) := range_bounds (wanted_range req (st_size st)) (st_size st) in
              (start + len <= Z.of_nat (length content))%Z;
  cs_body : let '(start, len) := range_bounds (wanted_range req (st_size st)) (st_size st) in
            body_text r' = slice content start len \/ body_text r' = body_text r;
  cs_memory : h = [] ->
    let '(start, len) := range_bounds (wanted_range req (st_size st)) (st_size st) in
    body_text r' = slice content start len
    /\ r_headers r' = set_all (file_policy cfg tag st (ioh_mime_type (path req) (path_len req))
         (wanted_range req (st_size st)) (slice content start len)) (r_headers r);
}.

Lemma slice_length content start len :
  (0 <= start)%Z -> (0 <= len)%Z -> Z.of_nat (length (slice content start len)) = len ->
  (len = 0 \/ start + len <= Z.of_nat (length content))%Z.
Proof. intros Hs Hl. unfold slice. rewrite length_take, length_drop. lia. Qed.

Lemma send_body h r f p data :
  replies f p -> response_ok r -> (Z.of_nat (length (r_headers r) + length p) < 2 ^ 31)%Z ->
  (Z.of_nat (length data) < 2 ^ 64)%Z ->
  exists r' h', done_with (f ;> try_body data (Z.of_nat (length data))) h r = Some (Ok (), r', h')
    /\ response_ok r' /\ r_status r' = r_status r
    /\ (body_text r' = data \/ body_text r' = body_text r)
    /\ (h = [] -> h' = [] /\ body_text r' = data /\ r_headers r' = set_all p (r_headers r)).
Proof.
  intros Hf Hr Hl Hd. destruct (Hf r h Hr Hl) as (r1 & h1 & E1 & Hr1 & Hs1 & _ & Hm1).
  destruct (set_body_step h1 r1 data (Z.of_nat (length data))) as (rc & r2 & h2 & E2 & Hr2 & Hh2 & Hst2 & Hrc); [done|lia|done|].
  rewrite Nat2Z.id, firstn_all in Hrc. pose proof (body_text_same _ _ Hs1) as Hb.
  exists r2, h2. unfold done_with, then_call, try_body. rewrite E1, E2. destruct Hs1 as [Hst1 _].
  split_and!; [done|done|congruence| |].
  - destruct rc; [by left|]. destruct Hrc as [_ ->]. by right.
  - intros Hh. destruct (Hm1 Hh) as [-> Hp]. apply set_body_mem in E2 as [-> ->]. split_and!; auto. congruence.
Qed.

(** A file from which as many bytes as [stat] reported can be read anywhere. *)
Definition readable (fs : file_system) (file : bytes) (size : Z) : Prop :=
  seekable fs file = true /\ exists content, fopen fs file = Some content /\ (size <= Z.of_nat (length content))%Z.

Lemma send_file_spec fs cfg req file st tag h r :
  response_ok r -> (Z.of_nat (length (r_headers r)) + 7 < 2 ^ 31)%Z -> (0 <= st_size st < 2 ^ 63)%Z ->
  exists rc r' h', send_file fs cfg req file st tag h r = Some (rc, r', h') /\ response_ok r'
    /\ match rc with
       | Err _ => r' = r /\ (h = [] -> ~ readable fs file (st_size st))
       | Ok _ => (h = [] -> h' = [])
           /\ exists content, fopen fs file = Some content /\ carries_slice cfg req st tag content h r r'
       end.
Proof.
  intros Hr Hl Hsz. unfold send_file.
  assert (Ew : (if bool_decide (ioh_request_header req (bs "Range") ≠ None) && (0 <? st_size st)%Z
                then match parse_range (ioh_request_header req (bs "Range")) (st_size st) with Ok p => Some p | Err _ => None end
                else None) = wanted_range req (st_size st)).
  { unfold wanted_range. destruct (ioh_request_header _ _); [|rewrite bool_decide_false by auto; by destruct (0 <? _)%Z].
    rewrite bool_decide_true by done. by destruct (0 <? _)%Z. }
  rewrite Ew. clear Ew. destruct (fopen fs file) as [content|] eqn:Ef.
  2:{ eexists _, _, _. split; [done|]. split; [done|]. split; [done|]. intros _ (_ & c & Hc & _). congruence. }
  destruct (range_bounds _ _) as [start len] eqn:Eb. pose proof (range_bounds_sound _ _ _ _ (proj1 Hsz) Eb) as (Hs & Hlen & Hle & H0).
  case_match eqn:Esk.
  { eexists _, _, _. split; [done|]. split; [done|]. split; [done|]. intros _ (Hsk & _). rewrite Hsk in Esk. by rewrite andb_false_r in Esk. }
  destruct (xalloc h) as [ok h1] eqn:Ex. destruct ok; simpl.
  2:{ eexists _, _, _. split; [done|]. split; [done|]. split; [done|]. by intros ->. }
  fold (slice content start len). destruct (_ =? len)%Z eqn:El; simpl.
  2:{ eexists _, _, _. split; [done|]. split; [done|]. split; [done|]. intros _ (_ & c & Hc & Hlc). assert (c = content) as -> by congruence.
      apply Z.eqb_neq in El. unfold slice in El. rewrite length_take, length_drop in El. lia. }
  bprop.
  destruct (send_body h1 (with_status r (match wanted_range req (st_size st) with Some _ => 206 | None => 200 end))
    _ _ (slice content start len) (file_headers_replies cfg tag st (ioh_mime_type (path req) (path_len req))
      (wanted_range req (st_size st)) (slice content start len))) as (r' & h' & E & Hr' & Hst & Hbd & Hm).
  { by apply with_status_ok. }
  { pose proof (file_policy_length cfg tag st (ioh_mime_type (path req) (path_len req)) (wanted_range req (st_size st)) (slice content start len)).
    simpl. lia. }
  { lia. }
  exists (Ok ()), r', h'. split.
  { rewrite <- E. by destruct (wanted_range _ _). }
  split; [done|]. split; [intros ->; injection Ex as <-; by apply Hm|].
  exists content. split; [done|]. split; rewrite ?Eb; auto.
  - apply slice_length in El; lia.
  - intros ->. injection Ex as <-. by apply Hm.
Qed.

Lemma not_modified_spec tag h r :
  response_ok r -> (Z.of_nat (length (r_headers r)) + 7 < 2 ^ 31)%Z ->
  exists r' h', not_modified tag h r = Some (Ok (), r', h') /\ response_ok r' /\ r_status r' = 304%Z
    /\ body_text r' = body_text r /\ (h = [] -> h' = [] /\ r_headers r' = set_all (opt_policy (bs "ETag") tag) (r_headers r)).
Proof.
  intros Hr Hl. destruct (replies_opt (bs "ETag") tag (with_status r 304) h) as (r' & h' & E & Hr' & Hs & _ & Hm).
  { by apply with_status_ok. } { destruct tag; simpl; lia. }
  exists r', h'. unfold not_modified, done_with. rewrite E. split_and!; auto; [apply Hs|by apply (body_text_same _ _ Hs)].
Qed.

(** What a call may have done: nothing, or an answer for a file under the root. *)
Definition confined (fs : file_system) (cfg : ioh_static_config_t) (req : ioh_request_t) (h : heap)
    (r : ioh_response_t) (rc : res unit) (r' : ioh_response_t) : Prop :=
  match rc with
  | Err _ => r' = r
  | Ok _ => exists root p file st tag, root_dir cfg = Some root /\ path req = Some p
      /\ located fs root p (path_len req) file st
      /\ (r_status r' = 304%Z /\ body_text r' = body_text r
          \/ exists content, fopen fs file = Some content /\ carries_slice cfg req st tag content h r r')
  end.

(** C20: Only files under the root are served.  For every file system, configuration, request
    and allocation outcome the call stores nothing out of bounds and keeps the response
    well formed; an error leaves it as it was.  Otherwise the request path holds no NUL
    and no dot-dot segment, the file is the canonical root directory or lies below it, it
    is not a directory, and the answer is 304 with the body untouched, or it is 200 with
    the whole file or 206 with a range that lies within it, and the body, if there was
    memory for it, is exactly those bytes of the file. *)
Theorem static_serve_confined fs cfg req h r :
  fs_ok fs -> response_ok r -> (Z.of_nat (length (r_headers r)) + 7 < 2 ^ 31)%Z ->
  (forall p, path req = Some p -> path_len req ≤ length p) ->
  exists rc r' h', ioh_static_serve fs cfg req h r = Some (rc, r', h') /\ response_ok r'
    /\ confined fs cfg req h r rc r'.
Proof.
  intros Hfs Hr Hl Hp. unfold ioh_static_serve. destruct (root_dir cfg) as [root|] eqn:Ec; [|by eexists _, _, _].
  destruct (path req) as [p|] eqn:Ep; [|by eexists _, _, _]. destruct (path_len req =? 0); [by eexists _, _, _|].
  destruct (locate fs root p (path_len req)) as [[file st]|e] eqn:El; [|by eexists _, _, _].
  apply locate_sound in El; [|done|by apply Hp]. pose proof (fs_sizes _ Hfs _ _ (loc_stat _ _ _ _ _ _ El)) as Hsz.
  set (tag := if etag cfg then _ else _).
  assert (Hnm : exists rc r' h', not_modified tag h r = Some (rc, r', h') /\ response_ok r' /\ confined fs cfg req h r rc r').
  { destruct (not_modified_spec tag h r Hr Hl) as (r1 & h1 & E1 & Hr1 & Hs1 & Hb1 & _).
    exists (Ok ()), r1, h1. split_and!; [done..|]. exists root, p, file, st, tag. split_and!; auto. }
  destruct (match tag with Some _ => _ | None => _ end); [exact Hnm|]. destruct (not_since _ _); [exact Hnm|].
  destruct (send_file_spec fs cfg req file st tag h r Hr Hl Hsz) as (rc & r' & h' & E & Hr' & Hrc).
  exists rc, r', h'. split_and!; [done..|]. destruct rc; [|apply Hrc]. exists root, p, file, st, tag. split_and!; auto. right. apply Hrc.
Qed.

(** ** Range requests *)

(** The three forms of a range, and the first and last byte each means in a file. *)
Inductive byte_range := FromTo (a b : Z) | From (a : Z) | Suffix (n : Z).

Definition render_range (g : byte_range) : bytes :=
  match g with
  | FromTo a b => print_dec a ++ "-"%byte :: print_dec b
  | From a => print_dec a ++ ["-"%byte]
  | Suffix n => "-"%byte :: print_dec n
  end.

Definition range_of (g : byte_range) (size : Z) : option (Z * Z) :=
  match g with
  | FromTo a b => if (a <=? b)%Z && (b <? size)%Z then Some (a, b) else None
  | From a => if (a <? size)%Z then Some (a, size - 1)%Z else None
  | Suffix n => if (0 <? n)%Z && (n <=? size)%Z then Some (size - n, size - 1)%Z else None
  end.

Definition int64 (z : Z) : Prop := (0 <= z < 2 ^ 64)%Z.

(** The numbers fit, and what follows the range in memory does not continue it. *)
Definition range_ok (g : byte_range) (rest : bytes) : Prop :=
  match g with
  | FromTo a b => int64 a /\ int64 b /\ is_digit (char_at rest 0) = false
  | Suffix n => int64 n /\ is_digit (char_at rest 0) = false
  | From a => int64 a /\ char_at rest 0 ∈ [NUL; ","%byte; SP]
  end.

(** Reading a number that something else follows. *)
Lemma strto_dec z rest :
  int64 z -> is_digit (char_at rest 0) = false ->
  let r := strto (c_str (print_dec z ++ rest)) in st_consumed r = length (print_dec z) /\ strtoul_val r = z.
Proof.
  intros [Hz Hmax] Hr. rewrite c_str_app by (apply digits_no_nul, print_dec_digits; lia).
  rewrite <- char_at_c_str in Hr. generalize dependent (c_str rest). clear rest. intros rest Hr.
  destruct (print_dec_cons z Hz) as (d & ds & Hp & Hd). destruct (digit_not_special d Hd) as (H1 & H2 & H3).
  assert (Hsp : span is_digit (print_dec z ++ rest) = (print_dec z, rest)).
  { apply span_app; [by apply print_dec_digits|]. by destruct rest. }
  assert (Hst : strto (print_dec z ++ rest) = mk_strto false z (length (print_dec z))).
  { unfold strto. rewrite Hp in Hsp |- *. simpl app in *. cbn [span]. rewrite H1. cbn iota beta.
    rewrite H2, H3, Hsp. simpl length. cbn [Nat.eqb]. by rewrite <- Hp, dec_val_print_dec by lia. }
  cbv zeta. rewrite Hst. split; [done|]. unfold strtoul_val, UINT64_MAX. simpl.
  by replace (2 ^ 64 - 1 <? z)%Z with false by (symmetry; apply Z.ltb_ge; lia).
Qed.

Lemma unit_test rest : strncmp_eq (BYTES_UNIT ++ rest) BYTES_UNIT 6 = true.
Proof.
  unfold strncmp_eq. apply bytes_eqb_true. unfold strndup. rewrite c_str_app by bcompute.
  rewrite take_app_le by (vm_compute; lia). reflexivity.
Qed.

Lemma dash_not_digit : is_digit "-"%byte = false.
Proof. done. Qed.

Lemma dec_head z rest : (0 <= z)%Z -> is_digit (char_at (print_dec z ++ rest) 0) = true.
Proof. intros Hz. by destruct (print_dec_cons z Hz) as (d & ds & -> & ?). Qed.

Lemma digit_neq d c : is_digit d = true -> is_digit c = false -> (d =b c) = false.
Proof. intros Hd Hc. apply beq_false. congruence. Qed.

Lemma parse_range_render g rest size :
  (0 < size < 2 ^ 63)%Z -> range_ok g rest ->
  parse_range (Some (BYTES_UNIT ++ render_range g ++ rest)) size
    = match range_of g size with Some p => Ok p | None => Err EINVAL end.
Proof.
  intros Hsz Hok. unfold parse_range. rewrite unit_test. cbn [negb]. change 6 with (length BYTES_UNIT). rewrite drop_app_length.
  assert (Hnum : forall a r, int64 a -> let p := print_dec a ++ "-"%byte :: r in
    (char_at p 0 =b "-"%byte) = false /\ st_consumed (strto (c_str p)) = length (print_dec a)
    /\ strtoul_val (strto (c_str p)) = a /\ (length (print_dec a) =? 0) = false
    /\ (char_at p (length (print_dec a)) =b "-"%byte) = true /\ drop (length (print_dec a) + 1) p = r).
  { intros a r Ha. destruct (strto_dec a ("-"%byte :: r) Ha dash_not_digit) as [Hc Hv]. split_and!; auto.
    - apply digit_neq; [apply dec_head, Ha|done].
    - apply Nat.eqb_neq. pose proof (print_dec_nonempty a (proj1 Ha)). lia.
    - unfold char_at. by rewrite list_lookup_middle.
    - rewrite drop_app_ge by lia. by replace (length (print_dec a) + 1 - length (print_dec a)) with 1 by lia. }
  destruct g as [a b|a|n]; simpl in Hok |- *.
  - destruct Hok as (Ha & Hb & Hr). rewrite <- app_assoc. simpl app.
    destruct (Hnum a (print_dec b ++ rest) Ha) as (-> & -> & -> & -> & -> & ->). simpl.
    pose proof (dec_head b rest (proj1 Hb)) as Hd. rewrite !(digit_neq _ _ Hd) by done. simpl.
    destruct (strto_dec b rest Hb Hr) as [-> ->].
    replace (length (print_dec b) =? 0) with false by (symmetry; apply Nat.eqb_neq; pose proof (print_dec_nonempty b (proj1 Hb)); lia).
    unfold check_range. destruct (Z.ltb_spec b a), (Z.leb_spec a b), (Z.leb_spec size b), (Z.ltb_spec b size); simpl; (done || lia).
  - destruct Hok as (Ha & Hr). rewrite <- app_assoc. simpl app.
    destruct (Hnum a rest Ha) as (-> & -> & -> & -> & -> & ->). simpl.
    replace (_ || _ || _) with true by (rewrite !elem_of_cons in Hr; destruct Hr as [-> |[-> |[-> |?%not_elem_of_nil]]]; done).
    rewrite u64_small by lia. unfold check_range.
    destruct (Z.ltb_spec (size - 1) a), (Z.ltb_spec a size), (Z.leb_spec size (size - 1)); simpl; (done || lia).
  - destruct Hok as (Hn & Hr). simpl. rewrite drop_0. destruct (strto_dec n rest Hn Hr) as [-> ->].
    replace (length (print_dec n) =? 0) with false by (symmetry; apply Nat.eqb_neq; pose proof (print_dec_nonempty n (proj1 Hn)); lia).
    unfold int64 in Hn. destruct (Z.eqb_spec n 0), (Z.ltb_spec size n), (Z.ltb_spec 0 n), (Z.leb_spec n size); simpl; (done || lia).
Qed.

(** ** The headers of an answer *)

Lemma fits_c_str n v :
  NUL ∉ n -> length n ≤ IOH_MAX_HEADER_SIZE -> length v ≤ IOH_MAX_HEADER_SIZE -> fits_header (n, c_str v).
Proof.
  intros Hn Hnl Hv. split_and!; simpl; auto; [apply c_str_nul|]. unfold c_str. pose proof (span_len not_nul v). lia.
Qed.

Lemma fits_opt n v :
  NUL ∉ n -> length n ≤ IOH_MAX_HEADER_SIZE -> (forall x, v = Some x -> length x ≤ IOH_MAX_HEADER_SIZE) ->
  Forall fits_header (opt_policy n v).
Proof. intros Hn Hnl Hv. destruct v as [x|]; constructor; [apply fits_c_str; auto|constructor]. Qed.

Lemma cut_length k s : k ≤ 128 -> length (cut k s) ≤ IOH_MAX_HEADER_SIZE.
Proof. intros Hk. unfold cut. rewrite length_take. assert (128 ≤ IOH_MAX_HEADER_SIZE) by nle. lia. Qed.

Lemma mime_length p n : length (ioh_mime_type p n) ≤ 128.
Proof.
  assert (Ho : length OCTET_STREAM ≤ 128) by nle. unfold ioh_mime_type. destruct p as [p|]; [|done].
  destruct (n =? 0); [done|]. destruct (last_dot p n) as [d|]; [|done].
  generalize (drop d p) (n - d). intros s k. assert (Ht : Forall (fun e => length (snd e) ≤ 128) mime_table) by bcompute.
  induction Ht as [|[ext m] t Hm _ IH]; simpl; [done|]. by destruct (_ && _).
Qed.

Lemma date_of_length m x : date_of m = Some x -> length x ≤ 128.
Proof.
  unfold date_of. destruct (gmtime_r m) as [c|]; simpl; [|done]. unfold strftime_http.
  destruct (64 <=? _) eqn:E; [done|]. bprop. intros [= <-]. lia.
Qed.

Lemma file_policy_fits cfg tag st p n range data :
  (forall t, tag = Some t -> length t ≤ 128) ->
  Forall fits_header (file_policy cfg tag st (ioh_mime_type p n) range data)
  /\ NoDup (lower ∘ fst <$> file_policy cfg tag st (ioh_mime_type p n) range data).
Proof.
  intros Ht. assert (H128 : 128 ≤ IOH_MAX_HEADER_SIZE) by nle. split.
  - unfold file_policy. rewrite !Forall_app. split_and!;
      (apply fits_opt; [bcompute|nle|]) || (constructor; [apply fits_c_str; [bcompute|nle|]|constructor]).
    + intros x. destruct range; [|done]. intros [= <-]. apply cut_length. lia.
    + pose proof (mime_length p n). lia.
    + apply cut_length. lia.
    + nle.
    + intros x Hx. apply Ht in Hx. lia.
    + intros x Hx. apply date_of_length in Hx. lia.
    + apply cut_length. lia.
  - unfold file_policy, opt_policy. destruct range as [[? ?]|], tag, (date_of _); simpl; bcompute.
Qed.

Lemma dec_text z : (0 <= z < 2 ^ 64)%Z -> NUL ∉ print_dec z /\ length (print_dec z) ≤ 20.
Proof.
  intros Hz. split; [apply digits_no_nul, print_dec_digits; lia|]. apply print_dec_length; [|lia].
  assert (2 ^ 64 < 10 ^ Z.of_nat 20)%Z by (vm_compute; reflexivity). lia.
Qed.

Lemma content_range_plain s e size :
  (0 <= s <= e)%Z -> (e < size < 2 ^ 63)%Z -> c_str (cut 128 (content_range_text s e size)) = content_range_text s e size.
Proof.
  intros Hs He. destruct (dec_text s ltac:(lia)) as [N1 L1]. destruct (dec_text e ltac:(lia)) as [N2 L2].
  destruct (dec_text size ltac:(lia)) as [N3 L3].
  assert (E : cut 128 (content_range_text s e size) = content_range_text s e size).
  { apply take_ge. unfold content_range_text. rewrite !length_app. simpl. lia. }
  rewrite E. apply c_str_plain. unfold content_range_text. rewrite !not_elem_of_app. split_and!; auto; bcompute.
Qed.

Lemma dec_plain z : (0 <= z < 2 ^ 64)%Z -> c_str (cut 32 (print_dec z)) = print_dec z.
Proof.
  intros Hz. destruct (dec_text z Hz) as [N L]. unfold cut. rewrite take_ge by lia. by apply c_str_plain.
Qed.

(** The entity tag of a file, when the configuration asks for one. *)
Definition tag_of (cfg : ioh_static_config_t) (st : file_stat) : option bytes :=
  if etag cfg then match ioh_etag_generate (u64 (st_mtime st)) (st_size st) 64 with Ok t => Some t | Err _ => None end
  else None.

Lemma tag_of_length cfg st t : tag_of cfg st = Some t -> length t ≤ 128.
Proof.
  unfold tag_of, ioh_etag_generate. destruct (etag cfg); [|done]. change (64 <? 32) with false. cbn iota.
  destruct (64 <=? _) eqn:E; [done|]. bprop. intros [= <-]. lia.
Qed.

(** Serving a file that was found, without a matching validator. *)
Lemma serve_file fs cfg req root p file st content r :
  root_dir cfg = Some root -> path req = Some p -> path_len req ≠ 0 -> locate fs root p (path_len req) = Ok (file, st) ->
  fopen fs file = Some content -> seekable fs file = true -> (0 <= st_size st < 2 ^ 63)%Z ->
  (st_size st <= Z.of_nat (length content))%Z ->
  match tag_of cfg st with Some t => none_match req t | None => false end = false ->
  not_since req (u64 (st_mtime st)) = false ->
  response_ok r -> (Z.of_nat (length (r_headers r)) + 7 < 2 ^ 31)%Z ->
  exists r', ioh_static_serve fs cfg req [] r = Some (Ok (), r', []) /\ response_ok r'
    /\ carries_slice cfg req st (tag_of cfg st) content [] r r'.
Proof.
  intros Hc Hp Hn El Hf Hsk Hsz Hlen Hnm Hns Hr Hl. unfold ioh_static_serve. rewrite Hc, Hp.
  replace (path_len req =? 0) with false by (symmetry; by apply Nat.eqb_neq). rewrite El. fold (tag_of cfg st). rewrite Hnm, Hns.
  destruct (send_file_spec fs cfg req file st (tag_of cfg st) [] r Hr Hl Hsz) as (rc & r' & h' & E & Hr' & Hrc).
  exists r'. destruct rc as [[]|e].
  - destruct Hrc as (Hh & c & Hc' & Hcs). rewrite Hh in E by done. rewrite Hf in Hc'. injection Hc' as <-. auto.
  - destruct Hrc as [_ Hrd]. destruct Hrd; [done|]. split; [done|]. by exists content.
Qed.

(** A request for a file that exists and can be read in full. *)
Record found (fs : file_system) (cfg : ioh_static_config_t) (req : ioh_request_t) (root p file : bytes)
    (st : file_stat) (content : bytes) : Prop := {
  fo_root : root_dir cfg = Some root;
  fo_path : path req = Some p;
  fo_len : path_len req ≠ 0;
  fo_file : locate fs root p (path_len req) = Ok (file, st);
  fo_open : fopen fs file = Some content;
  fo_seek : seekable fs file = true;
  fo_size : st_size st = Z.of_nat (length content);
  fo_max : (st_size st < 2 ^ 63)%Z;
}.

Definition unconditional (req : ioh_request_t) : Prop :=
  ioh_request_header req (bs "If-None-Match") = None /\ ioh_request_header req (bs "If-Modified-Since") = None.

Lemma serve_found fs cfg req root p file st content r :
  found fs cfg req root p file st content -> unconditional req ->
  response_ok r -> (Z.of_nat (length (r_headers r)) + 7 < 2 ^ 31)%Z ->
  exists r', ioh_static_serve fs cfg req [] r = Some (Ok (), r', []) /\ response_ok r'
    /\ carries_slice cfg req st (tag_of cfg st) content [] r r'
    /\ let '(start, len) := range_bounds (wanted_range req (st_size st)) (st_size st) in
       carries (file_policy cfg (tag_of cfg st) st (ioh_mime_type (path req) (path_len req))
         (wanted_range req (st_size st)) (slice content start len)) r r'.
Proof.
  intros [] [Hn Hs] Hr Hl. destruct (serve_file fs cfg req root p file st content r) as (r' & E & Hr' & Hc); auto; try lia.
  { unfold none_match. rewrite Hn. by destruct (tag_of cfg st). }
  { unfold not_since. by rewrite Hs. }
  exists r'. split_and!; auto. pose proof (cs_memory _ _ _ _ _ _ _ _ Hc eq_refl) as Hm.
  destruct (range_bounds _ _) as [start len]. destruct Hm as [_ Hh].
  destruct (file_policy_fits cfg (tag_of cfg st) st (path req) (path_len req) (wanted_range req (st_size st)) (slice content start len)
    (tag_of_length cfg st)) as [Hfit Hnd]. by apply set_all_carries.
Qed.

Lemma slice_all content : slice content 0 (Z.of_nat (length content)) = content.
Proof. unfold slice. rewrite Nat2Z.id. by apply firstn_all. Qed.

Lemma slice_size content s e :
  (0 <= s <= e)%Z -> (e < Z.of_nat (length content))%Z -> Z.of_nat (length (slice content s (e - s + 1))) = (e - s + 1)%Z.
Proof. intros. unfold slice. rewrite length_take, length_drop. lia. Qed.

(** C22: Ranges are exact.  Let memory be available and the response be well-formed with
    fewer than 2^31 - 7 headers.  An unconditional request (no
    If-None-Match, no If-Modified-Since) for an existing, readable, non-empty file with a
    [Range] header in one of the three standard forms, with numbers below 2^64, is
    answered by 206 with exactly the bytes the range means, their position in
    [Content-Range] and their number in [Content-Length], when the range lies in the file;
    otherwise the header is ignored and the whole file sent with 200.  What follows the
    range in memory must not continue it: no digit, and after an open-ended range a NUL (as
    the HTTP/2 and HTTP/3 layers store values), a comma or a space. *)
Theorem static_ranges_exact fs cfg req root p file st content g rest r :
  found fs cfg req root p file st content -> unconditional req -> content ≠ [] ->
  ioh_request_header req (bs "Range") = Some (BYTES_UNIT ++ render_range g ++ rest) -> range_ok g rest ->
  response_ok r -> (Z.of_nat (length (r_headers r)) + 7 < 2 ^ 31)%Z ->
  exists r', ioh_static_serve fs cfg req [] r = Some (Ok (), r', []) /\ response_ok r'
    /\ match range_of g (st_size st) with
       | Some (s, e) => r_status r' = 206%Z /\ body_text r' = slice content s (e - s + 1)
           /\ values (bs "Content-Range") r' = content_range_text s e (st_size st) :: tail (values (bs "Content-Range") r)
           /\ values (bs "Content-Length") r' = print_dec (e - s + 1) :: tail (values (bs "Content-Length") r)
       | None => r_status r' = 200%Z /\ body_text r' = content
           /\ values (bs "Content-Range") r' = values (bs "Content-Range") r
           /\ values (bs "Content-Length") r' = print_dec (st_size st) :: tail (values (bs "Content-Length") r)
       end.
Proof.
  intros Hfo Hu Hne Hh Hok Hr Hl. pose proof Hfo as [_ _ _ _ _ _ Hsz Hmax].
  assert (Hpos : (0 < st_size st)%Z) by (destruct content; [done|simpl in Hsz; lia]).
  assert (Hw : wanted_range req (st_size st) = range_of g (st_size st)).
  { unfold wanted_range. replace (0 <? st_size st)%Z with true by (symmetry; by apply Z.ltb_lt).
    rewrite Hh, parse_range_render by (done || lia). by destruct (range_of g _). }
  destruct (serve_found fs cfg req root p file st content r Hfo Hu Hr Hl) as (r' & E & Hr' & Hc & Hcar).
  exists r'. split; [done|]. split; [done|]. pose proof (cs_memory _ _ _ _ _ _ _ _ Hc eq_refl) as Hm.
  pose proof (cs_status _ _ _ _ _ _ _ _ Hc) as Hst. pose proof (wanted_range_sound req (st_size st)) as Hso.
  rewrite Hw in *. destruct (range_of g (st_size st)) as [[s e]|]; simpl range_bounds in *.
  - destruct (Hso s e) as [Hse He]; [lia|done|]. destruct Hm as [Hb _]. split_and!; auto.
    + apply Hcar. unfold file_policy. simpl. rewrite content_range_plain by lia. apply elem_of_cons. by left.
    + apply Hcar. unfold file_policy. rewrite slice_size by lia.
      rewrite dec_plain by lia. rewrite !elem_of_app, !list_elem_of_singleton. auto.
  - destruct Hm as [Hb _]. rewrite Hsz, slice_all in *. split_and!; auto.
    + apply Hcar. unfold file_policy. simpl. destruct (tag_of cfg st), (date_of _); bcompute.
    + apply Hcar. unfold file_policy. rewrite dec_plain by lia. rewrite !elem_of_app, !list_elem_of_singleton. auto.
Qed.

(** ** Validators *)

Lemma hex_digit_spec d : (0 <= d <= 15)%Z -> hex_digit d ≠ "-"%byte /\ hex_digit d ≠ NUL /\ hex_digit d ≠ DQUOTE.
Proof. intros H. enum d; vm_compute; split_and!; done. Qed.

Lemma hex_digit_inj a b : (0 <= a <= 15)%Z -> (0 <= b <= 15)%Z -> hex_digit a = hex_digit b -> a = b.
Proof.
  assert (Hv : forall d, (0 <= d <= 15)%Z -> (let v := b2z (hex_digit d) in if v <? 58 then v - 48 else v - 87)%Z = d)
    by (intros d Hd; enum d; reflexivity).
  intros Ha Hb E. rewrite <- (Hv a Ha), <- (Hv b Hb). by rewrite E.
Qed.

Lemma print_hex_nonempty f n : print_hex_aux (S f) n ≠ [].
Proof. simpl. destruct (n <? 16)%Z; [done|]. by destruct (print_hex_aux f _). Qed.

Lemma print_hex_chars f n : (0 <= n)%Z -> Forall (fun c => c ≠ "-"%byte /\ c ≠ NUL /\ c ≠ DQUOTE) (print_hex_aux f n).
Proof.
  revert n. induction f as [|f IH]; intros n Hn; simpl; [constructor|].
  destruct (Z.ltb_spec n 16); [constructor; [apply hex_digit_spec; lia|constructor]|].
  apply Forall_app. split; [apply IH; zdiv|]. constructor; [apply hex_digit_spec; zdiv|constructor].
Qed.

Lemma print_hex_inj f m n :
  (0 <= m < 16 ^ Z.of_nat f)%Z -> (0 <= n < 16 ^ Z.of_nat f)%Z -> print_hex_aux f m = print_hex_aux f n -> m = n.
Proof.
  revert m n. induction f as [|f IH]; intros m n Hm Hn; [simpl in *; lia|]. simpl print_hex_aux.
  assert (Hlen : forall k, (16 <= k < 16 ^ Z.of_nat (S f))%Z -> exists x xs, print_hex_aux f (k / 16) = x :: xs).
  { intros k Hk. destruct f as [|f]; [simpl in Hk; lia|]. pose proof (print_hex_nonempty f (k / 16)).
    destruct (print_hex_aux (S f) (k / 16)); [done|eauto]. }
  rewrite Nat2Z.inj_succ, Z.pow_succ_r in Hm, Hn, Hlen by lia.
  destruct (Z.ltb_spec m 16), (Z.ltb_spec n 16); intros E.
  - injection E as E. apply hex_digit_inj in E; lia.
  - destruct (Hlen n) as (x & xs & Hx); [lia|]. rewrite Hx in E. by destruct xs.
  - destruct (Hlen m) as (x & xs & Hx); [lia|]. rewrite Hx in E. by destruct xs.
  - apply app_inj_tail in E as [E1 E2]. apply hex_digit_inj in E2; [|zdiv..]. apply IH in E1; zdiv.
Qed.

(** A first occurrence of a separator splits a text in one way. *)
Lemma split_at_first (c : byte) a a' b b' : c ∉ a -> c ∉ a' -> a ++ c :: b = a' ++ c :: b' -> a = a' /\ b = b'.
Proof.
  revert a'. induction a as [|x a IH]; intros [|x' a'] Ha Ha' E; rewrite ?not_elem_of_cons in *.
  - by apply (f_equal tail) in E.
  - apply (f_equal head) in E. injection E as ->. tauto.
  - apply (f_equal head) in E. injection E as ->. tauto.
  - pose proof (f_equal head E) as Eh. injection Eh as ->. apply (f_equal tail) in E. simpl in E.
    destruct (IH a') as [-> ->]; tauto.
Qed.

Lemma etag_text_inj m s m' s' :
  int64 m -> int64 s -> int64 m' -> int64 s' -> etag_text m s = etag_text m' s' -> m = m' /\ s = s'.
Proof.
  unfold int64, etag_text, print_hex. intros Hm Hs Hm' Hs' E. apply (f_equal tail) in E. cbn [tail] in E.
  assert (N : forall k, (0 <= k)%Z -> "-"%byte ∉ print_hex_aux 16 k).
  { intros k Hk Hin. pose proof (print_hex_chars 16 k Hk) as Hc. rewrite Forall_forall in Hc. by apply Hc in Hin as [? _]. }
  apply split_at_first in E as [E1 E2]; [|apply N; lia..]. apply app_inj_tail in E2 as [E2 _].
  split; eapply (print_hex_inj 16); eauto; simpl; lia.
Qed.

Lemma print_hex_length f n : length (print_hex_aux f n) ≤ f.
Proof.
  revert n. induction f as [|f IH]; intros n; simpl; [lia|]. destruct (n <? 16)%Z; simpl; [lia|].
  rewrite length_app. specialize (IH (n / 16)%Z). simpl. lia.
Qed.

Lemma etag_plain m s : (0 <= m)%Z -> (0 <= s)%Z -> NUL ∉ etag_text m s /\ length (etag_text m s) < 64.
Proof.
  intros Hm Hs. unfold etag_text. pose proof (print_hex_length 16 m). pose proof (print_hex_length 16 s).
  split; [|simpl; rewrite length_app; simpl; rewrite length_app; simpl; unfold print_hex; lia].
  assert (N : forall k, (0 <= k)%Z -> NUL ∉ print_hex_aux 16 k).
  { intros k Hk Hin. pose proof (print_hex_chars 16 k Hk) as Hc. rewrite Forall_forall in Hc. apply Hc in Hin. tauto. }
  rewrite not_elem_of_cons, not_elem_of_app, not_elem_of_cons, not_elem_of_app. unfold print_hex.
  split_and!; auto; try done. bcompute.
Qed.

Lemma tag_of_text cfg st :
  etag cfg = true -> (0 <= st_size st)%Z -> tag_of cfg st = Some (etag_text (u64 (st_mtime st)) (st_size st)).
Proof.
  intros He Hs. unfold tag_of, ioh_etag_generate. rewrite He. change (64 <? 32) with false. cbn iota.
  destruct (etag_plain (u64 (st_mtime st)) (st_size st)) as [_ Hl]; [apply u64_range|done|].
  by replace (64 <=? length _) with false by (symmetry; apply Nat.leb_gt; done).
Qed.

Lemma none_match_iff req tag v :
  NUL ∉ tag -> length tag ≤ IOH_MAX_HEADER_SIZE -> length (c_str v) < IOH_MAX_HEADER_SIZE ->
  ioh_request_header req (bs "If-None-Match") = Some v -> none_match req tag = true <-> c_str v = tag.
Proof.
  intros Hn Hl Hv Hh. unfold none_match, memcmp_eq, strnlen, strlen. rewrite Hh, andb_true_iff, Nat.eqb_eq, bytes_eqb_true.
  rewrite Nat.min_l by lia. rewrite firstn_all. pose proof (span_fst_take not_nul v) as Hs. fold (c_str v) in Hs. split.
  - intros [E1 E2]. by rewrite <- E1, <- Hs in E2.
  - intros <-. by rewrite <- Hs.
Qed.

(** The answer to a request is "not modified", with the response's body left alone. *)
Definition answers_304 (fs : file_system) (cfg : ioh_static_config_t) (req : ioh_request_t) (r : ioh_response_t) : Prop :=
  exists r', ioh_static_serve fs cfg req [] r = Some (Ok (), r', []) /\ r_status r' = 304%Z /\ body_text r' = body_text r.

Lemma answers_304_iff fs cfg req root p file st r :
  root_dir cfg = Some root -> path req = Some p -> path_len req ≠ 0 -> locate fs root p (path_len req) = Ok (file, st) ->
  (0 <= st_size st < 2 ^ 63)%Z -> response_ok r -> (Z.of_nat (length (r_headers r)) + 7 < 2 ^ 31)%Z ->
  answers_304 fs cfg req r <->
  match tag_of cfg st with Some t => none_match req t | None => false end = true \/ not_since req (u64 (st_mtime st)) = true.
Proof.
  intros Hc Hp Hn El Hsz Hr Hl. unfold answers_304, ioh_static_serve. rewrite Hc, Hp.
  replace (path_len req =? 0) with false by (symmetry; by apply Nat.eqb_neq). rewrite El. fold (tag_of cfg st).
  destruct (not_modified_spec (tag_of cfg st) [] r Hr Hl) as (r1 & h1 & E1 & _ & Hs1 & Hb1 & Hm1).
  assert (Hyes : exists r', not_modified (tag_of cfg st) [] r = Some (Ok (), r', []) /\ r_status r' = 304%Z /\ body_text r' = body_text r).
  { exists r1. rewrite E1. by destruct (Hm1 eq_refl) as [-> _]. }
  destruct (match tag_of cfg st with Some _ => _ | None => _ end); [by split; auto|].
  destruct (not_since req _); [by split; auto|].
  split; [|by intros []]. intros (r' & E & Hst & _). exfalso.
  destruct (send_file_spec fs cfg req file st (tag_of cfg st) [] r Hr Hl Hsz) as (rc & r2 & h2 & E2 & _ & Hrc).
  rewrite E in E2. injection E2 as <- <- <-. destruct Hrc as (_ & content & _ & Hcs).
  pose proof (cs_status _ _ _ _ _ _ _ _ Hcs) as Hs. rewrite Hst in Hs. by destruct (wanted_range _ _).
Qed.

(** C21: Validators recognise the unchanged file.  Let entity tags be enabled, memory be
    available, the responses be well-formed with fewer than 2^31 - 7 headers, the file be
    readable in full and its modification time lie between 1970 and 9999.
    The 200 answer for an unconditional request carries an entity tag and a date.  Take a
    later request for the same path, when there still is a file, with whatever content, size
    and time (neither negative).  With If-None-Match alone, its value a C string that is
    the tag and ends there, as the HTTP/2 and HTTP/3 layers store it, it is answered by 304
    exactly when the file still has the same modification time and size; with
    If-Modified-Since alone, its value the date and whatever follows it in memory,
    exactly when the file has not been modified after it. *)
Theorem static_revalidation fs cfg req root p file st content r :
  found fs cfg req root p file st content -> unconditional req -> etag cfg = true ->
  (0 <= st_mtime st < 253402300800)%Z -> response_ok r -> (Z.of_nat (length (r_headers r)) + 7 < 2 ^ 31)%Z ->
  exists r' tag date, ioh_static_serve fs cfg req [] r = Some (Ok (), r', [])
    /\ values (bs "ETag") r' = tag :: tail (values (bs "ETag") r)
    /\ values (bs "Last-Modified") r' = date :: tail (values (bs "Last-Modified") r)
    /\ forall fs2 req2 file2 st2 r2, path req2 = path req -> path_len req2 = path_len req ->
         locate fs2 root p (path_len req) = Ok (file2, st2) -> (0 <= st_size st2 < 2 ^ 63)%Z -> (0 <= st_mtime st2 < 2 ^ 63)%Z ->
         response_ok r2 -> (Z.of_nat (length (r_headers r2)) + 7 < 2 ^ 31)%Z ->
         (forall v, ioh_request_header req2 (bs "If-None-Match") = Some v -> c_str v = tag ->
            ioh_request_header req2 (bs "If-Modified-Since") = None ->
            answers_304 fs2 cfg req2 r2 <-> st_mtime st2 = st_mtime st /\ st_size st2 = st_size st)
         /\ (forall rest, ioh_request_header req2 (bs "If-Modified-Since") = Some (date ++ rest) ->
            ioh_request_header req2 (bs "If-None-Match") = None ->
            answers_304 fs2 cfg req2 r2 <-> (st_mtime st2 <= st_mtime st)%Z).
Proof.
  intros Hfo Hu He Hmt Hr Hl. pose proof Hfo as [Hroot Hpath Hplen _ _ _ Hsz Hmax].
  destruct (serve_found fs cfg req root p file st content r Hfo Hu Hr Hl) as (r' & E & Hr' & Hc & Hcar).
  destruct (http_date_reads_back (st_mtime st) Hmt) as (c & Hg & Hf & Hnd & Hld & Ht & Hread).
  set (tag := etag_text (u64 (st_mtime st)) (st_size st)).
  assert (Htag : tag_of cfg st = Some tag) by (apply tag_of_text; [done|lia]).
  destruct (etag_plain (u64 (st_mtime st)) (st_size st)) as [Hnt Hlt]; [apply u64_range|lia|]. fold tag in Hnt, Hlt.
  exists r', tag, (http_date c). split; [done|]. destruct (range_bounds _ _) as [start len]. split; [|split].
  - apply Hcar. unfold file_policy, opt_policy. rewrite Htag, (c_str_plain tag) by done. rewrite !elem_of_app, !list_elem_of_singleton. auto 10.
  - assert (Hdate : date_of (st_mtime st) = Some (http_date c)) by (unfold date_of; by rewrite Hg).
    apply Hcar. unfold file_policy, opt_policy. rewrite Hdate, (c_str_plain (http_date c)) by done.
    rewrite !elem_of_app, !list_elem_of_singleton. auto 10.
  - intros fs2 req2 file2 st2 r2 Hp2 Hl2 El2 Hs2 Hm2 Hr2 Hrl2.
    assert (Hu2 : u64 (st_mtime st2) = st_mtime st2) by (apply u64_small; lia).
    assert (H304 : answers_304 fs2 cfg req2 r2 <-> none_match req2 (etag_text (st_mtime st2) (st_size st2)) = true
                   \/ not_since req2 (st_mtime st2) = true).
    { rewrite (answers_304_iff fs2 cfg req2 root p file2 st2 r2) by (rewrite ?Hp2, ?Hl2; done).
      by rewrite tag_of_text, Hu2 by (done || lia). }
    split.
    + intros v Hv Ev Hims. rewrite H304. unfold not_since. rewrite Hims.
      assert (H8 : 64 ≤ IOH_MAX_HEADER_SIZE) by nle.
      destruct (etag_plain (st_mtime st2) (st_size st2)) as [Hn2 Hlt2]; [lia..|].
      rewrite (none_match_iff req2 _ v) by (done || lia || (rewrite Ev; lia)). rewrite Ev. unfold tag. rewrite u64_small by lia. split.
      * intros [Eq|]; [|done]. apply etag_text_inj in Eq as [-> ->]; [done|unfold int64; lia..].
      * intros [-> ->]. by left.
    + intros rest Hims Hinm. rewrite H304. unfold none_match, not_since. rewrite Hinm, Hims, c_str_app, Hread, Ht by done.
      rewrite andb_true_iff, !Z.leb_le. split; [intros [|[]]; done|right; lia].
Qed.

(** ** Single-page applications *)

Lemma after_last_take c l i : i ≤ length l -> after_last c l i = after_last c (take i l) (length (take i l)).
Proof.
  intros Hi. rewrite length_take, Nat.min_l by done.
  assert (H : forall j, j ≤ i -> after_last c l j = after_last c (take i l) j); [|by apply H].
  induction j as [|j IH]; intros Hj; [done|]. simpl. rewrite IH by lia.
  replace (char_at (take i l) j) with (char_at l j); [done|]. unfold char_at. by rewrite lookup_take_lt by lia.
Qed.

Lemma after_last_none c l : c ≠ NUL -> c ∉ l -> after_last c l (length l) = 0.
Proof.
  intros Hc Hn. assert (H : forall j, after_last c l j = 0); [|done]. induction j as [|j IH]; [done|]. simpl.
  destruct (char_at l j =b c) eqn:E; [|done]. bprop. unfold char_at in E. destruct (l !! j) eqn:El; simpl in E; [|done].
  subst. destruct Hn. by eapply list_elem_of_lookup_2.
Qed.

Lemma after_last_app c a b : c ≠ NUL -> c ∉ b -> after_last c (a ++ c :: b) (length (a ++ c :: b)) = S (length a).
Proof.
  intros Hc Hb. assert (H : forall j, j ≤ length b -> after_last c (a ++ c :: b) (S (length a) + j) = S (length a)).
  { induction j as [|j IH]; intros Hj.
    - rewrite Nat.add_0_r. simpl. unfold char_at. rewrite list_lookup_middle by done. simpl. by rewrite beq_refl.
    - rewrite Nat.add_succ_r. simpl after_last. unfold char_at. rewrite lookup_app_r by lia.
      replace (length a + j + 1 - length a) with (S j) by lia.
      replace (S (length a + j) - length a) with (S j) by lia. simpl.
      destruct (b !! j) as [x|] eqn:Ex; [|apply lookup_ge_None in Ex; lia]. simpl.
      destruct (x =b c) eqn:E; [bprop; subst; destruct Hb; by eapply list_elem_of_lookup_2|]. apply IH. lia. }
  rewrite length_app. simpl. rewrite Nat.add_succ_r. apply (H (length b)). lia.
Qed.

(** The last occurrence of a byte. *)
Lemma last_split (c : byte) (l : bytes) : c ∉ l \/ exists a b, l = a ++ c :: b /\ c ∉ b.
Proof.
  induction l as [|x l IH]; [left; apply not_elem_of_nil|]. destruct IH as [Hn|(a & b & -> & Hb)].
  - destruct (decide (x = c)) as [->|Hx]; [right; by exists [], l|left; by apply not_elem_of_cons].
  - right. by exists (x :: a), b.
Qed.

Lemma filename_spec p n :
  n ≤ length p ->
  exists dir, take n p = dir ++ filename p n /\ SLASH ∉ filename p n /\ (dir = [] \/ last dir = Some SLASH).
Proof.
  intros Hn. unfold filename. rewrite (after_last_take _ _ _ Hn). destruct (last_split SLASH (take n p)) as [Hs|(a & b & E & Hb)].
  - rewrite after_last_none, drop_0, Nat.sub_0_r by done. exists []. auto.
  - pose proof (f_equal length E) as Hl. rewrite length_take, length_app in Hl. simpl in Hl.
    rewrite E, after_last_app by done. rewrite take_drop_commute.
    replace (S (length a) + (n - S (length a))) with n by lia. rewrite E.
    replace (drop (S (length a)) (a ++ SLASH :: b)) with b
      by (rewrite cons_middle, app_assoc, drop_app_length'; [done|rewrite length_app; simpl; lia]).
    exists (a ++ [SLASH]). rewrite <- app_assoc. split_and!; auto. right. apply last_snoc.
Qed.

Lemma hex_plain s : Forall (fun c => is_hex c = true) s -> "."%byte ∉ s /\ SLASH ∉ s.
Proof. rewrite Forall_forall. intros H. split; intros Hin; apply H in Hin; by vm_compute in Hin. Qed.

(** A path has one directory part. *)
Lemma directory_unique d d' f f' :
  d ++ f = d' ++ f' -> SLASH ∉ f -> SLASH ∉ f' -> (d = [] \/ last d = Some SLASH) -> (d' = [] \/ last d' = Some SLASH) -> f = f'.
Proof.
  intros E Hf Hf' Hd Hd'.
  assert (H : forall x g, SLASH ∉ g -> x = [] \/ last x = Some SLASH -> after_last SLASH (x ++ g) (length (x ++ g)) = length x).
  { intros x g Hg [->|[y ->]%last_Some]; [by apply after_last_none|]. rewrite <- app_assoc. simpl.
    rewrite after_last_app by done. rewrite length_app. simpl. lia. }
  pose proof (H d f Hf Hd) as H1. pose proof (H d' f' Hf' Hd') as H2. rewrite E in H1. rewrite H1 in H2.
  by apply app_inj_1 in E as [_ ?].
Qed.

(** The name of a hashed asset: [name.HASH.ext] in some directory. *)
Definition hashed_name (path : bytes) : Prop :=
  exists dir name hash ext, path = dir ++ name ++ "."%byte :: hash ++ "."%byte :: ext
    /\ (dir = [] \/ last dir = Some SLASH) /\ SLASH ∉ name /\ SLASH ∉ ext /\ "."%byte ∉ ext
    /\ 6 ≤ length hash /\ Forall (fun c => is_hex c = true) hash.

Lemma hashed_file_split a b c :
  "."%byte ∉ b -> "."%byte ∉ c ->
  hashed_file (a ++ "."%byte :: b ++ "."%byte :: c) = (6 <=? length b) && forallb is_hex b.
Proof.
  intros Hb Hc. unfold hashed_file. set (f := a ++ "."%byte :: b ++ "."%byte :: c).
  assert (Ef : f = (a ++ "."%byte :: b) ++ "."%byte :: c) by (unfold f; by rewrite <- app_assoc).
  assert (HL : length (a ++ "."%byte :: b) = S (length a + length b)) by (rewrite length_app; simpl; lia).
  assert (Hlast : after_last "."%byte f (length f) = S (S (length a + length b))) by (by rewrite Ef, after_last_app, HL).
  assert (Hprev : after_last "."%byte f (S (length a + length b)) = S (length a)).
  { rewrite after_last_take by (rewrite Ef, length_app, HL; lia). rewrite Ef, take_app_length' by done. by apply after_last_app. }
  rewrite Hlast, Hprev. replace (take _ (drop _ _)) with b; [done|]. unfold f.
  rewrite cons_middle, app_assoc, drop_app_length' by (rewrite length_app; simpl; lia).
  rewrite take_app_length'; [done|]. lia.
Qed.

Lemma forallb_Forall_true {A} (f : A -> bool) l : forallb f l = true <-> Forall (fun x => f x = true) l.
Proof. induction l as [|x l IH]; simpl; [done|]. by rewrite andb_true_iff, Forall_cons, IH. Qed.

Lemma hashed_file_iff f :
  hashed_file f = true <->
  exists name hash ext, f = name ++ "."%byte :: hash ++ "."%byte :: ext /\ "."%byte ∉ ext /\ 6 ≤ length hash
    /\ Forall (fun c => is_hex c = true) hash.
Proof.
  split.
  - destruct (last_split "."%byte f) as [Hn|(a & ext & -> & He)].
    { unfold hashed_file. by rewrite after_last_none. }
    destruct (last_split "."%byte a) as [Hn|(name & hash & -> & Hh)].
    + unfold hashed_file. rewrite after_last_app by done. destruct (length a) as [|n] eqn:El; [done|]. rewrite <- El.
      rewrite after_last_take by (rewrite length_app; lia). rewrite take_app_length. by rewrite after_last_none.
    + rewrite <- app_assoc. simpl. rewrite hashed_file_split by done. rewrite andb_true_iff, Nat.leb_le. intros [H6 Hx].
      exists name, hash, ext. split_and!; auto. by apply forallb_Forall_true.
  - intros (name & hash & ext & -> & He & H6 & Hx). destruct (hex_plain hash Hx) as [Hd _]. rewrite hashed_file_split by done.
    rewrite andb_true_iff, Nat.leb_le. split; [done|]. by apply forallb_Forall_true.
Qed.

Lemma hashed_asset_iff p n :
  n ≠ 0 -> n ≤ length p -> ioh_spa_is_hashed_asset (Some p) n = true <-> hashed_name (take n p).
Proof.
  intros H0 Hn. unfold ioh_spa_is_hashed_asset. replace (n =? 0) with false by (symmetry; by apply Nat.eqb_neq).
  rewrite hashed_file_iff. destruct (filename_spec p n Hn) as (dir & -> & Hs & Hd). split.
  - intros (name & hash & ext & E & He & H6 & Hx). rewrite E in Hs. rewrite not_elem_of_app, not_elem_of_cons, not_elem_of_app, not_elem_of_cons in Hs.
    exists dir, name, hash, ext. rewrite E. tauto.
  - intros (dir' & name & hash & ext & E & Hd' & Hsn & Hse & He & H6 & Hx). exists name, hash, ext. split_and!; auto.
    assert (Hs' : SLASH ∉ name ++ "."%byte :: hash ++ "."%byte :: ext).
    { destruct (hex_plain hash Hx) as [_ ?]. rewrite not_elem_of_app, not_elem_of_cons, not_elem_of_app, not_elem_of_cons. done. }
    by eapply (directory_unique dir dir').
Qed.

Lemma api_loop_iff prefixes p n :
  n ≤ length p -> NUL ∉ take n p -> Forall (fun x => NUL ∉ x /\ length x ≤ IOH_MAX_URI_SIZE) prefixes ->
  api_loop prefixes p n = true <-> exists x, x ∈ prefixes /\ x `prefix_of` take n p.
Proof.
  intros Hn Hnul Hf. induction Hf as [|x xs [Hx Hxl] _ IH].
  { simpl. split; [done|]. by intros (x & ?%not_elem_of_nil & _). }
  cbn [api_loop]. rewrite strnlen_id by done.
  assert (Hhead : (length x <=? n) && strncmp_eq p x (length x) = true <-> x `prefix_of` take n p).
  { unfold strncmp_eq. rewrite andb_true_iff, Nat.leb_le, bytes_eqb_true, (strndup_plain x), firstn_all by done.
    unfold strndup.
    assert (Ht : length x ≤ n -> take (length x) (take n p) = take (length x) p) by (intros; rewrite take_take; f_equal; lia). split.
    - intros [Hl E]. specialize (Ht Hl). rewrite c_str_take in E.
      + exists (drop (length x) (take n p)). rewrite <- E at 1. by rewrite <- Ht, take_drop.
      + intros Hin. apply Hnul. rewrite <- (take_drop (length x) (take n p)), Ht. apply elem_of_app. by left.
    - intros [k E]. pose proof (f_equal length E) as Hl. rewrite length_take, length_app in Hl. split; [lia|].
      specialize (Ht ltac:(lia)). rewrite E, take_app_length in Ht. rewrite c_str_take; [done|]. by rewrite <- Ht. }
  destruct (_ && _).
  - split; [intros _|done]. exists x. split; [apply elem_of_cons; by left|by apply Hhead].
  - rewrite IH. split; intros (y & Hy & Hp); (exists y; split; [|done]); [apply elem_of_cons; by right|].
    apply elem_of_cons in Hy as [->|?]; [|done]. by apply Hhead in Hp.
Qed.

Lemma serve_cached_found fs scfg req root p file st content v r :
  found fs scfg req root p file st content -> unconditional req -> NUL ∉ v -> length v ≤ IOH_MAX_HEADER_SIZE ->
  response_ok r -> (Z.of_nat (length (r_headers r)) + 8 < 2 ^ 31)%Z ->
  exists r', serve_cached fs scfg req (Some v) [] r = Some (Ok (), r', []) /\ response_ok r'
    /\ values (bs "Cache-Control") r' = v :: tail (values (bs "Cache-Control") r)
    /\ r_status r' = (match wanted_range req (st_size st) with Some _ => 206 | None => 200 end)%Z
    /\ let '(start, len) := range_bounds (wanted_range req (st_size st)) (st_size st) in body_text r' = slice content start len.
Proof.
  intros Hfo Hu Hv Hvl Hr Hl. destruct (serve_found fs scfg req root p file st content r Hfo Hu Hr ltac:(lia)) as (r1 & E & Hr1 & Hc & Hcar).
  unfold serve_cached. rewrite E. pose proof (cs_memory _ _ _ _ _ _ _ _ Hc eq_refl) as Hm. pose proof (cs_status _ _ _ _ _ _ _ _ Hc) as Hst.
  destruct (range_bounds _ _) as [start len]. destruct Hm as [Hb Hh].
  assert (Hl1 : (Z.of_nat (length (r_headers r1)) + 1 < 2 ^ 31)%Z).
  { rewrite Hh. match goal with |- context [set_all ?q ?hs] => pose proof (set_all_length q hs) end.
    pose proof (file_policy_length scfg (tag_of scfg st) st (ioh_mime_type (path req) (path_len req)) (wanted_range req (st_size st)) (slice content start len)). lia. }
  destruct (replies_put (bs "Cache-Control") v r1 [] Hr1) as (r2 & h2 & E2 & Hr2 & Hs2 & _ & Hm2); [simpl; lia|].
  destruct (Hm2 eq_refl) as [-> Hh2]. exists r2. unfold done_with. rewrite E2. pose proof (body_text_same _ _ Hs2) as Hb2.
  destruct Hs2 as [Hst2 _]. split_and!; [done|done| |congruence|congruence].
  unfold values. rewrite Hh2. unfold set_all, set_one. simpl. rewrite (c_str_plain v) by done.
  rewrite set_spec_values; [|apply ok_headers, Hr1|bcompute|nle|done|done]. rewrite decide_True by done. f_equal.
  fold (values (bs "Cache-Control") r1). destruct Hcar as [Hcar _]. erewrite Hcar; [done|].
  unfold file_policy. rewrite !elem_of_app, !list_elem_of_singleton. auto 10.
Qed.

Definition index_path (cfg : ioh_spa_config_t) : bytes := SLASH :: c_str (default (bs "index.html") (index_file cfg)).
Definition immutable_text (cfg : ioh_spa_config_t) : bytes := bs "public, max-age=" ++ print_dec (max_age_immutable cfg) ++ bs ", immutable".

(** The request names a regular file under the root directory. *)
Definition file_exists (fs : file_system) (root p : bytes) (n : nat) : Prop :=
  exists st, stat fs (c_str root ++ strndup p n) = Some st /\ st_reg st = true.

Lemma file_exists_test fs root p n :
  match stat fs (c_str root ++ strndup p n) with Some st => st_reg st | None => false end = true <-> file_exists fs root p n.
Proof.
  unfold file_exists. destruct (stat fs _) as [st|]; split; try done; [eauto| |]; intros (st' & Hst & ?); by simplify_eq.
Qed.

Lemma filename_last p n : n ≤ length p -> last (split_slash (take n p)) = Some (filename p n).
Proof.
  intros Hn. destruct (filename_spec p n Hn) as (dir & E & Hs & Hd). rewrite E.
  assert (Hf : split_slash (filename p n) = [filename p n]).
  { apply split_slash_plain, Forall_forall. intros b Hb. apply not_slash_true. by intros ->. }
  destruct Hd as [->|[d ->]%last_Some]; [simpl; by rewrite Hf|].
  rewrite <- app_assoc. simpl app. by rewrite split_slash_app, Hf, last_snoc.
Qed.

Lemma has_extension_iff p n :
  n ≤ length p -> has_extension p n = true <-> exists s, last (split_slash (take n p)) = Some s /\ "."%byte ∈ s.
Proof.
  intros Hn. rewrite (filename_last p n Hn). unfold has_extension. rewrite existsb_exists. split.
  - intros (b & Hb & Eb). bprop. subst. exists (filename p n). split; [done|]. by apply list_elem_of_In.
  - intros (s & [= <-] & Hs). exists "."%byte. split; [by apply list_elem_of_In|apply beq_refl].
Qed.

(** A request a single-page application can be asked. *)
Record spa_request (cfg : ioh_spa_config_t) (req : ioh_request_t) (root p : bytes) : Prop := {
  sr_root : spa_root_dir cfg = Some root;
  sr_path : path req = Some p;
  sr_pos : path_len req ≠ 0;
  sr_len : path_len req ≤ length p;
  sr_nul : NUL ∉ take (path_len req) p;
  sr_fits : length (c_str root ++ strndup p (path_len req)) < PATH_MAX;
  sr_index : length (index_path cfg) < PATH_MAX;
  sr_prefixes : Forall (fun x => NUL ∉ x /\ length x ≤ IOH_MAX_URI_SIZE) (api_prefixes cfg);
  sr_age : (0 <= max_age_immutable cfg < 2 ^ 32)%Z;
}.

Lemma immutable_plain cfg : (0 <= max_age_immutable cfg < 2 ^ 32)%Z ->
  cut 80 (immutable_text cfg) = immutable_text cfg /\ NUL ∉ immutable_text cfg /\ length (immutable_text cfg) ≤ IOH_MAX_HEADER_SIZE.
Proof.
  intros Ha. destruct (dec_text (max_age_immutable cfg) ltac:(lia)) as [N L]. unfold immutable_text.
  assert (Hl : length (bs "public, max-age=" ++ print_dec (max_age_immutable cfg) ++ bs ", immutable") ≤ 79)
    by (rewrite !length_app; simpl; lia).
  split; [unfold cut; by apply take_ge|]. split; [|assert (79 ≤ IOH_MAX_HEADER_SIZE) by nle; lia].
  rewrite !not_elem_of_app. split_and!; [bcompute|done|bcompute].
Qed.

(** The fallback of a single-page application.  A path under one of the API prefixes is
    refused with [ENOENT].  Any other path that names a file is served as that file, and
    marked immutable for a year or whatever is configured when the name has the form
    [name.HASH.ext] with at least six hexadecimal digits.  A path that names no file is
    refused when its last segment has a dot, and otherwise answered by the index page,
    with [Cache-Control: no-cache]. *)
Theorem spa_fallback fs cfg req root p r :
  spa_request cfg req root p -> response_ok r -> (Z.of_nat (length (r_headers r)) + 8 < 2 ^ 31)%Z ->
  let target := take (path_len req) p in
  let is_api := exists x, x ∈ api_prefixes cfg /\ x `prefix_of` target in
  let has_dot := exists s, last (split_slash target) = Some s /\ "."%byte ∈ s in
  let serve := ioh_spa_serve fs cfg req [] r in
  (is_api -> serve = Some (Err ENOENT, r, []))
  /\ (~ is_api -> file_exists fs root p (path_len req) ->
      forall file st content, found fs (static_config (Some root) (spa_max_age_default cfg)) req root p file st content ->
      unconditional req -> hashed_name target ->
      exists r', serve = Some (Ok (), r', []) /\ response_ok r'
        /\ values (bs "Cache-Control") r' = immutable_text cfg :: tail (values (bs "Cache-Control") r)
        /\ let '(start, len) := range_bounds (wanted_range req (st_size st)) (st_size st) in body_text r' = slice content start len)
  /\ (~ is_api -> ~ file_exists fs root p (path_len req) -> has_dot -> serve = Some (Err ENOENT, r, []))
  /\ (~ is_api -> ~ file_exists fs root p (path_len req) -> ~ has_dot ->
      forall file st content, found fs (static_config (Some root) 3600) (index_request req (index_path cfg)) root (index_path cfg) file st content ->
      exists r', serve = Some (Ok (), r', []) /\ response_ok r' /\ r_status r' = 200%Z /\ body_text r' = content
        /\ values (bs "Cache-Control") r' = bs "no-cache" :: tail (values (bs "Cache-Control") r)).
Proof.
  intros [Hroot Hpath Hpos Hlen Hnul Hfits Hidx Hpre Hage] Hr Hl. cbv zeta. unfold ioh_spa_serve. rewrite Hroot, Hpath.
  replace (path_len req =? 0) with false by (symmetry; by apply Nat.eqb_neq).
  replace (PATH_MAX <=? length (c_str root ++ _)) with false by (symmetry; by apply Nat.leb_gt).
  fold (index_path cfg). replace (PATH_MAX <=? length (index_path cfg)) with false by (symmetry; by apply Nat.leb_gt).
  pose proof (api_loop_iff _ p _ Hlen Hnul Hpre) as Hapi. fold (is_api_path cfg p (path_len req)) in Hapi.
  pose proof (file_exists_test fs root p (path_len req)) as Hex. pose proof (has_extension_iff p _ Hlen) as Hext.
  destruct (is_api_path cfg p (path_len req)).
  { split_and!; [done|intros []; by apply Hapi..]. }
  split; [intros H; by apply Hapi in H|].
  destruct (match stat fs _ with Some _ => _ | None => _ end).
  - split_and!; [|intros _ []; by apply Hex..]. intros _ _ file st content Hfo Hu Hh.
    destruct (hashed_asset_iff p (path_len req) Hpos Hlen) as [_ Ha]. rewrite (Ha Hh). fold (immutable_text cfg).
    destruct (immutable_plain cfg Hage) as (-> & Hn & Hil).
    destruct (serve_cached_found _ _ req root p file st content _ r Hfo Hu Hn Hil Hr Hl) as (r' & E & Hr' & Hcc & _ & Hb). eauto.
  - split; [intros _ H; by apply Hex in H|]. destruct (has_extension p (path_len req)).
    + split; [done|]. intros _ _ []; by apply Hext.
    + split; [intros _ _ H; by apply Hext in H|]. intros _ _ _ file st content Hfo.
      destruct (serve_cached_found _ _ _ root _ file st content (bs "no-cache") r Hfo) as (r' & E & Hr' & Hcc & Hst & Hb);
        [done|bcompute|nle|done|done|].
      exists r'. change (wanted_range (index_request req (index_path cfg)) (st_size st)) with (if (0 <? st_size st)%Z then None (A := Z * Z) else None) in *.
      replace (if (0 <? st_size st)%Z then None else None) with (@None (Z * Z)) in * by (by destruct (0 <? st_size st)%Z).
      rewrite (fo_size _ _ _ _ _ _ _ _ Hfo) in Hb. simpl in Hb. rewrite slice_all in Hb. auto.
Qed.

(** ** Concrete requests *)

Definition demo_root : bytes := bs "/srv/www".
Definition demo_files : list (bytes * bytes) :=
  [(bs "/srv/www/index.html", bs "<html>"); (bs "/srv/www/app.1a2b3c.js", bs "0123456789")].
Definition demo_mtime : Z := 784111777.

Fixpoint lookup_file (files : list (bytes * bytes)) (p : bytes) : option bytes :=
  match files with
  | [] => None
  | (n, c) :: files => if bytes_eqb n p then Some c else lookup_file files p
  end.

Definition demo_fs : file_system :=
  mk_fs (fun p => if bytes_eqb p demo_root then Some demo_root else (fun _ => p) <$> lookup_file demo_files p)
    (fun p => (fun c => mk_stat false true (Z.of_nat (length c)) demo_mtime) <$> lookup_file demo_files p)
    (lookup_file demo_files) (fun _ => true).

Definition demo_static : ioh_static_config_t := mk_static (Some demo_root) false true 3600.
Definition demo_spa : ioh_spa_config_t := mk_spa (Some demo_root) (Some (bs "index.html")) [bs "/api/"] 3600 31536000.

Definition demo_get (p : bytes) (hs : list (bytes * bytes)) : ioh_request_t :=
  mk_request IOH_METHOD_GET (Some p) (length p) None 0
    ((fun h => mk_header (fst h) (length (fst h)) (snd h) (length (snd h))) <$> hs) None 0 [] 1 1 true 0 None None.

Lemma lookup_file_length p c : lookup_file demo_files p = Some c -> NUL ∉ p /\ length p < PATH_MAX /\ length c ≤ 10.
Proof.
  assert (Hd : Forall (fun f => NUL ∉ fst f /\ length (fst f) < PATH_MAX /\ length (snd f) ≤ 10) demo_files).
  { constructor; [|constructor; [|constructor]]; (split; [bcompute|split; nle]). }
  induction Hd as [|[n x] fs H _ IH]; simpl; [done|]. destruct (bytes_eqb n p) eqn:E; [|done].
  apply bytes_eqb_true in E as ->. intros [= <-]. done.
Qed.

Lemma demo_fs_ok : fs_ok demo_fs.
Proof.
  split; cbn [realpath stat demo_fs].
  - intros p q. destruct (bytes_eqb p demo_root); [intros [= <-]; split; [bcompute|nle]|].
    destruct (lookup_file demo_files p) eqn:E; intros Hq; simplify_eq/=. apply lookup_file_length in E. tauto.
  - intros p st. destruct (lookup_file demo_files p) eqn:E; intros Hs; simplify_eq/=. apply lookup_file_length in E. lia.
Qed.

Lemma demo_found req age :
  path req = Some (bs "/app.1a2b3c.js") -> path_len req = 14 ->
  found demo_fs (static_config (Some demo_root) age) req demo_root (bs "/app.1a2b3c.js") (bs "/srv/www/app.1a2b3c.js")
    (mk_stat false true 10 demo_mtime) (bs "0123456789").
Proof. intros Hp Hl. split; rewrite ?Hl; try done; vm_compute; reflexivity. Qed.

Lemma demo_room : (Z.of_nat (length (r_headers demo_response)) + 8 < 2 ^ 31)%Z.
Proof. vm_compute. reflexivity. Qed.

Lemma static_serve_confined_witness :
  exists rc r' h', ioh_static_serve demo_fs demo_static (demo_get (bs "/index.html") []) [true] demo_response = Some (rc, r', h')
    /\ response_ok r' /\ confined demo_fs demo_static (demo_get (bs "/index.html") []) [true] demo_response rc r'.
Proof.
  apply static_serve_confined; [apply demo_fs_ok|apply demo_response_ok|pose proof demo_room; lia|].
  simpl. intros p [= <-]. nle.
Defined.

Lemma static_ranges_exact_witness :
  exists r', ioh_static_serve demo_fs demo_static (demo_get (bs "/app.1a2b3c.js") [(bs "Range", bs "bytes=2-4")]) [] demo_response
      = Some (Ok (), r', []) /\ r_status r' = 206%Z /\ body_text r' = bs "234".
Proof.
  destruct (static_ranges_exact demo_fs demo_static (demo_get (bs "/app.1a2b3c.js") [(bs "Range", bs "bytes=2-4")]) demo_root
    (bs "/app.1a2b3c.js") (bs "/srv/www/app.1a2b3c.js") (mk_stat false true 10 demo_mtime) (bs "0123456789") (FromTo 2 4) [] demo_response)
    as (r' & E & _ & H).
  - by apply (demo_found _ 3600).
  - split; vm_compute; reflexivity.
  - discriminate.
  - vm_compute. reflexivity.
  - unfold range_ok, int64. split; [lia|]. split; [lia|reflexivity].
  - apply demo_response_ok.
  - pose proof demo_room. lia.
  - exists r'. split; [exact E|]. destruct H as (Hs & Hb & _). split; [exact Hs|]. rewrite Hb. vm_compute. reflexivity.
Defined.

Lemma static_revalidation_witness :
  exists r' tag date, ioh_static_serve demo_fs demo_static (demo_get (bs "/app.1a2b3c.js") []) [] demo_response = Some (Ok (), r', [])
    /\ values (bs "ETag") r' = [tag] /\ values (bs "Last-Modified") r' = [date]
    /\ answers_304 demo_fs demo_static (demo_get (bs "/app.1a2b3c.js") [(bs "If-None-Match", tag)]) demo_response
    /\ answers_304 demo_fs demo_static (demo_get (bs "/app.1a2b3c.js") [(bs "If-Modified-Since", date)]) demo_response.
Proof.
  destruct (static_revalidation demo_fs demo_static (demo_get (bs "/app.1a2b3c.js") []) demo_root
    (bs "/app.1a2b3c.js") (bs "/srv/www/app.1a2b3c.js") (mk_stat false true 10 demo_mtime) (bs "0123456789") demo_response)
    as (r' & tag & date & E & Ht & Hd & H).
  - by apply (demo_found _ 3600).
  - split; vm_compute; reflexivity.
  - reflexivity.
  - simpl. unfold demo_mtime. lia.
  - apply demo_response_ok.
  - pose proof demo_room. lia.
  - exists r', tag, date. assert (Hval : r' = r') by reflexivity. 
    vm_compute in E. injection E as <-. vm_compute in Ht. injection Ht as <-. vm_compute in Hd. injection Hd as <-.
    split; [vm_compute; reflexivity|]. split; [vm_compute; reflexivity|]. split; [vm_compute; reflexivity|].
    split.
    + destruct (H demo_fs (demo_get (bs "/app.1a2b3c.js") [(bs "If-None-Match", etag_text demo_mtime 10)])
        (bs "/srv/www/app.1a2b3c.js") (mk_stat false true 10 demo_mtime) demo_response) as [H1 _];
        [vm_compute; reflexivity..|simpl; lia|simpl; unfold demo_mtime; lia|apply demo_response_ok|pose proof demo_room; lia|].
      apply (H1 (etag_text demo_mtime 10)); vm_compute; auto.
    + destruct (H demo_fs (demo_get (bs "/app.1a2b3c.js") [(bs "If-Modified-Since", bs "Sun, 06 Nov 1994 08:49:37 GMT")])
        (bs "/srv/www/app.1a2b3c.js") (mk_stat false true 10 demo_mtime) demo_response) as [_ H2];
        [vm_compute; reflexivity..|simpl; lia|simpl; unfold demo_mtime; lia|apply demo_response_ok|pose proof demo_room; lia|].
      apply (H2 []); [vm_compute; reflexivity|vm_compute; reflexivity|simpl; lia].
Defined.

Lemma spa_fallback_witness :
  exists r', ioh_spa_serve demo_fs demo_spa (demo_get (bs "/users/42") []) [] demo_response = Some (Ok (), r', [])
    /\ body_text r' = bs "<html>" /\ values (bs "Cache-Control") r' = [bs "no-cache"].
Proof.
  destruct (spa_fallback demo_fs demo_spa (demo_get (bs "/users/42") []) demo_root (bs "/users/42") demo_response) as (_ & _ & _ & H).
  - split; first [reflexivity|nle|bcompute].
  - apply demo_response_ok.
  - apply demo_room.
  - destruct (H) with (file := bs "/srv/www/index.html") (st := mk_stat false true 6 demo_mtime) (content := bs "<html>")
      as (r' & E & _ & _ & Hb & Hc).
    + intros (x & Hx & Hp). apply list_elem_of_singleton in Hx as ->. revert Hp. bcompute.
    + intros (st & Hst & _). vm_compute in Hst. discriminate.
    + intros (s & Hs & Hd). vm_compute in Hs. injection Hs as <-. revert Hd. bcompute.
    + split; try discriminate; vm_compute; reflexivity.
    + exists r'. split; [exact E|]. split; [exact Hb|]. rewrite Hc. vm_compute. reflexivity.
Defined.

(** A header value of a parsed request points into the receive buffer and is not
    terminated: the tag is compared with all that follows, so the unchanged file is sent
    again; and an open-ended range is not recognised before the line end. *)
Example parsed_tag_not_recognised :
  none_match (demo_get (bs "/app.1a2b3c.js") [(bs "If-None-Match", etag_text demo_mtime 10 ++ [CR; LF] ++ bs "Host: x")])
    (etag_text demo_mtime 10) = false
  /\ wanted_range (demo_get (bs "/app.1a2b3c.js") [(bs "Range", bs "bytes=5-" ++ [CR; LF] ++ bs "Host: x")]) 10 = None
  /\ wanted_range (demo_get (bs "/app.1a2b3c.js") [(bs "Range", bs "bytes=5-")]) 10 = Some (5, 9)%Z.
Proof. vm_compute. auto. Qed.

(** With the root directory [/] the check for a real subdirectory fails for every file. *)
Example root_slash_serves_nothing :
  locate (mk_fs (fun p => if bytes_eqb p (bs "/") then Some (bs "/") else Some (bs "/motd"))
            (fun _ => Some (mk_stat false true 5 0)) (fun _ => None) (fun _ => true))
    (bs "/") (bs "/motd") 5 = Err EACCES.
Proof. vm_compute. reflexivity. Qed.
