(* ===== verification/Multipart.v ===== *)
(** Multipart bodies ([src/src/http/ioh_multipart.h], [ioh_multipart.c]): the boundary of
    a Content-Type, the parts of a body and the headers of a part.

    The parser copies nothing: a reported string is a pointer into the body (the bytes
    from there to the end of the body) and a length.  The rest of the body behind a
    position is a list, whose length is the source's [remain]. *)
From S2P Require Import Prelude CString.

(** ** Data *)

Record ioh_multipart_part_t := mk_part {
  mp_name : option bytes; mp_name_len : nat;
  mp_filename : option bytes; mp_filename_len : nat;
  mp_content_type : option bytes; mp_content_type_len : nat;
  mp_data : bytes; mp_data_len : nat;
}.

Record ioh_multipart_config_t := mk_mp_config {
  max_parts : nat; max_part_size : nat; max_total_size : nat;
}.

Definition ioh_multipart_config_init : ioh_multipart_config_t :=
  mk_mp_config 64 (Z.to_nat (10 * 1024 * 1024)) (Z.to_nat (50 * 1024 * 1024)).

Definition set_mp_name (p : ioh_multipart_part_t) (v : option (bytes * nat)) : ioh_multipart_part_t :=
  match v with
  | Some (s, n) => mk_part (Some s) n (mp_filename p) (mp_filename_len p) (mp_content_type p) (mp_content_type_len p)
                     (mp_data p) (mp_data_len p)
  | None => p
  end.
Definition set_mp_filename (p : ioh_multipart_part_t) (v : option (bytes * nat)) : ioh_multipart_part_t :=
  match v with
  | Some (s, n) => mk_part (mp_name p) (mp_name_len p) (Some s) n (mp_content_type p) (mp_content_type_len p)
                     (mp_data p) (mp_data_len p)
  | None => p
  end.
Definition set_mp_type (p : ioh_multipart_part_t) (s : bytes) (n : nat) : ioh_multipart_part_t :=
  mk_part (mp_name p) (mp_name_len p) (mp_filename p) (mp_filename_len p) (Some s) n (mp_data p) (mp_data_len p).

(** ** Searching *)

(** The first of [n] successive positions that passes the test. *)
Fixpoint scan (test : bytes -> bool) (n : nat) (p : bytes) : option nat :=
  match n with
  | O => None
  | S n => if test p then Some 0 else S <$> scan test n (drop 1 p)
  end.

Definition ci_prefix (str : bytes) (str_len : nat) (prefix : bytes) : bool :=
  if str_len <? length prefix then false
  else bytes_eqb (to_lower <$> take (length prefix) str) (to_lower <$> prefix).

Definition find_bytes (haystack needle : bytes) : option nat :=
  if length needle =? 0 then Some 0 else
  if length haystack <? length needle then None
  else scan (fun q => memcmp_eq q needle (length needle)) (S (length haystack - length needle)) haystack.

(** ** Header parameters *)

Definition is_blank (b : byte) : bool := (b =b SP) || (b =b HT).

(** The byte does not end an unquoted value. *)
Definition unquoted (b : byte) : bool :=
  negb (b =b ";"%byte) && negb (b =b SP) && negb (b =b HT) && negb (b =b CR) && negb (b =b LF).

(** The value's pointer and length.  The source's loop returns in its first turn. *)
Definition extract_param (str : bytes) (str_len : nat) (key : bytes) : option (bytes * nat) :=
  let s := take str_len str in
  match scan (fun q => ci_prefix q (length q) key) (S (length s) - length key) s with
  | None => None
  | Some i =>
      let v := drop (i + length key) s in
      match v with
      | [] => None
      | b :: v' =>
          if b =b DQUOTE
          then Some (drop (S (i + length key)) str, length (fst (span (fun b => negb (b =b DQUOTE)) v')))
          else Some (drop (i + length key) str, length (fst (span unquoted v)))
      end
  end.

(** ** Part headers *)

Definition crlf_at (q : bytes) : bool :=
  match q with a :: b :: _ => (a =b CR) && (b =b LF) | _ => false end.

(** The end of the first line: its CRLF, or the last byte when it has none. *)
Definition line_end (h : bytes) : nat := default (length h - 1) (scan crlf_at (length h - 1) h).

(** Skip blanks at the start of a value of the given length. *)
Definition skip_blanks_at (val : bytes) (val_len : nat) : bytes * nat :=
  let n := length (fst (span is_blank (take val_len val))) in (drop n val, val_len - n).

(** Drop blanks from the end. *)
Fixpoint trim_end (val : bytes) (val_len : nat) : nat :=
  match val_len with
  | O => O
  | S n => if is_blank (char_at val n) then trim_end val n else S n
  end.

Definition DISPOSITION : bytes := bs "content-disposition:".
Definition CONTENT_TYPE : bytes := bs "content-type:".

(** The effect of one header line on the part, and whether it is the disposition. *)
Definition part_header (p : bytes) (line_len : nat) (part : ioh_multipart_part_t) : ioh_multipart_part_t * bool :=
  let '(part, found) :=
    if ci_prefix p line_len DISPOSITION then
      let '(val, val_len) := skip_blanks_at (drop (length DISPOSITION) p) (line_len - length DISPOSITION) in
      let part := set_mp_name part (extract_param val val_len (bs "name=")) in
      (set_mp_filename part (extract_param val val_len (bs "filename=")), true)
    else (part, false) in
  let part :=
    if ci_prefix p line_len CONTENT_TYPE then
      let '(val, val_len) := skip_blanks_at (drop (length CONTENT_TYPE) p) (line_len - length CONTENT_TYPE) in
      set_mp_type part val (trim_end val val_len)
    else part in
  (part, found).

(** The lines of [headers], [len] bytes of them left.  Every turn but the last one
    consumes a CRLF. *)
Fixpoint header_lines (fuel : nat) (p : bytes) (len : nat) (part : ioh_multipart_part_t) (found : bool)
    : ioh_multipart_part_t * bool :=
  match fuel with
  | O => (part, found)
  | S fuel =>
      if len =? 0 then (part, found) else
      let n := line_end (take len p) in
      let '(part, f) := part_header p n part in
      let found := f || found in
      if crlf_at (take (len - n) (drop n p)) then header_lines fuel (drop (n + 2) p) (len - (n + 2)) part found
      else (part, found)
  end.

Definition parse_part_headers (headers : bytes) (headers_len : nat) (part : ioh_multipart_part_t)
    : ioh_multipart_part_t * res unit :=
  let '(part, found) := header_lines (S headers_len) headers headers_len part false in
  (part, if found then Ok tt else Err EINVAL).

(** ** Boundary and body *)

(** The boundary's pointer and length. *)
Definition ioh_multipart_boundary (content_type : option bytes) : res (bytes * nat) :=
  match content_type with
  | None => Err EINVAL
  | Some ct =>
      if negb (ci_prefix ct (strlen ct) (bs "multipart/form-data")) then Err EINVAL else
      match extract_param ct (strlen ct) (bs "boundary=") with
      | None => Err EINVAL
      | Some (b, n) => if n =? 0 then Err EINVAL else Ok (b, n)
      end
  end.

Definition SEPARATOR : bytes := [CR; LF; CR; LF].
Definition dashes_at (q : bytes) : bool :=
  match q with a :: b :: _ => (a =b "-"%byte) && (b =b "-"%byte) | _ => false end.

(** The length of a part's data without the line end before the delimiter. *)
Definition strip_crlf (data : bytes) (data_len : nat) : nat :=
  if (2 <=? data_len) && crlf_at (drop (data_len - 2) data) then data_len - 2 else data_len.

(** The loop over the parts: the result and the parts stored, [parts] being those
    before. *)
Fixpoint part_loop (fuel : nat) (delim : bytes) (cfg : ioh_multipart_config_t) (room : nat) (pos : bytes)
    (total_data : nat) (parts : list ioh_multipart_part_t) : option (res unit * list ioh_multipart_part_t) :=
  match fuel with
  | O => None
  | S fuel =>
      if length pos =? 0 then Some (Ok tt, parts) else
      match find_bytes pos SEPARATOR with
      | None => Some (Err EINVAL, parts)
      | Some headers_len =>
          let data_start := drop (headers_len + 4) pos in
          match find_bytes data_start delim with
          | None => Some (Err EINVAL, parts)
          | Some n =>
              let data_len := strip_crlf data_start n in
              if max_part_size cfg <? data_len then Some (Err E2BIG, parts) else
              let total_data := total_data + data_len in
              if max_total_size cfg <? total_data then Some (Err E2BIG, parts) else
              if (room <=? length parts) || (max_parts cfg <=? length parts) then Some (Err E2BIG, parts) else
              match parse_part_headers pos headers_len (mk_part None 0 None 0 None 0 data_start data_len) with
              | (_, Err e) => Some (Err e, parts)
              | (part, Ok _) =>
                  let parts := parts ++ [part] in
                  let pos := drop (n + length delim) data_start in
                  if dashes_at pos then Some (Ok tt, parts) else
                  if negb (crlf_at pos) then Some (Err EINVAL, parts)
                  else part_loop fuel delim cfg room (drop 2 pos) total_data parts
              end
          end
      end
  end.

(** The result, and the parts stored with [*part_count] set to their number ([None]
    when the call leaves both alone); [room] is the capacity the caller gave.  The
    outer [None] would be fuel run out. *)
Definition ioh_multipart_parse (body boundary : option bytes) (cfg : ioh_multipart_config_t) (room : nat)
    : option (res unit * option (list ioh_multipart_part_t)) :=
  match body, boundary with
  | Some body, Some boundary =>
      if max_total_size cfg <? length body then Some (Err E2BIG, None) else
      if length body =? 0 then Some (Ok tt, Some []) else
      if 256 <? length boundary then Some (Err EINVAL, Some []) else
      let delim := bs "--" ++ boundary in
      match find_bytes body delim with
      | None => Some (Err EINVAL, Some [])
      | Some i =>
          let pos := drop (i + length delim) body in
          if length pos <? 2 then Some (Err EINVAL, Some []) else
          if dashes_at pos then Some (Ok tt, Some []) else
          if negb (crlf_at pos) then Some (Err EINVAL, Some []) else
          match part_loop (S (length body)) delim cfg room (drop 2 pos) 0 [] with
          | Some (rc, parts) => Some (rc, Some parts)
          | None => None
          end
      end
  | _, _ => Some (Err EINVAL, None)
  end.

(** ** Bounds *)

(** A reported string lies inside the body. *)
Definition inside (body s : bytes) (n : nat) : Prop := suffix s body /\ n ≤ length s.
Definition inside_opt (body : bytes) (s : option bytes) (n : nat) : Prop :=
  match s with Some s => inside body s n | None => True end.

Record part_ok (body : bytes) (part : ioh_multipart_part_t) : Prop := {
  po_name : inside_opt body (mp_name part) (mp_name_len part);
  po_filename : inside_opt body (mp_filename part) (mp_filename_len part);
  po_type : inside_opt body (mp_content_type part) (mp_content_type_len part);
  po_data : inside body (mp_data part) (mp_data_len part);
}.

Lemma suffix_drop (n : nat) (s : bytes) : suffix (drop n s) s.
Proof. exists (take n s). by rewrite take_drop. Qed.

#[export] Hint Resolve suffix_drop : iohttp.

Lemma inside_drop body s n m : suffix s body -> m ≤ length s - n -> inside body (drop n s) m.
Proof. intros Hs Hm. split; [etrans; [apply suffix_drop|done]|rewrite length_drop; lia]. Qed.

Lemma scan_lt test n p i : scan test n p = Some i -> i < n.
Proof.
  revert p i. induction n as [|n IH]; intros p i; simpl; [done|]. destruct (test p); [intros [= <-]; lia|].
  destruct (scan test n (drop 1 p)) as [j|] eqn:E; [|done]. intros [= <-]. apply IH in E. lia.
Qed.

Lemma find_bytes_le hay needle i : find_bytes hay needle = Some i -> i + length needle ≤ length hay.
Proof.
  unfold find_bytes. destruct (_ =? 0) eqn:E0; bprop; [intros [= <-]; lia|]. destruct (_ <? _) eqn:E1; bprop; [done|].
  intros H%scan_lt. lia.
Qed.

Lemma span_fst_length f l : length (fst (span f l)) ≤ length l.
Proof. rewrite <- (span_eq f l) at 2. rewrite length_app. lia. Qed.

Lemma extract_inside body str n key s m :
  suffix str body -> extract_param str n key = Some (s, m) -> inside body s m.
Proof.
  intros Hs. unfold extract_param. destruct (scan _ _ _) as [i|]; [|done].
  destruct (drop (i + length key) (take n str)) as [|b v] eqn:Ev; [done|].
  assert (Hl : S (length v) ≤ length str - (i + length key)).
  { change (S (length v)) with (length (b :: v)). rewrite <- Ev, length_drop, length_take. lia. }
  destruct (b =b DQUOTE).
  - intros [= <- <-]. apply inside_drop; [done|]. etrans; [apply span_fst_length|]. lia.
  - intros [= <- <-]. apply inside_drop; [done|]. etrans; [exact (span_fst_length unquoted (b :: v))|]. cbn [length]. lia.
Qed.

Lemma trim_end_le val n : trim_end val n ≤ n.
Proof. induction n as [|n IH]; simpl; [done|]. destruct (is_blank _); lia. Qed.

Lemma part_header_ok body p n part :
  suffix p body -> n ≤ length p -> part_ok body part -> part_ok body (fst (part_header p n part)).
Proof.
  intros Hp Hn Hk. unfold part_header, skip_blanks_at.
  assert (Hd : part_ok body (fst (if ci_prefix p n DISPOSITION then
    let '(val, val_len) := (drop (length (fst (span is_blank (take (n - length DISPOSITION) (drop (length DISPOSITION) p)))))
        (drop (length DISPOSITION) p),
       n - length DISPOSITION - length (fst (span is_blank (take (n - length DISPOSITION) (drop (length DISPOSITION) p))))) in
    let part := set_mp_name part (extract_param val val_len (bs "name=")) in
    (set_mp_filename part (extract_param val val_len (bs "filename=")), true) else (part, false)))).
  { destruct (ci_prefix _ _ _); [|done]. cbv zeta. cbn [fst].
    set (val := drop _ (drop _ p)). assert (Hv : suffix val body) by (do 2 (etrans; [apply suffix_drop|]); done).
    clearbody val. generalize (n - length DISPOSITION - length (fst (span is_blank (take (n - length DISPOSITION) (drop (length DISPOSITION) p))))).
    intros len. destruct Hk. unfold set_mp_name, set_mp_filename.
    destruct (extract_param val len (bs "name=")) as [[s1 m1]|] eqn:E1, (extract_param val len (bs "filename=")) as [[s2 m2]|] eqn:E2;
      split; simpl; try done; by eapply extract_inside. }
  destruct (if ci_prefix p n DISPOSITION then _ else _) as [part1 f]. cbn [fst] in *.
  destruct (ci_prefix p n CONTENT_TYPE) eqn:Ect; [|done]. destruct Hd. split; simpl; try done.
  rewrite drop_drop. apply inside_drop; [done|]. etrans; [apply trim_end_le|]. lia.
Qed.

Lemma line_end_le h : line_end h ≤ length h.
Proof. unfold line_end. destruct (scan _ _ _) as [i|] eqn:E; simpl; [apply scan_lt in E|]; lia. Qed.

Lemma header_lines_ok body fuel : forall p n part found,
  suffix p body -> n ≤ length p -> part_ok body part -> part_ok body (fst (header_lines fuel p n part found)).
Proof.
  induction fuel as [|fuel IH]; intros p n part found Hp Hn Hk; [done|]. cbn [header_lines].
  destruct (n =? 0); [done|]. pose proof (line_end_le (take n p)) as Hle. rewrite length_take in Hle.
  pose proof (part_header_ok body p (line_end (take n p)) part Hp ltac:(lia) Hk) as Hk'.
  destruct (part_header _ _ _) as [part' f]. destruct (crlf_at _); [|done]. apply IH; [|rewrite length_drop; lia|done].
  etrans; [apply suffix_drop|done].
Qed.

Lemma strip_crlf_le data n : strip_crlf data n ≤ n.
Proof. unfold strip_crlf. destruct (_ && _); lia. Qed.

Lemma crlf_at_length q : crlf_at q = true -> 2 ≤ length q.
Proof. destruct q as [|? [|? ?]]; simpl; [done|done|lia]. Qed.

(** What a run of the loop has stored. *)
Definition parts_ok (body : bytes) (cfg : ioh_multipart_config_t) (room : nat) (parts : list ioh_multipart_part_t) : Prop :=
  Forall (fun p => part_ok body p /\ mp_data_len p ≤ max_part_size cfg) parts
  /\ length parts ≤ room /\ length parts ≤ max_parts cfg.

Lemma part_loop_ok body delim cfg room fuel : forall pos total parts,
  suffix pos body -> length pos < fuel -> parts_ok body cfg room parts ->
  exists rc parts', part_loop fuel delim cfg room pos total parts = Some (rc, parts') /\ parts_ok body cfg room parts'.
Proof.
  induction fuel as [|fuel IH]; intros pos total parts Hp Hf Hk; [lia|]. cbn [part_loop].
  destruct (length pos =? 0); [by eexists _, _|]. destruct (find_bytes pos SEPARATOR) as [hl|] eqn:Eh; [|by eexists _, _].
  pose proof (find_bytes_le _ _ _ Eh) as Hhl. cbn [length SEPARATOR] in Hhl. set (ds := drop (hl + 4) pos).
  destruct (find_bytes ds delim) as [n|] eqn:En; [|by eexists _, _]. pose proof (find_bytes_le _ _ _ En) as Hn.
  pose proof (strip_crlf_le ds n) as Hs. destruct (_ <? strip_crlf ds n) eqn:E1; bprop; [by eexists _, _|].
  destruct (_ <? total + _); [by eexists _, _|]. destruct ((room <=? _) || _) eqn:E2; bprop; [by eexists _, _|].
  unfold parse_part_headers. set (p0 := mk_part None 0 None 0 None 0 ds (strip_crlf ds n)).
  assert (Hp0 : part_ok body p0).
  { split; simpl; try done. split; [|lia]. etrans; [apply suffix_drop|done]. }
  assert (Hdl : forall fu p q m found, mp_data_len (fst (header_lines fu p q m found)) = mp_data_len m).
  { clear. induction fu as [|fu IHf]; intros p q m found; [done|]. cbn [header_lines]. destruct (q =? 0); [done|].
    assert (Hh : mp_data_len (fst (part_header p (line_end (take q p)) m)) = mp_data_len m).
    { unfold part_header, set_mp_name, set_mp_filename. by repeat (case_match; simpl; simplify_eq). }
    destruct (part_header _ _ _) as [m' f]. simpl in Hh. destruct (crlf_at _); [rewrite IHf|]; done. }
  pose proof (header_lines_ok body (S hl) pos hl p0 false Hp ltac:(lia) Hp0) as Hk'. specialize (Hdl (S hl) pos hl p0 false).
  destruct (header_lines _ _ _ _ _) as [part found]. cbn [fst] in *. destruct found; [|by eexists _, _].
  destruct Hk as (Hall & Hr & Hm).
  assert (Hk2 : parts_ok body cfg room (parts ++ [part])).
  { split; [apply Forall_app; split; [done|constructor; [|constructor]; split; [done|rewrite Hdl; exact E1]]|].
    rewrite length_app. simpl. lia. }
  destruct (dashes_at _); [by eexists _, _|]. destruct (crlf_at _) eqn:Ec; cbn [negb]; [|by eexists _, _].
  apply crlf_at_length in Ec. rewrite length_drop in Ec. apply IH; [|subst ds; rewrite !length_drop in *; lia|done].
  do 3 (etrans; [apply suffix_drop|]). done.
Qed.

(** Any body parses to a result.  The parser ends on every body, with any boundary
    and limits; every string it reports (names, file names, types, data) lies inside
    the body, no part exceeds the size limit, and never more parts are stored than the
    caller's array and the configuration allow. *)
Theorem multipart_parse_safe body boundary cfg room :
  exists rc parts, ioh_multipart_parse (Some body) (Some boundary) cfg room = Some (rc, parts)
    /\ parts_ok body cfg room (default [] parts).
Proof.
  assert (H0 : parts_ok body cfg room []) by (split; [constructor|simpl; lia]). unfold ioh_multipart_parse.
  repeat (brk; [by eexists _, _|]). destruct (find_bytes _ _) as [i|]; [|by eexists _, _]. cbv zeta.
  repeat (brk; [by eexists _, _|]). set (pos := drop 2 _).
  destruct (part_loop_ok body (bs "--" ++ boundary) cfg room (S (length body)) pos 0 []) as (rc & parts & -> & Hk).
  - do 2 (etrans; [apply suffix_drop|]). done.
  - subst pos. rewrite !length_drop. lia.
  - done.
  - by exists rc, (Some parts).
Qed.

(** ** Round trip *)

(** Searching in a text cut at a byte the searched words do not hold. *)
Section Scan.
Context (P : bytes -> bool) (k : nat) (Hk : 0 < k).
Context (HP : forall w, P w = true -> length w = k).
Abbreviation test := (fun q => P (take k q)).
Abbreviation search := (fun l : bytes => scan (fun q => P (take k q)) (S (length l) - k) l).

Lemma scan_skip a c b :
  (forall w, P w = true -> c ∉ w) -> search a = None -> search (a ++ c :: b) = (fun i => length a + 1 + i) <$> search b.
Proof.
  intros Hc. induction a as [|x a IH]; intros Ha; cbn beta in *.
  - cbn [app length]. destruct (decide (k ≤ S (length b))).
    + replace (S (S (length b)) - k) with (S (S (length b) - k)) by lia. cbn [scan drop]; rewrite drop_0.
      destruct (P (take k (c :: b))) eqn:E; [|by destruct (scan _ _ b)].
      apply Hc in E. destruct E. destruct k; [lia|]. simpl. left.
    + replace (S (S (length b)) - k) with 0 by lia. by replace (S (length b) - k) with 0 by lia.
  - cbn [app length] in *. rewrite length_app in *. cbn [length] in *.
    destruct (decide (k ≤ S (length a + S (length b)))); [|replace (S (S (length a + S (length b))) - k) with 0 by lia;
      by replace (S (length b) - k) with 0 by lia].
    replace (S (S (length a + S (length b))) - k) with (S (S (length a + S (length b)) - k)) by lia. cbn [scan drop]; rewrite drop_0.
    assert (Hx : P (take k (x :: a ++ c :: b)) = false).
    { destruct (decide (k ≤ S (length a))).
      - replace (S (S (length a)) - k) with (S (S (length a) - k)) in Ha by lia. cbn [scan drop] in Ha; rewrite drop_0 in Ha.
        change (x :: a ++ c :: b) with ((x :: a) ++ c :: b). rewrite take_app_le by (simpl; lia).
        by destruct (P (take k (x :: a))).
      - destruct (P _) eqn:E; [|done]. apply Hc in E. destruct E. change (x :: a ++ c :: b) with ((x :: a) ++ c :: b).
        rewrite take_app_ge by (simpl; lia). apply elem_of_app. right. cbn [length].
        destruct (k - S (length a)) eqn:E; [lia|]. simpl. left. }
    rewrite Hx. rewrite IH.
    + by destruct (scan _ _ b).
    + destruct (decide (k ≤ S (length a))); [|by replace (S (length a) - k) with 0 by lia].
      replace (S (S (length a)) - k) with (S (S (length a) - k)) in Ha by lia. cbn [scan drop] in Ha; rewrite drop_0 in Ha.
      destruct (P _); [done|]. by destruct (scan _ _ a).
Qed.

Lemma scan_hit l : P (take k l) = true -> search l = Some 0.
Proof.
  intros Hl. pose proof (HP _ Hl) as H. rewrite length_take in H. cbn beta.
  replace (S (length l) - k) with (S (length l - k)) by lia. cbn [scan]. by rewrite Hl.
Qed.

(** Searching over bytes no searched word starts with. *)
Lemma scan_start a b :
  (forall w, P w = true -> exists c w', w = c :: w' /\ c ∉ a) -> k ≤ length b ->
  search (a ++ b) = (fun i => length a + i) <$> search b.
Proof.
  intros Ha Hb. cbn beta. rewrite length_app. induction a as [|x a IH]; [simpl; by destruct (scan _ _ b)|].
  cbn [app length]. replace (S (S (length a) + length b) - k) with (S (S (length a + length b) - k)) by lia. cbn [scan drop]; rewrite drop_0.
  destruct (P (take k (x :: a ++ b))) eqn:E.
  - destruct (Ha _ E) as (c & w' & Ew & Hc). destruct k; [lia|]. simpl in Ew. injection Ew as -> _. destruct Hc. left.
  - rewrite IH; [by destruct (scan _ _ b)|]. intros w Hw. destruct (Ha w Hw) as (c & w' & ? & Hc). exists c, w'.
    split; [done|]. by apply not_elem_of_cons in Hc as [_ ?].
Qed.
End Scan.

(** The two searches in these terms. *)
Lemma scan_ext f g n l : (forall q, f q = g q) -> scan f n l = scan g n l.
Proof. intros Hfg. revert l. induction n as [|n IH]; intros l; [done|]. simpl. by rewrite Hfg, IH. Qed.

Definition word_is (needle w : bytes) : bool := bytes_eqb w needle.
Definition key_is_ci (key w : bytes) : bool := bytes_eqb (to_lower <$> w) (to_lower <$> key).

Definition occurs_ci (key str : bytes) : option nat :=
  scan (fun q => key_is_ci key (take (length key) q)) (S (length str) - length key) str.

Lemma find_bytes_scan hay needle :
  0 < length needle ->
  find_bytes hay needle = scan (fun q => word_is needle (take (length needle) q)) (S (length hay) - length needle) hay.
Proof.
  intros Hn. unfold find_bytes. rewrite (proj2 (Nat.eqb_neq _ _)) by lia. destruct (_ <? _) eqn:E; bprop.
  - by replace (S (length hay) - length needle) with 0 by lia.
  - replace (S (length hay) - length needle) with (S (length hay - length needle)) by lia. apply scan_ext.
    intros q. unfold memcmp_eq, word_is. by rewrite firstn_all.
Qed.

Lemma extract_scan str key :
  scan (fun q => ci_prefix q (length q) key) (S (length str) - length key) str = occurs_ci key str.
Proof.
  apply scan_ext. intros q. unfold ci_prefix, key_is_ci. destruct (_ <? _) eqn:E; [|done]. bprop.
  symmetry. apply bool_decide_eq_false. intros Eq. apply (f_equal length) in Eq. rewrite !length_fmap, length_take in Eq. lia.
Qed.

Lemma word_is_length needle w : word_is needle w = true -> length w = length needle.
Proof. unfold word_is. intros ?. bprop. by subst. Qed.

Lemma key_is_length key w : key_is_ci key w = true -> length w = length key.
Proof. unfold key_is_ci. intros E. bprop. apply (f_equal length) in E. by rewrite !length_fmap in E. Qed.

Lemma key_is_out key c w : to_lower c ∉ to_lower <$> key -> key_is_ci key w = true -> c ∉ w.
Proof. unfold key_is_ci. intros Hc E Hin. bprop. apply Hc. rewrite <- E. by apply list_elem_of_fmap_2. Qed.

Lemma occurs_skip key a c b :
  0 < length key -> to_lower c ∉ to_lower <$> key -> occurs_ci key a = None ->
  occurs_ci key (a ++ c :: b) = (fun i => length a + 1 + i) <$> occurs_ci key b.
Proof. intros Hk Hc. apply (scan_skip (key_is_ci key) (length key) Hk (key_is_length key)). intros w. by apply key_is_out. Qed.

Lemma occurs_here key b : 0 < length key -> occurs_ci key (key ++ b) = Some 0.
Proof.
  intros Hk. apply (scan_hit (key_is_ci key) (length key) Hk (key_is_length key)). rewrite take_app_length. apply bytes_eqb_refl.
Qed.

Lemma find_skip needle a c b :
  0 < length needle -> c ∉ needle -> find_bytes a needle = None ->
  find_bytes (a ++ c :: b) needle = (fun i => length a + 1 + i) <$> find_bytes b needle.
Proof.
  intros Hk Hc. rewrite !find_bytes_scan by done.
  apply (scan_skip (word_is needle) (length needle) Hk (word_is_length needle)). intros w E. unfold word_is in E. bprop. by subst.
Qed.

Lemma find_here needle b : 0 < length needle -> find_bytes (needle ++ b) needle = Some 0.
Proof.
  intros Hk. rewrite find_bytes_scan by done.
  apply (scan_hit (word_is needle) (length needle) Hk (word_is_length needle)). rewrite take_app_length. apply bytes_eqb_refl.
Qed.

Lemma find_start needle c w a b :
  needle = c :: w -> c ∉ a -> length needle ≤ length b -> find_bytes (a ++ b) needle = (fun i => length a + i) <$> find_bytes b needle.
Proof.
  intros E Hc Hb. assert (Hk : 0 < length needle) by (subst; simpl; lia). rewrite !find_bytes_scan by done.
  apply (scan_start (word_is needle) (length needle) Hk (word_is_length needle)); [|done].
  intros v Ev. unfold word_is in Ev. bprop. subst v. by exists c, w.
Qed.

(** A delimiter is found at the end of the data and its line end. *)
Lemma find_delim delim data post :
  0 < length delim -> CR ∉ delim -> LF ∉ delim -> find_bytes data delim = None ->
  find_bytes (data ++ CR :: LF :: delim ++ post) delim = Some (length data + 2).
Proof.
  intros Hk Hcr Hlf Hn. assert (Hnil : find_bytes [] delim = None).
  { unfold find_bytes. destruct (_ =? 0) eqn:E; bprop; [lia|]. simpl. by destruct delim. }
  rewrite find_skip by done. change (LF :: delim ++ post) with ([] ++ LF :: delim ++ post). rewrite find_skip by done.
  rewrite find_here by done. simpl. f_equal. lia.
Qed.

(** ** Forms *)

(** A form field: its name, file name, content type and data, and whether its content type
    is written before its disposition. *)
Record field := mk_field { f_name : bytes; f_filename : option bytes; f_type : option bytes; f_data : bytes; f_type_first : bool }.

Definition quoted (s : bytes) : bytes := DQUOTE :: s ++ [DQUOTE].
Definition disposition_line (f : field) : bytes :=
  bs "Content-Disposition: form-data; name=" ++ quoted (f_name f)
  ++ match f_filename f with Some n => bs "; filename=" ++ quoted n | None => [] end.
Definition type_line (t : bytes) : bytes := bs "Content-Type: " ++ t.
Definition header_block (f : field) : bytes :=
  match f_type f with
  | None => disposition_line f
  | Some t => if f_type_first f then type_line t ++ [CR; LF] ++ disposition_line f
              else disposition_line f ++ [CR; LF] ++ type_line t
  end.

(** What follows a delimiter: the next field and its delimiter, or the end. *)
Fixpoint render_fields (delim : bytes) (fs : list field) (epilogue : bytes) : bytes :=
  match fs with
  | [] => bs "--" ++ epilogue
  | f :: fs => [CR; LF] ++ header_block f ++ SEPARATOR ++ f_data f ++ CR :: LF :: delim ++ render_fields delim fs epilogue
  end.
Definition render_form (boundary : bytes) (fs : list field) (epilogue : bytes) : bytes :=
  (bs "--" ++ boundary) ++ render_fields (bs "--" ++ boundary) fs epilogue.

(** Texts that need no escaping: a name holds no quote, no CR and not the words
    [filename=]; a type is not empty, holds no CR and has no blank at its ends; the data
    does not hold the delimiter. *)
Record field_ok (delim : bytes) (f : field) : Prop := {
  fo_name : DQUOTE ∉ f_name f /\ CR ∉ f_name f /\ occurs_ci (bs "filename=") (f_name f) = None;
  fo_filename : forall n, f_filename f = Some n -> DQUOTE ∉ n /\ CR ∉ n;
  fo_type : forall t, f_type f = Some t -> t ≠ [] /\ CR ∉ t /\ is_blank (char_at t 0) = false /\ is_blank (char_at t (length t - 1)) = false;
  fo_data : find_bytes (f_data f) delim = None;
}.

Definition but_last (s : bytes) : bytes := take (length s - 1) s.

Definition text_of (s : option bytes) (n : nat) : option bytes := take n <$> s.

(** What the parser reports of a field: its name, file name and data, a content type when
    there is one, and exactly it when its line is not the last of the block. *)
Record reports (p : ioh_multipart_part_t) (f : field) : Prop := {
  rp_name : text_of (mp_name p) (mp_name_len p) = Some (f_name f);
  rp_filename : text_of (mp_filename p) (mp_filename_len p) = f_filename f;
  rp_has_type : is_Some (mp_content_type p) <-> is_Some (f_type f);
  rp_type : f_type_first f = true -> text_of (mp_content_type p) (mp_content_type_len p) = f_type f;
  rp_data : take (mp_data_len p) (mp_data p) = f_data f;
}.

(** *** One header line *)

Lemma take_is_prefix (str s : bytes) n : take n str = s -> str = s ++ drop n str.
Proof. intros <-. by rewrite take_drop. Qed.

Lemma span_until c v rest :
  c ∉ v -> (rest = [] \/ exists r, rest = c :: r) -> span (fun b => negb (b =b c)) (v ++ rest) = (v, rest).
Proof.
  intros Hv Hr. apply span_app.
  - apply Forall_forall. intros b Hb. apply negb_true_iff, bool_decide_eq_false. by intros ->.
  - destruct Hr as [->|[r ->]]; [done|]. unfold beq. by rewrite bool_decide_true.
Qed.

Lemma extract_quoted str n key a v rest :
  take n str = a ++ key ++ DQUOTE :: v ++ rest -> occurs_ci key (take n str) = Some (length a) ->
  DQUOTE ∉ v -> (rest = [] \/ exists r, rest = DQUOTE :: r) ->
  exists p, extract_param str n key = Some (p, length v) /\ take (length v) p = v.
Proof.
  intros Hs Ho Hv Hr. unfold extract_param. rewrite extract_scan, Ho, Hs.
  replace (drop (length a + length key) (a ++ key ++ DQUOTE :: v ++ rest)) with (DQUOTE :: v ++ rest)
    by (rewrite (app_assoc a key), <- (length_app a key); by rewrite drop_app_length).
  cbn [beq]. unfold beq at 1. rewrite bool_decide_true by done. rewrite (span_until _ _ _ Hv Hr). cbn [fst].
  eexists. split; [reflexivity|]. rewrite (take_is_prefix _ _ _ Hs).
  replace ((a ++ key ++ DQUOTE :: v ++ rest) ++ drop n str) with ((a ++ key ++ [DQUOTE]) ++ v ++ rest ++ drop n str)
    by (rewrite <- !app_assoc; cbn [app]; by rewrite <- !app_assoc).
  replace (S (length a + length key)) with (length (a ++ key ++ [DQUOTE])) by (rewrite !length_app; simpl; lia).
  rewrite drop_app_length. by rewrite take_app_length.
Qed.

(** The parameters of a disposition, the closing quote seen or not. *)
Definition parameters (f : field) (e : bytes) : bytes :=
  bs "form-data; name=" ++ DQUOTE :: f_name f
  ++ match f_filename f with Some n => DQUOTE :: bs "; filename=" ++ DQUOTE :: n ++ e | None => e end.

Definition closing (e : bytes) : Prop := e = [] \/ e = [DQUOTE].

Lemma closing_end e : closing e -> e = [] \/ exists r, e = DQUOTE :: r.
Proof. intros [->| ->]; [by left|right; by exists []]. Qed.

Lemma parameters_name delim f e str n :
  field_ok delim f -> closing e -> take n str = parameters f e ->
  exists p, extract_param str n (bs "name=") = Some (p, length (f_name f)) /\ take (length (f_name f)) p = f_name f.
Proof.
  intros [(Hq & _ & _) _ _ _] He Hs.
  set (tail := match f_filename f with Some n => DQUOTE :: bs "; filename=" ++ DQUOTE :: n ++ e | None => e end) in *.
  assert (Hp : parameters f e = bs "form-data; " ++ bs "name=" ++ DQUOTE :: f_name f ++ tail) by (unfold parameters; by subst tail).
  eapply extract_quoted; [by rewrite Hs, Hp| |done|].
  - rewrite Hs, Hp. change (bs "form-data; " ++ ?x) with (bs "form-data;" ++ SP :: x).
    rewrite occurs_skip; [|nle|bcompute|by vm_compute]. by rewrite occurs_here by nle.
  - subst tail. destruct (f_filename f); [right; by eexists|by apply closing_end].
Qed.

Lemma parameters_filename delim f e str n :
  field_ok delim f -> closing e -> take n str = parameters f e ->
  match f_filename f with
  | None => extract_param str n (bs "filename=") = None
  | Some fn => exists p, extract_param str n (bs "filename=") = Some (p, length fn) /\ take (length fn) p = fn
  end.
Proof.
  intros [(_ & _ & Ho) Hfn _ _] He Hs.
  assert (Hskip : forall r, occurs_ci (bs "filename=") (bs "form-data; name=" ++ DQUOTE :: f_name f ++ DQUOTE :: r) =
    (fun i => 16 + 1 + (length (f_name f) + 1 + i)) <$> occurs_ci (bs "filename=") r).
  { intros r. rewrite occurs_skip; [|nle|bcompute|by vm_compute]. rewrite occurs_skip; [|nle|bcompute|done].
    by destruct (occurs_ci _ r). }
  unfold parameters in Hs. destruct (f_filename f) as [fn|].
  - destruct (Hfn fn eq_refl) as [Hq _].
    eapply (extract_quoted _ _ _ (bs "form-data; name=" ++ DQUOTE :: f_name f ++ DQUOTE :: bs "; ")); [| |done|by apply closing_end].
    + rewrite Hs. by rewrite <- !app_assoc, <- !app_comm_cons, <- !app_assoc.
    + rewrite Hs, Hskip. change (bs "; filename=" ++ ?x) with (bs ";" ++ SP :: bs "filename=" ++ x).
      rewrite occurs_skip; [|nle|bcompute|by vm_compute]. rewrite occurs_here by nle.
      cbn [fmap option_fmap option_map]. f_equal. rewrite !length_app. cbn [length]. rewrite length_app. simpl. lia.
  - unfold extract_param. rewrite extract_scan, Hs. destruct He as [->| ->]; [|by rewrite Hskip].
    rewrite app_nil_r. rewrite occurs_skip; [|nle|bcompute|by vm_compute]. by rewrite Ho.
Qed.

Lemma ci_prefix_app p n pre q :
  take n p = pre ++ q -> n ≤ length p -> forall key, length key ≤ length pre ->
  ci_prefix p n key = bytes_eqb (to_lower <$> take (length key) pre) (to_lower <$> key).
Proof.
  intros Hp Hn key Hk. unfold ci_prefix. assert (n = length (pre ++ q)) by (rewrite <- Hp, length_take; lia). rewrite length_app in *.
  rewrite (proj2 (Nat.ltb_ge _ _)) by lia. rewrite (take_is_prefix _ _ _ Hp). rewrite <- app_assoc, take_app_le by lia. done.
Qed.

(** A value behind its name and one blank. *)
Lemma skip_one p n pre v :
  take n p = pre ++ SP :: v -> n ≤ length p -> (forall b r, v = b :: r -> is_blank b = false) ->
  skip_blanks_at (drop (length pre) p) (n - length pre) = (drop (S (length pre)) p, n - S (length pre))
  /\ take (n - S (length pre)) (drop (S (length pre)) p) = v.
Proof.
  intros Hp Hn Hv. assert (Hl : n = length pre + S (length v)).
  { apply (f_equal length) in Hp. rewrite length_take, length_app in Hp. simpl in Hp. lia. }
  assert (Ht : take (n - length pre) (drop (length pre) p) = SP :: v).
  { rewrite take_drop_commute. replace (length pre + (n - length pre)) with n by lia. by rewrite Hp, drop_app_length. }
  unfold skip_blanks_at. rewrite Ht. cbn [span]. change (is_blank SP) with true. cbn [negb].
  replace (span is_blank v) with (@nil byte, v) by (destruct v as [|b r]; [done|]; cbn [span]; by rewrite (Hv b r eq_refl)).
  cbn [fst length]. rewrite drop_drop. split; [f_equal; [f_equal|]; lia|].
  rewrite take_drop_commute. replace (S (length pre) + (n - S (length pre))) with n by lia. rewrite Hp.
  change (SP :: v) with ([SP] ++ v). rewrite app_assoc. replace (S (length pre)) with (length (pre ++ [SP])) by (rewrite length_app; simpl; lia).
  by rewrite drop_app_length.
Qed.

Lemma disposition_seen delim f e p n part :
  field_ok delim f -> closing e -> n ≤ length p -> take n p = bs "Content-Disposition: " ++ parameters f e ->
  mp_filename part = None ->
  exists part', part_header p n part = (part', true)
    /\ text_of (mp_name part') (mp_name_len part') = Some (f_name f)
    /\ text_of (mp_filename part') (mp_filename_len part') = f_filename f
    /\ (mp_content_type part', mp_content_type_len part') = (mp_content_type part, mp_content_type_len part)
    /\ (mp_data part', mp_data_len part') = (mp_data part, mp_data_len part).
Proof.
  intros Hf He Hn Hp Hnone. unfold part_header.
  rewrite (ci_prefix_app p n _ _ Hp Hn DISPOSITION) by nle. rewrite (ci_prefix_app p n _ _ Hp Hn CONTENT_TYPE) by nle.
  replace (bytes_eqb _ (to_lower <$> DISPOSITION)) with true by (vm_compute; reflexivity).
  replace (bytes_eqb _ (to_lower <$> CONTENT_TYPE)) with false by (vm_compute; reflexivity).
  change (bs "Content-Disposition: " ++ ?x) with (bs "Content-Disposition:" ++ SP :: x) in Hp.
  destruct (skip_one p n _ _ Hp Hn) as [E Ht].
  { intros b r. unfold parameters. intros [= <- _]. reflexivity. }
  change (length (bs "Content-Disposition:")) with (length DISPOSITION) in *. rewrite E. cbv beta iota zeta.
  destruct (parameters_name delim f e _ _ Hf He Ht) as (p1 & -> & H1).
  pose proof (parameters_filename delim f e _ _ Hf He Ht) as H2. destruct (f_filename f) as [fn|].
  - destruct H2 as (p2 & -> & H2). eexists. split; [reflexivity|]. cbn. by rewrite H1, H2.
  - rewrite H2. eexists. split; [reflexivity|]. cbn. by rewrite H1, Hnone.
Qed.

Lemma trim_end_none val n : is_blank (char_at val (n - 1)) = false -> trim_end val n = n.
Proof. destruct n as [|n]; [done|]. cbn [trim_end]. replace (S n - 1) with n by lia. by intros ->. Qed.

Lemma type_seen p n part t :
  n ≤ length p -> take n p = type_line t ->
  exists v k, part_header p n part = (set_mp_type part v k, false)
    /\ (t ≠ [] -> is_blank (char_at t 0) = false -> is_blank (char_at t (length t - 1)) = false -> take k v = t).
Proof.
  unfold type_line. intros Hn Hp. unfold part_header.
  assert (Hl : n = 14 + length t) by (apply (f_equal length) in Hp; rewrite length_take, length_app in Hp;
    change (length (bs "Content-Type: ")) with 14 in Hp; lia).
  assert (Hd : ci_prefix p n DISPOSITION = false).
  { unfold ci_prefix. destruct (_ <? _); [done|]. rewrite (take_is_prefix _ _ _ Hp). apply bool_decide_eq_false.
    intros E. apply (f_equal (fun l => l !! 8)) in E. vm_compute in E. done. }
  rewrite Hd. rewrite (ci_prefix_app p n _ _ Hp Hn CONTENT_TYPE) by nle.
  replace (bytes_eqb _ (to_lower <$> CONTENT_TYPE)) with true by (vm_compute; reflexivity).
  destruct (skip_blanks_at (drop (length CONTENT_TYPE) p) (n - length CONTENT_TYPE)) as [v k] eqn:E. cbv beta iota zeta.
  eexists _, _. split; [reflexivity|]. intros Hne Hfirst Hlast.
  change (bs "Content-Type: " ++ t) with (bs "Content-Type:" ++ SP :: t) in Hp.
  destruct (skip_one p n _ _ Hp Hn) as [E' Hv]; [intros b r ->; exact Hfirst|].
  change (length (bs "Content-Type:")) with (length CONTENT_TYPE) in *. rewrite E' in E. injection E as <- <-.
  change (length CONTENT_TYPE) with 13 in *. replace (n - 14) with (length t) in * by lia.
  rewrite trim_end_none; [exact Hv|]. rewrite <- Hv in Hlast at 1. unfold char_at in *. rewrite lookup_take_lt in Hlast; [exact Hlast|].
  destruct t; simpl; [done|lia].
Qed.

(** *** A header block *)

Lemma crlf_scan h : scan crlf_at (length h - 1) h = find_bytes h [CR; LF].
Proof.
  rewrite find_bytes_scan by (simpl; lia). change (length [CR; LF]) with 2. replace (S (length h) - 2) with (length h - 1) by lia.
  apply scan_ext. intros q. unfold word_is, bytes_eqb, crlf_at, beq. destruct q as [|a [|b q]]; cbn [take];
    [by rewrite bool_decide_false|by rewrite bool_decide_false|].
  rewrite <- bool_decide_and. apply bool_decide_ext. split; [intros [-> ->]; done|by intros [= -> ->]].
Qed.

Lemma find_none needle c w l : needle = c :: w -> c ∉ l -> find_bytes l needle = None.
Proof.
  intros E Hc. rewrite find_bytes_scan by (subst; simpl; lia). generalize (S (length l) - length needle). intros n. revert l Hc.
  induction n as [|n IH]; intros l Hc; [done|]. cbn [scan]. rewrite IH.
  - destruct (word_is _ _) eqn:Ew; [|done]. unfold word_is in Ew. bprop. subst needle. destruct l as [|x l]; [done|].
    simpl in Ew. injection Ew as -> _. destruct Hc. left.
  - intros Hin. apply Hc. destruct l; [done|]. simpl in Hin. rewrite drop_0 in Hin. by right.
Qed.

Lemma line_end_none h : CR ∉ h -> line_end h = length h - 1.
Proof. intros Hc. unfold line_end. rewrite crlf_scan. by rewrite (find_none _ CR [LF]). Qed.

Lemma line_end_crlf a b : CR ∉ a -> line_end (a ++ CR :: LF :: b) = length a.
Proof.
  intros Hc. unfold line_end. rewrite crlf_scan. rewrite (find_start _ CR [LF]) by (done || simpl; lia).
  change (CR :: LF :: b) with ([CR; LF] ++ b). rewrite find_here by (simpl; lia). simpl. lia.
Qed.

Lemma disposition_eq f : disposition_line f = bs "Content-Disposition: " ++ parameters f [DQUOTE].
Proof.
  unfold disposition_line, parameters, quoted. destruct (f_filename f) as [fn|]; cbn [app].
  - change (bs "Content-Disposition: form-data; name=" ++ ?x) with (bs "Content-Disposition: " ++ bs "form-data; name=" ++ x).
    by rewrite <- (app_assoc (f_name f)).
  - by rewrite app_nil_r.
Qed.

Lemma parameters_last f : exists l, parameters f [] = l /\ parameters f [DQUOTE] = l ++ [DQUOTE].
Proof.
  exists (parameters f []). split; [done|]. unfold parameters. destruct (f_filename f) as [fn|].
  - by rewrite app_nil_r, <- !app_assoc, <- !app_comm_cons, <- !app_assoc, <- !app_comm_cons, <- !app_assoc.
  - by rewrite app_nil_r, <- app_assoc, <- app_comm_cons.
Qed.

Lemma quoted_no_cr s : CR ∉ s -> CR ∉ quoted s.
Proof. intros Hs. unfold quoted. rewrite elem_of_cons, elem_of_app. intros [H|[H|H]]; [done|done|]. revert H. bcompute. Qed.

Lemma disposition_no_cr delim f : field_ok delim f -> CR ∉ disposition_line f.
Proof.
  intros [(_ & Hn & _) Hfn _ _]. unfold disposition_line. rewrite !elem_of_app. intros [H|[H|H]].
  - revert H. bcompute.
  - by apply quoted_no_cr in H.
  - destruct (f_filename f) as [fn|]; [|by apply not_elem_of_nil in H]. destruct (Hfn fn eq_refl) as [_ Hc].
    apply elem_of_app in H as [H|H]; [revert H; bcompute|by apply quoted_no_cr in H].
Qed.

Lemma take_but_last (a t : bytes) : t ≠ [] -> take (length (a ++ t) - 1) (a ++ t) = a ++ but_last t.
Proof.
  intros Ht. assert (0 < length t) by (destruct t; simpl; [done|lia]). rewrite length_app.
  replace (length a + length t - 1) with (length a + (length t - 1)) by lia. by rewrite take_app_add.
Qed.

Lemma header_lines_last fuel p n part found :
  0 < n -> n ≤ length p -> CR ∉ take n p ->
  header_lines (S fuel) p n part found = let '(part, f) := part_header p (n - 1) part in (part, f || found).
Proof.
  intros H0 Hn Hc. cbn [header_lines]. rewrite (proj2 (Nat.eqb_neq _ _)) by lia. rewrite line_end_none by done.
  rewrite length_take, Nat.min_l by lia. destruct (part_header _ _ _) as [part' f].
  replace (crlf_at _) with false; [done|]. replace (n - (n - 1)) with 1 by lia. by destruct (drop (n - 1) p) as [|? [|? ?]].
Qed.

Lemma header_lines_first fuel p n part found a b :
  take n p = a ++ CR :: LF :: b -> n ≤ length p -> CR ∉ a ->
  header_lines (S fuel) p n part found =
    let '(part, f) := part_header p (length a) part in header_lines fuel (drop (length a + 2) p) (length b) part (f || found).
Proof.
  intros Ht Hn Hc. assert (Hl : n = length a + 2 + length b).
  { apply (f_equal length) in Ht. rewrite length_take, length_app in Ht. simpl in Ht. lia. }
  cbn [header_lines]. rewrite (proj2 (Nat.eqb_neq _ _)) by lia. rewrite Ht, line_end_crlf by done.
  destruct (part_header _ _ _) as [part' f].
  assert (Hd : take (n - length a) (drop (length a) p) = CR :: LF :: b).
  { rewrite take_drop_commute. replace (length a + (n - length a)) with n by lia. by rewrite Ht, drop_app_length. }
  rewrite Hd. replace (crlf_at _) with true by (vm_compute; reflexivity). by replace (n - (length a + 2)) with (length b) by lia.
Qed.

Lemma type_line_no_cr t : CR ∉ t -> CR ∉ type_line t.
Proof. intros Ht. unfold type_line. rewrite elem_of_app. intros [H|H]; [revert H; bcompute|done]. Qed.

(** The disposition as the last line of its block. *)
Lemma disposition_last delim f fuel rest part found :
  field_ok delim f -> mp_filename part = None ->
  exists part', header_lines (S fuel) (disposition_line f ++ rest) (length (disposition_line f)) part found = (part', true)
    /\ text_of (mp_name part') (mp_name_len part') = Some (f_name f)
    /\ text_of (mp_filename part') (mp_filename_len part') = f_filename f
    /\ (mp_content_type part', mp_content_type_len part') = (mp_content_type part, mp_content_type_len part)
    /\ (mp_data part', mp_data_len part') = (mp_data part, mp_data_len part).
Proof.
  intros Hf Hn. pose proof (disposition_no_cr _ _ Hf) as Hcr. destruct (parameters_last f) as (l & El & Er). set (d := disposition_line f) in *.
  assert (Hdl : 0 < length d) by (subst d; rewrite disposition_eq, length_app; change (length (bs "Content-Disposition: ")) with 21; lia).
  rewrite header_lines_last; [|lia|rewrite length_app; lia|by rewrite take_app_length].
  destruct (disposition_seen delim f [] (d ++ rest) (length d - 1) part Hf) as (p1 & -> & H); [by left|rewrite length_app; lia| |done|by exists p1].
  rewrite take_app_le by lia. subst d. rewrite disposition_eq, Er, El, app_assoc. rewrite take_but_last by done. apply app_nil_r.
Qed.

(** Two lines: the first one is read whole. *)
Lemma two_lines a b rest fuel part found :
  CR ∉ a ->
  header_lines (S fuel) ((a ++ [CR; LF] ++ b) ++ rest) (length (a ++ [CR; LF] ++ b)) part found =
  let '(part, f) := part_header ((a ++ [CR; LF] ++ b) ++ rest) (length a) part in header_lines fuel (b ++ rest) (length b) part (f || found).
Proof.
  intros Ha. rewrite (header_lines_first fuel _ _ part found a b);
    [|by rewrite take_app_length|rewrite (length_app _ rest); lia|done].
  replace (drop (length a + 2) ((a ++ [CR; LF] ++ b) ++ rest)) with (b ++ rest); [done|].
  replace ((a ++ [CR; LF] ++ b) ++ rest) with ((a ++ [CR; LF]) ++ b ++ rest) by by rewrite <- !app_assoc.
  replace (length a + 2) with (length (a ++ [CR; LF])) by (rewrite length_app; simpl; lia). by rewrite drop_app_length.
Qed.

Lemma headers_seen delim f pos part :
  field_ok delim f -> (exists rest, pos = header_block f ++ rest) ->
  mp_filename part = None -> mp_content_type part = None -> take (mp_data_len part) (mp_data part) = f_data f ->
  exists part', parse_part_headers pos (length (header_block f)) part = (part', Ok tt) /\ reports part' f.
Proof.
  intros Hf [rest ->] Hn1 Hn2 Hdata. unfold parse_part_headers.
  unfold header_block. destruct (f_type f) as [t|] eqn:Et; [destruct (fo_type _ _ Hf t Et) as (Hne & Hct & Hb1 & Hb2); destruct (f_type_first f) eqn:Eo|].
  - set (blk := type_line t ++ [CR; LF] ++ disposition_line f).
    assert (Hfu : exists m, length blk = S m) by (exists (length blk - 1); unfold blk, type_line; rewrite !length_app; simpl; lia).
    unfold blk. rewrite two_lines by (by apply type_line_no_cr). fold blk. destruct Hfu as [m Hm]. rewrite Hm.
    destruct (type_seen (blk ++ rest) (length (type_line t)) part t) as (v & k & -> & Hv).
    { unfold blk. rewrite !length_app. lia. } { unfold blk. by rewrite <- app_assoc, take_app_length. }
    specialize (Hv Hne Hb1 Hb2).
    destruct (disposition_last delim f m rest (set_mp_type part v k) (false || false) Hf Hn1) as (p1 & -> & H1 & H2 & [= H3 H3'] & [= H4 H4']).
    eexists. split; [reflexivity|]. split; [done|done|rewrite H3, Et; split; intros _; by eexists| |by rewrite H4, H4'].
    intros _. rewrite H3, H3', Et. cbn. by rewrite Hv.
  - set (blk := disposition_line f ++ [CR; LF] ++ type_line t). pose proof (disposition_no_cr _ _ Hf) as Hcr.
    assert (Hfu : exists m, length blk = S m).
    { exists (length blk - 1). unfold blk, type_line. rewrite !length_app. simpl. lia. }
    unfold blk. rewrite two_lines by done. fold blk. destruct Hfu as [m Hm]. rewrite Hm.
    destruct (disposition_seen delim f [DQUOTE] (blk ++ rest) (length (disposition_line f)) part Hf) as (p1 & -> & H1 & H2 & [= H3 H3'] & [= H4 H4']);
      [by right|unfold blk; rewrite !length_app; lia| |done|].
    { unfold blk. by rewrite <- app_assoc, take_app_length, <- disposition_eq. }
    assert (Hl2 : 14 < length (type_line t)) by (unfold type_line; rewrite length_app; change (length (bs "Content-Type: ")) with 14; destruct t; simpl; [done|lia]).
    cbn [orb]. rewrite header_lines_last; [|lia|rewrite length_app; lia|rewrite take_app_length; by apply type_line_no_cr].
    destruct (type_seen (type_line t ++ rest) (length (type_line t) - 1) p1 (but_last t)) as (v & k & -> & _).
    { rewrite length_app. lia. } { rewrite take_app_le by lia. by apply take_but_last. }
    cbn [orb]. eexists. split; [reflexivity|]. split; cbn; [done|done|rewrite Et; split; intros _; by eexists|by rewrite Eo|by rewrite H4, H4'].
  - destruct (disposition_last delim f (length (disposition_line f)) rest part false Hf Hn1) as (p1 & -> & H1 & H2 & [= H3 H3'] & [= H4 H4']).
    eexists. split; [reflexivity|]. split; [done|done|rewrite H3, Et, Hn2; done|by rewrite H3, Hn2, Et|by rewrite H4, H4'].
Qed.

(** The block ends at its empty line. *)
Lemma find_step needle x l :
  0 < length needle -> take (length needle) (x :: l) ≠ needle -> length needle ≤ length l ->
  find_bytes (x :: l) needle = S <$> find_bytes l needle.
Proof.
  intros Hk Hne Hl. rewrite !find_bytes_scan by done. cbn [length].
  replace (S (S (length l)) - length needle) with (S (S (length l) - length needle)) by lia. cbn [scan drop]. rewrite drop_0.
  replace (word_is _ _) with false; [done|]. symmetry. by apply bool_decide_eq_false.
Qed.

Lemma find_separator delim f rest :
  field_ok delim f -> find_bytes (header_block f ++ SEPARATOR ++ rest) SEPARATOR = Some (length (header_block f)).
Proof.
  intros Hf. pose proof (disposition_no_cr _ _ Hf) as Hcr.
  assert (Hend : forall a, CR ∉ a -> find_bytes (a ++ SEPARATOR ++ rest) SEPARATOR = Some (length a)).
  { intros a Ha. rewrite (find_start _ CR [LF; CR; LF]) by (done || rewrite length_app; simpl; lia).
    rewrite find_here by (simpl; lia). simpl. f_equal. lia. }
  assert (Htwo : forall a b, CR ∉ a -> CR ∉ b -> b ≠ [] -> find_bytes ((a ++ [CR; LF] ++ b) ++ SEPARATOR ++ rest) SEPARATOR = Some (length (a ++ [CR; LF] ++ b))).
  { intros a b Ha Hb Hb0. rewrite <- app_assoc. rewrite (find_start _ CR [LF; CR; LF]); [|done|done|rewrite !length_app; simpl; lia].
    change (([CR; LF] ++ b) ++ SEPARATOR ++ rest) with (CR :: (LF :: b) ++ SEPARATOR ++ rest).
    rewrite find_step; [|simpl; lia| |rewrite !length_app; simpl; lia].
    - rewrite Hend by (rewrite elem_of_cons; by intros [?|?]). simpl. f_equal. rewrite !length_app. simpl. lia.
    - destruct b as [|x b]; [done|]. cbn. intros [= ->]. by apply Hb; left. }
  unfold header_block. destruct (f_type f) as [t|] eqn:Et; [|by apply Hend].
  destruct (fo_type _ _ Hf t Et) as (_ & Hct & _ & _). apply type_line_no_cr in Hct.
  destruct (f_type_first f); apply Htwo; try done.
Qed.

(** *** The whole body *)

Lemma strip_rendered data rest : strip_crlf (data ++ CR :: LF :: rest) (length data + 2) = length data.
Proof.
  unfold strip_crlf. rewrite (proj2 (Nat.leb_le _ _)) by lia. rewrite Nat.add_sub, drop_app_length.
  replace (crlf_at _) with true by (vm_compute; reflexivity). done.
Qed.

Lemma fields_parse delim cfg room epi :
  0 < length delim -> CR ∉ delim -> LF ∉ delim ->
  forall fs f fuel total parts,
  Forall (field_ok delim) (f :: fs) -> Forall (fun f => length (f_data f) ≤ max_part_size cfg) (f :: fs) ->
  let pos := drop 2 (render_fields delim (f :: fs) epi) in
  total + length pos ≤ max_total_size cfg -> length pos < fuel ->
  length parts + length (f :: fs) ≤ room -> length parts + length (f :: fs) ≤ max_parts cfg ->
  exists ps, part_loop fuel delim cfg room pos total parts = Some (Ok tt, parts ++ ps) /\ Forall2 reports ps (f :: fs).
Proof.
  intros Hd Hcr Hlf. induction fs as [|f2 fs IH]; intros f fuel total parts Hfs Hsz pos Ht Hfuel Hr Hm;
    (destruct fuel as [|fuel]; [lia|]);
    apply Forall_cons in Hfs as [Hf Hfs]; apply Forall_cons in Hsz as [Hs Hsz].
  all: match goal with pos := drop 2 (render_fields _ (_ :: ?l) _) |- _ => set (R := render_fields delim l epi) end.
  all: set (tl := f_data f ++ CR :: LF :: delim ++ R).
  all: assert (Ep : pos = header_block f ++ SEPARATOR ++ tl) by done.
  all: assert (Hlp : length pos = length (header_block f) + 4 + (length (f_data f) + 2 + (length delim + length R)))
    by (rewrite Ep; unfold tl; rewrite (length_app (header_block f)), (length_app SEPARATOR), (length_app (f_data f));
        cbn [length SEPARATOR]; rewrite (length_app delim); lia).
  all: clearbody pos; subst pos; cbn [part_loop]; rewrite (proj2 (Nat.eqb_neq _ _)) by lia.
  all: rewrite (find_separator delim f tl Hf).
  all: replace (drop (length (header_block f) + 4) (header_block f ++ SEPARATOR ++ tl)) with tl
    by (rewrite app_assoc; replace (length (header_block f) + 4) with (length (header_block f ++ SEPARATOR)) by (rewrite length_app; done);
        by rewrite drop_app_length).
  all: assert (Hfd : find_bytes tl delim = Some (length (f_data f) + 2)) by (subst tl; apply find_delim; [done..|apply Hf]).
  all: rewrite Hfd; assert (Hst : strip_crlf tl (length (f_data f) + 2) = length (f_data f)) by apply strip_rendered.
  all: rewrite Hst, (proj2 (Nat.ltb_ge _ _)) by lia; rewrite (proj2 (Nat.ltb_ge _ _)) by lia.
  all: cbn [length] in Hr, Hm; rewrite !(proj2 (Nat.leb_gt _ _)) by lia; cbn [orb].
  all: destruct (headers_seen delim f (header_block f ++ SEPARATOR ++ tl)
         (mk_part None 0 None 0 None 0 tl (length (f_data f))) Hf (ex_intro _ _ eq_refl) eq_refl eq_refl)
         as (part & -> & Hpt); [by cbn [mp_data mp_data_len]; subst tl; rewrite take_app_length|].
  all: replace (drop (length (f_data f) + 2 + length delim) tl) with R
    by (subst tl; change (CR :: LF :: delim ++ R) with ([CR; LF] ++ delim ++ R); rewrite !app_assoc;
        replace (length (f_data f) + 2 + length delim) with (length ((f_data f ++ [CR; LF]) ++ delim)) by (rewrite !length_app; simpl; lia);
        by rewrite drop_app_length).
  - subst R. replace (dashes_at _) with true by (vm_compute; reflexivity). exists [part]. split; [done|]. by constructor.
  - replace (dashes_at R) with false by (vm_compute; reflexivity). replace (crlf_at R) with true by (vm_compute; reflexivity).
    cbn [negb].
    destruct (IH f2 fuel (total + length (f_data f)) (parts ++ [part])) as (ps & E & Eps); [done|done|..].
    + rewrite length_drop. fold R. lia.
    + rewrite length_drop. fold R. lia.
    + rewrite length_app. simpl in *. lia.
    + rewrite length_app. simpl in *. lia.
    + fold R in E. rewrite E. exists (part :: ps). rewrite <- app_assoc. split; [done|]. by constructor.
Qed.

(** C25: Forms round-trip.  A form rendered with a boundary of at most 256 bytes, without
    CR or LF, whose delimiter occurs in none of its fields' data parses to its fields in order:
    names, file names and data exactly, and a content type is reported exactly for the
    fields that have one; it is exactly the field's when its line stands before the
    disposition's.  The names hold no quote, no CR and not the text filename=, the file
    names no quote and no CR, the content types are not empty, without CR and without blanks at
    their ends (they may have parameters), and the limits and the caller's array are large enough. *)
Theorem multipart_roundtrip boundary fs epi cfg room :
  CR ∉ boundary -> LF ∉ boundary -> length boundary ≤ 256 ->
  Forall (field_ok (bs "--" ++ boundary)) fs -> Forall (fun f => length (f_data f) ≤ max_part_size cfg) fs ->
  length (render_form boundary fs epi) ≤ max_total_size cfg -> length fs ≤ room -> length fs ≤ max_parts cfg ->
  exists parts, ioh_multipart_parse (Some (render_form boundary fs epi)) (Some boundary) cfg room = Some (Ok tt, Some parts)
    /\ Forall2 reports parts fs.
Proof.
  intros Hcr Hlf Hb Hfs Hsz Ht Hr Hm. set (body := render_form boundary fs epi). set (delim := bs "--" ++ boundary) in *.
  assert (Hd : 0 < length delim) by (subst delim; rewrite length_app; simpl; lia).
  assert (Hnd : forall c, c ∉ bs "--" -> c ∉ boundary -> c ∉ delim) by (intros c H1 H2; unfold delim; rewrite elem_of_app; by intros [?|?]).
  assert (Hbody : body = delim ++ render_fields delim fs epi) by done.
  assert (Hbl : length body = length delim + length (render_fields delim fs epi)) by (by rewrite Hbody, length_app).
  assert (Hge : 2 ≤ length (render_fields delim fs epi)) by (destruct fs; cbn [render_fields]; rewrite length_app; simpl; lia).
  unfold ioh_multipart_parse. rewrite (proj2 (Nat.ltb_ge _ _)) by exact Ht. rewrite (proj2 (Nat.eqb_neq _ _)) by lia.
  rewrite (proj2 (Nat.ltb_ge _ _)) by lia. fold delim.
  replace (find_bytes body delim) with (Some 0) by (rewrite Hbody; symmetry; by apply find_here).
  rewrite Nat.add_0_l. replace (drop (length delim) body) with (render_fields delim fs epi) by (rewrite Hbody; by rewrite drop_app_length).
  rewrite (proj2 (Nat.ltb_ge _ _)) by lia. destruct fs as [|f fs].
  - replace (dashes_at _) with true by (vm_compute; reflexivity). by exists [].
  - replace (dashes_at _) with false by (vm_compute; reflexivity). replace (crlf_at _) with true by (vm_compute; reflexivity).
    cbn [negb]. destruct (fields_parse delim cfg room epi Hd (Hnd CR ltac:(bcompute) Hcr) (Hnd LF ltac:(bcompute) Hlf) fs f (S (length body)) 0 []) as (ps & -> & E).
    + done.
    + done.
    + rewrite length_drop. fold body in Ht. lia.
    + rewrite length_drop. lia.
    + done.
    + done.
    + by exists ps.
Qed.

(** ** Witnesses and examples *)

Definition demo_fields : list field :=
  [mk_field (bs "title") None None (bs "Hello") false;
   mk_field (bs "doc") (Some (bs "a.txt")) (Some (bs "text/plain; charset=utf-8")) (bs "x--y") true;
   mk_field (bs "pic") (Some (bs "a.png")) (Some (bs "image/png")) (bs "..") false].
Definition demo_limits : ioh_multipart_config_t := mk_mp_config 4 20 600.

Lemma demo_fields_ok : Forall (field_ok (bs "--" ++ bs "XX")) demo_fields.
Proof.
  unfold demo_fields. repeat apply Forall_cons_2; [..|apply Forall_nil_2].
  - split; cbn [f_name f_filename f_type f_data]; [|intros ? [=]|intros ? [=]|]; [split_and!|]; bcompute.
  - split; cbn [f_name f_filename f_type f_data]; [|intros ? [= <-]|intros ? [= <-]|]; [split_and!..|]; first [bcompute|vm_compute; done].
  - split; cbn [f_name f_filename f_type f_data]; [|intros ? [= <-]|intros ? [= <-]|]; [split_and!..|]; first [bcompute|vm_compute; done].
Qed.

Lemma multipart_roundtrip_witness :
  exists p1 p2 p3, ioh_multipart_parse (Some (render_form (bs "XX") demo_fields (bs "end"))) (Some (bs "XX")) demo_limits 3
      = Some (Ok tt, Some [p1; p2; p3])
    /\ text_of (mp_content_type p2) (mp_content_type_len p2) = Some (bs "text/plain; charset=utf-8")
    /\ text_of (mp_filename p3) (mp_filename_len p3) = Some (bs "a.png").
Proof.
  destruct (multipart_roundtrip (bs "XX") demo_fields (bs "end") demo_limits 3) as (parts & E & T).
  - bcompute.
  - bcompute.
  - nle.
  - exact demo_fields_ok.
  - repeat constructor; nle.
  - nle.
  - nle.
  - nle.
  - apply Forall2_cons_inv_r in T as (p1 & l1 & T1 & T & ->). apply Forall2_cons_inv_r in T as (p2 & l2 & T2 & T & ->).
    apply Forall2_cons_inv_r in T as (p3 & l3 & T3 & T & ->). apply Forall2_nil_inv_r in T as ->.
    exists p1, p2, p3. split; [exact E|]. split; [exact (rp_type _ _ T2 eq_refl)|exact (rp_filename _ _ T3)].
Defined.

(** A content type in the last line of its block loses its last byte. *)
Example last_type_cut :
  let body := render_form (bs "XX") [mk_field (bs "n") None (Some (bs "text/plain")) (bs "a") false] [] in
  exists p, ioh_multipart_parse (Some body) (Some (bs "XX")) demo_limits 2 = Some (Ok tt, Some [p])
    /\ text_of (mp_content_type p) (mp_content_type_len p) = Some (bs "text/plai").
Proof. eexists. split; vm_compute; reflexivity. Qed.

(** The search for [name=] also finds the end of [filename=]: when the file name comes
    first, it is reported as the field's name. *)
Example filename_taken_for_name :
  let v := bs "form-data; filename=" ++ quoted (bs "f") ++ bs "; name=" ++ quoted (bs "n") in
  (fun x => take (snd x) (fst x)) <$> extract_param v (length v) (bs "name=") = Some (bs "f").
Proof. vm_compute. reflexivity. Qed.

(** A delimiter text inside the data ends the part although no line starts there. *)
Example delimiter_inside_line :
  let body := render_form (bs "XX") [mk_field (bs "n") None None (bs "a--XX--b") false] [] in
  exists p, ioh_multipart_parse (Some body) (Some (bs "XX")) demo_limits 2 = Some (Ok tt, Some [p]) /\ take (mp_data_len p) (mp_data p) = bs "a".
Proof. eexists. split; vm_compute; reflexivity. Qed.
