(* ===== verification/Doubles.v ===== *)
(** C's [double] as the binary64 numbers of the standard library's [SpecFloat]: the
    operations the sources use, and that small integers are represented and
    decremented exactly. *)
From Stdlib Require Import SpecFloat.
From S2P Require Import Prelude.

Definition double : Type := spec_float.

(** Conversion of an integer, rounding to nearest. *)
Definition double_of (z : Z) : double := binary_normalize 53 1024 z 0 false.

Definition dadd : double -> double -> double := SFadd 53 1024.
Definition dsub : double -> double -> double := SFsub 53 1024.
Definition dmul : double -> double -> double := SFmul 53 1024.
Definition ddiv : double -> double -> double := SFdiv 53 1024.

(** ** Shifts *)

Definition pshl (p : positive) (k : nat) : positive := Nat.iter k xO p.

Definition digits (p : positive) : Z := Zpos (digits2_pos p).

Lemma digits_pos p : (1 <= digits p)%Z.
Proof. unfold digits. lia. Qed.

Lemma digits_pshl p k : digits (pshl p k) = (digits p + Z.of_nat k)%Z.
Proof.
  unfold digits. induction k as [|k IH]; [simpl; lia|]. change (pshl p (S k)) with (xO (pshl p k)). cbn [digits2_pos].
  rewrite Pos2Z.inj_succ, IH. lia.
Qed.

Lemma pshl_add p a b : pshl (pshl p a) b = pshl p (a + b).
Proof. unfold pshl. by rewrite <- Nat.iter_add, Nat.add_comm. Qed.

Lemma iter_xO p d : Pos.iter xO p d = pshl p (Pos.to_nat d).
Proof. apply Pos2Nat.inj_iter. Qed.

Lemma pshl_mul p k : Zpos (pshl p k) = (Zpos p * 2 ^ Z.of_nat k)%Z.
Proof.
  induction k as [|k IH]; [simpl; lia|]. change (pshl p (S k)) with (xO (pshl p k)).
  rewrite Pos2Z.inj_xO, IH, Nat2Z.inj_succ, Z.pow_succ_r by lia. lia.
Qed.

(** The digit count of a positive number. *)
Lemma digits_bound p : (2 ^ (digits p - 1) <= Zpos p < 2 ^ digits p)%Z.
Proof.
  unfold digits. induction p as [p IH|p IH|]; cbn [digits2_pos]; [| |done]; rewrite Pos2Z.inj_succ, Z.pow_succ_r by lia;
    replace (Z.succ (Zpos (digits2_pos p)) - 1)%Z with (Z.succ (Zpos (digits2_pos p) - 1))%Z by lia;
    rewrite Z.pow_succ_r by lia; lia.
Qed.

Lemma digits_le p n : (0 <= n)%Z -> (Zpos p < 2 ^ n)%Z -> (digits p <= n)%Z.
Proof.
  intros Hn Hp. destruct (Z_le_gt_dec (digits p) n); [done|]. pose proof (digits_bound p).
  assert (2 ^ n <= 2 ^ (digits p - 1))%Z by (apply Z.pow_le_mono_r; lia). lia.
Qed.

(** Dropping the zeros a shift put there loses nothing. *)
Lemma shr_pshl p k :
  Nat.iter k shr_1 (Build_shr_record (Zpos (pshl p k)) false false) = Build_shr_record (Zpos p) false false.
Proof. induction k as [|k IH]; [done|]. rewrite Nat.iter_succ_r. exact IH. Qed.

Lemma iter_pos_nat {A} (f : A -> A) n : forall x, SpecFloat.iter_pos f n x = Nat.iter (Pos.to_nat n) f x.
Proof.
  induction n as [n IH|n IH|]; intros x; cbn [SpecFloat.iter_pos]; [| |done]; rewrite !IH, <- Nat.iter_add.
  - rewrite <- Nat.iter_succ_r. f_equal. lia.
  - f_equal. lia.
Qed.

(** ** Exact integers *)

(** The representation of a positive integer of at most 53 digits. *)
Definition canon (p : positive) : double := S754_finite false (pshl p (Z.to_nat (53 - digits p))) (digits p - 53).

Lemma fexp_exact d e : (-1074 <= e)%Z -> (d = 53)%Z -> (fexp 53 1024 (d + e) - e = 0)%Z.
Proof. intros. unfold fexp, emin. lia. Qed.

Lemma round_exact m e :
  digits m = 53%Z -> (-1074 <= e <= 971)%Z -> binary_round_aux 53 1024 false (Zpos m) e loc_Exact = S754_finite false m e.
Proof.
  intros Hd He. unfold binary_round_aux, shr_fexp. cbn [Zdigits2 shr_record_of_loc]. fold (digits m).
  rewrite fexp_exact by lia. cbn [shr shr_m loc_of_shr_record round_nearest_even]. cbn [Zdigits2]. fold (digits m).
  rewrite fexp_exact by lia. cbn [shr shr_m]. by rewrite (proj2 (Z.leb_le _ _)) by lia.
Qed.

Lemma round_shifted m k e :
  digits m = 53%Z -> 0 < k -> (-1074 <= e)%Z -> (e + Z.of_nat k <= 971)%Z ->
  binary_round_aux 53 1024 false (Zpos (pshl m k)) e loc_Exact = S754_finite false m (e + Z.of_nat k).
Proof.
  intros Hd Hk He1 He2. unfold binary_round_aux at 1. unfold shr_fexp at 1. cbn [Zdigits2 shr_record_of_loc].
  fold (digits (pshl m k)). rewrite digits_pshl, Hd.
  replace (fexp 53 1024 (53 + Z.of_nat k + e) - e)%Z with (Zpos (Pos.of_nat k)) by (unfold fexp, emin; lia).
  cbn [shr]. rewrite iter_pos_nat, Nat2Pos.id by lia. rewrite shr_pshl. cbn [shr_m loc_of_shr_record round_nearest_even].
  replace (e + Zpos (Pos.of_nat k))%Z with (e + Z.of_nat k)%Z by lia.
  rewrite <- round_exact by lia. unfold binary_round_aux, shr_fexp. cbn [Zdigits2 shr_record_of_loc]. fold (digits m).
  rewrite fexp_exact by lia. cbn [shr shr_m loc_of_shr_record round_nearest_even]. cbn [Zdigits2]. fold (digits m).
  rewrite fexp_exact by lia. done.
Qed.

(** A small integer written with [k] fractional zeros. *)
Lemma normalize_scaled p k :
  (digits p <= 53)%Z -> k ≤ 52 -> binary_normalize 53 1024 (Zpos (pshl p k)) (- Z.of_nat k) false = canon p.
Proof.
  intros Hd Hk. pose proof (digits_pos p). unfold canon. cbn [binary_normalize]. unfold binary_round.
  fold (digits (pshl p k)). rewrite digits_pshl.
  replace (fexp 53 1024 (digits p + Z.of_nat k + - Z.of_nat k)) with (digits p - 53)%Z by (unfold fexp, emin; lia).
  unfold shl_align. destruct (digits p - 53 - - Z.of_nat k)%Z as [|n|n] eqn:E.
  - replace (Z.to_nat (53 - digits p)) with k by lia. replace (- Z.of_nat k)%Z with (digits p - 53)%Z by lia.
    apply round_exact; [rewrite digits_pshl|]; lia.
  - replace k with (Z.to_nat (53 - digits p) + Pos.to_nat n) at 1 by lia. rewrite <- pshl_add.
    rewrite round_shifted; [f_equal; lia|rewrite digits_pshl; lia|lia|lia|lia].
  - rewrite iter_xO, pshl_add.
    replace (k + Pos.to_nat n) with (Z.to_nat (53 - digits p)) by lia. apply round_exact; [rewrite digits_pshl|]; lia.
Qed.

Lemma double_of_pos p : (digits p <= 53)%Z -> double_of (Zpos p) = canon p.
Proof. intros Hd. apply (normalize_scaled p 0 Hd). lia. Qed.

(** Subtracting one from an integer below 2^53 is exact. *)
Lemma dsub_one n : (1 <= n < 2 ^ 53)%Z -> dsub (double_of n) (double_of 1) = double_of (n - 1).
Proof.
  intros Hn. destruct n as [|p|p]; [lia| |lia]. assert (Hd : (digits p <= 53)%Z) by (apply digits_le; lia).
  pose proof (digits_pos p). rewrite double_of_pos by done. change (double_of 1) with (S754_finite false (pshl 1 52) (-52)).
  unfold canon, dsub. cbn [SFsub cond_Zopp].
  replace (Z.min (digits p - 53) (-52)) with (-52)%Z by lia.
  assert (Ea : fst (shl_align (pshl p (Z.to_nat (53 - digits p))) (digits p - 53) (-52)) = pshl p 52).
  { unfold shl_align. destruct (-52 - (digits p - 53))%Z as [|k|k] eqn:E; cbn [fst]; [|lia|].
    - f_equal. lia.
    - rewrite iter_xO, pshl_add. f_equal. lia. }
  rewrite Ea. change (fst (shl_align (pshl 1 52) (-52) (-52))) with (pshl 1 52).
  destruct (decide (p = 1%positive)) as [->|Hp]; [done|].
  replace (Zpos p - 1)%Z with (Zpos (Pos.pred p)) by lia.
  replace (Zpos (pshl p 52) - Zpos (pshl 1 52))%Z with (Zpos (pshl (Pos.pred p) 52)) by (rewrite !pshl_mul; lia).
  change (-52)%Z with (- Z.of_nat 52)%Z.
  assert (Hd' : (digits (Pos.pred p) <= 53)%Z) by (apply digits_le; lia).
  rewrite normalize_scaled by (done || lia). by rewrite double_of_pos.
Qed.

(** The test [x >= 1.0] on integers. *)
Lemma one_le n : (0 <= n < 2 ^ 53)%Z -> SFleb (double_of 1) (double_of n) = (1 <=? n)%Z.
Proof.
  intros Hn. destruct n as [|p|p]; [done| |lia]. assert (Hd : (digits p <= 53)%Z) by (apply digits_le; lia).
  change (double_of 1) with (S754_finite false (pshl 1 52) (-52)). rewrite double_of_pos by done.
  rewrite (proj2 (Z.leb_le 1 (Zpos p))) by lia. pose proof (digits_pos p). unfold SFleb, canon. cbn [SFcompare].
  destruct (Z.compare_spec (-52) (digits p - 53)) as [E|E|E]; [|done|lia].
  assert (p = 1%positive) as -> by (pose proof (digits_bound p); replace (digits p) with 1%Z in * by lia; simpl in *; lia).
  done.
Qed.
