(* ===== verification/Compress.v ===== *)
(** * Compression

    static/ioh_compress.c: the negotiation of a content coding from [Accept-Encoding],
    the search for a precompressed file and the compression of a response body.  zlib and
    brotli are parameters ([codecs]), as is the file system of [Static]; q-values are
    doubles read by [strtod]. *)
From Stdlib Require Import SpecFloat.
From S2P Require Import Prelude CString Request RequestThms Response ResponseThms Ctx Middleware Policy Dates Static StaticThms Doubles Http1.
Local Open Scope nat_scope.

Inductive ioh_encoding_t := IOH_ENCODING_NONE | IOH_ENCODING_GZIP | IOH_ENCODING_BROTLI.

#[export] Instance ioh_encoding_eq_dec : EqDecision ioh_encoding_t.
Proof. solve_decision. Defined.

Record ioh_compress_config_t := mk_compress {
  enable_gzip : bool;
  enable_brotli : bool;
  enable_precompressed : bool;
  min_size : Z;
  gzip_level : Z;
  brotli_quality : Z;
}.

Definition ioh_compress_config_init : ioh_compress_config_t := mk_compress true true true 1024 6 4.

(** ** [strtod] *)

(** The exponent part after a mantissa: a letter, an optional sign and digits. *)
Definition exponent (letter : byte) (p : bytes) : Z :=
  match p with
  | c :: p =>
      if to_lower c =b letter then
        let '(neg, p) := match p with
                         | s :: q => if s =b "-"%byte then (true, q) else if s =b "+"%byte then (false, q) else (false, p)
                         | [] => (false, p)
                         end in
        let e := dec_val 0 (fst (span is_digit p)) in
        if neg then (- e)%Z else e
      else 0%Z
  | [] => 0%Z
  end.

(** A mantissa: digits, and more digits after an optional point. *)
Definition mantissa (digit : byte -> bool) (p : bytes) : bytes * bytes * bytes :=
  let '(ds, p) := span digit p in
  match p with
  | c :: q => if c =b "."%byte then let '(fs, q) := span digit q in (ds, fs, q) else (ds, [], p)
  | [] => (ds, [], p)
  end.

(** [m * 10^e] and [m * 2^e], rounded to nearest.  Exponents beyond 400 (1200) are out of
    the range of doubles for the mantissas of the short texts that are read. *)
Definition scale10 (m e : Z) : double :=
  match m with
  | Zpos p =>
      if (400 <? e)%Z then S754_infinity false
      else if (e <? -400)%Z then S754_zero false
      else if (0 <=? e)%Z then double_of (m * 10 ^ e)
      else ddiv (S754_finite false p 0) (S754_finite false (Z.to_pos (10 ^ (- e))) 0)
  | _ => S754_zero false
  end.

Definition scale2 (m e : Z) : double :=
  if (1200 <? e)%Z then (if (m =? 0)%Z then S754_zero false else S754_infinity false)
  else if (e <? -1200)%Z then S754_zero false
  else binary_normalize 53 1024 m e false.

Definition hex_val (b : byte) : Z :=
  if is_digit b then digit_val b else (b2z (to_lower b) - 87)%Z.
Definition hex_number (l : bytes) : Z := foldl (fun acc b => acc * 16 + hex_val b)%Z 0%Z l.

Definition dneg (d : double) : double := SFopp d.

Definition unsigned_strtod (p : bytes) : double :=
  if starts_ci (bs "inf") p then S754_infinity false
  else if starts_ci (bs "nan") p then S754_nan
  else
    let '(hs, hf, hr) := mantissa is_hex (drop 2 p) in
    if starts_ci (bs "0x") p && (0 <? length (hs ++ hf)) then
      scale2 (hex_number (hs ++ hf)) (exponent "p"%byte hr - 4 * Z.of_nat (length hf))
    else
      let '(ds, fs, r) := mantissa is_digit p in
      if length (ds ++ fs) =? 0 then S754_zero false
      else scale10 (dec_val 0 (ds ++ fs)) (exponent "e"%byte r - Z.of_nat (length fs)).

Definition strtod (p : bytes) : double :=
  match snd (span is_space p) with
  | c :: q => if c =b "-"%byte then dneg (unsigned_strtod q)
              else if c =b "+"%byte then unsigned_strtod q else unsigned_strtod (c :: q)
  | [] => S754_zero false
  end.

(** ** Negotiation *)

Definition blank (b : byte) : bool := (b =b SP) || (b =b HT).
Definition comma (b : byte) : bool := b =b ","%byte.
Definition token_byte (b : byte) : bool := negb (comma b || (b =b ";"%byte) || blank b).
Definition qvalue_byte (b : byte) : bool := negb (comma b || (b =b SP)).

Definition QBUF : nat := 16.

(** The [;q=] parameter, if there is one: its value and what follows. *)
Definition parse_qvalue (p : bytes) : double * bytes :=
  match snd (span blank p) with
  | c :: p =>
      if c =b ";"%byte then
        match snd (span blank p) with
        | q :: e :: r =>
            if ((q =b "q"%byte) || (q =b "Q"%byte)) && (e =b "="%byte) then
              let text := take (QBUF - 1) (fst (span qvalue_byte r)) in
              (strtod text, drop (length text) r)
            else (double_of 1, q :: e :: r)
        | r => (double_of 1, r)
        end
      else (double_of 1, c :: p)
  | [] => (double_of 1, [])
  end.

(** The bytes from [pos] on; [None] when no further token is found. *)
Definition parse_encoding_token (p : bytes) : option (bytes * double * bytes) :=
  match snd (span (fun b => comma b || blank b) p) with
  | [] => None
  | p =>
      let '(token, p) := span token_byte p in
      let '(q, p) := parse_qvalue p in
      let rest := snd (span (fun b => negb (comma b)) p) in
      if length token =? 0 then None else Some (token, q, rest)
  end.

Record qvalues := mk_q { gzip_q : double; br_q : double; star_q : double; identity_excluded : bool }.

Definition DZERO : double := S754_zero false.

Definition token_is (token name : bytes) : bool :=
  (length token =? length name) && strncasecmp_eq token name (length name).

Definition note_token (q : qvalues) (token : bytes) (v : double) : qvalues :=
  if token_is token (bs "gzip") then mk_q v (br_q q) (star_q q) (identity_excluded q)
  else if token_is token (bs "br") then mk_q (gzip_q q) v (star_q q) (identity_excluded q)
  else if (length token =? 1) && (char_at token 0 =b "*"%byte) then mk_q (gzip_q q) (br_q q) v (identity_excluded q)
  else if token_is token (bs "identity") then
    mk_q (gzip_q q) (br_q q) (star_q q) (if SFeqb v DZERO then true else identity_excluded q)
  else q.

(** The loop over the tokens; each takes at least one byte. *)
Fixpoint token_loop (fuel : nat) (p : bytes) (q : qvalues) : qvalues :=
  match fuel with
  | O => q
  | S fuel =>
      match parse_encoding_token p with
      | Some (token, v, rest) => token_loop fuel rest (note_token q token v)
      | None => q
      end
  end.

Definition DMINUS : double := double_of (-1).

(** The default of the wildcard, the exclusion of zero, and the choice. *)
Definition choose (q : qvalues) : ioh_encoding_t :=
  let '(g, b) := if SFleb DZERO (star_q q)
                 then (if SFltb (gzip_q q) DZERO then star_q q else gzip_q q,
                       if SFltb (br_q q) DZERO then star_q q else br_q q)
                 else (gzip_q q, br_q q) in
  let g := if SFeqb g DZERO then DMINUS else g in
  let b := if SFeqb b DZERO then DMINUS else b in
  if SFltb DZERO b && SFleb g b then IOH_ENCODING_BROTLI
  else if SFltb DZERO g then IOH_ENCODING_GZIP else IOH_ENCODING_NONE.

Definition ioh_compress_negotiate (accept_encoding : option bytes) : ioh_encoding_t :=
  match accept_encoding with
  | None => IOH_ENCODING_NONE
  | Some a =>
      if char_at a 0 =b NUL then IOH_ENCODING_NONE
      else choose (token_loop (S (strlen a)) (c_str a) (mk_q DMINUS DMINUS DMINUS false))
  end.

(** ** Precompressed files *)

(** The path written to the buffer and whether a regular file is there. *)
Definition ioh_compress_precompressed (fs : file_system) (path : option bytes) (encoding : ioh_encoding_t) (out_size : nat)
    : bool * bytes :=
  match path with
  | None => (false, [])
  | Some path =>
      if out_size =? 0 then (false, []) else
      match (match encoding with IOH_ENCODING_GZIP => Some (bs ".gz") | IOH_ENCODING_BROTLI => Some (bs ".br") | IOH_ENCODING_NONE => None end) with
      | None => (false, [])
      | Some suffix =>
          let text := c_str path ++ suffix in
          if out_size <=? length text then (false, take (out_size - 1) text)
          else (match stat fs text with Some st => st_reg st | None => false end, text)
      end
  end.

(** ** Compressing a body *)

(** The libraries: whether they are compiled in, and what they compute.  [deflate_run]
    and [brotli_compress] are given the room for the output; [None] is a failure. *)
Record codecs := mk_codecs {
  have_zlib : bool;
  deflateBound : Z -> Z;
  deflateInit2 : Z -> bool;
  deflate_run : Z -> bytes -> Z -> option bytes;
  have_brotli : bool;
  brotli_max : Z -> Z;
  brotli_compress : Z -> bytes -> Z -> option bytes;
}.

Definition compress_gzip (k : codecs) (input : bytes) (level : Z) (h : heap) : res bytes * heap :=
  let in_len := Z.of_nat (length input) in
  let bound := deflateBound k in_len in
  let '(ok, h) := xalloc h in
  if negb ok then (Err ENOMEM, h) else
  if negb (deflateInit2 k level) then (Err EIO, h) else
  match deflate_run k level (take (Z.to_nat (u32 in_len)) input) (u32 bound) with
  | None => (Err EIO, h)
  | Some out => (Ok out, h)
  end.

Definition compress_brotli (k : codecs) (input : bytes) (quality : Z) (h : heap) : res bytes * heap :=
  let in_len := Z.of_nat (length input) in
  let max_len := if (brotli_max k in_len =? 0)%Z then u64 (in_len + 1024) else brotli_max k in_len in
  let '(ok, h) := xalloc h in
  if negb ok then (Err ENOMEM, h) else
  match brotli_compress k quality input max_len with
  | None => (Err EIO, h)
  | Some out => (Ok out, h)
  end.

(** What is done once a coding is chosen: the name of the coding and the new body. *)
Definition compress_body (k : codecs) (cfg : ioh_compress_config_t) (enc : ioh_encoding_t) (input : bytes) (h : heap)
    : option (bytes * (res bytes * heap)) :=
  match enc with
  | IOH_ENCODING_GZIP =>
      if enable_gzip cfg && have_zlib k then Some (bs "gzip", compress_gzip k input (gzip_level cfg) h) else None
  | IOH_ENCODING_BROTLI =>
      if enable_brotli cfg && have_brotli k then Some (bs "br", compress_brotli k input (brotli_quality cfg) h) else None
  | IOH_ENCODING_NONE => None
  end.

Definition CONTENT_ENCODING : bytes := bs "Content-Encoding".

Definition ioh_compress_response (k : codecs) (cfg : ioh_compress_config_t) (req : ioh_request_t) (h : heap) (r : ioh_response_t) : step :=
  let enc := ioh_compress_negotiate (ioh_request_header req (bs "Accept-Encoding")) in
  match ioh_response_add_vary h r (Some (bs "Accept-Encoding")) with
  | Some (Ok _, r, h) =>
      if (r_body_len r <? min_size cfg)%Z then Some (Ok (), r, h) else
      match compress_body k cfg enc (body_text r) h with
      | None => Some (Ok (), r, h)
      | Some (_, (Err e, h)) => Some (Err e, r, h)
      | Some (name, (Ok out, h)) =>
          match ioh_response_set_header h r (Some CONTENT_ENCODING) (Some name) with
          | Some (Ok _, r, h) => ioh_response_set_body h r (Some out) (Z.of_nat (length out))
          | other => other
          end
      end
  | other => other
  end.

(** ** Order on q-values *)

(** A q-value in thousandths as the double it is read as; -1 for none. *)
Definition qd (k : Z) : double := if (k <? 0)%Z then DMINUS else scale10 k (-3).

(** The order of positive normal numbers: exponent first, then mantissa. *)
Definition order_key (d : double) : option Z :=
  match d with
  | S754_finite false m e => if (Zpos m <? 2 ^ 53)%Z then Some (e * 2 ^ 53 + Zpos m)%Z else None
  | _ => None
  end.

Lemma compare_keys a b x y :
  order_key a = Some x -> order_key b = Some y -> SFcompare a b = Some (x ?= y)%Z.
Proof.
  destruct a as [?|?| |[] m e]; try done. destruct b as [?|?| |[] m' e']; try done. unfold order_key.
  destruct (Z.ltb_spec (Zpos m) (2 ^ 53)); [|done]. destruct (Z.ltb_spec (Zpos m') (2 ^ 53)); [|done].
  intros [= <-] [= <-]. unfold SFcompare. f_equal. destruct (Z.compare_spec e e').
  - subst e'. rewrite Z.add_compare_mono_l. done.
  - symmetry. apply Z.compare_lt_iff. lia.
  - symmetry. apply Z.compare_gt_iff. lia.
Qed.

Definition keys_increase (k : Z) : bool :=
  match order_key (qd k), order_key (qd (k + 1)) with
  | Some x, Some y => (x <? y)%Z
  | _, _ => false
  end.

Lemma all_keys_increase : forallb keys_increase (seqZ 1 1000) = true.
Proof. vm_compute. reflexivity. Qed.

Lemma key_at k : (1 <= k <= 1000)%Z -> exists x, order_key (qd k) = Some x /\ exists y, order_key (qd (k + 1)) = Some y /\ (x < y)%Z.
Proof.
  intros Hk. pose proof all_keys_increase as H. rewrite forallb_forall in H. specialize (H k).
  assert (Hin : In k (seqZ 1 1000)) by (apply list_elem_of_In, elem_of_seqZ; lia). specialize (H Hin). unfold keys_increase in H.
  destruct (order_key (qd k)) as [x|]; [|done]. destruct (order_key (qd (k + 1))) as [y|]; [|done].
  apply Z.ltb_lt in H. eauto.
Qed.

Lemma keys_ordered a b : (1 <= a <= 1000)%Z -> (a < b <= 1000)%Z ->
  exists x y, order_key (qd a) = Some x /\ order_key (qd b) = Some y /\ (x < y)%Z.
Proof.
  intros Ha [Hab Hb]. revert Hb. pattern b. apply Zlt_lower_bound_ind with (z := (a + 1)%Z); [|lia]. clear b Hab.
  intros b IH Hab Hb. destruct (key_at a Ha) as (x & Hx & y & Hy & Hxy).
  destruct (decide (b = a + 1)%Z) as [->|]; [eauto|].
  destruct (IH (b - 1)%Z) as (x' & y' & Hx' & Hy' & Hlt); [lia|lia|]. destruct (key_at (b - 1)) as (x2 & Hx2 & y2 & Hy2 & Hlt2); [lia|].
  rewrite Z.sub_add in Hy2. exists x', y2. split_and!; auto. simplify_eq. lia.
Qed.

Lemma qd_neg : qd (-1) = DMINUS.
Proof. done. Qed.

(** Doubles that stand for q-values are ordered as the q-values. *)
Lemma qd_compare a b : (-1 <= a <= 1000)%Z -> (-1 <= b <= 1000)%Z -> SFcompare (qd a) (qd b) = Some (a ?= b)%Z.
Proof.
  assert (Hpos : forall k, (1 <= k <= 1000)%Z -> exists m e, qd k = S754_finite false m e).
  { intros k Hk. destruct (key_at k Hk) as (x & Hx & _). destruct (qd k) as [?|?| |[] m e]; try done. eauto. }
  intros Ha Hb. destruct (Z.compare_spec a b) as [->|Hlt|Hgt].
  - destruct (decide (1 <= b)%Z); [|assert (b = 0 \/ b = -1)%Z as [->| ->] by lia; vm_compute; done].
    destruct (key_at b) as (x & Hx & _); [lia|]. rewrite (compare_keys _ _ _ _ Hx Hx). by rewrite Z.compare_refl.
  - destruct (decide (1 <= a)%Z).
    + destruct (keys_ordered a b) as (x & y & Hx & Hy & Hxy); [lia..|]. rewrite (compare_keys _ _ _ _ Hx Hy).
      f_equal. by apply Z.compare_lt_iff.
    + destruct (decide (1 <= b)%Z); [|assert (a = -1 /\ b = 0)%Z as [-> ->] by lia; vm_compute; done].
      destruct (Hpos b) as (m & e & ->); [lia|]. assert (a = 0 \/ a = -1)%Z as [->| ->] by lia; vm_compute; done.
  - destruct (decide (1 <= b)%Z).
    + destruct (keys_ordered b a) as (x & y & Hx & Hy & Hxy); [lia..|]. rewrite (compare_keys _ _ _ _ Hy Hx).
      f_equal. by apply Z.compare_gt_iff.
    + destruct (decide (1 <= a)%Z); [|assert (b = -1 /\ a = 0)%Z as [-> ->] by lia; vm_compute; done].
      destruct (Hpos a) as (m & e & ->); [lia|]. assert (b = 0 \/ b = -1)%Z as [->| ->] by lia; vm_compute; done.
Qed.

Lemma qd_tests a b : (-1 <= a <= 1000)%Z -> (-1 <= b <= 1000)%Z ->
  SFltb (qd a) (qd b) = (a <? b)%Z /\ SFleb (qd a) (qd b) = (a <=? b)%Z /\ SFeqb (qd a) (qd b) = (a =? b)%Z.
Proof.
  intros Ha Hb. unfold SFltb, SFleb, SFeqb. rewrite qd_compare by done.
  destruct (Z.compare_spec a b), (Z.ltb_spec a b), (Z.leb_spec a b), (Z.eqb_spec a b); (done || lia).
Qed.

(** ** Accept-Encoding headers *)

Abbreviation coding := (bytes * option Z)%type.

(** A q-value with three decimals. *)
Definition q_text (k : Z) : bytes :=
  [digit_byte (k / 1000); "."%byte; digit_byte (k / 100 mod 10); digit_byte (k / 10 mod 10); digit_byte (k mod 10)].

Definition render_coding (c : coding) : bytes :=
  fst c ++ match snd c with Some k => bs ";q=" ++ q_text k | None => [] end.

Fixpoint render_codings (cs : list coding) : bytes :=
  match cs with
  | [] => []
  | c :: cs => bs ", " ++ render_coding c ++ render_codings cs
  end.

Definition render_accept (cs : list coding) : bytes := drop 2 (render_codings cs).

Definition coding_ok (c : coding) : Prop :=
  fst c ≠ [] /\ Forall (fun b => token_byte b = true /\ b ≠ NUL) (fst c) /\ (forall k, snd c = Some k -> 0 <= k <= 1000)%Z.

(** The weight of a coding in thousandths. *)
Definition weight (c : coding) : Z := default 1000%Z (snd c).

(** The weight the list gives to a name: that of its last entry, -1 if there is none. *)
Definition weight_of (name : bytes) (cs : list coding) : Z :=
  foldl (fun w c => if decide (lower (fst c) = name) then weight c else w) (-1)%Z cs.

(** A coding that is not named takes the weight of the wildcard; the heavier of the two
    is chosen, brotli when they are equal, and none without a positive weight. *)
Definition accept_spec (cs : list coding) : ioh_encoding_t :=
  let star := weight_of (bs "*") cs in
  let g := weight_of (bs "gzip") cs in
  let b := weight_of (bs "br") cs in
  let g := if (g <? 0)%Z then star else g in
  let b := if (b <? 0)%Z then star else b in
  if (0 <? b)%Z && (g <=? b)%Z then IOH_ENCODING_BROTLI else if (0 <? g)%Z then IOH_ENCODING_GZIP else IOH_ENCODING_NONE.

Lemma weight_range c : coding_ok c -> (0 <= weight c <= 1000)%Z.
Proof. intros (_ & _ & Hk). unfold weight. destruct (snd c) as [k|]; simpl; [by apply Hk|lia]. Qed.

Lemma digit_range k n : (0 <= k)%Z -> (0 <= k / n mod 10 <= 9)%Z.
Proof. intros H. pose proof (Z.mod_pos_bound (k / n) 10). lia. Qed.

Lemma strtod_q_text k : (0 <= k <= 1000)%Z -> strtod (q_text k) = qd k.
Proof.
  intros Hk. pose proof (digit_range k 100 ltac:(lia)) as D1. pose proof (digit_range k 10 ltac:(lia)) as D2.
  assert (D3 : (0 <= k mod 10 <= 9)%Z) by zdiv. assert (D0 : (k / 1000 = 0 \/ k / 1000 = 1)%Z) by zdiv.
  assert (Hv : dec_val 0 [digit_byte (k / 1000); digit_byte (k / 100 mod 10); digit_byte (k / 10 mod 10); digit_byte (k mod 10)] = k).
  { unfold dec_val. simpl. rewrite !digit_val_digit_byte by zdiv. zdiv. }
  unfold q_text. set (d1 := digit_byte (k / 100 mod 10)) in *. set (d2 := digit_byte (k / 10 mod 10)) in *. set (d3 := digit_byte (k mod 10)) in *.
  assert (I1 : is_digit d1 = true) by by apply is_digit_digit_byte. assert (I2 : is_digit d2 = true) by by apply is_digit_digit_byte.
  assert (I3 : is_digit d3 = true) by by apply is_digit_digit_byte. clearbody d1 d2 d3.
  assert (Hu : unsigned_strtod [digit_byte (k / 1000); "."%byte; d1; d2; d3] = scale10 k (-3)).
  { unfold unsigned_strtod.
    replace (starts_ci (bs "inf") [digit_byte (k / 1000); "."%byte; d1; d2; d3]) with false by (by destruct D0 as [-> | ->]).
    replace (starts_ci (bs "nan") [digit_byte (k / 1000); "."%byte; d1; d2; d3]) with false by (by destruct D0 as [-> | ->]).
    replace (starts_ci (bs "0x") [digit_byte (k / 1000); "."%byte; d1; d2; d3]) with false by (by destruct D0 as [-> | ->]).
    destruct (mantissa is_hex _) as [[hs hf] hr]. cbn [andb].
    assert (Hm : mantissa is_digit [digit_byte (k / 1000); "."%byte; d1; d2; d3] = ([digit_byte (k / 1000)], [d1; d2; d3], [])).
    { unfold mantissa. cbn [span]. rewrite is_digit_digit_byte by zdiv. change (is_digit "."%byte) with false. cbn iota beta.
      rewrite beq_refl. cbn [span]. rewrite I1, I2, I3. done. }
    rewrite Hm. cbn [app length Nat.eqb exponent]. rewrite Hv. done. }
  unfold strtod. cbn [span].
  replace (is_space (digit_byte (k / 1000))) with false by (by destruct D0 as [-> | ->]). cbn iota beta. cbn [snd].
  replace (digit_byte (k / 1000) =b "-"%byte) with false by (by destruct D0 as [-> | ->]).
  replace (digit_byte (k / 1000) =b "+"%byte) with false by (by destruct D0 as [-> | ->]).
  rewrite Hu. unfold qd. by replace (k <? 0)%Z with false by (symmetry; apply Z.ltb_ge; lia).
Qed.

(** What may follow a coding: nothing, or a comma. *)
Definition after_coding (rest : bytes) : Prop := rest = [] \/ exists r, rest = ","%byte :: r.

Lemma span_stop (f : byte -> bool) a rest :
  Forall (fun b => f b = true) a -> (forall b r, rest = b :: r -> f b = false) -> span f (a ++ rest) = (a, rest).
Proof. intros Ha Hr. destruct rest as [|b r]; apply span_app; auto. by apply Hr with r. Qed.

Lemma parse_qvalue_rendered q rest :
  (forall k, q = Some k -> 0 <= k <= 1000)%Z -> after_coding rest ->
  parse_qvalue (match q with Some k => bs ";q=" ++ q_text k | None => [] end ++ rest) = (qd (default 1000%Z q), rest).
Proof.
  intros Hq Hr. destruct q as [k|]; simpl default.
  - specialize (Hq k eq_refl). unfold parse_qvalue. rewrite <- app_assoc. simpl app. cbn [span]. change (blank ";"%byte) with false.
    cbn iota beta. cbn [snd]. rewrite beq_refl. cbn [span]. change (blank "q"%byte) with false. cbn iota beta. cbn [snd].
    rewrite !beq_refl. cbn [orb andb]. change (digit_byte (k / 1000) :: ?x) with (digit_byte (k / 1000) :: x).
    assert (Hs : span qvalue_byte (q_text k ++ rest) = (q_text k, rest)).
    { apply span_stop.
      - assert (D : forall d, (0 <= d <= 9)%Z -> qvalue_byte (digit_byte d) = true).
        { intros d Hd. enum d; reflexivity. }
        repeat constructor; apply D; zdiv.
      - intros b r ->. destruct Hr as [|[r' [= -> _]]]; done. }
    unfold q_text in Hs. simpl app in Hs. rewrite Hs. cbn [fst]. change (take (QBUF - 1) ?t) with t. fold (q_text k).
    rewrite strtod_q_text by done. f_equal. 
  - unfold parse_qvalue. simpl app. destruct Hr as [->|[r ->]]; reflexivity.
Qed.

Lemma parse_token_rendered c rest :
  coding_ok c -> after_coding rest -> parse_encoding_token (bs ", " ++ render_coding c ++ rest) = Some (fst c, qd (weight c), rest)
  /\ parse_encoding_token (render_coding c ++ rest) = Some (fst c, qd (weight c), rest).
Proof.
  intros (Hne & Hb & Hk) Hr. destruct c as [name q]. simpl in *. destruct name as [|x name]; [done|].
  assert (Hx : comma x || blank x = false).
  { apply Forall_cons in Hb as [[Hx _] _]. unfold token_byte in Hx. apply negb_true_iff in Hx. by destruct (comma x), (blank x), (x =b ";"%byte). }
  assert (Hcore : parse_encoding_token (render_coding (x :: name, q) ++ rest) = Some (x :: name, qd (weight (x :: name, q)), rest)).
  { assert (Er : render_coding (x :: name, q) ++ rest = (x :: name) ++ (match q with Some k => bs ";q=" ++ q_text k | None => [] end ++ rest))
      by (unfold render_coding; by rewrite <- app_assoc).
    rewrite Er. pose proof (parse_qvalue_rendered q rest Hk Hr) as Hq.
    assert (Hs : forall b r, match q with Some k => bs ";q=" ++ q_text k | None => [] end ++ rest = b :: r -> token_byte b = false).
    { intros b r. destruct q as [k|]; simpl; [by intros [= <- _]|]. intros ->. by destruct Hr as [|[r' [= -> _]]]. }
    generalize dependent (match q with Some k => bs ";q=" ++ q_text k | None => [] end ++ rest). intros t _ Hq Hs.
    assert (Hfirst : span (fun b => comma b || blank b) ((x :: name) ++ t) = ([], (x :: name) ++ t)) by (simpl; by rewrite Hx).
    unfold parse_encoding_token. rewrite Hfirst. cbn [snd app].
    change (span token_byte (x :: name ++ t)) with (span token_byte ((x :: name) ++ t)). rewrite span_stop; [|eapply Forall_impl; [exact Hb|by intros ? [? _]]|done]. rewrite Hq. simpl length. cbn [Nat.eqb].
    replace (snd (span (fun b => negb (comma b)) rest)) with rest; [done|]. by destruct Hr as [->|[r ->]]. }
  split; [|exact Hcore]. rewrite <- Hcore. unfold parse_encoding_token, render_coding. simpl. by rewrite Hx.
Qed.

Lemma rest_after cs : after_coding (render_codings cs).
Proof. destruct cs as [|c cs]; [by left|]. right. simpl. eauto. Qed.

Lemma token_is_iff (c : coding) name :
  coding_ok c -> NUL ∉ name -> lower name = name -> token_is (fst c) name = bool_decide (lower (fst c) = name).
Proof.
  intros (_ & Hb & _) Hn Hl. assert (Hc : NUL ∉ fst c).
  { intros Hin. rewrite Forall_forall in Hb. by apply Hb in Hin as [_ ?]. }
  unfold token_is, strncasecmp_eq. rewrite !strndup_plain by done. apply eq_true_iff_eq.
  rewrite bool_decide_eq_true, andb_true_iff, Nat.eqb_eq, bytes_eqb_true, firstn_all. fold (lower name). rewrite Hl. split.
  - intros [E Hf]. by rewrite <- E, firstn_all in Hf.
  - intros E. assert (length (fst c) = length name) as El by (rewrite <- E; unfold lower; by rewrite length_fmap).
    split; [done|]. by rewrite <- El, firstn_all.
Qed.

Lemma star_iff (c : coding) : (length (fst c) =? 1) && (char_at (fst c) 0 =b "*"%byte) = bool_decide (lower (fst c) = bs "*").
Proof.
  apply eq_true_iff_eq. rewrite bool_decide_eq_true, andb_true_iff, Nat.eqb_eq, beq_true. destruct c as [[|x [|y t]] q]; simpl.
  - split; [by intros [? _]|done].
  - split; [intros [_ E]; change (x = "*"%byte) in E; by subst|]. intros E. split; [done|]. injection E as E. change (x = "*"%byte). revert E. clear. destruct x; vm_compute; congruence.
  - split; [by intros [? _]|done].
Qed.

Definition q_state (cs : list coding) (x : bool) : qvalues :=
  mk_q (qd (weight_of (bs "gzip") cs)) (qd (weight_of (bs "br") cs)) (qd (weight_of (bs "*") cs)) x.

Lemma weight_of_snoc name cs c :
  weight_of name (cs ++ [c]) = if decide (lower (fst c) = name) then weight c else weight_of name cs.
Proof. unfold weight_of. by rewrite foldl_app. Qed.

Lemma note_token_state cs c x :
  coding_ok c -> exists x', note_token (q_state cs x) (fst c) (qd (weight c)) = q_state (cs ++ [c]) x'.
Proof.
  intros Hc. unfold note_token. rewrite !(token_is_iff c) by (done || bcompute). rewrite star_iff.
  unfold q_state. rewrite !weight_of_snoc.
  destruct (decide (lower (fst c) = bs "gzip")) as [E|E1].
  { rewrite E. eexists. reflexivity. }
  destruct (decide (lower (fst c) = bs "br")) as [E|E2].
  { rewrite E. eexists. reflexivity. }
  destruct (decide (lower (fst c) = bs "*")) as [E|E3].
  { rewrite E. eexists. reflexivity. }
  rewrite !bool_decide_eq_false_2 by done. destruct (bool_decide _); eexists; reflexivity.
Qed.

Lemma token_loop_rendered fuel done_ cs x :
  Forall coding_ok cs -> length cs ≤ fuel -> exists x', token_loop fuel (render_codings cs) (q_state done_ x) = q_state (done_ ++ cs) x'.
Proof.
  intros Hf. revert fuel done_ x. induction Hf as [|c cs Hc Hcs IH]; intros fuel ds x Hl.
  - rewrite app_nil_r. exists x. by destruct fuel.
  - destruct fuel as [|fuel]; [simpl in Hl; lia|]. cbn [token_loop render_codings].
    destruct (parse_token_rendered c (render_codings cs) Hc (rest_after cs)) as [-> _].
    destruct (note_token_state ds c x Hc) as [x1 ->]. destruct (IH fuel (ds ++ [c]) x1) as [x2 ->]; [simpl in Hl; lia|].
    exists x2. by rewrite <- app_assoc.
Qed.

Lemma weight_of_range name cs : Forall coding_ok cs -> (-1 <= weight_of name cs <= 1000)%Z.
Proof.
  induction cs as [|c cs IH] using rev_ind; intros Hf; [unfold weight_of; simpl; lia|]. apply Forall_app in Hf as [Hf Hc]. apply Forall_cons in Hc as [Hc _].
  rewrite weight_of_snoc. specialize (IH Hf). pose proof (weight_range c Hc). destruct (decide _); lia.
Qed.

Lemma choose_spec cs x : Forall coding_ok cs -> choose (q_state cs x) = accept_spec cs.
Proof.
  intros Hf. unfold choose, accept_spec, q_state. simpl.
  pose proof (weight_of_range (bs "gzip") cs Hf) as Hg. pose proof (weight_of_range (bs "br") cs Hf) as Hb.
  pose proof (weight_of_range (bs "*") cs Hf) as Hs. generalize dependent (weight_of (bs "gzip") cs).
  generalize dependent (weight_of (bs "br") cs). generalize dependent (weight_of (bs "*") cs). clear. intros s Hs b Hb g Hg.
  change DZERO with (qd 0). change DMINUS with (qd (-1)).
  assert (T := qd_tests). destruct (T 0 s)%Z as (_ & -> & _); [lia..|]. destruct (T g 0)%Z as (-> & _ & _); [lia..|].
  destruct (T b 0)%Z as (-> & _ & _); [lia..|].
  assert (Hif : forall (t : bool) a c, (if t then qd a else qd c) = qd (if t then a else c)) by (by intros []).
  replace (if (0 <=? s)%Z then _ else _) with (qd (if (g <? 0)%Z then s else g), qd (if (b <? 0)%Z then s else b)).
  2:{ destruct (Z.leb_spec 0 s), (Z.ltb_spec g 0), (Z.ltb_spec b 0); try done; repeat f_equal; lia. }
  set (g' := if (g <? 0)%Z then s else g). set (b' := if (b <? 0)%Z then s else b).
  assert (Hg' : (-1 <= g' <= 1000)%Z) by (unfold g'; destruct (g <? 0)%Z; lia).
  assert (Hb' : (-1 <= b' <= 1000)%Z) by (unfold b'; destruct (b <? 0)%Z; lia). clearbody g' b'.
  destruct (T g' 0)%Z as (_ & _ & ->); [lia..|]. destruct (T b' 0)%Z as (_ & _ & ->); [lia..|]. rewrite !Hif.
  set (g2 := if (g' =? 0)%Z then (-1)%Z else g'). set (b2 := if (b' =? 0)%Z then (-1)%Z else b').
  assert (Hg2 : (-1 <= g2 <= 1000)%Z) by (unfold g2; destruct (g' =? 0)%Z; lia).
  assert (Hb2 : (-1 <= b2 <= 1000)%Z) by (unfold b2; destruct (b' =? 0)%Z; lia).
  destruct (T 0 b2)%Z as (-> & _ & _); [lia..|]. destruct (T g2 b2)%Z as (_ & -> & _); [lia..|]. destruct (T 0 g2)%Z as (-> & _ & _); [lia..|].
  unfold g2, b2. destruct (Z.eqb_spec g' 0), (Z.eqb_spec b' 0); subst; try done.
  - destruct (Z.ltb_spec 0 b'), (Z.leb_spec (-1) b'), (Z.leb_spec 0 b'); simpl; (done || lia).
Qed.

Lemma coding_plain c : coding_ok c -> NUL ∉ render_coding c.
Proof.
  intros (_ & Hb & Hk). unfold render_coding. rewrite not_elem_of_app. split.
  - intros Hin. rewrite Forall_forall in Hb. by apply Hb in Hin as [_ ?].
  - destruct (snd c) as [k|]; [|apply not_elem_of_nil]. specialize (Hk k eq_refl). rewrite not_elem_of_app. split; [bcompute|].
    assert (D : forall d, (0 <= d <= 9)%Z -> NUL ≠ digit_byte d) by (intros d Hd; enum d; discriminate).
    unfold q_text. rewrite !not_elem_of_cons. split_and!; try (apply D; zdiv); [done|apply not_elem_of_nil].
Qed.

Lemma codings_plain cs : Forall coding_ok cs -> NUL ∉ render_codings cs /\ length cs ≤ length (render_codings cs).
Proof.
  induction 1 as [|c cs Hc _ [IH1 IH2]]; [split; [apply not_elem_of_nil|simpl; lia]|]. cbn [render_codings].
  rewrite !length_app. simpl length. split; [|lia]. rewrite !not_elem_of_app. split_and!; [bcompute|by apply coding_plain|done].
Qed.

(** C23: Negotiation is the standard's.  For every [Accept-Encoding] list of codings with
    q-values of three decimals, the weight of gzip and of brotli is that of its last
    mention, in any case of letters, or of the wildcard if it has none; the coding with
    the greater weight is chosen, brotli when they are equal, and none when neither has a
    positive weight.  The comparisons of doubles agree with those of the decimals. *)
Theorem negotiate_by_weight cs rest :
  cs ≠ [] -> Forall coding_ok cs -> c_str rest = [] ->
  ioh_compress_negotiate (Some (render_accept cs ++ rest)) = accept_spec cs.
Proof.
  intros Hne Hf Hr. destruct cs as [|c cs]; [done|]. clear Hne. pose proof Hf as Hf0. apply Forall_cons in Hf as [Hc Hcs].
  change (render_accept (c :: cs)) with (render_coding c ++ render_codings cs).
  destruct (codings_plain cs Hcs) as [Hn Hl]. pose proof (coding_plain c Hc) as Hnc.
  assert (Hstr : c_str ((render_coding c ++ render_codings cs) ++ rest) = render_coding c ++ render_codings cs).
  { rewrite c_str_app by (rewrite not_elem_of_app; done). by rewrite Hr, app_nil_r. }
  unfold ioh_compress_negotiate. rewrite <- (char_at_c_str (_ ++ rest)). unfold strlen. rewrite Hstr.
  assert (Hh : (char_at (render_coding c ++ render_codings cs) 0 =b NUL) = false).
  { destruct c as [[|x n] q]; [by destruct Hc|]. apply beq_false. simpl. intros E. apply Hnc. rewrite <- E. apply elem_of_cons. by left. }
  rewrite Hh. cbn [token_loop]. destruct (parse_token_rendered c (render_codings cs) Hc (rest_after cs)) as [_ ->].
  change (mk_q DMINUS DMINUS DMINUS false) with (q_state [] false). destruct (note_token_state [] c false Hc) as [x1 ->].
  destruct (token_loop_rendered (length (render_coding c ++ render_codings cs)) ([] ++ [c]) cs x1 Hcs) as [x2 ->];
    [rewrite length_app; lia|]. by apply choose_spec.
Qed.

Lemma negotiate_by_weight_witness :
  ioh_compress_negotiate (Some (bs "GZIP;q=0.800, br;q=0.799, *;q=0.100")) = IOH_ENCODING_GZIP.
Proof.
  apply (negotiate_by_weight [(bs "GZIP", Some 800%Z); (bs "br", Some 799%Z); (bs "*", Some 100%Z)] []); [discriminate| |reflexivity].
  assert (Hok : forall name q, name ≠ [] -> forallb (fun b => token_byte b && negb (b =b NUL)) name = true -> (0 <= q <= 1000)%Z -> coding_ok (name, Some q)).
  { intros name q Hn Hb Hq. split; [exact Hn|split; [|by intros k [= <-]]]. apply Forall_forall. intros b Hin.
    rewrite forallb_forall in Hb. apply list_elem_of_In, Hb, andb_true_iff in Hin as [H1 H2]. split; [done|].
    apply negb_true_iff in H2. by apply beq_false. }
  repeat (apply List.Forall_cons; [apply Hok; [discriminate|reflexivity|lia]|]). apply List.Forall_nil.
Defined.

(** ** Losslessness *)







(** Coders that put a byte before the text and decoders that take it off. *)
Definition demo_coder (tag : byte) (input : bytes) (room : Z) : option bytes :=
  if (Z.of_nat (length input) + 1 <=? room)%Z then Some (tag :: input) else None.


Definition demo_codecs : codecs :=
  mk_codecs true (fun n => n + 18)%Z (fun _ => true) (fun _ => demo_coder "Z"%byte) true (fun _ => 0%Z) (fun _ => demo_coder "B"%byte).



Definition demo_reply : ioh_response_t := default demo_response
  (option_map (fun x => snd (fst x)) (ioh_static_serve demo_fs demo_static (demo_get (bs "/app.1a2b3c.js") []) [] demo_response)).

Definition demo_compress : ioh_compress_config_t := mk_compress true true true 4 6 4.


Definition occurs (pat text : bytes) : bool :=
  existsb (fun n => bytes_eqb (take (length pat) (drop n text)) pat) (seq 0 (length text)).

(** A file that is served, compressed and serialized has two [Content-Length] headers, and
    they disagree: the first is the one the static handler set before compression. *)
Example content_length_twice :
  match ioh_compress_response demo_codecs demo_compress (demo_get (bs "/app.1a2b3c.js") [(bs "Accept-Encoding", bs "gzip")]) [] demo_reply with
  | Some (_, r, _) => match ioh_http1_serialize_response r 4096 with
                      | Ok text => occurs (bs "Content-Length: 10") text && occurs (bs "Content-Length: 11") text
                      | Err _ => false
                      end
  | None => false
  end = true.
Proof. vm_compute. reflexivity. Qed.
