(* ===== verification/Ratelimit.v ===== *)
(** The rate-limiting middleware ([src/src/middleware/ioh_ratelimit.c]): a table of
    1024 token buckets with linear probing, keyed by the [Host] header.

    The token counts are doubles.  [clock] gives the successive
    readings of the monotonic clock; its position is part of the state passed on. *)
From Stdlib Require Import SpecFloat.
From stdpp Require Import gmap.
From S2P Require Import Prelude CString Radix Request Response ResponseThms Ctx Policy Doubles.

(** ** State *)

Definition IOH_RATELIMIT_BUCKETS : nat := Z.to_nat 1024.
Definition KEY_SIZE : nat := 128.

Record ioh_ratelimit_config_t := mk_rl_config { requests_per_second : Z; burst : Z }.

Record ioh_bucket_t := mk_bucket {
  b_key : bytes;
  b_tokens : double;
  b_last_refill : Z * Z;               (* seconds and nanoseconds *)
  b_in_use : bool;
}.

Record ioh_ratelimit_state_t := mk_rl_state {
  rl_cfg : ioh_ratelimit_config_t;
  buckets : list ioh_bucket_t;
}.

Definition blank_bucket : ioh_bucket_t := mk_bucket [] (S754_zero false) (0, 0)%Z false.

Definition set_bucket (st : ioh_ratelimit_state_t) (i : nat) (b : ioh_bucket_t) : ioh_ratelimit_state_t :=
  mk_rl_state (rl_cfg st) (<[i := b]> (buckets st)).

(** ** Operations *)

Definition hash_key (key : bytes) : nat :=
  Z.to_nat (fold_left (fun h b => u32 (u32 (u32 (Z.shiftl h 5) + h) + b2z b)) (c_str key) 5381 mod 1024)%Z.

(** The bucket made for a new key. *)
Definition new_bucket (cfg : ioh_ratelimit_config_t) (key : bytes) (now : Z * Z) : ioh_bucket_t :=
  mk_bucket (strndup key (KEY_SIZE - 1)) (double_of (burst cfg)) now true.

Section Check.
Context (clock : nat -> Z * Z).

(** The probing loop from its turn [i] on, [n] turns left: the slot found, the
    table and the clock position. *)
Fixpoint probe (n : nat) (st : ioh_ratelimit_state_t) (key : bytes) (idx i : nat) (t : nat)
    : option nat * ioh_ratelimit_state_t * nat :=
  match n with
  | O => (None, st, t)
  | S n =>
      let slot := (idx + i) mod IOH_RATELIMIT_BUCKETS in
      let b := default blank_bucket (buckets st !! slot) in
      if negb (b_in_use b) then (Some slot, set_bucket st slot (new_bucket (rl_cfg st) key (clock t)), S t) else
      if strncmp_eq (b_key b) key KEY_SIZE then (Some slot, st, t)
      else probe n st key idx (S i) t
  end.

Definition find_bucket (st : ioh_ratelimit_state_t) (key : bytes) (t : nat) : option nat * ioh_ratelimit_state_t * nat :=
  probe IOH_RATELIMIT_BUCKETS st key (hash_key key) 0 t.

Definition elapsed_time (now last : Z * Z) : double :=
  dadd (double_of (fst now - fst last)) (ddiv (double_of (snd now - snd last)) (double_of 1000000000)).

Definition refill_bucket (b : ioh_bucket_t) (cfg : ioh_ratelimit_config_t) (now : Z * Z) : ioh_bucket_t :=
  let elapsed := elapsed_time now (b_last_refill b) in
  if SFltb (S754_zero false) elapsed then
    let tokens := dadd (b_tokens b) (dmul elapsed (double_of (requests_per_second cfg))) in
    let tokens := if SFltb (double_of (burst cfg)) tokens then double_of (burst cfg) else tokens in
    mk_bucket (b_key b) tokens now (b_in_use b)
  else b.

(** The part of [ioh_ratelimit_check] after the lookup: refill and take a token. *)
Definition take_token (b : ioh_bucket_t) (cfg : ioh_ratelimit_config_t) (now : Z * Z) : bool * ioh_bucket_t :=
  let b := refill_bucket b cfg now in
  if SFleb (double_of 1) (b_tokens b)
  then (true, mk_bucket (b_key b) (dsub (b_tokens b) (double_of 1)) (b_last_refill b) (b_in_use b))
  else (false, b).

Definition ioh_ratelimit_check (tl_rl_state : option ioh_ratelimit_state_t) (key : option bytes) (t : nat)
    : bool * option ioh_ratelimit_state_t * nat :=
  match tl_rl_state, key with
  | Some st, Some key =>
      match find_bucket st key t with
      | (Some slot, st, t) =>
          let '(ok, b) := take_token (default blank_bucket (buckets st !! slot)) (rl_cfg st) (clock t) in
          (ok, Some (set_bucket st slot b), S t)
      | (None, st, t) => (false, Some st, t)
      end
  | _, _ => (false, tl_rl_state, t)
  end.

Definition ratelimit_middleware (tl_rl_state : option ioh_ratelimit_state_t) (t : nat) (next : next_fn)
    (c : ioh_ctx_t) (h : heap) : mw_step * option ioh_ratelimit_state_t * nat :=
  let key := default (bs "default") (ioh_request_header (c_req c) (bs "Host")) in
  let '(ok, st, t) := ioh_ratelimit_check tl_rl_state (Some key) t in
  if ok then (next c h, st, t) else
  let c := set_status c 429 in
  (match put_header (bs "Retry-After") (bs "1") c h with
   | Some (_, c, h) => Some (0%Z, c, h)
   | None => None
   end, st, t).

End Check.

Definition ioh_ratelimit_config_init : ioh_ratelimit_config_t := mk_rl_config 10 20.

Definition ioh_ratelimit_create (cfg : option ioh_ratelimit_config_t) (h : heap) (tl : option ioh_ratelimit_state_t)
    : bool * option ioh_ratelimit_state_t * heap :=
  match cfg with
  | None => (false, tl, h)
  | Some cfg =>
      let '(ok, h) := xalloc h in
      if negb ok then (false, tl, h)
      else (true, Some (mk_rl_state cfg (replicate IOH_RATELIMIT_BUCKETS blank_bucket)), h)
  end.

Definition ioh_ratelimit_destroy (tl : option ioh_ratelimit_state_t) : option ioh_ratelimit_state_t := None.

Definition ioh_ratelimit_reset (tl : option ioh_ratelimit_state_t) : option ioh_ratelimit_state_t :=
  match tl with
  | None => None
  | Some st => Some (mk_rl_state (rl_cfg st) (replicate IOH_RATELIMIT_BUCKETS blank_bucket))
  end.

(** ** Specification: a bucket per key *)

Abbreviation NB := IOH_RATELIMIT_BUCKETS.

Definition key_ok (k : bytes) : Prop := NUL ∉ k /\ length k < KEY_SIZE.

(** The buckets as a finite map, no more than the table holds; a request under a key
    takes a token of that key's bucket and of no other. *)
Definition spec_check (clock : nat -> Z * Z) (cfg : ioh_ratelimit_config_t) (m : gmap bytes ioh_bucket_t) (t : nat)
    (key : bytes) : bool * gmap bytes ioh_bucket_t * nat :=
  match m !! key with
  | Some b => let '(ok, b) := take_token b cfg (clock t) in (ok, <[key := b]> m, S t)
  | None =>
      if size m =? NB then (false, m, t) else
      let '(ok, b) := take_token (new_bucket cfg key (clock t)) cfg (clock (S t)) in (ok, <[key := b]> m, S (S t))
  end.

(** The answers to a sequence of requests. *)
Fixpoint spec_answers clock cfg m t (keys : list bytes) : list bool :=
  match keys with
  | [] => []
  | k :: keys => let '(ok, m, t) := spec_check clock cfg m t k in ok :: spec_answers clock cfg m t keys
  end.

Fixpoint answers clock (tl : option ioh_ratelimit_state_t) t (keys : list bytes) : list bool :=
  match keys with
  | [] => []
  | k :: keys => let '(ok, tl, t) := ioh_ratelimit_check clock tl (Some k) t in ok :: answers clock tl t keys
  end.

Definition bucket_at (st : ioh_ratelimit_state_t) (i : nat) : ioh_bucket_t := default blank_bucket (buckets st !! i).
Definition used_buckets (bs : list ioh_bucket_t) : nat := length (filter (fun b => b_in_use b = true) bs).

(** The probe sequence of a key. *)
Definition slot_of (k : bytes) (d : nat) : nat := (hash_key k + d) mod NB.

(** The table holds exactly the map: every key sits behind used slots only of its
    probe sequence, and no key twice. *)
Record table_ok (st : ioh_ratelimit_state_t) (m : gmap bytes ioh_bucket_t) : Prop := {
  tb_length : length (buckets st) = NB;
  tb_place : forall i, i < NB -> b_in_use (bucket_at st i) = true ->
    let k := b_key (bucket_at st i) in
    key_ok k /\ m !! k = Some (bucket_at st i)
    /\ exists d, d < NB /\ i = slot_of k d /\ forall e, e < d -> b_in_use (bucket_at st (slot_of k e)) = true;
  tb_stored : forall k b, m !! k = Some b ->
    exists i, i < NB /\ bucket_at st i = b /\ b_in_use b = true /\ b_key b = k
      /\ forall j, j < NB -> b_in_use (bucket_at st j) = true -> b_key (bucket_at st j) = k -> j = i;
  tb_size : size m = used_buckets (buckets st);
}.

(** ** Lemmas *)

Lemma NB_pos : 0 < NB.
Proof. unfold NB. lia. Qed.

Lemma hash_lt k : hash_key k < NB.
Proof. unfold hash_key, NB. apply Z2Nat.inj_lt; [apply Z.mod_pos_bound; lia|lia|apply Z.mod_pos_bound; lia]. Qed.

#[local] Opaque IOH_RATELIMIT_BUCKETS.

Lemma slot_lt k d : slot_of k d < NB.
Proof. apply Nat.mod_upper_bound. pose proof NB_pos. lia. Qed.

Lemma slot_onto k i : i < NB -> exists d, d < NB /\ i = slot_of k d.
Proof.
  intros Hi. pose proof (hash_lt k). unfold slot_of. destruct (decide (hash_key k ≤ i)).
  - exists (i - hash_key k). split; [lia|]. rewrite Nat.mod_small; lia.
  - exists (NB + i - hash_key k). split; [lia|]. replace (hash_key k + _) with (i + 1 * NB) by lia.
    rewrite Nat.Div0.mod_add. by rewrite Nat.mod_small.
Qed.

Lemma slot_eq k d : d < NB -> slot_of k d = if decide (hash_key k + d < NB) then hash_key k + d else hash_key k + d - NB.
Proof.
  intros Hd. pose proof (hash_lt k). unfold slot_of. case_decide; [by apply Nat.mod_small|].
  replace (hash_key k + d) with ((hash_key k + d - NB) + 1 * NB) at 1 by lia.
  rewrite Nat.Div0.mod_add. apply Nat.mod_small. lia.
Qed.

Lemma slot_inj k d e : d < NB -> e < NB -> slot_of k d = slot_of k e -> d = e.
Proof. intros Hd He. pose proof (hash_lt k). rewrite !slot_eq by done. repeat case_decide; lia. Qed.

Lemma bucket_key_test b k : key_ok b -> key_ok k -> strncmp_eq b k KEY_SIZE = bool_decide (b = k).
Proof.
  intros [Hb Lb] [Hk Lk]. unfold strncmp_eq, bytes_eqb. rewrite !strndup_plain, !take_ge by (done || lia). done.
Qed.

Lemma stored_key k : key_ok k -> strndup k (KEY_SIZE - 1) = k.
Proof. intros [Hk Lk]. rewrite strndup_plain by done. apply take_ge. unfold KEY_SIZE in *. lia. Qed.

Lemma used_buckets_insert bs i b b0 :
  bs !! i = Some b0 ->
  used_buckets (<[i := b]> bs) + (if b_in_use b0 then 1 else 0) = used_buckets bs + (if b_in_use b then 1 else 0).
Proof.
  intros Hi. pose proof (lookup_lt_Some _ _ _ Hi). rewrite <- (take_drop_middle _ _ _ Hi) at 2.
  rewrite insert_take_drop by done. unfold used_buckets. rewrite !filter_app, !filter_cons, !length_app.
  destruct (b_in_use b), (b_in_use b0); repeat case_decide; simpl; try done; lia.
Qed.

Lemma used_all st :
  length (buckets st) = NB -> (forall i, i < NB -> b_in_use (bucket_at st i) = true) -> used_buckets (buckets st) = NB.
Proof.
  intros Hl Ha. assert (Hf : Forall (fun b => b_in_use b = true) (buckets st)).
  { apply Forall_lookup. intros i b Hi. specialize (Ha i). unfold bucket_at in Ha. rewrite Hi in Ha. apply Ha.
    rewrite <- Hl. by eapply lookup_lt_Some. }
  rewrite <- Hl. unfold used_buckets. clear Ha Hl. induction Hf as [|b l Hb _ IH]; [done|].
  rewrite filter_cons_True by done. simpl. by rewrite IH.
Qed.

Lemma bucket_at_set st i j b :
  i < length (buckets st) -> bucket_at (set_bucket st i b) j = if decide (j = i) then b else bucket_at st j.
Proof.
  intros Hi. unfold bucket_at. simpl. case_decide; [subst; by rewrite list_lookup_insert_eq|].
  by rewrite list_lookup_insert_ne.
Qed.

Lemma set_bucket_twice st i b b' : set_bucket (set_bucket st i b) i b' = set_bucket st i b'.
Proof. unfold set_bucket. simpl. by rewrite list_insert_insert_eq. Qed.

Lemma bucket_lookup st i : i < length (buckets st) -> buckets st !! i = Some (bucket_at st i).
Proof. intros Hi. unfold bucket_at. by destruct (lookup_lt_is_Some_2 _ _ Hi) as [b ->]. Qed.

Section Probe.
Context (clock : nat -> Z * Z) (st : ioh_ratelimit_state_t) (m : gmap bytes ioh_bucket_t).
Hypothesis Hok : table_ok st m.

(** A stored key is found where it is. *)
Lemma probe_present k b t :
  m !! k = Some b -> exists i, i < NB /\ bucket_at st i = b /\ b_in_use b = true /\ b_key b = k
    /\ find_bucket clock st k t = (Some i, st, t).
Proof.
  intros Hk. destruct (tb_stored _ _ Hok _ _ Hk) as (i & Hi & Hb & Hu & Hkey & Huniq).
  exists i. do 4 (split; [done|]). pose proof (tb_place _ _ Hok i Hi) as Hp. rewrite Hb, Hkey in Hp.
  destruct (Hp Hu) as (Hko & _ & d & Hd & Ei & Hbefore). unfold find_bucket.
  assert (Hgo : forall r n e, e ≤ d -> d - e = r -> d - e < n -> probe clock n st k (hash_key k) e t = (Some i, st, t)); [|apply (Hgo d); lia].
  induction r as [|r IH]; intros n e He Hr Hn; (destruct n as [|n]; [lia|]); cbn [probe];
    fold (slot_of k e); fold (bucket_at st (slot_of k e)).
  - replace e with d by lia. rewrite <- Ei, Hb, Hu. cbn [negb]. rewrite bucket_key_test, Hkey by (by rewrite ?Hkey).
    by rewrite bool_decide_true.
  - rewrite Hbefore by lia. cbn [negb].
    destruct (tb_place _ _ Hok (slot_of k e) (slot_lt _ _) (Hbefore e ltac:(lia))) as (Hke & Hme & _).
    rewrite bucket_key_test by done. rewrite bool_decide_false; [by apply IH; lia|]. intros Eq.
    assert (Hs : slot_of k e = i). { apply Huniq; [apply slot_lt|apply Hbefore; lia|done]. }
    rewrite Ei in Hs. apply slot_inj in Hs; lia.
Qed.

(** A new key gets the first free slot of its sequence, if the table has one. *)
Lemma probe_absent k t :
  key_ok k -> m !! k = None ->
  (find_bucket clock st k t = (None, st, t) /\ size m = NB)
  \/ exists d, d < NB /\ b_in_use (bucket_at st (slot_of k d)) = false
       /\ (forall e, e < d -> b_in_use (bucket_at st (slot_of k e)) = true) /\ size m < NB
       /\ find_bucket clock st k t = (Some (slot_of k d), set_bucket st (slot_of k d) (new_bucket (rl_cfg st) k (clock t)), S t).
Proof.
  intros Hk Hm. unfold find_bucket. pose proof (tb_length _ _ Hok) as Hl.
  assert (Hgo : forall n e, e + n = NB -> (forall x, x < e -> b_in_use (bucket_at st (slot_of k x)) = true) ->
    (probe clock n st k (hash_key k) e t = (None, st, t) /\ forall x, x < NB -> b_in_use (bucket_at st (slot_of k x)) = true)
    \/ exists d, d < NB /\ b_in_use (bucket_at st (slot_of k d)) = false
       /\ (forall x, x < d -> b_in_use (bucket_at st (slot_of k x)) = true)
       /\ probe clock n st k (hash_key k) e t = (Some (slot_of k d), set_bucket st (slot_of k d) (new_bucket (rl_cfg st) k (clock t)), S t)).
  { induction n as [|n IH]; intros e He Hx; cbn [probe].
    { left. split; [done|]. intros x Hlt. apply Hx. lia. }
    fold (slot_of k e). fold (bucket_at st (slot_of k e)).
    destruct (b_in_use (bucket_at st (slot_of k e))) eqn:Eu; cbn [negb]; [|right; exists e; split; [lia|done]].
    destruct (tb_place _ _ Hok _ (slot_lt k e) Eu) as (Hke & Hme & _). rewrite bucket_key_test by done.
    rewrite bool_decide_false by (intros Eq; congruence). apply IH; [lia|].
    intros x Hlt. destruct (decide (x = e)); [by subst|apply Hx; lia]. }
  destruct (Hgo NB 0) as [[E Ha]|(d & Hd & Hu & Hb & E)]; [lia|lia|..].
  - left. split; [done|]. rewrite (tb_size _ _ Hok). apply used_all; [done|]. intros i Hi.
    destruct (slot_onto k i Hi) as (x & Hx & ->). by apply Ha.
  - right. exists d. do 3 (split; [done|]). split; [|done]. rewrite (tb_size _ _ Hok).
    pose proof (used_buckets_insert (buckets st) _ (new_bucket (rl_cfg st) k (clock t)) _ (bucket_lookup st (slot_of k d) ltac:(rewrite Hl; apply slot_lt))) as Hi.
    rewrite Hu in Hi. simpl in Hi.
    assert (used_buckets (<[slot_of k d:=new_bucket (rl_cfg st) k (clock t)]> (buckets st)) ≤ NB); [|lia].
    unfold used_buckets. etrans; [apply length_filter|]. rewrite length_insert. lia.
Qed.
End Probe.

(** Storing a key's bucket, in its slot or in the first free slot of its sequence. *)
Lemma table_put st m i k b :
  table_ok st m -> i < NB -> key_ok k -> b_in_use b = true -> b_key b = k ->
  (b_in_use (bucket_at st i) = true /\ b_key (bucket_at st i) = k \/ b_in_use (bucket_at st i) = false /\ m !! k = None) ->
  (exists d, d < NB /\ i = slot_of k d /\ forall e, e < d -> b_in_use (bucket_at st (slot_of k e)) = true) ->
  table_ok (set_bucket st i b) (<[k := b]> m).
Proof.
  intros Hok Hi Hk Hu Hbk Hold (d & Hd & Ei & Hbefore). pose proof (tb_length _ _ Hok) as Hl.
  assert (Hat : forall j, bucket_at (set_bucket st i b) j = if decide (j = i) then b else bucket_at st j)
    by (intros j; apply bucket_at_set; lia).
  assert (Hused : forall j, b_in_use (bucket_at st j) = true -> b_in_use (bucket_at (set_bucket st i b) j) = true)
    by (intros j Hj; rewrite Hat; by case_decide).
  assert (Hother : forall j, j < NB -> j ≠ i -> b_in_use (bucket_at st j) = true -> b_key (bucket_at st j) ≠ k).
  { intros j Hj Hne Huj Eq. destruct (tb_place _ _ Hok j Hj Huj) as (_ & Hm & _). rewrite Eq in Hm.
    destruct Hold as [[Hui Hki]|[_ Hn]]; [|congruence].
    destruct (tb_stored _ _ Hok _ _ Hm) as (x & _ & _ & _ & _ & Hx).
    pose proof (Hx j Hj Huj Eq). pose proof (Hx i Hi Hui Hki). congruence. }
  split.
  - simpl. by rewrite length_insert.
  - intros j Hj. rewrite Hat. case_decide as Ej; intros Huj; simpl.
    + subst j. rewrite Hbk, lookup_insert_eq. do 2 (split; [done|]). exists d. do 2 (split; [done|]).
      intros e He. by apply Hused, Hbefore.
    + destruct (tb_place _ _ Hok j Hj Huj) as (Hkj & Hm & x & Hx & Ex & Hbx).
      split; [done|]. split; [rewrite lookup_insert_ne; [done|]; intros Eq; by apply (Hother j)|].
      exists x. do 2 (split; [done|]). intros e He. by apply Hused, Hbx.
  - intros k0 b0. destruct (decide (k0 = k)) as [->|Hne].
    + rewrite lookup_insert_eq. intros [= <-]. exists i. rewrite Hat, decide_True by done. do 4 (split; [done|]).
      intros j Hj. rewrite Hat. case_decide; [done|]. intros Huj Hkj. by destruct (Hother j).
    + rewrite lookup_insert_ne by done. intros Hm. destruct (tb_stored _ _ Hok _ _ Hm) as (x & Hx & Eb & Hux & Hkx & Huniq).
      assert (Hxi : x ≠ i). { intros ->. subst b0. destruct Hold as [[_ ?]|[? _]]; congruence. }
      exists x. rewrite Hat, decide_False by done. do 4 (split; [done|]). intros j Hj. rewrite Hat. case_decide; [|by apply Huniq].
      intros _ ?. congruence.
  - pose proof (used_buckets_insert (buckets st) i b _ (bucket_lookup st i ltac:(lia))) as Hc. rewrite Hu in Hc. simpl.
    pose proof (tb_size _ _ Hok). destruct Hold as [[Hui Hki]|[Hui Hn]]; rewrite Hui in Hc.
    + destruct (tb_place _ _ Hok i Hi Hui) as (_ & Hm & _). rewrite Hki in Hm.
      rewrite map_size_insert_Some by by eexists. lia.
    + rewrite map_size_insert_None by done. lia.
Qed.

Lemma take_token_bucket b cfg now :
  b_in_use (snd (take_token b cfg now)) = b_in_use b /\ b_key (snd (take_token b cfg now)) = b_key b.
Proof. unfold take_token, refill_bucket. by repeat case_match. Qed.

Lemma check_refines clock st m t k :
  table_ok st m -> key_ok k ->
  exists st' m', table_ok st' m' /\ rl_cfg st' = rl_cfg st
    /\ ioh_ratelimit_check clock (Some st) (Some k) t =
         (fst (fst (spec_check clock (rl_cfg st) m t k)), Some st', snd (spec_check clock (rl_cfg st) m t k))
    /\ snd (fst (spec_check clock (rl_cfg st) m t k)) = m'.
Proof.
  intros Hok Hk. unfold spec_check, ioh_ratelimit_check. pose proof (tb_length _ _ Hok) as Hl.
  destruct (m !! k) as [b|] eqn:Em.
  - destruct (probe_present clock st m Hok k b t Em) as (i & Hi & Hb & Hu & Hkey & ->). fold (bucket_at st i). rewrite Hb.
    pose proof (take_token_bucket b (rl_cfg st) (clock t)) as [Hu' Hk']. destruct (take_token _ _ _) as [ok b']. simpl in *.
    exists (set_bucket st i b'), (<[k := b']> m). split; [|done]. pose proof (tb_place _ _ Hok i Hi) as Hp. rewrite Hb in Hp.
    destruct (Hp Hu) as (_ & _ & Hd). rewrite Hkey in Hd.
    apply table_put; [done|done|done|congruence|congruence|rewrite Hb; by left|done].
  - destruct (probe_absent clock st m Hok k t Hk Em) as [[-> Hs]|(d & Hd & Hfree & Hbefore & Hs & ->)].
    + rewrite (proj2 (Nat.eqb_eq _ _) Hs). by exists st, m.
    + rewrite (proj2 (Nat.eqb_neq _ _)) by lia. pose proof (slot_lt k d) as Hsl. set (b := new_bucket _ _ _).
      fold (bucket_at (set_bucket st (slot_of k d) b) (slot_of k d)). rewrite bucket_at_set, decide_True by (done || lia).
      pose proof (take_token_bucket b (rl_cfg st) (clock (S t))) as [Hu' Hk']. simpl rl_cfg.
      destruct (take_token _ _ _) as [ok b']. simpl in Hu', Hk'. rewrite stored_key in Hk' by done.
      exists (set_bucket st (slot_of k d) b'), (<[k := b']> m).
      rewrite set_bucket_twice. split; [|done].
      apply table_put; [done|done|done|done|done|by right|by exists d].
Qed.

Lemma fresh_table cfg : table_ok (mk_rl_state cfg (replicate NB blank_bucket)) ∅.
Proof.
  assert (Hat : forall i, bucket_at (mk_rl_state cfg (replicate NB blank_bucket)) i = blank_bucket).
  { intros i. unfold bucket_at. simpl. destruct (replicate NB blank_bucket !! i) eqn:E; [|done].
    by apply lookup_replicate in E as [-> _]. }
  split.
  - apply length_replicate.
  - intros i _. by rewrite Hat.
  - intros k b. by rewrite lookup_empty.
  - rewrite map_size_empty. unfold used_buckets. simpl. generalize NB. intros n. by induction n.
Qed.

Lemma answers_refine clock keys : forall st m t,
  table_ok st m -> Forall key_ok keys -> answers clock (Some st) t keys = spec_answers clock (rl_cfg st) m t keys.
Proof.
  induction keys as [|k keys IH]; intros st m t Hok Hk; [done|]. apply Forall_cons in Hk as [Hk Hks]. cbn [answers spec_answers].
  destruct (check_refines clock st m t k Hok Hk) as (st' & m' & Hok' & Hc & -> & Hm).
  destruct (spec_check _ _ _ _ _) as [[ok m1] t1]. simpl in *. subst m'. f_equal. rewrite <- Hc. by apply IH.
Qed.

(** C26: The table is a bucket per key.  From a new table on, for keys of fewer than
    128 bytes and any clock, the answers to any sequence of requests are those of
    independent token buckets, one per key: hashing, probing and collisions never
    mix two keys nor lose one, and only when 1024 keys are stored are new keys
    refused. *)
Theorem ratelimit_refines_buckets clock cfg h tl st h' keys t :
  ioh_ratelimit_create (Some cfg) h tl = (true, Some st, h') -> Forall key_ok keys ->
  answers clock (Some st) t keys = spec_answers clock cfg ∅ t keys.
Proof.
  unfold ioh_ratelimit_create. destruct (xalloc h) as [[] h1]; simpl; intros [= <- <-] Hk.
  apply (answers_refine clock keys _ ∅ t (fresh_table cfg) Hk).
Qed.

(** ** Bursts *)

Definition requests_of (k : bytes) (seen : list bytes) : nat := length (filter (fun x => x = k) seen).

(** The answers of a limiter that lets in [b] requests per key, [seen] being those
    made so far. *)
Fixpoint burst_answers (b : Z) (seen keys : list bytes) : list bool :=
  match keys with
  | [] => []
  | k :: keys => bool_decide (Z.of_nat (requests_of k seen) < b)%Z :: burst_answers b (k :: seen) keys
  end.

Lemma no_time b cfg now : b_last_refill b = now -> refill_bucket b cfg now = b.
Proof.
  intros <-. unfold refill_bucket, elapsed_time. rewrite !Z.sub_diag.
  replace (SFltb _ _) with false by (vm_compute; reflexivity). done.
Qed.

(** The bucket of a key after [n] requests at one instant. *)
Definition drained (k : bytes) (b : Z) (now : Z * Z) (n : nat) : ioh_bucket_t :=
  mk_bucket k (double_of (Z.max 0 (b - Z.of_nat n))) now true.

Lemma take_drained k cfg now n :
  (0 <= burst cfg < 2 ^ 32)%Z ->
  take_token (drained k (burst cfg) now n) cfg now =
    (bool_decide (Z.of_nat n < burst cfg)%Z, drained k (burst cfg) now (S n)).
Proof.
  intros Hb. unfold take_token. rewrite no_time by done. cbn [b_tokens b_key b_last_refill b_in_use drained].
  rewrite one_le by lia. destruct (Z.leb_spec 1 (Z.max 0 (burst cfg - Z.of_nat n))) as [Hl|Hl].
  - rewrite dsub_one by lia. rewrite bool_decide_true by lia. unfold drained. do 3 f_equal. lia.
  - rewrite bool_decide_false by lia. unfold drained. do 3 f_equal. lia.
Qed.

Lemma requests_of_cons k x seen :
  requests_of k (x :: seen) = (if decide (x = k) then S (requests_of k seen) else requests_of k seen).
Proof. unfold requests_of. rewrite filter_cons. by case_decide. Qed.

Lemma requests_of_none k seen : k ∉ seen -> requests_of k seen = 0.
Proof.
  intros Hk. induction seen as [|x seen IH]; [done|]. apply not_elem_of_cons in Hk as [? ?].
  rewrite requests_of_cons, decide_False by done. by apply IH.
Qed.

(** The map after the requests [seen] at one instant. *)
Definition counts (b : Z) (now : Z * Z) (seen : list bytes) (m : gmap bytes ioh_bucket_t) : Prop :=
  forall k, m !! k = if decide (k ∈ seen) then Some (drained k b now (requests_of k seen)) else None.

Lemma counts_size b now seen m : counts b now seen m -> size m = size (list_to_set seen : gset bytes).
Proof.
  intros Hc. rewrite <- size_dom. f_equal. apply set_eq. intros k. rewrite elem_of_dom, Hc, elem_of_list_to_set.
  case_decide; split; intros; try done; by eexists.
Qed.

Lemma counts_next b now seen m k :
  counts b now seen m -> counts b now (k :: seen) (<[k := drained k b now (S (requests_of k seen))]> m).
Proof.
  intros Hc k'. rewrite requests_of_cons. destruct (decide (k = k')) as [<-|Hne].
  - rewrite lookup_insert_eq, decide_True by by left. done.
  - rewrite lookup_insert_ne by done. rewrite Hc. destruct (decide (k' ∈ seen)) as [Hin|Hin].
    + by rewrite decide_True by by right.
    + rewrite decide_False; [done|]. by intros [?|?]%elem_of_cons.
Qed.

Lemma spec_answers_burst clock now cfg : (forall n, clock n = now) -> (0 <= burst cfg < 2 ^ 32)%Z ->
  forall keys seen m t, Forall key_ok keys -> counts (burst cfg) now seen m ->
  size (list_to_set (seen ++ keys) : gset bytes) ≤ NB ->
  spec_answers clock cfg m t keys = burst_answers (burst cfg) seen keys.
Proof.
  intros Hcl Hb. induction keys as [|k keys IH]; intros seen m t Hk Hc Hs; [done|].
  apply Forall_cons in Hk as [Hk Hks]. cbn [spec_answers burst_answers]. unfold spec_check. rewrite Hcl.
  assert (Hset : (list_to_set ((k :: seen) ++ keys) : gset bytes) = list_to_set (seen ++ k :: keys))
    by (apply set_eq; intros x; rewrite !elem_of_list_to_set, !elem_of_app, !elem_of_cons; tauto).
  pose proof (counts_next _ _ _ _ k Hc) as Hn. rewrite (Hc k). case_decide as Hin.
  - rewrite take_drained by done. f_equal. apply IH; [done|done|by rewrite Hset].
  - rewrite (proj2 (Nat.eqb_neq (size m) NB)).
    + rewrite Hcl. replace (new_bucket cfg k now) with (drained k (burst cfg) now 0)
        by (unfold new_bucket, drained; rewrite stored_key by done; do 2 f_equal; lia).
      rewrite take_drained by done. rewrite requests_of_none in * by done. f_equal. apply IH; [done|done|by rewrite Hset].
    + rewrite (counts_size _ _ _ _ Hc). assert (Hlt : (list_to_set seen : gset bytes) ⊂ list_to_set (seen ++ k :: keys)).
      { split; [intros x; rewrite !elem_of_list_to_set, elem_of_app; tauto|]. intros Hsub. apply Hin.
        specialize (Hsub k). rewrite !elem_of_list_to_set, elem_of_app, elem_of_cons in Hsub. tauto. }
      apply subset_size in Hlt. lia.
Qed.

(** Bursts are exact.  As long as the clock stands still, of the requests under one
    key exactly the first [burst] are let in, whatever requests under other keys come
    in between (at most 1024 keys): the token arithmetic in doubles loses nothing. *)
Theorem ratelimit_burst_exact clock now cfg h tl st h' keys t :
  (forall n, clock n = now) -> (0 <= burst cfg < 2 ^ 32)%Z ->
  ioh_ratelimit_create (Some cfg) h tl = (true, Some st, h') -> Forall key_ok keys ->
  size (list_to_set keys : gset bytes) ≤ NB ->
  answers clock (Some st) t keys = burst_answers (burst cfg) [] keys.
Proof.
  intros Hcl Hb. unfold ioh_ratelimit_create. destruct (xalloc h) as [[] h1]; simpl; intros [= <- <-] Hk Hs.
  rewrite (answers_refine clock keys _ ∅ t (fresh_table cfg) Hk).
  apply (spec_answers_burst _ now); [done|done|done| |done]. intros k. rewrite lookup_empty, decide_False; [done|apply not_elem_of_nil].
Qed.

(** ** Witnesses and examples *)

#[local] Transparent IOH_RATELIMIT_BUCKETS.

Definition demo_limits : ioh_ratelimit_config_t := mk_rl_config 10 2.
Definition demo_table : ioh_ratelimit_state_t := mk_rl_state demo_limits (replicate NB blank_bucket).
Definition demo_keys : list bytes := [bs "a"; bs "b"; bs "a"; bs "a"; bs "b"; bs "b"].

Lemma demo_keys_ok : Forall key_ok demo_keys.
Proof. repeat constructor; unfold key_ok; first [bcompute | nle]. Qed.

(** Half a second later there are tokens again. *)
Definition demo_clock (n : nat) : Z * Z := if n <? 8 then (7, 0)%Z else (7, 500000000)%Z.

Lemma ratelimit_refines_buckets_witness :
  answers demo_clock (Some demo_table) 0 (demo_keys ++ demo_keys) = spec_answers demo_clock demo_limits ∅ 0 (demo_keys ++ demo_keys)
  /\ answers demo_clock (Some demo_table) 0 (demo_keys ++ demo_keys) =
       [true; true; true; false; true; false; true; true; true; false; true; false].
Proof.
  split; [|vm_compute; reflexivity].
  apply (ratelimit_refines_buckets demo_clock demo_limits [] None demo_table []).
  - reflexivity.
  - apply Forall_app. split; exact demo_keys_ok.
Defined.

Lemma ratelimit_burst_exact_witness :
  answers (fun _ => (7, 0)%Z) (Some demo_table) 0 demo_keys = [true; true; true; false; true; false].
Proof.
  rewrite (ratelimit_burst_exact (fun _ => (7, 0)%Z) (7, 0)%Z demo_limits [] None demo_table [] demo_keys 0).
  - vm_compute. reflexivity.
  - reflexivity.
  - cbn. lia.
  - reflexivity.
  - exact demo_keys_ok.
  - nle.
Defined.

(** A key of 128 bytes or more never equals its stored, shortened copy: each request
    gets a bucket of its own and the limit does not apply. *)
Example long_keys_escape :
  answers (fun _ => (7, 0)%Z) (Some demo_table) 0 (replicate 5 (replicate 128 "x"%byte)) = [true; true; true; true; true].
Proof. vm_compute. reflexivity. Qed.
