(* ===== verification/Stream.v ===== *)
(** * Streams of multiplexed connections

    What http/ioh_http2.c and http/ioh_http3.c keep per stream and do in the same way: the
    arena that owns the copies of header texts, the request that points into it, the
    handling of one header, the body accumulator and the header block of a response.

    The arena is moved by [realloc], after which pointers into the old block are
    dangling: a pointer is the number of the block it was made for and an offset.  Where a
    definition gives [None] the code has no defined result: a store out of bounds, an
    access through a null or dangling pointer, or a growth loop that does not end. *)
From S2P Require Import Prelude CString Request RequestThms Response Ctx CtxThms Dates.
Local Open Scope nat_scope.

(** ** The arena *)

Record sref := mk_ref { ref_block : nat; ref_off : nat }.

(** [sa_block] is [None] for a null [buf]; the length is that of the text. *)
Record arena_t := mk_sarena {
  sa_block : option nat;
  sa_text : bytes;
  sa_cap : Z;
}.

Definition sa_len (a : arena_t) : Z := Z.of_nat (length (sa_text a)).

(** [memcpy] to the end of the arena, a NUL, and the pointer to the copy. *)
Definition arena_put (a : arena_t) (src : bytes) : option (sref * arena_t) :=
  match sa_block a with
  | Some b =>
      if (sa_len a + Z.of_nat (length src) + 1 <=? sa_cap a)%Z
      then Some (mk_ref b (length (sa_text a)), mk_sarena (Some b) (sa_text a ++ src ++ [NUL]) (sa_cap a))
      else None
  | None => None
  end.

(** The copy, or [None] for the null pointer when memory is short. *)
Definition arena_copy (a : arena_t) (src : bytes) (h : heap) : option (option sref * arena_t * heap) :=
  let stored a h := '(p, a) ← arena_put a src; Some (Some p, a, h) in
  let need := u64 (sa_len a + Z.of_nat (length src) + 1) in
  if (sa_cap a <? need)%Z then
    new_cap ← grow_size GROW_FUEL (if (sa_cap a =? 0)%Z then 4096 else u64 (sa_cap a * 2)) need;
    let '(ok, h) := xalloc h in
    if negb ok then Some (None, a, h)
    else stored (mk_sarena (Some (match sa_block a with Some b => S b | None => 0 end)) (sa_text a) new_cap) h
  else stored a h.

(** ** Per-stream data *)

(** [ioh_request_t] as the callbacks fill it: texts are pointers into the arena. *)
Record stream_request := mk_sreq {
  sq_method : ioh_method_t;
  sq_path : option sref;
  sq_path_len : nat;
  sq_query : option sref;
  sq_query_len : nat;
  sq_headers : list (sref * nat * (sref * nat));
  sq_content_length : Z;
  sq_content_type : option sref;
  sq_host : option sref;
}.

(** [sd_body] holds the bytes written to [body_buf], which [request.body] points to once
    there are any calls of the data callback ([sd_has_body]). *)
Record stream_data := mk_sd {
  sd_req : stream_request;
  sd_arena : arena_t;
  sd_body : bytes;
  sd_body_cap : Z;
  sd_has_body : bool;
  sd_id : Z;
  sd_headers_done : bool;
}.

Definition with_req (sd : stream_data) (r : stream_request) (a : arena_t) : stream_data :=
  mk_sd r a (sd_body sd) (sd_body_cap sd) (sd_has_body sd) (sd_id sd) (sd_headers_done sd).

Definition new_stream (id : Z) : stream_data :=
  mk_sd (mk_sreq IOH_METHOD_GET None 0 None 0 [] 0 None None) (mk_sarena None [] 0) [] 0 false id false.

(** What a name (or its token) stands for. *)
Inductive field_kind := FMethod | FPath | FAuthority | FPseudo | FContentType | FContentLength | FPlain.

#[export] Instance field_kind_eq_dec : EqDecision field_kind.
Proof. solve_decision. Defined.

Definition is_pseudo (k : field_kind) : bool :=
  match k with FMethod | FPath | FAuthority | FPseudo => true | _ => false end.

(** ** Headers *)

(** [ckd_mul] and [ckd_add] on [size_t]: whether the loop reached the end, and the
    content length it leaves.  It stops at a byte that is not a digit and at an overflow. *)
Fixpoint length_loop (v : bytes) (acc : Z) : bool * Z :=
  match v with
  | [] => (true, acc)
  | b :: v =>
      if is_digit b then
        if (2 ^ 64 <=? acc * 10)%Z then (false, acc)
        else if (2 ^ 64 <=? acc * 10 + digit_val b)%Z then (false, u64 (acc * 10 + digit_val b))
        else length_loop v (acc * 10 + digit_val b)
      else (false, acc)
  end.

Definition set_path (r : stream_request) (p : sref) (value : bytes) : stream_request :=
  match memchr value "?"%byte (length value) with
  | Some q => mk_sreq (sq_method r) (Some p) q (Some (mk_ref (ref_block p) (ref_off p + q + 1))) (length value - q - 1)
                (sq_headers r) (sq_content_length r) (sq_content_type r) (sq_host r)
  | None => mk_sreq (sq_method r) (Some p) (length value) (sq_query r) (sq_query_len r)
              (sq_headers r) (sq_content_length r) (sq_content_type r) (sq_host r)
  end.

Definition set_pseudo (k : field_kind) (r : stream_request) (p : sref) (value : bytes) : stream_request :=
  match k with
  | FMethod => mk_sreq (ioh_method_parse (Some value) (length value)) (sq_path r) (sq_path_len r) (sq_query r) (sq_query_len r)
                 (sq_headers r) (sq_content_length r) (sq_content_type r) (sq_host r)
  | FPath => set_path r p value
  | FAuthority => mk_sreq (sq_method r) (sq_path r) (sq_path_len r) (sq_query r) (sq_query_len r)
                    (sq_headers r) (sq_content_length r) (sq_content_type r) (Some p)
  | _ => r
  end.

Definition push_header (r : stream_request) (e : sref * nat * (sref * nat)) : stream_request :=
  mk_sreq (sq_method r) (sq_path r) (sq_path_len r) (sq_query r) (sq_query_len r)
    (sq_headers r ++ [e]) (sq_content_length r) (sq_content_type r) (sq_host r).

(** What is noted of a regular header; [false] makes the callback fail. *)
Definition note_header (k : field_kind) (r : stream_request) (p : sref) (value : bytes) : bool * stream_request :=
  match k with
  | FContentType =>
      (true, mk_sreq (sq_method r) (sq_path r) (sq_path_len r) (sq_query r) (sq_query_len r)
               (sq_headers r) (sq_content_length r) (Some p) (sq_host r))
  | FContentLength =>
      let '(ok, n) := length_loop value 0 in
      (ok, mk_sreq (sq_method r) (sq_path r) (sq_path_len r) (sq_query r) (sq_query_len r)
             (sq_headers r) n (sq_content_type r) (sq_host r))
  | _ => (true, r)
  end.

(** One header: the value is copied first; [false] is the callback's failure code. *)
Definition recv_header (k : field_kind) (name value : bytes) (sd : stream_data) (h : heap) : option (bool * stream_data * heap) :=
  '(vp, a, h) ← arena_copy (sd_arena sd) value h;
  match vp with
  | None => Some (false, with_req sd (sd_req sd) a, h)
  | Some vp =>
      if is_pseudo k then Some (true, with_req sd (set_pseudo k (sd_req sd) vp value) a, h) else
      if IOH_MAX_HEADERS <=? length (sq_headers (sd_req sd)) then Some (true, with_req sd (sd_req sd) a, h) else
      '(np, a, h) ← arena_copy a name h;
      match np with
      | None => Some (false, with_req sd (sd_req sd) a, h)
      | Some np =>
          let '(ok, r) := note_header k (push_header (sd_req sd) (np, length name, (vp, length value))) vp value in
          Some (ok, with_req sd r a, h)
      end
  end.

(** ** Bodies *)

Definition recv_data (data : bytes) (sd : stream_data) (h : heap) : option (bool * stream_data * heap) :=
  let stored cap h :=
    if (Z.of_nat (length (sd_body sd ++ data)) <=? cap)%Z
    then Some (true, mk_sd (sd_req sd) (sd_arena sd) (sd_body sd ++ data) cap true (sd_id sd) (sd_headers_done sd), h)
    else None in
  let need := u64 (Z.of_nat (length (sd_body sd)) + Z.of_nat (length data)) in
  if (sd_body_cap sd <? need)%Z then
    new_cap ← grow_size GROW_FUEL (if (sd_body_cap sd =? 0)%Z then 1024 else u64 (sd_body_cap sd * 2)) need;
    let '(ok, h) := xalloc h in
    if negb ok then Some (false, sd, h) else stored new_cap h
  else stored (sd_body_cap sd) h.

(** ** The request a handler is given *)

Definition load_ref (a : arena_t) (p : sref) : option bytes :=
  if decide (sa_block a = Some (ref_block p)) then Some (drop (ref_off p) (sa_text a)) else None.

(** A pointer that may be null. *)
Definition load_opt (a : arena_t) (p : option sref) : option (option bytes) :=
  match p with
  | None => Some None
  | Some p => Some <$> load_ref a p
  end.

Definition load_header (a : arena_t) (e : sref * nat * (sref * nat)) : option ioh_header_t :=
  let '(np, nl, (vp, vl)) := e in
  n ← load_ref a np; v ← load_ref a vp; Some (mk_header n nl v vl).

(** The request as memory has it; [None] when one of its pointers is dangling. *)
Definition load_request (major : Z) (sd : stream_data) : option ioh_request_t :=
  let a := sd_arena sd in
  let r := sd_req sd in
  p ← load_opt a (sq_path r); q ← load_opt a (sq_query r);
  ct ← load_opt a (sq_content_type r); hst ← load_opt a (sq_host r);
  hs ← mapM (load_header a) (sq_headers r);
  Some (mk_request (sq_method r) p (sq_path_len r) q (sq_query_len r) hs
          (if sd_has_body sd then Some (sd_body sd) else None) (if sd_has_body sd then Z.of_nat (length (sd_body sd)) else 0%Z)
          [] major 0 true (sq_content_length r) ct hst).

(** ** The header block of a response *)

Abbreviation nv := (bytes * bytes)%type.

(** [snprintf("%u")] into four bytes. *)
Definition status_text (status : Z) : option bytes :=
  let text := print_dec status in
  if 4 <=? length text then None else Some text.

(** The letters [A] to [Z] plus 32. *)
Definition lower_name (name : bytes) : bytes := to_lower <$> name.

(** The loop over the headers: one allocation for each name. *)
Fixpoint header_block (hs : list ioh_header_t) (h : heap) : res (list nv) * heap :=
  match hs with
  | [] => (Ok [], h)
  | e :: hs =>
      let '(ok, h) := xalloc h in
      if negb ok then (Err ENOMEM, h) else
      match header_block hs h with
      | (Ok nvs, h) => (Ok ((lower_name (take (h_name_len e) (h_name e)), take (h_value_len e) (h_value e)) :: nvs), h)
      | other => other
      end
  end.

(** The array of fields: [:status] first. *)
Definition response_fields (r : ioh_response_t) (h : heap) : res (list nv) * heap :=
  match status_text (r_status r) with
  | None => (Err EINVAL, h)
  | Some text =>
      let '(ok, h) := xalloc h in
      if negb ok then (Err ENOMEM, h) else
      let '(ok, h) := if 0 <? length (r_headers r) then xalloc h else (true, h) in
      if negb ok then (Err ENOMEM, h) else
      match header_block (r_headers r) h with
      | (Ok nvs, h) => (Ok ((bs ":status", text) :: nvs), h)
      | (Err e, h) => (Err e, h)
      end
  end.

(** ** What a request should hold *)

Record plain_request := mk_plain {
  p_method : ioh_method_t;
  p_path : option bytes;
  p_query : option bytes;
  p_headers : list nv;
  p_content_length : Z;
  p_content_type : option bytes;
  p_host : option bytes;
}.

Definition plain_init : plain_request := mk_plain IOH_METHOD_GET None None [] 0 None None.

Abbreviation field := (field_kind * bytes * bytes)%type.

(** A path and the query behind its first question mark. *)
Definition split_query (value : bytes) : bytes * option bytes :=
  match span (fun b => negb (b =b "?"%byte)) value with
  | (p, _ :: q) => (p, Some q)
  | (p, []) => (p, None)
  end.

(** A decimal number below 2^64. *)
Definition read_length (v : bytes) : option Z :=
  if forallb is_digit v && (dec_val 0 v <? 2 ^ 64)%Z then Some (dec_val 0 v) else None.

(** The effect of a header; [None] for a malformed content length.  Regular headers beyond
    the sixty-fourth are ignored. *)
Definition take_field (r : plain_request) (f : field) : option plain_request :=
  let '(k, name, value) := f in
  let push cl ct := Some (mk_plain (p_method r) (p_path r) (p_query r) (p_headers r ++ [(name, value)]) cl ct (p_host r)) in
  match k with
  | FMethod => Some (mk_plain (ioh_method_parse (Some value) (length value)) (p_path r) (p_query r) (p_headers r) (p_content_length r) (p_content_type r) (p_host r))
  | FPath =>
      let '(p, q) := split_query value in
      Some (mk_plain (p_method r) (Some p) (match q with Some q => Some q | None => p_query r end) (p_headers r) (p_content_length r) (p_content_type r) (p_host r))
  | FAuthority => Some (mk_plain (p_method r) (p_path r) (p_query r) (p_headers r) (p_content_length r) (p_content_type r) (Some value))
  | FPseudo => Some r
  | _ =>
      if IOH_MAX_HEADERS <=? length (p_headers r) then Some r else
      match k with
      | FContentLength => n ← read_length value; push n (p_content_type r)
      | FContentType => push (p_content_length r) (Some value)
      | _ => push (p_content_length r) (p_content_type r)
      end
  end.

(** The room a header takes in the arena at most. *)
Definition field_size (f : field) : nat := length (snd (fst f)) + length (snd f) + 2.

Definition fields_size (fs : list field) : nat := sum_list (field_size <$> fs).

(** ** The arena stays in its first block *)

(** An arena of up to 4096 bytes: not yet allocated, or in its first block. *)
Definition arena_small (a : arena_t) : Prop :=
  a = mk_sarena None [] 0 \/ (sa_block a = Some 0 /\ sa_cap a = 4096%Z /\ (sa_len a <= 4096)%Z).

(** The pointer leads to the text followed by [tl] and more. *)
Definition points (a : arena_t) (p : sref) (t tl : bytes) : Prop :=
  sa_block a = Some (ref_block p) /\ exists rest, drop (ref_off p) (sa_text a) = t ++ tl ++ rest /\ t ++ tl ≠ [].

Definition extends (a a' : arena_t) : Prop :=
  a = mk_sarena None [] 0 \/ (sa_block a' = sa_block a /\ exists more, sa_text a' = sa_text a ++ more).

Lemma extends_refl a : extends a a.
Proof. right. split; [done|]. exists []. by rewrite app_nil_r. Qed.

Lemma points_extends a a' p t tl : extends a a' -> points a p t tl -> points a' p t tl.
Proof.
  intros [->|[Hb [more Hm]]] [Hp (rest & Hd & Hne)]; [done|]. split; [congruence|]. exists (rest ++ more). split; [|done].
  rewrite Hm, drop_app_le, Hd; [by rewrite <- !app_assoc|]. destruct (decide (ref_off p < length (sa_text a))); [lia|].
  rewrite drop_ge in Hd by lia. rewrite app_assoc in Hd. destruct (t ++ tl); [done|]. discriminate.
Qed.

(** What copying does while the arena has room in its first block. *)
Lemma arena_copy_small a src h :
  arena_small a -> (sa_len a + Z.of_nat (length src) + 1 <= 4096)%Z ->
  (exists p a' h', arena_copy a src h = Some (Some p, a', h') /\ arena_small a' /\ extends a a' /\ points a' p src [NUL]
     /\ sa_len a' = (sa_len a + Z.of_nat (length src) + 1)%Z)
  \/ (false ∈ h /\ exists h', arena_copy a src h = Some (None, a, h')).
Proof.
  intros Hs Hl. assert (H64 : u64 (sa_len a + Z.of_nat (length src) + 1) = (sa_len a + Z.of_nat (length src) + 1)%Z).
  { unfold sa_len in *. rewrite u64_small; lia. }
  unfold arena_copy. rewrite H64. unfold sa_len in *. destruct Hs as [->|(Hb & Hc & Hlen)].
  - cbn [sa_text sa_cap sa_block length] in *. replace (0 <? _)%Z with true by (symmetry; apply Z.ltb_lt; lia).
    change (0 =? 0)%Z with true. cbn iota. unfold GROW_FUEL. cbn [grow_size]. replace (4096 <? _)%Z with false by (symmetry; apply Z.ltb_ge; lia).
    cbn [mbind option_bind]. destruct (xalloc h) as [[] h'] eqn:Ex; cbn [negb].
    + left. unfold arena_put, sa_len. cbn [sa_text sa_cap sa_block length]. replace (_ <=? 4096)%Z with true by (symmetry; apply Z.leb_le; lia).
      eexists _, _, h'. split; [done|]. unfold arena_small, points, sa_len. cbn [sa_text sa_cap sa_block length app ref_block ref_off drop].
      rewrite length_app. cbn [length]. split; [right; split_and!; [done|done|lia]|]. split; [by left|].
      split; [|lia]. split; [done|]. exists []. split; [done|]. by destruct src.
    + right. destruct h as [|[] h]; [done..|]. split; [apply elem_of_cons; by left|]. eauto.
  - left. rewrite Hc. replace (4096 <? _)%Z with false by (symmetry; apply Z.ltb_ge; lia).
    unfold arena_put, sa_len. rewrite Hb, Hc. replace (_ <=? 4096)%Z with true by (symmetry; apply Z.leb_le; lia).
    eexists _, _, h. split; [done|]. unfold arena_small, points, extends, sa_len. cbn [sa_text sa_cap sa_block ref_block ref_off].
    rewrite !length_app. cbn [length]. split; [right; split_and!; [done|done|lia]|]. split; [right; eauto|].
    split; [|lia]. split; [done|]. exists []. rewrite drop_app_length. split; [done|]. by destruct src.
Qed.

(** ** Requests in memory *)

(** The request's pointers lead to the plain texts. *)
Record represents (a : arena_t) (r : stream_request) (pr : plain_request) : Prop := {
  rep_method : sq_method r = p_method pr;
  rep_path : match sq_path r, p_path pr with
             | None, None => True
             | Some p, Some t => sq_path_len r = length t /\ exists tl, points a p t tl
             | _, _ => False
             end;
  rep_query : match sq_query r, p_query pr with
              | None, None => sq_query_len r = 0
              | Some p, Some t => sq_query_len r = length t /\ points a p t [NUL]
              | _, _ => False
              end;
  rep_headers : Forall2 (fun '(np, nl, (vp, vl)) nv =>
                           nl = length nv.1 /\ vl = length nv.2 /\ points a np nv.1 [NUL] /\ points a vp nv.2 [NUL])
                  (sq_headers r) (p_headers pr);
  rep_length : sq_content_length r = p_content_length pr;
  rep_type : option_Forall2 (fun p t => points a p t [NUL]) (sq_content_type r) (p_content_type pr);
  rep_host : option_Forall2 (fun p t => points a p t [NUL]) (sq_host r) (p_host pr);
}.

Lemma represents_extends a a' r pr : extends a a' -> represents a r pr -> represents a' r pr.
Proof.
  intros He [H1 H2 H3 H4 H5 H6 H7]. split; auto.
  - destruct (sq_path r), (p_path pr); try done. destruct H2 as [? [tl ?]]. split; [done|]. exists tl. by eapply points_extends.
  - destruct (sq_query r), (p_query pr); try done. destruct H3. split; [done|]. by eapply points_extends.
  - eapply Forall2_impl; [exact H4|]. intros [[np nl] [vp vl]] [n v] (? & ? & ? & ?). split_and!; auto; by eapply points_extends.
  - destruct H6; constructor. by eapply points_extends.
  - destruct H7; constructor. by eapply points_extends.
Qed.

Lemma represents_init : represents (mk_sarena None [] 0) (mk_sreq IOH_METHOD_GET None 0 None 0 [] 0 None None) plain_init.
Proof. split; simpl; try done; constructor. Qed.

Lemma split_query_spec value :
  match memchr value "?"%byte (length value) with
  | Some q => split_query value = (take q value, Some (drop (q + 1) value)) /\ q < length value
  | None => split_query value = (value, None)
  end.
Proof.
  unfold split_query. induction value as [|b v IH]; [done|]. cbn [memchr length span].
  destruct (b =b "?"%byte) eqn:Eb; cbn [negb].
  - split; [done|]. lia.
  - destruct (memchr v "?"%byte (length v)) as [q|]; simpl.
    + destruct IH as [IH Hq]. destruct (span _ v) as [x [|y z]]; [done|]. injection IH as -> Ez. split; [|lia]. by rewrite Ez.
    + destruct (span _ v) as [x [|y z]]; [|done]. by injection IH as ->.
Qed.

Lemma set_path_represents a r pr p value :
  represents a r pr -> points a p value [NUL] ->
  exists pr', take_field pr (FPath, bs ":path", value) = Some pr' /\ represents a (set_path r p value) pr'.
Proof.
  intros [H1 H2 H3 H4 H5 H6 H7] [Hb (rest & Hd & _)]. pose proof (split_query_spec value) as Hs. unfold set_path. cbn [take_field].
  destruct (memchr value "?"%byte (length value)) as [q|].
  - destruct Hs as [-> Hq]. eexists. split; [done|]. split; simpl; auto.
    + split; [rewrite length_take; lia|]. exists (drop q value). split; [done|]. exists ([NUL] ++ rest). rewrite app_assoc, take_drop.
      split; [done|]. intros E. destruct value; simpl in *; [lia|done].
    + split; [rewrite length_drop; lia|]. split; [done|]. simpl. exists rest. split.
      * rewrite <- Nat.add_assoc, <- drop_drop, Hd, drop_app_le by lia. done.
      * intros E. apply app_eq_nil in E. by destruct E.
  - rewrite Hs. eexists. split; [done|]. split; simpl; auto. split; [done|]. exists [NUL]. split; [done|]. exists rest. split; [done|]. by destruct value.
Qed.

Lemma length_loop_spec v acc :
  (0 <= acc < 2 ^ 64)%Z ->
  length_loop v acc = (true, dec_val acc v) /\ forallb is_digit v = true /\ (dec_val acc v < 2 ^ 64)%Z
  \/ (length_loop v acc).1 = false /\ (forallb is_digit v = false \/ (2 ^ 64 <= dec_val acc v)%Z).
Proof.
  revert acc. induction v as [|b v IH]; intros acc Ha; cbn [length_loop forallb].
  { left. split; [done|]. split; [done|]. unfold dec_val. simpl. lia. }
  change (dec_val acc (b :: v)) with (dec_val (acc * 10 + digit_val b) v).
  destruct (is_digit b) eqn:Eb; [|right; by split; [|left]]. cbn [andb].
  assert (Hd : (0 <= digit_val b <= 9)%Z) by (unfold is_digit in Eb; unfold digit_val; apply andb_true_iff in Eb as [?%Z.leb_le ?%Z.leb_le]; lia).
  assert (Hbig : (2 ^ 64 <= acc * 10 + digit_val b)%Z -> forallb is_digit v = false \/ (2 ^ 64 <= dec_val (acc * 10 + digit_val b) v)%Z).
  { intros Hb. destruct (forallb is_digit v) eqn:Ev; [right|by left].
    destruct (dec_val_bound v (acc * 10 + digit_val b)) as [Hlo _]; [apply Forall_forall; intros c Hc; rewrite forallb_forall in Ev; by apply Ev, list_elem_of_In|lia|].
    pose proof (Z.pow_pos_nonneg 10 (Z.of_nat (length v)) ltac:(lia) ltac:(lia)). nia. }
  destruct (Z.leb_spec (2 ^ 64) (acc * 10)); [right; split; [done|]; apply Hbig; lia|].
  destruct (Z.leb_spec (2 ^ 64) (acc * 10 + digit_val b)); [right; split; [done|]; by apply Hbig|].
  apply IH. lia.
Qed.

Lemma read_length_loop v : read_length v = match length_loop v 0 with (true, n) => Some n | (false, _) => None end.
Proof.
  unfold read_length. destruct (length_loop_spec v 0) as [(-> & -> & H)|[H Hn]]; [lia| |].
  - by replace (_ <? _)%Z with true by (symmetry; by apply Z.ltb_lt).
  - destruct (length_loop v 0) as [b n]. simpl in H. subst b. destruct Hn as [-> | Hn]; [done|].
    replace (_ <? _)%Z with false by (symmetry; by apply Z.ltb_ge). by rewrite andb_false_r.
Qed.

Lemma push_represents a r pr np vp name value :
  represents a r pr -> points a np name [NUL] -> points a vp value [NUL] ->
  represents a (push_header r (np, length name, (vp, length value)))
    (mk_plain (p_method pr) (p_path pr) (p_query pr) (p_headers pr ++ [(name, value)]) (p_content_length pr) (p_content_type pr) (p_host pr)).
Proof.
  intros [H1 H2 H3 H4 H5 H6 H7] Hn Hv. split; simpl; auto. apply Forall2_app; [done|]. constructor; [|constructor]. done.
Qed.

(** One header, while there is room: either it is taken as the specification says, or
    the content length is malformed or memory is short, and the callback fails. *)
Lemma recv_header_represents k name value sd pr h :
  arena_small (sd_arena sd) -> represents (sd_arena sd) (sd_req sd) pr ->
  (sa_len (sd_arena sd) + Z.of_nat (field_size (k, name, value)) <= 4096)%Z ->
  exists ok sd' h', recv_header k name value sd h = Some (ok, sd', h') /\ arena_small (sd_arena sd')
    /\ (sa_len (sd_arena sd') <= sa_len (sd_arena sd) + Z.of_nat (field_size (k, name, value)))%Z
    /\ sd' = with_req sd (sd_req sd') (sd_arena sd')
    /\ if ok then exists pr', take_field pr (k, name, value) = Some pr' /\ represents (sd_arena sd') (sd_req sd') pr'
       else (take_field pr (k, name, value) = None \/ false ∈ h) /\ exists pr', represents (sd_arena sd') (sd_req sd') pr'.
Proof.
  intros Hs Hr Hf. unfold field_size in *. cbn [fst snd] in *. unfold recv_header.
  destruct (arena_copy_small (sd_arena sd) value h Hs ltac:(lia)) as [(vp & a & h1 & -> & Hs1 & He1 & Hp1 & Hl1)|[Hoom [h1 ->]]]; cbn [mbind option_bind].
  2:{ exists false, (with_req sd (sd_req sd) (sd_arena sd)), h1. split; [done|]. split; [done|]. cbn [sd_arena sd_req with_req]. split; [lia|]. split; [by destruct sd|]. split; [by right|eauto]. }
  pose proof (represents_extends _ _ _ _ He1 Hr) as Hr1. destruct (is_pseudo k) eqn:Ek.
  { eexists true, _, h1. split; [done|]. cbn [sd_arena sd_req with_req]. split; [done|]. split; [lia|]. split; [done|].
    destruct k; try done; simpl.
    - eexists. split; [done|]. destruct Hr1. split; auto.
    - by apply set_path_represents.
    - eexists. split; [done|]. destruct Hr1. split; auto. simpl. by constructor.
    - eauto. }
  assert (Hlen : length (sq_headers (sd_req sd)) = length (p_headers pr)) by (eapply Forall2_length, Hr). rewrite Hlen.
  destruct (IOH_MAX_HEADERS <=? length (p_headers pr)) eqn:Em.
  { eexists true, _, h1. split; [done|]. cbn [sd_arena sd_req with_req]. split; [done|]. split; [lia|]. split; [done|]. exists pr. split; [|done].
    destruct k; try done; cbn [take_field]; by rewrite Em. }
  destruct (arena_copy_small a name h1 Hs1 ltac:(lia)) as [(np & a2 & h2 & -> & Hs2 & He2 & Hp2 & Hl2)|[Hoom [h2 Hc]]].
  2:{ exfalso. destruct Hs1 as [->|(Hb & Hc1 & Hc2)]; [by destruct Hp1|]. unfold arena_copy in Hc. rewrite Hc1 in Hc.
      replace (4096 <? _)%Z with false in Hc by (symmetry; apply Z.ltb_ge; rewrite u64_small; unfold sa_len in *; lia).
      unfold arena_put in Hc. rewrite Hb, Hc1 in Hc. destruct (_ <=? _)%Z; discriminate. }
  cbn [mbind option_bind]. pose proof (represents_extends _ _ _ _ He2 Hr1) as Hr2. pose proof (points_extends _ _ _ _ _ He2 Hp1) as Hp1'.
  pose proof (push_represents _ _ _ _ _ _ _ Hr2 Hp2 Hp1') as Hr3.
  destruct k; try done; cbn [note_header take_field]; rewrite Em.
  - eexists true, _, h2. split; [done|]. cbn [sd_arena sd_req with_req]. split; [done|]. split; [lia|]. split; [done|]. eexists. split; [done|]. destruct Hr3. split; auto. simpl. by constructor.
  - rewrite read_length_loop. destruct (length_loop value 0) as [[] n] eqn:El.
    + eexists true, _, h2. split; [done|]. cbn [sd_arena sd_req with_req]. split; [done|]. split; [lia|]. split; [done|]. eexists. split; [done|]. destruct Hr3. split; auto.
    + eexists false, _, h2. split; [done|]. cbn [sd_arena sd_req with_req]. split; [done|]. split; [lia|]. split; [done|]. split; [by left|].
      eexists (mk_plain (p_method pr) (p_path pr) (p_query pr) (p_headers pr ++ [(name, value)]) n (p_content_type pr) (p_host pr)). destruct Hr3. split; auto.
  - eexists true, _, h2. split; [done|]. cbn [sd_arena sd_req with_req]. split; [done|]. split; [lia|]. split; [done|]. by eexists.
Qed.

(** ** What the handler reads *)

(** The request as a handler reads it holds the plain texts: the path by its length, the
    other texts up to their NUL. *)
Record reads_as (req : ioh_request_t) (pr : plain_request) (body_text : option bytes) (major : Z) : Prop := {
  ra_method : method req = p_method pr;
  ra_path : (fun m => take (path_len req) m) <$> path req = p_path pr;
  ra_query : c_str <$> query req = c_str <$> p_query pr;
  ra_query_len : query_len req = length (default [] (p_query pr));
  ra_headers : (fun e => (take (h_name_len e) (h_name e), take (h_value_len e) (h_value e))) <$> headers req = p_headers pr;
  ra_header_ends : Forall (fun e => char_at (h_name e) (h_name_len e) = NUL /\ char_at (h_value e) (h_value_len e) = NUL) (headers req);
  ra_length : content_length req = p_content_length pr;
  ra_type : c_str <$> content_type req = c_str <$> p_content_type pr;
  ra_host : c_str <$> host req = c_str <$> p_host pr;
  ra_body : body req = body_text;
  ra_body_len : body_len req = Z.of_nat (length (default [] body_text));
  ra_rest : params req = [] /\ keep_alive req = true /\ http_version_major req = major /\ http_version_minor req = 0%Z;
}.

Lemma load_points a p t tl : points a p t tl -> exists rest, load_ref a p = Some (t ++ tl ++ rest).
Proof. intros [Hb (rest & Hd & _)]. exists rest. unfold load_ref. rewrite decide_True by done. by rewrite Hd. Qed.

Lemma c_str_stops t rest : c_str (t ++ [NUL] ++ rest) = c_str t.
Proof.
  unfold c_str. induction t as [|b t IH]; [done|]. cbn [span app] in *. destruct (not_nul b); [|done].
  destruct (span not_nul (t ++ NUL :: rest)), (span not_nul t). simpl in *. by rewrite IH.
Qed.

Lemma load_opt_points a p t :
  option_Forall2 (fun p t => points a p t [NUL]) p t -> exists m, load_opt a p = Some m /\ c_str <$> m = c_str <$> t.
Proof.
  intros [p' t' Hp|]; [|by exists None]. destruct (load_points _ _ _ _ Hp) as [rest Hl]. simpl. rewrite Hl.
  eexists. split; [done|]. cbn [fmap option_fmap option_map]. by rewrite c_str_stops.
Qed.

Lemma load_headers_points a es nvs :
  Forall2 (fun '(np, nl, (vp, vl)) (nv : nv) => nl = length nv.1 /\ vl = length nv.2 /\ points a np nv.1 [NUL] /\ points a vp nv.2 [NUL]) es nvs ->
  exists hs, mapM (load_header a) es = Some hs
    /\ (fun e => (take (h_name_len e) (h_name e), take (h_value_len e) (h_value e))) <$> hs = nvs
    /\ Forall (fun e => char_at (h_name e) (h_name_len e) = NUL /\ char_at (h_value e) (h_value_len e) = NUL) hs.
Proof.
  induction 1 as [|[[np nl] [vp vl]] [n v] es nvs (-> & -> & Hn & Hv) _ (hs & IH1 & IH2 & IH3)]; [by exists []|].
  destruct (load_points _ _ _ _ Hn) as [rn En]. destruct (load_points _ _ _ _ Hv) as [rv Ev]. cbn [mapM load_header].
  simpl. rewrite En, Ev. simpl. rewrite IH1. eexists. split; [done|]. split.
  - rewrite fmap_cons, IH2. simpl. by rewrite !take_app_length.
  - constructor; [|done]. simpl. unfold char_at. by rewrite !list_lookup_middle.
Qed.

Lemma load_represented sd pr major :
  represents (sd_arena sd) (sd_req sd) pr ->
  exists req, load_request major sd = Some req /\ reads_as req pr (if sd_has_body sd then Some (sd_body sd) else None) major.
Proof.
  intros [H1 H2 H3 H4 H5 H6 H7]. unfold load_request.
  assert (Hp : exists m, load_opt (sd_arena sd) (sq_path (sd_req sd)) = Some m /\ (fun m => take (sq_path_len (sd_req sd)) m) <$> m = p_path pr).
  { destruct (sq_path (sd_req sd)) as [p|], (p_path pr) as [t|]; try done; [|by exists None]. destruct H2 as [-> [tl Ht]].
    destruct (load_points _ _ _ _ Ht) as [rest Hl]. simpl. rewrite Hl. eexists. split; [done|]. simpl. by rewrite take_app_length. }
  assert (Hq : exists m, load_opt (sd_arena sd) (sq_query (sd_req sd)) = Some m /\ c_str <$> m = c_str <$> p_query pr
                 /\ sq_query_len (sd_req sd) = length (default [] (p_query pr))).
  { destruct (sq_query (sd_req sd)) as [p|], (p_query pr) as [t|]; try done; [|by exists None]. destruct H3 as [-> Ht].
    destruct (load_opt_points (sd_arena sd) (Some p) (Some t)) as (m & -> & Hm); [by constructor|]. by exists m. }
  destruct Hp as (mp & -> & Hmp), Hq as (mq & -> & Hmq & Hql). simpl.
  destruct (load_opt_points _ _ _ H6) as (mt & -> & Hmt). simpl. destruct (load_opt_points _ _ _ H7) as (mh & -> & Hmh). simpl.
  destruct (load_headers_points _ _ _ H4) as (hs & -> & Hhs & Hends). simpl. eexists. split; [done|].
  split; simpl; auto. by destruct (sd_has_body sd).
Qed.

(** ** Bodies *)

Definition body_ok (sd : stream_data) : Prop :=
  (sd_body_cap sd = 0%Z /\ sd_body sd = [])
  \/ exists k, (10 <= k <= 63)%Z /\ sd_body_cap sd = (2 ^ k)%Z /\ (Z.of_nat (length (sd_body sd)) <= 2 ^ k)%Z.

(** A chunk is appended, or memory is short and nothing changes. *)
Lemma recv_data_appends data sd h :
  body_ok sd -> (Z.of_nat (length (sd_body sd)) + Z.of_nat (length data) <= 2 ^ 63)%Z ->
  (exists cap h', recv_data data sd h
     = Some (true, mk_sd (sd_req sd) (sd_arena sd) (sd_body sd ++ data) cap true (sd_id sd) (sd_headers_done sd), h')
     /\ body_ok (mk_sd (sd_req sd) (sd_arena sd) (sd_body sd ++ data) cap true (sd_id sd) (sd_headers_done sd)))
  \/ (false ∈ h /\ exists h', recv_data data sd h = Some (false, sd, h')).
Proof.
  intros Hok Hl. unfold recv_data, body_ok. cbn [sd_body sd_body_cap]. rewrite length_app, Nat2Z.inj_add.
  set (need := (Z.of_nat (length (sd_body sd)) + Z.of_nat (length data))%Z) in *.
  assert (Hneed : u64 need = need) by (rewrite u64_small; lia). rewrite Hneed.
  assert (Hfit : forall (cap : Z) (h' : heap), (exists k, (10 <= k <= 63)%Z /\ cap = (2 ^ k)%Z) -> (need <= cap)%Z ->
    exists cap0 h0, (if (need <=? cap)%Z then Some (true, mk_sd (sd_req sd) (sd_arena sd) (sd_body sd ++ data) cap true (sd_id sd) (sd_headers_done sd), h') else None)
      = Some (true, mk_sd (sd_req sd) (sd_arena sd) (sd_body sd ++ data) cap0 true (sd_id sd) (sd_headers_done sd), h0)
      /\ ((cap0 = 0%Z /\ sd_body sd ++ data = []) \/ exists k, (10 <= k <= 63)%Z /\ cap0 = (2 ^ k)%Z /\ (need <= 2 ^ k)%Z)).
  { intros cap h' (k & Hk & ->) Hn. replace (_ <=? _)%Z with true by (symmetry; apply Z.leb_le; lia). exists (2 ^ k)%Z, h'. split; [done|]. right. eauto. }
  destruct (Z.ltb_spec (sd_body_cap sd) need) as [Hlt|Hge].
  - assert (Hk : exists k, (10 <= k <= 63)%Z /\ (if (sd_body_cap sd =? 0)%Z then 1024 else u64 (sd_body_cap sd * 2))%Z = (2 ^ k)%Z).
    { destruct Hok as [[-> _]|(k & Hk & Hc & _)]; [exists 10%Z; split; [lia|done]|]. rewrite Hc in *.
      assert (k < 63)%Z by (destruct (decide (k = 63)%Z) as [->|]; lia).
      assert (2 ^ 10 <= 2 ^ k)%Z by (apply Z.pow_le_mono_r; lia). assert (2 ^ (k + 1) <= 2 ^ 63)%Z by (apply Z.pow_le_mono_r; lia).
      rewrite Z.pow_add_r in * by lia. replace (_ =? 0)%Z with false by (symmetry; apply Z.eqb_neq; lia).
      exists (k + 1)%Z. split; [lia|]. rewrite u64_small, Z.pow_add_r by lia. lia. }
    destruct Hk as (k & Hk & ->). destruct (grow_size_pow GROW_FUEL k need) as (k' & Hk' & -> & Hn'); [lia|lia|unfold GROW_FUEL; lia|].
    cbn [mbind option_bind]. destruct (xalloc h) as [[] h'] eqn:Ex; cbn [negb].
    + left. apply Hfit; [|done]. exists k'. split; [lia|done].
    + right. destruct h as [|[] h]; [done..|]. split; [apply elem_of_cons; by left|]. eauto.
  - left. destruct Hok as [[Hc Hb]|(k & Hk & Hc & _)]; [|apply Hfit; [eauto|done]].
    replace (need <=? sd_body_cap sd)%Z with true by (symmetry; apply Z.leb_le; lia). eexists _, _. split; [done|]. left.
    split; [done|]. rewrite Hb in *. destruct data; [done|]. unfold need in *. simpl in *. lia.
Qed.

(** ** Streams under the library's counters *)

Definition body_of (sd : stream_data) : option bytes := if sd_has_body sd then Some (sd_body sd) else None.

(** A stream object agrees with the bytes of header texts and of data the library has
    handed over, and its request can be read. *)
Record stream_ok (hb db : nat) (sd : stream_data) : Prop := {
  sk_arena : arena_small (sd_arena sd);
  sk_body : body_ok sd;
  sk_header_bytes : (sa_len (sd_arena sd) <= Z.of_nat hb)%Z;
  sk_data_bytes : length (sd_body sd) ≤ db;
  sk_no_body : sd_has_body sd = false -> sd_body sd = [];
  sk_request : exists pr, represents (sd_arena sd) (sd_req sd) pr;
}.

Lemma stream_ok_mono hb db hb' db' sd : hb ≤ hb' -> db ≤ db' -> stream_ok hb db sd -> stream_ok hb' db' sd.
Proof. intros H1 H2 [? ? ? ? ? ?]. split; auto; lia. Qed.

Lemma new_stream_ok hb db id : stream_ok hb db (new_stream id).
Proof. split; simpl; [by left|by left|unfold sa_len; simpl; lia|lia|done|]. exists plain_init. apply represents_init. Qed.

Lemma recv_header_ok k name value sd pr h hb db hb' :
  stream_ok hb db sd -> represents (sd_arena sd) (sd_req sd) pr ->
  hb + field_size (k, name, value) ≤ hb' -> (Z.of_nat hb' <= 4096)%Z ->
  exists ok d h', recv_header k name value sd h = Some (ok, d, h') /\ stream_ok hb' db d /\ sd_id d = sd_id sd /\ body_of d = body_of sd
    /\ (ok = true -> exists pr', take_field pr (k, name, value) = Some pr' /\ represents (sd_arena d) (sd_req d) pr').
Proof.
  intros [K1 K2 K3 K4 K5 _] Hr Hb Hm. destruct (recv_header_represents k name value sd pr h K1 Hr) as (ok & d & h' & E & Hs & Hl & Heq & Hres); [lia|].
  exists ok, d, h'. split; [done|]. split; [|split; [by rewrite Heq|split; [by rewrite Heq|by intros ->]]].
  split; [done|rewrite Heq; done|lia|rewrite Heq; done|rewrite Heq; done|]. destruct ok; [destruct Hres as (pr' & _ & ?); eauto|by destruct Hres].
Qed.

Lemma recv_data_ok data sd h hb db db' :
  stream_ok hb db sd -> db + length data ≤ db' -> (Z.of_nat db' <= 2 ^ 63)%Z ->
  exists ok d h', recv_data data sd h = Some (ok, d, h') /\ stream_ok hb db' d /\ sd_id d = sd_id sd
    /\ sd_arena d = sd_arena sd /\ sd_req d = sd_req sd /\ (ok = true -> body_of d = Some (default [] (body_of sd) ++ data)).
Proof.
  intros [K1 K2 K3 K4 K5 K6] Hb Hm. destruct (recv_data_appends data sd h K2) as [(cap & h' & -> & Hbo)|(_ & h' & ->)]; [lia| |].
  - eexists true, _, h'. split; [done|]. split; [split; try done; simpl; rewrite length_app; lia|]. do 3 (split; [done|]). intros _. unfold body_of. simpl.
    destruct (sd_has_body sd); [done|]. by rewrite K5.
  - exists false, sd, h'. split; [done|]. split; [split; auto; lia|]. done.
Qed.

(** ** Response fields *)

(** The block holds the status and every header with its name in lower case; it fails only
    for a status of more than three digits or when memory is short. *)
Lemma response_fields_spec r h :
  match response_fields r h with
  | (Ok nvs, _) =>
      nvs = (bs ":status", print_dec (r_status r))
            :: ((fun e => (lower_name (take (h_name_len e) (h_name e)), take (h_value_len e) (h_value e))) <$> r_headers r)
  | (Err e, _) => (e = EINVAL /\ 4 ≤ length (print_dec (r_status r))) \/ (e = ENOMEM /\ false ∈ h)
  end.
Proof.
  assert (Hx : forall g g', xalloc g = (false, g') -> false ∈ g) by (intros [|[] g] ?; simpl; intros [=]; apply elem_of_cons; by left).
  assert (Ht : forall g ok g', xalloc g = (ok, g') -> false ∈ g' -> false ∈ g)
    by (intros [|? g] ok ?; simpl; intros [= <- <-] ?; [done|apply elem_of_cons; by right]).
  assert (Hb : forall hs g, match header_block hs g with
    | (Ok nvs, _) => nvs = (fun e => (lower_name (take (h_name_len e) (h_name e)), take (h_value_len e) (h_value e))) <$> hs
    | (Err e, _) => e = ENOMEM /\ false ∈ g end).
  { induction hs as [|e hs IH]; intros g; [done|]. cbn [header_block]. destruct (xalloc g) as [[] g1] eqn:E1; cbn [negb]; [|split; [done|eauto]].
    specialize (IH g1). destruct (header_block hs g1) as [[nvs|e'] g2]; [by subst|]. destruct IH as [-> IH]. split; [done|eauto]. }
  unfold response_fields, status_text. destruct (4 <=? length (print_dec (r_status r))) eqn:E4.
  { left. split; [done|]. by apply Nat.leb_le. }
  destruct (xalloc h) as [[] h1] eqn:E1; cbn [negb]; [|right; split; [done|eauto]].
  destruct (if 0 <? length (r_headers r) then xalloc h1 else (true, h1)) as [ok h2] eqn:E2.
  assert (H2 : (ok = false -> false ∈ h) /\ (false ∈ h2 -> false ∈ h)).
  { destruct (0 <? length (r_headers r)); [|injection E2 as <- <-; split; [done|eauto]]. split; [intros ->; eauto|eauto]. }
  destruct ok; cbn [negb]; [|right; split; [done|by apply (proj1 H2)]].
  specialize (Hb (r_headers r) h2). destruct (header_block (r_headers r) h2) as [[nvs|e] h3]; [by subst|].
  right. destruct Hb as [-> Hb]. split; [done|]. by apply (proj2 H2).
Qed.

(** Header texts of more than 4096 bytes move the arena, and the pointers noted before,
    here that of the path, are left dangling. *)
Example moved_arena_dangles :
  option_map (fun x => load_request 2 (snd (fst x)))
    ('(_, sd, h) ← recv_header FPath (bs ":path") (bs "/index.html") (new_stream 1) [];
     recv_header FPlain (bs "cookie") (repeat "c"%byte (Z.to_nat 4090)) sd h) = Some None.
Proof. vm_compute. reflexivity. Qed.
