(* ===== verification/Http2.v ===== *)
(** * HTTP/2 sessions

    http/ioh_http2.c: the callbacks given to nghttp2, the per-stream data they keep, the
    response data provider and the calls that feed a session and collect its output.

    nghttp2 is third-party code: the class [Nghttp2] has what the source calls of it.  The
    library runs the callbacks while it reads input or produces output, and they call it
    back, so such a call is a tree: it returns, or hands its state to a callback and goes
    on with the state and the answer that come back.

    Stream and response objects live in two stores and are named by their address;
    addresses are not reused, so an access to a freed object is seen: where a definition
    gives [None] the code has no defined result. *)
From S2P Require Import Prelude CString Request RequestThms Response Ctx Stream.
From stdpp Require Import gmap.
Local Open Scope nat_scope.

(** ** The library *)

Inductive frame_type := NGHTTP2_HEADERS | NGHTTP2_DATA | NGHTTP2_RST_STREAM | NGHTTP2_OTHER.

#[export] Instance frame_type_eq_dec : EqDecision frame_type.
Proof. solve_decision. Defined.

(** [fr_request]: the category of a HEADERS frame is NGHTTP2_HCAT_REQUEST. *)
Record ng_frame := mk_frame {
  fr_type : frame_type;
  fr_request : bool;
  fr_stream_id : Z;
  fr_end_stream : bool;
}.

(** The callbacks; the time is what [time] gives, the source of a body an address. *)
Inductive ng_event :=
| OnBeginHeaders (f : ng_frame)
| OnHeader (f : ng_frame) (name value : bytes)
| OnDataChunk (id : Z) (data : bytes)
| OnFrameRecv (f : ng_frame) (now : Z)
| OnStreamClose (id : Z)
| ReadBody (id : Z) (len : nat) (source : nat).

Inductive ng_answer := NgCode (rc : Z) | NgChunk (data : bytes) (eof : bool).

Inductive ng_prog (S A : Type) :=
| NgRet (a : A) (s : S)
| NgCallback (s : S) (e : ng_event) (k : S -> ng_answer -> ng_prog S A).
Arguments NgRet {S A}.
Arguments NgCallback {S A}.

Definition NGHTTP2_ERR_CALLBACK_FAILURE : Z := -902.
Definition NGHTTP2_NO_ERROR : Z := 0.
Definition NGHTTP2_ENHANCE_YOUR_CALM : Z := 11.

(** Sessions [S].  A response is submitted with its fields and the source of its body;
    sending gives the next bytes, no bytes when there are none, or an error. *)
Class Nghttp2 (S : Type) := {
  ng_callbacks_new : bool;
  ng_server_new : option S;
  ng_submit_settings : S -> list (Z * Z) -> S;
  ng_get_user_data : S -> Z -> option nat;
  ng_set_user_data : S -> Z -> option nat -> S;
  ng_submit_response : S -> Z -> list nv -> option nat -> Z * S;
  ng_submit_goaway : S -> Z -> Z -> bytes -> Z * S;
  ng_mem_recv : S -> bytes -> ng_prog S Z;
  ng_mem_send : S -> ng_prog S (option bytes);
  ng_last_proc_stream_id : S -> Z;
  ng_want_read : S -> bool;
  ng_want_write : S -> bool;
}.

(** ** Data *)

Definition H2_OUTPUT_BUF_SIZE : Z := 65536.

Record ioh_http2_config_t := mk_h2_config {
  max_concurrent_streams : Z;
  initial_window_size : Z;
  max_frame_size : Z;
  max_header_list_size : Z;
  max_rst_stream_per_sec : Z;
}.

Record h2_resp_data := mk_rd {
  rd_body : bytes;
  rd_offset : nat;
}.

Record h2_stream_data := mk_h2_sd {
  h2_sd : stream_data;
  h2_resp : option nat;
  h2_next : option nat;
}.

Abbreviation on_request_fn := (ioh_ctx_t -> Z -> Z * ioh_ctx_t)%type.

(** The session and the memory its callbacks use: stream objects, response objects, the
    next address and the allocator. *)
Record ioh_http2_session (S : Type) := mk_h2 {
  h2_ng : S;
  h2_config : ioh_http2_config_t;
  h2_on_request : option on_request_fn;
  h2_out : bytes;
  h2_out_cap : Z;
  h2_rst_count : Z;
  h2_rst_window_start : Z;
  h2_goaway_sent : bool;
  h2_streams : option nat;
  h2_sds : gmap nat h2_stream_data;
  h2_rds : gmap nat h2_resp_data;
  h2_fresh : nat;
  h2_heap : heap;
}.
Arguments mk_h2 {S}.
Arguments h2_ng {S}.
Arguments h2_config {S}.
Arguments h2_on_request {S}.
Arguments h2_out {S}.
Arguments h2_out_cap {S}.
Arguments h2_rst_count {S}.
Arguments h2_rst_window_start {S}.
Arguments h2_goaway_sent {S}.
Arguments h2_streams {S}.
Arguments h2_sds {S}.
Arguments h2_rds {S}.
Arguments h2_fresh {S}.
Arguments h2_heap {S}.

Section Http2.
Context {S : Type} `{N : Nghttp2 S}.
Local Abbreviation session := (ioh_http2_session S).

Definition set_ng (st : session) (s : S) : session :=
  mk_h2 s (h2_config st) (h2_on_request st) (h2_out st) (h2_out_cap st) (h2_rst_count st) (h2_rst_window_start st)
    (h2_goaway_sent st) (h2_streams st) (h2_sds st) (h2_rds st) (h2_fresh st) (h2_heap st).
Definition set_out (st : session) (out : bytes) (cap : Z) (h : heap) : session :=
  mk_h2 (h2_ng st) (h2_config st) (h2_on_request st) out cap (h2_rst_count st) (h2_rst_window_start st)
    (h2_goaway_sent st) (h2_streams st) (h2_sds st) (h2_rds st) (h2_fresh st) h.
Definition set_rst (st : session) (count start : Z) : session :=
  mk_h2 (h2_ng st) (h2_config st) (h2_on_request st) (h2_out st) (h2_out_cap st) count start
    (h2_goaway_sent st) (h2_streams st) (h2_sds st) (h2_rds st) (h2_fresh st) (h2_heap st).
Definition set_goaway (st : session) : session :=
  mk_h2 (h2_ng st) (h2_config st) (h2_on_request st) (h2_out st) (h2_out_cap st) (h2_rst_count st) (h2_rst_window_start st)
    true (h2_streams st) (h2_sds st) (h2_rds st) (h2_fresh st) (h2_heap st).
Definition set_mem (st : session) (head : option nat) (sds : gmap nat h2_stream_data) (rds : gmap nat h2_resp_data) : session :=
  mk_h2 (h2_ng st) (h2_config st) (h2_on_request st) (h2_out st) (h2_out_cap st) (h2_rst_count st) (h2_rst_window_start st)
    (h2_goaway_sent st) head sds rds (h2_fresh st) (h2_heap st).
Definition set_alloc (st : session) (fresh : nat) (h : heap) : session :=
  mk_h2 (h2_ng st) (h2_config st) (h2_on_request st) (h2_out st) (h2_out_cap st) (h2_rst_count st) (h2_rst_window_start st)
    (h2_goaway_sent st) (h2_streams st) (h2_sds st) (h2_rds st) fresh h.

Definition put_sd (st : session) (p : nat) (sd : h2_stream_data) : session :=
  set_mem st (h2_streams st) (<[p := sd]> (h2_sds st)) (h2_rds st).

(** ** Helpers *)

(** [calloc] for a stream object: its address. *)
Definition stream_data_new (st : session) (id : Z) : option nat * session :=
  let '(ok, h) := xalloc (h2_heap st) in
  if negb ok then (None, set_alloc st (h2_fresh st) h)
  else (Some (h2_fresh st), put_sd (set_alloc st (Datatypes.S (h2_fresh st)) h) (h2_fresh st) (mk_h2_sd (new_stream id) None None)).

Definition free_rd (rds : gmap nat h2_resp_data) (p : nat) : option (gmap nat h2_resp_data) :=
  match rds !! p with Some _ => Some (delete p rds) | None => None end.

(** [free] of a stream object and the response data it owns; [None] for a freed one. *)
Definition stream_data_free (sds : gmap nat h2_stream_data) (rds : gmap nat h2_resp_data) (p : nat)
    : option (gmap nat h2_stream_data * gmap nat h2_resp_data) :=
  sd ← sds !! p;
  rds ← match h2_resp sd with Some q => free_rd rds q | None => Some rds end;
  Some (delete p sds, rds).

Definition output_buf_append (st : session) (data : bytes) : option (res unit * session) :=
  let stored cap h :=
    if (Z.of_nat (length (h2_out st ++ data)) <=? cap)%Z then Some (Ok (), set_out st (h2_out st ++ data) cap h) else None in
  let need := u64 (Z.of_nat (length (h2_out st)) + Z.of_nat (length data)) in
  if (h2_out_cap st <? need)%Z then
    new_cap ← grow_size GROW_FUEL (if (h2_out_cap st =? 0)%Z then H2_OUTPUT_BUF_SIZE else u64 (h2_out_cap st * 2)) need;
    let '(ok, h) := xalloc (h2_heap st) in
    if negb ok then Some (Err ENOMEM, set_alloc st (h2_fresh st) h) else stored new_cap h
  else stored (h2_out_cap st) (h2_heap st).

(** ** The response data provider *)

Definition resp_data_read_cb (rd : h2_resp_data) (len : nat) : bytes * bool * h2_resp_data :=
  let remaining := length (rd_body rd) - rd_offset rd in
  let n := if len <? remaining then len else remaining in
  let rd' := mk_rd (rd_body rd) (rd_offset rd + n) in
  (take n (drop (rd_offset rd) (rd_body rd)), length (rd_body rd) <=? rd_offset rd', rd').

(** The code of a failed [nghttp2_submit_response2]. *)
Definition submit_code (rv : Z) : res unit :=
  if (rv =? 0)%Z then Ok () else if (rv =? - errno_code ENOMEM)%Z then Err ENOMEM else Err EIO.

(** The body moves from the response to a response object, which the stream owns. *)
Definition submit_with_body (st : session) (id : Z) (nvs : list nv) (body : bytes) : option (res unit * session) :=
  let '(ok, h) := xalloc (h2_heap st) in
  if negb ok then Some (Err ENOMEM, set_alloc st (h2_fresh st) h) else
  let rd := h2_fresh st in
  let st := set_mem (set_alloc st (Datatypes.S rd) h) (h2_streams st) (h2_sds st) (<[rd := mk_rd body 0]> (h2_rds st)) in
  let '(rv, s) := ng_submit_response (h2_ng st) id nvs (Some rd) in
  let st := set_ng st s in
  let released := set_mem st (h2_streams st) (h2_sds st) (delete rd (h2_rds st)) in
  if negb (rv =? 0)%Z then Some (submit_code rv, released) else
  match ng_get_user_data s id with
  | None => Some (Ok (), released)
  | Some p => sd ← h2_sds st !! p; Some (Ok (), put_sd st p (mk_h2_sd (h2_sd sd) (Some rd) (h2_next sd)))
  end.

Definition submit_response (st : session) (id : Z) (r : ioh_response_t) : option (res unit * session) :=
  match response_fields r (h2_heap st) with
  | (Err e, h) => Some (Err e, set_alloc st (h2_fresh st) h)
  | (Ok nvs, h) =>
      let st := set_alloc st (h2_fresh st) h in
      match r_body r with
      | Some b =>
          if (0 <? r_body_len r)%Z then submit_with_body st id nvs (take (Z.to_nat (r_body_len r)) b)
          else let '(rv, s) := ng_submit_response (h2_ng st) id nvs None in Some (submit_code rv, set_ng st s)
      | None => let '(rv, s) := ng_submit_response (h2_ng st) id nvs None in Some (submit_code rv, set_ng st s)
      end
  end.

(** ** Callbacks *)

Definition is_request (f : ng_frame) : bool := bool_decide (fr_type f = NGHTTP2_HEADERS) && fr_request f.

Definition on_begin_headers_cb (st : session) (f : ng_frame) : option (Z * session) :=
  if negb (is_request f) then Some (0%Z, st) else
  match stream_data_new st (fr_stream_id f) with
  | (None, st) => Some (NGHTTP2_ERR_CALLBACK_FAILURE, st)
  | (Some p, st) =>
      sd ← h2_sds st !! p;
      let st := set_mem st (Some p) (<[p := mk_h2_sd (h2_sd sd) (h2_resp sd) (h2_streams st)]> (h2_sds st)) (h2_rds st) in
      Some (0%Z, set_ng st (ng_set_user_data (h2_ng st) (fr_stream_id f) (Some p)))
  end.

(** The comparisons of the name. *)
Definition h2_kind (name : bytes) : field_kind :=
  if (0 <? length name) && (char_at name 0 =b ":"%byte) then
    if bytes_eqb name (bs ":method") then FMethod
    else if bytes_eqb name (bs ":path") then FPath
    else if bytes_eqb name (bs ":authority") then FAuthority else FPseudo
  else if bytes_eqb name (bs "content-type") then FContentType
  else if bytes_eqb name (bs "content-length") then FContentLength else FPlain.

(** The part the header and the data callback share: find the object, let [f] change it. *)
Definition with_stream (st : session) (id : Z) (f : stream_data -> heap -> option (bool * stream_data * heap)) : option (Z * session) :=
  match ng_get_user_data (h2_ng st) id with
  | None => Some (0%Z, st)
  | Some p =>
      sd ← h2_sds st !! p;
      '(ok, d, h) ← f (h2_sd sd) (h2_heap st);
      let st := put_sd (set_alloc st (h2_fresh st) h) p (mk_h2_sd d (h2_resp sd) (h2_next sd)) in
      Some (if (ok : bool) then 0%Z else NGHTTP2_ERR_CALLBACK_FAILURE, st)
  end.

Definition on_header_cb (st : session) (f : ng_frame) (name value : bytes) : option (Z * session) :=
  if negb (is_request f) then Some (0%Z, st)
  else with_stream st (fr_stream_id f) (recv_header (h2_kind name) name value).

Definition on_data_chunk_cb (st : session) (id : Z) (data : bytes) : option (Z * session) :=
  with_stream st id (recv_data data).

(** Counting resets within a second, and the GOAWAY when they are too many. *)
Definition track_reset (st : session) (now : Z) : session :=
  let st := if (now =? h2_rst_window_start st)%Z then set_rst st (u32 (h2_rst_count st + 1)) (h2_rst_window_start st)
            else set_rst st 1 now in
  if (max_rst_stream_per_sec (h2_config st) <? h2_rst_count st)%Z && negb (h2_goaway_sent st)
  then set_goaway (set_ng st (snd (ng_submit_goaway (h2_ng st) 0 NGHTTP2_ENHANCE_YOUR_CALM (bs "rapid reset"))))
  else st.

(** The handler's turn: a response and a context for it, and the response submitted when
    it returns 0 and has not aborted.  [None] for the request when one of its pointers is
    dangling. *)
Definition answer_request (st : session) (id : Z) (f : on_request_fn) (request : option ioh_request_t) : option session :=
  match ioh_response_init (h2_heap st) with
  | (Err _, _, h) => Some (set_alloc st (h2_fresh st) h)
  | (Ok _, r, h) =>
      req ← request;
      match ioh_ctx_init (Some req) (Some r) h with
      | (Err _, h) => Some (set_alloc st (h2_fresh st) h)
      | (Ok c, h) =>
          let '(rc, c) := f c id in
          let st := set_alloc st (h2_fresh st) h in
          if (rc =? 0)%Z && negb (c_aborted c) then snd <$> submit_response st id (c_resp c) else Some st
      end
  end.

Definition on_frame_recv_cb (st : session) (f : ng_frame) (now : Z) : option (Z * session) :=
  match fr_type f with
  | NGHTTP2_RST_STREAM => Some (0%Z, track_reset st now)
  | NGHTTP2_OTHER => Some (0%Z, st)
  | _ =>
      if negb (fr_end_stream f) then Some (0%Z, st) else
      match ng_get_user_data (h2_ng st) (fr_stream_id f) with
      | None => Some (0%Z, st)
      | Some p =>
          sd ← h2_sds st !! p;
          match h2_on_request st with
          | None => Some (0%Z, st)
          | Some fn => st ← answer_request st (fr_stream_id f) fn (load_request 2 (h2_sd sd)); Some (0%Z, st)
          end
      end
  end.

(** The walk along the list up to the object, whose predecessor ([prev], or the head of
    the list) is then given its successor.  [None] when an object of the list was freed. *)
Fixpoint unlink (fuel : nat) (head : option nat) (m : gmap nat h2_stream_data) (prev cur : option nat) (target : nat)
    : option (option nat * gmap nat h2_stream_data) :=
  match fuel, cur with
  | _, None => Some (head, m)
  | O, _ => None
  | Datatypes.S fuel, Some p =>
      n ← m !! p;
      if p =? target then
        match prev with
        | None => Some (h2_next n, m)
        | Some q => w ← m !! q; Some (head, <[q := mk_h2_sd (h2_sd w) (h2_resp w) (h2_next n)]> m)
        end
      else unlink fuel head m (Some p) (h2_next n) target
  end.

(** A list without cycles has no more elements than there are objects. *)
Definition walk_fuel (m : gmap nat h2_stream_data) : nat := Datatypes.S (size m).

Definition on_stream_close_cb (st : session) (id : Z) : option (Z * session) :=
  match ng_get_user_data (h2_ng st) id with
  | None => Some (0%Z, st)
  | Some p =>
      let st := set_ng st (ng_set_user_data (h2_ng st) id None) in
      '(head, sds) ← unlink (walk_fuel (h2_sds st)) (h2_streams st) (h2_sds st) None (h2_streams st) p;
      '(sds, rds) ← stream_data_free sds (h2_rds st) p;
      Some (0%Z, set_mem st head sds rds)
  end.

Definition read_body (st : session) (len source : nat) : option (bytes * bool * session) :=
  rd ← h2_rds st !! source;
  let '(data, eof, rd) := resp_data_read_cb rd len in
  Some (data, eof, set_mem st (h2_streams st) (h2_sds st) (<[source := rd]> (h2_rds st))).

Definition callback (st : session) (e : ng_event) : option (ng_answer * session) :=
  let code r := '(rc, st) ← r; Some (NgCode rc, st) in
  match e with
  | OnBeginHeaders f => code (on_begin_headers_cb st f)
  | OnHeader f name value => code (on_header_cb st f name value)
  | OnDataChunk id data => code (on_data_chunk_cb st id data)
  | OnFrameRecv f now => code (on_frame_recv_cb st f now)
  | OnStreamClose id => code (on_stream_close_cb st id)
  | ReadBody _ len source => '(data, eof, st) ← read_body st len source; Some (NgChunk data eof, st)
  end.

(** A call of the library with its callbacks. *)
Fixpoint drive {A} (p : ng_prog S A) (st : session) : option (A * session) :=
  match p with
  | NgRet a s => Some (a, set_ng st s)
  | NgCallback s e k => '(ans, st) ← callback (set_ng st s) e; drive (k (h2_ng st) ans) st
  end.

(** ** The interface *)

Definition or_default (v d : Z) : Z := if (v =? 0)%Z then d else v.

Definition h2_defaults (cfg : ioh_http2_config_t) : ioh_http2_config_t :=
  mk_h2_config (or_default (max_concurrent_streams cfg) 100) (or_default (initial_window_size cfg) 65535)
    (or_default (max_frame_size cfg) 16384) (or_default (max_header_list_size cfg) 8192) (or_default (max_rst_stream_per_sec cfg) 100).

(** The settings' identifiers are those of the protocol. *)
Definition h2_settings (cfg : ioh_http2_config_t) : list (Z * Z) :=
  [(3, max_concurrent_streams cfg); (4, initial_window_size cfg); (5, max_frame_size cfg); (6, max_header_list_size cfg)]%Z.

Definition ioh_http2_session_create (cfg : option ioh_http2_config_t) (on_req : option on_request_fn) (h : heap) : option session * heap :=
  let '(ok, h) := xalloc h in
  if negb ok then (None, h) else
  let cfg := h2_defaults (default (mk_h2_config 0 0 0 0 0) cfg) in
  let '(ok, h) := xalloc h in
  if negb ok then (None, h) else
  if negb ng_callbacks_new then (None, h) else
  match ng_server_new with
  | None => (None, h)
  | Some s => (Some (mk_h2 (ng_submit_settings s (h2_settings cfg)) cfg on_req [] H2_OUTPUT_BUF_SIZE 0 0 false None ∅ ∅ 0 h), h)
  end.

(** The walk of [ioh_http2_session_destroy]: the objects that are left. *)
Fixpoint free_streams (fuel : nat) (cur : option nat) (sds : gmap nat h2_stream_data) (rds : gmap nat h2_resp_data)
    : option (gmap nat h2_stream_data * gmap nat h2_resp_data) :=
  match fuel, cur with
  | _, None => Some (sds, rds)
  | O, _ => None
  | Datatypes.S fuel, Some p =>
      n ← sds !! p;
      '(sds, rds) ← stream_data_free sds rds p;
      free_streams fuel (h2_next n) sds rds
  end.

Definition ioh_http2_session_destroy (st : session) : option (gmap nat h2_stream_data * gmap nat h2_resp_data) :=
  free_streams (walk_fuel (h2_sds st)) (h2_streams st) (h2_sds st) (h2_rds st).

Definition ioh_http2_on_recv (st : session) (data : bytes) : option (res Z * session) :=
  '(n, st) ← drive (ng_mem_recv (h2_ng st) data) st;
  Some (if (n <? 0)%Z then Err EIO else Ok n, st).

(** The output loop; [None] also when it did not end within the fuel. *)
Fixpoint flush_loop (fuel : nat) (st : session) : option (res bytes * session) :=
  match fuel with
  | O => None
  | Datatypes.S fuel =>
      '(out, st) ← drive (ng_mem_send (h2_ng st)) st;
      match out with
      | None => Some (Err EIO, st)
      | Some [] => Some (Ok (h2_out st), st)
      | Some data =>
          '(rv, st) ← output_buf_append st data;
          match rv with
          | Err e => Some (Err e, st)
          | Ok _ => flush_loop fuel st
          end
      end
  end.

Definition ioh_http2_flush (fuel : nat) (st : session) : option (res bytes * session) :=
  flush_loop fuel (set_out st [] (h2_out_cap st) (h2_heap st)).

Definition ioh_http2_goaway (st : session) : res unit * session :=
  let last_id := if h2_goaway_sent st then ng_last_proc_stream_id (h2_ng st) else (2 ^ 31 - 1)%Z in
  let '(rv, s) := ng_submit_goaway (h2_ng st) last_id NGHTTP2_NO_ERROR [] in
  let st := set_ng st s in
  if negb (rv =? 0)%Z then (Err EIO, st) else (Ok (), set_goaway st).

Definition ioh_http2_want_read (st : session) : bool := ng_want_read (h2_ng st).
Definition ioh_http2_want_write (st : session) : bool := ng_want_write (h2_ng st).
Definition ioh_http2_goaway_sent (st : session) : bool := h2_goaway_sent st.
Definition ioh_http2_is_draining (st : session) : bool :=
  h2_goaway_sent st && negb (ioh_http2_want_read st) && negb (ioh_http2_want_write st).
End Http2.
