(* ===== verification/Http2Thms.v ===== *)
(** * Theorems about HTTP/2 sessions

    The list of streams and the stores stay consistent under every behaviour of the
    library, requests are what the stream's headers and data say, bodies are delivered
    whole, and resets that come too fast end the connection. *)
From S2P Require Import Prelude CString Request RequestThms Response Ctx CtxThms Stream Http2.
From stdpp Require Import gmap.
Local Open Scope nat_scope.

(** ** The list of streams *)

Fixpoint chain (m : gmap nat h2_stream_data) (cur : option nat) (l : list nat) : Prop :=
  match l with
  | [] => cur = None
  | p :: l => cur = Some p /\ exists n, m !! p = Some n /\ chain m (h2_next n) l
  end.

Definition set_next (nx : option nat) (n : h2_stream_data) : h2_stream_data := mk_h2_sd (h2_sd n) (h2_resp n) nx.

Lemma chain_agree m m' cur l :
  chain m cur l -> (forall p, p ∈ l -> h2_next <$> m' !! p = h2_next <$> m !! p) -> chain m' cur l.
Proof.
  revert cur. induction l as [|p l IH]; intros cur; [done|]. intros [-> (n & Hn & Hc)] Ha. split; [done|].
  pose proof (Ha p ltac:(apply elem_of_cons; by left)) as Hp. rewrite Hn in Hp. destruct (m' !! p) as [n'|]; [|done].
  injection Hp as Hp. exists n'. split; [done|]. rewrite Hp. apply IH; [done|]. intros q Hq. apply Ha. apply elem_of_cons. by right.
Qed.

Lemma chain_dom m cur l p : chain m cur l -> p ∈ l -> is_Some (m !! p).
Proof.
  revert cur. induction l as [|q l IH]; intros cur; [intros _ H; by apply elem_of_nil in H|].
  intros [_ (n & Hn & Hc)] [->|Hp]%elem_of_cons; [eauto|by eapply IH].
Qed.

Lemma chain_length m cur l : chain m cur l -> NoDup l -> length l ≤ size m.
Proof.
  intros Hc Hn. rewrite <- size_dom, <- (size_list_to_set (C := gset nat) l) by done. apply subseteq_size. intros p Hp.
  apply elem_of_dom. apply elem_of_list_to_set in Hp. by eapply chain_dom.
Qed.

(** Where the loop stops: at the predecessor of the object. *)
Lemma unlink_from fuel head m prev cur l t l2 :
  chain m cur (l ++ t :: l2) -> NoDup (l ++ t :: l2) -> length (l ++ t :: l2) ≤ fuel ->
  (forall q, prev = Some q -> is_Some (m !! q)) ->
  exists n, m !! t = Some n /\ unlink fuel head m prev cur t
    = Some (match (match last l with Some q => Some q | None => prev end) with
            | None => (h2_next n, m)
            | Some q => (head, alter (set_next (h2_next n)) q m)
            end).
Proof.
  revert fuel prev cur. induction l as [|a l IH]; intros fuel prev cur Hc Hn Hl Hp.
  - destruct Hc as [-> (n & Ht & _)]. destruct fuel as [|fuel]; [simpl in Hl; lia|]. exists n. split; [done|]. cbn [unlink]. rewrite Ht. simpl.
    rewrite Nat.eqb_refl. destruct prev as [q|]; [|done]. destruct (Hp q eq_refl) as [w Hw]. rewrite Hw. simpl.
    f_equal. f_equal. apply map_eq. intros i. destruct (decide (i = q)) as [->|];
      [by rewrite lookup_insert_eq, lookup_alter_eq, Hw|by rewrite lookup_insert_ne, lookup_alter_ne by done].
  - destruct Hc as [-> (n & Ha & Hc)]. destruct fuel as [|fuel]; [simpl in Hl; lia|]. cbn [app] in *. apply NoDup_cons in Hn as [Hna Hn].
    cbn [unlink]. rewrite Ha. simpl. assert (a ≠ t) by (intros ->; apply Hna, elem_of_app; right; apply elem_of_cons; by left).
    replace (a =? t) with false by (symmetry; by apply Nat.eqb_neq).
    destruct (IH fuel (Some a) (h2_next n) Hc Hn) as (nt & Hnt & E); [simpl in Hl; lia|intros q [= <-]; eauto|].
    exists nt. split; [done|]. rewrite E. f_equal. rewrite last_cons. by destruct (last l).
Qed.

Lemma chain_remove m cur l t l2 n :
  chain m cur (l ++ t :: l2) -> NoDup (l ++ t :: l2) -> m !! t = Some n ->
  match last l with
  | None => chain m (h2_next n) l2
  | Some q => q ∈ l /\ chain (alter (set_next (h2_next n)) q m) cur (l ++ l2)
  end.
Proof.
  revert cur. induction l as [|a l IH]; intros cur Hc Hn Ht; [destruct Hc as [_ (n' & Hn' & Hc)]; simplify_eq; done|].
  destruct Hc as [-> (na & Ha & Hc)]. cbn [app] in *. apply NoDup_cons in Hn as [Hna Hn]. specialize (IH _ Hc Hn Ht). rewrite last_cons.
  destruct (last l) as [q|] eqn:El.
  - destruct IH as [Hq IH]. split; [apply elem_of_cons; by right|]. split; [done|]. exists na. split; [|done].
    rewrite lookup_alter_ne; [done|]. intros ->. apply Hna, elem_of_app. by left.
  - apply last_None in El as ->. split; [apply elem_of_cons; by left|]. split; [done|]. exists (set_next (h2_next n) na).
    rewrite lookup_alter_eq, Ha. split; [done|]. simpl. eapply chain_agree; [exact IH|]. intros p Hp.
    rewrite lookup_alter_ne; [done|]. intros <-. apply Hna. apply elem_of_cons. by right.
Qed.

(** Closing a stream takes its object out of the list and changes nothing else of the
    others than the links. *)
Lemma unlink_spec m head l t :
  chain m head l -> NoDup l -> t ∈ l ->
  exists head' m' l', unlink (walk_fuel m) head m None head t = Some (head', m') /\ chain m' head' l'
    /\ l ≡ₚ t :: l' /\ (forall p, set_next None <$> m' !! p = set_next None <$> m !! p).
Proof.
  intros Hc Hn Ht. pose proof (chain_length _ _ _ Hc Hn) as Hl. apply list_elem_of_split in Ht as (l1 & l2 & ->).
  destruct (unlink_from (walk_fuel m) head m None head l1 t l2 Hc Hn) as (n & Ht & E); [unfold walk_fuel; lia|done|].
  pose proof (chain_remove _ _ _ _ _ _ Hc Hn Ht) as Hr. destruct (last l1) as [q|] eqn:El.
  - destruct Hr as [_ Hr]. eexists _, _, (l1 ++ l2). split; [exact E|]. split; [done|]. split; [by rewrite Permutation_middle|].
    intros p. destruct (decide (p = q)) as [->|]; [|by rewrite lookup_alter_ne]. rewrite lookup_alter_eq. by destruct (m !! q).
  - apply last_None in El as ->. eexists _, _, l2. split; [exact E|]. done.
Qed.

(** ** Ownership of response objects *)

Definition resp_of (m : gmap nat h2_stream_data) (p : nat) : option nat := m !! p ≫= h2_resp.

(** Every response object belongs to one stream object. *)
Record owned_mem (sds : gmap nat h2_stream_data) (rds : gmap nat h2_resp_data) : Prop := {
  om_live : forall p q, resp_of sds p = Some q -> is_Some (rds !! q);
  om_inj : forall p p' q, resp_of sds p = Some q -> resp_of sds p' = Some q -> p = p';
  om_owner : forall q, is_Some (rds !! q) -> exists p, resp_of sds p = Some q;
}.

Lemma owned_agree sds sds' rds : (forall p, resp_of sds' p = resp_of sds p) -> owned_mem sds rds -> owned_mem sds' rds.
Proof.
  intros H [H1 H2 H3]. split.
  - intros p q. rewrite H. apply H1.
  - intros p p' q. rewrite !H. apply H2.
  - intros q Hq. destruct (H3 q Hq) as [p Hp]. exists p. by rewrite H.
Qed.

Lemma resp_of_delete m p q : resp_of (delete p m) q = if decide (p = q) then None else resp_of m q.
Proof. unfold resp_of. destruct (decide (p = q)) as [->|]; [by rewrite lookup_delete_eq|by rewrite lookup_delete_ne]. Qed.

Lemma resp_of_insert m p sd q : resp_of (<[p := sd]> m) q = if decide (p = q) then h2_resp sd else resp_of m q.
Proof. unfold resp_of. destruct (decide (p = q)) as [->|]; [by rewrite lookup_insert_eq|by rewrite lookup_insert_ne]. Qed.

(** Freeing a stream object frees what it owns and nothing else. *)
Lemma stream_data_free_owned sds rds p sd :
  owned_mem sds rds -> sds !! p = Some sd ->
  exists rds', stream_data_free sds rds p = Some (delete p sds, rds') /\ owned_mem (delete p sds) rds' /\ rds' ⊆ rds.
Proof.
  intros [H1 H2 H3] Hp. unfold stream_data_free. rewrite Hp. simpl. destruct (h2_resp sd) as [q|] eqn:Eq.
  - assert (Hq : resp_of sds p = Some q) by (unfold resp_of; by rewrite Hp). unfold free_rd. destruct (H1 _ _ Hq) as [rd Hrd]. rewrite Hrd. simpl.
    eexists. split; [done|]. split; [|apply delete_subseteq]. split.
    + intros p' q'. rewrite resp_of_delete. destruct (decide (p = p')) as [->|Hne]; [done|]. intros Hr.
      rewrite lookup_delete_ne; [by eapply H1|]. intros ->. by apply Hne, (H2 _ _ _ Hq).
    + intros p1 p2 q'. rewrite !resp_of_delete. destruct (decide (p = p1)), (decide (p = p2)); try done. apply H2.
    + intros q' Hq'. assert (q' ≠ q) by (intros ->; rewrite lookup_delete_eq in Hq'; by destruct Hq'). rewrite lookup_delete_ne in Hq' by done.
      destruct (H3 _ Hq') as [p' Hp']. exists p'. rewrite resp_of_delete. rewrite decide_False; [done|]. intros <-. congruence.
  - assert (Hq : resp_of sds p = None) by (unfold resp_of; by rewrite Hp). eexists. split; [done|]. split; [|done]. split.
    + intros p' q'. rewrite resp_of_delete. destruct (decide (p = p')); [done|]. apply H1.
    + intros p1 p2 q'. rewrite !resp_of_delete. destruct (decide (p = p1)), (decide (p = p2)); try done. apply H2.
    + intros q' Hq'. destruct (H3 _ Hq') as [p' Hp']. exists p'. rewrite resp_of_delete. rewrite decide_False; [done|]. intros <-. congruence.
Qed.

(** Destroying a session frees every object once. *)
Lemma free_streams_all fuel cur l sds rds :
  chain sds cur l -> NoDup l -> dom sds = list_to_set (C := gset nat) l -> owned_mem sds rds -> length l ≤ fuel ->
  free_streams fuel cur sds rds = Some (∅, ∅).
Proof.
  revert fuel cur sds rds. induction l as [|p l IH]; intros fuel cur sds rds Hc Hn Hd Ho Hl.
  - assert (sds = ∅) as -> by (apply dom_empty_inv_L; rewrite Hd; done). assert (rds = ∅) as ->.
    { apply map_eq. intros q. rewrite lookup_empty. destruct (rds !! q) eqn:Eq; [|done]. destruct (om_owner _ _ Ho q ltac:(eauto)) as [p Hp].
      unfold resp_of in Hp. by rewrite lookup_empty in Hp. }
    rewrite Hc. by destruct fuel.
  - destruct Hc as [-> (n & Hp & Hc)]. apply NoDup_cons in Hn as [Hnp Hn]. destruct fuel as [|fuel]; [simpl in Hl; lia|].
    cbn [free_streams]. rewrite Hp. destruct (stream_data_free_owned _ _ _ _ Ho Hp) as (rds' & E & Ho' & _). cbn [mbind option_bind]. rewrite E. cbn [mbind option_bind].
    apply IH; [|done| |done|simpl in Hl; lia].
    + eapply chain_agree; [exact Hc|]. intros q Hq. rewrite lookup_delete_ne; [done|]. by intros ->.
    + rewrite dom_delete_L, Hd. simpl. apply leibniz_equiv. intros x. rewrite elem_of_difference, elem_of_union, elem_of_singleton, elem_of_list_to_set. split; [tauto|]. intros Hx. split; [by right|]. by intros ->.
Qed.

(** ** Bodies of responses *)

(** Successive reads with buffers of the given lengths: the data and the last flag. *)
Fixpoint read_all (rd : h2_resp_data) (lens : list nat) (eof : bool) : bytes * bool :=
  match lens with
  | [] => ([], eof)
  | n :: lens =>
      let '(data, eof, rd) := resp_data_read_cb rd n in
      let '(more, eof) := read_all rd lens eof in
      (data ++ more, eof)
  end.

Lemma resp_data_read_step rd n :
  rd_offset rd ≤ length (rd_body rd) ->
  let '(data, eof, rd') := resp_data_read_cb rd n in
  data ++ drop (rd_offset rd') (rd_body rd) = drop (rd_offset rd) (rd_body rd) /\ rd_body rd' = rd_body rd
  /\ rd_offset rd' = Nat.min (rd_offset rd + n) (length (rd_body rd)) /\ eof = bool_decide (rd_offset rd' = length (rd_body rd)).
Proof.
  intros Ho. unfold resp_data_read_cb. simpl.
  set (k := if n <? length (rd_body rd) - rd_offset rd then n else length (rd_body rd) - rd_offset rd).
  assert (Hk : k = Nat.min n (length (rd_body rd) - rd_offset rd)) by (unfold k; destruct (Nat.ltb_spec n (length (rd_body rd) - rd_offset rd)); lia).
  clearbody k. split; [rewrite <- drop_drop; apply take_drop|]. split; [done|]. split; [lia|].
  destruct (Nat.leb_spec (length (rd_body rd)) (rd_offset rd + k)); symmetry; [apply bool_decide_eq_true|apply bool_decide_eq_false]; lia.
Qed.

Lemma read_all_from rd lens eof :
  rd_offset rd ≤ length (rd_body rd) -> eof = bool_decide (rd_offset rd = length (rd_body rd)) ->
  read_all rd lens eof = (take (sum_list lens) (drop (rd_offset rd) (rd_body rd)), bool_decide (length (rd_body rd) ≤ rd_offset rd + sum_list lens)).
Proof.
  revert rd eof. induction lens as [|n lens IH]; intros rd eof Ho He.
  - cbn [read_all]. change (sum_list []) with 0. rewrite take_0, He. f_equal. apply bool_decide_ext. lia.
  - cbn [read_all]. change (sum_list (n :: lens)) with (n + sum_list lens).
    pose proof (resp_data_read_step rd n Ho) as Hs. destruct (resp_data_read_cb rd n) as [[data eof'] rd'].
    destruct Hs as (Hd & Hb & Hoff & He'). rewrite (IH rd' eof') by (rewrite ?Hb; first [lia|done]). rewrite Hb, Hoff.
    generalize (sum_list lens) as k. intros k.
    assert (Hlen : length data = Nat.min n (length (rd_body rd) - rd_offset rd)).
    { apply (f_equal length) in Hd. rewrite length_app, !length_drop in Hd. lia. }
    f_equal; [|apply bool_decide_ext; lia]. rewrite <- Hd, Hoff.
    rewrite take_app. f_equal; [by rewrite take_ge by lia|].
    destruct (decide (rd_offset rd + n ≤ length (rd_body rd))).
    + f_equal. lia.
    + rewrite Nat.min_r by lia. rewrite drop_all. by rewrite !take_nil.
Qed.

(** ** What the library promises *)

(** What can be said of a library state: the data source of a stream's response, whether
    the peer has ended the stream, how many bytes of header texts and of data were handed
    over for it, and how many bytes are still to be sent. *)
Class NgView (S : Type) := {
  ng_source : S -> Z -> option nat;
  ng_ended : S -> Z -> bool;
  ng_header_bytes : S -> Z -> nat;
  ng_data_bytes : S -> Z -> nat;
  ng_to_send : S -> nat;
}.

Section Laws.
Context {S : Type} `{N : Nghttp2 S} `{V : NgView S}.

(** The library goes from [s] to [s'] on its own: it may forget streams, with their user
    data and sources, but it does not make any up. *)
Record follows (s s' : S) : Prop := {
  fo_user : forall id p, ng_get_user_data s' id = Some p -> ng_get_user_data s id = Some p;
  fo_source : forall id q, ng_source s' id = Some q -> ng_source s id = Some q /\ ng_get_user_data s' id = ng_get_user_data s id;
  fo_ended : forall id, ng_ended s id = true -> ng_ended s' id = true;
  fo_header_bytes : forall id, ng_header_bytes s id ≤ ng_header_bytes s' id;
  fo_data_bytes : forall id, ng_data_bytes s id ≤ ng_data_bytes s' id;
}.

(** When the callbacks are called; [s0] is the state before the event, [s] the one the
    callback sees.  The header texts of a stream stay within the first block of its arena. *)
Definition event_ok (s0 s : S) (e : ng_event) : Prop :=
  match e with
  | OnBeginHeaders f => is_request f = true ->
      ng_get_user_data s (fr_stream_id f) = None /\ ng_source s (fr_stream_id f) = None
      /\ forall p, ng_get_user_data (ng_set_user_data s (fr_stream_id f) p) (fr_stream_id f) = p
  | OnHeader f name value => is_request f = true ->
      ng_header_bytes s0 (fr_stream_id f) + field_size (h2_kind name, name, value) ≤ ng_header_bytes s (fr_stream_id f)
      /\ (Z.of_nat (ng_header_bytes s (fr_stream_id f)) <= 4096)%Z
  | OnDataChunk id data =>
      ng_data_bytes s0 id + length data ≤ ng_data_bytes s id /\ (Z.of_nat (ng_data_bytes s id) <= 2 ^ 63)%Z
  | OnFrameRecv f _ => fr_end_stream f = true -> fr_type f = NGHTTP2_HEADERS \/ fr_type f = NGHTTP2_DATA ->
      ng_ended s0 (fr_stream_id f) = false /\ ng_ended s (fr_stream_id f) = true
  | OnStreamClose id => ng_source s id = None
  | ReadBody id _ source => ng_source s id = Some source
  end.

Fixpoint behaves {A} (s0 : S) (p : ng_prog S A) : Prop :=
  match p with
  | NgRet _ s => follows s0 s
  | NgCallback s e k => follows s0 s /\ event_ok s0 s e /\ forall s' ans, behaves s' (k s' ans)
  end.

(** A call that hands out bytes leaves so many less to send. *)
Fixpoint sends_from (n : nat) (p : ng_prog S (option bytes)) : Prop :=
  match p with
  | NgRet (Some data) s => data ≠ [] -> ng_to_send s + length data ≤ n
  | NgRet None _ => True
  | NgCallback _ _ k => forall s' ans, sends_from n (k s' ans)
  end.

(** The documented behaviour the code relies on. *)
Class NgLaws : Prop := {
  law_new : forall s id, ng_server_new = Some s -> ng_get_user_data s id = None /\ ng_source s id = None;
  law_settings : forall s l, follows s (ng_submit_settings s l);
  law_goaway : forall s i c d, follows s (snd (ng_submit_goaway s i c d));
  law_set_self : forall s id v, ng_get_user_data (ng_set_user_data s id v) id = v \/ ng_get_user_data (ng_set_user_data s id v) id = None;
  law_set_other : forall s id id' v, id' ≠ id -> ng_get_user_data (ng_set_user_data s id v) id' = ng_get_user_data s id';
  law_set_rest : forall s id v id', ng_source (ng_set_user_data s id v) id' = ng_source s id'
    /\ ng_ended (ng_set_user_data s id v) id' = ng_ended s id'
    /\ ng_header_bytes (ng_set_user_data s id v) id' = ng_header_bytes s id'
    /\ ng_data_bytes (ng_set_user_data s id v) id' = ng_data_bytes s id';
  law_submit : forall s id nvs src, let '(rv, s') := ng_submit_response s id nvs src in
    (forall id', ng_get_user_data s' id' = ng_get_user_data s id' /\ ng_ended s' id' = ng_ended s id'
       /\ ng_header_bytes s' id' = ng_header_bytes s id' /\ ng_data_bytes s' id' = ng_data_bytes s id')
    /\ (forall id' q, ng_source s' id' = Some q -> ng_source s id' = Some q \/ (rv = 0%Z /\ id' = id /\ src = Some q));
  law_recv : forall s data, behaves s (ng_mem_recv s data);
  law_send : forall s, behaves s (ng_mem_send s);
  law_progress : forall s, sends_from (ng_to_send s) (ng_mem_send s) /\ (Z.of_nat (ng_to_send s) <= 2 ^ 63)%Z;
}.

(** ** The invariant *)

(** What the streams should hold: their fields and body, by identifier. *)
Abbreviation streams_spec := (gmap Z (plain_request * option bytes)).

Record session_ok (st : ioh_http2_session S) (ab : streams_spec) : Prop := {
  so_list : exists l, chain (h2_sds st) (h2_streams st) l /\ NoDup l /\ dom (h2_sds st) = list_to_set (C := gset nat) l;
  so_owned : owned_mem (h2_sds st) (h2_rds st);
  so_fresh : forall p, is_Some (h2_sds st !! p) \/ is_Some (h2_rds st !! p) -> p < h2_fresh st;
  so_user : forall id p, ng_get_user_data (h2_ng st) id = Some p -> exists sd, h2_sds st !! p = Some sd /\ sd_id (h2_sd sd) = id;
  so_source : forall id q, ng_source (h2_ng st) id = Some q -> exists p, ng_get_user_data (h2_ng st) id = Some p /\ resp_of (h2_sds st) p = Some q;
  so_ended : forall p sd, h2_sds st !! p = Some sd -> is_Some (h2_resp sd) -> ng_ended (h2_ng st) (sd_id (h2_sd sd)) = true;
  so_streams : forall p sd, h2_sds st !! p = Some sd ->
    stream_ok (ng_header_bytes (h2_ng st) (sd_id (h2_sd sd))) (ng_data_bytes (h2_ng st) (sd_id (h2_sd sd))) (h2_sd sd);
  so_out : exists k, (16 <= k <= 63)%Z /\ h2_out_cap st = (2 ^ k)%Z /\ (Z.of_nat (length (h2_out st)) <= 2 ^ k)%Z;
  so_spec : forall id p pr b, ng_get_user_data (h2_ng st) id = Some p -> ab !! id = Some (pr, b) ->
    exists sd, h2_sds st !! p = Some sd /\ represents (sd_arena (h2_sd sd)) (sd_req (h2_sd sd)) pr /\ body_of (h2_sd sd) = b;
}.

Lemma follow_ok st ab s : session_ok st ab -> follows (h2_ng st) s -> session_ok (set_ng st s) ab.
Proof.
  intros [H1 H2 H3 H4 H5 H6 H7 H8 H9] [F1 F2 F3 F4 F5]. split; simpl; auto.
  - intros id q Hq. apply F2 in Hq as [Hq E]. destruct (H5 _ _ Hq) as (p & Hp & Hr). exists p. by rewrite E.
  - intros p sd Hp Hr. apply F3. by eapply H6.
  - intros p sd Hp. eapply stream_ok_mono; [..|by eapply H7]; auto.
  - intros id p pr b Hu. by apply H9, F1.
Qed.

Lemma session_alloc_ok st ab n h : session_ok st ab -> h2_fresh st ≤ n -> session_ok (set_alloc st n h) ab.
Proof.
  intros [H1 H2 H3 H4 H5 H6 H7 H8 H9] Hn. split; simpl; auto. intros p Hp. pose proof (H3 p Hp). lia.
Qed.

Lemma unspec_ok st ab id : session_ok st ab -> session_ok st (delete id ab).
Proof.
  intros [H1 H2 H3 H4 H5 H6 H7 H8 H9]. split; auto. intros id' p pr b Hu Ha. apply lookup_delete_Some in Ha as [_ Ha]. by eapply H9.
Qed.

Lemma chain_put m p sd sd' cur l :
  m !! p = Some sd -> h2_next sd' = h2_next sd -> chain m cur l -> chain (<[p := sd']> m) cur l.
Proof.
  intros Hp Hn Hc. eapply chain_agree; [exact Hc|]. intros q _. destruct (decide (p = q)) as [->|]; [|by rewrite lookup_insert_ne].
  rewrite lookup_insert_eq, Hp. simpl. by rewrite Hn.
Qed.

Lemma dom_put (m : gmap nat h2_stream_data) p sd sd' : m !! p = Some sd -> dom (<[p := sd']> m) = dom m.
Proof. intros Hp. rewrite dom_insert_L. apply leibniz_equiv. intros x. rewrite elem_of_union, elem_of_singleton. split; [intros [->|]; [apply elem_of_dom; eauto|done]|auto]. Qed.

(** A stream object keeps its place while its contents change. *)
Lemma update_ok st ab id p sd d entry :
  session_ok st ab -> ng_get_user_data (h2_ng st) id = Some p -> h2_sds st !! p = Some sd -> sd_id d = sd_id (h2_sd sd) ->
  stream_ok (ng_header_bytes (h2_ng st) (sd_id d)) (ng_data_bytes (h2_ng st) (sd_id d)) d ->
  (forall pr b, entry = Some (pr, b) -> represents (sd_arena d) (sd_req d) pr /\ body_of d = b) ->
  session_ok (put_sd st p (mk_h2_sd d (h2_resp sd) (h2_next sd))) (partial_alter (fun _ => entry) id ab).
Proof.
  intros Hok Hu Hp Hid Hs He. pose proof (so_user _ _ Hok _ _ Hu) as (sd0 & Hp0 & Hid0). rewrite Hp in Hp0. injection Hp0 as <-.
  destruct Hok as [H1 H2 H3 H4 H5 H6 H7 H8 H9].
  assert (Hr : forall q, resp_of (<[p := mk_h2_sd d (h2_resp sd) (h2_next sd)]> (h2_sds st)) q = resp_of (h2_sds st) q).
  { intros q. rewrite resp_of_insert. destruct (decide (p = q)) as [->|]; [|done]. unfold resp_of. by rewrite Hp. }
  split; simpl; auto.
  - destruct H1 as (l & Hc & Hn & Hd). exists l. split; [by eapply chain_put|]. split; [done|]. by erewrite dom_put.
  - eapply owned_agree; [|exact H2]. apply Hr.
  - intros q [Hq|Hq]; apply H3; [|by right]. left. destruct (decide (p = q)) as [->|]; [eauto|]. by rewrite lookup_insert_ne in Hq.
  - intros id' q Hq. destruct (H4 _ _ Hq) as (sd1 & Hs1 & Hi1). destruct (decide (p = q)) as [->|].
    + eexists. rewrite lookup_insert_eq. split; [done|]. simpl. congruence.
    + exists sd1. by rewrite lookup_insert_ne.
  - intros id' q Hq. destruct (H5 _ _ Hq) as (p' & Hp' & Hr'). exists p'. by rewrite Hr.
  - intros q sd1 Hq Hr1. destruct (decide (p = q)) as [->|]; [|rewrite lookup_insert_ne in Hq by done; by eapply H6].
    rewrite lookup_insert_eq in Hq. injection Hq as <-. simpl in *. rewrite Hid. by apply (H6 q).
  - intros q sd1 Hq. destruct (decide (p = q)) as [->|]; [|rewrite lookup_insert_ne in Hq by done; by eapply H7].
    rewrite lookup_insert_eq in Hq. by injection Hq as <-.
  - intros id' p' pr b Hu' Ha. destruct (decide (id = id')) as [->|Hne].
    + rewrite lookup_partial_alter_eq in Ha. assert (p' = p) as -> by congruence. eexists. rewrite lookup_insert_eq. split; [done|]. simpl. by apply He.
    + rewrite lookup_partial_alter_ne in Ha by done. destruct (H9 _ _ _ _ Hu' Ha) as (sd1 & Hs1 & Hr1). exists sd1. split; [|done].
      rewrite lookup_insert_ne; [done|]. intros ->. destruct (H4 _ _ Hu') as (sd2 & Hs2 & Hi2). congruence.
Qed.

(** ** The effect of the callbacks *)

(** How an event changes what the streams should hold, given whether the callback
    succeeded; a stream whose callback failed is no longer described. *)
Definition spec_step (ab : streams_spec) (e : ng_event) (ok : bool) : streams_spec :=
  match e with
  | OnBeginHeaders f => if is_request f && ok then <[fr_stream_id f := (plain_init, None)]> ab else ab
  | OnHeader f name value =>
      if is_request f then
        partial_alter (fun o => if ok then '(pr, b) ← o; pr ← take_field pr (h2_kind name, name, value); Some (pr, b) else None) (fr_stream_id f) ab
      else ab
  | OnDataChunk id data =>
      partial_alter (fun o => if ok then '(pr, b) ← o; Some (pr, Some (default [] b ++ data)) else None) id ab
  | OnStreamClose id => delete id ab
  | _ => ab
  end.

Context `{L : NgLaws}.

Lemma begin_ok st ab f :
  session_ok st ab -> (is_request f = true ->
      ng_get_user_data (h2_ng st) (fr_stream_id f) = None /\ ng_source (h2_ng st) (fr_stream_id f) = None
      /\ forall p, ng_get_user_data (ng_set_user_data (h2_ng st) (fr_stream_id f) p) (fr_stream_id f) = p) ->
  exists rc st', on_begin_headers_cb st f = Some (rc, st') /\ session_ok st' (spec_step ab (OnBeginHeaders f) (rc =? 0)%Z).
Proof.
  intros Hok He. unfold on_begin_headers_cb, spec_step. destruct (is_request f); cbn [negb andb]; [|by eexists _, _].
  destruct (He eq_refl) as (Hu & Hsrc & Hset). clear He. unfold stream_data_new. destruct (xalloc (h2_heap st)) as [[] h]; cbn [negb].
  2:{ eexists _, _. split; [done|]. by apply session_alloc_ok. }
  simpl. rewrite lookup_insert_eq. simpl. rewrite insert_insert_eq. eexists _, _. split; [done|]. simpl. set (id := fr_stream_id f) in *. set (q := h2_fresh st) in *.
  destruct Hok as [H1 H2 H3 H4 H5 H6 H7 H8 H9].
  assert (Hq : h2_sds st !! q = None). { destruct (h2_sds st !! q) eqn:E; [|done]. pose proof (H3 q ltac:(left; eauto)). unfold q in *. lia. }
  assert (Hget : forall id' p, ng_get_user_data (ng_set_user_data (h2_ng st) id (Some q)) id' = Some p ->
            (id' = id /\ p = q) \/ (id' ≠ id /\ ng_get_user_data (h2_ng st) id' = Some p)).
  { intros id' p Hp. destruct (decide (id' = id)) as [->|]; [left; split; [done|]; rewrite Hset in Hp; congruence|right]. by rewrite law_set_other in Hp. }
  assert (Hr : forall p, resp_of (<[q := mk_h2_sd (new_stream id) None (h2_streams st)]> (h2_sds st)) p = resp_of (h2_sds st) p).
  { intros p. rewrite resp_of_insert. destruct (decide (q = p)) as [<-|]; [|done]. unfold resp_of. by rewrite Hq. }
  split; simpl.
  - destruct H1 as (l & Hc & Hn & Hd). exists (q :: l). assert (Hql : q ∉ l).
    { intros Hin. destruct (chain_dom _ _ _ _ Hc Hin). congruence. }
    split; [|split; [by apply NoDup_cons|rewrite dom_insert_L, Hd; done]]. split; [done|]. eexists. rewrite lookup_insert_eq. split; [done|]. simpl.
    eapply chain_agree; [exact Hc|]. intros p Hp. rewrite lookup_insert_ne; [done|]. by intros ->.
  - eapply owned_agree; [exact Hr|done].
  - intros p [Hp|Hp]; [destruct (decide (q = p)) as [<-|]; [lia|]; rewrite lookup_insert_ne in Hp by done|]; [pose proof (H3 p (or_introl Hp))|pose proof (H3 p (or_intror Hp))]; lia.
  - intros id' p Hp. destruct (Hget _ _ Hp) as [[-> ->]|[Hne Hp']]; [eexists; by rewrite lookup_insert_eq|].
    destruct (H4 _ _ Hp') as (sd & Hsd & Hid). exists sd. rewrite lookup_insert_ne by congruence. done.
  - intros id' p Hp. destruct (law_set_rest (h2_ng st) id (Some q) id') as (E & _). rewrite E in Hp.
    destruct (H5 _ _ Hp) as (p' & Hp' & Hr'). assert (id' ≠ id) by congruence. exists p'. rewrite law_set_other by done. by rewrite Hr.
  - intros p sd Hp Hs. destruct (decide (q = p)) as [<-|]; [rewrite lookup_insert_eq in Hp; injection Hp as <-; by destruct Hs|].
    rewrite lookup_insert_ne in Hp by done. destruct (law_set_rest (h2_ng st) id (Some q) (sd_id (h2_sd sd))) as (_ & -> & _). by eapply H6.
  - intros p sd Hp. destruct (law_set_rest (h2_ng st) id (Some q) (sd_id (h2_sd sd))) as (_ & _ & Eh & Ed). destruct (decide (q = p)) as [<-|].
    + rewrite lookup_insert_eq in Hp. injection Hp as <-. apply new_stream_ok.
    + rewrite lookup_insert_ne in Hp by done. eapply stream_ok_mono; [..|by eapply H7]; lia.
  - done.
  - intros id' p pr b Hp Ha. destruct (Hget _ _ Hp) as [[-> ->]|[Hne Hp']].
    + rewrite lookup_insert_eq in Ha. injection Ha as <- <-. eexists. rewrite lookup_insert_eq. split; [done|]. split; [apply represents_init|done].
    + rewrite lookup_insert_ne in Ha by done. destruct (H9 _ _ _ _ Hp' Ha) as (sd & Hsd & Hrep). exists sd. rewrite lookup_insert_ne by congruence. done.
Qed.

Lemma header_ok st ab s f name value :
  session_ok st ab -> follows (h2_ng st) s -> event_ok (h2_ng st) s (OnHeader f name value) ->
  exists rc st', on_header_cb (set_ng st s) f name value = Some (rc, st') /\ session_ok st' (spec_step ab (OnHeader f name value) (rc =? 0)%Z).
Proof.
  intros Hok Hf He. pose proof (follow_ok _ _ _ Hok Hf) as Hok1. unfold on_header_cb, spec_step. destruct (is_request f) eqn:Er; cbn [negb]; [|by eexists _, _].
  destruct (He Er) as [Hb Hmax]. clear He. unfold with_stream. cbn [set_ng h2_ng h2_sds h2_heap]. destruct (ng_get_user_data s (fr_stream_id f)) as [p|] eqn:Eu.
  2:{ eexists _, _. split; [done|]. destruct Hok1 as [H1 H2 H3 H4 H5 H6 H7 H8 H9]. split; auto. intros id p pr b Hu Ha. simpl in Hu.
      rewrite lookup_partial_alter_ne in Ha by congruence. by eapply H9. }
  destruct (so_user _ _ Hok1 _ _ Eu) as (sd & Hsd & Hid). cbn [set_ng h2_sds] in Hsd. rewrite Hsd. cbn [mbind option_bind].
  pose proof (so_streams _ _ Hok _ _ Hsd) as K. rewrite Hid in K. destruct Hf as [_ _ _ _ F5]. specialize (F5 (fr_stream_id f)).
  assert (Hpr : exists pr, represents (sd_arena (h2_sd sd)) (sd_req (h2_sd sd)) pr /\ forall pr' b, ab !! fr_stream_id f = Some (pr', b) -> pr' = pr /\ body_of (h2_sd sd) = b).
  { destruct (ab !! fr_stream_id f) as [[pr b]|] eqn:Ea; [|destruct (sk_request _ _ _ K) as [pr Hpr]; exists pr; by split].
    destruct (so_spec _ _ Hok1 _ _ _ _ Eu Ea) as (sd' & Hs' & Hr' & Hb'). simpl in Hs'. rewrite Hsd in Hs'. injection Hs' as <-. exists pr. split; [done|]. by intros ? ? [= <- <-]. }
  destruct Hpr as (pr & Hrep & Hspec).
  destruct (recv_header_ok (h2_kind name) name value (h2_sd sd) pr (h2_heap st) _ _ _ K Hrep Hb Hmax) as (ok & d & h & E & Hs' & Hdi & Hdo & Hres).
  rewrite E. cbn [mbind option_bind]. eexists _, _. split; [done|].
  rewrite (partial_alter_ext _ (fun _ => if (if ok then 0 else NGHTTP2_ERR_CALLBACK_FAILURE)%Z =? 0 then
      '(pr, b) ← ab !! fr_stream_id f; pr ← take_field pr (h2_kind name, name, value); Some (pr, b) else None)%Z) by (intros ? ->; done).
  apply update_ok with (sd := sd); [by apply session_alloc_ok|done|done|congruence| |].
  - rewrite Hdi, Hid. eapply stream_ok_mono; [| |exact Hs']; simpl; lia.
  - intros pr' b. destruct ok; [|done]. cbn [Z.eqb]. destruct (ab !! fr_stream_id f) as [[pr0 b0]|] eqn:Ea; [|done]. cbn [mbind option_bind]. destruct (Hspec _ _ eq_refl) as [-> Hb0].
    destruct (Hres eq_refl) as (pr2 & Et & Hr2). rewrite Et. cbn [mbind option_bind]. intros [= <- <-]. split; [done|congruence].
Qed.

Lemma data_ok st ab s id data :
  session_ok st ab -> follows (h2_ng st) s -> event_ok (h2_ng st) s (OnDataChunk id data) ->
  exists rc st', on_data_chunk_cb (set_ng st s) id data = Some (rc, st') /\ session_ok st' (spec_step ab (OnDataChunk id data) (rc =? 0)%Z).
Proof.
  intros Hok Hf [Hb Hmax]. pose proof (follow_ok _ _ _ Hok Hf) as Hok1. unfold on_data_chunk_cb, spec_step, with_stream. cbn [set_ng h2_ng h2_sds h2_heap].
  destruct (ng_get_user_data s id) as [p|] eqn:Eu.
  2:{ eexists _, _. split; [done|]. destruct Hok1 as [H1 H2 H3 H4 H5 H6 H7 H8 H9]. split; auto. intros id' p pr b Hu Ha. simpl in Hu.
      rewrite lookup_partial_alter_ne in Ha by congruence. by eapply H9. }
  destruct (so_user _ _ Hok1 _ _ Eu) as (sd & Hsd & Hid). cbn [set_ng h2_sds] in Hsd. rewrite Hsd. cbn [mbind option_bind].
  pose proof (so_streams _ _ Hok _ _ Hsd) as K. rewrite Hid in K. destruct Hf as [_ _ _ F4 _]. specialize (F4 id).
  destruct (recv_data_ok data (h2_sd sd) (h2_heap st) _ _ _ K Hb Hmax) as (ok & d & h & E & Hs' & Hdi & Ea & Eq & Hres). rewrite E. cbn [mbind option_bind].
  eexists _, _. split; [done|]. rewrite (partial_alter_ext _ (fun _ => if (if ok then 0 else NGHTTP2_ERR_CALLBACK_FAILURE)%Z =? 0 then
      '(pr, b) ← ab !! id; Some (pr, Some (default [] b ++ data)) else None)%Z) by (intros ? ->; done).
  apply update_ok with (sd := sd); [by apply session_alloc_ok|done|done|congruence| |].
  - rewrite Hdi, Hid. eapply stream_ok_mono; [| |exact Hs']; simpl; lia.
  - intros pr b. destruct ok; [|done]. cbn [Z.eqb]. destruct (ab !! id) as [[pr0 b0]|] eqn:Ea0; [|done]. cbn [mbind option_bind]. intros [= <- <-]. rewrite Ea, Eq.
    destruct (so_spec _ _ Hok1 _ _ _ _ Eu Ea0) as (sd' & Hs2 & Hr' & Hb'). simpl in Hs2. rewrite Hsd in Hs2. injection Hs2 as <-. split; [done|].
    rewrite Hres by done. by rewrite Hb'.
Qed.

Lemma close_ok st ab id :
  session_ok st ab -> ng_source (h2_ng st) id = None ->
  exists rc st', on_stream_close_cb st id = Some (rc, st') /\ session_ok st' (delete id ab).
Proof.
  intros Hok Hsrc. unfold on_stream_close_cb. destruct (ng_get_user_data (h2_ng st) id) as [p|] eqn:Eu; [|eexists _, _; split; [done|by apply unspec_ok]].
  destruct (so_user _ _ Hok _ _ Eu) as (sd & Hsd & Hid). destruct Hok as [H1 H2 H3 H4 H5 H6 H7 H8 H9]. cbn [set_ng h2_sds h2_streams h2_rds].
  destruct H1 as (l & Hc & Hn & Hd). assert (Hin : p ∈ l).
  { apply (elem_of_list_to_set (C := gset nat)). rewrite <- Hd. apply elem_of_dom. eauto. }
  destruct (unlink_spec _ _ _ _ Hc Hn Hin) as (head & m & l' & E & Hc' & Hp & Hm). rewrite E. cbn [mbind option_bind].
  assert (Hlk : forall q x, m !! q = Some x -> exists y, h2_sds st !! q = Some y /\ h2_sd y = h2_sd x /\ h2_resp y = h2_resp x).
  { intros q x Hq. specialize (Hm q). rewrite Hq in Hm. destruct (h2_sds st !! q) as [y|]; [|done]. injection Hm as Em1 Em2. exists y. auto. }
  assert (Hlk2 : forall q y, h2_sds st !! q = Some y -> exists x, m !! q = Some x /\ h2_sd y = h2_sd x /\ h2_resp y = h2_resp x).
  { intros q x Hq. specialize (Hm q). rewrite Hq in Hm. destruct (m !! q) as [y|]; [|done]. injection Hm as Em1 Em2. exists y. auto. }
  assert (Hr : forall q, resp_of m q = resp_of (h2_sds st) q).
  { intros q. unfold resp_of. specialize (Hm q). destruct (m !! q), (h2_sds st !! q); try done. by injection Hm. }
  destruct (Hlk2 _ _ Hsd) as (sd' & Hsd' & Es & Er).
  destruct (stream_data_free_owned m (h2_rds st) p sd') as (rds & Ef & Ho & Hsub); [by eapply owned_agree|done|]. rewrite Ef. cbn [mbind option_bind].
  eexists _, _. split; [done|].
  assert (Hnl : p ∉ l' /\ NoDup l') by (rewrite Hp in Hn; by apply NoDup_cons in Hn). destruct Hnl as [Hpl Hnl].
  assert (Hget : forall id' q, ng_get_user_data (ng_set_user_data (h2_ng st) id None) id' = Some q -> id' ≠ id /\ ng_get_user_data (h2_ng st) id' = Some q /\ q ≠ p).
  { intros id' q Hq. destruct (decide (id' = id)) as [->|Hne]; [destruct (law_set_self (h2_ng st) id None); congruence|].
    rewrite law_set_other in Hq by done. split; [done|]. split; [done|]. intros ->. destruct (H4 _ _ Hq) as (y & Hy & Hiy). congruence. }
  split; simpl.
  - exists l'. split; [|split; [done|]].
    + eapply chain_agree; [exact Hc'|]. intros q Hq. rewrite lookup_delete_ne; [done|]. by intros ->.
    + assert (Hdm : dom m = dom (h2_sds st)).
      { apply leibniz_equiv. intros q. rewrite !elem_of_dom. specialize (Hm q). destruct (m !! q), (h2_sds st !! q); try done; split; intros [? ?]; done. }
      rewrite dom_delete_L, Hdm, Hd. apply leibniz_equiv. intros q. rewrite elem_of_difference, elem_of_singleton, !elem_of_list_to_set, Hp, elem_of_cons.
      split; [tauto|]. intros Hq. split; [by right|]. by intros ->.
  - done.
  - intros q [Hq|Hq]; apply H3.
    + left. destruct Hq as [x Hx]. apply lookup_delete_Some in Hx as [_ Hx]. destruct (Hlk _ _ Hx) as (y & Hy & _). eauto.
    + right. destruct Hq as [x Hx]. exists x. by eapply lookup_weaken.
  - intros id' q Hq. destruct (Hget _ _ Hq) as (Hne & Hq' & Hqp). destruct (H4 _ _ Hq') as (y & Hy & Hiy). destruct (Hlk2 _ _ Hy) as (x & Hx & Esx & _).
    exists x. rewrite lookup_delete_ne by done. split; [done|congruence].
  - intros id' q Hq. destruct (law_set_rest (h2_ng st) id None id') as (E1 & _). rewrite E1 in Hq. destruct (H5 _ _ Hq) as (p' & Hp' & Hr').
    assert (id' ≠ id) by congruence. exists p'. rewrite law_set_other by done. split; [done|]. rewrite resp_of_delete, decide_False, Hr; [done|].
    intros <-. destruct (H4 _ _ Hp') as (y & Hy & Hiy). congruence.
  - intros q x Hx Hs. apply lookup_delete_Some in Hx as [_ Hx]. destruct (Hlk _ _ Hx) as (y & Hy & Ey & Ry).
    destruct (law_set_rest (h2_ng st) id None (sd_id (h2_sd x))) as (_ & -> & _). rewrite <- Ey. apply (H6 q y Hy). by rewrite Ry.
  - intros q x Hx. apply lookup_delete_Some in Hx as [_ Hx]. destruct (Hlk _ _ Hx) as (y & Hy & Ey & _).
    destruct (law_set_rest (h2_ng st) id None (sd_id (h2_sd x))) as (_ & _ & Eh & Ed). pose proof (H7 _ _ Hy) as K; rewrite Ey in K; eapply stream_ok_mono; [| |exact K]; lia.
  - done.
  - intros id' q pr b Hq Ha. destruct (Hget _ _ Hq) as (Hne & Hq' & Hqp). rewrite lookup_delete_ne in Ha by done.
    destruct (H9 _ _ _ _ Hq' Ha) as (y & Hy & Hrep). destruct (Hlk2 _ _ Hy) as (x & Hx & Ex & _). exists x. rewrite lookup_delete_ne by done. split; [done|]. by rewrite <- Ex.
Qed.

Lemma read_ok st ab id len source :
  session_ok st ab -> ng_source (h2_ng st) id = Some source ->
  exists data eof st', read_body st len source = Some (data, eof, st') /\ session_ok st' ab.
Proof.
  intros [H1 H2 H3 H4 H5 H6 H7 H8 H9] Hs. destruct (H5 _ _ Hs) as (p & Hp & Hr). destruct (om_live _ _ H2 _ _ Hr) as [rd Hrd].
  unfold read_body. rewrite Hrd. cbn [mbind option_bind]. destruct (resp_data_read_cb rd len) as [[data eof] rd']. eexists _, _, _. split; [done|].
  assert (Hl : forall q, is_Some (<[source := rd']> (h2_rds st) !! q) <-> is_Some (h2_rds st !! q)).
  { intros q. destruct (decide (source = q)) as [->|]; [rewrite lookup_insert_eq, Hrd; split; eauto|by rewrite lookup_insert_ne]. }
  split; simpl; auto.
  - destruct H2 as [O1 O2 O3]. split; [intros; apply Hl; by eapply O1|done|intros q Hq; by apply O3, Hl].
  - intros q Hq. apply H3. by rewrite <- Hl.
Qed.

(** The laws about a submission without a body. *)
Lemma submit_plain_ok st ab id nvs :
  session_ok st ab -> session_ok (set_ng st (snd (ng_submit_response (h2_ng st) id nvs None))) ab.
Proof.
  intros Hok. pose proof (law_submit (h2_ng st) id nvs None) as Hl. destruct (ng_submit_response (h2_ng st) id nvs None) as [rv s']. destruct Hl as [Hl1 Hl2].
  apply follow_ok; [done|]. split; simpl.
  - intros i p. by destruct (Hl1 i) as [-> _].
  - intros i q Hq. destruct (Hl1 i) as [E _]. destruct (Hl2 _ _ Hq) as [|(_ & _ & ?)]; done.
  - intros i. by destruct (Hl1 i) as (_ & -> & _).
  - intros i. by destruct (Hl1 i) as (_ & _ & -> & _).
  - intros i. by destruct (Hl1 i) as (_ & _ & _ & ->).
Qed.

Lemma submit_body_ok st ab id p nvs body :
  session_ok st ab -> ng_get_user_data (h2_ng st) id = Some p -> resp_of (h2_sds st) p = None -> ng_ended (h2_ng st) id = true ->
  exists rc st', submit_with_body st id nvs body = Some (rc, st') /\ session_ok st' ab.
Proof.
  intros Hok Hu Hno He. unfold submit_with_body. destruct (xalloc (h2_heap st)) as [[] h]; cbn [negb]; [|eexists _, _; split; [done|by apply session_alloc_ok]].
  cbn [set_mem set_alloc h2_ng]. set (rd := h2_fresh st). pose proof (law_submit (h2_ng st) id nvs (Some rd)) as Hl.
  destruct (ng_submit_response (h2_ng st) id nvs (Some rd)) as [rv s']. destruct Hl as [Hl1 Hl2].
  assert (Hrd : h2_rds st !! rd = None).
  { destruct (h2_rds st !! rd) eqn:E; [|done]. pose proof (so_fresh _ _ Hok rd ltac:(right; eauto)). unfold rd in *. lia. }
  destruct (so_user _ _ Hok _ _ Hu) as (sd & Hsd & Hid).
  destruct (Z.eqb_spec rv 0) as [Erv|Hrv]; cbn [negb].
  - rewrite (proj1 (Hl1 id)), Hu. cbn [set_ng set_mem set_alloc h2_sds put_sd]. rewrite Hsd. cbn [mbind option_bind]. eexists _, _. split; [done|].
    destruct Hok as [H1 H2 H3 H4 H5 H6 H7 H8 H9]. set (sd' := mk_h2_sd (h2_sd sd) (Some rd) (h2_next sd)).
    assert (Hlk : forall q x, <[p := sd']> (h2_sds st) !! q = Some x -> exists y, h2_sds st !! q = Some y /\ h2_sd y = h2_sd x /\ (h2_resp y = h2_resp x \/ q = p)).
    { intros q x. destruct (decide (p = q)) as [<-|]; [rewrite lookup_insert_eq; intros [= <-]; eauto|rewrite lookup_insert_ne by done; eauto]. }
    assert (Hlk2 : forall q y, h2_sds st !! q = Some y -> exists x, <[p := sd']> (h2_sds st) !! q = Some x /\ h2_sd x = h2_sd y).
    { intros q y Hy. destruct (decide (p = q)) as [<-|]; [rewrite lookup_insert_eq; simplify_eq; eauto|rewrite lookup_insert_ne by done; eauto]. }
    split; simpl.
    + destruct H1 as (l & Hc & Hn & Hd). exists l. split; [by eapply chain_put|]. split; [done|]. by erewrite dom_put.
    + destruct H2 as [O1 O2 O3]. split.
      * intros q x. rewrite resp_of_insert. destruct (decide (p = q)); [intros [= <-]; by rewrite lookup_insert_eq|]. intros Hx.
        destruct (O1 _ _ Hx) as [y Hy]. rewrite lookup_insert_ne; [eauto|]. intros <-. congruence.
      * assert (forall q, resp_of (h2_sds st) q ≠ Some rd) by (intros q Hq; destruct (O1 _ _ Hq); congruence).
        intros q1 q2 x. rewrite !resp_of_insert. destruct (decide (p = q1)), (decide (p = q2)); simpl; try congruence; apply O2.
      * intros x Hx. destruct (decide (rd = x)) as [<-|]; [exists p; by rewrite resp_of_insert, decide_True|]. rewrite lookup_insert_ne in Hx by done.
        destruct (O3 _ Hx) as [q Hq]. exists q. rewrite resp_of_insert, decide_False; [done|]. intros <-. congruence.
    + intros q [Hq|Hq].
      * destruct Hq as [x Hx]. destruct (Hlk _ _ Hx) as (y & Hy & _). pose proof (H3 q ltac:(left; eauto)). lia.
      * destruct (decide (rd = q)) as [<-|]; [unfold rd; lia|]. rewrite lookup_insert_ne in Hq by done. pose proof (H3 q (or_intror Hq)). lia.
    + intros i q Hq. rewrite (proj1 (Hl1 i)) in Hq. destruct (H4 _ _ Hq) as (y & Hy & Hi). destruct (Hlk2 _ _ Hy) as (x & Hx & Ex). exists x. split; [done|congruence].
    + intros i q Hq. rewrite (proj1 (Hl1 i)). destruct (Hl2 _ _ Hq) as [Hq'|(_ & -> & [= ->])].
      * destruct (H5 _ _ Hq') as (p' & Hp' & Hr'). exists p'. split; [done|]. rewrite resp_of_insert, decide_False; [done|]. intros <-. congruence.
      * exists p. split; [done|]. by rewrite resp_of_insert, decide_True.
    + intros q x Hx Hs. destruct (Hl1 (sd_id (h2_sd x))) as (_ & -> & _). destruct (Hlk _ _ Hx) as (y & Hy & Ey & [Ry| ->]); rewrite <- Ey.
      * apply (H6 q y Hy). by rewrite Ry.
      * rewrite Hsd in Hy. injection Hy as <-. by rewrite Hid.
    + intros q x Hx. destruct (Hlk _ _ Hx) as (y & Hy & Ey & _). destruct (Hl1 (sd_id (h2_sd x))) as (_ & _ & Eh & Ed). pose proof (H7 _ _ Hy) as K; rewrite Ey in K; eapply stream_ok_mono; [| |exact K]; lia.
    + done.
    + intros i q pr b Hq Ha. rewrite (proj1 (Hl1 i)) in Hq. destruct (H9 _ _ _ _ Hq Ha) as (y & Hy & Hrep). destruct (Hlk2 _ _ Hy) as (x & Hx & Ex). exists x. split; [done|]. by rewrite Ex.
  - eexists _, _. split; [done|]. cbn [set_ng set_mem set_alloc h2_streams h2_sds h2_rds]. rewrite delete_insert_id by done.
    assert (Hs : session_ok (set_alloc (set_ng st s') (Datatypes.S rd) h) ab).
    { apply session_alloc_ok; [|simpl; unfold rd; lia]. apply follow_ok; [done|]. split; simpl.
      - intros i q. by destruct (Hl1 i) as [-> _].
      - intros i q Hq. destruct (Hl1 i) as [E _]. destruct (Hl2 _ _ Hq) as [|(? & _)]; done.
      - intros i. by destruct (Hl1 i) as (_ & -> & _).
      - intros i. by destruct (Hl1 i) as (_ & _ & -> & _).
      - intros i. by destruct (Hl1 i) as (_ & _ & _ & ->). }
    destruct Hs as [H1 H2 H3 H4 H5 H6 H7 H8 H9]. by split.
Qed.

Lemma answer_ok st ab id p f req :
  session_ok st ab -> ng_get_user_data (h2_ng st) id = Some p -> resp_of (h2_sds st) p = None -> ng_ended (h2_ng st) id = true ->
  exists st', answer_request st id f (Some req) = Some st' /\ session_ok st' ab.
Proof.
  intros Hok Hu Hno He. unfold answer_request. destruct (ioh_response_init (h2_heap st)) as [[[[]|e] r] h]; [|eexists; split; [done|by apply session_alloc_ok]].
  cbn [mbind option_bind]. destruct (ioh_ctx_init (Some req) (Some r) h) as [[c|e] h1]; [|eexists; split; [done|by apply session_alloc_ok]].
  destruct (f c id) as [rc c']. destruct (_ && _); [|eexists; split; [done|by apply session_alloc_ok]].
  unfold submit_response. cbn [set_alloc h2_heap h2_fresh]. destruct (response_fields (c_resp c') h1) as [[nvs|e] h2].
  2:{ eexists. split; [done|]. by apply session_alloc_ok; [apply session_alloc_ok|]. }
  assert (Hok2 : session_ok (set_alloc (set_alloc st (h2_fresh st) h1) (h2_fresh st) h2) ab) by (by apply session_alloc_ok; [apply session_alloc_ok|]).
  assert (Hplain : exists st', snd <$> (let '(rv, s) := ng_submit_response (h2_ng st) id nvs None in
      Some (submit_code rv, set_ng (set_alloc (set_alloc st (h2_fresh st) h1) (h2_fresh st) h2) s)) = Some st' /\ session_ok st' ab).
  { pose proof (submit_plain_ok _ _ id nvs Hok2) as Hs. cbn [set_alloc h2_ng] in Hs. destruct (ng_submit_response (h2_ng st) id nvs None) as [rv s]. eexists. split; [done|exact Hs]. }
  destruct (r_body (c_resp c')) as [b|]; [|exact Hplain]. destruct (0 <? _)%Z; [|exact Hplain].
  destruct (submit_body_ok _ _ id p nvs (take (Z.to_nat (r_body_len (c_resp c'))) b) Hok2) as (rc2 & st' & E & Hst'); [done..|].
  cbn [set_alloc h2_fresh h2_ng h2_config h2_on_request h2_out h2_out_cap h2_rst_count h2_rst_window_start h2_goaway_sent h2_streams h2_sds h2_rds] in E.
  exists st'. split; [|done]. cbn [set_alloc h2_ng h2_config h2_on_request h2_out h2_out_cap h2_rst_count h2_rst_window_start h2_goaway_sent h2_streams h2_sds h2_rds]. rewrite E. done.
Qed.

Lemma reset_ok st ab now : session_ok st ab -> session_ok (track_reset st now) ab.
Proof.
  intros Hok. unfold track_reset.
  set (st1 := if (now =? h2_rst_window_start st)%Z then set_rst st (u32 (h2_rst_count st + 1)) (h2_rst_window_start st) else set_rst st 1 now).
  assert (Hok1 : session_ok st1 ab) by (destruct Hok as [H1 H2 H3 H4 H5 H6 H7 H8 H9]; unfold st1; destruct (now =? _)%Z; by split).
  destruct (_ && _); [|done]. pose proof (follow_ok _ _ _ Hok1 (law_goaway (h2_ng st1) 0 NGHTTP2_ENHANCE_YOUR_CALM (bs "rapid reset"))) as [H1 H2 H3 H4 H5 H6 H7 H8 H9].
  by split.
Qed.

(** An end-of-stream frame, which hands a request to the handler. *)
Definition dispatches (f : ng_frame) : bool :=
  fr_end_stream f && match fr_type f with NGHTTP2_HEADERS | NGHTTP2_DATA => true | _ => false end.

Lemma frame_ok st ab s f now :
  session_ok st ab -> follows (h2_ng st) s -> event_ok (h2_ng st) s (OnFrameRecv f now) ->
  (exists rc st', on_frame_recv_cb (set_ng st s) f now = Some (rc, st') /\ session_ok st' ab)
  /\ (dispatches f = true -> forall p pr b fn, ng_get_user_data s (fr_stream_id f) = Some p -> ab !! fr_stream_id f = Some (pr, b) -> h2_on_request st = Some fn ->
       exists req, reads_as req pr b 2 /\ on_frame_recv_cb (set_ng st s) f now
         = (st' ← answer_request (set_ng st s) (fr_stream_id f) fn (Some req); Some (0%Z, st'))).
Proof.
  intros Hok Hf He. pose proof (follow_ok _ _ _ Hok Hf) as Hok1. pose proof (so_ended _ _ Hok) as Hend.
  destruct (dispatches f) eqn:Ed; unfold dispatches in Ed.
  2:{ split; [|done]. unfold on_frame_recv_cb. destruct (fr_end_stream f), (fr_type f); try done; eexists _, _; (split; [done|]); first [done|by apply reset_ok]. }
  assert (He1 : fr_end_stream f = true) by (by destruct (fr_end_stream f)).
  assert (He2 : fr_type f = NGHTTP2_HEADERS \/ fr_type f = NGHTTP2_DATA) by (destruct (fr_end_stream f), (fr_type f); (discriminate || auto)).
  destruct (He He1 He2) as [Hend0 Hend1].
  assert (Ecb : on_frame_recv_cb (set_ng st s) f now
      = match ng_get_user_data s (fr_stream_id f) with
        | None => Some (0%Z, set_ng st s)
        | Some p => sd ← h2_sds st !! p;
            match h2_on_request st with
            | None => Some (0%Z, set_ng st s)
            | Some fn => st ← answer_request (set_ng st s) (fr_stream_id f) fn (load_request 2 (h2_sd sd)); Some (0%Z, st)
            end
        end) by (unfold on_frame_recv_cb; rewrite He1; by destruct He2 as [-> | ->]).
  rewrite Ecb. destruct (ng_get_user_data s (fr_stream_id f)) as [p|] eqn:Eu; [|split; [eauto|done]].
  destruct (so_user _ _ Hok1 _ _ Eu) as (sd & Hsd & Hid). cbn [set_ng h2_sds] in Hsd. rewrite Hsd. cbn [mbind option_bind].
  assert (Hno : resp_of (h2_sds st) p = None).
  { unfold resp_of. rewrite Hsd. simpl. destruct (h2_resp sd) eqn:Er; [|done]. specialize (Hend _ _ Hsd ltac:(rewrite Er; eauto)). congruence. }
  split.
  - destruct (h2_on_request st) as [fn|]; [|eauto]. destruct (so_streams _ _ Hok _ _ Hsd) as [_ _ _ _ _ [pr Hpr]].
    destruct (load_represented _ _ 2 Hpr) as (req & -> & _). destruct (answer_ok _ _ (fr_stream_id f) p fn req Hok1 Eu Hno Hend1) as (st' & -> & Hst'). cbn [mbind option_bind]. eauto.
  - intros _ p' pr b fn [= <-] Ha Hfn. rewrite Hfn. destruct (so_spec _ _ Hok1 _ _ _ _ Eu Ha) as (sd' & Hs' & Hr' & <-). cbn [set_ng h2_sds] in Hs'. rewrite Hsd in Hs'. injection Hs' as <-.
    destruct (load_represented _ _ 2 Hr') as (req & -> & Hreq). exists req. done.
Qed.

Lemma callback_ok st ab s e :
  session_ok st ab -> follows (h2_ng st) s -> event_ok (h2_ng st) s e ->
  exists ans st', callback (set_ng st s) e = Some (ans, st') /\ session_ok st' (spec_step ab e (match ans with NgCode rc => rc =? 0 | NgChunk _ _ => true end)%Z).
Proof.
  intros Hok Hf He. pose proof (follow_ok _ _ _ Hok Hf) as Hok1. destruct e as [f|f n v|id d|f now|id|id len src]; unfold callback.
  - destruct (begin_ok _ _ f Hok1 He) as (rc & st' & -> & ?). by eexists _, _.
  - destruct (header_ok _ _ _ _ _ _ Hok Hf He) as (rc & st' & -> & ?). by eexists _, _.
  - destruct (data_ok _ _ _ _ _ Hok Hf He) as (rc & st' & -> & ?). by eexists _, _.
  - destruct (frame_ok _ _ _ _ _ Hok Hf He) as [(rc & st' & -> & ?) _]. by eexists _, _.
  - destruct (close_ok _ _ _ Hok1 He) as (rc & st' & -> & ?). by eexists _, _.
  - destruct (read_ok _ _ id len src Hok1 He) as (data & eof & st' & -> & ?). by eexists _, _.
Qed.

(** Callbacks leave the output buffer alone. *)
Definition same_out (st st' : ioh_http2_session S) : Prop := h2_out st' = h2_out st /\ h2_out_cap st' = h2_out_cap st.

Lemma submit_response_out st id r rc st' : submit_response st id r = Some (rc, st') -> same_out st st'.
Proof.
  unfold submit_response, submit_with_body. destruct (response_fields r (h2_heap st)) as [[nvs|e] h]; [|by intros [= _ <-]].
  assert (Hp : forall x rc st', x = (let '(rv, s) := ng_submit_response (h2_ng st) id nvs None in
     Some (submit_code rv, set_ng (set_alloc st (h2_fresh st) h) s)) -> x = Some (rc, st') -> same_out st st').
  { intros x rc0 st0 -> . destruct (ng_submit_response _ _ _ _). by intros [= _ <-]. }
  destruct (r_body r) as [b|]; [|by apply Hp]. destruct (0 <? r_body_len r)%Z; [|by apply Hp].
  destruct (xalloc _) as [[] h2]; cbn [negb]; [|by intros [= _ <-]]. cbn [set_mem set_alloc h2_ng h2_fresh].
  clear Hp. destruct (ng_submit_response _ _ _ _) as [rv s]. destruct (rv =? 0)%Z; cbn [negb]; [|by intros [= _ <-]].
  destruct (ng_get_user_data s id) as [p|]; [|by intros [= _ <-]]. cbn [set_ng set_mem set_alloc h2_sds]. destruct (h2_sds st !! p) as [sd|]; cbn [mbind option_bind]; [by intros [= _ <-]|done].
Qed.

Lemma callback_out st e ans st' : callback st e = Some (ans, st') -> same_out st st'.
Proof.
  assert (Hc : forall r : option (Z * ioh_http2_session S), (forall rc st', r = Some (rc, st') -> same_out st st') ->
    ('(rc, st) ← r; Some (NgCode rc, st)) = Some (ans, st') -> same_out st st').
  { intros [[rc st1]|] Hr; simpl; [intros [= _ <-]; by eapply Hr|done]. }
  assert (Hw : forall id f rc st', with_stream st id f = Some (rc, st') -> same_out st st').
  { intros id f rc st1. unfold with_stream. destruct (ng_get_user_data _ _) as [p|]; [|by intros [= _ <-]].
    destruct (h2_sds st !! p) as [sd|]; [|done]. simpl. destruct (f _ _) as [[[ok d] h]|]; [|done]. simpl. by intros [= _ <-]. }
  destruct e as [f|f n v|id d|f now|id|id len src]; unfold callback; [apply Hc..|].
  - intros rc st1. unfold on_begin_headers_cb, stream_data_new. destruct (is_request f); cbn [negb]; [|by intros [= _ <-]].
    destruct (xalloc _) as [[] h]; cbn [negb]; [|by intros [= _ <-]]. simpl. rewrite lookup_insert_eq. simpl. by intros [= _ <-].
  - intros rc st1. unfold on_header_cb. destruct (is_request f); cbn [negb]; [apply Hw|by intros [= _ <-]].
  - intros rc st1. apply Hw.
  - intros rc st1. assert (Ht : same_out st (track_reset st now)).
    { unfold track_reset. destruct (now =? _)%Z; cbn [set_rst h2_config h2_goaway_sent h2_rst_count]; by destruct (_ && _). }
    unfold on_frame_recv_cb. destruct (fr_type f); try (by intros [= _ <-]); (destruct (fr_end_stream f); cbn [negb]; [|by intros [= _ <-]];
      destruct (ng_get_user_data _ _) as [p|]; [|by intros [= _ <-]]; destruct (h2_sds st !! p) as [sd|]; [|done]; simpl;
      destruct (h2_on_request st) as [fn|]; [|by intros [= _ <-]]; unfold answer_request; destruct (ioh_response_init _) as [[[[]|] r] h]; simpl; [|by intros [= _ <-]];
      destruct (load_request _ _) as [req|]; [|done]; simpl; destruct (xalloc h) as [[] h1]; simpl; [|by intros [= _ <-]];
      destruct (fn _ _) as [rc0 c']; destruct (_ && _); [|by intros [= _ <-]];
      destruct (submit_response _ _ _) as [[rc1 st2]|] eqn:E; simpl; [|done]; intros [= _ <-]; by apply submit_response_out in E).
  - intros rc st1. unfold on_stream_close_cb. destruct (ng_get_user_data _ _) as [p|]; [|by intros [= _ <-]]. destruct (unlink _ _ _ _ _ _) as [[hd m]|]; [|done]. simpl.
    destruct (stream_data_free _ _ _) as [[m2 r2]|]; [|done]. simpl. by intros [= _ <-].
  - unfold read_body. destruct (h2_rds st !! src) as [rd|]; [|done]. simpl. by intros [= _ <-].
Qed.

Lemma drive_ok {A} (p : ng_prog S A) st ab :
  session_ok st ab -> behaves (h2_ng st) p -> exists a st' ab', drive p st = Some (a, st') /\ session_ok st' ab' /\ same_out st st'.
Proof.
  revert st ab. induction p as [a s|s e k IH]; intros st ab Hok.
  - intros Hf. exists a, (set_ng st s), ab. split; [done|]. split; [by apply follow_ok|done].
  - intros (Hf & He & Hk). cbn [drive]. destruct (callback_ok _ _ _ _ Hok Hf He) as (ans & st' & E & Hok'). rewrite E. cbn [mbind option_bind].
    destruct (IH (h2_ng st') ans st' _ Hok' (Hk _ _)) as (a & st2 & ab2 & E2 & Hok2 & Hout). exists a, st2, ab2. split; [done|]. split; [done|].
    apply callback_out in E. unfold same_out in *. cbn [set_ng h2_out h2_out_cap] in *. destruct E, Hout. split; congruence.
Qed.

(** What a sending call leaves in the library. *)
Lemma drive_sends n p st data st' : sends_from n p -> drive p st = Some (Some data, st') -> data ≠ [] -> ng_to_send (h2_ng st') + length data ≤ n.
Proof.
  revert st. induction p as [a s|s e k IH]; intros st Hs; cbn [drive].
  - intros [= -> <-] Hne. by apply Hs.
  - destruct (callback (set_ng st s) e) as [[ans st1]|]; [|done]. cbn [mbind option_bind]. by apply IH.
Qed.

Lemma append_ok st ab data :
  session_ok st ab -> (Z.of_nat (length (h2_out st)) + Z.of_nat (length data) <= 2 ^ 63)%Z ->
  exists rv st', output_buf_append st data = Some (rv, st') /\ session_ok st' ab /\ h2_ng st' = h2_ng st
    /\ (rv = Ok () -> h2_out st' = h2_out st ++ data).
Proof.
  intros Hok Hl. unfold output_buf_append. rewrite length_app, Nat2Z.inj_add. set (need := (Z.of_nat (length (h2_out st)) + Z.of_nat (length data))%Z) in *.
  rewrite (u64_small need) by lia. destruct (so_out _ _ Hok) as (k & Hk & Hc & Hol).
  assert (Hput : forall cap h, (exists k, (16 <= k <= 63)%Z /\ cap = (2 ^ k)%Z) -> (need <= cap)%Z ->
    exists rv st', (if (need <=? cap)%Z then Some (Ok (), set_out st (h2_out st ++ data) cap h) else None) = Some (rv, st') /\ session_ok st' ab /\ h2_ng st' = h2_ng st
      /\ (rv = Ok () -> h2_out st' = h2_out st ++ data)).
  { intros cap h (k' & Hk' & ->) Hn. replace (_ <=? _)%Z with true by (symmetry; apply Z.leb_le; lia). eexists _, _. split; [done|]. split; [|done].
    destruct Hok as [H1 H2 H3 H4 H5 H6 H7 H8 H9]. split; auto. exists k'. simpl. rewrite length_app. split; [done|]. split; [done|]. lia. }
  destruct (Z.ltb_spec (h2_out_cap st) need) as [Hlt|Hge]; [|apply Hput; [eauto|done]].
  assert (k < 63)%Z by (destruct (decide (k = 63)%Z) as [->|]; lia). assert (2 ^ 16 <= 2 ^ k)%Z by (apply Z.pow_le_mono_r; lia).
  assert (2 ^ (k + 1) <= 2 ^ 63)%Z by (apply Z.pow_le_mono_r; lia). rewrite Hc. replace (_ =? 0)%Z with false by (symmetry; apply Z.eqb_neq; lia).
  replace (u64 (2 ^ k * 2)) with (2 ^ (k + 1))%Z by (rewrite Z.pow_add_r in * by lia; rewrite u64_small; lia).
  destruct (grow_size_pow GROW_FUEL (k + 1) need) as (k' & Hk' & -> & Hn'); [lia|lia|unfold GROW_FUEL; lia|]. cbn [mbind option_bind].
  destruct (xalloc (h2_heap st)) as [[] h]; cbn [negb]; [apply Hput; [exists k'; split; [lia|done]|done]|].
  eexists _, _. split; [done|]. split; [by apply session_alloc_ok|done].
Qed.

Lemma flush_ok n st ab :
  session_ok st ab -> ng_to_send (h2_ng st) < n -> (Z.of_nat (length (h2_out st)) + Z.of_nat (ng_to_send (h2_ng st)) <= 2 ^ 63)%Z ->
  exists rv st' ab', flush_loop n st = Some (rv, st') /\ session_ok st' ab'.
Proof.
  revert st ab. induction n as [|n IH]; intros st ab Hok Hn Hl; [lia|]. cbn [flush_loop].
  destruct (drive_ok (ng_mem_send (h2_ng st)) st ab Hok (law_send _)) as (out & st1 & ab1 & E & Hok1 & Ho & _). rewrite E. cbn [mbind option_bind].
  destruct out as [[|x data]|]; [by eexists _, _, _| |by eexists _, _, _].
  pose proof (drive_sends _ _ _ _ _ (proj1 (law_progress (h2_ng st))) E ltac:(done)) as Hs.
  destruct (append_ok st1 ab1 (x :: data) Hok1) as (rv & st2 & E2 & Hok2 & Hng & Hout2); [rewrite Ho; lia|]. rewrite E2. cbn [mbind option_bind].
  destruct rv as [[]|e]; [|by eexists _, _, _]. apply IH with ab1; [done|rewrite Hng; simpl in Hs; lia|]. rewrite Hout2, Ho, Hng, length_app by done. lia.
Qed.

(** ** Sessions *)

Inductive h2_call := CallRecv (data : bytes) | CallFlush | CallGoaway.

(** A session's life: received bytes, flushes and GOAWAYs, in any order. *)
Inductive h2_runs : ioh_http2_session S -> list h2_call -> ioh_http2_session S -> Prop :=
| RunsNil st : h2_runs st [] st
| RunsRecv st data rc st1 cs st2 : ioh_http2_on_recv st data = Some (rc, st1) -> h2_runs st1 cs st2 -> h2_runs st (CallRecv data :: cs) st2
| RunsFlush st n rc st1 cs st2 : ioh_http2_flush n st = Some (rc, st1) -> h2_runs st1 cs st2 -> h2_runs st (CallFlush :: cs) st2
| RunsGoaway st rc st1 cs st2 : ioh_http2_goaway st = (rc, st1) -> h2_runs st1 cs st2 -> h2_runs st (CallGoaway :: cs) st2.

Lemma session_create_ok cfg on_req h st h' : ioh_http2_session_create cfg on_req h = (Some st, h') -> session_ok st ∅.
Proof.
  unfold ioh_http2_session_create. destruct (xalloc h) as [[] h1]; cbn [negb]; [|done]. destruct (xalloc h1) as [[] h2]; cbn [negb]; [|done].
  destruct ng_callbacks_new; cbn [negb]; [|done]. destruct ng_server_new as [s|] eqn:En; [|done]. intros [= <- <-].
  set (cfg' := h2_defaults _). clearbody cfg'.
  assert (Hs : session_ok (mk_h2 s cfg' on_req [] H2_OUTPUT_BUF_SIZE 0 0 false None ∅ ∅ 0 h2) ∅).
  { assert (Hu := fun id => proj1 (law_new s id En)). assert (Hsrc := fun id => proj2 (law_new s id En)). split; simpl.
    - exists []. split; [done|]. split; [constructor|]. apply dom_empty_L.
    - split; [intros p q Hq; unfold resp_of in Hq; by rewrite lookup_empty in Hq|intros p p' q Hq; unfold resp_of in Hq; by rewrite lookup_empty in Hq|].
      intros q [x Hx]. by rewrite lookup_empty in Hx.
    - intros p [[x Hx]|[x Hx]]; by rewrite lookup_empty in Hx.
    - intros id p Hp. rewrite Hu in Hp. done.
    - intros id q Hq. rewrite Hsrc in Hq. done.
    - intros p sd Hp. by rewrite lookup_empty in Hp.
    - intros p sd Hp. by rewrite lookup_empty in Hp.
    - exists 16%Z. split; [lia|]. split; [done|]. simpl. lia.
    - intros id p pr b Hp. rewrite Hu in Hp. done. }
  apply (follow_ok _ _ _ Hs). apply law_settings.
Qed.

Lemma goaway_ok st ab rc st' : session_ok st ab -> ioh_http2_goaway st = (rc, st') -> session_ok st' ab.
Proof.
  intros Hok. unfold ioh_http2_goaway. set (i := if h2_goaway_sent st then _ else _). clearbody i.
  pose proof (follow_ok _ _ _ Hok (law_goaway (h2_ng st) i NGHTTP2_NO_ERROR [])) as Hs. destruct (ng_submit_goaway _ _ _ _) as [rv s]. cbn [snd] in Hs.
  destruct (rv =? 0)%Z; cbn [negb]; intros [= _ <-]; [|done]. destruct Hs as [H1 H2 H3 H4 H5 H6 H7 H8 H9]. by split.
Qed.

(** A flush that returns keeps the invariant whatever its fuel. *)
Lemma flush_keeps n st ab rc st' :
  session_ok st ab -> (Z.of_nat (length (h2_out st)) + Z.of_nat (ng_to_send (h2_ng st)) <= 2 ^ 63)%Z ->
  flush_loop n st = Some (rc, st') -> exists ab', session_ok st' ab'.
Proof.
  revert st ab. induction n as [|n IH]; intros st ab Hok Hl; [done|]. cbn [flush_loop].
  destruct (drive_ok (ng_mem_send (h2_ng st)) st ab Hok (law_send _)) as (out & st1 & ab1 & E & Hok1 & Ho & _). rewrite E. cbn [mbind option_bind].
  destruct out as [[|x data]|]; [intros [= _ <-]; eauto| |intros [= _ <-]; eauto].
  pose proof (drive_sends _ _ _ _ _ (proj1 (law_progress (h2_ng st))) E ltac:(done)) as Hs.
  destruct (append_ok st1 ab1 (x :: data) Hok1) as (rv & st2 & E2 & Hok2 & Hng & Hout2); [rewrite Ho; lia|]. rewrite E2. cbn [mbind option_bind].
  destruct rv as [[]|e]; [|intros [= _ <-]; eauto]. apply IH with ab1; [done|]. rewrite Hout2, Ho, Hng, length_app by done. lia.
Qed.

Lemma reset_out_ok st ab : session_ok st ab -> session_ok (set_out st [] (h2_out_cap st) (h2_heap st)) ab.
Proof. intros [H1 H2 H3 H4 H5 H6 H7 (k & ? & ? & ?) H9]. split; auto. exists k. simpl. split; [done|]. split; [done|]. lia. Qed.

Lemma runs_keep st cs st' ab : session_ok st ab -> h2_runs st cs st' -> exists ab', session_ok st' ab'.
Proof.
  intros Hok Hr. revert ab Hok. induction Hr as [st|st data rc st1 cs st2 E _ IH|st n rc st1 cs st2 E _ IH|st rc st1 cs st2 E _ IH]; intros ab Hok; [eauto|..].
  - unfold ioh_http2_on_recv in E. destruct (drive_ok (ng_mem_recv (h2_ng st) data) st ab Hok (law_recv _ _)) as (a & st3 & ab3 & E3 & Hok3 & _).
    rewrite E3 in E. injection E as _ <-. by eapply IH.
  - unfold ioh_http2_flush in E. destruct (flush_keeps n _ ab rc st1 (reset_out_ok _ _ Hok)) as [ab1 H1]; [simpl; pose proof (law_progress (h2_ng st)); lia|done|]. by eapply IH.
  - by eapply IH, goaway_ok.
Qed.

Lemma runs_progress st cs ab : session_ok st ab -> exists st', h2_runs st cs st'.
Proof.
  revert st ab. induction cs as [|c cs IH]; intros st ab Hok; [by eexists; constructor|]. destruct c as [data| |].
  - destruct (drive_ok (ng_mem_recv (h2_ng st) data) st ab Hok (law_recv _ _)) as (a & st3 & ab3 & E3 & Hok3 & _). destruct (IH _ _ Hok3) as [st' H'].
    exists st'. eapply RunsRecv; [|exact H']. unfold ioh_http2_on_recv. by rewrite E3.
  - destruct (flush_ok (Datatypes.S (ng_to_send (h2_ng st))) _ ab (reset_out_ok _ _ Hok)) as (rv & st3 & ab3 & E3 & Hok3); [simpl; lia|simpl; pose proof (law_progress (h2_ng st)); lia|].
    destruct (IH _ _ Hok3) as [st' H']. exists st'. eapply RunsFlush; [exact E3|exact H'].
  - destruct (ioh_http2_goaway st) as [rc st3] eqn:E3. destruct (IH st3 ab) as [st' H']; [by eapply goaway_ok|]. exists st'. by eapply RunsGoaway.
Qed.

Lemma destroy_frees st ab : session_ok st ab -> ioh_http2_session_destroy st = Some (∅, ∅).
Proof.
  intros [(l & Hc & Hn & Hd) Ho _ _ _ _ _ _ _]. unfold ioh_http2_session_destroy. apply free_streams_all with l; try done.
  pose proof (chain_length _ _ _ Hc Hn). unfold walk_fuel. lia.
Qed.

(** C17: Sessions are safe.  Under every behaviour of the library that follows its
    documentation, with header texts of at most 4096 bytes per stream, and for every
    handler and allocation outcome, any sequence of received bytes, flushes and GOAWAYs
    can be carried out: no call uses a freed or dangling object or stores out of bounds,
    and every flush ends.  Whenever the session is then destroyed, every stream object and
    response object is freed exactly once. *)
Theorem h2_session_safe cfg on_req h st h' cs :
  ioh_http2_session_create cfg on_req h = (Some st, h') ->
  (exists st', h2_runs st cs st') /\ forall st', h2_runs st cs st' -> ioh_http2_session_destroy st' = Some (∅, ∅).
Proof.
  intros Hc. pose proof (session_create_ok _ _ _ _ _ Hc) as Hok. split; [by eapply runs_progress|]. intros st' Hr.
  destruct (runs_keep _ _ _ _ Hok Hr) as [ab' Hok']. by eapply destroy_frees.
Qed.

(** C18: Requests are what the stream said.  Assume that the library follows its documented
    laws (it calls back for streams it knows, and ends a stream once), that the header
    texts of a stream total at most 4096 bytes, so that they stay in the first block of
    its arena, and its data at most 2^63 bytes.  Then in every consistent session the
    callbacks implement a map from stream identifiers to plain requests: beginning a
    stream adds an empty request, a header acts on it as [take_field] says, data is
    appended to the body whatever the sizes of the chunks, closing removes it; a stream
    for which a callback reports an error, as when an allocation fails, leaves the map.
    When a frame ends a stream of the map and a handler is set, the handler is called with
    a request whose method, path, query, host, headers, content length and body are those
    of the map. *)
Theorem h2_callbacks_refine st ab s e :
  session_ok st ab -> follows (h2_ng st) s -> event_ok (h2_ng st) s e ->
  exists ans st', callback (set_ng st s) e = Some (ans, st')
    /\ session_ok st' (spec_step ab e (match ans with NgCode rc => rc =? 0 | NgChunk _ _ => true end)%Z)
    /\ forall f now p pr b fn, e = OnFrameRecv f now -> dispatches f = true ->
         ng_get_user_data s (fr_stream_id f) = Some p -> ab !! fr_stream_id f = Some (pr, b) -> h2_on_request st = Some fn ->
         exists req, reads_as req pr b 2 /\ answer_request (set_ng st s) (fr_stream_id f) fn (Some req) = Some st'.
Proof.
  intros Hok Hf He. destruct (callback_ok _ _ _ _ Hok Hf He) as (ans & st' & E & Hok'). exists ans, st'. split; [done|]. split; [done|].
  intros f now p pr b fn -> Hd Hu Ha Hfn. destruct (frame_ok _ _ _ _ _ Hok Hf He) as [_ Hh]. destruct (Hh Hd p pr b fn Hu Ha Hfn) as (req & Hreq & Ecb).
  exists req. split; [done|]. unfold callback in E. rewrite Ecb in E. destruct (answer_request _ _ _ _) as [st2|]; [|done]. by injection E as _ <-.
Qed.
End Laws.

(** ** Bodies of responses, and resets *)

(** Response bodies are delivered whole.  However the library sizes its buffers, the
    data it reads from a response is the body from its start, the last read is flagged as
    the end exactly when the whole body has been read, and as soon as the sizes sum up to
    the length of the body all of it has been. *)
Theorem h2_body_delivered body lens :
  lens ≠ [] ->
  read_all (mk_rd body 0) lens false = (take (sum_list lens) body, bool_decide (length body ≤ sum_list lens))
  /\ (length body ≤ sum_list lens -> read_all (mk_rd body 0) lens false = (body, true)).
Proof.
  intros Hne. assert (H : read_all (mk_rd body 0) lens false = (take (sum_list lens) body, bool_decide (length body ≤ sum_list lens))).
  { destruct lens as [|n lens]; [done|]. transitivity (read_all (mk_rd body 0) (n :: lens) (bool_decide (0 = length body))); [by cbn [read_all]|].
    rewrite read_all_from by (simpl; first [lia|done]). done. }
  split; [done|]. intros Hl. rewrite H, take_ge, bool_decide_eq_true_2 by done. done.
Qed.

Lemma h2_body_delivered_witness : read_all (mk_rd (bs "hello world") 0) [4; 0; 100] false = (bs "hello world", true).
Proof. apply (h2_body_delivered (bs "hello world") [4; 0; 100]); [discriminate|]. simpl. lia. Defined.

(** How often a time occurs. *)
Definition occurrences (t : Z) (ts : list Z) : nat := length (filter (fun x => x = t) ts).

Lemma occurrences_snoc t ts now : occurrences t (ts ++ [now]) = occurrences t ts + if decide (now = t) then 1 else 0.
Proof. unfold occurrences. rewrite filter_app, length_app. f_equal. rewrite filter_cons. destruct (decide (now = t)); done. Qed.

Lemma occurrences_le t ts : occurrences t ts ≤ length ts.
Proof. apply length_filter. Qed.

Lemma occurrences_none t ts : (forall x, x ∈ ts -> x ≠ t) -> occurrences t ts = 0.
Proof.
  intros H. induction ts as [|x ts IH]; [done|]. unfold occurrences in *. rewrite filter_cons, decide_False.
  - apply IH. intros y Hy. apply H. apply elem_of_cons. by right.
  - apply H. apply elem_of_cons. by left.
Qed.

Section Resets.
Context {S : Type} `{N : Nghttp2 S}.

(** The state after resets at the given times. *)
Definition resets (st : ioh_http2_session S) (ts : list Z) : ioh_http2_session S := foldl track_reset st ts.

(** Some time occurs more often than the limit allows. *)
Definition too_fast (limit : Z) (ts : list Z) : bool := existsb (fun t => (limit <? Z.of_nat (occurrences t ts))%Z) ts.

Lemma too_fast_iff limit ts : (0 <= limit)%Z -> too_fast limit ts = true <-> exists t, (limit < Z.of_nat (occurrences t ts))%Z.
Proof.
  intros Hl. unfold too_fast. rewrite existsb_exists. split; [intros (t & _ & ?%Z.ltb_lt); eauto|]. intros [t Ht]. exists t. split; [|by apply Z.ltb_lt].
  apply list_elem_of_In. destruct (decide (t ∈ ts)) as [|Hn]; [done|]. rewrite occurrences_none in Ht; [simpl in Ht; lia|]. intros x Hx ->. done.
Qed.

Lemma too_fast_snoc limit ts now :
  (0 <= limit)%Z -> too_fast limit (ts ++ [now]) = too_fast limit ts || (limit <? Z.of_nat (occurrences now (ts ++ [now])))%Z.
Proof.
  intros Hl. apply eq_true_iff_eq. rewrite orb_true_iff, !too_fast_iff, Z.ltb_lt by done. split.
  - intros [t Ht]. destruct (decide (now = t)) as [->|Hne]; [by right|left]. exists t. rewrite occurrences_snoc, decide_False, Nat.add_0_r in Ht by done. done.
  - intros [[t Ht]|Ht]; [|eauto]. exists t. rewrite occurrences_snoc. lia.
Qed.

(** C28: Rapid resets end the connection.  Take a session that has counted no reset yet,
    and fewer than 2^32 resets at any non-decreasing times.  After them a GOAWAY has been sent if
    and only if one had been sent before or more than [max_rst_stream_per_sec] of the
    resets have the same time; in the second case, and when none had been sent, it is
    submitted with ENHANCE_YOUR_CALM, once; nothing else is asked of the library. *)
Theorem h2_rapid_reset st ts :
  h2_rst_count st = 0%Z -> h2_rst_window_start st = 0%Z ->
  (0 <= max_rst_stream_per_sec (h2_config st))%Z -> StronglySorted Z.le ts -> (Z.of_nat (length ts) < 2 ^ 32)%Z ->
  h2_goaway_sent (resets st ts) = h2_goaway_sent st || too_fast (max_rst_stream_per_sec (h2_config st)) ts
  /\ h2_ng (resets st ts)
     = if negb (h2_goaway_sent st) && too_fast (max_rst_stream_per_sec (h2_config st)) ts
       then snd (ng_submit_goaway (h2_ng st) 0 NGHTTP2_ENHANCE_YOUR_CALM (bs "rapid reset")) else h2_ng st.
Proof.
  intros Hc Hw Hm Hs Hl.
  enough (H : h2_goaway_sent (resets st ts) = h2_goaway_sent st || too_fast (max_rst_stream_per_sec (h2_config st)) ts
    /\ h2_ng (resets st ts) = (if negb (h2_goaway_sent st) && too_fast (max_rst_stream_per_sec (h2_config st)) ts
         then snd (ng_submit_goaway (h2_ng st) 0 NGHTTP2_ENHANCE_YOUR_CALM (bs "rapid reset")) else h2_ng st)
    /\ h2_config (resets st ts) = h2_config st /\ h2_rst_window_start (resets st ts) = default 0%Z (last ts)
    /\ h2_rst_count (resets st ts) = Z.of_nat (occurrences (default 0%Z (last ts)) ts)) by (destruct H as (? & ? & _); done).
  induction ts as [|now ts IH] using rev_ind; [by rewrite andb_false_r, orb_false_r|]. rewrite length_app in Hl. simpl length in Hl.
  pose proof Hs as Hs0. apply StronglySorted_app in Hs as (Hle & Hs & _). destruct IH as (I1 & I2 & I3 & I4 & I5); [done|lia|].
  unfold resets in *. rewrite foldl_app. cbn [foldl]. set (st1 := foldl track_reset st ts) in *. rewrite last_snoc. change (default 0%Z (Some now)) with now.
  rewrite too_fast_snoc by done. pose proof (occurrences_le (default 0%Z (last ts)) ts) as Hocc. rewrite occurrences_snoc, decide_True by done.
  unfold track_reset at 1 2 3 4 5. rewrite I4.
  set (st2 := if (now =? default 0 (last ts))%Z then set_rst st1 (u32 (h2_rst_count st1 + 1)) (default 0%Z (last ts)) else set_rst st1 1 now).
  assert (H2 : h2_rst_count st2 = Z.of_nat (occurrences now ts + 1) /\ h2_rst_window_start st2 = now /\ h2_config st2 = h2_config st /\ h2_ng st2 = h2_ng st1
    /\ h2_goaway_sent st2 = h2_goaway_sent st1).
  { unfold st2. destruct (Z.eqb_spec now (default 0 (last ts))%Z) as [->|Hne]; cbn [set_rst h2_rst_count h2_rst_window_start h2_config h2_ng h2_goaway_sent].
    - rewrite I5, u32_small by lia. split; [lia|]. done.
    - split; [|done]. rewrite occurrences_none; [done|]. intros x Hx ->. destruct (last ts) as [t|] eqn:El; [|apply last_None in El as ->; by apply elem_of_nil in Hx].
      apply last_Some in El as (ts' & ->). simpl in Hne. assert (Ht : (t <= now)%Z) by (apply Hle; [apply elem_of_app; right; apply list_elem_of_singleton|apply list_elem_of_singleton]; done).
      apply elem_of_app in Hx as [Hx|Hx%list_elem_of_singleton]; [|congruence]. apply StronglySorted_app in Hs as (Hs & _).
      specialize (Hs now t Hx ltac:(by apply list_elem_of_singleton)). lia. }
  clearbody st2. destruct H2 as (E1 & E2 & E3 & E4 & E5). rewrite E1, E3, E5, I1.
  set (tf := too_fast _ ts) in *. clearbody tf. destruct (Z.ltb_spec (max_rst_stream_per_sec (h2_config st)) (Z.of_nat (occurrences now ts + 1))), tf, (h2_goaway_sent st); cbn [andb negb orb];
    cbn [set_goaway set_ng h2_goaway_sent h2_ng h2_config h2_rst_window_start h2_rst_count]; rewrite ?E1, ?E2, ?E3, ?E4, ?E5, ?I1, ?I2; done.
Qed.
End Resets.

(** ** A library *)

(** A library that reports the events of a script, checking its own promises: it skips an
    event that would break them.  Its output is a line for each thing submitted. *)
Record demo_ng := mk_demo {
  dn_script : list ng_event;
  dn_user : gmap Z nat;
  dn_source : gmap Z nat;
  dn_ended : gmap Z unit;
  dn_header_bytes : gmap Z nat;
  dn_data_bytes : gmap Z nat;
  dn_out : bytes;
}.

Definition dn_write (s : demo_ng) (text : bytes) : demo_ng :=
  mk_demo (dn_script s) (dn_user s) (dn_source s) (dn_ended s) (dn_header_bytes s) (dn_data_bytes s) (dn_out s ++ text).
Definition dn_clear (s : demo_ng) : demo_ng :=
  mk_demo (dn_script s) (dn_user s) (dn_source s) (dn_ended s) (dn_header_bytes s) (dn_data_bytes s) [].

Definition count_at (m : gmap Z nat) (id : Z) : nat := default 0 (m !! id).
Definition is_end (f : ng_frame) : bool := fr_end_stream f && bool_decide (fr_type f = NGHTTP2_HEADERS \/ fr_type f = NGHTTP2_DATA).

(** The state in which an event is reported; [None] when it is skipped. *)
Definition dn_report (s : demo_ng) (e : ng_event) : option demo_ng :=
  match e with
  | OnBeginHeaders f => Some
      (if is_request f then mk_demo (dn_script s) (delete (fr_stream_id f) (dn_user s)) (delete (fr_stream_id f) (dn_source s)) (dn_ended s)
                              (dn_header_bytes s) (dn_data_bytes s) (dn_out s) else s)
  | OnHeader f name value =>
      let n := count_at (dn_header_bytes s) (fr_stream_id f) + field_size (h2_kind name, name, value) in
      if (Z.of_nat n <=? 4096)%Z
      then Some (mk_demo (dn_script s) (dn_user s) (dn_source s) (dn_ended s) (<[fr_stream_id f := n]> (dn_header_bytes s)) (dn_data_bytes s) (dn_out s))
      else None
  | OnDataChunk id data =>
      let n := count_at (dn_data_bytes s) id + length data in
      if (Z.of_nat n <=? 2 ^ 63)%Z
      then Some (mk_demo (dn_script s) (dn_user s) (dn_source s) (dn_ended s) (dn_header_bytes s) (<[id := n]> (dn_data_bytes s)) (dn_out s))
      else None
  | OnFrameRecv f _ =>
      if is_end f then
        match dn_ended s !! fr_stream_id f with
        | Some _ => None
        | None => Some (mk_demo (dn_script s) (dn_user s) (dn_source s) (<[fr_stream_id f := ()]> (dn_ended s)) (dn_header_bytes s) (dn_data_bytes s) (dn_out s))
        end
      else Some s
  | OnStreamClose id => Some (mk_demo (dn_script s) (dn_user s) (delete id (dn_source s)) (dn_ended s) (dn_header_bytes s) (dn_data_bytes s) (dn_out s))
  | ReadBody _ _ _ => None
  end.

Fixpoint dn_play (es : list ng_event) (s : demo_ng) : ng_prog demo_ng Z :=
  match es with
  | [] => NgRet 0%Z s
  | e :: es => match dn_report s e with Some s => NgCallback s e (fun s _ => dn_play es s) | None => dn_play es s end
  end.

Definition chunk_of (a : ng_answer) : bytes := match a with NgChunk data _ => data | NgCode _ => [] end.

Definition dn_send (s : demo_ng) : ng_prog demo_ng (option bytes) :=
  match dn_out s, map_to_list (dn_source s) with
  | [], _ => NgRet (Some []) s
  | _, [] => NgRet (Some (take 1000 (dn_out s))) (dn_clear s)
  | _, (id, q) :: _ => NgCallback s (ReadBody id 100 q) (fun s' a => NgRet (Some (take 1000 (dn_out s ++ chunk_of a))) (dn_clear s'))
  end.

(** The script is that of the session's only connection. *)
Definition demo_script : list ng_event :=
  let f := mk_frame NGHTTP2_HEADERS true 1 false in
  [OnBeginHeaders f; OnHeader f (bs ":method") (bs "POST"); OnHeader f (bs ":path") (bs "/echo?x=1"); OnHeader f (bs "content-length") (bs "5");
   OnFrameRecv f 10; OnDataChunk 1 (bs "he"); OnDataChunk 1 (bs "llo"); OnFrameRecv (mk_frame NGHTTP2_DATA false 1 true) 10;
   OnBeginHeaders (mk_frame NGHTTP2_HEADERS true 3 false)].

#[local] Instance demo_nghttp2 : Nghttp2 demo_ng := {
  ng_callbacks_new := true;
  ng_server_new := Some (mk_demo demo_script ∅ ∅ ∅ ∅ ∅ []);
  ng_submit_settings s _ := dn_write s (bs "settings. ");
  ng_get_user_data s id := dn_user s !! id;
  ng_set_user_data s id v :=
    mk_demo (dn_script s) (partial_alter (fun _ => v) id (dn_user s)) (dn_source s) (dn_ended s) (dn_header_bytes s) (dn_data_bytes s) (dn_out s);
  ng_submit_response s id nvs src :=
    (0%Z, dn_write (mk_demo (dn_script s) (dn_user s) (match src with Some q => <[id := q]> (dn_source s) | None => dn_source s end)
                      (dn_ended s) (dn_header_bytes s) (dn_data_bytes s) (dn_out s)) (concat ((fun nv => nv.1 ++ bs "=" ++ nv.2 ++ bs ". ") <$> nvs)));
  ng_submit_goaway s _ _ text := (0%Z, dn_write s (bs "goaway " ++ text ++ bs ". "));
  ng_mem_recv s _ := dn_play (dn_script s) (mk_demo [] (dn_user s) (dn_source s) (dn_ended s) (dn_header_bytes s) (dn_data_bytes s) (dn_out s));
  ng_mem_send := dn_send;
  ng_last_proc_stream_id _ := 0%Z;
  ng_want_read _ := true;
  ng_want_write s := negb (bool_decide (dn_out s = []));
}.

#[local] Instance demo_view : NgView demo_ng := {
  ng_source s id := dn_source s !! id;
  ng_ended s id := bool_decide (is_Some (dn_ended s !! id));
  ng_header_bytes s id := count_at (dn_header_bytes s) id;
  ng_data_bytes s id := count_at (dn_data_bytes s) id;
  ng_to_send s := if bool_decide (dn_out s = []) then 0 else 1000;
}.

Lemma demo_follows_refl (s s' : demo_ng) :
  dn_user s' = dn_user s -> dn_source s' = dn_source s -> dn_ended s' = dn_ended s -> dn_header_bytes s' = dn_header_bytes s -> dn_data_bytes s' = dn_data_bytes s ->
  follows s s'.
Proof. intros E1 E2 E3 E4 E5. split; simpl; rewrite ?E1, ?E2, ?E3, ?E4, ?E5; auto. Qed.

Lemma count_at_insert (m : gmap Z nat) id n id' : count_at (<[id := n]> m) id' = if decide (id = id') then n else count_at m id'.
Proof. unfold count_at. destruct (decide (id = id')) as [->|]; [by rewrite lookup_insert_eq|by rewrite lookup_insert_ne]. Qed.

Lemma demo_report_ok s e s' : dn_report s e = Some s' -> follows s s' /\ event_ok s s' e.
Proof.
  destruct e as [f|f n v|id d|f now|id|id len src]; unfold dn_report; simpl event_ok; [..|done].
  - intros [= <-]. destruct (is_request f) eqn:Er; [|split; [by apply demo_follows_refl|done]]. split; [|intros _; simpl; rewrite !lookup_delete_eq; split; [done|]; split; [done|]; intros p; by rewrite lookup_partial_alter_eq].
    split; simpl; auto.
    + intros id p Hp. by apply lookup_delete_Some in Hp as [_ ?].
    + intros id q Hq. apply lookup_delete_Some in Hq as [Hne Hq]. split; [done|]. by rewrite lookup_delete_ne.
  - set (k := count_at _ _ + _). destruct (Z.leb_spec (Z.of_nat k) 4096) as [Hk|]; [|done]. intros [= <-]. split.
    + split; simpl; auto. intros id. rewrite count_at_insert. destruct (decide _) as [<-|]; unfold k; lia.
    + intros _. simpl. rewrite count_at_insert, decide_True by done. unfold k in *. split; [lia|done].
  - set (k := count_at _ _ + _). destruct (Z.leb_spec (Z.of_nat k) (2 ^ 63)) as [Hk|]; [|done]. intros [= <-]. split.
    + split; simpl; auto. intros id'. rewrite count_at_insert. destruct (decide _) as [<-|]; unfold k; lia.
    + simpl. rewrite count_at_insert, decide_True by done. unfold k in *. split; [lia|done].
  - destruct (is_end f) eqn:Ee.
    + destruct (dn_ended s !! fr_stream_id f) eqn:Ed; [done|]. intros [= <-]. split.
      * split; simpl; auto. intros id H. apply bool_decide_eq_true in H. apply bool_decide_eq_true. destruct (decide (fr_stream_id f = id)) as [<-|]; [by rewrite lookup_insert_eq|by rewrite lookup_insert_ne].
      * intros _ _. split; [apply bool_decide_eq_false; by intros [? ?]|apply bool_decide_eq_true; cbn [dn_ended]; rewrite lookup_insert_eq; eauto].
    + intros [= <-]. split; [by apply demo_follows_refl|]. intros He Ht. unfold is_end in Ee. rewrite He, bool_decide_eq_true_2 in Ee by done. done.
  - intros [= <-]. simpl. rewrite lookup_delete_eq. split; [|done]. split; simpl; auto. intros id' q Hq. by apply lookup_delete_Some in Hq as [_ ?].
Qed.

Lemma demo_play_behaves es s0 s : follows s0 s -> (forall s', follows s s' -> follows s0 s') -> (forall s' e, event_ok s s' e -> event_ok s0 s' e) -> behaves s0 (dn_play es s).
Proof.
  revert s0 s. induction es as [|e es IH]; intros s0 s Hf Hf' He; [done|]. cbn [dn_play]. destruct (dn_report s e) as [s'|] eqn:Er; [|by apply IH].
  apply demo_report_ok in Er as [H1 H2]. split; [by apply Hf'|]. split; [by apply He|]. intros s1 ans. apply IH; [by apply demo_follows_refl|done|done].
Qed.

#[local] Instance demo_laws : NgLaws (S := demo_ng).
Proof.
  split; simpl.
  - intros s id [= <-]. simpl. by rewrite !lookup_empty.
  - intros s l. by apply demo_follows_refl.
  - intros s i c d. by apply demo_follows_refl.
  - intros s id v. left. by rewrite lookup_partial_alter_eq.
  - intros s id id' v Hne. by rewrite lookup_partial_alter_ne.
  - done.
  - intros s id nvs src. split; [done|]. intros id' q. destruct src as [q'|]; [|by intros ?; left]. cbn [dn_write dn_source].
    destruct (decide (id = id')) as [->|]; [rewrite lookup_insert_eq; intros [= ->]; by right|rewrite lookup_insert_ne by done; by intros ?; left].
  - intros s data. apply demo_play_behaves; [by apply demo_follows_refl|..].
    + intros s' [? ? ? ? ?]. split; auto.
    + intros s' e. by destruct e.
  - intros s. unfold dn_send. destruct (dn_out s) as [|x t]; [by apply demo_follows_refl|]. destruct (map_to_list (dn_source s)) as [|[id q] l] eqn:El; [by apply demo_follows_refl|].
    split; [by apply demo_follows_refl|]. split; [simpl; apply elem_of_map_to_list; rewrite El; apply elem_of_cons; by left|]. intros s' ans. by apply demo_follows_refl.
  - intros s. split; [|destruct (bool_decide _); lia]. unfold dn_send. destruct (dn_out s) as [|x t] eqn:Eo; [by intros []|]. rewrite bool_decide_eq_false_2 by done.
    destruct (map_to_list (dn_source s)) as [|[id q] l]; simpl.
    + intros _. rewrite length_take. simpl length. lia.
    + intros s' ans _. rewrite length_take. lia.
Qed.

(** A handler that answers with the body it was sent. *)
Definition demo_handler : on_request_fn := fun c _ =>
  (0%Z, with_resp c (mk_response 200 true [mk_header (bs "X-Kind") 6 (bs "echo") 4] 16 (body (c_req c)) (body_len (c_req c)) 4096 false false)).

Definition demo_session : ioh_http2_session demo_ng :=
  mk_h2 (dn_write (mk_demo demo_script ∅ ∅ ∅ ∅ ∅ []) (bs "settings. ")) (mk_h2_config 100 65535 16384 8192 100) (Some demo_handler)
    [] H2_OUTPUT_BUF_SIZE 0 0 false None ∅ ∅ 0 [].

Lemma h2_session_safe_witness :
  exists st', h2_runs demo_session [CallRecv []; CallFlush; CallGoaway; CallFlush] st' /\ ioh_http2_session_destroy st' = Some (∅, ∅).
Proof.
  destruct (h2_session_safe None (Some demo_handler) [] demo_session [] [CallRecv []; CallFlush; CallGoaway; CallFlush]) as [[st' Hr] Hd]; [reflexivity|].
  exists st'. split; [exact Hr|]. by apply Hd.
Defined.

(** What such a session sends: the settings, the response's fields and its body. *)
Example demo_session_output :
  option_map (fun x => (fst x, ioh_http2_session_destroy (snd x)))
    ('(_, st) ← ioh_http2_on_recv demo_session []; ioh_http2_flush 3 st)
  = Some (Ok (bs "settings. :status=200. x-kind=echo. hello"), Some (∅, ∅)).
Proof. vm_compute. reflexivity. Qed.

Lemma h2_callbacks_refine_witness :
  let f := mk_frame NGHTTP2_HEADERS true 7 false in
  let st := snd (default (NgCode 0, demo_session) (callback demo_session (OnBeginHeaders f))) in
  let g := mk_frame NGHTTP2_HEADERS true 7 true in
  let s := default (h2_ng st) (dn_report (h2_ng st) (OnFrameRecv g 10)) in
  exists req st', reads_as req plain_init None 2 /\ answer_request (set_ng st s) 7 demo_handler (Some req) = Some st'.
Proof.
  intros f st g s.
  destruct (callback_ok demo_session ∅ (h2_ng demo_session) (OnBeginHeaders f)) as (ans & st1 & E & Hok);
    [by apply (session_create_ok None (Some demo_handler) [] _ [])|by apply demo_follows_refl|by apply (demo_report_ok (h2_ng demo_session))|].
  assert (Est : st = st1 /\ ans = NgCode 0) by (unfold st; change (set_ng demo_session (h2_ng demo_session)) with demo_session in E; rewrite E; vm_compute in E; by injection E as <- _).
  destruct Est as [<- ->]. clear E. destruct (demo_report_ok (h2_ng st) (OnFrameRecv g 10) s) as [Hf He]; [vm_compute; reflexivity|].
  destruct (h2_callbacks_refine st _ s (OnFrameRecv g 10) Hok Hf He) as (ans & st' & _ & _ & H).
  destruct (H g 10%Z 0 plain_init None demo_handler) as (req & Hreq & Ha); [reflexivity|reflexivity|vm_compute; reflexivity|vm_compute; reflexivity|vm_compute; reflexivity|].
  exists req, st'. split; [exact Hreq|exact Ha].
Defined.

Lemma h2_rapid_reset_witness :
  h2_goaway_sent (resets demo_session (repeat 5%Z 100)) = false /\ h2_goaway_sent (resets demo_session (repeat 5%Z 101)) = true.
Proof.
  assert (Hs : forall n, StronglySorted Z.le (repeat 5%Z n)).
  { induction n as [|n IH]; constructor; [done|]. apply Forall_forall. intros x Hx. apply list_elem_of_In, repeat_spec in Hx as ->. lia. }
  split.
  - destruct (h2_rapid_reset demo_session (repeat 5%Z 100)) as [-> _]; [reflexivity..|simpl; lia|apply Hs|vm_compute; reflexivity|vm_compute; reflexivity].
  - destruct (h2_rapid_reset demo_session (repeat 5%Z 101)) as [-> _]; [reflexivity..|simpl; lia|apply Hs|vm_compute; reflexivity|vm_compute; reflexivity].
Defined.
