(* ===== verification/Quic.v ===== *)
(** * QUIC connections

    http/ioh_quic.c: configuration, creation and destruction of a connection, datagrams in
    and out, timeouts, stream data, closing, and the callbacks given to ngtcp2.

    ngtcp2 and the TLS library under it are third-party code: the class [Ngtcp2] has what
    the source calls of them.  Reading a packet runs callbacks, so it is a tree as in
    [Http2].  The application's callbacks may call the connection back, so they act on the
    connection and their own data.  The clock's reading is an argument of the calls that
    take the time.  Where a definition gives [None] the code would store out of bounds or
    did not return within the fuel. *)
From S2P Require Import Prelude.
Local Open Scope Z_scope.

(** ** The libraries *)

Inductive q_event :=
| QStreamData (id : Z) (data : bytes) (fin : bool)
| QStreamOpen (id : Z)
| QHandshakeCompleted
| QNewConnectionId (cidlen : nat).

(** What a callback gives back: its code, or a connection id and a reset token. *)
Inductive q_answer := QCode (rc : Z) | QIds (cid token : bytes).

Inductive q_prog (Q : Type) :=
| QRet (rv : Z) (q : Q)
| QCallback (q : Q) (e : q_event) (k : Q -> q_answer -> q_prog Q).
Arguments QRet {Q}.
Arguments QCallback {Q}.

Definition NGTCP2_MILLISECONDS : Z := 1000000.
Definition UINT64_MAX : Z := 2 ^ 64 - 1.

Definition NGTCP2_SECONDS : Z := 1000000000.

(** The monotonic clock's seconds and nanoseconds as a time stamp. *)
Definition quic_timestamp (tv_sec tv_nsec : Z) : Z := u64 (u64 (u64 tv_sec * NGTCP2_SECONDS) + u64 tv_nsec).

Definition AF_INET6 : Z := 10.

(** The sizes of [struct sockaddr_in6] and [struct sockaddr_in]. *)
Definition sockaddr_len (sa_family : Z) : Z := if sa_family =? AF_INET6 then 28 else 16.

Definition QUIC_OUTPUT_BUF_SIZE : Z := 65536.
Definition QUIC_MAX_PKTLEN : Z := 1452.
Definition STATELESS_RESET_TOKENLEN : nat := 16.

(** The transport parameters that are set. *)
Record q_params := mk_q_params {
  qp_max_streams_bidi : Z;
  qp_max_stream_data : Z;
  qp_max_data : Z;
  qp_idle_timeout : Z;
  qp_max_udp_payload : Z;
  qp_original_dcid : bytes;
}.

(** The library's error codes, connections [Q] and random generators [R].  The [qtls]
    fields are the outcomes of the steps of [setup_wolfssl]; a write gives its return value,
    the packet, and how much stream data went into it. *)
Class Ngtcp2 (Q R : Type) := {
  NGTCP2_ERR_WRITE_MORE : Z;
  NGTCP2_ERR_DRAINING : Z;
  NGTCP2_ERR_IDLE_CLOSE : Z;
  NGTCP2_ERR_HANDSHAKE_TIMEOUT : Z;
  NGTCP2_ERR_CALLBACK_FAILURE : Z;
  qtls_ctx_new : bool;
  qtls_configure : bool;
  qtls_certificate : bytes -> bool;
  qtls_key : bytes -> bool;
  qtls_alpn : bytes -> bool;
  qtls_new : bool;
  q_server_new : bytes -> bytes -> q_params -> Z -> option Q;
  q_read_pkt : Q -> bytes -> Z -> q_prog Q;
  q_writev_stream : Q -> Z -> option (bytes * bool) -> Z -> Z * bytes * Z * Q;
  q_write_close : Q -> Z -> Z -> Z * bytes * Q;
  q_handle_expiry : Q -> Z -> Z * Q;
  q_get_expiry : Q -> Z;
  q_handshake_completed : Q -> bool;
  q_in_closing : Q -> bool;
  q_in_draining : Q -> bool;
  q_open_uni_stream : Q -> Z * Z * Q;
  q_random : R -> nat -> bytes * R;
}.

(** ** Data *)

Record ioh_quic_config_t := mk_quic_config {
  max_streams_bidi : Z;
  max_stream_data_bidi : Z;
  max_data : Z;
  idle_timeout_ms : Z;
  max_udp_payload : Z;
  q_cert_file : option bytes;
  q_key_file : option bytes;
}.

Record ioh_quic_conn (Q R : Type) := mk_quic {
  qc_conn : Q;
  qc_config : ioh_quic_config_t;
  qc_out : bytes;
  qc_out_cap : Z;
  qc_handshake_done : bool;
  qc_closed : bool;
  qc_rng : R;
  qc_heap : heap;
}.
Arguments mk_quic {Q R}.
Arguments qc_conn {Q R}.
Arguments qc_config {Q R}.
Arguments qc_out {Q R}.
Arguments qc_out_cap {Q R}.
Arguments qc_handshake_done {Q R}.
Arguments qc_closed {Q R}.
Arguments qc_rng {Q R}.
Arguments qc_heap {Q R}.

(** The application's callbacks, on a connection and user data [U]. *)
Record ioh_quic_callbacks_t (Q R U : Type) := mk_callbacks {
  on_stream_data : option (ioh_quic_conn Q R -> U -> Z -> bytes -> bool -> Z * ioh_quic_conn Q R * U);
  on_stream_open : option (ioh_quic_conn Q R -> U -> Z -> Z * ioh_quic_conn Q R * U);
  on_handshake_done : option (ioh_quic_conn Q R -> U -> ioh_quic_conn Q R * U);
}.
Arguments on_stream_data {Q R U}.
Arguments on_stream_open {Q R U}.
Arguments on_handshake_done {Q R U}.

(** ** Configuration *)

Definition ioh_quic_config_init : ioh_quic_config_t := mk_quic_config 100 (256 * 1024) (1024 * 1024) 30000 1200 None None.

Definition ioh_quic_config_validate (cfg : option ioh_quic_config_t) : res unit :=
  match cfg with
  | None => Err EINVAL
  | Some cfg =>
      match q_cert_file cfg, q_key_file cfg with
      | Some _, Some _ =>
          if max_streams_bidi cfg =? 0 then Err EINVAL
          else if idle_timeout_ms cfg =? 0 then Err EINVAL else Ok ()
      | _, _ => Err EINVAL
      end
  end.

Section Quic.
Context {Q R U : Type} `{N : Ngtcp2 Q R}.
Local Abbreviation conn := (ioh_quic_conn Q R).

Definition set_conn (c : conn) (q : Q) : conn :=
  mk_quic q (qc_config c) (qc_out c) (qc_out_cap c) (qc_handshake_done c) (qc_closed c) (qc_rng c) (qc_heap c).
Definition set_output (c : conn) (out : bytes) (cap : Z) (h : heap) : conn :=
  mk_quic (qc_conn c) (qc_config c) out cap (qc_handshake_done c) (qc_closed c) (qc_rng c) h.
Definition set_closed (c : conn) : conn :=
  mk_quic (qc_conn c) (qc_config c) (qc_out c) (qc_out_cap c) (qc_handshake_done c) true (qc_rng c) (qc_heap c).
Definition set_done (c : conn) : conn :=
  mk_quic (qc_conn c) (qc_config c) (qc_out c) (qc_out_cap c) true (qc_closed c) (qc_rng c) (qc_heap c).
Definition set_rng (c : conn) (r : R) : conn :=
  mk_quic (qc_conn c) (qc_config c) (qc_out c) (qc_out_cap c) (qc_handshake_done c) (qc_closed c) r (qc_heap c).

(** ** Callbacks *)

Definition code_of (rc : Z) : Z := if rc =? 0 then 0 else NGTCP2_ERR_CALLBACK_FAILURE.

Definition recv_stream_data_cb (cbs : ioh_quic_callbacks_t Q R U) (c : conn) (u : U) (id : Z) (data : bytes) (fin : bool) : Z * conn * U :=
  match on_stream_data cbs with
  | None => (0, c, u)
  | Some f => let '(rc, c, u) := f c u id data fin in (code_of rc, c, u)
  end.

Definition stream_open_cb (cbs : ioh_quic_callbacks_t Q R U) (c : conn) (u : U) (id : Z) : Z * conn * U :=
  match on_stream_open cbs with
  | None => (0, c, u)
  | Some f => let '(rc, c, u) := f c u id in (code_of rc, c, u)
  end.

Definition handshake_completed_cb (cbs : ioh_quic_callbacks_t Q R U) (c : conn) (u : U) : Z * conn * U :=
  let c := set_done c in
  match on_handshake_done cbs with
  | None => (0, c, u)
  | Some f => let '(c, u) := f c u in (0, c, u)
  end.

Definition rand_cb (c : conn) (destlen : nat) : bytes * conn := let '(d, r) := q_random (qc_rng c) destlen in (d, set_rng c r).

(** A random connection id and a random reset token. *)
Definition get_new_connection_id_cb (c : conn) (cidlen : nat) : bytes * bytes * conn :=
  let '(cid, r) := q_random (qc_rng c) cidlen in
  let '(token, r) := q_random r STATELESS_RESET_TOKENLEN in
  (cid, token, set_rng c r).

Definition q_callback (cbs : ioh_quic_callbacks_t Q R U) (c : conn) (u : U) (e : q_event) : q_answer * conn * U :=
  match e with
  | QStreamData id data fin => let '(rc, c, u) := recv_stream_data_cb cbs c u id data fin in (QCode rc, c, u)
  | QStreamOpen id => let '(rc, c, u) := stream_open_cb cbs c u id in (QCode rc, c, u)
  | QHandshakeCompleted => let '(rc, c, u) := handshake_completed_cb cbs c u in (QCode rc, c, u)
  | QNewConnectionId n => let '(cid, token, c) := get_new_connection_id_cb c n in (QIds cid token, c, u)
  end.

Fixpoint q_drive (cbs : ioh_quic_callbacks_t Q R U) (p : q_prog Q) (c : conn) (u : U) : Z * conn * U :=
  match p with
  | QRet rv q => (rv, set_conn c q, u)
  | QCallback q e k => let '(ans, c, u) := q_callback cbs (set_conn c q) u e in q_drive cbs (k (qc_conn c) ans) c u
  end.

(** ** Creation *)

(** The TLS objects that exist: the context and the session. *)
Definition setup_wolfssl (cfg : ioh_quic_config_t) : res unit * (bool * bool) :=
  if negb qtls_ctx_new then (Err EIO, (false, false)) else
  if negb qtls_configure then (Err EIO, (false, false)) else
  if negb (qtls_certificate (default [] (q_cert_file cfg))) then (Err EIO, (false, false)) else
  if negb (qtls_key (default [] (q_key_file cfg))) then (Err EIO, (false, false)) else
  if negb (qtls_alpn (x02 :: bs "h3")) then (Err EIO, (false, false)) else
  if negb qtls_new then (Err EIO, (false, false)) else (Ok (), (true, true)).

Definition transport_params (cfg : ioh_quic_config_t) (dcid : bytes) : q_params :=
  mk_q_params (max_streams_bidi cfg) (max_stream_data_bidi cfg) (max_data cfg)
    (u64 (idle_timeout_ms cfg * NGTCP2_MILLISECONDS)) (max_udp_payload cfg) dcid.

(** The connection, or a null pointer; [None] for the configuration is a null pointer. *)
Definition ioh_quic_conn_create (cfg : option ioh_quic_config_t) (dcid scid : bytes) (rng : R) (now : Z) (h : heap) : option conn * heap :=
  match cfg, ioh_quic_config_validate cfg with
  | Some cfg, Ok _ =>
      let '(ok, h) := xalloc h in
      if negb ok then (None, h) else
      let '(ok, h) := xalloc h in
      if negb ok then (None, h) else
      match setup_wolfssl cfg with
      | (Err _, _) => (None, h)
      | (Ok _, _) =>
          match q_server_new dcid scid (transport_params cfg dcid) now with
          | None => (None, h)
          | Some q => (Some (mk_quic q cfg [] QUIC_OUTPUT_BUF_SIZE false false rng h), h)
          end
      end
  | _, _ => (None, h)
  end.

(** ** Datagrams *)

Definition ioh_quic_on_recv (cbs : ioh_quic_callbacks_t Q R U) (c : conn) (u : U) (data : bytes) (now : Z) : res unit * conn * U :=
  if qc_closed c then (Err ECONNRESET, c, u) else
  let '(rv, c, u) := q_drive cbs (q_read_pkt (qc_conn c) data now) c u in
  if negb (rv =? 0) then
    if rv =? NGTCP2_ERR_DRAINING then (Err ECONNRESET, set_closed c, u) else (Err EIO, c, u)
  else (Ok (), c, u).

(** Room for a packet: the capacity is doubled once when there is none. *)
Definition ensure_packet (c : conn) : res unit * conn :=
  let len := Z.of_nat (length (qc_out c)) in
  if qc_out_cap c <? u64 (len + QUIC_MAX_PKTLEN) then
    let '(ok, h) := xalloc (qc_heap c) in
    if negb ok then (Err ENOMEM, set_output c (qc_out c) (qc_out_cap c) h)
    else (Ok (), set_output c (qc_out c) (u64 (qc_out_cap c * 2)) h)
  else (Ok (), c).

(** A packet the library wrote at the end of the buffer; [None] when it does not fit. *)
Definition append_packet (c : conn) (pkt : bytes) : option conn :=
  if Z.of_nat (length (qc_out c ++ pkt)) <=? qc_out_cap c then Some (set_output c (qc_out c ++ pkt) (qc_out_cap c) (qc_heap c)) else None.

Fixpoint packet_loop (fuel : nat) (c : conn) (now : Z) : option (res bytes * conn) :=
  match fuel with
  | O => None
  | S fuel =>
      match ensure_packet c with
      | (Err e, c) => Some (Err e, c)
      | (Ok _, c) =>
          let '(n, pkt, _, q) := q_writev_stream (qc_conn c) (-1) None now in
          let c := set_conn c q in
          if n <? 0 then (if n =? NGTCP2_ERR_WRITE_MORE then packet_loop fuel c now else Some (Ok (qc_out c), c))
          else if n =? 0 then Some (Ok (qc_out c), c)
          else c ← append_packet c pkt; packet_loop fuel c now
      end
  end.

Definition ioh_quic_flush (fuel : nat) (c : conn) (now : Z) : option (res bytes * conn) :=
  packet_loop fuel (set_output c [] (qc_out_cap c) (qc_heap c)) now.

Definition ioh_quic_on_timeout (c : conn) (now : Z) : res unit * conn :=
  if qc_closed c then (Err ECONNRESET, c) else
  let '(rv, q) := q_handle_expiry (qc_conn c) now in
  let c := set_conn c q in
  if negb (rv =? 0) then
    if (rv =? NGTCP2_ERR_IDLE_CLOSE) || (rv =? NGTCP2_ERR_HANDSHAKE_TIMEOUT) then (Err ETIMEDOUT, set_closed c) else (Err EIO, c)
  else (Ok (), c).

(** [data] is [None] for a null pointer with a length above 0. *)
Definition ioh_quic_write_stream (c : conn) (id : Z) (data : option bytes) (fin : bool) (now : Z) : option (res Z * conn) :=
  match data with
  | None => Some (Err EINVAL, c)
  | Some data =>
      if qc_closed c then Some (Err ECONNRESET, c) else
      match ensure_packet c with
      | (Err e, c) => Some (Err e, c)
      | (Ok _, c) =>
          let '(n, pkt, ndatalen, q) := q_writev_stream (qc_conn c) id (Some (data, fin)) now in
          let c := set_conn c q in
          if n <? 0 then Some (Err EIO, c) else
          c ← (if 0 <? n then append_packet c pkt else Some c);
          Some (if 0 <=? ndatalen then Ok ndatalen else Err EIO, c)
      end
  end.

Definition ioh_quic_open_uni_stream (c : conn) : res Z * conn :=
  if qc_closed c then (Err ECONNRESET, c) else
  let '(rv, id, q) := q_open_uni_stream (qc_conn c) in
  if negb (rv =? 0) then (Err EIO, set_conn c q) else (Ok id, set_conn c q).

Definition ioh_quic_close (c : conn) (error_code now : Z) : option (res unit * conn) :=
  if qc_closed c then Some (Ok (), c) else
  match ensure_packet c with
  | (Err e, c) => Some (Err e, c)
  | (Ok _, c) =>
      let '(n, pkt, q) := q_write_close (qc_conn c) error_code now in
      let c := set_conn c q in
      c ← (if 0 <? n then append_packet c pkt else Some c);
      Some (Ok (), set_closed c)
  end.

(** ** Queries *)

Definition ioh_quic_get_timeout (c : conn) (now : Z) : Z :=
  let expiry := q_get_expiry (qc_conn c) in
  if expiry =? UINT64_MAX then UINT64_MAX
  else if expiry <=? now then 0
  else (expiry - now) / NGTCP2_MILLISECONDS.

Definition ioh_quic_is_handshake_done (c : conn) : bool := q_handshake_completed (qc_conn c).
Definition ioh_quic_is_closed (c : conn) : bool := if qc_closed c then true else q_in_closing (qc_conn c) || q_in_draining (qc_conn c).
Definition ioh_quic_want_write (c : conn) : bool :=
  if qc_closed c then false
  else (0 <? Z.of_nat (length (qc_out c))) || negb (q_get_expiry (qc_conn c) =? UINT64_MAX).
End Quic.

(** ** What the library promises *)

Class QView (Q : Type) := { q_pending : Q -> nat }.

Section Theorems.
Context {Q R U : Type} `{N : Ngtcp2 Q R} `{V : QView Q}.
Local Abbreviation conn := (ioh_quic_conn Q R).

(** A packet fits the room it was given; without stream data there are finitely many to
    write, and WRITE_MORE is not returned because the flag for it is not set. *)
Class QLaws : Prop := {
  qlaw_write : forall q id d now n pkt nd q', q_writev_stream q id d now = (n, pkt, nd, q') ->
    (0 < n -> Z.of_nat (length pkt) = n /\ n <= QUIC_MAX_PKTLEN);
  qlaw_progress : forall q now n pkt nd q', q_writev_stream q (-1) None now = (n, pkt, nd, q') ->
    n <> NGTCP2_ERR_WRITE_MORE /\ (0 < n -> (q_pending q' < q_pending q)%nat);
  qlaw_close : forall q e now n pkt q', q_write_close q e now = (n, pkt, q') -> (0 < n -> Z.of_nat (length pkt) = n /\ n <= QUIC_MAX_PKTLEN);
}.

Context `{L : QLaws}.








End Theorems.

(** ** A library that has a number of packets to write *)

#[local] Instance demo_ngtcp2 : Ngtcp2 nat unit := {
  NGTCP2_ERR_WRITE_MORE := -1; NGTCP2_ERR_DRAINING := -2; NGTCP2_ERR_IDLE_CLOSE := -3; NGTCP2_ERR_HANDSHAKE_TIMEOUT := -4; NGTCP2_ERR_CALLBACK_FAILURE := -5;
  qtls_ctx_new := true; qtls_configure := true; qtls_certificate _ := true; qtls_key _ := true; qtls_alpn _ := true; qtls_new := true;
  q_server_new _ _ _ _ := Some 2%nat;
  q_read_pkt q data _ := QCallback q (QStreamData 0 data true) (fun q _ => QRet 0 q);
  q_writev_stream q id d _ :=
    match d, q with
    | Some (data, _), _ => (4, bs "data", Z.of_nat (length data), q)
    | None, S q => (3, bs "pkt", -1, q)
    | None, O => (0, [], -1, O)
    end;
  q_write_close q _ _ := (5, bs "close", q);
  q_handle_expiry q _ := (0, q);
  q_get_expiry _ := UINT64_MAX;
  q_handshake_completed _ := true;
  q_in_closing _ := false;
  q_in_draining _ := false;
  q_open_uni_stream q := (0, 3, q);
  q_random r n := (repeat x00 n, r);
}.

#[local] Instance demo_qview : QView nat := { q_pending q := q }.

#[local] Instance demo_qlaws : QLaws (Q := nat) (R := unit).
Proof.
  split; unfold QUIC_MAX_PKTLEN.
  - intros q id [[data fin]|] now n pkt nd q'; simpl; [intros [= <- <- _ _] _; split; [done|lia]|].
    destruct q; intros [= <- <- _ _]; [lia|]. intros _. split; [done|lia].
  - intros q now n pkt nd q'. simpl. destruct q; intros [= <- <- _ <-]; (split; [lia|]); lia.
  - intros q e now n pkt q'. simpl. intros [= <- <- _] _. split; [done|lia].
Qed.

Definition demo_conn : ioh_quic_conn nat unit :=
  mk_quic 2%nat (mk_quic_config 100 262144 1048576 30000 1200 (Some (bs "cert.pem")) (Some (bs "key.pem"))) [] QUIC_OUTPUT_BUF_SIZE true false () [].


(** The packet that tells the peer of the close is dropped by the flush that should send it. *)
Example close_never_sent :
  ('(_, c) ← ioh_quic_close (mk_quic 0%nat (qc_config demo_conn) [] QUIC_OUTPUT_BUF_SIZE true false () []) 7 0;
   '(rc, _) ← ioh_quic_flush 3 c 0; Some (qc_out c, rc)) = Some (bs "close", Ok []).
Proof. vm_compute. reflexivity. Qed.
