(* ===== verification/Http3.v ===== *)
(** * HTTP/3 sessions

    http/ioh_http3.c: the callbacks given to nghttp3, the per-stream data, the control
    streams and the submission of responses, over a QUIC connection ([Quic]).

    nghttp3 is third-party code: the class [Nghttp3] has what the source calls of it; a
    call that runs callbacks is a tree as in [Http2].  The library hands every callback the
    stream's user data, the address of a stream object.  Addresses are not reused; where a
    definition gives [None] the code has no defined result. *)
From S2P Require Import Prelude CString Request RequestThms Response Ctx Stream Quic.
From stdpp Require Import gmap.
Local Open Scope nat_scope.

(** ** The library *)

(** The tokens of header names the code compares with. *)
Inductive h3_token := TkMethod | TkPath | TkAuthority | TkContentType | TkContentLength | TkOther.

Inductive h3_event :=
| H3BeginHeaders (id : Z) (ud : option nat)
| H3RecvHeader (id : Z) (token : h3_token) (name value : bytes) (ud : option nat)
| H3EndHeaders (id : Z) (fin : bool) (ud : option nat)
| H3RecvData (id : Z) (data : bytes) (ud : option nat)
| H3EndStream (id : Z) (ud : option nat)
| H3StreamClose (id : Z) (ud : option nat)
| H3DeferredConsume (id : Z) (consumed : nat) (ud : option nat)
| H3ReadData (id : Z) (veccnt : nat) (ud : option nat).

(** A callback's code, or the number of buffers filled and the end-of-body flag. *)
Inductive h3_answer := H3Code (rc : Z) | H3Vecs (n : nat) (eof : bool).

Inductive h3_prog (T : Type) :=
| H3Ret (rv : Z) (t : T)
| H3Callback (t : T) (e : h3_event) (k : T -> h3_answer -> h3_prog T).
Arguments H3Ret {T}.
Arguments H3Callback {T}.

Record ioh_http3_config_t := mk_h3_config {
  h3_max_header_list_size : Z;
  qpack_max_dtable_capacity : Z;
  qpack_blocked_streams : Z;
}.

(** Sessions [T].  A response is submitted with its fields and whether it has a body to be
    read. *)
Class Nghttp3 (T : Type) := {
  NGHTTP3_ERR_CALLBACK_FAILURE : Z;
  n3_server_new : ioh_http3_config_t -> option T;
  n3_set_stream_user_data : T -> Z -> nat -> Z * T;
  n3_bind_control_stream : T -> Z -> Z * T;
  n3_bind_qpack_streams : T -> Z -> Z -> Z * T;
  n3_read_stream : T -> Z -> bytes -> bool -> h3_prog T;
  n3_submit_response : T -> Z -> list nv -> bool -> Z * T;
  n3_shutdown : T -> Z * T;
}.

(** ** Data *)

Abbreviation on_request3_fn := (ioh_ctx_t -> Z -> Z * ioh_ctx_t)%type.

(** The session, the connection it points to, and the memory of its callbacks. *)
Record ioh_http3_session (T Q R : Type) := mk_h3 {
  h3_ng : T;
  h3_quic : ioh_quic_conn Q R;
  h3_config : ioh_http3_config_t;
  h3_on_request : option on_request3_fn;
  h3_shutdown_initiated : bool;
  h3_control_bound : bool;
  h3_sds : gmap nat stream_data;
  h3_fresh : nat;
  h3_heap : heap;
}.
Arguments mk_h3 {T Q R}.
Arguments h3_ng {T Q R}.
Arguments h3_quic {T Q R}.
Arguments h3_config {T Q R}.
Arguments h3_on_request {T Q R}.
Arguments h3_shutdown_initiated {T Q R}.
Arguments h3_control_bound {T Q R}.
Arguments h3_sds {T Q R}.
Arguments h3_fresh {T Q R}.
Arguments h3_heap {T Q R}.

(** The arena, its copies and the stream objects are those of [Stream]. *)
Definition h3_arena_t : Type := arena_t.
Definition h3_arena_copy : h3_arena_t -> bytes -> heap -> option (option sref * h3_arena_t * heap) := arena_copy.
Definition h3_stream_data_t : Type := stream_data.

Section Http3.
Context {T Q R : Type} `{N3 : Nghttp3 T} `{NQ : Ngtcp2 Q R}.
Local Abbreviation session := (ioh_http3_session T Q R).

Definition set3_ng (st : session) (t : T) : session :=
  mk_h3 t (h3_quic st) (h3_config st) (h3_on_request st) (h3_shutdown_initiated st) (h3_control_bound st) (h3_sds st) (h3_fresh st) (h3_heap st).
Definition set3_quic (st : session) (q : ioh_quic_conn Q R) : session :=
  mk_h3 (h3_ng st) q (h3_config st) (h3_on_request st) (h3_shutdown_initiated st) (h3_control_bound st) (h3_sds st) (h3_fresh st) (h3_heap st).
Definition set3_flags (st : session) (down bound : bool) : session :=
  mk_h3 (h3_ng st) (h3_quic st) (h3_config st) (h3_on_request st) down bound (h3_sds st) (h3_fresh st) (h3_heap st).
Definition set3_mem (st : session) (sds : gmap nat stream_data) (fresh : nat) (h : heap) : session :=
  mk_h3 (h3_ng st) (h3_quic st) (h3_config st) (h3_on_request st) (h3_shutdown_initiated st) (h3_control_bound st) sds fresh h.

(** ** Helpers *)

Definition stream_data_new3 (st : session) (id : Z) : option nat * session :=
  let '(ok, h) := xalloc (h3_heap st) in
  if negb ok then (None, set3_mem st (h3_sds st) (h3_fresh st) h)
  else (Some (h3_fresh st), set3_mem st (<[h3_fresh st := new_stream id]> (h3_sds st)) (S (h3_fresh st)) h).

(** [free] of a stream object, or of a null pointer. *)
Definition stream_data_free3 (sds : gmap nat stream_data) (ud : option nat) : option (gmap nat stream_data) :=
  match ud with
  | None => Some sds
  | Some p => match sds !! p with Some _ => Some (delete p sds) | None => None end
  end.

(** ** Callbacks *)

Definition h3_begin_headers_cb (st : session) (id : Z) (ud : option nat) : option (Z * session) :=
  match ud with
  | Some _ => Some (0%Z, st)
  | None =>
      match stream_data_new3 st id with
      | (None, st) => Some (NGHTTP3_ERR_CALLBACK_FAILURE, st)
      | (Some p, st) =>
          let '(rv, t) := n3_set_stream_user_data (h3_ng st) id p in
          let st := set3_ng st t in
          if negb (rv =? 0)%Z then
            sds ← stream_data_free3 (h3_sds st) (Some p);
            Some (NGHTTP3_ERR_CALLBACK_FAILURE, set3_mem st sds (h3_fresh st) (h3_heap st))
          else Some (0%Z, st)
      end
  end.

(** The name's first byte tells pseudo-headers apart, the token which one it is. *)
Definition h3_kind (token : h3_token) (name : bytes) : field_kind :=
  if (0 <? length name) && (char_at name 0 =b ":"%byte) then
    match token with TkMethod => FMethod | TkPath => FPath | TkAuthority => FAuthority | _ => FPseudo end
  else match token with TkContentType => FContentType | TkContentLength => FContentLength | _ => FPlain end.

(** The part the header and the data callback share. *)
Definition with_stream3 (st : session) (ud : option nat) (f : stream_data -> heap -> option (bool * stream_data * heap)) : option (Z * session) :=
  match ud with
  | None => Some (0%Z, st)
  | Some p =>
      sd ← h3_sds st !! p;
      '(ok, d, h) ← f sd (h3_heap st);
      Some (if (ok : bool) then 0%Z else NGHTTP3_ERR_CALLBACK_FAILURE, set3_mem st (<[p := d]> (h3_sds st)) (h3_fresh st) h)
  end.

Definition h3_recv_header_cb (st : session) (token : h3_token) (name value : bytes) (ud : option nat) : option (Z * session) :=
  with_stream3 st ud (recv_header (h3_kind token name) name value).

Definition headers_done (sd : stream_data) : stream_data :=
  mk_sd (sd_req sd) (sd_arena sd) (sd_body sd) (sd_body_cap sd) (sd_has_body sd) (sd_id sd) true.

Definition h3_end_headers_cb (st : session) (ud : option nat) : option (Z * session) :=
  with_stream3 st ud (fun sd h => Some (true, headers_done sd, h)).

Definition h3_recv_data_cb (st : session) (data : bytes) (ud : option nat) : option (Z * session) :=
  with_stream3 st ud (recv_data data).

Definition ioh_http3_submit_response (st : session) (id : Z) (r : ioh_response_t) : res unit * session :=
  match response_fields r (h3_heap st) with
  | (Err e, h) => (Err e, set3_mem st (h3_sds st) (h3_fresh st) h)
  | (Ok nvs, h) =>
      let st := set3_mem st (h3_sds st) (h3_fresh st) h in
      let has_body := match r_body r with Some _ => (0 <? r_body_len r)%Z | None => false end in
      let '(rv, t) := n3_submit_response (h3_ng st) id nvs has_body in
      (if (rv =? 0)%Z then Ok () else Err EIO, set3_ng st t)
  end.

(** The handler's turn; [None] for the request when one of its pointers is dangling. *)
Definition answer_request3 (st : session) (id : Z) (f : on_request3_fn) (request : option ioh_request_t) : option session :=
  match ioh_response_init (h3_heap st) with
  | (Err _, _, h) => Some (set3_mem st (h3_sds st) (h3_fresh st) h)
  | (Ok _, r, h) =>
      req ← request;
      match ioh_ctx_init (Some req) (Some r) h with
      | (Err _, h) => Some (set3_mem st (h3_sds st) (h3_fresh st) h)
      | (Ok c, h) =>
          let '(rc, c) := f c id in
          let st := set3_mem st (h3_sds st) (h3_fresh st) h in
          Some (if (rc =? 0)%Z && negb (c_aborted c) then snd (ioh_http3_submit_response st id (c_resp c)) else st)
      end
  end.

Definition h3_end_stream_cb (st : session) (id : Z) (ud : option nat) : option (Z * session) :=
  match ud with
  | None => Some (0%Z, st)
  | Some p =>
      match h3_on_request st with
      | None => Some (0%Z, st)
      | Some f => sd ← h3_sds st !! p; st ← answer_request3 st id f (load_request 3 sd); Some (0%Z, st)
      end
  end.

Definition h3_stream_close_cb (st : session) (ud : option nat) : option (Z * session) :=
  sds ← stream_data_free3 (h3_sds st) ud; Some (0%Z, set3_mem st sds (h3_fresh st) (h3_heap st)).

(** The reader of response bodies: it fills no buffer and says that the body ends. *)
Definition h3_resp_data_read_cb (veccnt : nat) : nat * bool := if veccnt =? 0 then (0, false) else (0, true).

(** Flow control is not extended. *)
Definition h3_deferred_consume_cb (st : session) : Z * session := (0%Z, st).

Definition h3_callback (st : session) (e : h3_event) : option (h3_answer * session) :=
  let code r := '(rc, st) ← r; Some (H3Code rc, st) in
  match e with
  | H3BeginHeaders id ud => code (h3_begin_headers_cb st id ud)
  | H3RecvHeader _ token name value ud => code (h3_recv_header_cb st token name value ud)
  | H3EndHeaders _ _ ud => code (h3_end_headers_cb st ud)
  | H3RecvData _ data ud => code (h3_recv_data_cb st data ud)
  | H3EndStream id ud => code (h3_end_stream_cb st id ud)
  | H3StreamClose _ ud => code (h3_stream_close_cb st ud)
  | H3DeferredConsume _ _ _ => code (Some (h3_deferred_consume_cb st))
  | H3ReadData _ veccnt _ => let '(n, eof) := h3_resp_data_read_cb veccnt in Some (H3Vecs n eof, st)
  end.

Fixpoint h3_drive (p : h3_prog T) (st : session) : option (Z * session) :=
  match p with
  | H3Ret rv t => Some (rv, set3_ng st t)
  | H3Callback t e k => '(ans, st) ← h3_callback (set3_ng st t) e; h3_drive (k (h3_ng st) ans) st
  end.

(** ** The interface *)

Definition ioh_http3_config_init : ioh_http3_config_t := mk_h3_config 8192 0 0.

(** The three unidirectional streams, opened one after the other up to the first failure. *)
Definition open_control_streams (q : ioh_quic_conn Q R) : option (Z * Z * Z) * ioh_quic_conn Q R :=
  match ioh_quic_open_uni_stream q with
  | (Ok ctrl, q) =>
      match ioh_quic_open_uni_stream q with
      | (Ok qenc, q) =>
          match ioh_quic_open_uni_stream q with
          | (Ok qdec, q) => (Some (ctrl, qenc, qdec), q)
          | (Err _, q) => (None, q)
          end
      | (Err _, q) => (None, q)
      end
  | (Err _, q) => (None, q)
  end.

Definition ioh_http3_bind_control_streams (st : session) : res unit * session :=
  if h3_control_bound st then (Ok (), st) else
  let '(ids, q) := open_control_streams (h3_quic st) in
  let st := set3_quic st q in
  match ids with
  | None => (Err EAGAIN, st)
  | Some (ctrl, qenc, qdec) =>
      let '(rv, t) := n3_bind_control_stream (h3_ng st) ctrl in
      let st := set3_ng st t in
      if negb (rv =? 0)%Z then (Err EIO, st) else
      let '(rv, t) := n3_bind_qpack_streams (h3_ng st) qenc qdec in
      let st := set3_ng st t in
      if negb (rv =? 0)%Z then (Err EIO, st) else (Ok (), set3_flags st (h3_shutdown_initiated st) true)
  end.

Definition ioh_http3_session_create (cfg : option ioh_http3_config_t) (quic : option (ioh_quic_conn Q R)) (on_req : option on_request3_fn) (h : heap)
    : option session :=
  match quic with
  | None => None
  | Some q =>
      let '(ok, h) := xalloc h in
      if negb ok then None else
      let cfg := default ioh_http3_config_init cfg in
      match n3_server_new cfg with
      | None => None
      | Some t => Some (snd (ioh_http3_bind_control_streams (mk_h3 t q cfg on_req false false ∅ 0 h)))
      end
  end.

(** What is left of the stream objects when the session is gone. *)
Definition ioh_http3_session_destroy (st : session) : gmap nat stream_data := h3_sds st.

Definition ioh_http3_on_stream_data (st : session) (id : Z) (data : bytes) (fin : bool) : option (res unit * session) :=
  '(rv, st) ← h3_drive (n3_read_stream (h3_ng st) id data fin) st;
  Some (if (rv <? 0)%Z then Err EIO else Ok (), st).

Definition ioh_http3_on_stream_open (st : session) (id : Z) : res unit := Ok ().

Definition ioh_http3_is_shutdown (st : session) : bool := h3_shutdown_initiated st.

Definition ioh_http3_shutdown (st : session) : res unit * session :=
  let '(rv, st) := if h3_control_bound st then let '(rv, t) := n3_shutdown (h3_ng st) in (rv, set3_ng st t) else (0%Z, st) in
  if negb (rv =? 0)%Z then (Err EIO, st) else (Ok (), set3_flags st true (h3_control_bound st)).
End Http3.
