(* ===== verification/Http3Thms.v ===== *)
(** * Theorems about HTTP/3 sessions

    The callbacks keep one live object per open stream, requests are what the stream's
    headers and data say, and a destroyed session leaves the objects of open streams
    behind. *)
From S2P Require Import Prelude CString Request RequestThms Response Ctx Stream Quic Http3.
From stdpp Require Import gmap.
Local Open Scope nat_scope.

(** ** What the library promises *)

(** The user data of a stream and the bytes of header texts and data handed over for it. *)
Class H3View (T : Type) := {
  n3_user : T -> Z -> option nat;
  n3_header_bytes : T -> Z -> nat;
  n3_data_bytes : T -> Z -> nat;
}.

Section Laws.
Context {T Q R : Type} `{N3 : Nghttp3 T} `{NQ : Ngtcp2 Q R} `{V : H3View T}.
Local Abbreviation session := (ioh_http3_session T Q R).

(** The library keeps user data until it closes the stream [closed]. *)
Record follows3 (closed : option Z) (t t' : T) : Prop := {
  f3_user : forall id, n3_user t' id = if decide (closed = Some id) then None else n3_user t id;
  f3_header_bytes : forall id, n3_header_bytes t id ≤ n3_header_bytes t' id;
  f3_data_bytes : forall id, n3_data_bytes t id ≤ n3_data_bytes t' id;
}.

Definition closed_by (e : h3_event) : option Z := match e with H3StreamClose id _ => Some id | _ => None end.

(** Every callback is given the stream's user data; header texts stay within the first
    block of the arena. *)
Definition event_ok3 (t0 t : T) (e : h3_event) : Prop :=
  follows3 (closed_by e) t0 t /\
  match e with
  | H3BeginHeaders id ud | H3EndHeaders id _ ud | H3EndStream id ud | H3StreamClose id ud => ud = n3_user t0 id
  | H3RecvHeader id token name value ud => ud = n3_user t0 id
      /\ n3_header_bytes t0 id + field_size (h3_kind token name, name, value) ≤ n3_header_bytes t id /\ (Z.of_nat (n3_header_bytes t id) <= 4096)%Z
  | H3RecvData id data ud => ud = n3_user t0 id /\ n3_data_bytes t0 id + length data ≤ n3_data_bytes t id /\ (Z.of_nat (n3_data_bytes t id) <= 2 ^ 63)%Z
  | _ => True
  end.

Fixpoint behaves3 (t0 : T) (p : h3_prog T) : Prop :=
  match p with
  | H3Ret _ t => follows3 None t0 t
  | H3Callback t e k => event_ok3 t0 t e /\ forall t' ans, behaves3 t' (k t' ans)
  end.

Class H3Laws : Prop := {
  h3_failure : NGHTTP3_ERR_CALLBACK_FAILURE ≠ 0%Z;
  h3_law_new : forall cfg t id, n3_server_new cfg = Some t -> n3_user t id = None;
  h3_law_set : forall t id p, let '(rv, t') := n3_set_stream_user_data t id p in
    (forall id', n3_user t' id' = if decide (rv = 0%Z /\ id' = id) then Some p else n3_user t id')
    /\ (forall id', n3_header_bytes t id' ≤ n3_header_bytes t' id') /\ (forall id', n3_data_bytes t id' ≤ n3_data_bytes t' id');
  h3_law_control : forall t id, follows3 None t (snd (n3_bind_control_stream t id));
  h3_law_qpack : forall t a b, follows3 None t (snd (n3_bind_qpack_streams t a b));
  h3_law_submit : forall t id nvs b, follows3 None t (snd (n3_submit_response t id nvs b));
  h3_law_read : forall t id data fin, behaves3 t (n3_read_stream t id data fin);
}.

(** ** The invariant *)

(** Each open stream with user data has one live object, and there are no others; [ab] says
    what the streams' requests and bodies should be. *)
Record session_ok3 (st : session) (ab : gmap Z (plain_request * option bytes)) : Prop := {
  s3_user : forall id p, n3_user (h3_ng st) id = Some p <-> exists sd, h3_sds st !! p = Some sd /\ sd_id sd = id;
  s3_fresh : forall p, is_Some (h3_sds st !! p) -> p < h3_fresh st;
  s3_streams : forall p sd, h3_sds st !! p = Some sd -> stream_ok (n3_header_bytes (h3_ng st) (sd_id sd)) (n3_data_bytes (h3_ng st) (sd_id sd)) sd;
  s3_spec : forall id p pr b, n3_user (h3_ng st) id = Some p -> ab !! id = Some (pr, b) ->
    exists sd, h3_sds st !! p = Some sd /\ represents (sd_arena sd) (sd_req sd) pr /\ body_of sd = b;
}.

(** How an event changes what the streams should hold. *)
Definition spec_step3 (ab : gmap Z (plain_request * option bytes)) (e : h3_event) (ok : bool) : gmap Z (plain_request * option bytes) :=
  match e with
  | H3BeginHeaders id None => if ok then <[id := (plain_init, None)]> ab else ab
  | H3RecvHeader id token name value _ =>
      partial_alter (fun o => if ok then '(pr, b) ← o; pr ← take_field pr (h3_kind token name, name, value); Some (pr, b) else None) id ab
  | H3RecvData id data _ => partial_alter (fun o => if ok then '(pr, b) ← o; Some (pr, Some (default [] b ++ data)) else None) id ab
  | H3StreamClose id _ => delete id ab
  | _ => ab
  end.

Context `{L : H3Laws}.

Lemma follow3_ok st ab t : session_ok3 st ab -> follows3 None (h3_ng st) t -> session_ok3 (set3_ng st t) ab.
Proof.
  intros [H1 H2 H3 H4] [F1 F2 F3]. assert (Hu : forall id, n3_user t id = n3_user (h3_ng st) id) by (intros id; by rewrite F1, decide_False).
  split; simpl; auto.
  - intros id p. rewrite Hu. apply H1.
  - intros p sd Hp. eapply stream_ok_mono; [..|by eapply H3]; auto.
  - intros id p pr b. rewrite Hu. apply H4.
Qed.

Lemma heap3_ok st ab h : session_ok3 st ab -> session_ok3 (set3_mem st (h3_sds st) (h3_fresh st) h) ab.
Proof. intros [H1 H2 H3 H4]. by split. Qed.

(** A stream object keeps its place while its contents change. *)
Lemma update3_ok st ab id p sd d h entry :
  session_ok3 st ab -> h3_sds st !! p = Some sd -> sd_id sd = id -> sd_id d = id ->
  stream_ok (n3_header_bytes (h3_ng st) id) (n3_data_bytes (h3_ng st) id) d ->
  (forall pr b, entry = Some (pr, b) -> represents (sd_arena d) (sd_req d) pr /\ body_of d = b) ->
  session_ok3 (set3_mem st (<[p := d]> (h3_sds st)) (h3_fresh st) h) (partial_alter (fun _ => entry) id ab).
Proof.
  intros [H1 H2 H3 H4] Hp Hid Hd Hs He. assert (Hu : n3_user (h3_ng st) id = Some p) by (apply H1; eauto). split; simpl.
  - intros id' q. rewrite H1. destruct (decide (p = q)) as [<-|]; [rewrite lookup_insert_eq|by rewrite lookup_insert_ne].
    split; intros (x & Hx & Hi); simplify_eq; eauto.
  - intros q Hq. apply H2. destruct (decide (p = q)) as [<-|]; [eauto|by rewrite lookup_insert_ne in Hq].
  - intros q x Hx. destruct (decide (p = q)) as [<-|]; [|rewrite lookup_insert_ne in Hx by done; by eapply H3].
    rewrite lookup_insert_eq in Hx. injection Hx as <-. by rewrite Hd.
  - intros id' q pr b Hq Ha. destruct (decide (id = id')) as [<-|Hne].
    + rewrite lookup_partial_alter_eq in Ha. assert (q = p) as -> by congruence. exists d. rewrite lookup_insert_eq. split; [done|]. by apply He.
    + rewrite lookup_partial_alter_ne in Ha by done. destruct (H4 _ _ _ _ Hq Ha) as (x & Hx & Hrep). exists x. rewrite lookup_insert_ne; [done|]. intros <-.
      apply H1 in Hq as (y & Hy & Hi). congruence.
Qed.

Lemma begin3_ok st ab id :
  session_ok3 st ab -> exists rc st', h3_begin_headers_cb st id (n3_user (h3_ng st) id) = Some (rc, st')
    /\ session_ok3 st' (spec_step3 ab (H3BeginHeaders id (n3_user (h3_ng st) id)) (rc =? 0)%Z).
Proof.
  intros Hok. unfold h3_begin_headers_cb, spec_step3. destruct (n3_user (h3_ng st) id) as [p0|] eqn:Eu; [by eexists _, _|].
  assert (Hfail : (NGHTTP3_ERR_CALLBACK_FAILURE =? 0)%Z = false) by (apply Z.eqb_neq, h3_failure).
  unfold stream_data_new3. destruct (xalloc (h3_heap st)) as [[] h]; cbn [negb]; [|eexists _, _; split; [done|]; rewrite Hfail; by apply heap3_ok].
  cbn [set3_mem h3_ng]. set (q := h3_fresh st). pose proof (h3_law_set (h3_ng st) id q) as Hl. destruct (n3_set_stream_user_data (h3_ng st) id q) as [rv t].
  destruct Hl as (Hl1 & Hl2 & Hl3). destruct Hok as [H1 H2 H3 H4].
  assert (Hq : h3_sds st !! q = None). { destruct (h3_sds st !! q) eqn:E; [|done]. pose proof (H2 q ltac:(eauto)). unfold q in *. lia. }
  destruct (Z.eqb_spec rv 0) as [->|Hrv]; cbn [negb].
  - eexists _, _. split; [done|]. simpl. split; simpl.
    + intros id' p. rewrite Hl1. destruct (decide (0%Z = 0%Z /\ id' = id)) as [[_ ->]|Hn].
      * split; [intros [= <-]; exists (new_stream id); by rewrite lookup_insert_eq|]. intros (sd & Hsd & Hi). destruct (decide (q = p)) as [<-|]; [done|].
        rewrite lookup_insert_ne in Hsd by done. assert (n3_user (h3_ng st) id = Some p) by (apply H1; eauto). congruence.
      * rewrite H1. destruct (decide (q = p)) as [<-|]; [rewrite lookup_insert_eq, Hq|by rewrite lookup_insert_ne].
        split; intros (sd & Hsd & Hi); simplify_eq. simpl in *. destruct Hn. done.
    + intros p Hp. destruct (decide (q = p)) as [<-|]; [unfold q; lia|]. rewrite lookup_insert_ne in Hp by done. pose proof (H2 p Hp). lia.
    + intros p sd Hp. destruct (decide (q = p)) as [<-|]; [rewrite lookup_insert_eq in Hp; injection Hp as <-; apply new_stream_ok|].
      rewrite lookup_insert_ne in Hp by done. eapply stream_ok_mono; [..|by eapply H3]; auto.
    + intros id' p pr b Hp Ha. rewrite Hl1 in Hp. destruct (decide (0%Z = 0%Z /\ id' = id)) as [[_ ->]|Hn].
      * injection Hp as <-. rewrite lookup_insert_eq in Ha. injection Ha as <- <-. exists (new_stream id). rewrite lookup_insert_eq. split; [done|]. split; [apply represents_init|done].
      * assert (id ≠ id') by (intros ->; apply Hn; done). rewrite lookup_insert_ne in Ha by done. destruct (H4 _ _ _ _ Hp Ha) as (sd & Hsd & Hrep). exists sd.
        rewrite lookup_insert_ne by congruence. done.
  - cbn [set3_ng set3_mem h3_sds stream_data_free3]. rewrite lookup_insert_eq. cbn [mbind option_bind]. eexists _, _. split; [done|]. rewrite Hfail.
    cbn [set3_mem set3_ng h3_ng h3_fresh h3_heap]. rewrite delete_insert_id by done. assert (Hu : forall id', n3_user t id' = n3_user (h3_ng st) id').
    { intros id'. rewrite Hl1, decide_False; [done|]. by intros [? _]. }
    split; simpl.
    + intros id' p. rewrite Hu. apply H1.
    + intros p Hp. pose proof (H2 p Hp). unfold q. lia.
    + intros p sd Hp. eapply stream_ok_mono; [..|by eapply H3]; auto.
    + intros id' p pr b. rewrite Hu. apply H4.
Qed.

(** The request of an open stream, described or not. *)
Lemma stream_request st ab id p sd :
  session_ok3 st ab -> n3_user (h3_ng st) id = Some p -> h3_sds st !! p = Some sd ->
  exists pr, represents (sd_arena sd) (sd_req sd) pr /\ forall pr' b, ab !! id = Some (pr', b) -> pr' = pr /\ body_of sd = b.
Proof.
  intros Hok Hu Hp. destruct (ab !! id) as [[pr b]|] eqn:Ea.
  - destruct (s3_spec _ _ Hok _ _ _ _ Hu Ea) as (sd' & Hs' & Hr' & Hb'). simplify_eq. exists pr. split; [done|]. by intros ? ? [= <- <-].
  - destruct (sk_request _ _ _ (s3_streams _ _ Hok _ _ Hp)) as [pr Hpr]. exists pr. by split.
Qed.

Lemma header3_ok st ab t id token name value :
  session_ok3 st ab -> event_ok3 (h3_ng st) t (H3RecvHeader id token name value (n3_user (h3_ng st) id)) ->
  exists rc st', h3_recv_header_cb (set3_ng st t) token name value (n3_user (h3_ng st) id) = Some (rc, st')
    /\ session_ok3 st' (spec_step3 ab (H3RecvHeader id token name value (n3_user (h3_ng st) id)) (rc =? 0)%Z).
Proof.
  intros Hok [Hf (_ & Hb & Hm)]. pose proof (follow3_ok _ _ _ Hok Hf) as Hok1. unfold h3_recv_header_cb, with_stream3, spec_step3.
  destruct (n3_user (h3_ng st) id) as [p|] eqn:Eu.
  2:{ eexists _, _. split; [done|]. destruct Hok1 as [H1 H2 H3 H4]. split; auto. intros id' p pr b Hu Ha. simpl in Hu. destruct Hf as [F1 _ _].
      assert (id ≠ id') by (intros <-; rewrite F1, decide_False in Hu by done; congruence). rewrite lookup_partial_alter_ne in Ha by done. by eapply H4. }
  destruct (proj1 (s3_user _ _ Hok _ _) Eu) as (sd & Hsd & Hid). cbn [set3_ng h3_sds h3_heap]. rewrite Hsd. cbn [mbind option_bind].
  destruct (stream_request _ _ _ _ _ Hok Eu Hsd) as (pr & Hrep & Hspec). pose proof (s3_streams _ _ Hok _ _ Hsd) as K. rewrite Hid in K.
  destruct (recv_header_ok (h3_kind token name) name value sd pr (h3_heap st) _ _ _ K Hrep Hb Hm) as (ok & d & h & E & Hs' & Hdi & Hdo & Hres).
  rewrite E. cbn [mbind option_bind]. eexists _, _. split; [done|]. destruct Hf as [_ _ F3]. specialize (F3 id).
  rewrite (partial_alter_ext _ (fun _ => if (if ok then 0%Z else NGHTTP3_ERR_CALLBACK_FAILURE) =? 0 then
      '(pr, b) ← ab !! id; pr ← take_field pr (h3_kind token name, name, value); Some (pr, b) else None)%Z) by (intros ? ->; done).
  apply update3_ok with (sd := sd) (st := set3_ng st t); [done|done|done|congruence|simpl; eapply stream_ok_mono; [| |exact Hs']; lia|].
  intros pr' b. destruct ok; [|by rewrite (proj2 (Z.eqb_neq _ _) h3_failure)]. cbn [Z.eqb]. destruct (ab !! id) as [[pr0 b0]|] eqn:Ea; [|done].
  cbn [mbind option_bind]. destruct (Hspec _ _ eq_refl) as [-> Hb0]. destruct (Hres eq_refl) as (pr2 & -> & Hr2). cbn [mbind option_bind]. intros [= <- <-]. split; [done|congruence].
Qed.

Lemma data3_ok st ab t id data :
  session_ok3 st ab -> event_ok3 (h3_ng st) t (H3RecvData id data (n3_user (h3_ng st) id)) ->
  exists rc st', h3_recv_data_cb (set3_ng st t) data (n3_user (h3_ng st) id) = Some (rc, st')
    /\ session_ok3 st' (spec_step3 ab (H3RecvData id data (n3_user (h3_ng st) id)) (rc =? 0)%Z).
Proof.
  intros Hok [Hf (_ & Hb & Hm)]. pose proof (follow3_ok _ _ _ Hok Hf) as Hok1. unfold h3_recv_data_cb, with_stream3, spec_step3.
  destruct (n3_user (h3_ng st) id) as [p|] eqn:Eu.
  2:{ eexists _, _. split; [done|]. destruct Hok1 as [H1 H2 H3 H4]. split; auto. intros id' p pr b Hu Ha. simpl in Hu. destruct Hf as [F1 _ _].
      assert (id ≠ id') by (intros <-; rewrite F1, decide_False in Hu by done; congruence). rewrite lookup_partial_alter_ne in Ha by done. by eapply H4. }
  destruct (proj1 (s3_user _ _ Hok _ _) Eu) as (sd & Hsd & Hid). cbn [set3_ng h3_sds h3_heap]. rewrite Hsd. cbn [mbind option_bind].
  destruct (stream_request _ _ _ _ _ Hok Eu Hsd) as (pr & Hrep & Hspec). pose proof (s3_streams _ _ Hok _ _ Hsd) as K. rewrite Hid in K.
  destruct (recv_data_ok data sd (h3_heap st) _ _ _ K Hb Hm) as (ok & d & h & E & Hs' & Hdi & Ea & Eq & Hres).
  rewrite E. cbn [mbind option_bind]. eexists _, _. split; [done|]. destruct Hf as [_ F2 _]. specialize (F2 id).
  rewrite (partial_alter_ext _ (fun _ => if (if ok then 0%Z else NGHTTP3_ERR_CALLBACK_FAILURE) =? 0 then
      '(pr, b) ← ab !! id; Some (pr, Some (default [] b ++ data)) else None)%Z) by (intros ? ->; done).
  apply update3_ok with (sd := sd) (st := set3_ng st t); [done|done|done|congruence|simpl; eapply stream_ok_mono; [| |exact Hs']; lia|].
  intros pr' b. destruct ok; [|by rewrite (proj2 (Z.eqb_neq _ _) h3_failure)]. cbn [Z.eqb]. destruct (ab !! id) as [[pr0 b0]|] eqn:Ea0; [|done].
  cbn [mbind option_bind]. destruct (Hspec _ _ eq_refl) as [-> Hb0]. intros [= <- <-]. rewrite Ea, Eq, Hres by done. split; [done|]. by rewrite Hb0.
Qed.

Lemma end_headers3_ok st ab t id fin :
  session_ok3 st ab -> event_ok3 (h3_ng st) t (H3EndHeaders id fin (n3_user (h3_ng st) id)) ->
  exists rc st', h3_end_headers_cb (set3_ng st t) (n3_user (h3_ng st) id) = Some (rc, st') /\ session_ok3 st' ab.
Proof.
  intros Hok [Hf _]. pose proof (follow3_ok _ _ _ Hok Hf) as Hok1. unfold h3_end_headers_cb, with_stream3. destruct (n3_user (h3_ng st) id) as [p|] eqn:Eu; [|by eexists _, _].
  destruct (proj1 (s3_user _ _ Hok _ _) Eu) as (sd & Hsd & Hid). cbn [set3_ng h3_sds h3_heap]. rewrite Hsd. cbn [mbind option_bind]. eexists _, _. split; [done|].
  assert (Hself : partial_alter (fun _ => ab !! id) id ab = ab) by apply partial_alter_self. rewrite <- Hself.
  apply update3_ok with (sd := sd) (st := set3_ng st t); [done|done|done|done| |].
  - destruct (s3_streams _ _ Hok1 p sd Hsd) as [K1 K2 K3 K4 K5 K6]. rewrite Hid in *. by split.
  - intros pr b Ha. simpl. destruct (stream_request _ _ _ _ _ Hok Eu Hsd) as (pr' & Hrep & Hspec). destruct (Hspec _ _ Ha) as [-> Hb]. done.
Qed.

Lemma close3_ok st ab t id :
  session_ok3 st ab -> event_ok3 (h3_ng st) t (H3StreamClose id (n3_user (h3_ng st) id)) ->
  exists rc st', h3_stream_close_cb (set3_ng st t) (n3_user (h3_ng st) id) = Some (rc, st') /\ session_ok3 st' (delete id ab).
Proof.
  intros [H1 H2 H3 H4] [[F1 F2 F3] _]. cbn [closed_by] in F1. unfold h3_stream_close_cb. cbn [set3_ng h3_sds].
  assert (Hne : forall id' q, n3_user t id' = Some q -> id' ≠ id /\ n3_user (h3_ng st) id' = Some q).
  { intros id' q. rewrite F1. destruct (decide (Some id = Some id')) as [|Hn]; [done|]. intros Hq. split; [|done]. intros ->. done. }
  assert (Hfin : forall sds, (forall q sd, sds !! q = Some sd <-> h3_sds st !! q = Some sd /\ sd_id sd ≠ id) ->
    session_ok3 (set3_mem (set3_ng st t) sds (h3_fresh st) (h3_heap st)) (delete id ab)).
  { intros sds Hs. split; simpl.
    - intros id' q. split.
      + intros Hq. destruct (Hne _ _ Hq) as [Hni Hq']. apply H1 in Hq' as (sd & Hsd & Hi). exists sd. split; [apply Hs; split; congruence|done].
      + intros (sd & Hsd & Hi). apply Hs in Hsd as [Hsd Hni]. rewrite F1, decide_False; [apply H1; eauto|]. intros [= ->]. done.
    - intros q [sd Hq]. apply Hs in Hq as [Hq _]. apply H2. eauto.
    - intros q sd Hq. apply Hs in Hq as [Hq _]. eapply stream_ok_mono; [..|by eapply H3]; auto.
    - intros id' q pr b Hq Ha. destruct (Hne _ _ Hq) as [Hni Hq']. rewrite lookup_delete_ne in Ha by done. destruct (H4 _ _ _ _ Hq' Ha) as (sd & Hsd & Hrep).
      exists sd. split; [|done]. apply Hs. split; [done|]. apply H1 in Hq' as (y & Hy & Hi). congruence. }
  destruct (n3_user (h3_ng st) id) as [p|] eqn:Eu; cbn [stream_data_free3].
  - destruct (proj1 (H1 _ _) Eu) as (sd & Hsd & Hid). rewrite Hsd. cbn [mbind option_bind]. eexists _, _. split; [done|]. apply Hfin.
    intros q x. rewrite lookup_delete_Some. split.
    + intros [Hn Hq]. split; [done|]. intros Hi. assert (n3_user (h3_ng st) id = Some q) by (apply H1; eauto). congruence.
    + intros [Hq Hi]. split; [|done]. intros <-. congruence.
  - eexists _, _. split; [done|]. apply Hfin. intros q x. split; [|by intros [? _]]. intros Hq. split; [done|]. intros Hi.
    assert (n3_user (h3_ng st) id = Some q) by (apply H1; eauto). congruence.
Qed.

Lemma answer3_ok st ab id f req : session_ok3 st ab -> exists st', answer_request3 st id f (Some req) = Some st' /\ session_ok3 st' ab.
Proof.
  intros Hok. unfold answer_request3. destruct (ioh_response_init (h3_heap st)) as [[[[]|e] r] h]; [|eexists; split; [done|by apply heap3_ok]].
  cbn [mbind option_bind]. destruct (ioh_ctx_init (Some req) (Some r) h) as [[c|e] h1]; [|eexists; split; [done|by apply heap3_ok]].
  destruct (f c id) as [rc c']. eexists. split; [done|]. destruct (_ && _); [|by apply heap3_ok].
  unfold ioh_http3_submit_response. cbn [set3_mem h3_heap h3_sds h3_fresh]. destruct (response_fields (c_resp c') h1) as [[nvs|e] h2]; [|exact (heap3_ok _ _ h2 (heap3_ok _ _ h1 Hok))].
  cbn [set3_mem h3_ng]. set (hb := match r_body (c_resp c') with Some _ => _ | None => false end). pose proof (h3_law_submit (h3_ng st) id nvs hb) as Hl.
  destruct (n3_submit_response (h3_ng st) id nvs hb) as [rv t]. apply (heap3_ok _ _ h2) in Hok. exact (follow3_ok _ _ t Hok Hl).
Qed.

Lemma end_stream3_ok st ab t id :
  session_ok3 st ab -> event_ok3 (h3_ng st) t (H3EndStream id (n3_user (h3_ng st) id)) ->
  (exists rc st', h3_end_stream_cb (set3_ng st t) id (n3_user (h3_ng st) id) = Some (rc, st') /\ session_ok3 st' ab)
  /\ forall p pr b fn, n3_user (h3_ng st) id = Some p -> ab !! id = Some (pr, b) -> h3_on_request st = Some fn ->
     exists req, reads_as req pr b 3 /\ h3_end_stream_cb (set3_ng st t) id (Some p) = (st' ← answer_request3 (set3_ng st t) id fn (Some req); Some (0%Z, st')).
Proof.
  intros Hok [Hf _]. pose proof (follow3_ok _ _ _ Hok Hf) as Hok1. unfold h3_end_stream_cb. cbn [set3_ng h3_on_request h3_sds]. split.
  - destruct (n3_user (h3_ng st) id) as [p|] eqn:Eu; [|by eexists _, _]. destruct (h3_on_request st) as [fn|]; [|by eexists _, _].
    destruct (proj1 (s3_user _ _ Hok _ _) Eu) as (sd & Hsd & Hid). rewrite Hsd. cbn [mbind option_bind]. destruct (stream_request _ _ _ _ _ Hok Eu Hsd) as (pr & Hrep & _).
    destruct (load_represented _ _ 3 Hrep) as (req & -> & _). destruct (answer3_ok (set3_ng st t) ab id fn req Hok1) as (st' & -> & Hst'). cbn [mbind option_bind]. eauto.
  - intros p pr b fn Hu Ha ->. destruct (proj1 (s3_user _ _ Hok _ _) Hu) as (sd & Hsd & Hid). rewrite Hsd. cbn [mbind option_bind].
    destruct (s3_spec _ _ Hok _ _ _ _ Hu Ha) as (sd' & Hs' & Hr' & <-). simplify_eq. destruct (load_represented _ _ 3 Hr') as (req & -> & Hreq). by exists req.
Qed.

Lemma callback3_ok st ab t e :
  session_ok3 st ab -> event_ok3 (h3_ng st) t e ->
  exists ans st', h3_callback (set3_ng st t) e = Some (ans, st') /\ session_ok3 st' (spec_step3 ab e (match ans with H3Code rc => rc =? 0 | H3Vecs _ _ => true end)%Z).
Proof.
  intros Hok He. pose proof He as [Hf He']. destruct e as [id ud|id tok n v ud|id fin ud|id d ud|id ud|id ud|id n ud|id n ud]; unfold h3_callback.
  - subst ud. destruct Hf as [F1 F2 F3]. assert (Eu : n3_user (h3_ng st) id = n3_user (h3_ng (set3_ng st t)) id) by (simpl; by rewrite F1, decide_False). rewrite Eu.
    destruct (begin3_ok (set3_ng st t) ab id) as (rc & st' & -> & Hst'); [by apply follow3_ok|]. eexists _, _. split; [done|]. done.
  - destruct He' as (-> & _). destruct (header3_ok _ _ _ _ _ _ _ Hok He) as (rc & st' & -> & ?). by eexists _, _.
  - subst ud. destruct (end_headers3_ok _ _ _ _ _ Hok He) as (rc & st' & -> & ?). by eexists _, _.
  - destruct He' as (-> & _). destruct (data3_ok _ _ _ _ _ Hok He) as (rc & st' & -> & ?). by eexists _, _.
  - subst ud. destruct (end_stream3_ok _ _ _ _ Hok He) as [(rc & st' & -> & ?) _]. by eexists _, _.
  - subst ud. destruct (close3_ok _ _ _ _ Hok He) as (rc & st' & -> & ?). by eexists _, _.
  - eexists _, _. split; [done|]. by apply follow3_ok.
  - destruct (h3_resp_data_read_cb n) as [k eof]. eexists _, _. split; [done|]. by apply follow3_ok.
Qed.

Lemma drive3_ok p st ab : session_ok3 st ab -> behaves3 (h3_ng st) p -> exists rv st' ab', h3_drive p st = Some (rv, st') /\ session_ok3 st' ab'.
Proof.
  revert st ab. induction p as [rv t|t e k IH]; intros st ab Hok.
  - intros Hf. exists rv, (set3_ng st t), ab. split; [done|]. by apply follow3_ok.
  - intros [He Hk]. cbn [h3_drive]. destruct (callback3_ok _ _ _ _ Hok He) as (ans & st' & -> & Hok'). cbn [mbind option_bind]. eapply IH; [exact Hok'|apply Hk].
Qed.

Lemma create3_ok cfg quic on_req h st : ioh_http3_session_create cfg quic on_req h = Some st -> session_ok3 st ∅.
Proof.
  unfold ioh_http3_session_create. destruct quic as [q|]; [|done]. destruct (xalloc h) as [[] h1]; cbn [negb]; [|done].
  destruct (n3_server_new (default ioh_http3_config_init cfg)) as [t|] eqn:En; [|done]. intros [= <-]. set (cfg' := default ioh_http3_config_init cfg) in *. clearbody cfg'.
  assert (Hok : session_ok3 (mk_h3 t q cfg' on_req false false ∅ 0 h1) ∅).
  { assert (Hu := fun id => h3_law_new _ t id En). split; simpl.
    - intros id p. rewrite Hu. split; [done|]. intros (sd & Hsd & _). by rewrite lookup_empty in Hsd.
    - intros p [sd Hsd]. by rewrite lookup_empty in Hsd.
    - intros p sd Hsd. by rewrite lookup_empty in Hsd.
    - intros id p pr b. by rewrite Hu. }
  unfold ioh_http3_bind_control_streams. cbn [h3_control_bound h3_quic set3_quic h3_ng]. destruct (open_control_streams q) as [[[[c1 c2] c3]|] q'].
  2:{ destruct Hok as [H1 H2 H3 H4]. by split. }
  cbn [set3_quic h3_ng]. pose proof (h3_law_control t c1) as Hl1. destruct (n3_bind_control_stream t c1) as [rv1 t1]. cbn [snd] in Hl1.
  pose proof (follow3_ok _ _ _ Hok Hl1) as Hok1. destruct (negb (rv1 =? 0)%Z); [destruct Hok1 as [H1 H2 H3 H4]; by split|].
  cbn [set3_ng h3_ng] in *. pose proof (h3_law_qpack t1 c2 c3) as Hl2. destruct (n3_bind_qpack_streams t1 c2 c3) as [rv2 t2]. cbn [snd] in Hl2.
  pose proof (follow3_ok _ _ _ Hok1 Hl2) as Hok2. destruct (negb (rv2 =? 0)%Z); destruct Hok2 as [H1 H2 H3 H4]; by split.
Qed.

(** ** Sessions *)

Fixpoint h3_feed (st : session) (calls : list (Z * bytes * bool)) : option session :=
  match calls with
  | [] => Some st
  | (id, data, fin) :: calls => '(_, st) ← ioh_http3_on_stream_data st id data fin; h3_feed st calls
  end.

Lemma feed3_ok st ab calls : session_ok3 st ab -> exists st' ab', h3_feed st calls = Some st' /\ session_ok3 st' ab'.
Proof.
  revert st ab. induction calls as [|[[id data] fin] calls IH]; intros st ab Hok; [by eexists _, _|]. cbn [h3_feed]. unfold ioh_http3_on_stream_data.
  destruct (drive3_ok (n3_read_stream (h3_ng st) id data fin) st ab Hok (h3_law_read _ _ _ _)) as (rv & st1 & ab1 & -> & Hok1). cbn [mbind option_bind]. by eapply IH.
Qed.

(** Destroying a session leaves behind exactly the objects of the streams that are open. *)
Theorem h3_session_leaks cfg quic on_req h st calls :
  ioh_http3_session_create cfg quic on_req h = Some st ->
  exists st', h3_feed st calls = Some st'
    /\ forall p, is_Some (ioh_http3_session_destroy st' !! p) <-> exists id, n3_user (h3_ng st') id = Some p.
Proof.
  intros Hc. destruct (feed3_ok st ∅ calls) as (st' & ab' & E & Hok); [by eapply create3_ok|]. exists st'. split; [done|]. intros p. unfold ioh_http3_session_destroy. split.
  - intros [sd Hsd]. exists (sd_id sd). apply (s3_user _ _ Hok). eauto.
  - intros [id Hid]. apply (s3_user _ _ Hok) in Hid as (sd & Hsd & _). eauto.
Qed.

(** C19: Requests are what the stream said.  For a library that follows its documentation,
    with header texts of at most 4096 bytes per stream, every callback of a consistent
    session is defined: no freed or dangling object is used and nothing is stored out of
    bounds.  The callbacks implement a map from stream identifiers to plain requests, and
    at the end of a stream the handler is called with a request whose method, path, query,
    host, headers, content length and body are those of the map. *)
Theorem h3_callbacks_refine st ab t e :
  session_ok3 st ab -> event_ok3 (h3_ng st) t e ->
  exists ans st', h3_callback (set3_ng st t) e = Some (ans, st')
    /\ session_ok3 st' (spec_step3 ab e (match ans with H3Code rc => rc =? 0 | H3Vecs _ _ => true end)%Z)
    /\ forall id ud p pr b fn, e = H3EndStream id ud -> n3_user (h3_ng st) id = Some p -> ab !! id = Some (pr, b) -> h3_on_request st = Some fn ->
         exists req, reads_as req pr b 3 /\ answer_request3 (set3_ng st t) id fn (Some req) = Some st'.
Proof.
  intros Hok He. destruct (callback3_ok _ _ _ _ Hok He) as (ans & st' & E & Hok'). exists ans, st'. split; [done|]. split; [done|].
  intros id ud p pr b fn -> Hu Ha Hfn. pose proof He as [_ Hud]. simpl in Hud. subst ud. destruct (end_stream3_ok _ _ _ _ Hok He) as [_ H].
  destruct (H p pr b fn Hu Ha Hfn) as (req & Hreq & Ecb). exists req. split; [done|]. unfold h3_callback in E. rewrite Hu, Ecb in E.
  destruct (answer_request3 _ _ _ _) as [st2|]; [|done]. by injection E as _ <-.
Qed.
End Laws.

(** ** A library *)

(** A library that takes the data of a stream for its path, reports it when it fits, and
    ends the request with the stream. *)
Record demo_n3 := mk_demo3 { d3_user : gmap Z nat; d3_headers : gmap Z nat; d3_log : list nv }.

Definition d3_count (t : demo_n3) (id : Z) : nat := default 0 (d3_headers t !! id).

Definition d3_read (t : demo_n3) (id : Z) (data : bytes) (fin : bool) : h3_prog demo_n3 :=
  H3Callback t (H3BeginHeaders id (d3_user t !! id)) (fun t _ =>
    let n := d3_count t id + field_size (h3_kind TkPath (bs ":path"), bs ":path", data) in
    if (Z.of_nat n <=? 4096)%Z then
      H3Callback (mk_demo3 (d3_user t) (<[id := n]> (d3_headers t)) (d3_log t)) (H3RecvHeader id TkPath (bs ":path") data (d3_user t !! id)) (fun t _ =>
        if fin then H3Callback t (H3EndStream id (d3_user t !! id)) (fun t _ => H3Ret 0 t) else H3Ret 0 t)
    else H3Ret (-1) t).

#[local] Instance demo_nghttp3 : Nghttp3 demo_n3 := {
  NGHTTP3_ERR_CALLBACK_FAILURE := -902;
  n3_server_new _ := Some (mk_demo3 ∅ ∅ []);
  n3_set_stream_user_data t id p := (0%Z, mk_demo3 (<[id := p]> (d3_user t)) (d3_headers t) (d3_log t));
  n3_bind_control_stream t _ := (0%Z, t);
  n3_bind_qpack_streams t _ _ := (0%Z, t);
  n3_read_stream := d3_read;
  n3_submit_response t _ nvs _ := (0%Z, mk_demo3 (d3_user t) (d3_headers t) (d3_log t ++ nvs));
  n3_shutdown t := (0%Z, t);
}.

#[local] Instance demo_h3view : H3View demo_n3 := { n3_user t id := d3_user t !! id; n3_header_bytes := d3_count; n3_data_bytes _ _ := 0 }.

Lemma demo3_same (t t' : demo_n3) : d3_user t' = d3_user t -> d3_headers t' = d3_headers t -> follows3 None t t'.
Proof. intros E1 E2. split; simpl; unfold d3_count; rewrite ?E1, ?E2; auto. Qed.

#[local] Instance demo_h3laws : H3Laws (T := demo_n3).
Proof.
  split; simpl.
  - lia.
  - intros cfg t id [= <-]. apply lookup_empty.
  - intros t id p. split; [|done]. intros id'. simpl. destruct (decide (0%Z = 0%Z /\ id' = id)) as [[_ ->]|Hn]; [by rewrite lookup_insert_eq|].
    rewrite lookup_insert_ne; [done|]. intros ->. by apply Hn.
  - intros. by apply demo3_same.
  - intros. by apply demo3_same.
  - intros. by apply demo3_same.
  - intros t id data fin. split; [split; [by apply demo3_same|done]|]. intros t1 _. cbv zeta. set (n := d3_count t1 id + _).
    destruct (Z.leb_spec (Z.of_nat n) 4096) as [Hn|]; [|by apply demo3_same].
    assert (Hc : d3_count (mk_demo3 (d3_user t1) (<[id := n]> (d3_headers t1)) (d3_log t1)) id = n) by (unfold d3_count; simpl; by rewrite lookup_insert_eq).
    split.
    + split; [split; simpl; [intros; done| |done]|split; [done|]; cbn [n3_header_bytes demo_h3view]; rewrite Hc; split; [unfold n; lia|done]].
      intros id'. unfold d3_count at 2. simpl. destruct (decide (id = id')) as [<-|]; [rewrite lookup_insert_eq; unfold n; simpl; lia|by rewrite lookup_insert_ne].
    + intros t2 _. destruct fin; [|by apply demo3_same]. split; [split; [by apply demo3_same|done]|]. intros t3 _. by apply demo3_same.
Qed.

#[local] Instance demo_quic : Ngtcp2 nat unit := {
  NGTCP2_ERR_WRITE_MORE := -1; NGTCP2_ERR_DRAINING := -2; NGTCP2_ERR_IDLE_CLOSE := -3; NGTCP2_ERR_HANDSHAKE_TIMEOUT := -4; NGTCP2_ERR_CALLBACK_FAILURE := -5;
  qtls_ctx_new := true; qtls_configure := true; qtls_certificate _ := true; qtls_key _ := true; qtls_alpn _ := true; qtls_new := true;
  q_server_new _ _ _ _ := Some 0; q_read_pkt q _ _ := QRet 0%Z q; q_writev_stream q _ _ _ := (0%Z, [], 0%Z, q); q_write_close q _ _ := (0%Z, [], q);
  q_handle_expiry q _ := (0%Z, q); q_get_expiry _ := UINT64_MAX; q_handshake_completed _ := true; q_in_closing _ := false; q_in_draining _ := false;
  (* a connection that has credit for that many streams *)
  q_open_uni_stream q := match q with S q => (0%Z, Z.of_nat (4 * q + 3), q) | O => ((-1)%Z, 0%Z, O) end;
  q_random r n := (repeat x00 n, r);
}.

Definition demo_quic_conn (credit : nat) : ioh_quic_conn nat unit :=
  mk_quic credit (mk_quic_config 100 262144 1048576 30000 1200 (Some (bs "cert.pem")) (Some (bs "key.pem"))) [] QUIC_OUTPUT_BUF_SIZE true false () [].

Definition demo_answer : on_request3_fn := fun c _ =>
  (0%Z, with_resp c (mk_response 200 true [mk_header (bs "X-Path") 6 (default [] (path (c_req c))) (path_len (c_req c))] 16 (Some (bs "hello")) 5 4096 false false)).

Definition demo_h3 : ioh_http3_session demo_n3 nat unit :=
  mk_h3 (mk_demo3 ∅ ∅ []) (demo_quic_conn 0) ioh_http3_config_init (Some demo_answer) false true ∅ 0 [].

(** The status, the path in a header; of the body nothing is ever handed to the library. *)
Example demo_h3_response :
  option_map (fun st => d3_log (h3_ng st)) (h3_feed demo_h3 [(0%Z, bs "/a?b", true)]) = Some [(bs ":status", bs "200"); (bs "x-path", bs "/a")]
  /\ h3_resp_data_read_cb 8 = (0, true).
Proof. vm_compute. auto. Qed.

(** A binding that fails for lack of credit keeps the streams it opened, and the next
    attempt opens others in their place. *)
Example control_streams_wasted :
  let st := mk_h3 (mk_demo3 ∅ ∅ []) (demo_quic_conn 2) ioh_http3_config_init None false false ∅ 0 [] in
  (fst (ioh_http3_bind_control_streams st), qc_conn (h3_quic (snd (ioh_http3_bind_control_streams st)))) = (Err EAGAIN, 0).
Proof. vm_compute. reflexivity. Qed.

Lemma h3_callbacks_refine_witness :
  let st := snd (default (H3Code 0, demo_h3) (h3_callback demo_h3 (H3BeginHeaders 4 None))) in
  exists req st', reads_as req plain_init None 3 /\ answer_request3 st 4 demo_answer (Some req) = Some st'.
Proof.
  intros st. assert (Hok0 : session_ok3 demo_h3 ∅) by (apply (create3_ok None (Some (demo_quic_conn 3)) (Some demo_answer) []); reflexivity).
  destruct (callback3_ok demo_h3 ∅ (h3_ng demo_h3) (H3BeginHeaders 4 None) Hok0) as (ans & st1 & E & Hok); [split; [by apply demo3_same|reflexivity]|].
  assert (Est : st = st1 /\ ans = H3Code 0) by (unfold st; change (set3_ng demo_h3 (h3_ng demo_h3)) with demo_h3 in E; rewrite E; vm_compute in E; by injection E as <- _).
  destruct Est as [<- ->]. clear E.
  destruct (h3_callbacks_refine st _ (h3_ng st) (H3EndStream 4 (n3_user (h3_ng st) 4)) Hok) as (ans & st' & _ & _ & H); [split; [by apply demo3_same|reflexivity]|].
  destruct (H 4%Z (n3_user (h3_ng st) 4) 0 plain_init None demo_answer) as (req & Hreq & Ha); [reflexivity|vm_compute; reflexivity|vm_compute; reflexivity|vm_compute; reflexivity|].
  exists req, st'. split; [exact Hreq|exact Ha].
Defined.
