(* ===== verification/WebSocket.v ===== *)
(** * WebSocket

    ws/ioh_websocket.c: the upgrade handshake and the context around wslay.

    wolfCrypt (SHA-1 and base64) and wslay are third-party code: the record [hash_lib] and
    the class [Wslay] have what the source calls of them.  wslay reads, writes and reports
    messages through callbacks while a call runs, so such a call is a tree; the
    application's callbacks act on their own data [U]. *)
From S2P Require Import Prelude CString Request RequestThms.
Local Open Scope nat_scope.

(** ** The handshake *)

Definition WS_GUID : bytes := bs "258EAFA5-E914-47DA-95CA-C5AB0DC85B11".
Definition IOH_WS_ACCEPT_KEY_LEN : nat := 28.
Definition CONCAT_SIZE : nat := 64.

(** [None] is a failure of a step. *)
Record hash_lib := mk_hash {
  wc_InitSha : bool;
  wc_ShaUpdate : bool;
  wc_ShaFinal : bytes -> option bytes;
  Base64_Encode_NoNl : bytes -> nat -> option bytes;
}.

(** The text stored in [accept_out]; [None] for the key is a null pointer. *)
Definition ioh_ws_compute_accept (k : hash_lib) (client_key : option bytes) : res bytes :=
  match client_key with
  | None => Err EINVAL
  | Some key =>
      let key_len := strlen key in
      let concat_len := key_len + length WS_GUID in
      if CONCAT_SIZE <=? concat_len then Err EINVAL else
      let text := take key_len key ++ WS_GUID in
      if negb (wc_InitSha k) then Err EINVAL else
      if negb (wc_ShaUpdate k) then Err EINVAL else
      match wc_ShaFinal k text with
      | None => Err EINVAL
      | Some hash =>
          match Base64_Encode_NoNl k hash (IOH_WS_ACCEPT_KEY_LEN + 1) with
          | None => Err EINVAL
          | Some out => Ok out
          end
      end
  end.

(** [strcasestr(hay, needle) != NULL]. *)
Fixpoint strcasestr_from (hay needle : bytes) : bool :=
  bytes_eqb (to_lower <$> take (length needle) hay) (to_lower <$> needle)
  || match hay with [] => false | _ :: hay => strcasestr_from hay needle end.

Definition strcasestr (hay needle : bytes) : bool := strcasestr_from (c_str hay) (c_str needle).

Definition ioh_ws_validate_upgrade (method upgrade_hdr conn_hdr ws_key ws_version : option bytes) : res unit :=
  match method, upgrade_hdr, conn_hdr, ws_key, ws_version with
  | Some method, Some upgrade, Some conn, Some key, Some version =>
      if negb (strcasecmp_eq method (bs "GET")) then Err EINVAL
      else if negb (strcasecmp_eq upgrade (bs "websocket")) then Err EINVAL
      else if negb (strcasestr conn (bs "Upgrade")) then Err EINVAL
      else if strlen key =? 0 then Err EINVAL
      else if negb (strcmp_eq version (bs "13")) then Err EINVAL
      else Ok ()
  | _, _, _, _, _ => Err EINVAL
  end.

(** ** wslay *)

Inductive ws_opcode := WSLAY_CONTINUATION_FRAME | WSLAY_TEXT_FRAME | WSLAY_BINARY_FRAME | WSLAY_CONNECTION_CLOSE | WSLAY_PING | WSLAY_PONG.

#[export] Instance ws_opcode_eq_dec : EqDecision ws_opcode.
Proof. solve_decision. Defined.

Record ws_msg := mk_msg { m_opcode : ws_opcode; m_text : bytes; m_status : Z }.

(** An I/O callback's answer: data (or the number of bytes taken), or the error that was
    set in the context. *)
Inductive ws_io := WsData (b : bytes) | WsTaken (n : nat) | WsWouldBlock | WsFailure.

Inductive ws_prog (W : Type) :=
| WsRet (rv : Z) (w : W)
| WsRecv (w : W) (len : nat) (k : W -> ws_io -> ws_prog W)
| WsSend (w : W) (data : bytes) (k : W -> ws_io -> ws_prog W)
| WsMsg (w : W) (m : ws_msg) (k : W -> ws_prog W).
Arguments WsRet {W}.
Arguments WsRecv {W}.
Arguments WsSend {W}.
Arguments WsMsg {W}.

Class Wslay (W : Type) := {
  WSLAY_ERR_NOMEM : Z;
  ws_server_init : Z * W;
  ws_set_max_recv : W -> Z -> W;
  ws_event_recv : W -> ws_prog W;
  ws_event_send : W -> ws_prog W;
  ws_event_queue_msg : W -> ws_opcode -> option bytes -> Z * W;
  ws_event_queue_close : W -> Z -> option bytes -> Z * W;
  ws_event_want_read : W -> bool;
  ws_event_want_write : W -> bool;
  ws_close_received : W -> bool;
  ws_close_sent : W -> bool;
}.

(** ** The context *)

Definition IOH_WS_DEFAULT_MAX_MSG : Z := 2 ^ 20.

(** The adapters give the data read, the number of bytes written, or whether a failure is
    only that the call would block. *)
Record ioh_ws_ctx_t (W U : Type) := mk_ws {
  on_msg : option (U -> ws_opcode -> bytes -> U);
  on_close : option (U -> Z -> U);
  ws_recv : option (U -> nat -> (bytes + bool) * U);
  ws_send : option (U -> bytes -> (nat + bool) * U);
  ws_user_data : U;
  wslay_ctx : option W;
  max_recv_msg_len : Z;
}.
Arguments mk_ws {W U}.
Arguments on_msg {W U}.
Arguments on_close {W U}.
Arguments ws_recv {W U}.
Arguments ws_send {W U}.
Arguments ws_user_data {W U}.
Arguments wslay_ctx {W U}.
Arguments max_recv_msg_len {W U}.

Section Context.
Context {W U : Type} `{L : Wslay W}.
Local Abbreviation ctx := (ioh_ws_ctx_t W U).

Definition set_user (ws : ctx) (u : U) : ctx := mk_ws (on_msg ws) (on_close ws) (ws_recv ws) (ws_send ws) u (wslay_ctx ws) (max_recv_msg_len ws).
Definition set_wslay (ws : ctx) (w : option W) : ctx := mk_ws (on_msg ws) (on_close ws) (ws_recv ws) (ws_send ws) (ws_user_data ws) w (max_recv_msg_len ws).

Definition wslay_recv_cb (ws : ctx) (len : nat) : ws_io * ctx :=
  match ws_recv ws with
  | None => (WsFailure, ws)
  | Some f => match f (ws_user_data ws) len with
              | (inl data, u) => (WsData data, set_user ws u)
              | (inr wouldblock, u) => (if wouldblock : bool then WsWouldBlock else WsFailure, set_user ws u)
              end
  end.

Definition wslay_send_cb (ws : ctx) (data : bytes) : ws_io * ctx :=
  match ws_send ws with
  | None => (WsFailure, ws)
  | Some f => match f (ws_user_data ws) data with
              | (inl n, u) => (WsTaken n, set_user ws u)
              | (inr wouldblock, u) => (if wouldblock : bool then WsWouldBlock else WsFailure, set_user ws u)
              end
  end.

Definition wslay_on_msg_cb (ws : ctx) (m : ws_msg) : ctx :=
  if bool_decide (m_opcode m = WSLAY_CONNECTION_CLOSE) then
    match on_close ws with Some f => set_user ws (f (ws_user_data ws) (m_status m)) | None => ws end
  else
    match on_msg ws with Some f => set_user ws (f (ws_user_data ws) (m_opcode m) (m_text m)) | None => ws end.

Fixpoint ws_drive (p : ws_prog W) (ws : ctx) : Z * ctx :=
  match p with
  | WsRet rv w => (rv, set_wslay ws (Some w))
  | WsRecv w len k => let '(a, ws) := wslay_recv_cb ws len in ws_drive (k w a) ws
  | WsSend w data k => let '(a, ws) := wslay_send_cb ws data in ws_drive (k w a) ws
  | WsMsg w m k => ws_drive (k w) (wslay_on_msg_cb ws m)
  end.

Definition ioh_ws_ctx_init (ws : ctx) : res unit * ctx :=
  match ws_recv ws, ws_send ws with
  | Some _, Some _ =>
      let '(ret, w) := ws_server_init in
      if negb (ret =? 0)%Z then (Err ENOMEM, ws) else
      let max_len := if (0 <? max_recv_msg_len ws)%Z then max_recv_msg_len ws else IOH_WS_DEFAULT_MAX_MSG in
      (Ok (), set_wslay ws (Some (ws_set_max_recv w max_len)))
  | _, _ => (Err EINVAL, ws)
  end.

Definition ioh_ws_ctx_destroy (ws : ctx) : ctx := set_wslay ws None.

(** The two event calls differ in the library call only. *)
Definition ws_event (f : W -> ws_prog W) (ws : ctx) : res unit * ctx :=
  match wslay_ctx ws with
  | None => (Err EINVAL, ws)
  | Some w => let '(ret, ws) := ws_drive (f w) ws in (if (ret =? 0)%Z then Ok () else Err EIO, ws)
  end.

Definition ioh_ws_recv : ctx -> res unit * ctx := ws_event ws_event_recv.
Definition ioh_ws_send : ctx -> res unit * ctx := ws_event ws_event_send.

Definition ws_queue_msg (ws : ctx) (opcode : ws_opcode) (data : option bytes) : res unit * ctx :=
  match wslay_ctx ws with
  | None => (Err EINVAL, ws)
  | Some w =>
      let '(ret, w) := ws_event_queue_msg w opcode data in
      (if (ret =? 0)%Z then Ok () else if (ret =? WSLAY_ERR_NOMEM)%Z then Err ENOMEM else Err EINVAL, set_wslay ws (Some w))
  end.

Definition ioh_ws_queue_text (ws : ctx) (msg : bytes) : res unit * ctx := ws_queue_msg ws WSLAY_TEXT_FRAME (Some msg).
Definition ioh_ws_queue_binary (ws : ctx) (data : bytes) : res unit * ctx := ws_queue_msg ws WSLAY_BINARY_FRAME (Some data).
Definition ioh_ws_queue_ping (ws : ctx) : res unit * ctx := ws_queue_msg ws WSLAY_PING None.

Definition ioh_ws_queue_close (ws : ctx) (code : Z) (reason : option bytes) : res unit * ctx :=
  match wslay_ctx ws with
  | None => (Err EINVAL, ws)
  | Some w => let '(ret, w) := ws_event_queue_close w code reason in (if (ret =? 0)%Z then Ok () else Err EINVAL, set_wslay ws (Some w))
  end.

Definition ioh_ws_want_read (ws : ctx) : bool := match wslay_ctx ws with Some w => ws_event_want_read w | None => false end.
Definition ioh_ws_want_write (ws : ctx) : bool := match wslay_ctx ws with Some w => ws_event_want_write w | None => false end.
Definition ioh_ws_close_received (ws : ctx) : bool := match wslay_ctx ws with Some w => ws_close_received w | None => false end.
Definition ioh_ws_close_sent (ws : ctx) : bool := match wslay_ctx ws with Some w => ws_close_sent w | None => false end.
End Context.

(** ** The handshake *)

Lemma bytes_eqb_false a b : bytes_eqb a b = false -> a ≠ b.
Proof. intros H ->. by rewrite (proj2 (bytes_eqb_true b b) eq_refl) in H. Qed.


(** What the libraries promise of digests of twenty bytes. *)
Record hash_ok (k : hash_lib) (sha1 base64 : bytes -> bytes) : Prop := {
  sha_final : forall t, wc_ShaFinal k t = Some (sha1 t) \/ wc_ShaFinal k t = None;
  sha_length : forall t, length (sha1 t) = 20;
  base64_encode : forall d n, Base64_Encode_NoNl k d n = Some (base64 d) \/ Base64_Encode_NoNl k d n = None;
  base64_length : forall d, length d = 20 -> length (base64 d) = IOH_WS_ACCEPT_KEY_LEN;
}.

Definition occurs_ci (needle hay : bytes) : Prop := exists a b, to_lower <$> hay = a ++ (to_lower <$> needle) ++ b.

Lemma strcasestr_from_spec hay needle : strcasestr_from hay needle = true <-> occurs_ci needle hay.
Proof.
  assert (Hhere : forall h, bytes_eqb (to_lower <$> take (length needle) h) (to_lower <$> needle) = true <-> exists b, to_lower <$> h = (to_lower <$> needle) ++ b).
  { intros h. rewrite bytes_eqb_true. split.
    - intros E. exists (to_lower <$> drop (length needle) h). rewrite <- E, <- fmap_app, take_drop. done.
    - intros [b E]. rewrite fmap_take, E, take_app_le, take_ge; rewrite ?length_fmap; done. }
  induction hay as [|c hay IH]; cbn [strcasestr_from]; rewrite orb_true_iff, Hhere.
  - split; [intros [[b E]|]; [exists [], b; done|done]|]. intros (a & b & E). left. destruct a; [by exists b|discriminate].
  - rewrite IH. split.
    + intros [[b E]|(a & b & E)]; [exists [], b; done|]. exists (to_lower c :: a), b. rewrite fmap_cons, E. done.
    + intros (a & b & E). destruct a as [|x a]; [left; by exists b|right]. exists a, b. rewrite fmap_cons in E. by injection E.
Qed.

Lemma validate_iff method upgrade conn key version :
  ioh_ws_validate_upgrade (Some method) (Some upgrade) (Some conn) (Some key) (Some version) = Ok ()
  <-> lower (c_str method) = bs "get" /\ lower (c_str upgrade) = bs "websocket" /\ occurs_ci (bs "upgrade") (c_str conn)
      /\ c_str key ≠ [] /\ c_str version = bs "13".
Proof.
  unfold ioh_ws_validate_upgrade, strcasecmp_eq, strcmp_eq, strcasestr.
  change (to_lower <$> c_str (bs "GET")) with (bs "get"). change (to_lower <$> c_str (bs "websocket")) with (bs "websocket").
  change (c_str (bs "Upgrade")) with (bs "Upgrade"). change (c_str (bs "13")) with (bs "13"). fold (lower (c_str method)) (lower (c_str upgrade)).
  destruct (bytes_eqb (lower (c_str method)) (bs "get")) eqn:E1; [apply bytes_eqb_true in E1|apply bytes_eqb_false in E1; simpl; split; [done|intros (? & _); done]].
  destruct (bytes_eqb (lower (c_str upgrade)) (bs "websocket")) eqn:E2; [apply bytes_eqb_true in E2|apply bytes_eqb_false in E2; simpl; split; [done|intros (_ & ? & _); done]].
  assert (E3 := strcasestr_from_spec (c_str conn) (bs "Upgrade")). assert (Eo : occurs_ci (bs "Upgrade") (c_str conn) <-> occurs_ci (bs "upgrade") (c_str conn)) by done.
  destruct (strcasestr_from (c_str conn) (bs "Upgrade")); [|simpl; split; [done|intros (_ & _ & H & _); apply Eo, E3 in H; done]]. cbn [negb].
  unfold strlen. destruct (c_str key) as [|x t] eqn:Ek; [simpl; split; [done|by intros (_ & _ & _ & ? & _)]|]. cbn [length Nat.eqb].
  destruct (bytes_eqb (c_str version) (bs "13")) eqn:E5; [apply bytes_eqb_true in E5|apply bytes_eqb_false in E5; simpl; split; [done|by intros (_ & _ & _ & _ & ?)]].
  simpl. split; [|done]. intros _. split; [done|]. split; [done|]. split; [by apply Eo, E3|]. done.
Qed.

Lemma accept_key k sha1 base64 key :
  hash_ok k sha1 base64 ->
  match ioh_ws_compute_accept k (Some key) with
  | Ok out => strlen key ≤ 27 /\ out = base64 (sha1 (c_str key ++ WS_GUID)) /\ length out = IOH_WS_ACCEPT_KEY_LEN
  | Err e => e = EINVAL /\ (28 ≤ strlen key \/ wc_InitSha k = false \/ wc_ShaUpdate k = false
                            \/ wc_ShaFinal k (c_str key ++ WS_GUID) = None \/ Base64_Encode_NoNl k (sha1 (c_str key ++ WS_GUID)) 29 = None)
  end.
Proof.
  intros [Hs Hsl Hb Hbl].
  unfold ioh_ws_compute_accept. change (length WS_GUID) with 36. unfold CONCAT_SIZE.
  assert (Ht : take (strlen key) key = c_str key) by (symmetry; apply span_fst_take).
  rewrite Ht. destruct (Nat.leb_spec 64 (strlen key + 36)); [split; [done|left; lia]|].
  destruct (wc_InitSha k) eqn:E1; cbn [negb]; [|auto]. destruct (wc_ShaUpdate k) eqn:E2; cbn [negb]; [|auto 6].
  destruct (Hs (c_str key ++ WS_GUID)) as [E3|E3]; rewrite E3; [|split; [done|auto 8]].
  change (IOH_WS_ACCEPT_KEY_LEN + 1) with 29. destruct (Hb (sha1 (c_str key ++ WS_GUID)) 29) as [E4|E4]; rewrite E4; [|split; [done|auto 8]].
  split; [lia|]. split; [done|]. by apply Hbl.
Qed.

(** The token [upgrade], in any case, is in a comma-separated list. *)
Definition lists_upgrade (v : bytes) : Prop :=
  exists a b, to_lower <$> v = a ++ bs "upgrade" ++ b
    /\ (a = [] \/ last a = Some ","%byte \/ last a = Some SP) /\ (b = [] \/ head b = Some ","%byte \/ head b = Some SP).

(** C30: The handshake.  Let the digest and encoding libraries compute one digest and one
    encoding, or fail.  A request is accepted only if no argument is null, its method is
    GET in any case, its Upgrade header contains [websocket] and its Connection header
    contains [upgrade], in any case, its key is not empty and its version is 13; and every GET
    request with the Upgrade header [websocket] and the token [upgrade] in its Connection
    header, both in any case, and such a key and version is accepted; whatever is not accepted, null arguments included, is an
    EINVAL.  The answer to a key of up to 27 bytes is the base64 of the SHA-1 digest of the
    key and the GUID, 28 bytes long; a null key, a longer key and a failure of the libraries
    are EINVAL. *)
Theorem ws_handshake k sha1 base64 :
  hash_ok k sha1 base64 ->
  (forall m u c ky v, ioh_ws_validate_upgrade m u c ky v = Ok () ->
     exists method upgrade conn key version, m = Some method /\ u = Some upgrade /\ c = Some conn /\ ky = Some key /\ v = Some version
       /\ lower (c_str method) = bs "get" /\ occurs_ci (bs "websocket") (c_str upgrade) /\ occurs_ci (bs "upgrade") (c_str conn)
       /\ c_str key ≠ [] /\ c_str version = bs "13")
  /\ (forall method upgrade conn key version,
       c_str method = bs "GET" -> lower (c_str upgrade) = bs "websocket" -> lists_upgrade (c_str conn) ->
       c_str key ≠ [] -> c_str version = bs "13" ->
       ioh_ws_validate_upgrade (Some method) (Some upgrade) (Some conn) (Some key) (Some version) = Ok ())
  /\ (forall m u c ky v, ioh_ws_validate_upgrade m u c ky v = Ok () \/ ioh_ws_validate_upgrade m u c ky v = Err EINVAL)
  /\ ioh_ws_compute_accept k None = Err EINVAL
  /\ forall key,
     match ioh_ws_compute_accept k (Some key) with
     | Ok out => strlen key ≤ 27 /\ out = base64 (sha1 (c_str key ++ WS_GUID)) /\ length out = IOH_WS_ACCEPT_KEY_LEN
     | Err e => e = EINVAL /\ (28 ≤ strlen key \/ wc_InitSha k = false \/ wc_ShaUpdate k = false
                               \/ wc_ShaFinal k (c_str key ++ WS_GUID) = None \/ Base64_Encode_NoNl k (sha1 (c_str key ++ WS_GUID)) 29 = None)
     end.
Proof.
  intros Hk. split_and!.
  - intros m u c ky v E. destruct m as [m|], u as [u|], c as [c|], ky as [ky|], v as [v|]; try discriminate E.
    apply validate_iff in E as (H1 & H2 & H3 & H4 & H5). exists m, u, c, ky, v. split_and!; try done.
    exists [], []. by rewrite app_nil_r.
  - intros m u c ky v H1 H2 H3 H4 H5. apply validate_iff. split_and!; try done; [by rewrite H1|].
    destruct H3 as (a & b & E & _). by exists a, b.
  - intros m u c ky v. unfold ioh_ws_validate_upgrade. destruct m, u, c, ky, v; auto. repeat case_match; auto.
  - done.
  - intros key. by apply accept_key.
Qed.

(** Stand-ins for the digest and the encoder. *)
Definition demo_sha1 (t : bytes) : bytes := take 20 (t ++ repeat NUL 20).
Definition demo_base64 (d : bytes) : bytes := take 28 (d ++ repeat "="%byte 28).
Definition demo_hash : hash_lib := mk_hash true true (fun t => Some (demo_sha1 t)) (fun d _ => Some (demo_base64 d)).

Lemma demo_hash_ok : hash_ok demo_hash demo_sha1 demo_base64.
Proof.
  split; [by left| |by left|]; intros; unfold demo_sha1, demo_base64, IOH_WS_ACCEPT_KEY_LEN; rewrite length_take, length_app; cbn [length repeat]; lia.
Qed.

Lemma ws_handshake_witness :
  ioh_ws_validate_upgrade (Some (bs "GET")) (Some (bs "WebSocket")) (Some (bs "keep-alive, Upgrade")) (Some (bs "dGhlIHNhbXBsZSBub25jZQ==")) (Some (bs "13")) = Ok ()
  /\ ioh_ws_compute_accept demo_hash (Some (bs "dGhlIHNhbXBsZSBub25jZQ==")) = Ok (bs "dGhlIHNhbXBsZSBub25j========").
Proof.
  destruct (ws_handshake demo_hash demo_sha1 demo_base64 demo_hash_ok) as (_ & H1 & _ & _ & H2).
  split.
  - apply H1; [reflexivity|reflexivity| |discriminate|reflexivity]. exists (bs "keep-alive, "), [].
    split; [reflexivity|]. split; [right; right; reflexivity|left; reflexivity].
  - specialize (H2 (bs "dGhlIHNhbXBsZSBub25jZQ==")).
    destruct (ioh_ws_compute_accept demo_hash (Some (bs "dGhlIHNhbXBsZSBub25jZQ=="))) as [out|e] eqn:E; [|vm_compute in E; discriminate].
    destruct H2 as (_ & -> & _). reflexivity.
Defined.

(** The Connection header is searched for the word anywhere, also inside another token. *)
Example upgrade_inside_token :
  ioh_ws_validate_upgrade (Some (bs "GET")) (Some (bs "websocket")) (Some (bs "no-upgrades")) (Some (bs "x")) (Some (bs "13")) = Ok ().
Proof. vm_compute. reflexivity. Qed.
