(* ===== verification/Buffer.v ===== *)
(** * Buffer pools

    core/ioh_buffer.c: provided buffers in an io_uring buffer ring, registered buffers and
    registered file slots.

    liburing is a parameter: [uring] has the results of the next registrations and the
    kernel's file table; a buffer ring is a value of a type [B] with the operations of
    [BufRing], whose documented effect on the memory shared with the kernel (an array, the
    application's tail and the kernel's head, 16-bit counters) is [BufRingLaws].  Buffers are
    named by their offset in the pool's storage. *)
From S2P Require Import Prelude.
From stdpp Require Import gmap.
Local Open Scope nat_scope.

(** ** liburing *)

(** Results of the next registration calls; when they are used up, a call succeeds. *)
Record uring := mk_uring { ur_results : list Z; ur_files : list Z }.

Definition ur_next (u : uring) : Z * uring :=
  match ur_results u with
  | [] => (0%Z, u)
  | r :: rs => (r, mk_uring rs (ur_files u))
  end.

Definition ur_set_files (u : uring) (fs : list Z) : uring := mk_uring (ur_results u) fs.

Record ring_entry := mk_entry { e_addr : nat; e_len : nat; e_bid : Z }.

Definition u16 (z : Z) : Z := (z mod 65536)%Z.

(** What application and kernel share of a ring: [br_tail] is published to the kernel, which
    has consumed up to [br_head]. *)
Record ring_view := mk_view { br_slots : gmap Z ring_entry; br_tail : Z; br_head : Z }.

(** A ring as [io_uring_setup_buf_ring] gives it, the operations on it, and the kernel, which
    takes the entry at its head for a completion, if there is one. *)
Class BufRing (B : Type) := {
  io_uring_setup_buf_ring : B;
  io_uring_buf_ring_add : B -> nat -> nat -> Z -> Z -> Z -> B;
  io_uring_buf_ring_advance : B -> Z -> B;
  io_uring_buf_ring_mask : nat -> Z;
  kernel_take : B -> nat -> option (ring_entry * B);
}.

(** [io_uring_buf_ring_add] stores an entry [offset] places after the tail,
    [io_uring_buf_ring_advance] publishes [count] entries. *)
Class BufRingLaws (B : Type) `{BufRing B} := {
  view : B -> ring_view;
  setup_view : view io_uring_setup_buf_ring = mk_view ∅ 0 0;
  add_view br addr len bid mask offset :
    view (io_uring_buf_ring_add br addr len bid mask offset)
    = mk_view (<[Z.land (br_tail (view br) + offset) mask := mk_entry addr len bid]> (br_slots (view br))) (br_tail (view br)) (br_head (view br));
  advance_view br count :
    view (io_uring_buf_ring_advance br count) = mk_view (br_slots (view br)) (u16 (br_tail (view br) + count)) (br_head (view br));
  mask_entries n : io_uring_buf_ring_mask n = (Z.of_nat n - 1)%Z;
  take_empty br n : br_head (view br) = br_tail (view br) -> kernel_take br n = None;
  take_next br n e :
    br_head (view br) ≠ br_tail (view br) -> br_slots (view br) !! Z.land (br_head (view br)) (Z.of_nat n - 1) = Some e ->
    exists br', kernel_take br n = Some (e, br') /\ view br' = mk_view (br_slots (view br)) (br_tail (view br)) (u16 (br_head (view br) + 1));
}.

(** ** Data *)

Record ioh_bufpool_config_t := mk_bufpool_config {
  ring_size : nat;
  buf_size : nat;
  bgid : Z;
  reg_buf_count : nat;
  reg_buf_size : nat;
  reg_file_count : nat;
}.

(** [bp_iovs]: offset and length of the registered buffers; [bp_slots]: the file slots, or
    a null pointer. *)
Record ioh_bufpool (B : Type) := mk_pool {
  bp_config : ioh_bufpool_config_t;
  bp_ring : option B;
  bp_ring_registered : bool;
  bp_iovs : list (nat * nat);
  bp_bufs_registered : bool;
  bp_slots : option (list Z);
  bp_files_registered : bool;
}.
Arguments mk_pool {B}.
Arguments bp_config {B}.
Arguments bp_ring {B}.
Arguments bp_ring_registered {B}.
Arguments bp_iovs {B}.
Arguments bp_bufs_registered {B}.
Arguments bp_slots {B}.
Arguments bp_files_registered {B}.

(** ** Lifecycle *)

Definition is_power_of_2 (v : Z) : bool := negb (v =? 0)%Z && (Z.land v (v - 1) =? 0)%Z.

Definition ioh_bufpool_config_init : ioh_bufpool_config_t := mk_bufpool_config 128 (Z.to_nat 4096) 0 0 (Z.to_nat 16384) 0.

Definition ioh_bufpool_config_validate (cfg : ioh_bufpool_config_t) : res unit :=
  if ring_size cfg =? 0 then Err EINVAL
  else if negb (is_power_of_2 (Z.of_nat (ring_size cfg))) then Err EINVAL
  else if buf_size cfg =? 0 then Err EINVAL
  else if (0 <? reg_buf_count cfg) && (reg_buf_size cfg =? 0) then Err EINVAL
  else Ok ().

Section Pool.
Context {B : Type} `{BufRing B}.
Local Abbreviation bufpool := (ioh_bufpool B).

Definition ioh_bufpool_create (cfg : ioh_bufpool_config_t) (h : heap) : option bufpool * heap :=
  match ioh_bufpool_config_validate cfg with
  | Err _ => (None, h)
  | Ok _ =>
      let '(ok, h) := xalloc h in
      if negb ok then (None, h) else
      let '(ok, h) := xalloc h in
      if negb ok then (None, h) else
      if 0 <? reg_buf_count cfg then
        let '(ok, h) := xalloc h in
        if negb ok then (None, h) else
        let '(ok, h) := xalloc h in
        if negb ok then (None, h) else
        (Some (mk_pool cfg None false ((fun i => (i * reg_buf_size cfg, reg_buf_size cfg)) <$> seq 0 (reg_buf_count cfg)) false None false), h)
      else (Some (mk_pool cfg None false [] false None false), h)
  end.

(** The unregistrations a destroyed pool asks for: ring, buffers, files. *)
Definition ioh_bufpool_destroy (pool : bufpool) : bool * bool * bool :=
  (bp_ring_registered pool && match bp_ring pool with Some _ => true | None => false end, bp_bufs_registered pool, bp_files_registered pool).

(** ** Registration *)

Definition add_buffer (cfg : ioh_bufpool_config_t) (br : B) (buf_id : nat) (offset : Z) : B :=
  io_uring_buf_ring_add br (buf_id * buf_size cfg) (buf_size cfg) (u16 (Z.of_nat buf_id)) (io_uring_buf_ring_mask (ring_size cfg)) offset.

Definition with_ring (pool : bufpool) (br : B) : bufpool :=
  mk_pool (bp_config pool) (Some br) true (bp_iovs pool) (bp_bufs_registered pool) (bp_slots pool) (bp_files_registered pool).

(** Error codes of the kernel are passed on as they are. *)
Definition ioh_bufpool_register_ring (pool : bufpool) (u : uring) : (unit + (errno + Z)) * bufpool * uring :=
  if bp_ring_registered pool then (inr (inl EALREADY), pool, u) else
  let '(r, u) := ur_next u in
  if (r <? 0)%Z then (inr (inr r), pool, u) else
  let n := ring_size (bp_config pool) in
  let br := fold_left (fun br i => add_buffer (bp_config pool) br i (Z.of_nat i)) (seq 0 n) io_uring_setup_buf_ring in
  (inl (), with_ring pool (io_uring_buf_ring_advance br (Z.of_nat n)), u).

Definition ioh_bufpool_register_bufs (pool : bufpool) (u : uring) : (unit + (errno + Z)) * bufpool * uring :=
  if reg_buf_count (bp_config pool) =? 0 then (inr (inl EINVAL), pool, u) else
  if bp_bufs_registered pool then (inr (inl EALREADY), pool, u) else
  let '(r, u) := ur_next u in
  if (r <? 0)%Z then (inr (inr r), pool, u) else
  (inl (), mk_pool (bp_config pool) (bp_ring pool) (bp_ring_registered pool) (bp_iovs pool) true (bp_slots pool) (bp_files_registered pool), u).

Definition with_slots (pool : bufpool) (s : option (list Z)) (registered : bool) : bufpool :=
  mk_pool (bp_config pool) (bp_ring pool) (bp_ring_registered pool) (bp_iovs pool) (bp_bufs_registered pool) s registered.

Definition ioh_bufpool_register_files (pool : bufpool) (u : uring) (h : heap) : (unit + (errno + Z)) * bufpool * uring * heap :=
  if reg_file_count (bp_config pool) =? 0 then (inr (inl EINVAL), pool, u, h) else
  if bp_files_registered pool then (inr (inl EALREADY), pool, u, h) else
  let '(ok, h) := xalloc h in
  if negb ok then (inr (inl ENOMEM), with_slots pool None false, u, h) else
  let slots := repeat (-1)%Z (reg_file_count (bp_config pool)) in
  let '(r, u) := ur_next u in
  if (r <? 0)%Z then (inr (inr r), with_slots pool None false, u, h)
  else (inl (), with_slots pool (Some slots) true, ur_set_files u slots, h).

(** ** Provided and registered buffers *)

Definition ioh_bufpool_get_buf (pool : bufpool) (buf_id : nat) : option nat :=
  if ring_size (bp_config pool) <=? buf_id then None else Some (buf_id * buf_size (bp_config pool)).

Definition ioh_bufpool_return_buf (pool : bufpool) (buf_id : nat) : bufpool :=
  match bp_ring pool with
  | None => pool
  | Some br =>
      if ring_size (bp_config pool) <=? buf_id then pool
      else mk_pool (bp_config pool) (Some (io_uring_buf_ring_advance (add_buffer (bp_config pool) br buf_id 0) 1)) (bp_ring_registered pool)
             (bp_iovs pool) (bp_bufs_registered pool) (bp_slots pool) (bp_files_registered pool)
  end.

Definition ioh_bufpool_get_reg_buf (pool : bufpool) (idx : nat) : option nat :=
  if reg_buf_count (bp_config pool) <=? idx then None else Some (idx * reg_buf_size (bp_config pool)).

(** ** File slots *)

Fixpoint free_slot (slots : list Z) (i : nat) : option nat :=
  match slots with
  | [] => None
  | fd :: slots => if (fd =? -1)%Z then Some i else free_slot slots (S i)
  end.

Definition ioh_bufpool_register_fd (pool : bufpool) (u : uring) (fd : Z) : (nat + (errno + Z)) * bufpool * uring :=
  match bp_files_registered pool, bp_slots pool with
  | true, Some slots =>
      if (fd <? 0)%Z then (inr (inl EBADF), pool, u) else
      match free_slot slots 0 with
      | None => (inr (inl ENOSPC), pool, u)
      | Some slot =>
          let '(r, u) := ur_next u in
          if (r <? 0)%Z then (inr (inr r), pool, u)
          else (inl slot, with_slots pool (Some (<[slot := fd]> slots)) true, ur_set_files u (<[slot := fd]> (ur_files u)))
      end
  | _, _ => (inr (inl EINVAL), pool, u)
  end.

(** The kernel's answer is not looked at. *)
Definition ioh_bufpool_unregister_fd (pool : bufpool) (u : uring) (slot : Z) : bufpool * uring :=
  match bp_files_registered pool, bp_slots pool with
  | true, Some slots =>
      if (slot <? 0)%Z || (Z.of_nat (reg_file_count (bp_config pool)) <=? slot)%Z then (pool, u) else
      let i := Z.to_nat slot in
      let '(r, u) := ur_next u in
      (with_slots pool (Some (<[i := (-1)%Z]> slots)) true, if (r <? 0)%Z then u else ur_set_files u (<[i := (-1)%Z]> (ur_files u)))
  | _, _ => (pool, u)
  end.

Definition ioh_bufpool_ring_size (pool : bufpool) : nat := ring_size (bp_config pool).
Definition ioh_bufpool_buf_size (pool : bufpool) : nat := buf_size (bp_config pool).
Definition ioh_bufpool_reg_buf_count (pool : bufpool) : nat := reg_buf_count (bp_config pool).
Definition ioh_bufpool_reg_file_count (pool : bufpool) : nat := reg_file_count (bp_config pool).
End Pool.

(** ** The ring is a queue *)

Definition entry_of (bs b : nat) : ring_entry := mk_entry (b * bs) bs (Z.of_nat b).

(** The ring holds the buffers of the queue, from the kernel's head on; [h] counts what the
    kernel took since the beginning. *)
Definition holds_queue (n bs : nat) (br : ring_view) (q : list nat) : Prop :=
  exists h : Z, (0 <= h)%Z /\ br_head br = u16 h /\ br_tail br = u16 (h + Z.of_nat (length q))
    /\ forall i b, q !! i = Some b -> br_slots br !! ((h + Z.of_nat i) mod Z.of_nat n)%Z = Some (entry_of bs b).

(** A size the kernel accepts: a power of two up to 2^15. *)
Definition ring_size_ok (n : nat) : Prop := exists k, (0 <= k <= 15)%Z /\ Z.of_nat n = (2 ^ k)%Z.

Lemma ring_index n z : ring_size_ok n -> Z.land (u16 z) (Z.of_nat n - 1) = (z mod Z.of_nat n)%Z.
Proof.
  intros (k & Hk & Hn). unfold u16. rewrite Hn. replace (2 ^ k - 1)%Z with (Z.ones k) by (rewrite Z.ones_equiv; lia).
  rewrite Z.land_ones by lia. apply Z.mod_mod_divide.
  exists (2 ^ (16 - k))%Z. rewrite <- Z.pow_add_r by lia. by replace (16 - k + k)%Z with 16%Z by lia.
Qed.

Lemma ring_bounds n : ring_size_ok n -> (1 <= Z.of_nat n <= 32768)%Z.
Proof.
  intros (k & Hk & ->). split; [pose proof (Z.pow_pos_nonneg 2 k); lia|]. change 32768%Z with (2 ^ 15)%Z. apply Z.pow_le_mono_r; lia.
Qed.

Section Queue.
Context {B : Type} `{BR : BufRing B} `{BL : !BufRingLaws B}.
Local Abbreviation bufpool := (ioh_bufpool B).

Lemma kernel_take_queue n bs (br : B) q :
  ring_size_ok n -> length q ≤ n -> holds_queue n bs (view br) q ->
  match q with
  | [] => kernel_take br n = None
  | b :: q' => exists br', kernel_take br n = Some (entry_of bs b, br') /\ holds_queue n bs (view br') q'
  end.
Proof.
  intros Hn Hl (h & Hh & Eh & Et & Hs). pose proof (ring_bounds n Hn). destruct q as [|b q].
  - apply take_empty. rewrite Eh, Et. cbn [length]. by rewrite Z.add_0_r.
  - pose proof (Hs 0 b eq_refl) as H0. simpl in H0. rewrite Z.add_0_r, <- ring_index, <- Eh in H0 by done.
    assert (Hne : br_head (view br) ≠ br_tail (view br)).
    { rewrite Eh, Et. unfold u16. intros E. pose proof (Z.div_mod h 65536). pose proof (Z.div_mod (h + Z.of_nat (length (b :: q))) 65536).
      pose proof (Z.mod_pos_bound h 65536). pose proof (Z.mod_pos_bound (h + Z.of_nat (length (b :: q))) 65536). cbn [length] in *. nia. }
    destruct (take_next br n _ Hne H0) as (br' & Ht & Hv). exists br'. split; [done|]. rewrite Hv. exists (h + 1)%Z. simpl. rewrite Eh, Et. split; [lia|]. split; [unfold u16; by rewrite Zplus_mod_idemp_l|].
    split; [f_equal; cbn [length]; lia|]. intros i c Hc. specialize (Hs (S i) c Hc). replace (h + 1 + Z.of_nat i)%Z with (h + Z.of_nat (S i))%Z by lia. done.
Qed.

(** A buffer is added behind the others. *)
Lemma add_queue n bs (br : B) q b :
  ring_size_ok n -> length q < n -> b < n -> holds_queue n bs (view br) q ->
  forall cfg, ring_size cfg = n -> buf_size cfg = bs -> holds_queue n bs (view (io_uring_buf_ring_advance (add_buffer cfg br b 0) 1)) (q ++ [b]).
Proof.
  intros Hn Hl Hb (h & Hh & Eh & Et & Hs) cfg <- <-. pose proof (ring_bounds _ Hn). unfold add_buffer. rewrite advance_view, add_view, mask_entries. simpl.
  exists h. simpl. rewrite length_app. split; [done|]. split; [done|]. split.
  - rewrite Et. unfold u16. rewrite Zplus_mod_idemp_l. f_equal. simpl. lia.
  - rewrite Z.add_0_r, Et, ring_index by done. intros i c Hc.
    assert (Eb : u16 (Z.of_nat b) = Z.of_nat b) by (unfold u16; apply Z.mod_small; lia). rewrite Eb.
    destruct (decide (i < length q)) as [Hi|Hi].
    + rewrite lookup_app_l in Hc by done. rewrite lookup_insert_ne; [by apply Hs|]. intros E.
      pose proof (Z.div_mod (h + Z.of_nat (length q)) (Z.of_nat (ring_size cfg)) ltac:(lia)) as D1.
      pose proof (Z.div_mod (h + Z.of_nat i) (Z.of_nat (ring_size cfg)) ltac:(lia)) as D2. rewrite E in D1.
      set (d1 := ((h + Z.of_nat (length q)) / Z.of_nat (ring_size cfg))%Z) in *. set (d2 := ((h + Z.of_nat i) / Z.of_nat (ring_size cfg))%Z) in *.
      assert (D : (Z.of_nat (ring_size cfg) * (d1 - d2) = Z.of_nat (length q) - Z.of_nat i)%Z) by lia. clearbody d1 d2. clear D1 D2 E.
      destruct (Z.le_gt_cases (d1 - d2) 0); nia.
    + rewrite lookup_app_r in Hc by lia. destruct (i - length q) as [|j] eqn:Ej; [|by destruct j]. injection Hc as ->. replace i with (length q) by lia.
      by rewrite lookup_insert_eq.
Qed.

(** Filling the ring at registration: the offsets run ahead of the unpublished tail. *)
Lemma fill_ring cfg m :
  ring_size_ok (ring_size cfg) -> m ≤ ring_size cfg ->
  let br := fold_left (fun br i => add_buffer cfg br i (Z.of_nat i)) (seq 0 m) io_uring_setup_buf_ring in
  br_tail (view br) = 0%Z /\ br_head (view br) = 0%Z /\ forall i, i < m -> br_slots (view br) !! Z.of_nat i = Some (entry_of (buf_size cfg) i).
Proof.
  intros Hn. pose proof (ring_bounds _ Hn) as Hb. induction m as [|m IH]; intros Hm; [simpl; rewrite setup_view; by split; [|split; [|intros i; lia]]|].
  rewrite seq_S, fold_left_app. cbn [fold_left Nat.add]. destruct (IH ltac:(lia)) as (E1 & E2 & E3). set (br := fold_left _ _ _) in *. clearbody br.
  unfold add_buffer. rewrite add_view, mask_entries. simpl. split; [done|]. split; [done|]. intros i Hi.
  assert (Ei : Z.land (br_tail (view br) + Z.of_nat m) (Z.of_nat (ring_size cfg) - 1) = Z.of_nat m).
  { rewrite E1. replace (0 + Z.of_nat m)%Z with (u16 (Z.of_nat m)) by (unfold u16; rewrite Z.mod_small; lia). rewrite ring_index by done. apply Z.mod_small. lia. }
  rewrite Ei. assert (Eu : u16 (Z.of_nat m) = Z.of_nat m) by (unfold u16; apply Z.mod_small; lia). rewrite Eu.
  destruct (decide (i = m)) as [->|]; [by rewrite lookup_insert_eq|]. rewrite lookup_insert_ne by lia. apply E3. lia.
Qed.

(** The ring as it is registered. *)
Lemma fill_queue cfg :
  let n := ring_size cfg in ring_size_ok n ->
  holds_queue n (buf_size cfg)
    (view (io_uring_buf_ring_advance (fold_left (fun br i => add_buffer cfg br i (Z.of_nat i)) (seq 0 n) io_uring_setup_buf_ring) (Z.of_nat n))) (seq 0 n).
Proof.
  intros n Hn. destruct (fill_ring cfg n Hn (Nat.le_refl _)) as (E1 & E2 & E3). exists 0%Z. rewrite advance_view. cbn [br_head br_tail br_slots].
  rewrite E1, E2, length_seq. split; [lia|]. split; [done|]. split; [done|]. intros i b Hi. apply lookup_seq in Hi as [-> Hi]. simpl.
  rewrite Z.mod_small by lia. by apply E3.
Qed.

(** Something that keeps a ring of [ring_entries] buffers of [entry_size] bytes, and gives
    back a buffer it got from the kernel. *)
Class RingHolder (P : Type) := {
  held_ring : P -> option B;
  hold : P -> B -> P;
  ring_entries : P -> nat;
  entry_size : P -> nat;
  give_back : P -> ring_entry -> P;
}.

Class RingHolderLaws (P : Type) `{RingHolder P} := {
  held_hold p br : held_ring (hold p br) = Some br;
  shape_hold p br : ring_entries (hold p br) = ring_entries p /\ entry_size (hold p br) = entry_size p;
  shape_give p e : ring_entries (give_back p e) = ring_entries p /\ entry_size (give_back p e) = entry_size p;
  held_give p br b : held_ring p = Some br -> b < ring_entries p ->
    held_ring (give_back p (entry_of (entry_size p) b))
    = Some (io_uring_buf_ring_advance
              (io_uring_buf_ring_add br (b * entry_size p) (entry_size p) (u16 (Z.of_nat b)) (io_uring_buf_ring_mask (ring_entries p)) 0) 1);
}.

(** What happens to provided buffers: the kernel takes the next one for a completion, or
    the application gives back one of those it has. *)
Inductive buf_op := Take | GiveBack (i : nat).

Fixpoint run_ops {P} `{RingHolder P} (p : P) (taken : list ring_entry) (ops : list buf_op) : P * list ring_entry :=
  match ops with
  | [] => (p, taken)
  | Take :: ops =>
      match held_ring p with
      | Some br =>
          match kernel_take br (ring_entries p) with
          | Some (e, br) => run_ops (hold p br) (taken ++ [e]) ops
          | None => run_ops p taken ops
          end
      | None => run_ops p taken ops
      end
  | GiveBack i :: ops =>
      match taken !! i with
      | Some e => run_ops (give_back p e) (delete i taken) ops
      | None => run_ops p taken ops
      end
  end.

(** The same on a queue of identifiers. *)
Fixpoint queue_ops (q taken : list nat) (ops : list buf_op) : list nat * list nat :=
  match ops with
  | [] => (q, taken)
  | Take :: ops => match q with [] => queue_ops q taken ops | b :: q => queue_ops q (taken ++ [b]) ops end
  | GiveBack i :: ops => match taken !! i with Some b => queue_ops (q ++ [b]) (delete i taken) ops | None => queue_ops q taken ops end
  end.

Lemma run_ops_queue {P} `{RL : RingHolderLaws P} ops : forall (p : P) br q taken,
  let n := ring_entries p in let bs := entry_size p in
  ring_size_ok n -> held_ring p = Some br -> holds_queue n bs (view br) q -> q ++ taken ≡ₚ seq 0 n ->
  let '(p', taken') := run_ops p (entry_of bs <$> taken) ops in
  let '(q', t') := queue_ops q taken ops in
  taken' = entry_of bs <$> t' /\ q' ++ t' ≡ₚ seq 0 n /\ exists br', held_ring p' = Some br' /\ holds_queue n bs (view br') q'.
Proof.
  induction ops as [|[|i] ops IH]; intros p br q taken n bs Hn Hr Hq Hp; cbn [run_ops queue_ops].
  - split; [done|]. split; [done|]. eauto.
  - rewrite Hr. assert (Hl : length q ≤ n) by (apply Permutation_length in Hp; rewrite length_app, length_seq in Hp; lia).
    pose proof (kernel_take_queue n bs br q Hn Hl Hq) as Ht. fold n. destruct q as [|b q]; [rewrite Ht; by apply (IH p br)|].
    destruct Ht as (br' & Ht & Hq'). rewrite Ht. replace ((entry_of bs <$> taken) ++ [entry_of bs b]) with (entry_of bs <$> (taken ++ [b])) by (by rewrite fmap_app).
    specialize (IH (hold p br') br' q (taken ++ [b])). destruct (shape_hold p br') as [E1 E2]. rewrite E1, E2 in IH.
    apply IH; [done|apply held_hold|done|]. etransitivity; [|exact Hp]. rewrite app_assoc. by rewrite Permutation_app_comm.
  - rewrite list_lookup_fmap. destruct (taken !! i) as [b|] eqn:Ei; [|by apply (IH p br)]. cbn [fmap option_fmap option_map].
    assert (Hb : b < n). { assert (b ∈ seq 0 n) as Hin by (rewrite <- Hp; apply elem_of_app; right; by eapply list_elem_of_lookup_2). apply elem_of_seq in Hin. lia. }
    assert (Hdel : taken ≡ₚ b :: delete i taken) by (by apply delete_Permutation).
    assert (Hl : length q < n) by (apply Permutation_length in Hp; rewrite length_app, length_seq in Hp; pose proof (Permutation_length Hdel); simpl in *; lia).
    replace (delete i (entry_of bs <$> taken)) with (entry_of bs <$> delete i taken) by (apply list_fmap_delete).
    specialize (IH (give_back p (entry_of bs b))). destruct (shape_give p (entry_of bs b)) as [E1 E2]. rewrite E1, E2 in IH.
    eapply IH; [done|by apply held_give| |etransitivity; [|exact Hp]; rewrite <- app_assoc; simpl; by rewrite <- Hdel].
    apply (add_queue n bs br q b Hn Hl Hb Hq (mk_bufpool_config n bs 0 0 0 0)); done.
Qed.

#[export] Instance pool_holder : RingHolder bufpool := {
  held_ring := bp_ring;
  hold := with_ring;
  ring_entries pool := ring_size (bp_config pool);
  entry_size pool := buf_size (bp_config pool);
  give_back pool e := ioh_bufpool_return_buf pool (Z.to_nat (e_bid e));
}.

#[export] Instance pool_holder_laws : RingHolderLaws bufpool.
Proof.
  split; [done|done|..].
  - intros pool e. cbn. unfold ioh_bufpool_return_buf. destruct (bp_ring pool); [|done]. by destruct (_ <=? _).
  - intros pool br b Hr Hb. cbn in *. unfold ioh_bufpool_return_buf. rewrite Hr, Nat2Z.id.
    by replace (ring_size (bp_config pool) <=? b) with false by (symmetry; by apply Nat.leb_gt).
Qed.

(** C31: Provided buffers form a queue.  Once the ring of a pool with a valid size is
    registered, any sequence of completions that take a buffer and of buffers given back
    behaves as a queue of the buffer identifiers: each completion gets the oldest buffer,
    with its own part of the storage, none when all are out; the counters' 16-bit
    wrap-around does not show; and every buffer is at any time either in the ring or with
    the application, in exactly one place. *)
Theorem provided_buffers_queue (pool : bufpool) u pool' u' ops :
  let n := ring_size (bp_config pool) in let bs := buf_size (bp_config pool) in
  ring_size_ok n -> ioh_bufpool_register_ring pool u = (inl (), pool', u') ->
  let '(pool2, taken) := run_ops pool' [] ops in
  let '(q, t) := queue_ops (seq 0 n) [] ops in
  taken = entry_of bs <$> t /\ q ++ t ≡ₚ seq 0 n /\ exists br, bp_ring pool2 = Some br /\ holds_queue n bs (view br) q.
Proof.
  intros n bs Hn. unfold ioh_bufpool_register_ring. destruct (bp_ring_registered pool); [done|]. destruct (ur_next u) as [r u1]. destruct (r <? 0)%Z; [done|].
  intros [= <- _]. set (br := io_uring_buf_ring_advance _ _).
  pose proof (run_ops_queue ops (with_ring pool br) br (seq 0 n) [] Hn eq_refl (fill_queue (bp_config pool) Hn)) as H. cbn [fmap list_fmap] in H.
  rewrite app_nil_r in H. exact (H (Permutation_refl _)).
Qed.
End Queue.

(** A ring that is nothing but the shared memory. *)
#[export] Instance plain_ring : BufRing ring_view := {
  io_uring_setup_buf_ring := mk_view ∅ 0 0;
  io_uring_buf_ring_add br addr len bid mask offset :=
    mk_view (<[Z.land (br_tail br + offset) mask := mk_entry addr len bid]> (br_slots br)) (br_tail br) (br_head br);
  io_uring_buf_ring_advance br count := mk_view (br_slots br) (u16 (br_tail br + count)) (br_head br);
  io_uring_buf_ring_mask n := (Z.of_nat n - 1)%Z;
  kernel_take br n :=
    if (br_head br =? br_tail br)%Z then None else
    e ← br_slots br !! Z.land (br_head br) (Z.of_nat n - 1);
    Some (e, mk_view (br_slots br) (br_tail br) (u16 (br_head br + 1)));
}.

#[export] Instance plain_ring_laws : BufRingLaws ring_view.
Proof.
  apply (Build_BufRingLaws _ _ (fun br => br)); try done.
  - intros br n E. simpl. by rewrite E, Z.eqb_refl.
  - intros br n e Hne He. simpl in *. apply Z.eqb_neq in Hne. rewrite Hne, He. eauto.
Defined.

Definition demo_pool : ioh_bufpool ring_view := mk_pool (mk_bufpool_config 4 100 0 0 0 2) None false [] false None false.

Lemma provided_buffers_queue_witness :
  exists br, bp_ring (fst (run_ops (snd (fst (ioh_bufpool_register_ring demo_pool (mk_uring [] [])))) [] [Take; Take; GiveBack 0; Take])) = Some br
    /\ holds_queue 4 100 (view br) [3; 0].
Proof.
  destruct (ioh_bufpool_register_ring demo_pool (mk_uring [] [])) as [[[[]|e] pool'] u'] eqn:E; [|vm_compute in E; discriminate].
  pose proof (provided_buffers_queue demo_pool (mk_uring [] []) pool' u' [Take; Take; GiveBack 0; Take] ltac:(exists 2%Z; split; [lia|reflexivity]) E) as H.
  cbn [fst snd]. destruct (run_ops pool' [] _) as [pool2 taken]. destruct H as (_ & _ & br & Hb & Hq). exists br. split; [exact Hb|exact Hq].
Defined.

(** ** File slots *)

Lemma free_slot_spec slots i :
  match free_slot slots i with
  | Some j => exists k, j = i + k /\ slots !! k = Some (-1)%Z /\ forall k', k' < k -> slots !! k' ≠ Some (-1)%Z
  | None => (-1)%Z ∉ slots
  end.
Proof.
  revert i. induction slots as [|fd slots IH]; intros i; cbn [free_slot]; [apply not_elem_of_nil|]. destruct (Z.eqb_spec fd (-1)) as [->|Hne].
  - exists 0. split; [lia|]. split; [done|]. lia.
  - specialize (IH (S i)). destruct (free_slot slots (S i)) as [j|].
    + destruct IH as (k & -> & Hk & Hm). exists (S k). split; [lia|]. split; [done|]. intros [|k'] Hk'; [simpl; congruence|]. apply Hm. lia.
    + apply not_elem_of_cons. done.
Qed.

(** The slots agree with the kernel's table. *)
Definition files_agree {B} (pool : ioh_bufpool B) (u : uring) : Prop :=
  bp_files_registered pool = true /\ bp_slots pool = Some (ur_files u) /\ length (ur_files u) = reg_file_count (bp_config pool).

(** Registering a descriptor uses the lowest free slot and refuses only when none is free;
    after every call the slots agree with the kernel's table, if the kernel did not refuse
    to clear a slot. *)
Theorem file_slots_agree {B} (pool : ioh_bufpool B) u fd slot :
  files_agree pool u ->
  (let '(r, pool', u') := ioh_bufpool_register_fd pool u fd in
   files_agree pool' u'
   /\ match r with
      | inl i => (0 <= fd)%Z /\ ur_files u !! i = Some (-1)%Z /\ (forall j, j < i -> ur_files u !! j ≠ Some (-1)%Z) /\ ur_files u' = <[i := fd]> (ur_files u)
      | inr (inl e) => (e = EBADF /\ (fd < 0)%Z) \/ (e = ENOSPC /\ (-1)%Z ∉ ur_files u)
      | inr (inr code) => (code < 0)%Z /\ ur_files u' = ur_files u
      end)
  /\ let '(pool', u') := ioh_bufpool_unregister_fd pool u slot in (0 <= fst (ur_next u))%Z -> files_agree pool' u'.
Proof.
  intros (Hr & Hs & Hl). unfold ioh_bufpool_register_fd, ioh_bufpool_unregister_fd. rewrite Hr, Hs.
  assert (Hnext : forall r u1, ur_next u = (r, u1) -> ur_files u1 = ur_files u).
  { intros r u1. unfold ur_next. destruct (ur_results u); by intros [= _ <-]. }
  split.
  - destruct (Z.ltb_spec fd 0); [split; [done|by left]|]. pose proof (free_slot_spec (ur_files u) 0) as Hf. destruct (free_slot (ur_files u) 0) as [i|]; [|split; [done|by right]].
    destruct Hf as (k & -> & Hk & Hm). destruct (ur_next u) as [r u1] eqn:En. specialize (Hnext _ _ eq_refl). destruct (Z.ltb_spec r 0).
    + split; [|done]. split; [done|]. rewrite Hnext. done.
    + split; [split; [done|]; simpl; rewrite Hnext, length_insert; done|]. simpl in *. rewrite Hnext. done.
  - destruct (_ || _) eqn:Eb.
    + intros _. done.
    + destruct (ur_next u) as [r u1] eqn:En. specialize (Hnext _ _ eq_refl). simpl. intros Hge. replace (r <? 0)%Z with false by (symmetry; by apply Z.ltb_ge).
      split; [done|]. simpl. rewrite Hnext, length_insert. done.
Qed.

(** When the kernel refuses to clear a slot, the pool takes it for free all the same. *)
Example unregister_ignores_refusal :
  let pool := mk_pool (B := ring_view) (mk_bufpool_config 4 100 0 0 0 2) None false [] false (Some [7%Z; (-1)%Z]) true in
  let '(pool', u') := ioh_bufpool_unregister_fd pool (mk_uring [(-9)%Z] [7%Z; (-1)%Z]) 0 in
  bp_slots pool' = Some [(-1)%Z; (-1)%Z] /\ ur_files u' = [7%Z; (-1)%Z].
Proof. vm_compute. auto. Qed.
