(* ===== verification/LoopBuf.v ===== *)
(** * Buffers of the event loop

    The part of core/ioh_loop.c that passes on liburing's registrations and keeps a ring
    of provided buffers of its own; liburing as in [Buffer].  Calls that only pass on a
    registration give the kernel's code as it is. *)
From S2P Require Import Prelude Loop Buffer.
Local Open Scope nat_scope.

(** The buffer fields of [struct ioh_loop]; the storage is allocated with the ring.  The
    capacity counts of both are [buf_count] and [buf_size]. *)
Record loop_bufs (B : Type) := mk_loop_bufs {
  lb_ring : option B;
  lb_count : nat;
  lb_size : nat;
  lb_bgid : Z;
}.
Arguments mk_loop_bufs {B}.
Arguments lb_ring {B}.
Arguments lb_count {B}.
Arguments lb_size {B}.
Arguments lb_bgid {B}.

Section LoopBuf.
Context {B : Type} `{BR : BufRing B}.
Local Abbreviation bufs := (loop_bufs B).

(** The fields of a loop that [ioh_loop_create] has zeroed. *)
Definition no_bufs : bufs := mk_loop_bufs None 0 0 0.

Definition loop_add (br : B) (i : nat) (count size : nat) : B :=
  io_uring_buf_ring_add br (i * size) size (u16 (Z.of_nat i)) (io_uring_buf_ring_mask count) (Z.of_nat i).

(** A ring that was set up before is replaced. *)
Definition ioh_loop_setup_buf_ring (l : bufs) (bgid : Z) (buf_count buf_size : nat) (u : uring) (h : heap) : (unit + (errno + Z)) * bufs * uring * heap :=
  if negb (Loop.is_power_of_2 (Z.of_nat buf_count)) then (inr (inl EINVAL), l, u, h) else
  if buf_size =? 0 then (inr (inl EINVAL), l, u, h) else
  let '(ok, h) := xalloc h in
  if negb ok then (inr (inl ENOMEM), l, u, h) else
  let '(r, u) := ur_next u in
  if (r <? 0)%Z then (inr (inr r), l, u, h) else
  let br := fold_left (fun br i => loop_add br i buf_count buf_size) (seq 0 buf_count) io_uring_setup_buf_ring in
  (inl (), mk_loop_bufs (Some (io_uring_buf_ring_advance br (Z.of_nat buf_count))) buf_count buf_size bgid, u, h).

(** [buf] is an offset in the storage; neither it nor the identifier is checked. *)
Definition ioh_loop_return_buf (l : bufs) (bgid : Z) (buf_id buf buf_size : nat) : bufs :=
  match lb_ring l with
  | None => l
  | Some br =>
      if negb (bgid =? lb_bgid l)%Z then l else
      let br := io_uring_buf_ring_add br buf buf_size (u16 (Z.of_nat buf_id)) (io_uring_buf_ring_mask (lb_count l)) 0 in
      mk_loop_bufs (Some (io_uring_buf_ring_advance br 1)) (lb_count l) (lb_size l) (lb_bgid l)
  end.

Definition ioh_loop_get_buf (l : bufs) (bgid : Z) (buf_id : nat) : option nat :=
  match lb_ring l with
  | None => None
  | Some _ =>
      if negb (bgid =? lb_bgid l)%Z then None
      else if lb_count l <=? buf_id then None else Some (buf_id * lb_size l)
  end.

(** Whether a ring is handed back to the kernel before the loop is freed. *)
Definition ioh_loop_destroy (l : bufs) : bool := match lb_ring l with Some _ => true | None => false end.

(** ** Registrations *)

Definition pass_on (u : uring) : (unit + (errno + Z)) * uring :=
  let '(r, u) := ur_next u in ((if (r <? 0)%Z then inr (inr r) else inl ()), u).

(** [nr] is the length of the array, [None] a null pointer. *)
Definition ioh_loop_register_buffers (iovs : option (list (nat * nat))) (u : uring) : (unit + (errno + Z)) * uring :=
  match iovs with
  | Some (_ :: _) => pass_on u
  | _ => (inr (inl EINVAL), u)
  end.

Definition ioh_loop_unregister_buffers (u : uring) : (unit + (errno + Z)) * uring := pass_on u.

(** The kernel's table becomes the given one. *)
Definition ioh_loop_register_files (fds : option (list Z)) (u : uring) : (unit + (errno + Z)) * uring :=
  match fds with
  | Some (fd :: fds) =>
      match pass_on u with
      | (inl _, u) => (inl (), ur_set_files u (fd :: fds))
      | other => other
      end
  | _ => (inr (inl EINVAL), u)
  end.

Definition ioh_loop_unregister_files (u : uring) : (unit + (errno + Z)) * uring :=
  match pass_on u with
  | (inl _, u) => (inl (), ur_set_files u [])
  | other => other
  end.

(** ** The ring is a queue *)

Context `{BL : !BufRingLaws B}.

#[export] Instance loop_holder : RingHolder bufs := {
  held_ring := lb_ring;
  hold l br := mk_loop_bufs (Some br) (lb_count l) (lb_size l) (lb_bgid l);
  ring_entries := lb_count;
  entry_size := lb_size;
  give_back l e := ioh_loop_return_buf l (lb_bgid l) (Z.to_nat (e_bid e)) (e_addr e) (e_len e);
}.

#[export] Instance loop_holder_laws : RingHolderLaws bufs.
Proof.
  split; [done|done|..].
  - intros l e. cbn. unfold ioh_loop_return_buf. destruct (lb_ring l); [|done]. by rewrite Z.eqb_refl.
  - intros l br b Hr Hb. cbn in *. unfold ioh_loop_return_buf. rewrite Hr, Z.eqb_refl, Nat2Z.id. done.
Qed.

(** The buffers of the loop form a queue.  Once a ring of a size the kernel accepts is set
    up, any sequence of completions that take a buffer and of buffers given back with
    the address and length they came with behaves as a queue of the identifiers, and every
    buffer is in exactly one place. *)
Theorem loop_buffers_queue (l : bufs) bgid n bs u h l' u' h' ops :
  ring_size_ok n -> ioh_loop_setup_buf_ring l bgid n bs u h = (inl (), l', u', h') ->
  let '(l2, taken) := run_ops l' [] ops in
  let '(q, t) := queue_ops (seq 0 n) [] ops in
  taken = entry_of bs <$> t /\ q ++ t ≡ₚ seq 0 n /\ exists br, lb_ring l2 = Some br /\ holds_queue n bs (view br) q.
Proof.
  intros Hn. unfold ioh_loop_setup_buf_ring. destruct (negb _); [done|]. destruct (bs =? 0); [done|]. destruct (xalloc h) as [[] h1]; [|done]. cbn [negb].
  destruct (ur_next u) as [r u1]. destruct (r <? 0)%Z; [done|]. intros [= <- _ _].
  match goal with |- context [run_ops ?l0 [] ops] => pose proof (run_ops_queue ops l0 _ (seq 0 n) [] Hn eq_refl (fill_queue (mk_bufpool_config n bs 0 0 0 0) Hn)) as H end.
  cbn [fmap list_fmap] in H. rewrite app_nil_r in H. exact (H (Permutation_refl _)).
Qed.

(** A second set-up forgets the first ring, which stays registered. *)
Lemma setup_twice_forgets l bgid n bs l' u' h' :
  ring_size_ok n -> bs ≠ 0 -> ioh_loop_setup_buf_ring l bgid n bs (mk_uring [] []) [] = (inl (), l', u', h') ->
  exists l2, ioh_loop_setup_buf_ring l' (bgid + 1) n bs u' h' = (inl (), l2, u', h') /\ lb_bgid l2 ≠ lb_bgid l'.
Proof.
  intros Hn Hb. unfold ioh_loop_setup_buf_ring. destruct (negb _); [done|]. replace (bs =? 0) with false by (symmetry; by apply Nat.eqb_neq).
  cbn. intros [= <- <- <-]. cbn. eexists. split; [done|]. cbn. lia.
Qed.
End LoopBuf.
