(* ===== verification/Health.v ===== *)
(** * Health endpoints and logging

    core/ioh_health.c: the configuration, the three handlers and their registration, in the
    build without yyjson, whose JSON text is put together in a buffer of 1024 bytes; and
    core/ioh_log.c: the level filter and the sinks.

    A checker is a function on the world [W] it looks at.  Where a definition gives [None]
    the code would store outside the buffer. *)
From S2P Require Import Prelude CString Request RequestThms PathNorm Radix Router Response ResponseThms Ctx CtxThms Dates Static.
Local Open Scope nat_scope.

(** ** JSON strings *)

Definition BACKSLASH : byte := x5c.

(** [\u%04x]. *)
Definition u_escape (b : byte) : bytes :=
  BACKSLASH :: bs "u00" ++ [hex_digit (b2z b / 16); hex_digit (b2z b mod 16)].

Definition escape_byte (b : byte) : bytes :=
  if (b =b DQUOTE) || (b =b BACKSLASH) then [BACKSLASH; b]
  else if (b2z b <? 32)%Z then u_escape b else [b].

(** The text stored before the NUL, and whether all of the source was; the source is a C
    string. *)
Fixpoint escape_loop (dst_size : nat) (src acc : bytes) : bool * bytes :=
  match src with
  | [] => (true, acc)
  | b :: src => if dst_size <=? length acc + length (escape_byte b) then (false, acc) else escape_loop dst_size src (acc ++ escape_byte b)
  end.

Definition json_escape (dst_size : nat) (src : bytes) : bool * bytes := escape_loop dst_size (c_str src) [].

(** ** Configuration *)

Definition IOH_HEALTH_MAX_CHECKS : nat := 8.

Section Health.
Context {W : Type}.

(** The result code and the message, if any. *)
Record ioh_health_checker_t := mk_checker {
  hc_name : bytes;
  hc_check : W -> (Z * option bytes) * W;
}.

Record ioh_health_config_t := mk_health {
  hc_enabled : bool;
  hc_health_path : option bytes;
  hc_ready_path : option bytes;
  hc_live_path : option bytes;
  hc_checkers : list ioh_health_checker_t;     (* the first [checker_count] entries *)
}.

Definition ioh_health_config_init : ioh_health_config_t := mk_health true (Some (bs "/health")) (Some (bs "/ready")) (Some (bs "/live")) [].

Definition ioh_health_add_checker (cfg : option ioh_health_config_t) (name : option bytes) (check : option (W -> (Z * option bytes) * W))
    : res unit * option ioh_health_config_t :=
  match cfg, name, check with
  | Some cfg, Some name, Some check =>
      if IOH_HEALTH_MAX_CHECKS <=? length (hc_checkers cfg) then (Err ENOSPC, Some cfg)
      else (Ok (), Some (mk_health (hc_enabled cfg) (hc_health_path cfg) (hc_ready_path cfg) (hc_live_path cfg) (hc_checkers cfg ++ [mk_checker name check])))
  | _, _, _ => (Err EINVAL, cfg)
  end.

(** ** Handlers *)

Definition health_handler (h : heap) (c : ioh_ctx_t) : ctx_step :=
  ioh_ctx_json h c 200 (Some (bs "{" ++ [DQUOTE] ++ bs "status" ++ [DQUOTE] ++ bs ":" ++ [DQUOTE] ++ bs "ok" ++ [DQUOTE] ++ bs "}")).

(** [{"key":"value"}] *)
Definition quoted (t : bytes) : bytes := DQUOTE :: t ++ [DQUOTE].
Definition status_json (value : bytes) : bytes := bs "{" ++ quoted (bs "status") ++ bs ":" ++ quoted value ++ bs "}".

Definition ready_handler (draining : bool) (h : heap) (c : ioh_ctx_t) : ctx_step :=
  if draining then ioh_ctx_json h c 503 (Some (status_json (bs "unavailable"))) else ioh_ctx_json h c 200 (Some (status_json (bs "ready"))).

(** The loop that calls the checkers. *)
Fixpoint run_checkers (chks : list ioh_health_checker_t) (w : W) : list (Z * option bytes) * W :=
  match chks with
  | [] => ([], w)
  | chk :: chks =>
      let '(r, w) := hc_check chk w in
      let '(rs, w) := run_checkers chks w in (r :: rs, w)
  end.

Definition LIVE_BUF : nat := Z.to_nat 1024.
Definition ESCAPED : nat := 256.

(** [off += snprintf(buf + off, sizeof(buf) - off, text)]: the text so far with its full
    length; past the end of the buffer the remaining size wraps. *)
Definition sn_append (acc : option bytes) (text : bytes) : option bytes :=
  acc ← acc; if LIVE_BUF <? length acc then None else Some (acc ++ text).

Definition state_name (rc : Z) : bytes := if (rc =? 0)%Z then bs "ok" else bs "fail".

(** One entry of the loop; a text whose escaping fails is used as far as it went. *)
Definition add_entry (acc : option bytes) (i : nat) (name : bytes) (r : Z * option bytes) : option bytes :=
  let acc := if 0 <? i then sn_append acc (bs ",") else acc in
  let acc := sn_append acc (quoted (snd (json_escape ESCAPED name)) ++ bs ":{" ++ quoted (bs "status") ++ bs ":" ++ quoted (state_name (fst r))) in
  let acc := match snd r with
             | Some msg => sn_append acc (bs "," ++ quoted (bs "message") ++ bs ":" ++ quoted (snd (json_escape ESCAPED msg)))
             | None => acc
             end in
  sn_append acc (bs "}").

Fixpoint add_entries (acc : option bytes) (i : nat) (chks : list ioh_health_checker_t) (rs : list (Z * option bytes)) : option bytes :=
  match chks, rs with
  | chk :: chks, r :: rs => add_entries (add_entry acc i (hc_name chk) r) (S i) chks rs
  | _, _ => acc
  end.

Definition all_healthy (rs : list (Z * option bytes)) : bool := forallb (fun r => (fst r =? 0)%Z) rs.

Definition live_prefix (healthy : bool) : bytes :=
  bs "{" ++ quoted (bs "status") ++ bs ":" ++ quoted (if healthy then bs "ok" else bs "degraded") ++ bs "," ++ quoted (bs "checks") ++ bs ":{".

Definition too_large : bytes :=
  bs "{" ++ quoted (bs "status") ++ bs ":" ++ quoted (bs "error") ++ bs "," ++ quoted (bs "message") ++ bs ":" ++ quoted (bs "response too large") ++ bs "}".

Definition live_handler (cfg : option ioh_health_config_t) (w : W) (h : heap) (c : ioh_ctx_t) : option (res unit * ioh_ctx_t * heap) * W :=
  match cfg with
  | None => (ioh_ctx_json h c 200 (Some (status_json (bs "ok"))), w)
  | Some cfg =>
      match hc_checkers cfg with
      | [] => (ioh_ctx_json h c 200 (Some (status_json (bs "ok"))), w)
      | chks =>
          let '(rs, w) := run_checkers chks w in
          let acc := sn_append (add_entries (Some (live_prefix (all_healthy rs))) 0 chks rs) (bs "}}") in
          (match acc with
           | None => None
           | Some text =>
               if LIVE_BUF <=? length text then ioh_ctx_json h c 500 (Some too_large)
               else ioh_ctx_json h c (if all_healthy rs then 200 else 503) (Some text)
           end, w)
      end
  end.
End Health.
Arguments ioh_health_checker_t : clear implicits.
Arguments ioh_health_config_t : clear implicits.

(** ** Registration *)

(** The file-static state the handlers read: the configuration and the server. *)
Record health_globals (W S : Type) := mk_globals {
  s_health_cfg : option (ioh_health_config_t W);
  s_health_srv : option S;
}.
Arguments mk_globals {W S}.
Arguments s_health_cfg {W S}.
Arguments s_health_srv {W S}.

Section Register.
Context {W S T H M E G : Type} `{RT : RouteTable T H ioh_route_opts_t}.

(** The three GET routes, each given up when one before it is refused; the handlers are
    given as the router stores them. *)
Definition register_routes (r : option (ioh_router T H M E G)) (cfg : ioh_health_config_t W) (health ready live : H) (h : heap)
    : option (ioh_router T H M E G) * res unit * heap :=
  match ioh_router_get r (hc_health_path cfg) (Some health) h with
  | (r, Ok _, h) =>
      match ioh_router_get r (hc_ready_path cfg) (Some ready) h with
      | (r, Ok _, h) => ioh_router_get r (hc_live_path cfg) (Some live) h
      | other => other
      end
  | other => other
  end.

(** The file-static state is replaced before the routes are registered. *)
Definition ioh_health_register (g : health_globals W S) (r : option (ioh_router T H M E G)) (srv : option S) (cfg : option (ioh_health_config_t W))
    (health ready live : H) (h : heap) : health_globals W S * (option (ioh_router T H M E G) * res unit * heap) :=
  match r, cfg with
  | Some _, Some c =>
      if negb (hc_enabled c) then (g, (r, Ok (), h))
      else (mk_globals cfg srv, register_routes r c health ready live h)
  | _, _ => (g, (r, Err EINVAL, h))
  end.
End Register.

(** ** Logging *)

Inductive ioh_log_level_t := IOH_LOG_ERROR | IOH_LOG_WARN | IOH_LOG_INFO | IOH_LOG_DEBUG.

Definition level_val (l : ioh_log_level_t) : Z := match l with IOH_LOG_ERROR => 0 | IOH_LOG_WARN => 1 | IOH_LOG_INFO => 2 | IOH_LOG_DEBUG => 3 end.

(** Levels outside the enumeration are called UNKNOWN. *)
Definition ioh_log_level_name (level : Z) : bytes :=
  if (3 <? level)%Z then bs "UNKNOWN"
  else if (level =? 0)%Z then bs "ERROR" else if (level =? 1)%Z then bs "WARN" else if (level =? 2)%Z then bs "INFO" else bs "DEBUG".

(** The global state: the level and the sink, which acts on its data [D].  [lg_stderr] is
    what the default sink printed. *)
Record log_state (D : Type) := mk_log {
  lg_min_level : ioh_log_level_t;
  lg_sink : option (ioh_log_level_t -> bytes -> bytes -> D -> D);
  lg_sink_data : D;
  lg_stderr : bytes;
}.
Arguments mk_log {D}.
Arguments lg_min_level {D}.
Arguments lg_sink {D}.
Arguments lg_sink_data {D}.
Arguments lg_stderr {D}.

Section Log.
Context {D : Type}.

Definition ioh_log_set_level (g : log_state D) (l : ioh_log_level_t) : log_state D := mk_log l (lg_sink g) (lg_sink_data g) (lg_stderr g).
Definition ioh_log_get_level (g : log_state D) : ioh_log_level_t := lg_min_level g.
Definition ioh_log_set_sink (g : log_state D) (s : option (ioh_log_level_t -> bytes -> bytes -> D -> D)) (d : D) : log_state D :=
  mk_log (lg_min_level g) s d (lg_stderr g).

(** A number with at least so many digits. *)
Definition padded (width : nat) (n : Z) : bytes := repeat "0"%byte (width - length (print_dec n)) ++ print_dec n.

Definition default_sink (level : ioh_log_level_t) (module message : bytes) (nsec : Z) (t : tm) : bytes :=
  let name := ioh_log_level_name (level_val level) in
  bs "[" ++ name ++ repeat SP (5 - length name) ++ bs "] " ++ padded 4 (tm_year t + 1900) ++ bs "-" ++ padded 2 (tm_mon t + 1) ++ bs "-" ++ padded 2 (tm_mday t)
    ++ bs "T" ++ padded 2 (tm_hour t) ++ bs ":" ++ padded 2 (tm_min t) ++ bs ":" ++ padded 2 (tm_sec t) ++ bs "." ++ padded 3 (nsec / 1000000) ++ bs "Z "
    ++ module ++ bs ": " ++ message ++ [LF].

Definition LOG_BUF : nat := Z.to_nat 1024.

(** [text] is the formatted message, [None] for a null format; the clock is an
    argument, of a year that [gmtime_r] can convert. *)
Definition ioh_log (g : log_state D) (level : ioh_log_level_t) (module : option bytes) (text : option bytes) (now nsec : Z) : log_state D :=
  if (level_val (lg_min_level g) <? level_val level)%Z then g else
  let buf := take (LOG_BUF - 1) (default [] text) in
  let m := default (bs "unknown") module in
  match lg_sink g with
  | Some f => mk_log (lg_min_level g) (lg_sink g) (f level m buf (lg_sink_data g)) (lg_stderr g)
  | None =>
      match gmtime_r now with
      | Some t => mk_log (lg_min_level g) (lg_sink g) (lg_sink_data g) (lg_stderr g ++ default_sink level m buf nsec t)
      | None => g
      end
  end.
End Log.

(** ** What a client reads *)

Definition hex_of (b : byte) : option Z :=
  let v := b2z b in
  if (48 <=? v)%Z && (v <=? 57)%Z then Some (v - 48)%Z else if (97 <=? v)%Z && (v <=? 102)%Z then Some (v - 87)%Z else None.

(** A JSON string up to its closing quote; a bare control character is malformed. *)
Fixpoint unescape (p : bytes) : option (bytes * bytes) :=
  match p with
  | [] => None
  | c :: p =>
      if c =b DQUOTE then Some ([], p)
      else if c =b BACKSLASH then
        match p with
        | x :: p1 =>
            if (x =b DQUOTE) || (x =b BACKSLASH) then '(s, r) ← unescape p1; Some (x :: s, r)
            else match p1 with
                 | z1 :: z2 :: a :: b :: p2 =>
                     if (x =b "u"%byte) && (z1 =b "0"%byte) && (z2 =b "0"%byte) then
                       hi ← hex_of a; lo ← hex_of b; v ← Byte.of_N (Z.to_N (hi * 16 + lo));
                       '(s, r) ← unescape p2; Some (v :: s, r)
                     else None
                 | _ => None
                 end
        | [] => None
        end
      else if (b2z c <? 32)%Z then None
      else '(s, r) ← unescape p; Some (c :: s, r)
  end.

Definition read_str (p : bytes) : option (bytes * bytes) :=
  match p with c :: p => if c =b DQUOTE then unescape p else None | [] => None end.

Definition lit (t p : bytes) : option bytes := if decide (take (length t) p = t) then Some (drop (length t) p) else None.

Abbreviation check_entry := (bytes * bytes * option bytes)%type.

(** [name:{status:..(,message:..)}] *)
Definition read_entry (p : bytes) : option (check_entry * bytes) :=
  '(n, p) ← read_str p; p ← lit (bs ":{" ++ quoted (bs "status") ++ bs ":") p; '(s, p) ← read_str p;
  '(m, p) ← match lit (bs "," ++ quoted (bs "message") ++ bs ":") p with
            | Some p => '(m, p) ← read_str p; Some (Some m, p)
            | None => Some (None, p)
            end;
  p ← lit (bs "}") p; Some ((n, s, m), p).

Fixpoint read_entries (fuel : nat) (p : bytes) : option (list check_entry) :=
  match fuel with
  | O => None
  | S fuel =>
      '(e, p) ← read_entry p;
      match lit (bs ",") p with
      | Some p => es ← read_entries fuel p; Some (e :: es)
      | None => if decide (p = bs "}}") then Some [e] else None
      end
  end.

Definition read_report (p : bytes) : option (bytes * list check_entry) :=
  p ← lit (bs "{" ++ quoted (bs "status") ++ bs ":") p; '(s, p) ← read_str p;
  p ← lit (bs "," ++ quoted (bs "checks") ++ bs ":{") p; es ← read_entries IOH_HEALTH_MAX_CHECKS p; Some (s, es).

(** ** Escaping *)

Definition escape (s : bytes) : bytes := s ≫= escape_byte.

Lemma unescape_byte b k : unescape (escape_byte b ++ k) = ('(s, r) ← unescape k; Some (b :: s, r)).
Proof. destruct b; reflexivity. Qed.

Lemma unescape_escape s rest : unescape (escape s ++ DQUOTE :: rest) = Some (s, rest).
Proof.
  induction s as [|b s IH]; [done|]. change (escape (b :: s)) with (escape_byte b ++ escape s). by rewrite <- app_assoc, unescape_byte, IH.
Qed.

Lemma read_str_quoted s rest : read_str (quoted (escape s) ++ rest) = Some (s, rest).
Proof. unfold quoted, read_str. cbn [app]. rewrite beq_refl, <- app_assoc. apply unescape_escape. Qed.

Lemma lit_app t rest : lit t (t ++ rest) = Some rest.
Proof. unfold lit. by rewrite take_app_length, decide_True, drop_app_length. Qed.

Lemma escape_loop_fits n src acc : length acc + length (escape src) < n -> escape_loop n src acc = (true, acc ++ escape src).
Proof.
  revert acc. induction src as [|b src IH]; intros acc Hl; [cbn; by rewrite app_nil_r|].
  change (escape (b :: src)) with (escape_byte b ++ escape src) in *. rewrite length_app in Hl. cbn [escape_loop].
  replace (n <=? _) with false by (symmetry; apply Nat.leb_gt; lia). rewrite IH by (rewrite length_app; lia). by rewrite <- app_assoc.
Qed.

(** A text that fits is stored whole. *)
Definition fits (t : bytes) : Prop := NUL ∉ t /\ length (escape t) < ESCAPED.

Lemma json_escape_fits t : fits t -> json_escape ESCAPED t = (true, escape t).
Proof. intros [Hn Hl]. unfold json_escape. rewrite c_str_plain by done. by rewrite escape_loop_fits by done. Qed.

Lemma escape_plain t : Forall (fun b => escape_byte b = [b]) t -> escape t = t.
Proof. induction 1 as [|b t Hb _ IH]; [done|]. change (escape (b :: t)) with (escape_byte b ++ escape t). by rewrite Hb, IH. Qed.

Lemma escape_byte_no_nul b : b ≠ NUL -> bool_decide (NUL ∈ escape_byte b) = false.
Proof. destruct b; first [done|vm_compute; reflexivity]. Qed.

Lemma escape_no_nul t : NUL ∉ t -> NUL ∉ escape t.
Proof.
  intros Hn (b & Hb & Ht)%list_elem_of_bind. assert (Hz : b ≠ NUL) by (intros ->; done).
  apply escape_byte_no_nul in Hz. by apply bool_decide_eq_false_1 in Hz.
Qed.

(** ** The report *)

(** One entry, as the loop writes it when the texts fit. *)
Definition message_text (m : option bytes) : bytes :=
  match m with Some m => bs "," ++ quoted (bs "message") ++ bs ":" ++ quoted (escape m) | None => [] end.

Definition entry_text (name : bytes) (r : Z * option bytes) : bytes :=
  quoted (escape name) ++ bs ":{" ++ quoted (bs "status") ++ bs ":" ++ quoted (state_name (fst r)) ++ message_text (snd r) ++ bs "}".

Fixpoint entries_text (first : bool) (l : list (bytes * (Z * option bytes))) : bytes :=
  match l with
  | [] => []
  | (n, r) :: l => (if first then [] else bs ",") ++ entry_text n r ++ entries_text false l
  end.

Definition report_text (l : list (bytes * (Z * option bytes))) : bytes :=
  live_prefix (all_healthy (l.*2)) ++ entries_text true l ++ bs "}}".

Definition entry_fits (e : bytes * (Z * option bytes)) : Prop := fits (fst e) /\ match snd (snd e) with Some m => fits m | None => True end.

Definition entry_of (e : bytes * (Z * option bytes)) : check_entry := (fst e, state_name (fst (snd e)), snd (snd e)).

Lemma sn_append_fits acc t : length acc <= LIVE_BUF -> sn_append (Some acc) t = Some (acc ++ t).
Proof. intros Hl. unfold sn_append. cbn [mbind option_bind]. by replace (LIVE_BUF <? length acc) with false by (symmetry; by apply Nat.ltb_ge). Qed.

Lemma add_entry_fits acc i name r :
  entry_fits (name, r) -> length acc + length (entries_text (i =? 0) [(name, r)]) <= LIVE_BUF ->
  add_entry (Some acc) i name r = Some (acc ++ entries_text (i =? 0) [(name, r)]).
Proof.
  intros [Hn Hm] Hl. unfold add_entry. cbn [fst snd entries_text] in *. rewrite app_nil_r in *.
  replace (if 0 <? i then sn_append (Some acc) (bs ",") else Some acc) with (Some (acc ++ if i =? 0 then [] else bs ","))
    by (destruct i; [by rewrite app_nil_r|]; symmetry; apply sn_append_fits; lia).
  destruct r as [rc m]. cbn [fst snd] in *. rewrite (json_escape_fits name Hn). unfold entry_text in *. cbn [fst snd] in *.
  repeat rewrite length_app in Hl.
  rewrite sn_append_fits by (repeat rewrite length_app; lia). unfold message_text in *. destruct m as [m|].
  - rewrite (json_escape_fits m Hm). cbn [snd]. repeat rewrite length_app in Hl.
    rewrite sn_append_fits by (repeat rewrite length_app; lia). rewrite sn_append_fits by (repeat rewrite length_app; lia).
    f_equal. by repeat rewrite <- app_assoc.
  - rewrite sn_append_fits by (repeat rewrite length_app; lia). f_equal. by repeat rewrite <- app_assoc.
Qed.

Lemma entries_text_cons first n r l : entries_text first ((n, r) :: l) = entries_text first [(n, r)] ++ entries_text false l.
Proof. cbn [entries_text]. rewrite app_nil_r. by repeat rewrite <- app_assoc. Qed.

Section Report.
Context {W : Type}.

(** The names of the checkers with what they answered. *)
Definition answers (chks : list (ioh_health_checker_t W)) (w : W) : list (bytes * (Z * option bytes)) :=
  zip (hc_name <$> chks) (fst (run_checkers chks w)).

Lemma run_checkers_length (chks : list (ioh_health_checker_t W)) w : length (fst (run_checkers chks w)) = length chks.
Proof.
  revert w. induction chks as [|chk chks IH]; intros w; [done|]. cbn [run_checkers]. destruct (hc_check chk w) as [r w1].
  specialize (IH w1). destruct (run_checkers chks w1). cbn in *. congruence.
Qed.

Lemma answers_results (chks : list (ioh_health_checker_t W)) w : (answers chks w).*2 = fst (run_checkers chks w).
Proof. apply snd_zip. by rewrite length_fmap, run_checkers_length. Qed.

Lemma add_entries_fits (chks : list (ioh_health_checker_t W)) rs acc i :
  length rs = length chks -> let l := zip (hc_name <$> chks) rs in
  Forall entry_fits l -> length acc + length (entries_text (i =? 0) l) <= LIVE_BUF ->
  add_entries (Some acc) i chks rs = Some (acc ++ entries_text (i =? 0) l).
Proof.
  revert rs acc i. induction chks as [|chk chks IH]; intros [|r rs] acc i Hrs l Hf Hl; try done; subst l; [cbn; by rewrite app_nil_r|].
  cbn [zip fmap list_fmap zip_with] in *. rewrite entries_text_cons, length_app in *. inversion Hf as [|?? Hf1 Hf2]; subst.
  cbn [add_entries]. rewrite add_entry_fits by (done || lia).
  rewrite IH; [|cbn in Hrs; lia|done|rewrite length_app; cbn [Nat.eqb]; lia]. cbn [Nat.eqb]. by rewrite <- app_assoc.
Qed.

Lemma report_written (chks : list (ioh_health_checker_t W)) w :
  Forall entry_fits (answers chks w) -> length (report_text (answers chks w)) < LIVE_BUF ->
  sn_append (add_entries (Some (live_prefix (all_healthy (fst (run_checkers chks w))))) 0 chks (fst (run_checkers chks w))) (bs "}}")
    = Some (report_text (answers chks w)).
Proof.
  intros Hf Hl. unfold report_text in *. rewrite answers_results in *. repeat rewrite length_app in Hl.
  rewrite add_entries_fits; [|apply run_checkers_length|done|cbn [Nat.eqb]; unfold answers in Hl; lia].
  cbn [Nat.eqb]. rewrite sn_append_fits by (rewrite length_app; unfold answers in Hl; lia). by rewrite <- app_assoc.
Qed.
End Report.

(** ** Reading it back *)

Lemma lit_false t p : take (length t) p ≠ t -> lit t p = None.
Proof. intros H. unfold lit. by rewrite decide_False. Qed.

Lemma read_state rc rest : read_str (quoted (state_name rc) ++ rest) = Some (state_name rc, rest).
Proof. unfold state_name. destruct (rc =? 0)%Z; [apply (read_str_quoted (bs "ok"))|apply (read_str_quoted (bs "fail"))]. Qed.

Lemma read_entry_text n r rest : read_entry (entry_text n r ++ rest) = Some (entry_of (n, r), rest).
Proof.
  unfold read_entry, entry_text, entry_of. destruct r as [rc m]. cbn [fst snd]. repeat rewrite <- app_assoc.
  rewrite read_str_quoted. cbn [mbind option_bind].
  change (bs ":{" ++ quoted (bs "status") ++ bs ":" ++ ?k) with ((bs ":{" ++ quoted (bs "status") ++ bs ":") ++ k).
  rewrite lit_app. cbn [mbind option_bind]. rewrite read_state. cbn [mbind option_bind]. unfold message_text. destruct m as [m|].
  - repeat rewrite <- app_assoc.
    change (bs "," ++ quoted (bs "message") ++ bs ":" ++ ?k) with ((bs "," ++ quoted (bs "message") ++ bs ":") ++ k).
    rewrite lit_app. cbn [mbind option_bind]. rewrite read_str_quoted. cbn [mbind option_bind]. by rewrite lit_app.
  - rewrite lit_false by (cbn; discriminate). cbn [app mbind option_bind]. by rewrite lit_app.
Qed.

Lemma read_entries_text fuel n r l :
  length l < fuel -> read_entries fuel (entries_text true ((n, r) :: l) ++ bs "}}") = Some (entry_of <$> (n, r) :: l).
Proof.
  revert n r l. induction fuel as [|fuel IH]; intros n r l Hl; [lia|]. cbn [read_entries entries_text app].
  rewrite <- app_assoc, read_entry_text. cbn [mbind option_bind]. destruct l as [|[n1 r1] l].
  - by vm_compute.
  - change (entries_text false ((n1, r1) :: l) ++ bs "}}") with (bs "," ++ entries_text true ((n1, r1) :: l) ++ bs "}}").
    rewrite lit_app, IH by (cbn in Hl; lia). done.
Qed.

Definition overall (healthy : bool) : bytes := if healthy then bs "ok" else bs "degraded".

Lemma read_report_text l : l ≠ [] -> length l <= IOH_HEALTH_MAX_CHECKS -> read_report (report_text l) = Some (overall (all_healthy (l.*2)), entry_of <$> l).
Proof.
  destruct l as [|[n r] l]; [done|]. intros _ Hl. unfold read_report, report_text, live_prefix. repeat rewrite <- app_assoc.
  change (bs "{" ++ quoted (bs "status") ++ bs ":" ++ ?k) with ((bs "{" ++ quoted (bs "status") ++ bs ":") ++ k).
  rewrite lit_app. cbn [mbind option_bind].
  assert (Hs : forall b k, read_str (quoted (if b : bool then bs "ok" else bs "degraded") ++ k) = Some (overall b, k)).
  { intros [] k; [apply (read_str_quoted (bs "ok"))|apply (read_str_quoted (bs "degraded"))]. }
  rewrite Hs. cbn [mbind option_bind].
  change (bs "," ++ quoted (bs "checks") ++ bs ":{" ++ ?k) with ((bs "," ++ quoted (bs "checks") ++ bs ":{") ++ k).
  rewrite lit_app. cbn [mbind option_bind]. by rewrite read_entries_text by (cbn in Hl; lia).
Qed.

Lemma message_no_nul m : match m with Some m => fits m | None => True end -> NUL ∉ message_text m.
Proof.
  destruct m as [m|]; [|intros _; apply not_elem_of_nil]. intros [Hn _]. unfold message_text, quoted.
  repeat first [apply not_elem_of_app; split|apply not_elem_of_cons; split]; first [by apply escape_no_nul|bcompute].
Qed.

Lemma entries_no_nul first l : Forall entry_fits l -> NUL ∉ entries_text first l.
Proof.
  intros Hf. revert first. induction Hf as [|[n [rc m]] l [[Hn _] Hm] _ IH]; intros first; [apply not_elem_of_nil|]. cbn [entries_text fst snd] in *.
  apply not_elem_of_app. split; [destruct first; bcompute|]. apply not_elem_of_app. split; [|apply IH].
  unfold entry_text, quoted, state_name. cbn [fst snd].
  repeat first [apply not_elem_of_app; split|apply not_elem_of_cons; split];
    first [by apply escape_no_nul|by apply message_no_nul|bcompute|destruct (rc =? 0)%Z; bcompute].
Qed.

Lemma report_no_nul l : Forall entry_fits l -> NUL ∉ report_text l.
Proof.
  intros Hf. unfold report_text. apply not_elem_of_app. split; [destruct (all_healthy _); bcompute|].
  apply not_elem_of_app. split; [by apply entries_no_nul|bcompute].
Qed.

(** The liveness report reads back.  For a configuration with checkers, at most eight as
    [ioh_health_add_checker] admits, whose names and messages fit the escaping buffer of 256
    bytes and together the report of 1024, whatever bytes other than NUL they hold (quotes,
    backslashes and control characters included) and whatever the allocator does:
    [live_handler] runs every checker once, stores nothing out of bounds and fails only with
    [ENOMEM]; otherwise the status is 200 when every checker answered 0 and 503 when one did
    not, and reading the body as JSON gives the overall state and, in order, the name, the state and the
    message of every checker, exactly. *)
Theorem live_report_reads_back {W} (cfg : ioh_health_config_t W) (w : W) h c :
  response_ok (c_resp c) -> (Z.of_nat (length (r_headers (c_resp c))) < 2 ^ 31)%Z ->
  let chks := hc_checkers cfg in
  chks ≠ [] -> length chks <= IOH_HEALTH_MAX_CHECKS ->
  let l := answers chks w in
  Forall entry_fits l -> length (report_text l) < LIVE_BUF ->
  exists rc c' h', live_handler (Some cfg) w h c = (Some (rc, c', h'), snd (run_checkers chks w))
    /\ response_ok (c_resp c')
    /\ match rc with
       | Ok _ => r_status (c_resp c') = (if all_healthy (l.*2) then 200 else 503)%Z
                 /\ read_report (body_text (c_resp c')) = Some (overall (all_healthy (l.*2)), entry_of <$> l)
       | Err e => e = ENOMEM
       end.
Proof.
  intros Hr Hlt chks Hne H8 l Hf Hl. unfold live_handler. fold chks.
  pose proof (report_written chks w Hf Hl) as Hw. pose proof (answers_results chks w) as Ha.
  assert (Hll : length l = length chks) by (unfold l, answers; rewrite length_zip, length_fmap, run_checkers_length; lia).
  assert (Hl0 : l ≠ []) by (intros E; rewrite E in Hll; destruct chks; done).
  assert (Hj : report_text l ≠ []) by (unfold report_text, live_prefix; discriminate).
  destruct chks as [|chk chks]; [done|]. destruct (run_checkers (chk :: chks) w) as [rs w']. cbn [fst snd] in *. rewrite Hw.
  fold l. fold l in Ha. rewrite Ha. replace (LIVE_BUF <=? length (report_text l)) with false by (symmetry; by apply Nat.leb_gt).
  destruct (respond_json_spec h (c_resp c) (if all_healthy rs then 200 else 503) (report_text l) Hr Hlt Hj (report_no_nul l Hf)) as (rc & r' & h' & E & Hr' & Hrc).
  unfold ioh_ctx_json. rewrite E. cbn [respond_with]. eexists _, _, _. split; [reflexivity|]. split; [exact Hr'|].
  destruct rc; [|done]. destruct Hrc as (Hst & Hb & _). split; [exact Hst|]. cbn [with_resp c_resp]. rewrite Hb.
  assert (HB : LIVE_BUF <= JSON_LIMIT) by nle. rewrite take_ge by lia. rewrite <- Ha. apply read_report_text; [done|lia].
Qed.

Definition demo_health : ioh_health_config_t nat :=
  mk_health true (Some (bs "/health")) (Some (bs "/ready")) (Some (bs "/live"))
    [mk_checker (bs "db") (fun w => ((0%Z, None), S w)); mk_checker (bs "disk") (fun w => (((-1)%Z, Some ([DQUOTE] ++ bs "sda" ++ [DQUOTE; LF])), S w))].

Definition live_ctx : ioh_ctx_t := with_resp demo_ctx demo_response.

Lemma live_report_reads_back_witness :
  exists rc c' h', live_handler (Some demo_health) 0 [] live_ctx = (Some (rc, c', h'), 2)
    /\ r_status (c_resp c') = 503%Z
    /\ read_report (body_text (c_resp c'))
        = Some (bs "degraded", [(bs "db", bs "ok", None); (bs "disk", bs "fail", Some ([DQUOTE] ++ bs "sda" ++ [DQUOTE; LF]))]).
Proof.
  destruct (live_report_reads_back demo_health 0 [] live_ctx) as (rc & c' & h' & E & _ & Hrc);
    [exact demo_response_ok|reflexivity|discriminate|nle|repeat constructor; first [bcompute|nle]|nle|].
  exists rc, c', h'. split; [exact E|]. vm_compute in E. injection E as <- <- <-. exact Hrc.
Defined.

(** Eight checkers with long messages: the text would be longer than the buffer and the
    offset passes its end before the last entry, so the remaining size wraps and the
    next text is stored out of bounds; the check after the loop comes too late. *)
Example long_reports_overflow :
  fst (live_handler (Some (mk_health true None None None (repeat (mk_checker (bs "db") (fun w : unit => (((-1)%Z, Some (repeat "x"%byte 250)), w))) 8)))
         () [] demo_ctx) = None.
Proof. vm_compute. reflexivity. Qed.
