(* ===== verification/HealthJson.v ===== *)
(** * The liveness report with yyjson

    [live_handler] of [src/src/core/ioh_health.c] in the build with yyjson, which makes a
    document of mutable values and writes it; [Health] has the build without.  yyjson is a
    parameter.  What is documented of it: objects keep their fields in the order in which
    they are added, an added value is referred to and not copied, a failed call changes
    nothing, and a document is written without blanks. *)
From stdpp Require Import gmap.
From S2P Require Import Prelude CString Request RequestThms PathNorm Radix Router Response ResponseThms Ctx CtxThms Dates Static Health.
Local Open Scope nat_scope.

(** ** yyjson *)

Abbreviation val := positive.

(** The operations; a null pointer is [None]. *)
Class Yyjson (D : Type) := {
  yyjson_mut_doc_new : option D;
  yyjson_mut_obj : D -> option val * D;
  yyjson_mut_doc_set_root : D -> option val -> D;
  yyjson_mut_obj_add_str : D -> option val -> bytes -> bytes -> bool * D;
  yyjson_mut_obj_add_val : D -> option val -> bytes -> option val -> bool * D;
  yyjson_mut_write : D -> option bytes;
}.

Section Live.
Context {D W : Type} `{Y : Yyjson D}.

(** One turn of the loop: the entry of a checker. *)
Definition add_check (d : D) (checks_obj : option val) (name : bytes) (r : Z * option bytes) : D :=
  let '(entry, d) := yyjson_mut_obj d in
  let d := snd (yyjson_mut_obj_add_str d entry (bs "status") (state_name (fst r))) in
  let d := match snd r with
           | Some msg => snd (yyjson_mut_obj_add_str d entry (bs "message") msg)
           | None => d
           end in
  snd (yyjson_mut_obj_add_val d checks_obj name entry).

Fixpoint add_checks (d : D) (checks_obj : option val) (healthy : bool) (chks : list (ioh_health_checker_t W)) (w : W) : D * bool * W :=
  match chks with
  | [] => (d, healthy, w)
  | chk :: chks =>
      let '(r, w) := hc_check chk w in
      add_checks (add_check d checks_obj (hc_name chk) r) checks_obj (healthy && (fst r =? 0)%Z) chks w
  end.

Definition oom_json : bytes :=
  bs "{" ++ quoted (bs "status") ++ bs ":" ++ quoted (bs "error") ++ bs "," ++ quoted (bs "message") ++ bs ":" ++ quoted (bs "OOM") ++ bs "}".

Definition live_handler_yyjson (cfg : option (ioh_health_config_t W)) (w : W) (h : heap) (c : ioh_ctx_t) : ctx_step * W :=
  match cfg with
  | None => (ioh_ctx_json h c 200 (Some (status_json (bs "ok"))), w)
  | Some cfg =>
      match hc_checkers cfg with
      | [] => (ioh_ctx_json h c 200 (Some (status_json (bs "ok"))), w)
      | chks =>
          match yyjson_mut_doc_new with
          | None => (ioh_ctx_json h c 500 (Some oom_json), w)
          | Some d =>
              let '(root, d) := yyjson_mut_obj d in
              let d := yyjson_mut_doc_set_root d root in
              let '(checks_obj, d) := yyjson_mut_obj d in
              let '(d, healthy, w) := add_checks d checks_obj true chks w in
              let d := snd (yyjson_mut_obj_add_str d root (bs "status") (if healthy then bs "ok" else bs "degraded")) in
              let d := snd (yyjson_mut_obj_add_val d root (bs "checks") checks_obj) in
              (match yyjson_mut_write d with
               | Some json => ioh_ctx_json h c (if healthy then 200 else 503) (Some json)
               | None => ioh_ctx_json h c 500 (Some (status_json (bs "error")))
               end, w)
          end
      end
  end.
End Live.

(** ** What is documented *)

Inductive json := JStr (t : bytes) | JObj (l : list (bytes * json)).

(** The objects of a document: their fields are texts or references. *)
Abbreviation fields := (list (bytes * (bytes + val))).
Abbreviation store := (gmap val fields).

(** The tree below a value, to a depth. *)
Fixpoint tree_of (n : nat) (st : store) (v : val) : option json :=
  match n with
  | O => None
  | S n =>
      l ← st !! v;
      JObj <$> mapM (fun f : bytes * (bytes + val) =>
                       match snd f with
                       | inl t => Some (fst f, JStr t)
                       | inr u => j ← tree_of n st u; Some (fst f, j)
                       end) l
  end.

(** The depth of a report. *)
Definition REPORT_DEPTH : nat := 3.

(** A byte that is written as it is. *)
Definition plain_byte (b : byte) : bool := (32 <=? b2z b)%Z && (b2z b <? 127)%Z && negb (b =b DQUOTE) && negb (b =b BACKSLASH).
Definition plain_text (t : bytes) : bool := forallb plain_byte t.

(** The text of a document without blanks, and whether its texts are plain. *)
Fixpoint json_text (j : json) : bytes :=
  match j with
  | JStr t => quoted t
  | JObj l => bs "{" ++ (fix go (first : bool) (l : list (bytes * json)) : bytes :=
                match l with
                | [] => []
                | (k, v) :: l => (if first then [] else bs ",") ++ quoted k ++ bs ":" ++ json_text v ++ go false l
                end) true l ++ bs "}"
  end.

Fixpoint plain_json (j : json) : bool :=
  match j with
  | JStr t => plain_text t
  | JObj l => forallb (fun f => plain_text (fst f) && plain_json (snd f)) l
  end.

Class YyjsonSpec D `{Y : Yyjson D} := {
  yy_store : D -> store;
  yy_root : D -> option val;
  spec_new d : yyjson_mut_doc_new = Some d -> yy_store d = ∅;
  spec_obj d o d' : yyjson_mut_obj d = (o, d') ->
    yy_root d' = yy_root d
    /\ match o with Some v => yy_store d !! v = None /\ yy_store d' = <[v := []]> (yy_store d) | None => yy_store d' = yy_store d end;
  spec_set_root d v : yy_store (yyjson_mut_doc_set_root d v) = yy_store d /\ yy_root (yyjson_mut_doc_set_root d v) = v;
  spec_add_str d o k t l ok d' : yyjson_mut_obj_add_str d (Some o) k t = (ok, d') -> yy_store d !! o = Some l ->
    yy_root d' = yy_root d /\ yy_store d' = if ok then <[o := l ++ [(k, inl t)]]> (yy_store d) else yy_store d;
  spec_add_val d o k v l ok d' : yyjson_mut_obj_add_val d (Some o) k (Some v) = (ok, d') -> yy_store d !! o = Some l ->
    yy_root d' = yy_root d /\ yy_store d' = if ok then <[o := l ++ [(k, inr v)]]> (yy_store d) else yy_store d;
  spec_write d r j t : yyjson_mut_write d = Some t -> yy_root d = Some r -> tree_of REPORT_DEPTH (yy_store d) r = Some j -> plain_json j = true -> t = json_text j;
}.

(** No call fails: there is memory, and texts of printable ASCII can be written. *)
Record reliable D `{YS : YyjsonSpec D} : Prop := {
  rel_new : is_Some yyjson_mut_doc_new;
  rel_obj d : is_Some (fst (yyjson_mut_obj d));
  rel_str d o k t : is_Some (yy_store d !! o) -> fst (yyjson_mut_obj_add_str d (Some o) k t) = true;
  rel_val d o k v : is_Some (yy_store d !! o) -> fst (yyjson_mut_obj_add_val d (Some o) k (Some v)) = true;
  rel_write d r j : yy_root d = Some r -> tree_of REPORT_DEPTH (yy_store d) r = Some j -> plain_json j = true -> is_Some (yyjson_mut_write d);
}.

(** ** The document *)

Section Document.
Context {D W : Type} `{YS : YyjsonSpec D} (R : reliable D).

Lemma obj_made d : exists v d', yyjson_mut_obj d = (Some v, d') /\ yy_root d' = yy_root d
  /\ yy_store d !! v = None /\ yy_store d' = <[v := []]> (yy_store d).
Proof.
  destruct (rel_obj D R d) as [v Hv]. destruct (yyjson_mut_obj d) as [o d'] eqn:E. cbn in Hv. subst o.
  destruct (spec_obj _ _ _ E) as (Hr & Hn & Hs). by exists v, d'.
Qed.

Lemma str_added d o k t l : yy_store d !! o = Some l ->
  let d' := snd (yyjson_mut_obj_add_str d (Some o) k t) in
  yy_root d' = yy_root d /\ yy_store d' = <[o := l ++ [(k, inl t)]]> (yy_store d).
Proof.
  intros Hl. pose proof (rel_str D R d o k t (mk_is_Some _ _ Hl)) as Hok. destruct (yyjson_mut_obj_add_str d (Some o) k t) as [ok d'] eqn:E.
  cbn in *. subst ok. exact (spec_add_str _ _ _ _ _ _ _ E Hl).
Qed.

Lemma val_added d o k v l : yy_store d !! o = Some l ->
  let d' := snd (yyjson_mut_obj_add_val d (Some o) k (Some v)) in
  yy_root d' = yy_root d /\ yy_store d' = <[o := l ++ [(k, inr v)]]> (yy_store d).
Proof.
  intros Hl. pose proof (rel_val D R d o k v (mk_is_Some _ _ Hl)) as Hok. destruct (yyjson_mut_obj_add_val d (Some o) k (Some v)) as [ok d'] eqn:E.
  cbn in *. subst ok. exact (spec_add_val _ _ _ _ _ _ _ E Hl).
Qed.

Definition entry_fields (r : Z * option bytes) : fields :=
  (bs "status", inl (state_name (fst r))) :: match snd r with Some m => [(bs "message", inl m)] | None => [] end.

Lemma add_check_spec d checks name r l :
  yy_store d !! checks = Some l ->
  exists e, yy_store d !! e = None /\ yy_root (add_check d (Some checks) name r) = yy_root d
    /\ yy_store (add_check d (Some checks) name r) = <[checks := l ++ [(name, inr e)]]> (<[e := entry_fields r]> (yy_store d)).
Proof.
  intros Hl. unfold add_check. destruct (obj_made d) as (e & d1 & -> & R1 & Hn & S1). exists e. split; [done|].
  assert (Hne : e ≠ checks) by (intros ->; congruence).
  destruct (str_added d1 e (bs "status") (state_name (fst r)) []) as [R2 S2]; [by rewrite S1, lookup_insert_eq|].
  set (d2 := snd (yyjson_mut_obj_add_str d1 _ _ _)) in *. rewrite S1, insert_insert_eq in S2.
  set (d3 := match snd r with Some msg => _ | None => d2 end).
  assert (H3 : yy_root d3 = yy_root d2 /\ yy_store d3 = <[e := entry_fields r]> (yy_store d)).
  { subst d3. unfold entry_fields. destruct (snd r) as [m|]; [|done].
    destruct (str_added d2 e (bs "message") m [(bs "status", inl (state_name (fst r)))]) as [R3 S3]; [by rewrite S2, lookup_insert_eq|].
    by rewrite R3, S3, S2, insert_insert_eq. }
  destruct H3 as [R3 S3]. destruct (val_added d3 checks name e l) as [R4 S4]; [by rewrite S3, lookup_insert_ne|].
  split; [congruence|]. by rewrite S4, S3.
Qed.

(** The entries [es] of the checks object: their names, objects and results. *)
Definition refs (es : list (bytes * (val * (Z * option bytes)))) : fields := (fun e => (fst e, inr (fst (snd e)))) <$> es.
Definition entries_in (st : store) (checks : val) (es : list (bytes * (val * (Z * option bytes)))) : Prop :=
  st !! checks = Some (refs es) /\ Forall (fun e => fst (snd e) ≠ checks /\ st !! (fst (snd e)) = Some (entry_fields (snd (snd e)))) es.

Lemma add_checks_spec (chks : list (ioh_health_checker_t W)) : forall d checks root healthy es w,
  entries_in (yy_store d) checks es -> yy_store d !! root = Some [] -> root ≠ checks ->
  Forall (fun e => fst (snd e) ≠ root) es ->
  let '(d', healthy', w') := add_checks d (Some checks) healthy chks w in
  yy_root d' = yy_root d /\ healthy' = healthy && all_healthy (fst (run_checkers chks w)) /\ w' = snd (run_checkers chks w)
  /\ yy_store d' !! root = Some []
  /\ exists es', entries_in (yy_store d') checks (es ++ es') /\ (fun e => (fst e, snd (snd e))) <$> es' = answers chks w
       /\ Forall (fun e => fst (snd e) ≠ root) (es ++ es').
Proof.
  induction chks as [|chk chks IH]; intros d checks root healthy es w [Hc He] Hr Hne Hner.
  { cbn. split; [done|]. split; [by rewrite andb_true_r|]. split; [done|]. split; [done|]. exists []. by rewrite app_nil_r. }
  cbn [add_checks run_checkers]. destruct (hc_check chk w) as [r w1] eqn:Ek.
  destruct (add_check_spec d checks (hc_name chk) r (refs es) Hc) as (e & Hfr & R1 & S1). set (d1 := add_check d _ _ r) in *.
  assert (Hec : e ≠ checks) by (intros ->; congruence). assert (Her : e ≠ root) by (intros ->; congruence).
  specialize (IH d1 checks root (healthy && (fst r =? 0)%Z) (es ++ [(hc_name chk, (e, r))]) w1).
  destruct (add_checks d1 (Some checks) _ chks w1) as [[d2 h2] w2]. destruct IH as (R2 & Hh & Hw & Hr2 & es' & He' & Ha & Hn').
  - rewrite S1. split; [rewrite lookup_insert_eq; unfold refs; by rewrite fmap_app|]. apply Forall_app. split.
    + eapply Forall_impl; [exact He|]. intros x [Hx1 Hx2]. split; [done|]. rewrite lookup_insert_ne by done.
      rewrite lookup_insert_ne; [done|]. intros E. rewrite <- E in Hx2. congruence.
    + apply Forall_cons. split; [|done]. split; [done|]. cbn [fst snd]. by rewrite lookup_insert_ne, lookup_insert_eq.
  - rewrite S1. by rewrite !lookup_insert_ne.
  - done.
  - apply Forall_app. split; [done|]. by apply Forall_cons.
  - unfold answers. cbn [run_checkers]. rewrite Ek. destruct (run_checkers chks w1) as [rs w3] eqn:Er. cbn [fst snd] in *.
    split; [congruence|]. split; [by rewrite Hh, <- andb_assoc|]. split; [done|]. split; [done|].
    exists ((hc_name chk, (e, r)) :: es'). rewrite <- app_assoc in He', Hn'. split; [done|]. split; [|done].
    cbn [fmap list_fmap zip zip_with fst snd]. f_equal. unfold answers in Ha. by rewrite Er in Ha.
Qed.

Definition entry_json (r : Z * option bytes) : json :=
  JObj ((bs "status", JStr (state_name (fst r))) :: match snd r with Some m => [(bs "message", JStr m)] | None => [] end).
Definition report_json (healthy : bool) (l : list (bytes * (Z * option bytes))) : json :=
  JObj [(bs "status", JStr (if healthy then bs "ok" else bs "degraded")); (bs "checks", JObj ((fun e => (fst e, entry_json (snd e))) <$> l))].

Definition field_tree (n : nat) (st : store) (f : bytes * (bytes + val)) : option (bytes * json) :=
  match snd f with
  | inl t => Some (fst f, JStr t)
  | inr u => j ← tree_of n st u; Some (fst f, j)
  end.

Lemma tree_of_S n st v : tree_of (S n) st v = (l ← st !! v; JObj <$> mapM (field_tree n st) l).
Proof. reflexivity. Qed.

Lemma tree_of_entry n st v r : st !! v = Some (entry_fields r) -> tree_of (S n) st v = Some (entry_json r).
Proof. intros E. cbn [tree_of]. rewrite E. unfold entry_fields, entry_json. by destruct (snd r). Qed.

Lemma tree_of_checks n st checks es : entries_in st checks es ->
  tree_of (S (S n)) st checks = Some (JObj ((fun e => (fst e, entry_json (snd (snd e)))) <$> es)).
Proof.
  intros [Hc He]. rewrite tree_of_S, Hc. cbn [mbind option_bind].
  enough (mapM (field_tree (S n) st) (refs es) = Some ((fun e => (fst e, entry_json (snd (snd e)))) <$> es)) as -> by done.
  unfold refs. clear Hc. induction He as [|e es [_ Hx] He IH]; [done|]. cbn [fmap list_fmap mapM].
  assert (field_tree (S n) st (fst e, inr (fst (snd e))) = Some (fst e, entry_json (snd (snd e)))) as ->.
  { unfold field_tree. cbn [fst snd]. by rewrite (tree_of_entry n st _ _ Hx). }
  cbn [mbind option_bind]. by rewrite IH.
Qed.

(** ** Its text *)

Definition pairs_text : bool -> list (bytes * json) -> bytes :=
  fix go (first : bool) (l : list (bytes * json)) : bytes :=
    match l with
    | [] => []
    | (k, v) :: l => (if first then [] else bs ",") ++ quoted k ++ bs ":" ++ json_text v ++ go false l
    end.

Lemma plain_escape t : plain_text t = true -> escape t = t.
Proof.
  intros Hp. apply escape_plain. unfold plain_text in Hp. rewrite Forall_forall. intros b Hb%list_elem_of_In.
  rewrite forallb_forall in Hp. specialize (Hp b Hb). unfold plain_byte in Hp. unfold escape_byte.
  repeat apply andb_prop in Hp as [Hp ?]. destruct (b =b DQUOTE), (b =b BACKSLASH); try done. cbn [orb]. 
  by rewrite (proj2 (Z.ltb_ge _ _)) by lia.
Qed.

(** Names and messages of printable ASCII without quotes and backslashes. *)
Definition plain_entry (e : bytes * (Z * option bytes)) : bool :=
  plain_text (fst e) && match snd (snd e) with Some m => plain_text m | None => true end.

Lemma entry_json_text r : match snd r with Some m => plain_text m | None => true end = true ->
  json_text (entry_json r) = bs "{" ++ quoted (bs "status") ++ bs ":" ++ quoted (state_name (fst r)) ++ message_text (snd r) ++ bs "}".
Proof.
  intros Hp. unfold entry_json, message_text. destruct (snd r) as [m|]; cbn [json_text]; [rewrite (plain_escape m Hp)|];
    repeat (rewrite <- app_assoc; cbn [app]); done.
Qed.

Lemma entries_json_text first l : forallb plain_entry l = true ->
  pairs_text first ((fun e => (fst e, entry_json (snd e))) <$> l) = entries_text first l.
Proof.
  revert first. induction l as [|[n r] l IH]; intros first Hp; [done|]. cbn [forallb] in Hp. apply andb_prop in Hp as [[Hn Hm]%andb_prop Hp].
  cbn [fmap list_fmap pairs_text entries_text fst snd] in *. fold pairs_text. rewrite (IH false Hp), (entry_json_text r Hm). unfold entry_text.
  rewrite (plain_escape n Hn). repeat (rewrite <- app_assoc; cbn [app]). done.
Qed.

Lemma report_json_text l : forallb plain_entry l = true -> json_text (report_json (all_healthy l.*2) l) = report_text l.
Proof.
  intros Hp. unfold report_json, report_text, live_prefix. cbn [json_text]. fold pairs_text. rewrite (entries_json_text true l Hp).
  repeat (rewrite <- app_assoc; cbn [app]). done.
Qed.

Lemma report_plain b l : forallb plain_entry l = true -> plain_json (report_json b l) = true.
Proof.
  intros Hp. unfold report_json. cbn [plain_json forallb fst snd]. replace (plain_text (if b then _ else _)) with true by (by destruct b).
  rewrite !andb_true_r. cbn [andb]. change (plain_text (bs "status")) with true. change (plain_text (bs "checks")) with true. cbn [andb].
  induction l as [|[n r] l IH]; [done|]. cbn [forallb fmap list_fmap] in *. apply andb_prop in Hp as [[Hn Hm]%andb_prop Hp].
  cbn [fst snd] in *. rewrite Hn, (IH Hp), andb_true_r. cbn [andb]. unfold entry_json. cbn [plain_json forallb fst snd].
  unfold state_name. destruct (fst r =? 0)%Z, (snd r) as [m|]; cbn [forallb fst snd plain_json]; rewrite ?Hm; done.
Qed.
End Document.

(** ** The property *)

(** C33: both builds answer alike.  When yyjson has the memory it asks for and the names and messages of the
    checkers are printable ASCII without quotes and backslashes, the build with yyjson runs every checker once, in
    order, and answers with the report of their results, however long it is; and when the
    texts fit the buffers of the build without yyjson, both builds give the same response
    and leave the world and the allocator alike. *)
Theorem live_builds_agree {D W} `{YS : YyjsonSpec D} (cfg : ioh_health_config_t W) (w : W) h c :
  reliable D -> hc_checkers cfg ≠ [] ->
  let l := answers (hc_checkers cfg) w in
  forallb plain_entry l = true ->
  live_handler_yyjson (Some cfg) w h c
    = (ioh_ctx_json h c (if all_healthy l.*2 then 200 else 503) (Some (report_text l)), snd (run_checkers (hc_checkers cfg) w))
  /\ (Forall entry_fits l -> length (report_text l) < LIVE_BUF ->
      live_handler_yyjson (Some cfg) w h c = live_handler (Some cfg) w h c).
Proof.
  intros R Hne l Hp.
  assert (Hyy : live_handler_yyjson (Some cfg) w h c
    = (ioh_ctx_json h c (if all_healthy l.*2 then 200 else 503) (Some (report_text l)), snd (run_checkers (hc_checkers cfg) w))).
  { unfold live_handler_yyjson. unfold l in *. clear l. destruct (hc_checkers cfg) as [|chk chks]; [done|].
    set (cs := chk :: chks) in *. clearbody cs. set (l := answers cs w) in *. destruct (rel_new D R) as [d0 E0]. rewrite E0. pose proof (spec_new d0 E0) as S0.
    destruct (obj_made R d0) as (root & d1 & E1 & R1 & _ & S1). rewrite E1. cbv beta iota zeta. destruct (spec_set_root d1 (Some root)) as [S2 R2].
    set (d2 := yyjson_mut_doc_set_root d1 (Some root)) in *. destruct (obj_made R d2) as (checks & d3 & E3 & R3 & N3 & S3). rewrite E3. cbv beta iota zeta.
    rewrite S2, S1 in N3, S3. assert (Hrc : root ≠ checks) by (intros ->; by rewrite lookup_insert_eq in N3).
    pose proof (add_checks_spec R cs d3 checks root true [] w) as Ha.
    destruct (add_checks d3 (Some checks) true cs w) as [[d4 hl] w4].
    destruct Ha as (R4 & Hh & Hw & Hr4 & es & He & Hes & Hnr).
    { split; [by rewrite S3, lookup_insert_eq|done]. } { by rewrite S3, lookup_insert_ne, lookup_insert_eq. } { done. } { done. }
    cbn [app andb] in *. fold l in Hes. assert (Hhl : hl = all_healthy l.*2) by (rewrite Hh; unfold l; by rewrite answers_results).
    subst w4.
    destruct (str_added R d4 root (bs "status") (if hl then bs "ok" else bs "degraded") [] Hr4) as [R5 S5]. set (d5 := snd (yyjson_mut_obj_add_str d4 _ _ _)) in *.
    destruct (val_added R d5 root (bs "checks") checks [(bs "status", inl (if hl then bs "ok" else bs "degraded"))]) as [R6 S6]; [by rewrite S5, lookup_insert_eq|].
    set (d6 := snd (yyjson_mut_obj_add_val d5 _ _ _)) in *. rewrite S5, insert_insert_eq in S6. cbn [app] in S6.
    assert (He6 : entries_in (yy_store d6) checks es).
    { destruct He as [Hc He]. split; [by rewrite S6, lookup_insert_ne|]. rewrite Forall_forall in *. intros x Hx. destruct (He x Hx) as [Hx1 Hx2].
      split; [done|]. rewrite S6, lookup_insert_ne; [done|]. apply not_eq_sym. by apply Hnr. }
    assert (Ht : tree_of REPORT_DEPTH (yy_store d6) root = Some (report_json (all_healthy l.*2) l)).
    { unfold REPORT_DEPTH. rewrite tree_of_S, S6, lookup_insert_eq. cbn [mbind option_bind mapM]. unfold field_tree. cbn [fst snd]. rewrite <- S6.
      rewrite (tree_of_checks 0 _ _ _ He6). cbn [mbind option_bind fmap option_fmap option_map mret option_ret]. unfold report_json. rewrite Hhl. do 5 f_equal. rewrite <- Hes. by rewrite <- list_fmap_compose. }
    assert (Hroot : yy_root d6 = Some root) by congruence. pose proof (report_plain (all_healthy l.*2) l Hp) as Hpl.
    destruct (rel_write D R d6 root _ Hroot Ht Hpl) as [t Et]. rewrite Et, (spec_write _ _ _ _ Et Hroot Ht Hpl), (report_json_text l Hp), Hhl. done. }
  split; [exact Hyy|]. intros Hf Hl. rewrite Hyy. unfold live_handler. pose proof (report_written (hc_checkers cfg) w Hf Hl) as Hw. fold l in Hw.
  unfold l. rewrite answers_results. destruct (hc_checkers cfg) as [|chk chks] eqn:Ec; [done|].
  destruct (run_checkers (chk :: chks) w) as [rs w']. cbn [fst snd] in *. rewrite Hw.
  by replace (LIVE_BUF <=? length (report_text l)) with false by (symmetry; by apply Nat.leb_gt).
Qed.

(** ** A witness *)

(** A document as its objects, its root and the next address. *)
Record toy_doc := mk_doc { td_store : store; td_root : option val; td_next : val; td_fresh : forall v, (td_next <= v)%positive -> td_store !! v = None }.

Lemma insert_fresh (st : store) v l n :
  (forall u, (n <= u)%positive -> st !! u = None) -> (v < n)%positive -> forall u, (n <= u)%positive -> <[v := l]> st !! u = None.
Proof. intros Hf Hv u Hu. rewrite lookup_insert_ne by lia. by apply Hf. Qed.

Lemma present_below (d : toy_doc) v l : td_store d !! v = Some l -> (v < td_next d)%positive.
Proof. intros E. destruct (decide (v < td_next d)%positive) as [|Hn]; [done|]. rewrite (td_fresh d v) in E by lia. done. Qed.

Lemma empty_fresh v : (1 <= v)%positive -> (∅ : store) !! v = None.
Proof. intros _. apply lookup_empty. Qed.

Lemma next_fresh (d : toy_doc) v : (td_next d + 1 <= v)%positive -> <[td_next d := []]> (td_store d) !! v = None.
Proof. apply insert_fresh; [|lia]. intros u Hu. apply (td_fresh d). lia. Qed.

Definition toy_add (d : toy_doc) (o : option val) (f : bytes * (bytes + val)) : bool * toy_doc :=
  match o with
  | None => (false, d)
  | Some o =>
      match td_store d !! o as x return td_store d !! o = x -> bool * toy_doc with
      | Some l => fun E => (true, mk_doc (<[o := l ++ [f]]> (td_store d)) (td_root d) (td_next d)
                                   (insert_fresh _ _ _ _ (td_fresh d) (present_below d o l E)))
      | None => fun _ => (false, d)
      end eq_refl
  end.

Lemma toy_add_spec d o f l : td_store d !! o = Some l ->
  exists d', toy_add d (Some o) f = (true, d') /\ td_root d' = td_root d /\ td_store d' = <[o := l ++ [f]]> (td_store d).
Proof.
  intros Hl. unfold toy_add. generalize (present_below d o). destruct (td_store d !! o) as [l'|]; [|done].
  injection Hl as ->. intros p. by eexists.
Qed.

Definition toy_write (d : toy_doc) : option bytes :=
  r ← td_root d; j ← tree_of REPORT_DEPTH (td_store d) r; if plain_json j then Some (json_text j) else None.

#[local] Instance toy_yyjson : Yyjson toy_doc := {|
  yyjson_mut_doc_new := Some (mk_doc ∅ None 1 empty_fresh);
  yyjson_mut_obj d := (Some (td_next d), mk_doc (<[td_next d := []]> (td_store d)) (td_root d) (td_next d + 1) (next_fresh d));
  yyjson_mut_doc_set_root d v := mk_doc (td_store d) v (td_next d) (td_fresh d);
  yyjson_mut_obj_add_str d o k t := toy_add d o (k, inl t);
  yyjson_mut_obj_add_val d o k v := match v with Some v => toy_add d o (k, inr v) | None => (false, d) end;
  yyjson_mut_write := toy_write;
|}.

#[local] Program Instance toy_yyjson_spec : YyjsonSpec toy_doc := {| yy_store := td_store; yy_root := td_root |}.
Next Obligation. intros d [= <-]. done. Qed.
Next Obligation. intros d o d' [= <- <-]. cbn. split; [done|]. split; [|done]. apply (td_fresh d). lia. Qed.
Next Obligation. done. Qed.
Next Obligation. intros d o k t l ok d' E Hl. destruct (toy_add_spec d o (k, inl t) l Hl) as (d1 & E1 & H1). change (toy_add d (Some o) (k, inl t) = (ok, d')) in E. rewrite E1 in E. injection E as <- <-. exact H1. Qed.
Next Obligation. intros d o k v l ok d' E Hl. destruct (toy_add_spec d o (k, inr v) l Hl) as (d1 & E1 & H1). change (toy_add d (Some o) (k, inr v) = (ok, d')) in E. rewrite E1 in E. injection E as <- <-. exact H1. Qed.
Next Obligation. intros d r j t E Hr Ht Hp. change (toy_write d = Some t) in E. unfold toy_write in E. rewrite Hr in E. cbn [mbind option_bind] in E. rewrite Ht in E. cbn [mbind option_bind] in E. rewrite Hp in E. by injection E as <-. Qed.

Lemma toy_reliable : reliable toy_doc.
Proof.
  split.
  - by eexists.
  - intros d. by eexists.
  - intros d o k t [l Hl]. destruct (toy_add_spec d o (k, inl t) l Hl) as (d1 & E1 & _). change (fst (toy_add d (Some o) (k, inl t)) = true). by rewrite E1.
  - intros d o k v [l Hl]. destruct (toy_add_spec d o (k, inr v) l Hl) as (d1 & E1 & _). change (fst (toy_add d (Some o) (k, inr v)) = true). by rewrite E1.
  - intros d r j Hr Ht Hp. change (is_Some (toy_write d)). unfold toy_write. change (yy_root d) with (td_root d) in Hr. change (yy_store d) with (td_store d) in Ht. rewrite Hr. cbn [mbind option_bind]. rewrite Ht. cbn [mbind option_bind]. rewrite Hp. by eexists.
Qed.

Definition plain_health : ioh_health_config_t nat :=
  mk_health true None None None
    [mk_checker (bs "db") (fun w => ((0%Z, None), S w)); mk_checker (bs "disk") (fun w => (((-1)%Z, Some (bs "sda is full")), S w))].

Lemma live_builds_agree_witness :
  live_handler_yyjson (Some plain_health) 0 [] live_ctx = live_handler (Some plain_health) 0 [] live_ctx
  /\ snd (live_handler_yyjson (Some plain_health) 0 [] live_ctx) = 2.
Proof.
  destruct (live_builds_agree plain_health 0 [] live_ctx toy_reliable) as [E1 E2]; [discriminate|reflexivity|].
  split; [apply E2; [repeat constructor; first [bcompute|nle]|nle]|]. rewrite E1. reflexivity.
Defined.
