(* ===== verification/Server.v ===== *)
(** The server core ([src/src/core/ioh_server.h], [ioh_server.c]): submission of
    ring requests, request dispatch, the handling of every kind of completion,
    listening, running and shutting down.

    The kernel's side of the ring is explicit: [sv_sq] holds prepared requests,
    [sv_submitted] those the kernel was given, [sv_cq] the completions it delivered
    from the start, of which those before the position [sv_khead] are consumed.  A
    completion of a receive carries the bytes the kernel stored, one of the signal
    descriptor the signal's number.  TLS objects live in a table; a connection's
    [tls_ctx] is an index into it.  [close] calls are recorded. *)
From S2P Require Import Prelude CString PathNorm Radix Request Router Loop Proxy Conn Tls Response Pico Http1 Cookie Ctx Middleware.

(** ** Effects *)

(** A call that returns, that has no defined result (a store out of bounds or
    through a null pointer), or that did not return within the fuel. *)
Inductive eff (A : Type) := Val (a : A) | Undef | NoFuel.
Arguments Val {A}.
Arguments Undef {A}.
Arguments NoFuel {A}.

#[export] Instance eff_ret : MRet eff := fun _ a => Val a.
#[export] Instance eff_bind : MBind eff :=
  fun _ _ f m => match m with Val a => f a | Undef => Undef | NoFuel => NoFuel end.

(** ** Data *)

Record ioh_server_config_t := mk_server_config {
  sc_listen_addr : option bytes;
  sc_listen_port : Z;
  sc_max_connections : Z;
  sc_queue_depth : Z;
  sc_keepalive_timeout_ms : Z;
  sc_header_timeout_ms : Z;
  sc_body_timeout_ms : Z;
  sc_max_header_size : Z;
  sc_max_body_size : Z;
  sc_proxy_protocol : bool;
}.

Inductive ioh_shutdown_mode_t := IOH_SHUTDOWN_IMMEDIATE | IOH_SHUTDOWN_DRAIN.

(** What a request asks of the kernel. *)
Inductive prep :=
| PAccept (fd : Z)
| PRecv (fd off len : Z) (linked : bool)
| PLinkTimeout (ts : Z * Z)
| PSend (fd : Z) (data : bytes)
| PClose (fd : Z)
| PCancel (target : Z)
| PReadSignal (fd : Z).

Record sqe := mk_sqe { sq_ud : Z; sq_prep : prep }.

Record cqe := mk_cqe {
  cq_ud : Z;
  cq_res : Z;
  cq_more : bool;          (* IORING_CQE_F_MORE *)
  cq_data : bytes;         (* received bytes *)
  cq_signo : Z;
}.

Definition SIGQUIT : Z := 3.
Definition SIGTERM : Z := 15.

(** A request handler and a middleware, as the application writes them. *)
Abbreviation handler_fn := (ioh_ctx_t -> Z * ioh_ctx_t).
Abbreviation middleware_fn := (ioh_ctx_t -> prog ioh_ctx_t).

Section Server.
Context {T E G X S : Type}.
Context `{RT : RouteTable T handler_fn ioh_route_opts_t} `{W : WolfSSL X S}.
(** The build's choice of the parser and the C library's [inet_pton]. *)
Context (simd : bool) (inet_pton : Z -> bytes -> option bytes).
Abbreviation srouter := (ioh_router T handler_fn middleware_fn E G).

Record ioh_server := mk_server {
  sv_config : ioh_server_config_t;
  sv_pool : ioh_conn_pool;
  sv_router : option srouter;
  sv_tls_ctx : option (ioh_tls_ctx X);
  sv_on_request : option handler_fn;
  sv_listen_fd : Z;
  sv_signal_fd : Z;
  sv_listening : bool;
  sv_accepting : bool;
  sv_stopped : bool;
  sv_loop_stopped : bool;
  sv_sq : list sqe;
  sv_submitted : list sqe;
  sv_cq : list cqe;        (* every completion delivered so far; its length is the tail *)
  sv_khead : nat;          (* the head of the completion queue *)
  sv_tls : list (ioh_tls_conn_t S);
  sv_heap : heap;
  sv_rand : list Z;        (* the coming values of [arc4random] *)
  sv_closed : list Z;      (* descriptors closed *)
}.
Implicit Types (s : ioh_server) (c : ioh_conn_t).

(** ** Field updates *)

Definition with_pool s (p : ioh_conn_pool) : ioh_server :=
  mk_server (sv_config s) p (sv_router s) (sv_tls_ctx s) (sv_on_request s) (sv_listen_fd s) (sv_signal_fd s)
    (sv_listening s) (sv_accepting s) (sv_stopped s) (sv_loop_stopped s) (sv_sq s) (sv_submitted s) (sv_cq s) (sv_khead s)
    (sv_tls s) (sv_heap s) (sv_rand s) (sv_closed s).
Definition with_sq s (q : list sqe) : ioh_server :=
  mk_server (sv_config s) (sv_pool s) (sv_router s) (sv_tls_ctx s) (sv_on_request s) (sv_listen_fd s) (sv_signal_fd s)
    (sv_listening s) (sv_accepting s) (sv_stopped s) (sv_loop_stopped s) q (sv_submitted s) (sv_cq s) (sv_khead s)
    (sv_tls s) (sv_heap s) (sv_rand s) (sv_closed s).
Definition with_ring s (q sub : list sqe) (cq : list cqe) (k : nat) : ioh_server :=
  mk_server (sv_config s) (sv_pool s) (sv_router s) (sv_tls_ctx s) (sv_on_request s) (sv_listen_fd s) (sv_signal_fd s)
    (sv_listening s) (sv_accepting s) (sv_stopped s) (sv_loop_stopped s) q sub cq k
    (sv_tls s) (sv_heap s) (sv_rand s) (sv_closed s).
Definition with_tls s (t : list (ioh_tls_conn_t S)) : ioh_server :=
  mk_server (sv_config s) (sv_pool s) (sv_router s) (sv_tls_ctx s) (sv_on_request s) (sv_listen_fd s) (sv_signal_fd s)
    (sv_listening s) (sv_accepting s) (sv_stopped s) (sv_loop_stopped s) (sv_sq s) (sv_submitted s) (sv_cq s) (sv_khead s)
    t (sv_heap s) (sv_rand s) (sv_closed s).
Definition with_heap s (h : heap) : ioh_server :=
  mk_server (sv_config s) (sv_pool s) (sv_router s) (sv_tls_ctx s) (sv_on_request s) (sv_listen_fd s) (sv_signal_fd s)
    (sv_listening s) (sv_accepting s) (sv_stopped s) (sv_loop_stopped s) (sv_sq s) (sv_submitted s) (sv_cq s) (sv_khead s)
    (sv_tls s) h (sv_rand s) (sv_closed s).
Definition with_rand s (r : list Z) : ioh_server :=
  mk_server (sv_config s) (sv_pool s) (sv_router s) (sv_tls_ctx s) (sv_on_request s) (sv_listen_fd s) (sv_signal_fd s)
    (sv_listening s) (sv_accepting s) (sv_stopped s) (sv_loop_stopped s) (sv_sq s) (sv_submitted s) (sv_cq s) (sv_khead s)
    (sv_tls s) (sv_heap s) r (sv_closed s).
Definition with_closed s (l : list Z) : ioh_server :=
  mk_server (sv_config s) (sv_pool s) (sv_router s) (sv_tls_ctx s) (sv_on_request s) (sv_listen_fd s) (sv_signal_fd s)
    (sv_listening s) (sv_accepting s) (sv_stopped s) (sv_loop_stopped s) (sv_sq s) (sv_submitted s) (sv_cq s) (sv_khead s)
    (sv_tls s) (sv_heap s) (sv_rand s) l.
(** The listening socket and the flags. *)
Definition with_flags s (lfd : Z) (listening accepting stopped loop_stopped : bool) : ioh_server :=
  mk_server (sv_config s) (sv_pool s) (sv_router s) (sv_tls_ctx s) (sv_on_request s) lfd (sv_signal_fd s)
    listening accepting stopped loop_stopped (sv_sq s) (sv_submitted s) (sv_cq s) (sv_khead s)
    (sv_tls s) (sv_heap s) (sv_rand s) (sv_closed s).
Definition set_accepting s (a : bool) : ioh_server :=
  with_flags s (sv_listen_fd s) (sv_listening s) a (sv_stopped s) (sv_loop_stopped s).
Definition set_stopped s (b : bool) : ioh_server :=
  with_flags s (sv_listen_fd s) (sv_listening s) (sv_accepting s) b (sv_loop_stopped s).

Definition set_fd c (x : Z) : ioh_conn_t :=
  mk_conn x (state c) (id c) (peer_addr c) (proxy_addr c) (proxy_used c) (created_at_ms c)
    (last_activity_ms c) (protocol_ctx c) (tls_ctx c) (recv_buf c) (recv_buf_size c) (recv_len c)
    (send_buf c) (send_len c) (send_offset c) (send_active c) (c_keep_alive c) (tls_done c)
    (timeout_phase c) (timeout_ts c) (route_body_timeout_ms c) (route_keepalive_timeout_ms c).
Definition set_proxy c (a : sockaddr) : ioh_conn_t :=
  mk_conn (fd c) (state c) (id c) (peer_addr c) a true (created_at_ms c)
    (last_activity_ms c) (protocol_ctx c) (tls_ctx c) (recv_buf c) (recv_buf_size c) (recv_len c)
    (send_buf c) (send_len c) (send_offset c) (send_active c) (c_keep_alive c) (tls_done c)
    (timeout_phase c) (timeout_ts c) (route_body_timeout_ms c) (route_keepalive_timeout_ms c).
Definition set_tls c (t : option Z) (d : bool) : ioh_conn_t :=
  mk_conn (fd c) (state c) (id c) (peer_addr c) (proxy_addr c) (proxy_used c) (created_at_ms c)
    (last_activity_ms c) (protocol_ctx c) t (recv_buf c) (recv_buf_size c) (recv_len c)
    (send_buf c) (send_len c) (send_offset c) (send_active c) (c_keep_alive c) d
    (timeout_phase c) (timeout_ts c) (route_body_timeout_ms c) (route_keepalive_timeout_ms c).
Definition set_recv c (b : option bytes) (len : Z) : ioh_conn_t :=
  mk_conn (fd c) (state c) (id c) (peer_addr c) (proxy_addr c) (proxy_used c) (created_at_ms c)
    (last_activity_ms c) (protocol_ctx c) (tls_ctx c) b (recv_buf_size c) len
    (send_buf c) (send_len c) (send_offset c) (send_active c) (c_keep_alive c) (tls_done c)
    (timeout_phase c) (timeout_ts c) (route_body_timeout_ms c) (route_keepalive_timeout_ms c).
Definition set_send c (b : option bytes) (len off : Z) (act : bool) : ioh_conn_t :=
  mk_conn (fd c) (state c) (id c) (peer_addr c) (proxy_addr c) (proxy_used c) (created_at_ms c)
    (last_activity_ms c) (protocol_ctx c) (tls_ctx c) (recv_buf c) (recv_buf_size c) (recv_len c)
    b len off act (c_keep_alive c) (tls_done c)
    (timeout_phase c) (timeout_ts c) (route_body_timeout_ms c) (route_keepalive_timeout_ms c).
Definition set_keep_alive c (k : bool) : ioh_conn_t :=
  mk_conn (fd c) (state c) (id c) (peer_addr c) (proxy_addr c) (proxy_used c) (created_at_ms c)
    (last_activity_ms c) (protocol_ctx c) (tls_ctx c) (recv_buf c) (recv_buf_size c) (recv_len c)
    (send_buf c) (send_len c) (send_offset c) (send_active c) k (tls_done c)
    (timeout_phase c) (timeout_ts c) (route_body_timeout_ms c) (route_keepalive_timeout_ms c).
Definition set_timeout c (p : ioh_timeout_phase_t) (t : Z * Z) : ioh_conn_t :=
  mk_conn (fd c) (state c) (id c) (peer_addr c) (proxy_addr c) (proxy_used c) (created_at_ms c)
    (last_activity_ms c) (protocol_ctx c) (tls_ctx c) (recv_buf c) (recv_buf_size c) (recv_len c)
    (send_buf c) (send_len c) (send_offset c) (send_active c) (c_keep_alive c) (tls_done c)
    p t (route_body_timeout_ms c) (route_keepalive_timeout_ms c).
Definition set_routes c (b k : Z) : ioh_conn_t :=
  mk_conn (fd c) (state c) (id c) (peer_addr c) (proxy_addr c) (proxy_used c) (created_at_ms c)
    (last_activity_ms c) (protocol_ctx c) (tls_ctx c) (recv_buf c) (recv_buf_size c) (recv_len c)
    (send_buf c) (send_len c) (send_offset c) (send_active c) (c_keep_alive c) (tls_done c)
    (timeout_phase c) (timeout_ts c) b k.

(** A connection pointer is the index of its slot. *)
Definition conn_at s (i : nat) : ioh_conn_t := default (blank_conn IOH_CONN_FREE) (conns (sv_pool s) !! i).
Definition upd_conn s (i : nat) (f : ioh_conn_t -> ioh_conn_t) : ioh_server :=
  let p := sv_pool s in
  with_pool s (mk_pool (<[i := f (conn_at s i)]> (conns p)) (max_conns p) (active_count p) (next_id p)).

(** [(void)ioh_conn_transition(conn, new)]. *)
Definition transition s (i : nat) (new : ioh_conn_state_t) : ioh_server :=
  upd_conn s i (fun c => default c (fst (ioh_conn_transition (Some c) new))).

(** ** Lifecycle *)

Definition ioh_server_is_draining (s : option ioh_server) : bool :=
  match s with Some s => sv_stopped s | None => false end.

Definition ioh_server_config_init : ioh_server_config_t :=
  mk_server_config (Some (bs "0.0.0.0")) 0 1024 256 65000 30000 60000 8192 1048576 false.

Definition ioh_server_config_validate (cfg : option ioh_server_config_t) : res unit :=
  match cfg with
  | None => Err EINVAL
  | Some cfg =>
      if (sc_listen_port cfg =? 0)%Z then Err EINVAL else
      if (sc_max_connections cfg =? 0)%Z then Err EINVAL else Ok tt
  end.

(** [ring_ok] is the kernel's answer to the ring setup. *)
Definition ioh_server_create (cfg : option ioh_server_config_t) (ring_ok : bool) (h : heap)
    : option ioh_server * heap :=
  match cfg with
  | None => (None, h)
  | Some c =>
      if negb (is_ok (ioh_server_config_validate cfg)) then (None, h) else
      let '(ok, h) := xalloc h in
      if negb ok then (None, h) else
      let d := ioh_loop_config_init in
      let loop_cfg := mk_loop_config (sc_queue_depth c) (buf_ring_size d) (buf_size d) (defer_taskrun d) in
      match ioh_loop_create (Some loop_cfg) ring_ok h with
      | (None, h) => (None, h)
      | (Some _, h) =>
          match ioh_conn_pool_create (sc_max_connections c) h with
          | (None, h) => (None, h)
          | (Some pool, h) =>
              (Some (mk_server c pool None None None (-1) (-1) false false false false [] [] [] 0 [] h [] []), h)
          end
      end
  end.

(** The descriptors a destroyed server has closed. *)
Definition ioh_server_destroy s : list Z :=
  (if (0 <=? sv_signal_fd s)%Z then [sv_signal_fd s] else [])
  ++ (if (0 <=? sv_listen_fd s)%Z then [sv_listen_fd s] else []).

Definition ioh_server_pool (s : option ioh_server) : option ioh_conn_pool := sv_pool <$> s.
Definition ioh_server_listen_fd (s : option ioh_server) : Z := match s with Some s => sv_listen_fd s | None => -1 end.

Definition ioh_server_set_router s (r : option srouter) : ioh_server :=
  mk_server (sv_config s) (sv_pool s) r (sv_tls_ctx s) (sv_on_request s) (sv_listen_fd s) (sv_signal_fd s)
    (sv_listening s) (sv_accepting s) (sv_stopped s) (sv_loop_stopped s) (sv_sq s) (sv_submitted s) (sv_cq s) (sv_khead s)
    (sv_tls s) (sv_heap s) (sv_rand s) (sv_closed s).
Definition ioh_server_set_on_request s (f : option handler_fn) : ioh_server :=
  mk_server (sv_config s) (sv_pool s) (sv_router s) (sv_tls_ctx s) f (sv_listen_fd s) (sv_signal_fd s)
    (sv_listening s) (sv_accepting s) (sv_stopped s) (sv_loop_stopped s) (sv_sq s) (sv_submitted s) (sv_cq s) (sv_khead s)
    (sv_tls s) (sv_heap s) (sv_rand s) (sv_closed s).
Definition ioh_server_set_tls s (t : option (ioh_tls_ctx X)) : ioh_server :=
  mk_server (sv_config s) (sv_pool s) (sv_router s) t (sv_on_request s) (sv_listen_fd s) (sv_signal_fd s)
    (sv_listening s) (sv_accepting s) (sv_stopped s) (sv_loop_stopped s) (sv_sq s) (sv_submitted s) (sv_cq s) (sv_khead s)
    (sv_tls s) (sv_heap s) (sv_rand s) (sv_closed s).

(** ** Arming requests *)

(** [io_uring_get_sqe], and what is prepared in the entry. *)
Definition get_sqe s (e : sqe) : option ioh_server :=
  if (Z.of_nat (length (sv_sq s)) <? sc_queue_depth (sv_config s))%Z
  then Some (with_sq s (sv_sq s ++ [e])) else None.

Definition arm_multishot_accept s : ioh_server * res unit :=
  match get_sqe s (mk_sqe (IOH_ENCODE_USERDATA 0 IOH_OP_ACCEPT) (PAccept (sv_listen_fd s))) with
  | None => (s, Err ENOSPC)
  | Some s => (set_accepting s true, Ok tt)
  end.

Definition timeout_ms_for_phase s c (phase : ioh_timeout_phase_t) : Z :=
  match phase with
  | IOH_TIMEOUT_HEADER => sc_header_timeout_ms (sv_config s)
  | IOH_TIMEOUT_BODY =>
      if (0 <? route_body_timeout_ms c)%Z then route_body_timeout_ms c else sc_body_timeout_ms (sv_config s)
  | IOH_TIMEOUT_KEEPALIVE =>
      if (0 <? route_keepalive_timeout_ms c)%Z then route_keepalive_timeout_ms c
      else sc_keepalive_timeout_ms (sv_config s)
  | IOH_TIMEOUT_NONE => 0
  end.

Definition ms_ts (ms : Z) : Z * Z := (ms / 1000, ms mod 1000 * 1000000)%Z.

Definition arm_recv s (i : nat) : ioh_server * res unit :=
  let c := conn_at s i in
  let recv linked := mk_sqe (IOH_ENCODE_USERDATA (id c) IOH_OP_RECV)
                       (PRecv (fd c) (recv_len c) (u64 (recv_buf_size c - recv_len c)) linked) in
  match get_sqe s (recv false) with
  | None => (s, Err ENOSPC)
  | Some s1 =>
      let tmo := timeout_ms_for_phase s c (timeout_phase c) in
      if (0 <? tmo)%Z then
        match get_sqe (with_sq s (sv_sq s ++ [recv true]))
                (mk_sqe (IOH_ENCODE_USERDATA (id c) IOH_OP_TIMEOUT) (PLinkTimeout (ms_ts tmo))) with
        | Some s2 => (upd_conn s2 i (fun c => set_timeout c (timeout_phase c) (ms_ts tmo)), Ok tt)
        | None => (s1, Ok tt)
        end
      else (s1, Ok tt)
  end.

Definition find_conn_by_id s (cid : Z) : option nat :=
  find_slot (fun c => negb (is_free c) && (id c =? cid)%Z) (conns (sv_pool s)).

(** The TLS object of a connection. *)
Definition tls_at s (t : Z) : option (ioh_tls_conn_t S) := sv_tls s !! Z.to_nat t.
Definition set_tls_at s (t : Z) (o : ioh_tls_conn_t S) : ioh_server := with_tls s (<[Z.to_nat t := o]> (sv_tls s)).

(** The bytes to send for [data]: the TLS records that carry it, or [data]. *)
Definition encrypt s (i : nat) (data : bytes) : ioh_server * res bytes * bool :=
  let c := conn_at s i in
  match tls_ctx c ≫= tls_at s, tls_ctx c with
  | Some o, Some t =>
      if tls_done c then
        let '(o, w) := ioh_tls_write o data in
        match w with
        | Err e => (set_tls_at s t o, Err e, false)
        | Ok _ =>
            let out := ioh_tls_get_output o in
            if 0 <? length out then
              let '(ok, h) := xalloc (sv_heap s) in
              if negb ok then (with_heap (set_tls_at s t o) h, Err ENOMEM, false)
              else (with_heap (set_tls_at s t (ioh_tls_consume_output o (length out))) h, Ok out, true)
            else (set_tls_at s t o, Ok data, false)
        end
      else (s, Ok data, false)
  | _, _ => (s, Ok data, false)
  end.

Definition arm_send s (i : nat) (data : bytes) : ioh_server * res unit :=
  if send_active (conn_at s i) then (s, Err EBUSY) else
  let '(s, enc, owned) := encrypt s i data in
  match enc with
  | Err e => (s, Err e)
  | Ok out =>
      let '(ok, h) := if owned then (true, sv_heap s) else xalloc (sv_heap s) in
      let s := with_heap s h in
      if negb ok then (upd_conn s i (fun c => set_send c None (send_len c) (send_offset c) (send_active c)), Err ENOMEM)
      else
        let armed := upd_conn s i (fun c => set_send c (Some out) (Z.of_nat (length out)) 0 true) in
        let c := conn_at armed i in
        match get_sqe armed (mk_sqe (IOH_ENCODE_USERDATA (id c) IOH_OP_SEND) (PSend (fd c) out)) with
        | None => (upd_conn armed i (fun c => set_send c (send_buf c) (send_len c) (send_offset c) false), Err ENOSPC)
        | Some s => (s, Ok tt)
        end
  end.

Definition ERROR_RESP_BUF : nat := 512.

Definition send_error_response s (i : nat) (st : Z) (msg : bytes) : option ioh_server :=
  let '(_, r, h) := ioh_response_init (sv_heap s) in
  match ioh_response_set_body h (with_status r st) (Some msg) (Z.of_nat (length msg)) with
  | None => None
  | Some (_, r, h) =>
      let s := with_heap s h in
      let s := match ioh_http1_serialize_response r ERROR_RESP_BUF with
               | Ok text => if 0 <? length text then fst (arm_send s i text) else s
               | Err _ => s
               end in
      Some (upd_conn s i (fun c => set_keep_alive c false))
  end.

Definition arm_close s (i : nat) : ioh_server :=
  let s := upd_conn s i (fun c => set_tls c None (tls_done c)) in
  let c := conn_at s i in
  match get_sqe s (mk_sqe (IOH_ENCODE_USERDATA (id c) IOH_OP_CLOSE) (PClose (fd c))) with
  | None => with_pool (with_closed s (sv_closed s ++ [fd c])) (ioh_conn_free (sv_pool s) i)
  | Some s => transition s i IOH_CONN_CLOSING
  end.

(** ** Dispatch *)

Definition hex_digit (d : Z) : byte :=
  default x30 (Byte.of_N (Z.to_N (if (d <? 10)%Z then 48 + d else 87 + d))).
(** [%08x]. *)
Definition print_hex8 (z : Z) : bytes :=
  (fun k => hex_digit (Z.shiftr z (4 * Z.of_nat (7 - k)) mod 16)) <$> seq 0 8.

Definition xrand (r : list Z) : Z * list Z := match r with [] => (0%Z, []) | z :: r => (u32 z, r) end.

Definition with_params (r : ioh_request_t) (ps : list ioh_param_t) : ioh_request_t :=
  mk_request (method r) (path r) (path_len r) (query r) (query_len r) (headers r) (body r)
    (body_len r) ps (http_version_major r) (http_version_minor r) (keep_alive r) (content_length r)
    (content_type r) (host r).

(** The request id: the client's, or thirty-two random hex digits. *)
Definition request_id s (c : ioh_ctx_t) : option (ioh_server * ioh_ctx_t) :=
  let key := Some (bs "request_id") in
  let name := Some (bs "X-Request-Id") in
  match ioh_request_header (c_req c) (bs "X-Request-Id") with
  | Some v =>
      let c := fst (ioh_ctx_set c key (Some (PBuf v))) in
      match ioh_ctx_set_header (sv_heap s) c name (Some v) with
      | Some (_, c, h) => Some (with_heap s h, c)
      | None => None
      end
  | None =>
      let '(r1, rs) := xrand (sv_rand s) in
      let '(r2, rs) := xrand rs in
      let '(r3, rs) := xrand rs in
      let '(r4, rs) := xrand rs in
      let s := with_rand s rs in
      let text := print_hex8 r1 ++ print_hex8 r2 ++ print_hex8 r3 ++ print_hex8 r4 in
      match ioh_ctx_sprintf c text (sv_heap s) with
      | None => None
      | Some (None, c, h) => Some (with_heap s h, c)
      | Some (Some rid, c, h) =>
          let c := fst (ioh_ctx_set c key (Some rid)) in
          match ioh_ctx_set_header h c name (Some text) with
          | Some (_, c, h) => Some (with_heap s h, c)
          | None => None
          end
      end
  end.

(** A handler's result with the state the server keeps beside it. *)
Definition answered s (r : Z * ioh_ctx_t) : option (ioh_server * Z * ioh_ctx_t) := Some (s, fst r, snd r).

(** The built-in error answer. *)
Definition error_answer s (c : ioh_ctx_t) (st : Z) (msg : bytes) : option (ioh_server * Z * ioh_ctx_t) :=
  match ioh_ctx_error (sv_heap s) c st (Some msg) with
  | Some (rc, c, h) => Some (with_heap s h, match rc with Ok _ => 0%Z | Err e => (- errno_code e)%Z end, c)
  | None => None
  end.

Definition req_path (r : ioh_request_t) : option bytes := take (path_len r) <$> path r.

(** Which handler answers, and its answer. *)
Definition route_request s (i : nat) (c : ioh_ctx_t) : option (ioh_server * Z * ioh_ctx_t) :=
  match sv_router s with
  | Some r =>
      let m := ioh_router_dispatch (Some r) (method (c_req c)) (req_path (c_req c)) in
      let s := match status m, opts m with
               | IOH_MATCH_FOUND, Some o =>
                   upd_conn s i (fun c => set_routes c (o_body_timeout_ms o) (o_keepalive_timeout_ms o))
               | _, _ => s
               end in
      match status m, rm_handler m with
      | IOH_MATCH_FOUND, Some h =>
          let ps := rm_params m in
          let c := mk_ctx (with_params (c_req c) (take IOH_MAX_PATH_PARAMS ps)) (c_resp c) (c_arena c)
                     (c_values c) (c_conn_fd c) (c_aborted c) in
          match ioh_chain_execute c (global_mw r) [] (Some h) with
          | Some x => answered s x
          | None => None
          end
      | IOH_MATCH_METHOD_NOT_ALLOWED, _ =>
          match method_not_allowed_handler r with
          | Some h => answered s (h c)
          | None => error_answer s c 405 (bs "Method Not Allowed")
          end
      | _, _ =>
          match not_found_handler r with
          | Some h => answered s (h c)
          | None => error_answer s c 404 (bs "Not Found")
          end
      end
  | None =>
      match sv_on_request s with
      | Some f => answered s (f c)
      | None => error_answer s c 503 (bs "No handler configured")
      end
  end.

Definition RESP_BUF : nat := Z.to_nat 8192.

Definition dispatch_request s (i : nat) (req : ioh_request_t) : option (ioh_server * Z) :=
  let '(_, r, h) := ioh_response_init (sv_heap s) in
  match ioh_ctx_init (Some req) (Some r) h with
  | (Err e, h) => Some (with_heap s h, (- errno_code e)%Z)
  | (Ok c, h) =>
      match request_id (with_heap s h) c with
      | None => None
      | Some (s, c) =>
          match route_request s i c with
          | None => None
          | Some (s, rc, c) =>
              let sent := match ioh_http1_serialize_response (c_resp c) RESP_BUF with
                          | Ok text => if 0 <? length text then arm_send s i text else (s, Ok tt)
                          | Err _ => (s, Ok tt)
                          end in
              match sent with
              | (s, Err _) => Some (arm_close s i, (- errno_code EIO)%Z)
              | (s, Ok _) =>
                  Some (upd_conn s i (fun k => set_keep_alive k (keep_alive (c_req c) && (r_status (c_resp c) <? 400)%Z)), rc)
              end
          end
      end
  end.

(** ** Completions *)

Definition op_is (c : cqe) (op : ioh_op_type_t) : bool := (IOH_DECODE_OP (cq_ud c) =? op_val op)%Z.
Definition cqe_conn s (c : cqe) : option nat := find_conn_by_id s (u32 (IOH_DECODE_ID (cq_ud c))).

(** A TLS object for the connection, or a null pointer. *)
Definition start_tls s (i : nat) : ioh_server :=
  match ioh_tls_conn_create (sv_tls_ctx s) (sv_heap s) with
  | (None, h) => upd_conn (with_heap s h) i (fun c => set_tls c None false)
  | (Some o, h) =>
      upd_conn (with_tls (with_heap s h) (sv_tls s ++ [o])) i
        (fun c => set_tls c (Some (Z.of_nat (length (sv_tls s)))) false)
  end.

Definition begin_protocol s (i : nat) : ioh_server :=
  match sv_tls_ctx s with
  | Some _ => transition (start_tls s i) i IOH_CONN_TLS_HANDSHAKE
  | None => transition s i IOH_CONN_HTTP_ACTIVE
  end.

Definition on_accept s (e : cqe) : ioh_server :=
  let s :=
    if (0 <=? cq_res e)%Z then
      match ioh_conn_alloc (sv_pool s) (sv_heap s) with
      | (Some i, p, h) =>
          let s := with_heap (with_pool s p) h in
          let s := upd_conn s i (fun c => set_timeout (set_fd c (cq_res e)) IOH_TIMEOUT_HEADER (timeout_ts c)) in
          let s := if sc_proxy_protocol (sv_config s) then transition s i IOH_CONN_PROXY_HEADER
                   else begin_protocol s i in
          match arm_recv s i with
          | (s, Ok _) => s
          | (s, Err _) => with_pool (with_closed s (sv_closed s ++ [fd (conn_at s i)])) (ioh_conn_free (sv_pool s) i)
          end
      | (None, p, h) =>
          let s := with_heap (with_pool s p) h in
          with_closed s (sv_closed s ++ [cq_res e])
      end
    else s in
  if negb (cq_more e) then
    let s := set_accepting s false in
    if sv_listening s && negb (sv_stopped s) then fst (arm_multishot_accept s) else s
  else s.

(** What a stage of the receive path leaves: the handling of this completion is
    over, or the next stage runs. *)
Inductive stage := Stop (s : ioh_server) | Next (s : ioh_server).

(** The first [recv_len] bytes of the receive buffer. *)
Definition received c : bytes := take (Z.to_nat (recv_len c)) (default [] (recv_buf c)).

(** [memmove(recv_buf, recv_buf + n, remaining)] and the new length; undefined
    when the source is not inside the buffer. *)
Definition consume c (n : Z) : option ioh_conn_t :=
  let remaining := u64 (recv_len c - n) in
  if (0 <? remaining)%Z then
    match recv_buf c with
    | None => None
    | Some b =>
        if (recv_buf_size c <? n + remaining)%Z then None
        else Some (set_recv c (Some (take (Z.to_nat remaining) (drop (Z.to_nat n) b) ++ drop (Z.to_nat remaining) b)) remaining)
    end
  else Some (set_recv c (recv_buf c) remaining).

Definition consume_at s (i : nat) (n : Z) : option ioh_server :=
  match consume (conn_at s i) n with
  | Some c => Some (upd_conn s i (fun _ => c))
  | None => None
  end.

Definition recv_proxy s (i : nat) : option stage :=
  if bool_decide (state (conn_at s i) = IOH_CONN_PROXY_HEADER) then
    match ioh_proxy_decode inet_pton (Some (received (conn_at s i))) with
    | Ok (n, r) =>
        if 0 <? n then
          match consume_at (upd_conn s i (fun c => set_proxy c (src_addr r))) i (Z.of_nat n) with
          | None => None
          | Some s =>
              let s := begin_protocol s i in
              if (recv_len (conn_at s i) =? 0)%Z then Some (Stop (fst (arm_recv s i))) else Some (Next s)
          end
        else Some (Stop (arm_close s i))
    | Err EAGAIN => Some (Stop (fst (arm_recv s i)))
    | Err _ => Some (Stop (arm_close s i))
    end
  else Some (Next s).

(** [if (!conn->send_active) arm_recv(srv, conn)]. *)
Definition recv_unless_sending s (i : nat) : ioh_server :=
  if send_active (conn_at s i) then s else fst (arm_recv s i).

Definition recv_handshake s (i : nat) (t : Z) (o : ioh_tls_conn_t S) : ioh_server :=
  let '(o, hs) := ioh_tls_handshake o in
  let s := set_tls_at s t o in
  let out := ioh_tls_get_output o in
  let s := if 0 <? length out
           then set_tls_at (fst (arm_send s i out)) t (ioh_tls_consume_output o (length out)) else s in
  match hs with
  | Ok _ =>
      let s := upd_conn s i (fun c => set_timeout (set_tls c (tls_ctx c) true) IOH_TIMEOUT_HEADER (timeout_ts c)) in
      recv_unless_sending (transition s i IOH_CONN_HTTP_ACTIVE) i
  | Err EAGAIN => recv_unless_sending s i
  | Err _ => arm_close s i
  end.

Definition PLAIN_SIZE : nat := Z.to_nat 8192.

Definition recv_tls s (i : nat) : stage :=
  match tls_ctx (conn_at s i) ≫= tls_at s, tls_ctx (conn_at s i) with
  | Some o, Some t =>
      let '(o, _) := ioh_tls_feed_input o (Some (received (conn_at s i))) in
      let s := upd_conn (set_tls_at s t o) i (fun c => set_recv c (recv_buf c) 0) in
      if negb (tls_done (conn_at s i)) then Stop (recv_handshake s i t o) else
      let '(o, r) := ioh_tls_read o PLAIN_SIZE in
      let s := set_tls_at s t o in
      match r with
      | Ok d =>
          Next (if (Z.of_nat (length d) <=? recv_buf_size (conn_at s i))%Z
                then upd_conn s i (fun c => set_recv c (Some (d ++ drop (length d) (default [] (recv_buf c)))) (Z.of_nat (length d)))
                else s)
      | Err EAGAIN => Stop (fst (arm_recv s i))
      | Err _ => Stop (arm_close s i)
      end
  | _, _ => Next s
  end.

(** [ioh_http1_parse_request] on the first [len] bytes of the object [b]: the
    request's pointers go on to the end of the object. *)
Definition parse_buffer (b : bytes) (len : nat) : res nat * ioh_request_t :=
  if len =? 0 then (Err EAGAIN, ioh_request_init) else
  match phr_parse_request simd (take len b) IOH_HTTP1_MAX_HEADERS 0 with
  | PPartial => (Err EAGAIN, ioh_request_init)
  | PFail => (Err EINVAL, ioh_request_init)
  | PDone q consumed _ => fill_request b q consumed ioh_request_init
  end.

Definition with_body (r : ioh_request_t) (b : bytes) (len : Z) : ioh_request_t :=
  mk_request (method r) (path r) (path_len r) (query r) (query_len r) (headers r) (Some b)
    len (params r) (http_version_major r) (http_version_minor r) (keep_alive r) (content_length r)
    (content_type r) (host r).

(** The route's body timeout, while the body is awaited. *)
Definition await_body s (i : nat) (req : ioh_request_t) : ioh_server :=
  let s := match sv_router s with
           | Some r =>
               let m := ioh_router_dispatch (Some r) (method req) (req_path req) in
               match status m, opts m with
               | IOH_MATCH_FOUND, Some o =>
                   upd_conn s i (fun c => set_routes c (o_body_timeout_ms o) (route_keepalive_timeout_ms c))
               | _, _ => s
               end
           | None => s
           end in
  let s := upd_conn s i (fun c => set_timeout c IOH_TIMEOUT_BODY (timeout_ts c)) in
  fst (arm_recv s i).

Definition recv_http s (i : nat) : option ioh_server :=
  let c := conn_at s i in
  if (sc_max_header_size (sv_config s) <? recv_len c)%Z
  then send_error_response s i 431 (bs "Request Header Fields Too Large") else
  let buf := default [] (recv_buf c) in
  match parse_buffer buf (Z.to_nat (recv_len c)) with
  | (Ok consumed, req) =>
      let hdr_len := Z.of_nat consumed in
      let body_avail := (recv_len c - hdr_len)%Z in
      if (sc_max_body_size (sv_config s) <? content_length req)%Z
      then send_error_response s i 413 (bs "Content Too Large") else
      if (0 <? content_length req)%Z && (body_avail <? content_length req)%Z then Some (await_body s i req) else
      let req := if (0 <? content_length req)%Z
                 then with_body req (drop consumed buf) (content_length req) else req in
      match dispatch_request s i req with
      | None => None
      | Some (s, _) => consume_at s i (hdr_len + content_length req)
      end
  | (Err EAGAIN, _) => Some (fst (arm_recv s i))
  | (Err _, _) => send_error_response s i 400 (bs "Bad Request")
  end.

(** The kernel has stored the bytes behind those received before. *)
Definition store_received c (d : bytes) (n : Z) : ioh_conn_t :=
  let b := default [] (recv_buf c) in
  let at_ := Z.to_nat (recv_len c) in
  set_recv c (Some (take at_ b ++ d ++ drop (at_ + length d) b)) (u64 (recv_len c + n)).

Definition on_recv s (e : cqe) : option ioh_server :=
  match cqe_conn s e with
  | None => Some s
  | Some i =>
      if (cq_res e <=? 0)%Z then Some (arm_close s i) else
      let s := upd_conn s i (fun c => store_received c (cq_data e) (cq_res e)) in
      match recv_proxy s i with
      | None => None
      | Some (Stop s) => Some s
      | Some (Next s) =>
          match recv_tls s i with
          | Stop s => Some s
          | Next s => recv_http s i
          end
      end
  end.

Definition on_send s (e : cqe) : ioh_server :=
  match cqe_conn s e with
  | None => s
  | Some i =>
      let s := upd_conn s i (fun c => set_send c (send_buf c) (send_len c) (send_offset c) false) in
      if (cq_res e <? 0)%Z then arm_close s i else
      let s := upd_conn s i (fun c => set_send c (send_buf c) (send_len c) (u64 (send_offset c + cq_res e)) (send_active c)) in
      let c := conn_at s i in
      if (send_offset c <? send_len c)%Z then
        let rest := drop (Z.to_nat (send_offset c)) (default [] (send_buf c)) in
        match get_sqe s (mk_sqe (IOH_ENCODE_USERDATA (id c) IOH_OP_SEND) (PSend (fd c) rest)) with
        | Some s => upd_conn s i (fun c => set_send c (send_buf c) (send_len c) (send_offset c) true)
        | None => arm_close s i
        end
      else
        let s := upd_conn s i (fun c => set_send c None 0 0 (send_active c)) in
        if bool_decide (state c = IOH_CONN_TLS_HANDSHAKE) then fst (arm_recv s i) else
        if c_keep_alive c && bool_decide (state c = IOH_CONN_HTTP_ACTIVE) then
          let s := upd_conn s i (fun c => set_recv (set_timeout c IOH_TIMEOUT_KEEPALIVE (timeout_ts c)) (recv_buf c) 0) in
          upd_conn (fst (arm_recv s i)) i (fun c => set_routes c 0 0)
        else arm_close s i
  end.

Definition on_close s (e : cqe) : ioh_server :=
  match cqe_conn s e with
  | None => s
  | Some i => with_pool s (ioh_conn_free (sv_pool s) i)
  end.

Definition on_timeout s (e : cqe) : ioh_server :=
  if (cq_res e =? - ECANCELED)%Z then s else
  match cqe_conn s e with
  | Some i => arm_close s i
  | None => s
  end.

(** Every completion but those of the signal descriptor. *)
Definition on_completion s (e : cqe) : option ioh_server :=
  if op_is e IOH_OP_ACCEPT then Some (on_accept s e) else
  if op_is e IOH_OP_RECV then on_recv s e else
  if op_is e IOH_OP_SEND then Some (on_send s e) else
  if op_is e IOH_OP_CLOSE then Some (on_close s e) else
  if op_is e IOH_OP_TIMEOUT then Some (on_timeout s e) else Some s.

(** ** Running and shutting down *)

(** What the kernel does in one turn of the loop: its answer to the submission,
    the completions it delivers and, when there are none, the error of the wait
    (a timeout once the given turns are used up). *)
Record turn := mk_turn { k_submit : Z; k_cqes : list cqe; k_wait : Z }.
Definition next_turn (env : list turn) : turn * list turn :=
  match env with
  | [] => (mk_turn 0 [] (- ETIME), [])
  | t :: env => (t, env)
  end.

(** Close a slot in use; the loop body of both shutdown modes. *)
Definition force_close s (i : nat) : ioh_server :=
  if is_free (conn_at s i) then s else
  let s := upd_conn s i (fun c => set_tls c None (tls_done c)) in
  let x := fd (conn_at s i) in
  let s := if (0 <=? x)%Z then upd_conn (with_closed s (sv_closed s ++ [x])) i (fun c => set_fd c (-1)) else s in
  with_pool s (ioh_conn_free (sv_pool s) i).

Definition slots s : list nat := seq 0 (length (conns (sv_pool s))).

Definition close_all s : ioh_server := fold_left force_close (slots s) s.

Definition mark_draining s : ioh_server :=
  fold_left (fun s i =>
    if bool_decide (state (conn_at s i) = IOH_CONN_HTTP_ACTIVE)
    then upd_conn (transition s i IOH_CONN_DRAINING) i (fun c => set_keep_alive c false) else s) (slots s) s.

(** The part of a shutdown before the connections: stop accepting. *)
Definition stop_accepting s : ioh_server :=
  let s := set_stopped s true in
  let s := if sv_accepting s then
             let s := default s (get_sqe s (mk_sqe (IOH_ENCODE_USERDATA 0 IOH_OP_CANCEL)
                                              (PCancel (IOH_ENCODE_USERDATA 0 IOH_OP_ACCEPT)))) in
             set_accepting s false
           else s in
  if (0 <=? sv_listen_fd s)%Z then
    with_flags (with_closed s (sv_closed s ++ [sv_listen_fd s])) (-1) false (sv_accepting s) (sv_stopped s) (sv_loop_stopped s)
  else s.

Definition loop_stop s : ioh_server :=
  with_flags s (sv_listen_fd s) (sv_listening s) (sv_accepting s) (sv_stopped s) true.

Definition DRAIN_POLL_MS : Z := 50.

(** Arm the next read of the signal descriptor. *)
Definition rearm_signal s : ioh_server :=
  if negb (sv_stopped s) && (0 <=? sv_signal_fd s)%Z
  then default s (get_sqe s (mk_sqe (IOH_ENCODE_USERDATA 0 IOH_OP_SIGNAL) (PReadSignal (sv_signal_fd s)))) else s.

(** [io_uring_submit] and the completions delivered by then. *)
Definition submit s (new : list cqe) : ioh_server := 
  with_ring s [] (sv_submitted s ++ sv_sq s) (sv_cq s ++ new) (sv_khead s).

(** [io_uring_cq_advance]. *)
Definition cq_advance s (n : nat) : ioh_server := 
  with_ring s (sv_sq s) (sv_submitted s) (sv_cq s) (sv_khead s + n).

(** A signal runs the shutdown inside the loop over the completions, and a draining
    shutdown runs that loop again, so these are mutually recursive.  The loop reads
    the queue from the head it found, which only moves when a whole turn is over; past
    the tail it would read stale entries of the ring, which the model has not. *)
Fixpoint ioh_server_run_once (fuel : nat) s (env : list turn) {struct fuel} : eff (Z * ioh_server * list turn) :=
  match fuel with
  | O => NoFuel
  | Datatypes.S fuel =>
      if sv_stopped s then Val (0%Z, s, env) else
      let '(t, env) := next_turn env in
      if (k_submit t <? 0)%Z then Val (k_submit t, s, env) else
      let s := submit s (k_cqes t) in
      if length (sv_cq s) <=? sv_khead s then Val (k_wait t, s, env) else
      '(s, env, n) ← for_each_cqe fuel s env (sv_khead s) 0;
      Val (Z.of_nat n, cq_advance s n, env)
  end
with for_each_cqe (fuel : nat) s (env : list turn) (head processed : nat) {struct fuel} : eff (ioh_server * list turn * nat) :=
  match fuel with
  | O => NoFuel
  | Datatypes.S fuel =>
      if head =? length (sv_cq s) then Val (s, env, processed) else
      match sv_cq s !! head with
      | None => Undef
      | Some e =>
          '(s, env) ←
            (if op_is e IOH_OP_SIGNAL then
               '(s, env) ←
                 (if (0 <? cq_res e)%Z then
                    if (cq_signo e =? SIGQUIT)%Z then ioh_server_shutdown fuel s env IOH_SHUTDOWN_IMMEDIATE
                    else if (cq_signo e =? SIGTERM)%Z then ioh_server_shutdown fuel s env IOH_SHUTDOWN_DRAIN
                    else Val (s, env)
                  else Val (s, env));
               Val (rearm_signal s, env)
             else match on_completion s e with
                  | None => Undef
                  | Some s => Val (s, env)
                  end);
          for_each_cqe fuel s env (Datatypes.S head) (Datatypes.S processed)
      end
  end
with ioh_server_shutdown (fuel : nat) s (env : list turn) (mode : ioh_shutdown_mode_t) {struct fuel}
    : eff (ioh_server * list turn) :=
  match fuel with
  | O => NoFuel
  | Datatypes.S fuel =>
      let s := stop_accepting s in
      match mode with
      | IOH_SHUTDOWN_IMMEDIATE => Val (loop_stop (close_all s), env)
      | IOH_SHUTDOWN_DRAIN =>
          '(s, env) ← drain_loop fuel (mark_draining s) env 0;
          Val (loop_stop (close_all s), env)
      end
  end
with drain_loop (fuel : nat) s (env : list turn) (elapsed : Z) {struct fuel} : eff (ioh_server * list turn) :=
  match fuel with
  | O => NoFuel
  | Datatypes.S fuel =>
      if (0 <? active_count (sv_pool s))%Z && (elapsed <? sc_keepalive_timeout_ms (sv_config s))%Z then
        '(_, s, env) ← ioh_server_run_once fuel (set_stopped s false) env;
        drain_loop fuel (set_stopped s true) env (u32 (elapsed + DRAIN_POLL_MS))
      else Val (s, env)
  end.

Definition ioh_server_stop s : ioh_server := loop_stop (set_stopped s true).

(** The answers of the system calls of [ioh_server_listen]: a descriptor or a
    negative [errno] of [socket], and the results of the others. *)
Record listen_calls := mk_listen_calls {
  y_socket : Z; y_reuseaddr : Z; y_reuseport : Z; y_bind : Z; y_listen : Z;
}.

Definition ioh_server_listen s (y : listen_calls) : ioh_server * Z :=
  if sv_listening s then (s, (- errno_code EALREADY)%Z) else
  let fd := y_socket y in
  if (fd <? 0)%Z then (s, fd) else
  let fail rc := (with_closed s (sv_closed s ++ [fd]), rc) in
  if (y_reuseaddr y <? 0)%Z then fail (y_reuseaddr y) else
  if (y_reuseport y <? 0)%Z then fail (y_reuseport y) else
  let addr_ok := match sc_listen_addr (sv_config s) with
                 | Some a => match inet_pton AF_INET a with Some _ => true | None => false end
                 | None => true
                 end in
  if negb addr_ok then fail (- errno_code EINVAL)%Z else
  if (y_bind y <? 0)%Z then fail (y_bind y) else
  if (y_listen y <? 0)%Z then fail (y_listen y) else
  match arm_multishot_accept (with_flags s fd true (sv_accepting s) (sv_stopped s) (sv_loop_stopped s)) with
  | (s, Ok _) => (s, fd)
  | (s, Err e) =>
      (with_flags (with_closed s (sv_closed s ++ [fd])) (-1) false (sv_accepting s) (sv_stopped s) (sv_loop_stopped s),
       (- errno_code e)%Z)
  end.

Definition set_signal_fd s (x : Z) : ioh_server :=
  mk_server (sv_config s) (sv_pool s) (sv_router s) (sv_tls_ctx s) (sv_on_request s) (sv_listen_fd s) x
    (sv_listening s) (sv_accepting s) (sv_stopped s) (sv_loop_stopped s) (sv_sq s) (sv_submitted s) (sv_cq s) (sv_khead s)
    (sv_tls s) (sv_heap s) (sv_rand s) (sv_closed s).

Definition close_signal_fd s : ioh_server :=
  if (0 <=? sv_signal_fd s)%Z
  then set_signal_fd (with_closed s (sv_closed s ++ [sv_signal_fd s])) (-1) else s.

Definition EINTR : Z := 4.

(** The loop of [ioh_server_run]. *)
Fixpoint run_loop (fuel : nat) s (env : list turn) : eff (Z * ioh_server) :=
  match fuel with
  | O => NoFuel
  | Datatypes.S fuel =>
      if sv_stopped s then Val (0%Z, close_signal_fd s) else
      '(rc, s, env) ← ioh_server_run_once fuel s env;
      if (rc <? 0)%Z && negb (rc =? - ETIME)%Z && negb (rc =? - EINTR)%Z then Val (rc, close_signal_fd s)
      else run_loop fuel s env
  end.

(** [sigfd] is the answer of [signalfd]. *)
Definition ioh_server_run (fuel : nat) s (y : listen_calls) (sigfd : Z) (env : list turn) : eff (Z * ioh_server) :=
  let '(s, rc) := if sv_listening s then (s, 0%Z) else ioh_server_listen s y in
  if (rc <? 0)%Z then Val (rc, s) else
  let s := set_signal_fd s sigfd in
  let s := if (0 <=? sigfd)%Z
           then default s (get_sqe s (mk_sqe (IOH_ENCODE_USERDATA 0 IOH_OP_SIGNAL) (PReadSignal sigfd))) else s in
  run_loop fuel s env.

End Server.
