(* ===== verification/ServerThms.v ===== *)
(** Properties of the server core. *)
From S2P Require Import Prelude CString PathNorm Radix RadixThms Request Router Loop Proxy ProxyThms Conn Tls Response ResponseThms Pico PicoThms Http1 Cookie Ctx Middleware Server.

(** ** Specification vocabulary *)

(** A connection's buffers: what was received lies in the receive buffer, and an
    active send has something left to send. *)
Definition conn_ok (c : ioh_conn_t) : Prop :=
  recv_buf_size c = IOH_CONN_RECV_BUF_SIZE
  /\ (exists b, recv_buf c = Some b /\ (0 <= recv_len c <= Z.of_nat (length b))%Z
        /\ (Z.of_nat (length b) <= IOH_CONN_RECV_BUF_SIZE)%Z)
  /\ (send_active c = true -> exists d, send_buf c = Some d /\ send_len c = Z.of_nat (length d)
        /\ (0 <= send_offset c < send_len c)%Z).

Section Thms.
Context {Tab Ext Grp X S : Type}.
Context `{RT : RouteTable Tab handler_fn ioh_route_opts_t} `{W : WolfSSL X S}.
Context (simd : bool) (inet_pton : Z -> bytes -> option bytes).
Abbreviation server := (@ioh_server Tab Ext Grp X S).
Implicit Types (s : server).

Definition live s (i : nat) : Prop :=
  conns (sv_pool s) !! i = Some (conn_at s i) /\ is_free (conn_at s i) = false.

(** The invariant of a running server whose allocations succeed. *)
Record srv_inv s : Prop := {
  si_pool : pool_inv (sv_pool s);
  si_conns : forall i c, conns (sv_pool s) !! i = Some c -> is_free c = false -> conn_ok c;
  si_heap : sv_heap s = [];
}.

(** Room for [n] requests in the submission queue. *)
Definition sq_room s (n : nat) : Prop :=
  (Z.of_nat (length (sv_sq s) + n) <= sc_queue_depth (sv_config s))%Z.

(** What no handling of a completion changes. *)
Definition fixed_part s := (sv_config s, sv_cq s, sv_khead s, sv_stopped s).

(** An operation on the connection of slot [i] that keeps the invariant and the
    connection, and prepares at most [n] requests. *)
Record step_ok (n : nat) (i : nat) s s' : Prop := {
  so_inv : srv_inv s';
  so_live : live s' i;
  so_fixed : fixed_part s' = fixed_part s;
  so_sq : length (sv_sq s') ≤ length (sv_sq s) + n;
}.

(** What a connection has received. *)
Definition recv_part c : option bytes * Z := (recv_buf c, recv_len c).

(** Such an operation that leaves the received bytes alone. *)
Record quiet_ok (n : nat) (i : nat) s s' : Prop := {
  qo_step :> step_ok n i s s';
  qo_recv : recv_part (conn_at s' i) = recv_part (conn_at s i);
}.

(** ** Slots *)

Lemma conn_at_upd s i f : i < length (conns (sv_pool s)) -> conn_at (upd_conn s i f) i = f (conn_at s i).
Proof. intros Hi. unfold conn_at at 1. simpl. by rewrite list_lookup_insert_eq. Qed.

Lemma live_lt s i : live s i -> i < length (conns (sv_pool s)).
Proof. intros [Hi _]. by eapply lookup_lt_Some. Qed.

Lemma live_ok s i : srv_inv s -> live s i -> conn_ok (conn_at s i).
Proof. intros [_ Hc _] [Hi Hf]. by eapply Hc. Qed.

Lemma find_conn_live s cid i : find_conn_by_id s cid = Some i -> live s i /\ id (conn_at s i) = cid.
Proof.
  unfold find_conn_by_id. intros (c & Hc & Hp)%find_slot_Some. bprop. unfold live, conn_at. rewrite Hc. simpl.
  split; [split; done|done].
Qed.

(** ** Composition *)

Lemma step_ok_refl i s : srv_inv s -> live s i -> step_ok 0 i s s.
Proof. intros Hi Hl. split; try done. lia. Qed.

Lemma step_ok_trans n m i s1 s2 s3 :
  step_ok n i s1 s2 -> step_ok m i s2 s3 -> step_ok (n + m) i s1 s3.
Proof. intros [] []. split; try done; [congruence|lia]. Qed.

Lemma step_ok_weaken n m i s1 s2 : step_ok n i s1 s2 -> n ≤ m -> step_ok m i s1 s2.
Proof. intros [] ?. split; try done. lia. Qed.

Lemma quiet_refl i s : srv_inv s -> live s i -> quiet_ok 0 i s s.
Proof. intros Hi Hl. split; [by apply step_ok_refl|done]. Qed.

Lemma quiet_trans n m i s1 s2 s3 :
  quiet_ok n i s1 s2 -> (srv_inv s2 -> live s2 i -> quiet_ok m i s2 s3) -> quiet_ok (n + m) i s1 s3.
Proof.
  intros [H1 R1] H. destruct (H (so_inv _ _ _ _ H1) (so_live _ _ _ _ H1)) as [H2 R2].
  split; [by eapply step_ok_trans|congruence].
Qed.

(** The same with the bound given. *)
Lemma quiet_then n m k i s1 s2 s3 :
  quiet_ok n i s1 s2 -> (srv_inv s2 -> live s2 i -> quiet_ok m i s2 s3) -> n + m ≤ k -> quiet_ok k i s1 s3.
Proof. intros H1 H2 Hk. destruct (quiet_trans _ _ _ _ _ _ H1 H2) as [H R]. split; [|done]. by eapply step_ok_weaken. Qed.

Lemma step_then n m k i s1 s2 s3 :
  step_ok n i s1 s2 -> (srv_inv s2 -> live s2 i -> step_ok m i s2 s3) -> n + m ≤ k -> step_ok k i s1 s3.
Proof.
  intros H1 H2 Hk. eapply step_ok_weaken; [|exact Hk]. eapply step_ok_trans; [exact H1|]. apply H2; apply H1.
Qed.

Lemma quiet_weaken n m i s1 s2 : quiet_ok n i s1 s2 -> n ≤ m -> quiet_ok m i s1 s2.
Proof. intros [H R] Hm. split; [by eapply step_ok_weaken|done]. Qed.

Lemma room_after n m i s1 s2 : step_ok n i s1 s2 -> sq_room s1 (n + m) -> sq_room s2 m.
Proof. unfold sq_room. intros [_ _ [= -> _ _ _] Hs]. lia. Qed.

Lemma room_le s n m : sq_room s n -> m ≤ n -> sq_room s m.
Proof. unfold sq_room. lia. Qed.

(** ** Field updates *)

Lemma upd_conn_ok s i f :
  srv_inv s -> live s i ->
  (conn_ok (conn_at s i) -> conn_ok (f (conn_at s i)) /\ is_free (f (conn_at s i)) = false
     /\ id (f (conn_at s i)) = id (conn_at s i)) ->
  step_ok 0 i s (upd_conn s i f).
Proof.
  intros Hi Hl Hf. destruct (Hf (live_ok _ _ Hi Hl)) as (Hok & Hfree & Hid).
  pose proof (live_lt _ _ Hl) as Hlt. destruct Hl as [Hc Hcf], Hi as [Hp Hcs Hh].
  split; [split|split| |]; simpl; try done; try lia.
  - eapply pool_step_inv; [exact Hp|]. by eapply ps_change.
  - intros j c. destruct (decide (j = i)) as [->|Hne].
    + rewrite list_lookup_insert_eq by done. by intros [= <-].
    + rewrite list_lookup_insert_ne by done. apply Hcs.
  - rewrite conn_at_upd by done. by apply list_lookup_insert_eq.
  - by rewrite conn_at_upd.
Qed.

(** Updates that leave the received bytes alone. *)
Lemma upd_quiet s i f :
  srv_inv s -> live s i ->
  (conn_ok (conn_at s i) -> conn_ok (f (conn_at s i)) /\ is_free (f (conn_at s i)) = false
     /\ id (f (conn_at s i)) = id (conn_at s i)) ->
  (forall c, recv_part (f c) = recv_part c) ->
  quiet_ok 0 i s (upd_conn s i f).
Proof.
  intros Hi Hl Hf Hr. split; [by apply upd_conn_ok|]. rewrite conn_at_upd by by apply live_lt. apply Hr.
Qed.

(** Updates of fields the invariant does not speak of. *)
Lemma upd_frame s i f :
  srv_inv s -> live s i ->
  (forall c, recv_buf (f c) = recv_buf c /\ recv_buf_size (f c) = recv_buf_size c /\ recv_len (f c) = recv_len c
     /\ send_buf (f c) = send_buf c /\ send_len (f c) = send_len c /\ send_offset (f c) = send_offset c
     /\ send_active (f c) = send_active c /\ state (f c) = state c /\ id (f c) = id c) ->
  quiet_ok 0 i s (upd_conn s i f).
Proof.
  intros Hi Hl Hf. apply upd_quiet; [done|done| |].
  - intros Hok. unfold conn_ok, is_free in *.
    destruct (Hf (conn_at s i)) as (-> & -> & -> & -> & -> & -> & -> & -> & ->).
    split; [done|]. split; [apply Hl|done].
  - intros c. unfold recv_part. by destruct (Hf c) as (-> & _ & -> & _).
Qed.

Ltac frame := apply upd_frame; [done|done|]; intros ?; by repeat split.

Lemma transition_cases c new :
  default c (fst (ioh_conn_transition (Some c) new)) = c
  \/ default c (fst (ioh_conn_transition (Some c) new)) = set_state c new.
Proof. unfold ioh_conn_transition. repeat brk; simpl; auto. Qed.

Lemma transition_ok s i new :
  srv_inv s -> live s i -> new ≠ IOH_CONN_FREE -> quiet_ok 0 i s (transition s i new).
Proof.
  intros Hi Hl Hn. apply upd_quiet; [done|done| |].
  - intros Hok. destruct Hl as [_ Hf].
    destruct (transition_cases (conn_at s i) new) as [-> | ->]; [done|].
    split; [exact Hok|]. split; [|done]. unfold is_free. simpl. by apply bool_decide_eq_false.
  - intros c. by destruct (transition_cases c new) as [-> | ->].
Qed.

(** Stopping a send. *)
Lemma send_stop_ok s i b l o :
  srv_inv s -> live s i -> quiet_ok 0 i s (upd_conn s i (fun c => set_send c (b c) (l c) (o c) false)).
Proof.
  intros Hi Hl. apply upd_quiet; [done|done| |done]. intros (Hs & Hb & _).
  split; [split; [exact Hs|split; [exact Hb|done]]|]. split; [apply Hl|done].
Qed.

(** Changes outside the pool. *)
Lemma outside_ok n i s s' :
  srv_inv s -> live s i -> sv_pool s' = sv_pool s -> sv_heap s' = [] -> fixed_part s' = fixed_part s ->
  length (sv_sq s') ≤ length (sv_sq s) + n -> quiet_ok n i s s'.
Proof.
  intros [Hp Hc Hh] Hl Ep Eh Ec Es.
  assert (Hat : conn_at s' i = conn_at s i) by (unfold conn_at; by rewrite Ep).
  split; [|by rewrite Hat]. split; [split| | |]; rewrite ?Ep; try done. unfold live. by rewrite Hat, Ep.
Qed.

Lemma beside_ok i s s' :
  srv_inv s -> live s i -> sv_pool s' = sv_pool s -> sv_heap s' = [] -> fixed_part s' = fixed_part s ->
  sv_sq s' = sv_sq s -> quiet_ok 0 i s s'.
Proof. intros ????? Es. apply outside_ok; try done. rewrite Es. lia. Qed.

Lemma get_sqe_ok s i e s' : srv_inv s -> live s i -> get_sqe s e = Some s' -> quiet_ok 1 i s s'.
Proof.
  intros Hi Hl. unfold get_sqe. destruct (_ <? _)%Z; intros [= <-].
  apply outside_ok; try done; [apply Hi|]. simpl. rewrite length_app. simpl. lia.
Qed.

Lemma get_sqe_room s e n : sq_room s (Datatypes.S n) -> exists s', get_sqe s e = Some s'.
Proof. unfold sq_room, get_sqe. intros Hr. rewrite (proj2 (Z.ltb_lt _ _)) by lia. by eexists. Qed.

(** ** Arming requests *)

Lemma arm_recv_ok s i : srv_inv s -> live s i -> quiet_ok 2 i s (fst (arm_recv s i)).
Proof.
  intros Hi Hl. unfold arm_recv. destruct (get_sqe s _) as [s1|] eqn:E1; simpl.
  2:{ eapply quiet_weaken; [by apply quiet_refl|lia]. }
  pose proof (get_sqe_ok _ _ _ _ Hi Hl E1) as H1.
  assert (H1' : quiet_ok 2 i s s1) by (eapply quiet_weaken; [exact H1|lia]).
  destruct (0 <? _)%Z; [|done].
  destruct (get_sqe (with_sq _ _) _) as [s2|] eqn:E2; [|done]. simpl.
  eapply (quiet_then 2 0); [|intros; frame|lia].
  unfold get_sqe in E2. destruct (_ <? _)%Z; [|done]. injection E2 as <-.
  apply outside_ok; try done; [apply Hi|]. simpl. rewrite !length_app. simpl. lia.
Qed.

Lemma encrypt_ok s i data s' r o :
  srv_inv s -> live s i -> encrypt s i data = (s', r, o) -> data ≠ [] ->
  quiet_ok 0 i s s' /\ (forall out, r = Ok out -> out ≠ []).
Proof.
  intros Hi Hl. unfold encrypt. pose proof (si_heap _ Hi) as Hh. rewrite Hh. simpl.
  assert (Hplain : forall (s' : server) r' (o' : bool), (s, Ok data, false) = (s', r', o') -> data ≠ [] ->
            quiet_ok 0 i s s' /\ (forall out, r' = Ok out -> out ≠ [])).
  { intros s1 r' o' [= <- <- <-] Hd. split; [by apply quiet_refl|]. by intros out [= <-]. }
  destruct (tls_ctx (conn_at s i) ≫= tls_at s) as [ob|]; [|apply Hplain].
  destruct (tls_ctx (conn_at s i)) as [t|]; [|apply Hplain].
  destruct (tls_done (conn_at s i)); [|apply Hplain].
  destruct (ioh_tls_write ob data) as [ob' [n|e]]; [destruct (0 <? length (ioh_tls_get_output ob')) eqn:El|];
    intros [= <- <- <-] Hd; (split; [by apply beside_ok|]); intros out; try done; intros [= <-]; [|done].
  intros Hnil. by rewrite Hnil in El.
Qed.

Lemma arm_send_ok s i data :
  srv_inv s -> live s i -> data ≠ [] -> quiet_ok 1 i s (fst (arm_send s i data)).
Proof.
  intros Hi Hl Hd. unfold arm_send. destruct (send_active (conn_at s i)) eqn:Ea.
  { eapply quiet_weaken; [by apply quiet_refl|lia]. }
  destruct (encrypt s i data) as [[s1 r] o] eqn:Ee.
  destruct (encrypt_ok _ _ _ _ _ _ Hi Hl Ee Hd) as (H1 & Hne).
  destruct r as [out|e]; simpl; [|eapply quiet_weaken; [exact H1|lia]].
  pose proof (si_heap _ (so_inv _ _ _ _ H1)) as Hh.
  replace (if o then (true, sv_heap s1) else xalloc (sv_heap s1)) with (true, @nil bool) by (rewrite Hh; by destruct o).
  simpl. set (s3 := upd_conn (with_heap s1 []) i _).
  assert (H3 : quiet_ok 0 i s s3).
  { eapply (quiet_then 0 0); [exact H1| |lia]. intros Hi1 Hl1.
    eapply (quiet_then 0 0); [by apply (beside_ok i s1 (with_heap s1 []))| |lia]. intros Hi2 Hl2.
    apply upd_quiet; [done|done| |done]. intros (Hs & Hb & _). split; [|split; [apply Hl2|done]].
    split; [exact Hs|]. split; [exact Hb|]. intros _. exists out. split; [done|]. split; [done|]. simpl.
    specialize (Hne out eq_refl). destruct out; [done|]. simpl. lia. }
  destruct (get_sqe s3 _) as [s4|] eqn:Eg; simpl.
  - eapply (quiet_then 0 1); [exact H3| |lia]. intros. by eapply get_sqe_ok.
  - eapply (quiet_then 0 0); [exact H3| |lia]. intros. by apply send_stop_ok.
Qed.

Lemma arm_close_ok s i : srv_inv s -> live s i -> sq_room s 1 -> quiet_ok 1 i s (arm_close s i).
Proof.
  intros Hi Hl Hr. unfold arm_close. set (s1 := upd_conn s i _).
  assert (H1 : quiet_ok 0 i s s1) by (subst s1; frame).
  destruct (get_sqe_room s1 (mk_sqe (IOH_ENCODE_USERDATA (id (conn_at s1 i)) IOH_OP_CLOSE) (PClose (fd (conn_at s1 i)))) 0) as [s2 E2].
  { exact (room_after _ _ _ _ _ H1 Hr). }
  rewrite E2. eapply (quiet_then 0 1); [exact H1| |lia]. intros Hi1 Hl1.
  eapply (quiet_then 1 0); [by eapply get_sqe_ok| |lia]. intros. by apply transition_ok.
Qed.

(** ** Protocol start and error answers *)

Lemma tls_create_heap (x : option (ioh_tls_ctx X)) : snd (ioh_tls_conn_create x []) = [].
Proof. unfold ioh_tls_conn_create. simpl. repeat (brk; simpl); done. Qed.

Lemma start_tls_ok s i : srv_inv s -> live s i -> quiet_ok 0 i s (start_tls s i).
Proof.
  intros Hi Hl. unfold start_tls. rewrite (si_heap _ Hi). pose proof (tls_create_heap (sv_tls_ctx s)) as Hh.
  destruct (ioh_tls_conn_create _ _) as [[o|] h]; simpl in Hh; subst h.
  - eapply (quiet_then 0 0 _ _ _ (with_tls (with_heap s []) (sv_tls s ++ [o]))); [by apply beside_ok|intros; frame|lia].
  - eapply (quiet_then 0 0 _ _ _ (with_heap s [])); [by apply beside_ok|intros; frame|lia].
Qed.

Lemma begin_protocol_ok s i : srv_inv s -> live s i -> quiet_ok 0 i s (begin_protocol s i).
Proof.
  intros Hi Hl. unfold begin_protocol. destruct (sv_tls_ctx s); [|by apply transition_ok].
  eapply (quiet_then 0 0); [by apply start_tls_ok|intros; by apply transition_ok|lia].
Qed.

Lemma set_body_heap r b len x : ioh_response_set_body [] r b len = Some x -> snd x = [].
Proof. unfold ioh_response_set_body, grow_body. repeat (brk; simpl); try done; intros [= <-]; done. Qed.

Lemma append_header_heap r n v x : append_header [] r n v = Some x -> snd x = [].
Proof. unfold append_header, grow_headers. repeat (brk; simpl); try done; intros [= <-]; done. Qed.

Lemma set_header_heap r n v x : ioh_response_set_header [] r n v = Some x -> snd x = [].
Proof.
  unfold ioh_response_set_header. destruct n as [n|], v as [v|]; try (intros [= <-]; done).
  destruct (list_find _ _) as [[j e]|]; [intros [= <-]; done|]. apply append_header_heap.
Qed.

Lemma respond_json_heap r st j x : ioh_respond_json [] r st j = Some x -> snd x = [].
Proof.
  unfold ioh_respond_json, ioh_respond. destruct j as [j|]; [|intros [= <-]; done].
  destruct (ioh_response_set_header _ _ _ _) as [[[rc r1] h1]|] eqn:E; [|done].
  apply set_header_heap in E. simpl in E. subst h1.
  destruct rc; [|intros [= <-]; done]. destruct (0 <? _)%Z; [apply set_body_heap|intros [= <-]; done].
Qed.

(** The response a request starts with. *)
Definition fresh_response : ioh_response_t := snd (fst (ioh_response_init [])).

Lemma fresh_response_ok : response_ok fresh_response.
Proof. split; simpl; try done. exists []. simpl. split; [done|]. split; [lia|]. by vm_compute. Qed.

Lemma send_error_ok s i st msg :
  srv_inv s -> live s i -> (Z.of_nat (length msg) < 2 ^ 64)%Z ->
  exists s', send_error_response s i st msg = Some s' /\ quiet_ok 1 i s s'.
Proof.
  intros Hi Hl Hm. unfold send_error_response. rewrite (si_heap _ Hi).
  change (ioh_response_init []) with (@Ok unit (), fresh_response, @nil bool).
  destruct (set_body_safe [] (with_status fresh_response st) (Some msg) (Z.of_nat (length msg))) as (rc & r & h & E & _).
  { apply with_status_ok, fresh_response_ok. }
  { split; [lia|]. by intros ? [= <-]. }
  rewrite E. apply set_body_heap in E. simpl in E. subst h. eexists. split; [reflexivity|].
  eapply (quiet_then 1 0); [|intros; frame|lia].
  eapply (quiet_then 0 1 _ _ _ (with_heap s [])); [by apply beside_ok| |lia]. intros Hi1 Hl1.
  destruct (ioh_http1_serialize_response _ _) as [text|]; [|by eapply quiet_weaken; [apply quiet_refl|lia]].
  destruct text; [by eapply quiet_weaken; [apply quiet_refl|lia]|]. by apply arm_send_ok.
Qed.

(** ** Dispatch *)

Lemma print_hex8_length z : length (print_hex8 z) = 8.
Proof. unfold print_hex8. by rewrite length_fmap, length_seq. Qed.

(** A context as [ioh_ctx_init] leaves it, with at most [n] response headers. *)
Definition ctx_ready (n : nat) (c : ioh_ctx_t) : Prop :=
  response_ok (c_resp c) /\ length (r_headers (c_resp c)) ≤ n.

Lemma ctx_set_resp (c : ioh_ctx_t) key v : c_resp (fst (ioh_ctx_set c key v)) = c_resp c.
Proof. unfold ioh_ctx_set, ioh_ctx_set_with_destructor. repeat (brk; simpl); done. Qed.

Lemma ctx_set_header_ok (c : ioh_ctx_t) n v :
  ctx_ready 0 c -> exists rc c', ioh_ctx_set_header [] c n v = Some (rc, c', []) /\ ctx_ready 1 c'.
Proof.
  intros [Hr Hn]. unfold ioh_ctx_set_header.
  destruct (set_header_safe [] (c_resp c) n v Hr) as (rc & r & h & E & Hr' & Hl'); [lia|].
  rewrite E. apply set_header_heap in E. simpl in E. subst h. eexists _, _. split; [reflexivity|].
  split; simpl; [done|lia].
Qed.

Lemma sprintf_fresh req r text vs k ab :
  length text = 32 ->
  exists p c, ioh_ctx_sprintf (mk_ctx req r (mk_arena (Some 0) IOH_CTX_ARENA_DEFAULT 0 []) vs k ab) text [] = Some (Some p, c, [])
    /\ c_resp c = r.
Proof. intros Ht. unfold ioh_ctx_sprintf. rewrite Ht. cbn. by eexists _, _. Qed.

Lemma request_id_ok s i req (c : ioh_ctx_t) h :
  srv_inv s -> live s i -> ioh_ctx_init (Some req) (Some fresh_response) [] = (Ok c, h) ->
  exists s' c', request_id s c = Some (s', c') /\ quiet_ok 0 i s s' /\ ctx_ready 1 c'.
Proof.
  intros Hi Hl Hc. simpl in Hc. injection Hc as <- <-.
  assert (Hfresh : forall c : ioh_ctx_t, c_resp c = fresh_response -> ctx_ready 0 c).
  { intros c E. unfold ctx_ready. rewrite E. split; [apply fresh_response_ok|done]. }
  unfold request_id. rewrite (si_heap _ Hi). destruct (ioh_request_header _ _) as [v|].
  - match goal with |- context [ioh_ctx_set_header [] ?c ?n ?v] =>
      destruct (ctx_set_header_ok c n v) as (rc & c' & -> & Hc'); [apply Hfresh; by rewrite ctx_set_resp|] end.
    eexists _, _. split; [reflexivity|]. split; [by apply beside_ok|done].
  - destruct (xrand (sv_rand s)) as [r1 q1], (xrand q1) as [r2 q2], (xrand q2) as [r3 q3], (xrand q3) as [r4 q4].
    change (sv_heap (with_rand s q4)) with (sv_heap s). rewrite (si_heap _ Hi).
    match goal with |- context [ioh_ctx_sprintf (mk_ctx ?a ?b _ ?d ?e ?f) ?t []] =>
      destruct (sprintf_fresh a b t d e f) as (p & c1 & -> & Hc1); [by rewrite !length_app, !print_hex8_length|] end.
    match goal with |- context [ioh_ctx_set_header [] ?c ?n ?v] =>
      destruct (ctx_set_header_ok c n v) as (rc & c' & -> & Hc'); [apply Hfresh; by rewrite ctx_set_resp|] end.
    eexists _, _. split; [reflexivity|]. split; [by apply beside_ok|done].
Qed.

Lemma chain_execute_total (c : ioh_ctx_t) mws h : exists x, ioh_chain_execute c mws [] h = Some x.
Proof.
  unfold ioh_chain_execute. destruct h as [h|]; [|by eexists]. destruct (_ <? _); [by eexists|]. cbn [length Nat.ltb Nat.leb].
  destruct (chain_next_total (Datatypes.S (length (mws ++ []))) (mws ++ []) h 0 c) as (rc & c' & cur & E & _); [lia|].
  rewrite E. by eexists.
Qed.

Lemma error_answer_ok s i (c : ioh_ctx_t) st msg :
  srv_inv s -> live s i -> ctx_ready 1 c ->
  exists s' rc c', error_answer s c st msg = Some (s', rc, c') /\ quiet_ok 0 i s s'.
Proof.
  intros Hi Hl [Hr Hn]. unfold error_answer, ioh_ctx_error. rewrite (si_heap _ Hi).
  destruct (_ <=? _); [eexists _, _, _; split; [reflexivity|]; by apply beside_ok|].
  destruct (call_safe [] (c_resp c) (CRespondJson st (Some (error_text st msg))) Hr) as (rc & r & h & E & _); [lia|done|].
  cbn [exec_call] in E. unfold respond_with. rewrite E. apply respond_json_heap in E. simpl in E. subst h.
  eexists _, _, _. split; [reflexivity|]. by apply beside_ok.
Qed.

Lemma route_request_ok s i (c : ioh_ctx_t) :
  srv_inv s -> live s i -> ctx_ready 1 c ->
  exists s' rc c', route_request s i c = Some (s', rc, c') /\ quiet_ok 0 i s s'.
Proof.
  intros Hi Hl Hc. unfold route_request, answered. destruct (sv_router s) as [r|].
  2:{ destruct (sv_on_request s) as [f|]; [|by apply error_answer_ok].
      eexists _, _, _. split; [reflexivity|]. by apply quiet_refl. }
  set (m := ioh_router_dispatch _ _ _). 
  set (s1 := match status m, opts m with
             | IOH_MATCH_FOUND, Some o => upd_conn s i (fun c => set_routes c (o_body_timeout_ms o) (o_keepalive_timeout_ms o))
             | _, _ => s
             end).
  assert (H1 : quiet_ok 0 i s s1).
  { subst s1. destruct (status m), (opts m); try (by apply quiet_refl); frame. }
  assert (Herr : forall st msg, exists s' rc c', error_answer s1 c st msg = Some (s', rc, c') /\ quiet_ok 0 i s s').
  { intros st msg. destruct (error_answer_ok s1 i c st msg) as (s' & rc & c' & -> & Hq); [apply H1|apply H1|done|].
    eexists _, _, _. split; [reflexivity|]. eapply (quiet_then 0 0); [exact H1|by intros|lia]. }
  assert (Hans : forall x : Z * ioh_ctx_t, exists s' rc c', Some (s1, x.1, x.2) = Some (s', rc, c') /\ quiet_ok 0 i s s').
  { intros x. by eexists _, _, _. }
  destruct (status m); [destruct (rm_handler m) as [h|]|..];
    try (destruct (not_found_handler r); done); try (destruct (method_not_allowed_handler r); done).
  match goal with |- context [ioh_chain_execute ?c ?g [] ?h] => destruct (chain_execute_total c g h) as [x ->] end. done.
Qed.

Lemma dispatch_ok s i req :
  srv_inv s -> live s i -> sq_room s 2 ->
  exists s' rc, dispatch_request s i req = Some (s', rc) /\ quiet_ok 2 i s s'.
Proof.
  intros Hi Hl Hroom. unfold dispatch_request. rewrite (si_heap _ Hi).
  change (ioh_response_init []) with (@Ok unit (), fresh_response, @nil bool).
  cbv iota beta. destruct (ioh_ctx_init (Some req) (Some fresh_response) []) as [[c|e] h] eqn:Ec; [|done].
  assert (h = []) as -> by (simpl in Ec; congruence).
  pose proof (beside_ok i s (with_heap s []) Hi Hl) as H0. specialize (H0 eq_refl eq_refl eq_refl eq_refl).
  destruct (request_id_ok (with_heap s []) i req c []) as (s1 & c1 & -> & H1 & Hc1); [apply H0|apply H0|done|].
  destruct (route_request_ok s1 i c1) as (s2 & rc & c2 & -> & H2); [apply H1|apply H1|done|].
  assert (H02 : quiet_ok 0 i s s2).
  { eapply (quiet_then 0 0); [exact H0|intros _ _|lia]. by eapply (quiet_then 0 0); [exact H1|intros; exact H2|]. }
  set (sent := match ioh_http1_serialize_response _ _ with Ok _ => _ | Err _ => _ end).
  assert (Hs : quiet_ok 1 i s (fst sent)).
  { eapply (quiet_then 0 1); [exact H02| |lia]. intros Hi2 Hl2. subst sent.
    destruct (ioh_http1_serialize_response _ _) as [text|]; [|by eapply quiet_weaken; [apply quiet_refl|lia]].
    destruct text; [by eapply quiet_weaken; [apply quiet_refl|lia]|]. by apply arm_send_ok. }
  destruct sent as [s3 [u|e]]; simpl in Hs; eexists _, _; (split; [reflexivity|]).
  - eapply (quiet_then 1 0); [exact Hs|intros; frame|lia].
  - eapply (quiet_then 1 1); [exact Hs| |lia]. intros. apply arm_close_ok; [done|done|].
    exact (room_after _ _ _ _ _ Hs Hroom).
Qed.

(** ** The receive path *)

Lemma received_length c b : recv_buf c = Some b -> (0 <= recv_len c <= Z.of_nat (length b))%Z ->
  Z.of_nat (length (received c)) = recv_len c.
Proof. intros Hb Hl. unfold received. rewrite Hb. simpl. rewrite length_take. lia. Qed.

(** Replacing the receive buffer. *)
Lemma set_recv_ok s i (b : option bytes) len d :
  srv_inv s -> live s i -> b = Some d -> (0 <= len <= Z.of_nat (length d))%Z ->
  (Z.of_nat (length d) <= IOH_CONN_RECV_BUF_SIZE)%Z ->
  step_ok 0 i s (upd_conn s i (fun c => set_recv c b len)).
Proof.
  intros Hi Hl -> Hlen Hd. apply upd_conn_ok; [done|done|]. intros (Hs & _ & Hsend).
  split; [|split; [apply Hl|done]]. split; [exact Hs|]. split; [by exists d|exact Hsend].
Qed.

Lemma consume_at_ok s i n :
  srv_inv s -> live s i -> (0 <= n <= recv_len (conn_at s i))%Z ->
  exists s', consume_at s i n = Some s' /\ step_ok 0 i s s'.
Proof.
  intros Hi Hl Hn. destruct (live_ok _ _ Hi Hl) as (Hs & (b & Hb & Hlen & Hsz) & _).
  unfold consume_at, consume. unfold IOH_CONN_RECV_BUF_SIZE in *. rewrite u64_small by lia. rewrite Hb, Hs.
  destruct (Z.ltb_spec 0 (recv_len (conn_at s i) - n)).
  - rewrite (proj2 (Z.ltb_ge _ _)) by lia. eexists. split; [reflexivity|].
    change (step_ok 0 i s (upd_conn s i (fun _ => set_recv (conn_at s i) (Some (take (Z.to_nat (recv_len (conn_at s i) - n)) (drop (Z.to_nat n) b) ++ drop (Z.to_nat (recv_len (conn_at s i) - n)) b)) (recv_len (conn_at s i) - n))))
      with (step_ok 0 i s (upd_conn s i (fun c => set_recv c (Some (take (Z.to_nat (recv_len (conn_at s i) - n)) (drop (Z.to_nat n) b) ++ drop (Z.to_nat (recv_len (conn_at s i) - n)) b)) (recv_len (conn_at s i) - n)))).
    eapply set_recv_ok; [done|done|reflexivity|..]; unfold IOH_CONN_RECV_BUF_SIZE;
      rewrite length_app, length_take, !length_drop; lia.
  - eexists. split; [reflexivity|].
    change (step_ok 0 i s (upd_conn s i (fun c => set_recv c (Some b) (recv_len (conn_at s i) - n)))).
    eapply set_recv_ok; [done|done|reflexivity|lia|done].
Qed.

(** A stage keeps the invariant, prepares at most [n] requests when it ends the
    handling of the completion, and none when it goes on. *)
Definition stage_ok (n : nat) (i : nat) s (st : @stage Tab Ext Grp X S) : Prop :=
  match st with
  | Stop s' => step_ok n i s s'
  | Next s' => step_ok 0 i s s'
  end.

Lemma stop_recv s s' i : step_ok 0 i s s' -> step_ok 3 i s (fst (arm_recv s' i)).
Proof. intros H. eapply (step_then 0 2); [exact H|intros; by apply arm_recv_ok|lia]. Qed.

Lemma stop_close n s s' i : step_ok n i s s' -> sq_room s (n + 1) -> n ≤ 2 -> step_ok 3 i s (arm_close s' i).
Proof.
  intros H Hr Hn. eapply (step_then n 1); [exact H|intros; apply arm_close_ok; [done..|]|lia].
  by eapply room_after.
Qed.

Lemma recv_proxy_ok s i :
  srv_inv s -> live s i -> sq_room s 3 ->
  exists st, recv_proxy inet_pton s i = Some st /\ stage_ok 3 i s st.
Proof.
  intros Hi Hl Hr. unfold recv_proxy. case_bool_decide; [|eexists; split; [done|]; by apply step_ok_refl].
  destruct (live_ok _ _ Hi Hl) as (_ & (b & Hb & Hlen & _) & _).
  pose proof (received_length _ _ Hb Hlen) as Hrl.
  assert (Hclose : exists st, Some (Stop (arm_close s i)) = Some st /\ stage_ok 3 i s st).
  { eexists. split; [done|]. apply (stop_close 0); [by apply step_ok_refl|by eapply room_le; [exact Hr|lia]|lia]. }
  destruct (ioh_proxy_decode _ _) as [[n r]|e] eqn:Ed.
  - apply proxy_decode_bound in Ed. destruct (0 <? n); [|done].
    set (s1 := upd_conn s i _). assert (H1 : quiet_ok 0 i s s1) by (subst s1; frame).
    destruct (consume_at_ok s1 i (Z.of_nat n)) as (s2 & -> & H2); [apply H1|apply H1| |].
    { destruct H1 as [_ [= _ ->]]. lia. }
    assert (H3 : step_ok 0 i s (begin_protocol s2 i)).
    { eapply (step_then 0 0); [apply H1|intros _ _|lia].
      eapply (step_then 0 0); [exact H2|intros; by apply begin_protocol_ok|lia]. }
    destruct (_ =? 0)%Z; eexists; (split; [done|]); [by apply stop_recv|done].
  - destruct e; try done. eexists. split; [done|]. apply stop_recv. by apply step_ok_refl.
Qed.

Lemma recv_unless_sending_ok s i : srv_inv s -> live s i -> quiet_ok 2 i s (recv_unless_sending s i).
Proof.
  intros Hi Hl. unfold recv_unless_sending. destruct (send_active _); [|by apply arm_recv_ok].
  eapply quiet_weaken; [by apply quiet_refl|lia].
Qed.

Lemma set_tls_at_ok s i t o : srv_inv s -> live s i -> quiet_ok 0 i s (set_tls_at s t o).
Proof. intros Hi Hl. apply beside_ok; try done. apply Hi. Qed.

Lemma recv_handshake_ok s i t o : srv_inv s -> live s i -> sq_room s 3 -> step_ok 3 i s (recv_handshake s i t o).
Proof.
  intros Hi Hl Hr. unfold recv_handshake. destruct (ioh_tls_handshake o) as [o1 hs].
  set (s2 := if _ <? _ then _ else _).
  assert (H2 : quiet_ok 1 i s s2).
  { eapply (quiet_then 0 1); [by apply set_tls_at_ok|intros Hi1 Hl1; subst s2|lia].
    destruct (ioh_tls_get_output o1) as [|b out] eqn:Eo; [by eapply quiet_weaken; [apply quiet_refl|lia]|].
    cbn [length Nat.ltb Nat.leb]. eapply (quiet_then 1 0 _ _ _ (fst (arm_send (set_tls_at s t o1) i (b :: out)))); [by apply arm_send_ok|intros; by apply set_tls_at_ok|lia]. }
  clearbody s2.
  assert (Hc : step_ok 3 i s (arm_close s2 i)) by (apply (stop_close 1); [apply H2|by eapply room_le; [exact Hr|lia]|lia]).
  destruct hs as [u|e].
  - eapply (step_then 1 2); [apply H2|intros|lia]. apply qo_step. set (s3 := upd_conn s2 i _).
    eapply (quiet_then 0 2 _ _ _ s3); [frame|intros|lia].
    eapply (quiet_then 0 2 _ _ _ (transition s3 i IOH_CONN_HTTP_ACTIVE)); [by apply transition_ok|intros; by apply recv_unless_sending_ok|lia].
  - destruct e; try exact Hc. eapply (step_then 1 2); [apply H2|intros; by apply recv_unless_sending_ok|lia].
Qed.

Lemma recv_tls_ok s i : srv_inv s -> live s i -> sq_room s 3 -> stage_ok 3 i s (recv_tls s i).
Proof.
  intros Hi Hl Hr. unfold recv_tls.
  destruct (tls_ctx (conn_at s i) ≫= tls_at s) as [o|]; [|by apply step_ok_refl].
  destruct (tls_ctx (conn_at s i)) as [t|]; [|by apply step_ok_refl].
  destruct (ioh_tls_feed_input o _) as [o1 x]. set (s1 := upd_conn (set_tls_at s t o1) i _).
  assert (H1 : step_ok 0 i s s1).
  { eapply (step_then 0 0); [by apply set_tls_at_ok|intros Hi1 Hl1|lia].
    destruct (live_ok _ _ Hi1 Hl1) as (_ & (b & Hb & Hlen & Hsz) & _). subst s1.
    apply upd_conn_ok; [done|done|]. intros (Hs & _ & Hsend). split; [|split; [apply Hl1|done]].
    split; [exact Hs|]. split; [|exact Hsend]. exists b. split; [exact Hb|]. simpl. lia. }
  destruct (negb _).
  { eapply (step_then 0 3); [exact H1|intros; apply recv_handshake_ok; [done..|]|lia]. exact (room_after _ _ _ _ _ H1 Hr). }
  destruct (ioh_tls_read o1 PLAIN_SIZE) as [o2 rd].
  assert (H2 : step_ok 0 i s (set_tls_at s1 t o2)).
  { eapply (step_then 0 0); [exact H1|intros; by apply set_tls_at_ok|lia]. }
  destruct rd as [d|e].
  - cbn [stage_ok]. destruct (Z.leb_spec (Z.of_nat (length d)) (recv_buf_size (conn_at (set_tls_at s1 t o2) i))) as [Hd|]; [|done].
    eapply (step_then 0 0); [exact H2|intros Hi2 Hl2|lia].
    apply upd_conn_ok; [done|done|]. intros (Hs & (b & Hb & Hlen & Hsz) & Hsend). split; [|split; [apply Hl2|done]].
    split; [exact Hs|]. split; [|exact Hsend]. eexists. split; [reflexivity|]. rewrite Hb. cbn [default recv_len set_recv].
    unfold Datatypes.id. rewrite length_app, length_drop. rewrite Hs in Hd. lia.
  - destruct e; try (apply (stop_close 0); [done|by eapply room_le; [exact Hr|lia]|lia]). by apply stop_recv.
Qed.

Lemma parse_length_pos v n : (0 <= parse_content_length v n)%Z.
Proof.
  unfold parse_content_length. generalize (Z.le_refl 0). generalize 0%Z at 2 4 as z.
  induction (seq 0 n) as [|k l IH]; intros z Hz; [exact Hz|]. cbn [fold_left]. apply IH.
  apply Z.mod_pos_bound. lia.
Qed.

Lemma check_headers_length buf hs cl te hst r :
  (0 <= content_length r)%Z -> (0 <= content_length (snd (check_headers buf hs cl te hst r)))%Z.
Proof.
  revert cl te hst r. induction hs as [|h hs IH]; intros cl te hst r Hr; cbn [check_headers]; [done|].
  destruct (ph_name h) as [nm|]; [|done]. do 2 (destruct (_ && _); [done|]). cbv zeta.
  match goal with |- context [if ?x then with_content_length r ?n else r] =>
    assert (Hr' : (0 <= content_length (if x then with_content_length r n else r))%Z)
      by (destruct x; [apply parse_length_pos|done]) end.
  destruct (_ && _); [exact Hr'|]. by apply IH.
Qed.

Lemma copy_headers_length buf hs n r : content_length (copy_headers buf hs n r) = content_length r.
Proof.
  revert n r. induction hs as [|h hs IH]; intros n r; [done|]. cbn [copy_headers]. destruct (_ <=? n); [done|].
  by rewrite IH.
Qed.

Lemma parse_buffer_ok b len n req :
  parse_buffer simd b len = (Ok n, req) -> n ≤ len /\ (0 <= content_length req)%Z.
Proof.
  unfold parse_buffer. destruct (len =? 0); [done|].
  destruct (phr_parse_request _ _ _ _) as [q k rest| |] eqn:Ep; [|done|done].
  apply phr_prefixes in Ep as (Hk & _). rewrite length_take in Hk. unfold fill_request.
  destruct (_ <? _); [done|]. destruct (_ <? _); [done|].
  match goal with |- context [check_headers ?b ?hs ?x ?y ?z ?r] =>
    pose proof (check_headers_length b hs x y z r) as Hc; destruct (check_headers b hs x y z r) as [[[[cl te] hst]|e] r1] end; [|done].
  destruct (_ && _); [done|]. destruct (_ && _); [done|]. intros [= <- <-]. split; [lia|].
  rewrite copy_headers_length. apply Hc. by destruct (memchr _ _ _).
Qed.

Lemma await_body_ok s i req : srv_inv s -> live s i -> quiet_ok 2 i s (await_body s i req).
Proof.
  intros Hi Hl. unfold await_body.
  match goal with |- quiet_ok 2 i s (fst (arm_recv (upd_conn ?s1 i ?g) i)) =>
    assert (H1 : quiet_ok 0 i s s1);
      [|eapply (quiet_then 0 2 _ _ _ s1); [exact H1|intros|lia];
        eapply (quiet_then 0 2 _ _ _ (upd_conn s1 i g)); [frame|intros; by apply arm_recv_ok|lia]] end.
  destruct (sv_router s) as [r|]; [|by apply quiet_refl].
  set (m := ioh_router_dispatch _ _ _). destruct (status m), (opts m); try (by apply quiet_refl); frame.
Qed.

Lemma recv_http_ok s i :
  srv_inv s -> live s i -> sq_room s 3 -> exists s', recv_http simd s i = Some s' /\ step_ok 3 i s s'.
Proof.
  intros Hi Hl Hr. unfold recv_http.
  assert (Herr : forall st msg, (Z.of_nat (length msg) < 2 ^ 64)%Z ->
            exists s', send_error_response s i st msg = Some s' /\ step_ok 3 i s s').
  { intros st msg Hm. destruct (send_error_ok s i st msg Hi Hl Hm) as (s' & -> & Hq). eexists. split; [done|].
    eapply step_ok_weaken; [apply Hq|lia]. }
  destruct (_ <? _)%Z; [by apply Herr|].
  destruct (parse_buffer _ _ _) as [[n|e] req] eqn:Ep.
  - apply parse_buffer_ok in Ep as [Hn Hcl]. destruct (_ <? content_length req)%Z; [by apply Herr|].
    destruct (_ && _) eqn:Ew.
    { eexists. split; [done|]. eapply step_ok_weaken; [by apply await_body_ok|lia]. }
    match goal with |- context [dispatch_request s i ?q] => set (req' := q) end.
    destruct (dispatch_ok s i req' Hi Hl) as (s1 & rc & -> & H1); [by eapply room_le; [exact Hr|lia]|].
    destruct (consume_at_ok s1 i (Z.of_nat n + content_length req')) as (s2 & -> & H2); [apply H1|apply H1| |].
    + destruct H1 as [_ [= _ ->]]. assert (content_length req' = content_length req) as ->.
      { subst req'. by destruct (0 <? content_length req)%Z. }
      destruct (live_ok _ _ Hi Hl) as (_ & (b & Hb & Hlen & _) & _). repeat (case_match; bprop); lia.
    + eexists. split; [done|]. eapply (step_then 2 0); [apply H1|by intros|lia].
  - assert (Hbad := Herr 400%Z (bs "Bad Request") ltac:(done)). destruct e; try exact Hbad.
    eexists. split; [done|]. eapply step_ok_weaken; [by apply arm_recv_ok|lia].
Qed.

(** ** Completions *)

(** What the kernel promises of a completion: a receive stored [res] bytes inside
    the room it was given, and a send that is in progress transmitted at most what
    was left. *)
Definition cqe_ok s (e : cqe) : Prop :=
  forall i, cqe_conn s e = Some i ->
  (op_is e IOH_OP_RECV = true -> (0 < cq_res e)%Z ->
     cq_res e = Z.of_nat (length (cq_data e))
     /\ (recv_len (conn_at s i) + cq_res e <= recv_buf_size (conn_at s i))%Z)
  /\ (op_is e IOH_OP_SEND = true -> (0 <= cq_res e)%Z ->
     send_active (conn_at s i) = true
     /\ (cq_res e <= send_len (conn_at s i) - send_offset (conn_at s i))%Z).

(** The handling of a completion keeps the invariant and prepares at most three
    requests. *)
Record srv_step s s' : Prop := {
  ss_inv : srv_inv s';
  ss_fixed : fixed_part s' = fixed_part s;
  ss_sq : length (sv_sq s') ≤ length (sv_sq s) + 3;
}.

Lemma srv_step_refl s : srv_inv s -> srv_step s s.
Proof. intros Hi. split; [done|done|lia]. Qed.

Lemma step_srv n i s s' : step_ok n i s s' -> n ≤ 3 -> srv_step s s'.
Proof. intros [] ?. split; [done|done|lia]. Qed.

Lemma free_ok s i l : srv_inv s -> live s i -> srv_inv (with_pool (with_closed s l) (ioh_conn_free (sv_pool s) i)).
Proof.
  intros [Hp Hc Hh] [Hl Hf]. pose proof (lookup_lt_Some _ _ _ Hl) as Hlt. split; simpl; [|intros j c|done].
  - eapply pool_step_inv; [exact Hp|]. by eapply ps_free.
  - destruct (decide (j = i)) as [->|Hne].
    + rewrite list_lookup_insert_eq by done. by intros [= <-].
    + rewrite list_lookup_insert_ne by done. apply Hc.
Qed.

Lemma on_close_ok s e : srv_inv s -> srv_step s (on_close s e).
Proof.
  intros Hi. unfold on_close, cqe_conn. destruct (find_conn_by_id s _) as [i|] eqn:Ef; [|by apply srv_step_refl].
  apply find_conn_live in Ef as [Hl _]. split; [|done|simpl; lia]. exact (free_ok s i (sv_closed s) Hi Hl).
Qed.

Lemma on_timeout_ok s e : srv_inv s -> sq_room s 3 -> srv_step s (on_timeout s e).
Proof.
  intros Hi Hr. unfold on_timeout, cqe_conn. destruct (_ =? _)%Z; [by apply srv_step_refl|].
  destruct (find_conn_by_id s _) as [i|] eqn:Ef; [|by apply srv_step_refl]. apply find_conn_live in Ef as [Hl _].
  eapply (step_srv 3); [|lia]. apply (stop_close 0); [by apply step_ok_refl|by eapply room_le; [exact Hr|lia]|lia].
Qed.

Lemma store_received_ok s i d n :
  srv_inv s -> live s i -> n = Z.of_nat (length d) -> (recv_len (conn_at s i) + n <= recv_buf_size (conn_at s i))%Z ->
  step_ok 0 i s (upd_conn s i (fun c => store_received c d n)).
Proof.
  intros Hi Hl -> Hfit. apply upd_conn_ok; [done|done|]. intros (Hs & (b & Hb & Hlen & Hsz) & Hsend).
  split; [|split; [apply Hl|done]]. split; [exact Hs|]. split; [|exact Hsend]. unfold store_received. rewrite Hb.
  eexists. split; [reflexivity|]. cbn [recv_len set_recv default]. unfold Datatypes.id, IOH_CONN_RECV_BUF_SIZE in *.
  rewrite u64_small by lia. rewrite !length_app, length_take, length_drop. lia.
Qed.

Lemma on_recv_ok s e :
  srv_inv s -> sq_room s 3 -> op_is e IOH_OP_RECV = true -> cqe_ok s e ->
  exists s', on_recv simd inet_pton s e = Some s' /\ srv_step s s'.
Proof.
  intros Hi Hr Hop Hk. unfold on_recv. destruct (cqe_conn s e) as [i|] eqn:Ef; [|eexists; split; [done|by apply srv_step_refl]].
  destruct (Hk i Ef) as [Hk' _]. specialize (Hk' Hop). apply find_conn_live in Ef as [Hl _].
  destruct (Z.leb_spec (cq_res e) 0) as [|Hpos].
  { eexists. split; [done|]. eapply (step_srv 3); [|lia].
    apply (stop_close 0); [by apply step_ok_refl|by eapply room_le; [exact Hr|lia]|lia]. }
  destruct (Hk' Hpos) as [Hlen Hfit]. pose proof (store_received_ok s i _ _ Hi Hl Hlen Hfit) as H1.
  set (s1 := upd_conn s i _) in *. pose proof (room_after _ _ _ _ _ H1 Hr) as Hr1.
  destruct (recv_proxy_ok s1 i (so_inv _ _ _ _ H1) (so_live _ _ _ _ H1) Hr1) as (st & -> & Hst).
  destruct st as [s2|s2]; cbn [stage_ok] in Hst.
  { eexists. split; [done|]. eapply (step_srv 3); [|lia]. by eapply (step_then 0 3); [exact H1|intros; exact Hst|]. }
  pose proof (step_ok_trans _ _ _ _ _ _ H1 Hst) as H2. pose proof (room_after _ _ _ _ _ H2 Hr) as Hr2.
  pose proof (recv_tls_ok s2 i (so_inv _ _ _ _ H2) (so_live _ _ _ _ H2) Hr2) as Ht.
  destruct (recv_tls s2 i) as [s3|s3]; cbn [stage_ok] in Ht.
  { eexists. split; [done|]. eapply (step_srv 3); [|lia]. by eapply (step_then 0 3); [exact H2|intros; exact Ht|]. }
  pose proof (step_ok_trans _ _ _ _ _ _ H2 Ht) as H3. pose proof (room_after _ _ _ _ _ H3 Hr) as Hr3.
  destruct (recv_http_ok s3 i (so_inv _ _ _ _ H3) (so_live _ _ _ _ H3) Hr3) as (s4 & -> & H4).
  eexists. split; [done|]. eapply (step_srv 3); [|lia]. by eapply (step_then 0 3); [exact H3|intros; exact H4|].
Qed.

Lemma on_send_ok s e :
  srv_inv s -> sq_room s 3 -> op_is e IOH_OP_SEND = true -> cqe_ok s e -> srv_step s (on_send s e).
Proof.
  intros Hi Hr Hop Hk. unfold on_send. destruct (cqe_conn s e) as [i|] eqn:Ef; [|by apply srv_step_refl].
  destruct (Hk i Ef) as [_ Hk']. specialize (Hk' Hop). apply find_conn_live in Ef as [Hl _].
  pose proof (send_stop_ok s i send_buf send_len send_offset Hi Hl) as H1. set (s1 := upd_conn s i _) in *.
  assert (Hc1 : conn_at s1 i = set_send (conn_at s i) (send_buf (conn_at s i)) (send_len (conn_at s i)) (send_offset (conn_at s i)) false).
  { apply (conn_at_upd s i (fun c => set_send c (send_buf c) (send_len c) (send_offset c) false)). by apply live_lt. }
  clearbody s1.
  assert (Hclose : forall s', step_ok 0 i s s' -> srv_step s (arm_close s' i)).
  { intros s' H. eapply (step_srv 3); [|lia]. apply (stop_close 0); [done|by eapply room_le; [exact Hr|lia]|lia]. }
  destruct (Z.ltb_spec (cq_res e) 0) as [|Hpos]; [apply Hclose, H1|].
  destruct (Hk' Hpos) as [Hact Hrem]. destruct (live_ok _ _ Hi Hl) as (_ & _ & Hsend).
  destruct (Hsend Hact) as (d & Hd & Hdl & Hoff).
  set (s2 := upd_conn s1 i _).
  assert (H2 : quiet_ok 0 i s s2).
  { eapply (quiet_then 0 0); [exact H1|intros Hi1 Hl1|lia].
    assert (Ha : send_active (conn_at s1 i) = false) by by rewrite Hc1.
    apply upd_quiet; [done|done| |done]. intros (Hs & Hb & _). split; [|split; [apply Hl1|done]].
    split; [exact Hs|]. split; [exact Hb|]. simpl. by rewrite Ha. }
  assert (Hc2 : conn_at s2 i = set_send (conn_at s i) (Some d) (send_len (conn_at s i)) (u64 (send_offset (conn_at s i) + cq_res e)) false).
  { unfold s2. rewrite conn_at_upd by (apply live_lt, H1). by rewrite Hc1, <- Hd. }
  clearbody s2. destruct (Z.ltb_spec (send_offset (conn_at s2 i)) (send_len (conn_at s2 i))) as [Hlt|Hge].
  - destruct (get_sqe s2 _) as [s3|] eqn:Eg; [|apply Hclose, H2].
    eapply (step_srv 1); [|lia]. eapply (step_then 0 1); [apply H2|intros Hi2 Hl2|lia].
    pose proof (get_sqe_ok _ _ _ _ Hi2 Hl2 Eg) as H3. eapply (step_then 1 0); [exact H3|intros Hi3 Hl3|lia].
    assert (Hc3 : conn_at s3 i = conn_at s2 i).
    { unfold get_sqe in Eg. destruct (_ <? _)%Z; [|done]. injection Eg as <-. done. }
    apply upd_conn_ok; [done|done|]. intros (Hs & Hb & _). split; [|split; [apply Hl3|done]].
    split; [exact Hs|]. split; [exact Hb|]. intros _. rewrite Hc3, Hc2 in *. simpl in *.
    exists d. split; [done|]. split; [done|]. split; [apply Z.mod_pos_bound; lia|done].
  - set (s3 := upd_conn s2 i _).
    assert (H3 : quiet_ok 0 i s s3).
    { eapply (quiet_then 0 0); [exact H2|intros Hi2 Hl2|lia].
      assert (Ha : send_active (conn_at s2 i) = false) by by rewrite Hc2.
      apply upd_quiet; [done|done| |done]. intros (Hs & Hb & _). split; [|split; [apply Hl2|done]].
      split; [exact Hs|]. split; [exact Hb|]. simpl. by rewrite Ha. }
    clearbody s3. case_bool_decide; [eapply (step_srv 3); [by apply stop_recv, H3|lia]|].
    destruct (_ && _); [|apply Hclose, H3]. set (s4 := upd_conn s3 i _).
    assert (H4 : step_ok 0 i s s4).
    { eapply (step_then 0 0); [apply H3|intros Hi3 Hl3|lia].
      apply upd_conn_ok; [done|done|]. intros (Hs & (b & Hb & Hlen & Hsz) & Hsn). split; [|split; [apply Hl3|done]].
      split; [exact Hs|]. split; [|exact Hsn]. exists b. split; [exact Hb|]. simpl. lia. }
    eapply (step_srv 3); [|lia]. eapply (step_then 3 0 _ _ _ (fst (arm_recv s4 i))); [by apply stop_recv|intros; apply qo_step; frame|lia].
Qed.

Lemma alloc_ok s i p h :
  srv_inv s -> ioh_conn_alloc (sv_pool s) [] = (i, p, h) ->
  let s' := with_heap (with_pool s p) h in
  srv_inv s' /\ match i with Some i => live s' i | None => True end.
Proof.
  intros [Hp Hc Hh] Ha. cbv zeta. assert (Hp' : pool_inv p) by (eapply pool_step_inv; [exact Hp|by eapply ps_alloc]).
  unfold ioh_conn_alloc in Ha. destruct (find_slot is_free _) as [j|] eqn:Ef; cbn in Ha.
  2:{ injection Ha as <- <- <-. by split. }
  injection Ha as <- <- <-. apply find_slot_Some in Ef as (c & Hj & _). pose proof (lookup_lt_Some _ _ _ Hj) as Hlt.
  split; [split; [done| |done]|].
  - intros k d. simpl. destruct (decide (k = j)) as [->|Hne].
    + rewrite list_insert_insert_eq, list_lookup_insert_eq by done. intros [= <-] _.
      split; [done|]. split; [|done]. exists []. split; [done|]. unfold IOH_CONN_RECV_BUF_SIZE. simpl. lia.
    + rewrite !list_lookup_insert_ne by done. apply Hc.
  - unfold live, conn_at. simpl. rewrite list_insert_insert_eq, list_lookup_insert_eq by done. done.
Qed.

Lemma on_accept_ok s e : srv_inv s -> srv_step s (on_accept s e).
Proof.
  intros Hi. unfold on_accept. cbv zeta.
  match goal with |- srv_step s (if _ then _ else ?x) => set (s1 := x) end.
  assert (H1 : srv_inv s1 /\ fixed_part s1 = fixed_part s /\ length (sv_sq s1) ≤ length (sv_sq s) + 2).
  { subst s1. destruct (0 <=? cq_res e)%Z; [|split; [done|split; [done|lia]]]. rewrite (si_heap _ Hi).
    destruct (ioh_conn_alloc (sv_pool s) []) as [[[i|] p] h] eqn:Ea; apply alloc_ok in Ea; try done; cbv zeta in Ea.
    2:{ destruct Ea as [Hs _]. split; [|split; [done|simpl; lia]]. destruct Hs. by split. }
    destruct Ea as [Hs1 Hl1]. set (s1 := with_heap (with_pool s p) h) in *.
    set (s2 := upd_conn s1 i _). assert (H2 : quiet_ok 0 i s1 s2) by (subst s2; frame).
    set (s3 := if sc_proxy_protocol _ then _ else _).
    assert (H3 : quiet_ok 0 i s1 s3).
    { eapply (quiet_then 0 0); [exact H2|intros Hi2 Hl2|lia]. subst s3. destruct (sc_proxy_protocol _).
      - by apply transition_ok.
      - by apply begin_protocol_ok. }
    pose proof (arm_recv_ok s3 i (so_inv _ _ _ _ H3) (so_live _ _ _ _ H3)) as H4.
    pose proof (step_ok_trans _ _ _ _ _ _ H3 H4) as [Hinv Hlive Hfix Hsq].
    destruct (arm_recv s3 i) as [s4 [u|err]]; simpl in *; (split; [|split; [exact Hfix|exact Hsq]]); [done|].
    by apply free_ok. }
  clearbody s1. destruct H1 as (Hi1 & Hf1 & Hs1). destruct (negb (cq_more e)); [|split; [done|done|lia]].
  assert (Ha : forall a, srv_step s (set_accepting s1 a)).
  { intros a. split; [|exact Hf1|simpl; lia]. destruct Hi1. by split. }
  destruct (_ && _); [|apply Ha]. unfold arm_multishot_accept, get_sqe. destruct (_ <? _)%Z; [|apply Ha].
  split; [|exact Hf1|simpl; rewrite length_app; simpl; lia]. destruct Hi1. by split.
Qed.

Lemma on_completion_ok s e :
  srv_inv s -> sq_room s 3 -> cqe_ok s e ->
  exists s', on_completion simd inet_pton s e = Some s' /\ srv_step s s'.
Proof.
  intros Hi Hr Hk. unfold on_completion.
  destruct (op_is e IOH_OP_ACCEPT); [eexists; split; [done|by apply on_accept_ok]|].
  destruct (op_is e IOH_OP_RECV) eqn:E1; [by apply on_recv_ok|].
  destruct (op_is e IOH_OP_SEND) eqn:E2; [eexists; split; [done|by apply on_send_ok]|].
  destruct (op_is e IOH_OP_CLOSE); [eexists; split; [done|by apply on_close_ok]|].
  destruct (op_is e IOH_OP_TIMEOUT); eexists; (split; [done|]); [by apply on_timeout_ok|by apply srv_step_refl].
Qed.

(** ** A turn of the loop *)

(** The kernel keeps its promises for each completion, in the state it is handled
    in, and none is a signal's. *)
Fixpoint delivered s (es : list cqe) : Prop :=
  match es with
  | [] => True
  | e :: es => op_is e IOH_OP_SIGNAL = false /\ cqe_ok s e
               /\ forall s', on_completion simd inet_pton s e = Some s' -> delivered s' es
  end.

Lemma run_once_S fuel s env :
  ioh_server_run_once simd inet_pton (Datatypes.S fuel) s env =
  if sv_stopped s then Val (0%Z, s, env) else
  let '(t, env) := next_turn env in
  if (k_submit t <? 0)%Z then Val (k_submit t, s, env) else
  let s := submit s (k_cqes t) in
  if length (sv_cq s) <=? sv_khead s then Val (k_wait t, s, env) else
  '(s, env, n) ← for_each_cqe simd inet_pton fuel s env (sv_khead s) 0;
  Val (Z.of_nat n, cq_advance s n, env).
Proof. reflexivity. Qed.

Lemma for_each_ok es fuel s env h n :
  srv_inv s -> delivered s es -> drop h (sv_cq s) = es -> h ≤ length (sv_cq s) ->
  (Z.of_nat (length (sv_sq s) + 3 * length es) <= sc_queue_depth (sv_config s))%Z -> length es < fuel ->
  exists s', for_each_cqe simd inet_pton fuel s env h n = Val (s', env, n + length es)
    /\ srv_inv s' /\ fixed_part s' = fixed_part s /\ length (sv_sq s') ≤ length (sv_sq s) + 3 * length es.
Proof.
  revert fuel s h n. induction es as [|e es IH]; intros fuel s h n Hi Hd Hq Hh Hroom Hf;
    (destruct fuel as [|fuel]; [simpl in Hf; lia|]); cbn [for_each_cqe].
  - apply (f_equal length) in Hq. rewrite length_drop in Hq. simpl in Hq.
    rewrite (proj2 (Nat.eqb_eq _ _)) by lia. exists s. rewrite Nat.add_0_r. split; [done|]. split; [done|]. split; [done|lia].
  - pose proof (f_equal length Hq) as Hlen. rewrite length_drop in Hlen. simpl in Hlen.
    rewrite (proj2 (Nat.eqb_neq _ _)) by lia.
    assert (Hl : sv_cq s !! h = Some e).
    { rewrite <- (Nat.add_0_r h), <- lookup_drop, Hq. done. }
    rewrite Hl. destruct Hd as (-> & Hk & Hnext). simpl in Hroom, Hf.
    destruct (on_completion_ok s e Hi) as (s1 & E1 & H1); [unfold sq_room; lia|done|].
    rewrite E1. cbn [mbind eff_bind]. destruct H1 as [Hi1 Hf1 Hs1]. pose proof Hf1 as [= Ec Eq _ _].
    destruct (IH fuel s1 (Datatypes.S h) (Datatypes.S n)) as (s2 & -> & Hi2 & Hf2 & Hs2);
      [done|by apply Hnext| |by rewrite Eq; lia|rewrite Ec; lia|lia|].
    { rewrite Eq, <- Nat.add_1_r, <- drop_drop, Hq. done. }
    exists s2. split; [do 2 f_equal; simpl; lia|]. split; [done|]. split; [congruence|simpl; lia].
Qed.

Lemma turn_safe s t env fuel :
  srv_inv s -> sv_stopped s = false -> sv_khead s = length (sv_cq s) -> (0 <= k_submit t)%Z ->
  delivered (submit s (k_cqes t)) (k_cqes t) ->
  (3 * Z.of_nat (length (k_cqes t)) <= sc_queue_depth (sv_config s))%Z ->
  Datatypes.S (length (k_cqes t)) < fuel ->
  exists s', ioh_server_run_once simd inet_pton fuel s (t :: env) =
      Val (match k_cqes t with [] => k_wait t | _ => Z.of_nat (length (k_cqes t)) end, s', env)
    /\ srv_inv s' /\ sv_khead s' = length (sv_cq s') /\ sv_stopped s' = false
    /\ length (sv_sq s') ≤ 3 * length (k_cqes t) /\ sv_config s' = sv_config s.
Proof.
  intros Hi Hst Hh Hsub Hd Hq Hf. destruct fuel as [|fuel]; [lia|]. rewrite run_once_S, Hst.
  cbn [next_turn]. rewrite (proj2 (Z.ltb_ge _ _)) by lia. set (s1 := submit s (k_cqes t)) in *.
  assert (Hi1 : srv_inv s1) by (destruct Hi; by split).
  assert (Hcq : sv_cq s1 = sv_cq s ++ k_cqes t) by done.
  assert (Hh1 : sv_khead s1 = length (sv_cq s)) by done.
  assert (Hfix : sv_stopped s1 = false) by done.
  assert (Hsq : sv_sq s1 = []) by done. assert (Hc : sv_config s1 = sv_config s) by done. clearbody s1.
  rewrite Hh1, Hcq, length_app. destruct (k_cqes t) as [|e es] eqn:Ek.
  { rewrite (proj2 (Nat.leb_le _ _)) by (simpl; lia). exists s1. rewrite Hcq, app_nil_r, Hsq. split_and!; simpl; done || lia. }
  rewrite (proj2 (Nat.leb_gt _ _)) by (simpl; lia).
  destruct (for_each_ok (e :: es) fuel s1 env (length (sv_cq s)) 0) as (s2 & -> & Hi2 & Hf2 & Hs2);
    [done|done|by rewrite Hcq, drop_app_length|rewrite Hcq, length_app; lia|rewrite Hsq, Hc; simpl in *; lia|lia|].
  pose proof Hf2 as [= Ec2 Eq2 Eh2 Es2]. cbn [mbind eff_bind].
  exists (cq_advance s2 (0 + length (e :: es))). split; [done|]. split; [destruct Hi2; by split|].
  split; [|split; [simpl; congruence|split; [simpl; rewrite Hsq in Hs2; exact Hs2|simpl; congruence]]].
  cbn [sv_khead sv_cq cq_advance with_ring]. rewrite Eh2, Eq2, Hh1, Hcq, length_app. lia.
Qed.

(** C1: a turn of the loop is safe.  A server whose connections are well-formed
    (the pool's counter is the number of live slots, every live connection has its
    receive buffer with the received bytes inside it, every send in progress has
    bytes left to send) gets, as long as the kernel keeps its promises, its
    allocations succeed and the submission queue has three places for each
    completion, through all completions of a turn without a store outside an
    object, whatever they are (new connections, data in any state of the PROXY, TLS
    and HTTP layers, sends, closes, timeouts) and whatever the application's
    handlers and middleware do; it ends well-formed, with the whole queue consumed. *)
Theorem server_turn_safe s t env fuel :
  srv_inv s -> sv_stopped s = false -> sv_khead s = length (sv_cq s) -> (0 <= k_submit t)%Z ->
  delivered (submit s (k_cqes t)) (k_cqes t) ->
  (3 * Z.of_nat (length (k_cqes t)) <= sc_queue_depth (sv_config s))%Z ->
  Datatypes.S (length (k_cqes t)) < fuel ->
  exists s', ioh_server_run_once simd inet_pton fuel s (t :: env) =
      Val (match k_cqes t with [] => k_wait t | _ => Z.of_nat (length (k_cqes t)) end, s', env)
    /\ srv_inv s' /\ sv_khead s' = length (sv_cq s') /\ sv_stopped s' = false
    /\ length (sv_sq s') ≤ 3 * length (k_cqes t).
Proof.
  intros Hi Hst Hh Hsub Hd Hq Hf. destruct (turn_safe s t env fuel) as (s' & E & H1 & H2 & H3 & H4 & _); [done..|].
  by exists s'.
Qed.
End Thms.

(** ** Witnesses *)

#[local] Existing Instance toy_ssl.

Definition demo_conf : ioh_server_config_t :=
  mk_server_config None 8080 2 16 65000 30000 60000 8192 1048576 false.

(** A server with one handler, and the connection it accepts at descriptor 7. *)
Definition demo_server : @ioh_server (ioh_radix_node_t handler_fn ioh_route_opts_t) unit unit unit unit :=
  ioh_server_set_on_request
    (mk_server demo_conf (mk_pool (replicate 2 (blank_conn IOH_CONN_FREE)) 2 0 1) None None None
       5 (-1) true true false false [] [] [] 0 [] [] [] [])
    (Some (fun c => (0%Z, ioh_ctx_status c 204))).

Definition no_pton (af : Z) (s : bytes) : option bytes := None.

Definition demo_get : bytes := bs "GET / HTTP/1.1" ++ [CR; LF] ++ bs "Host: x" ++ [CR; LF; CR; LF].

Definition demo_cqes : list cqe :=
  [ mk_cqe (IOH_ENCODE_USERDATA 0 IOH_OP_ACCEPT) 7 true [] 0;
    mk_cqe (IOH_ENCODE_USERDATA 1 IOH_OP_RECV) (Z.of_nat (length demo_get)) false demo_get 0 ].

Lemma demo_server_inv : srv_inv demo_server.
Proof.
  split; [split|..]; simpl; try done.
  - intros c Hc _. apply (elem_of_replicate 2) in Hc as [-> _]. done.
  - intros i c Hc. apply (lookup_replicate 2) in Hc as [-> _]. done.
Qed.

Lemma demo_delivered : delivered false no_pton (submit demo_server demo_cqes) demo_cqes.
Proof.
  split; [reflexivity|]. split; [intros i Hc; vm_compute in Hc; discriminate Hc|]. intros s1 E1. vm_compute in E1. injection E1 as <-.
  split; [reflexivity|]. split; [|done]. intros i Hc. vm_compute in Hc. injection Hc as <-.
  split; [|intros H; vm_compute in H; discriminate H]. intros _ _. vm_compute. split; [reflexivity|discriminate].
Qed.

Lemma server_turn_safe_witness :
  exists s', ioh_server_run_once false no_pton 4 demo_server [mk_turn 0 demo_cqes 0] = Val (2%Z, s', [])
    /\ srv_inv s' /\ (send_buf (conn_at s' 0) ≫= fun b => Some (take 12 b)) = Some (bs "HTTP/1.1 204").
Proof.
  destruct (server_turn_safe false no_pton demo_server (mk_turn 0 demo_cqes 0) [] 4) as (s' & E & Hi & _).
  - exact demo_server_inv.
  - reflexivity.
  - reflexivity.
  - simpl. lia.
  - exact demo_delivered.
  - vm_compute. discriminate.
  - vm_compute. lia.
  - exists s'. split; [exact E|]. split; [exact Hi|]. vm_compute in E. injection E as <-. reflexivity.
Defined.
