(* ===== verification/ServerRun.v ===== *)
(** Running and shutting down the server: what a shutdown leaves, that a draining
    shutdown ends, and what a signal delivered by the loop does. *)
From S2P Require Import Prelude CString PathNorm Radix RadixThms Request Router Loop Proxy Conn Tls Response Pico Http1 Cookie Ctx Middleware Server ServerThms.

Section Run.
Context {Tab Ext Grp X S : Type}.
Context `{RT : RouteTable Tab handler_fn ioh_route_opts_t} `{W : WolfSSL X S}.
Context (simd : bool) (inet_pton : Z -> bytes -> option bytes).
Abbreviation server := (@ioh_server Tab Ext Grp X S).
Implicit Types (s : server).

(** ** Closing every connection *)

(** The descriptors of the live connections of a pool, in slot order. *)
Definition live_fds (cs : list ioh_conn_t) : list Z :=
  filter (fun x => (0 <= x)%Z) (fd <$> filter (fun c => is_free c = false) cs).

(** A slot after the shutdown. *)
Definition closed_slot (c : ioh_conn_t) : ioh_conn_t := if is_free c then c else blank_conn IOH_CONN_FREE.

Lemma used_app a b : used (a ++ b) = used a + used b.
Proof. unfold used. by rewrite filter_app, length_app. Qed.

Lemma live_fds_app a b : live_fds (a ++ b) = live_fds a ++ live_fds b.
Proof. unfold live_fds. by rewrite filter_app, fmap_app, filter_app. Qed.

Lemma closed_slot_free c : is_free (closed_slot c) = true.
Proof. unfold closed_slot. by destruct (is_free c) eqn:E. Qed.

Lemma used_closed cs : used (closed_slot <$> cs) = 0.
Proof.
  induction cs as [|c cs IH]; [done|]. unfold used in *. cbn [fmap list_fmap]. rewrite filter_cons.
  by rewrite decide_False by (by rewrite closed_slot_free).
Qed.

(** The first [k] slots are closed. *)
Record closed_upto (k : nat) s s' : Prop := {
  cu_conns : conns (sv_pool s') = (closed_slot <$> take k (conns (sv_pool s))) ++ drop k (conns (sv_pool s));
  cu_count : pool_inv (sv_pool s) ->
    active_count (sv_pool s') = (active_count (sv_pool s) - Z.of_nat (used (take k (conns (sv_pool s)))))%Z;
  cu_max : max_conns (sv_pool s') = max_conns (sv_pool s);
  cu_closed : sv_closed s' = sv_closed s ++ live_fds (take k (conns (sv_pool s)));
  cu_flags : (sv_listen_fd s', sv_listening s', sv_accepting s', sv_stopped s')
             = (sv_listen_fd s, sv_listening s, sv_accepting s, sv_stopped s);
}.

Lemma closed_upto_slot k s s' c :
  closed_upto k s s' -> conns (sv_pool s) !! k = Some c ->
  conns (sv_pool s') !! k = Some c /\ length (conns (sv_pool s')) = length (conns (sv_pool s))
  /\ forall d, <[k := d]> (conns (sv_pool s')) = (closed_slot <$> take k (conns (sv_pool s))) ++ d :: drop (Datatypes.S k) (conns (sv_pool s)).
Proof.
  intros [-> _ _ _ _] Hk. pose proof (lookup_lt_Some _ _ _ Hk) as Hlt.
  assert (Hl : length (closed_slot <$> take k (conns (sv_pool s))) = k) by (rewrite length_fmap, length_take; lia).
  rewrite (drop_S _ _ _ Hk). split_and!.
  - rewrite lookup_app_r by lia. by rewrite Hl, Nat.sub_diag.
  - rewrite length_app, Hl. cbn [length]. rewrite length_drop. lia.
  - intros d. rewrite <- Hl at 1. rewrite <- (Nat.add_0_r (length _)). by rewrite insert_app_r.
Qed.

Lemma force_close_step k s s' :
  closed_upto k s s' -> k < length (conns (sv_pool s)) -> closed_upto (Datatypes.S k) s (force_close s' k).
Proof.
  intros Hc Hlt. destruct (lookup_lt_is_Some_2 _ _ Hlt) as [c Hk].
  destruct (closed_upto_slot _ _ _ _ Hc Hk) as (Hk' & Hlen & Hins). pose proof Hc as [Hcs Hn Hm Hcl Hf].
  assert (Hat : conn_at s' k = c) by (unfold conn_at; by rewrite Hk').
  pose proof (take_S_r _ _ _ Hk) as Ht. unfold force_close. rewrite Hat. destruct (is_free c) eqn:Efree.
  - split; rewrite ?Ht, ?used_app, ?live_fds_app, ?fmap_app; try done.
    + rewrite Hcs, (drop_S _ _ _ Hk), <- app_assoc. unfold closed_slot at 3. cbn. by rewrite Efree.
    + intros Hp. rewrite Hn by done. unfold used at 3. rewrite filter_cons_False by congruence. simpl. lia.
    + rewrite Hcl. unfold live_fds at 3. rewrite filter_cons_False by congruence. by rewrite app_nil_r.
  - assert (Hused : used (take (Datatypes.S k) (conns (sv_pool s))) = used (take k (conns (sv_pool s))) + 1).
    { rewrite Ht, used_app. f_equal. unfold used. by rewrite filter_cons_True. }
    assert (Hfds : live_fds (take (Datatypes.S k) (conns (sv_pool s)))
                   = live_fds (take k (conns (sv_pool s))) ++ (if (0 <=? fd c)%Z then [fd c] else [])).
    { rewrite Ht, live_fds_app. f_equal. unfold live_fds. rewrite filter_cons_True by done. cbn [fmap list_fmap filter list_filter].
      destruct (Z.leb_spec 0 (fd c)); [by rewrite decide_True|by rewrite decide_False by lia]. }
    assert (Hcount : pool_inv (sv_pool s) -> u32 (active_count (sv_pool s') - 1)
                     = (active_count (sv_pool s) - Z.of_nat (used (take (Datatypes.S k) (conns (sv_pool s)))))%Z).
    { intros Hp. rewrite Hn, Hused by done. destruct Hp as [Hl Hmx Hcnt _]. pose proof (used_le (conns (sv_pool s))) as Hu.
      assert (used (take (Datatypes.S k) (conns (sv_pool s))) ≤ used (conns (sv_pool s))) as Hu'.
      { rewrite <- (take_drop (Datatypes.S k) (conns (sv_pool s))) at 2. rewrite used_app. lia. }
      rewrite Hused in Hu'. rewrite Hcnt. unfold u32. rewrite Z.mod_small; lia. }
    assert (Hslot : closed_slot <$> take (Datatypes.S k) (conns (sv_pool s))
                    = (closed_slot <$> take k (conns (sv_pool s))) ++ [blank_conn IOH_CONN_FREE]).
    { rewrite Ht, fmap_app. unfold closed_slot at 2. cbn. by rewrite Efree. }
    cbv zeta. rewrite (conn_at_upd s' k) by lia. rewrite Hat. cbn [fd set_tls].
    destruct (0 <=? fd c)%Z; split; rewrite ?Hslot, ?Hfds; cbn [conns sv_pool with_pool ioh_conn_free upd_conn with_closed max_conns active_count sv_closed];
      rewrite ?list_insert_insert_eq, ?Hins, <- ?app_assoc, ?app_nil_r, ?app_assoc; try done;
      first [by rewrite Hcl|by rewrite <- app_assoc].
Qed.

Lemma close_all_spec s : closed_upto (length (conns (sv_pool s))) s (close_all s).
Proof.
  unfold close_all, slots. cut (forall k, k ≤ length (conns (sv_pool s)) -> closed_upto k s (fold_left force_close (seq 0 k) s)).
  { intros H. by apply H. }
  induction k as [|k IH]; intros Hk.
  { split; simpl; try done; [unfold used; simpl; lia|by rewrite app_nil_r]. }
  rewrite seq_S, fold_left_app. simpl. apply force_close_step; [apply IH; lia|lia].
Qed.

(** ** Shutting down *)

(** What a completed shutdown leaves: no connection, every descriptor of [cs] closed
    once, the listening socket too, and a loop that will not run again. *)
Record shut s s' : Prop := {
  sh_free : Forall (fun c => is_free c = true) (conns (sv_pool s'));
  sh_count : pool_inv (sv_pool s) -> active_count (sv_pool s') = 0%Z;
  sh_closed : sv_closed s' = sv_closed s ++ live_fds (conns (sv_pool s));
  sh_stopped : sv_stopped s' = sv_stopped s;
  sh_loop : sv_loop_stopped s' = true;
  sh_accept : sv_accepting s' = sv_accepting s;
  sh_listen : sv_listen_fd s' = sv_listen_fd s;
}.

Lemma close_all_shut s : shut s (loop_stop (close_all s)).
Proof.
  destruct (close_all_spec s) as [Hc Hn _ Hcl [= Hlf _ Hac Hst]].
  rewrite take_ge in Hc, Hn, Hcl by lia. rewrite drop_ge, app_nil_r in Hc by lia. split; simpl; try done.
  - rewrite Hc. apply Forall_fmap. apply Forall_true. apply closed_slot_free.
  - intros Hp. rewrite Hn, (inv_count _ Hp) by done. lia.
Qed.

Lemma stop_accepting_part s :
  let s' := stop_accepting s in
  sv_pool s' = sv_pool s /\ sv_config s' = sv_config s /\ sv_cq s' = sv_cq s /\ sv_khead s' = sv_khead s
  /\ sv_stopped s' = true /\ sv_accepting s' = false /\ (sv_listen_fd s' < 0)%Z
  /\ sv_closed s' = sv_closed s ++ (if (0 <=? sv_listen_fd s)%Z then [sv_listen_fd s] else []).
Proof.
  cbv zeta. unfold stop_accepting, get_sqe. destruct (sv_accepting (set_stopped s true)) eqn:Ea; simpl in Ea.
  - destruct (_ <? _)%Z; simpl; destruct (Z.leb_spec 0 (sv_listen_fd s)); simpl; rewrite ?app_nil_r; split_and!; done || lia.
  - simpl. destruct (Z.leb_spec 0 (sv_listen_fd s)); simpl; rewrite ?app_nil_r; split_and!; done || lia.
Qed.

(** C13: an immediate shutdown leaves nothing behind.  With a pool whose counter is
    the number of its live slots, and whatever the connections are doing, it returns;
    then every slot of the pool is free and the active count is zero, the listening
    socket and the descriptor of every live connection have been closed, each exactly
    once and in slot order, the server accepts no connection and has no listening
    socket, and both the server and its loop are stopped. *)
Theorem immediate_shutdown_closes_all s env fuel :
  pool_inv (sv_pool s) ->
  exists s', ioh_server_shutdown simd inet_pton (Datatypes.S fuel) s env IOH_SHUTDOWN_IMMEDIATE = Val (s', env)
    /\ Forall (fun c => is_free c = true) (conns (sv_pool s')) /\ active_count (sv_pool s') = 0%Z
    /\ sv_closed s' = sv_closed s ++ (if (0 <=? sv_listen_fd s)%Z then [sv_listen_fd s] else [])
                         ++ live_fds (conns (sv_pool s))
    /\ sv_accepting s' = false /\ (sv_listen_fd s' < 0)%Z
    /\ sv_stopped s' = true /\ sv_loop_stopped s' = true.
Proof.
  intros Hp. cbn. eexists. split; [reflexivity|].
  destruct (stop_accepting_part s) as (Ep & _ & _ & _ & Est & Eac & Elf & Ecl). cbv zeta in *.
  set (s1 := stop_accepting s) in *. destruct (close_all_shut s1) as [H1 H2 H3 H4 H5 H6 H7].
  split_and!; try done; [apply H2; by rewrite Ep|by rewrite H3, Ecl, Ep, app_assoc|by rewrite H6|by rewrite H7|by rewrite H4].
Qed.

(** ** Signals *)

Lemma fold_upd_part (f : server -> nat -> server) l s :
  (forall s i, fixed_part (f s i) = fixed_part s /\ active_count (sv_pool (f s i)) = active_count (sv_pool s)) ->
  fixed_part (fold_left f l s) = fixed_part s /\ active_count (sv_pool (fold_left f l s)) = active_count (sv_pool s).
Proof.
  intros Hf. revert s. induction l as [|i l IH]; intros s; [done|]. simpl. destruct (IH (f s i)) as [-> ->]. apply Hf.
Qed.

Lemma mark_draining_part s :
  fixed_part (mark_draining s) = fixed_part s /\ active_count (sv_pool (mark_draining s)) = active_count (sv_pool s).
Proof. apply fold_upd_part. intros s' i. by case_bool_decide. Qed.

(** The next completion to handle is a [SIGTERM] and a connection is open. *)
Record term_pending s : Prop := {
  tp_cqe : exists e, sv_cq s !! sv_khead s = Some e /\ op_is e IOH_OP_SIGNAL = true
             /\ (0 < cq_res e)%Z /\ cq_signo e = SIGTERM;
  tp_active : (0 < active_count (sv_pool s))%Z;
  tp_timeout : (0 < sc_keepalive_timeout_ms (sv_config s))%Z;
}.

Lemma term_pending_drain s : term_pending s -> term_pending (set_stopped (mark_draining (stop_accepting s)) false).
Proof.
  intros [He Ha Ht]. destruct (mark_draining_part (stop_accepting s)) as [[= Ec Eq Ek _] Ea].
  destruct (stop_accepting_part s) as (Ep & Ec' & Eq' & Ek' & _). cbv zeta in *. split; simpl.
  - by rewrite Eq, Ek, Eq', Ek'.
  - by rewrite Ea, Ep.
  - by rewrite Ec, Ec'.
Qed.

Lemma term_pending_submit s new : term_pending s -> term_pending (submit s new).
Proof.
  intros [(e & He & Hs) Ha Ht]. split; [|done|done]. exists e. split; [|done]. simpl. by apply lookup_app_l_Some.
Qed.

(** [SIGTERM] with an open connection never comes back.  When the loop handles
    the completion of the signal descriptor while a connection is open, the draining
    shutdown it starts runs the loop again before the head of the completion queue
    has moved, so the same completion is handled again, and starts another shutdown:
    no amount of steps is enough for the call to return, whatever the kernel does. *)
Theorem sigterm_never_returns fuel s env :
  term_pending s -> sv_stopped s = false -> Forall (fun t => (0 <= k_submit t)%Z) env ->
  ioh_server_run_once simd inet_pton fuel s env = NoFuel.
Proof.
  revert s env. induction fuel as [fuel IH] using lt_wf_ind. intros s env Htp Hst Henv.
  destruct fuel as [|fuel]; [done|]. rewrite run_once_S, Hst.
  destruct (next_turn env) as [t env1] eqn:En.
  assert (Ht : (0 <= k_submit t)%Z /\ Forall (fun t => (0 <= k_submit t)%Z) env1).
  { destruct env; simpl in En; injection En as <- <-; [by split|]. by apply Forall_cons in Henv. }
  destruct Ht as [Hsub Henv1]. rewrite (proj2 (Z.ltb_ge _ _)) by lia. cbv zeta.
  apply (term_pending_submit _ (k_cqes t)) in Htp. set (s1 := submit s (k_cqes t)) in *. clearbody s1.
  pose proof Htp as [(e & He & Hop & Hres & Hsig) Ha Hto]. pose proof (lookup_lt_Some _ _ _ He) as Hlt.
  rewrite (proj2 (Nat.leb_gt _ _)) by lia. destruct fuel as [|fuel]; [done|]. cbn [for_each_cqe].
  rewrite (proj2 (Nat.eqb_neq _ _)) by lia. rewrite He, Hop, (proj2 (Z.ltb_lt _ _)) by done. rewrite Hsig.
  cbn [Z.eqb SIGTERM SIGQUIT Pos.eqb]. destruct fuel as [|fuel]; [done|]. cbn [ioh_server_shutdown].
  destruct fuel as [|fuel]; [done|]. cbn [drain_loop].
  pose proof (term_pending_drain _ Htp) as Htp2. set (s2 := mark_draining (stop_accepting s1)) in *.
  pose proof Htp2 as [_ Ha2 Hto2]. cbn [sv_pool set_stopped with_flags sv_config] in Ha2, Hto2.
  rewrite !(proj2 (Z.ltb_lt _ _)) by done. cbn [andb].
  rewrite (IH fuel) by (done || lia). done.
Qed.

(** ** What handling a completion cannot change *)

Lemma fixed_upd s i f : fixed_part (upd_conn s i f) = fixed_part s.
Proof. reflexivity. Qed.

Lemma fixed_get_sqe s e s' : get_sqe s e = Some s' -> fixed_part s' = fixed_part s.
Proof. unfold get_sqe. destruct (_ <? _)%Z; [|done]. by intros [= <-]. Qed.

Lemma fixed_arm_recv s i : fixed_part (fst (arm_recv s i)) = fixed_part s.
Proof.
  unfold arm_recv. destruct (get_sqe s _) as [s1|] eqn:E1; [|done]. apply fixed_get_sqe in E1.
  destruct (0 <? _)%Z; [|done]. destruct (get_sqe (with_sq _ _) _) as [s2|] eqn:E2; [|done]. by apply fixed_get_sqe in E2.
Qed.

Lemma fixed_encrypt s i d : fixed_part (fst (fst (encrypt s i d))) = fixed_part s.
Proof. unfold encrypt. repeat (case_match; try done). Qed.

Lemma fixed_arm_send s i d : fixed_part (fst (arm_send s i d)) = fixed_part s.
Proof.
  unfold arm_send. destruct (send_active _); [done|]. pose proof (fixed_encrypt s i d) as He.
  destruct (encrypt s i d) as [[s1 [out|e]] o]; [|done]. simpl in He.
  destruct (if o then _ else _) as [[] h]; simpl; [|done].
  match goal with |- context [get_sqe ?a ?b] => destruct (get_sqe a b) as [s2|] eqn:E2 end; [|done].
  apply fixed_get_sqe in E2. exact (eq_trans E2 He).
Qed.

Lemma fixed_arm_close s i : fixed_part (arm_close s i) = fixed_part s.
Proof.
  unfold arm_close. match goal with |- context [get_sqe ?a ?b] => destruct (get_sqe a b) as [s2|] eqn:E2 end; [|done].
  by apply fixed_get_sqe in E2.
Qed.

Lemma fixed_send_error s i st m s' : send_error_response s i st m = Some s' -> fixed_part s' = fixed_part s.
Proof.
  unfold send_error_response. destruct (ioh_response_init _) as [[u r] h]. destruct (ioh_response_set_body _ _ _ _) as [[[rc r1] h1]|]; [|done].
  intros [= <-]. rewrite fixed_upd.
  destruct (ioh_http1_serialize_response _ _) as [text|]; [|done].
  destruct (0 <? length text); [|done]. apply (fixed_arm_send (with_heap s h1)).
Qed.

Lemma fixed_request_id s (c : ioh_ctx_t) s' c' : request_id s c = Some (s', c') -> fixed_part s' = fixed_part s.
Proof.
  unfold request_id. destruct (ioh_request_header _ _) as [v|].
  - destruct (ioh_ctx_set_header _ _ _ _) as [[[rc c1] h1]|]; [|done]. by intros [= <- _].
  - destruct (xrand (sv_rand s)) as [r1 q1], (xrand q1) as [r2 q2], (xrand q2) as [r3 q3], (xrand q3) as [r4 q4].
    destruct (ioh_ctx_sprintf _ _ _) as [[[[p|] c1] h1]|]; [|by intros [= <- _]|done].
    destruct (ioh_ctx_set_header _ _ _ _) as [[[rc c2] h2]|]; [|done]. by intros [= <- _].
Qed.

Lemma fixed_error_answer s (c : ioh_ctx_t) st m x :
  error_answer s c st m = Some x -> fixed_part (fst (fst x)) = fixed_part s.
Proof. unfold error_answer. destruct (ioh_ctx_error _ _ _ _) as [[[rc c1] h1]|]; [|done]. by intros [= <-]. Qed.

Lemma fixed_route s i (c : ioh_ctx_t) x : route_request s i c = Some x -> fixed_part (fst (fst x)) = fixed_part s.
Proof.
  unfold route_request, answered. destruct (sv_router s) as [r|].
  - cbv zeta. set (m := ioh_router_dispatch _ _ _).
    set (s1 := match status m, opts m with
               | IOH_MATCH_FOUND, Some o => upd_conn s i (fun c => set_routes c (o_body_timeout_ms o) (o_keepalive_timeout_ms o))
               | _, _ => s
               end).
    assert (Hs1 : fixed_part s1 = fixed_part s) by (subst s1; by destruct (status m), (opts m)). clearbody s1. rewrite <- Hs1.
    intros H. destruct (status m); [destruct (rm_handler m) as [hd|]|..].
    { destruct (ioh_chain_execute _ _ _ _); [|done]. by injection H as <-. }
    all: match type of H with match ?o with Some _ => _ | None => _ end = _ => destruct o end;
      [by injection H as <-|by apply fixed_error_answer in H].
  - destruct (sv_on_request s); [by intros [= <-]|apply fixed_error_answer].
Qed.

Lemma fixed_dispatch s i req x : dispatch_request s i req = Some x -> fixed_part (fst x) = fixed_part s.
Proof.
  unfold dispatch_request. destruct (ioh_response_init _) as [[u r] h].
  destruct (ioh_ctx_init _ _ _) as [[c|e] h1]; [|by intros [= <-]].
  destruct (request_id _ _) as [[s1 c1]|] eqn:E1; [|done]. apply fixed_request_id in E1.
  destruct (route_request s1 i c1) as [[[s2 rc] c2]|] eqn:E2; [|done]. apply fixed_route in E2. simpl in E2.
  destruct (ioh_http1_serialize_response _ _) as [text|]; [destruct (0 <? length text)|].
  - pose proof (fixed_arm_send s2 i text) as Hs. destruct (arm_send s2 i text) as [s3 [w|e]]; simpl in Hs; intros [= <-]; cbn [fst].
    + change (fixed_part s3 = fixed_part s). rewrite Hs, E2, E1. done.
    + rewrite fixed_arm_close, Hs, E2, E1. done.
  - intros [= <-]. cbn [fst]. change (fixed_part s2 = fixed_part s). by rewrite E2, E1.
  - intros [= <-]. cbn [fst]. change (fixed_part s2 = fixed_part s). by rewrite E2, E1.
Qed.

Lemma fixed_begin s i : fixed_part (begin_protocol s i) = fixed_part s.
Proof. unfold begin_protocol, start_tls. repeat (case_match; try done). Qed.

Lemma fixed_consume s i n s' : consume_at s i n = Some s' -> fixed_part s' = fixed_part s.
Proof. unfold consume_at. destruct (consume _ _); [|done]. by intros [= <-]. Qed.

Definition stage_server (st : @stage Tab Ext Grp X S) : server := match st with Stop s | Next s => s end.

Lemma fixed_recv_proxy s i st : recv_proxy inet_pton s i = Some st -> fixed_part (stage_server st) = fixed_part s.
Proof.
  unfold recv_proxy. case_bool_decide; [|by intros [= <-]].
  destruct (ioh_proxy_decode _ _) as [[n r]|e].
  2:{ destruct e; intros [= <-]; first [apply fixed_arm_recv|apply fixed_arm_close]. }
  destruct (0 <? n); [|intros [= <-]; apply fixed_arm_close].
  destruct (consume_at _ _ _) as [s1|] eqn:E; [|done]. apply fixed_consume in E.
  destruct (_ =? 0)%Z; intros [= <-]; cbn [stage_server]; rewrite ?fixed_arm_recv, fixed_begin, E; done.
Qed.

Lemma fixed_recv_unless s i : fixed_part (recv_unless_sending s i) = fixed_part s.
Proof. unfold recv_unless_sending. destruct (send_active _); [done|apply fixed_arm_recv]. Qed.

Lemma fixed_handshake s i t o : fixed_part (recv_handshake s i t o) = fixed_part s.
Proof.
  unfold recv_handshake. destruct (ioh_tls_handshake o) as [o1 hs].
  set (s1 := if _ <? _ then _ else _). assert (H1 : fixed_part s1 = fixed_part s).
  { subst s1. destruct (_ <? _); [|done]. apply (fixed_arm_send (set_tls_at s t o1)). }
  clearbody s1. destruct hs as [u|e].
  - rewrite fixed_recv_unless. exact H1.
  - destruct e; rewrite ?fixed_recv_unless, ?fixed_arm_close; exact H1.
Qed.

Lemma fixed_recv_tls s i : fixed_part (stage_server (recv_tls s i)) = fixed_part s.
Proof.
  unfold recv_tls. destruct (tls_ctx (conn_at s i) ≫= tls_at s) as [o|]; [|done].
  destruct (tls_ctx (conn_at s i)) as [t|]; [|done]. destruct (ioh_tls_feed_input o _) as [o1 u].
  destruct (negb _); [cbn [stage_server]; by rewrite fixed_handshake|]. destruct (ioh_tls_read o1 PLAIN_SIZE) as [o2 [d|e]].
  - cbn [stage_server]. by destruct (_ <=? _)%Z.
  - destruct e; cbn [stage_server]; rewrite ?fixed_arm_recv, ?fixed_arm_close; done.
Qed.

Lemma fixed_await s i req : fixed_part (await_body s i req) = fixed_part s.
Proof.
  unfold await_body. rewrite fixed_arm_recv. destruct (sv_router s) as [r|]; [|done].
  set (m := ioh_router_dispatch _ _ _). by destruct (status m), (opts m).
Qed.

Lemma fixed_recv_http s i s' : recv_http simd s i = Some s' -> fixed_part s' = fixed_part s.
Proof.
  unfold recv_http. destruct (_ <? _)%Z; [apply fixed_send_error|].
  destruct (parse_buffer _ _ _) as [[n|e] req].
  - destruct (_ <? _)%Z; [apply fixed_send_error|]. destruct (_ && _); [intros [= <-]; apply fixed_await|].
    destruct (dispatch_request _ _ _) as [[s1 rc]|] eqn:E; [|done]. apply fixed_dispatch in E. simpl in E.
    intros H. apply fixed_consume in H. congruence.
  - destruct e; try apply fixed_send_error. intros [= <-]. apply fixed_arm_recv.
Qed.

Lemma fixed_on_recv s e s' : on_recv simd inet_pton s e = Some s' -> fixed_part s' = fixed_part s.
Proof.
  unfold on_recv. destruct (cqe_conn s e) as [i|]; [|by intros [= <-]].
  destruct (_ <=? _)%Z; [intros [= <-]; apply fixed_arm_close|].
  set (s1 := upd_conn s i _). change (fixed_part s) with (fixed_part s1). clearbody s1.
  destruct (recv_proxy inet_pton s1 i) as [st|] eqn:E; [|done]. apply fixed_recv_proxy in E.
  destruct st as [s2|s2]; cbn [stage_server] in E; [by intros [= <-]|].
  pose proof (fixed_recv_tls s2 i) as Ht. destruct (recv_tls s2 i) as [s3|s3]; cbn [stage_server] in Ht; [intros [= <-]|intros H; apply fixed_recv_http in H]; congruence.
Qed.

Lemma fixed_on_send s e : fixed_part (on_send s e) = fixed_part s.
Proof.
  unfold on_send. destruct (cqe_conn s e) as [i|]; [|done]. destruct (_ <? 0)%Z; [by rewrite fixed_arm_close|].
  destruct (_ <? _)%Z.
  - match goal with |- context [get_sqe ?a ?b] => destruct (get_sqe a b) as [s2|] eqn:E2 end; [|by rewrite fixed_arm_close].
    by apply fixed_get_sqe in E2.
  - case_bool_decide; [by rewrite fixed_arm_recv|]. destruct (_ && _); [|by rewrite fixed_arm_close].
    by rewrite fixed_upd, fixed_arm_recv, !fixed_upd.
Qed.

Lemma fixed_on_accept s e : fixed_part (on_accept s e) = fixed_part s.
Proof.
  unfold on_accept. cbv zeta. match goal with |- fixed_part (if _ then _ else ?x) = _ => set (s1 := x) end.
  assert (H1 : fixed_part s1 = fixed_part s).
  { subst s1. destruct (0 <=? cq_res e)%Z; [|done]. destruct (ioh_conn_alloc _ _) as [[[i|] p] h]; [|done].
    match goal with |- context [arm_recv ?a i] => pose proof (fixed_arm_recv a i) as Hr;
      destruct (arm_recv a i) as [s2 [u|err]]; simpl in Hr; cbv iota; try change (fixed_part (with_pool (with_closed s2 _) _)) with (fixed_part s2); rewrite Hr end;
      (destruct (sc_proxy_protocol _); [done|by rewrite fixed_begin]). }
  clearbody s1. destruct (negb _); [|done]. destruct (_ && _); [|done]. unfold arm_multishot_accept.
  match goal with |- context [get_sqe ?a ?b] => destruct (get_sqe a b) as [s2|] eqn:E2 end; [|done].
  apply fixed_get_sqe in E2. exact (eq_trans E2 H1).
Qed.

Lemma fixed_on_completion s e s' : on_completion simd inet_pton s e = Some s' -> fixed_part s' = fixed_part s.
Proof.
  unfold on_completion. destruct (op_is e IOH_OP_ACCEPT); [intros [= <-]; apply fixed_on_accept|].
  destruct (op_is e IOH_OP_RECV); [apply fixed_on_recv|].
  destruct (op_is e IOH_OP_SEND); [intros [= <-]; apply fixed_on_send|].
  destruct (op_is e IOH_OP_CLOSE); [intros [= <-]; unfold on_close; by destruct (cqe_conn s e)|].
  destruct (op_is e IOH_OP_TIMEOUT); intros [= <-]; [|done]. unfold on_timeout. destruct (_ =? _)%Z; [done|].
  destruct (cqe_conn s e); [apply fixed_arm_close|done].
Qed.

(** ** Draining ends *)

Lemma drain_loop_S fuel s env elapsed :
  drain_loop simd inet_pton (Datatypes.S fuel) s env elapsed =
  if (0 <? active_count (sv_pool s))%Z && (elapsed <? sc_keepalive_timeout_ms (sv_config s))%Z then
    '(_, s, env) ← ioh_server_run_once simd inet_pton fuel (set_stopped s false) env;
    drain_loop simd inet_pton fuel (set_stopped s true) env (u32 (elapsed + DRAIN_POLL_MS))
  else Val (s, env).
Proof. reflexivity. Qed.

Lemma shutdown_drain_S fuel s env :
  ioh_server_shutdown simd inet_pton (Datatypes.S fuel) s env IOH_SHUTDOWN_DRAIN =
  '(s, env) ← drain_loop simd inet_pton fuel (mark_draining (stop_accepting s)) env 0;
  Val (loop_stop (close_all s), env).
Proof. reflexivity. Qed.

Definition no_signal (es : list cqe) : Prop := Forall (fun e => op_is e IOH_OP_SIGNAL = false) es.

(** The completions that can still be handled: those in the queue and those the
    kernel has yet to deliver. *)
Definition load s (env : list turn) : nat :=
  (length (sv_cq s) - sv_khead s) + length (concat (k_cqes <$> env)).

(** The queue's head is inside it and no completion ahead is a signal's. *)
Record calm s (env : list turn) : Prop := {
  ca_head : sv_khead s ≤ length (sv_cq s);
  ca_queue : no_signal (drop (sv_khead s) (sv_cq s));
  ca_env : no_signal (concat (k_cqes <$> env));
}.

Lemma for_each_ends fuel s env h n :
  h ≤ length (sv_cq s) -> no_signal (drop h (sv_cq s)) -> length (sv_cq s) - h < fuel ->
  match for_each_cqe simd inet_pton fuel s env h n with
  | NoFuel => False
  | Undef => True
  | Val (s', env', n') => fixed_part s' = fixed_part s /\ env' = env /\ n' = n + (length (sv_cq s) - h)
  end.
Proof.
  revert s h n. induction fuel as [|fuel IH]; intros s h n Hh Hs Hf; [lia|]. cbn [for_each_cqe].
  destruct (Nat.eqb_spec h (length (sv_cq s))) as [->|Hne]; [split; [done|split; [done|lia]]|].
  destruct (lookup_lt_is_Some_2 (sv_cq s) h) as [e He]; [lia|]. rewrite He.
  rewrite (drop_S _ _ _ He) in Hs. apply Forall_cons in Hs as [-> Hs].
  destruct (on_completion simd inet_pton s e) as [s1|] eqn:E1; cbn [mbind eff_bind]; [|done].
  apply fixed_on_completion in E1 as Hfix. pose proof Hfix as [= _ Eq _ _].
  specialize (IH s1 (Datatypes.S h) (Datatypes.S n)). rewrite Eq in IH. specialize (IH ltac:(lia) Hs ltac:(lia)).
  destruct (for_each_cqe _ _ fuel s1 env _ _) as [[[s2 env2] n2]| |]; [|done|done].
  destruct IH as (-> & -> & ->). split; [done|]. split; [done|]. lia.
Qed.

Lemma run_once_ends fuel s env :
  calm s env -> load s env + 1 < fuel ->
  match ioh_server_run_once simd inet_pton fuel s env with
  | NoFuel => False
  | Undef => True
  | Val (rc, s', env') => calm s' env' /\ load s' env' ≤ load s env /\ sv_config s' = sv_config s
  end.
Proof.
  intros Hc Hf. pose proof Hc as [Hh Hq He]. destruct fuel as [|fuel]; [lia|]. rewrite run_once_S. destruct (sv_stopped s); [done|].
  destruct (next_turn env) as [t env1] eqn:En.
  assert (Hen : concat (k_cqes <$> env) = k_cqes t ++ concat (k_cqes <$> env1)).
  { destruct env; simpl in En; injection En as <- <-; done. }
  unfold load in *. rewrite Hen in *. apply Forall_app in He as [Ht He1]. rewrite length_app in *.
  destruct (_ <? 0)%Z; [split; [by split|split; [lia|done]]|]. cbv zeta.
  set (s1 := submit s (k_cqes t)). assert (Hcq : sv_cq s1 = sv_cq s ++ k_cqes t) by done.
  assert (Hk : sv_khead s1 = sv_khead s) by done. assert (Hcf : sv_config s1 = sv_config s) by done. clearbody s1.
  assert (Hq1 : no_signal (drop (sv_khead s1) (sv_cq s1))).
  { rewrite Hk, Hcq, drop_app_le by done. by apply Forall_app. }
  destruct (_ <=? _) eqn:El; bprop.
  { split; [split; [rewrite Hcq, length_app; lia|done|done]|]. rewrite Hcq, length_app, Hk. split; [lia|done]. }
  pose proof (for_each_ends fuel s1 env1 (sv_khead s1) 0) as Hfe. rewrite Hcq, length_app, Hk in Hfe.
  rewrite Hcq, Hk in Hq1. specialize (Hfe ltac:(lia) Hq1 ltac:(lia)). rewrite Hk.
  destruct (for_each_cqe _ _ _ _ _ _ _) as [[[s2 env2] n2]| |]; cbn [mbind eff_bind]; [|done|done].
  destruct Hfe as ([= Ec Eq Ek _] & -> & ->). split; [split|split]; simpl; rewrite ?Eq, ?Ek, ?Hcq, ?Hk, ?length_app; try lia; try done; [|congruence].
  rewrite drop_ge by (rewrite length_app; lia). by constructor.
Qed.

Lemma drain_ends n fuel s env elapsed :
  calm s env -> load s env + n + 2 < fuel -> (0 <= elapsed)%Z ->
  (sc_keepalive_timeout_ms (sv_config s) <= 2 ^ 32 - DRAIN_POLL_MS)%Z ->
  (sc_keepalive_timeout_ms (sv_config s) - elapsed <= DRAIN_POLL_MS * Z.of_nat n)%Z ->
  drain_loop simd inet_pton fuel s env elapsed <> NoFuel.
Proof.
  unfold DRAIN_POLL_MS. revert fuel s env elapsed. induction n as [|n IH]; intros fuel s env elapsed Hc Hf He Ht Hn;
    (destruct fuel as [|fuel]; [lia|]); rewrite drain_loop_S.
  { rewrite (proj2 (Z.ltb_ge elapsed _)) by lia. by rewrite andb_false_r. }
  destruct ((_ <? _)%Z && (_ <? _)%Z) eqn:E; [|done]. bprop.
  assert (Hc' : calm (set_stopped s false) env) by (destruct Hc; by split).
  pose proof (run_once_ends fuel (set_stopped s false) env Hc') as Hro. change (load (set_stopped s false) env) with (load s env) in Hro.
  specialize (Hro ltac:(lia)). destruct (ioh_server_run_once _ _ _ _ _) as [[[rc s1] env1]| |]; cbn [mbind eff_bind]; [|done|done].
  destruct Hro as (Hc1 & Hl1 & Ec1). change (sv_config (set_stopped s false)) with (sv_config s) in Ec1.
  assert (Hu : u32 (elapsed + 50) = (elapsed + 50)%Z) by (unfold u32; apply Z.mod_small; lia). unfold DRAIN_POLL_MS. rewrite Hu.
  apply IH; [destruct Hc1; by split| |lia|simpl; rewrite Ec1; lia|simpl; rewrite Ec1; lia].
  change (load (set_stopped s1 true) env1) with (load s1 env1). lia.
Qed.

(** A drain never hangs.  With no signal pending and a drain time below 2^32 - 50 ms,
    enough steps always bring it to its end, whatever completions the kernel delivers. *)
Theorem drain_never_hangs s env fuel :
  calm s env ->
  (sc_keepalive_timeout_ms (sv_config s) <= 2 ^ 32 - DRAIN_POLL_MS)%Z ->
  load s env + Z.to_nat (sc_keepalive_timeout_ms (sv_config s) / DRAIN_POLL_MS) + 5 < fuel ->
  match ioh_server_shutdown simd inet_pton fuel s env IOH_SHUTDOWN_DRAIN with
  | NoFuel => False
  | Undef => True
  | Val (s', _) => Forall (fun c => is_free c = true) (conns (sv_pool s')) /\ sv_loop_stopped s' = true
  end.
Proof.
  intros Hc Ht Hf. destruct fuel as [|fuel]; [lia|]. rewrite shutdown_drain_S.
  destruct (stop_accepting_part s) as (_ & Ec & Eq & Ek & _). cbv zeta in *.
  destruct (mark_draining_part (stop_accepting s)) as [[= Ec' Eq' Ek' _] _].
  set (s1 := mark_draining (stop_accepting s)) in *.
  assert (Hc1 : calm s1 env) by (destruct Hc; split; by rewrite ?Eq', ?Ek', ?Eq, ?Ek).
  assert (Hl1 : load s1 env = load s env) by (unfold load; by rewrite Eq', Ek', Eq, Ek).
  assert (Hcf : sv_config s1 = sv_config s) by congruence. clearbody s1.
  pose proof (drain_ends (Z.to_nat (sc_keepalive_timeout_ms (sv_config s) / DRAIN_POLL_MS) + 1) fuel s1 env 0 Hc1) as H.
  rewrite Hl1, Hcf in H. unfold DRAIN_POLL_MS in *. specialize (H ltac:(lia) ltac:(lia) Ht).
  assert (Hdiv : (sc_keepalive_timeout_ms (sv_config s) - 0 <= 50 * Z.of_nat (Z.to_nat (sc_keepalive_timeout_ms (sv_config s) / 50) + 1))%Z).
  { pose proof (Z.mul_succ_div_gt (sc_keepalive_timeout_ms (sv_config s)) 50 ltac:(lia)).
    destruct (Z.le_gt_cases 0 (sc_keepalive_timeout_ms (sv_config s) / 50)); lia. }
  specialize (H Hdiv). destruct (drain_loop _ _ _ _ _ _) as [[s2 env2]| |]; cbn [mbind eff_bind]; [|done|done].
  destruct (close_all_shut s2). done.
Qed.
(** ** Draining returns *)

(** The kernel keeps its promises in the turns of a drain: in each that it lets begin,
    the completions fit the submission queue, three places for each, and are those of
    lawful receives and sends, none a signal's. *)
Fixpoint keeps s (env : list turn) : Prop :=
  match env with
  | [] => True
  | t :: env' =>
      let s0 := set_stopped s false in
      ((0 <= k_submit t)%Z ->
         (3 * Z.of_nat (length (k_cqes t)) <= sc_queue_depth (sv_config s))%Z
         /\ delivered simd inet_pton (submit s0 (k_cqes t)) (k_cqes t))
      /\ forall fuel rc s1, ioh_server_run_once simd inet_pton fuel s0 env = Val (rc, s1, env') -> keeps (set_stopped s1 true) env'
  end.

(** A server between two turns of a drain. *)
Record drained s : Prop := {
  dr_inv : srv_inv s;
  dr_head : sv_khead s = length (sv_cq s);
  dr_stopped : sv_stopped s = true;
}.

Lemma drain_turn fuel s env :
  drained s -> keeps s env -> length (concat (k_cqes <$> env)) + 1 < fuel ->
  exists rc s', ioh_server_run_once simd inet_pton fuel (set_stopped s false) env = Val (rc, s', drop 1 env)
    /\ drained (set_stopped s' true) /\ sv_config s' = sv_config s.
Proof.
  intros [Hi Hh _] Hk Hf.
  assert (Hi0 : srv_inv (set_stopped s false)) by (destruct Hi; by split).
  assert (Hgo : forall t env', (0 <= k_submit t)%Z ->
            (3 * Z.of_nat (length (k_cqes t)) <= sc_queue_depth (sv_config s))%Z ->
            delivered simd inet_pton (submit (set_stopped s false) (k_cqes t)) (k_cqes t) -> length (k_cqes t) + 1 < fuel ->
            exists rc s', ioh_server_run_once simd inet_pton fuel (set_stopped s false) (t :: env') = Val (rc, s', env')
              /\ drained (set_stopped s' true) /\ sv_config s' = sv_config s).
  { intros t env' Hs Hq Hd Hl.
    destruct (turn_safe simd inet_pton (set_stopped s false) t env' fuel) as (s' & E & H1 & H2 & _ & _ & H5); try done; [lia|].
    eexists _, s'. split; [exact E|]. split; [|done]. split; [destruct H1; by split|done|done]. }
  destruct env as [|t env'].
  - destruct fuel as [|fuel]; [lia|].
    rewrite run_once_S. cbn [sv_stopped set_stopped with_flags next_turn k_submit k_cqes k_wait Z.ltb Z.compare].
    rewrite (proj2 (Nat.leb_le _ _)) by (cbn; rewrite app_nil_r; lia). eexists _, _. split; [reflexivity|]. split; [|done].
    split; [destruct Hi; by split|cbn; by rewrite app_nil_r|done].
  - cbn [drop]. rewrite drop_0. destruct Hk as [Hk _]. cbn [fmap list_fmap concat] in Hf. rewrite length_app in Hf.
    destruct (Z.lt_ge_cases (k_submit t) 0) as [Hneg|Hpos].
    + destruct fuel as [|fuel]; [lia|]. rewrite run_once_S. cbn [sv_stopped set_stopped with_flags next_turn].
      rewrite (proj2 (Z.ltb_lt _ _) Hneg). eexists _, _. split; [reflexivity|]. split; [|done]. split; [destruct Hi; by split|done|done].
    + destruct (Hk Hpos) as [Hq Hd]. apply Hgo; [done|done|done|lia].
Qed.

Lemma drain_returns n fuel s env elapsed :
  drained s -> keeps s env -> length (concat (k_cqes <$> env)) + n + 2 < fuel -> (0 <= elapsed)%Z ->
  (sc_keepalive_timeout_ms (sv_config s) <= 2 ^ 32 - DRAIN_POLL_MS)%Z ->
  (sc_keepalive_timeout_ms (sv_config s) - elapsed <= DRAIN_POLL_MS * Z.of_nat n)%Z ->
  exists s' k, drain_loop simd inet_pton fuel s env elapsed = Val (s', drop k env) /\ k ≤ n /\ drained s'.
Proof.
  unfold DRAIN_POLL_MS. revert fuel s env elapsed. induction n as [|n IH]; intros fuel s env elapsed Hd Hk Hf He Ht Hn;
    (destruct fuel as [|fuel]; [lia|]); rewrite drain_loop_S.
  { rewrite (proj2 (Z.ltb_ge elapsed _)) by lia. rewrite andb_false_r. exists s, 0. split; [done|]. split; [lia|done]. }
  destruct ((_ <? _)%Z && (_ <? _)%Z) eqn:E; [|exists s, 0; split; [done|]; split; [lia|done]]. bprop.
  destruct (drain_turn fuel s env Hd Hk) as (rc & s1 & E1 & Hd1 & Ec); [lia|]. rewrite E1. cbn [mbind eff_bind].
  assert (Hu : u32 (elapsed + 50) = (elapsed + 50)%Z) by (unfold u32; apply Z.mod_small; lia). unfold DRAIN_POLL_MS. rewrite Hu.
  destruct (IH fuel (set_stopped s1 true) (drop 1 env) (elapsed + 50)%Z) as (s2 & k & E2 & Hk2 & Hd2); [done| | |lia|simpl; rewrite Ec; lia|simpl; rewrite Ec; lia|].
  - destruct env as [|t env']; [done|]. destruct Hk as [_ Hk]. cbn [drop] in *. rewrite drop_0 in *. by apply (Hk fuel rc s1).
  - destruct env as [|t env']; [simpl in *; lia|]. cbn [drop fmap list_fmap concat] in *. rewrite drop_0. rewrite length_app in Hf. lia.
  - exists s2, (Datatypes.S k). rewrite E2, drop_drop. split; [done|]. split; [lia|done].
Qed.

Lemma mark_draining_inv s : srv_inv s -> srv_inv (mark_draining s).
Proof.
  unfold mark_draining. generalize (slots s). intros l. revert s. induction l as [|i l IH]; intros s Hi; [done|]. simpl. apply IH.
  case_bool_decide as Hst; [|done].
  assert (Hl : live s i).
  { unfold live, conn_at in *. destruct (conns (sv_pool s) !! i) as [c|] eqn:Ec; [|done]. cbn [default] in *. unfold Datatypes.id in *.
    split; [done|]. unfold is_free. by rewrite Hst. }
  pose proof (transition_ok s i IOH_CONN_DRAINING Hi Hl ltac:(done)) as Ht. apply qo_step in Ht.
  eapply (so_inv 0 i (transition s i IOH_CONN_DRAINING)). apply qo_step. apply upd_frame; [apply Ht|apply Ht|intros c; by repeat split].
Qed.

Lemma drain_start s : srv_inv s -> sv_khead s = length (sv_cq s) -> drained (mark_draining (stop_accepting s)).
Proof.
  intros Hi Hh. destruct (stop_accepting_part s) as (Ep & _ & Eq & Ek & Est & _). cbv zeta in *.
  destruct (mark_draining_part (stop_accepting s)) as [[= _ Eq' Ek' Est'] _]. split; [|by rewrite Ek', Eq', Ek, Eq|by rewrite Est', Est].
  apply mark_draining_inv. destruct Hi as [H1 H2 H3]. split; [by rewrite Ep|by rewrite Ep|].
  rewrite <- H3. unfold stop_accepting, get_sqe. repeat (case_match; simpl; try done).
Qed.

(** C14: a draining shutdown returns.  Called from outside the loop, on a well-formed
    server whose allocations succeed, with every completion so far handled and a drain
    time of at most 2^32 - 50 ms; and the kernel, in each turn of the drain, refuses to
    submit or delivers lawful completions, none a signal's, for which the queue has
    three places each.  Then, whatever these are and whatever the connections are
    doing, the call returns without a store outside an object, after at most one turn
    for every begun 50 ms of the drain time; no slot of the pool is in use, the
    active count is zero and both the server and its loop are stopped. *)
Theorem drain_shutdown_ends s env fuel :
  srv_inv s -> sv_khead s = length (sv_cq s) ->
  (0 <= sc_keepalive_timeout_ms (sv_config s) <= 2 ^ 32 - DRAIN_POLL_MS)%Z ->
  keeps (mark_draining (stop_accepting s)) env ->
  length (concat (k_cqes <$> env)) + Z.to_nat (sc_keepalive_timeout_ms (sv_config s) / DRAIN_POLL_MS) + 5 < fuel ->
  exists s' turns, ioh_server_shutdown simd inet_pton fuel s env IOH_SHUTDOWN_DRAIN = Val (s', drop turns env)
    /\ (DRAIN_POLL_MS * Z.of_nat turns < sc_keepalive_timeout_ms (sv_config s) + DRAIN_POLL_MS)%Z
    /\ Forall (fun c => is_free c = true) (conns (sv_pool s')) /\ active_count (sv_pool s') = 0%Z
    /\ sv_stopped s' = true /\ sv_loop_stopped s' = true.
Proof.
  intros Hi Hh Ht Hk Hf. destruct fuel as [|fuel]; [lia|]. rewrite shutdown_drain_S. pose proof (drain_start s Hi Hh) as Hd.
  destruct (stop_accepting_part s) as (_ & Ec & _). cbv zeta in *. destruct (mark_draining_part (stop_accepting s)) as [[= Ec' _ _ _] _].
  set (s1 := mark_draining (stop_accepting s)) in *. assert (Hcf : sv_config s1 = sv_config s) by congruence. clearbody s1.
  set (T := sc_keepalive_timeout_ms (sv_config s)) in *. unfold DRAIN_POLL_MS in *.
  pose proof (Z.div_mod (T + 49) 50 ltac:(lia)) as Hdm. pose proof (Z.mod_pos_bound (T + 49) 50 ltac:(lia)) as Hmb.
  assert (Hle : ((T + 49) / 50 <= T / 50 + 1)%Z) by (apply Z.lt_succ_r, Z.div_lt_upper_bound; [lia|]; pose proof (Z.mul_succ_div_gt T 50 ltac:(lia)); lia).
  pose proof (Z.div_pos T 50 ltac:(lia) ltac:(lia)) as H0. pose proof (Z.div_pos (T + 49) 50 ltac:(lia) ltac:(lia)) as H1.
  destruct (drain_returns (Z.to_nat ((T + 49) / 50)) fuel s1 env 0 Hd Hk) as (s2 & k & E & Hkn & [Hi2 _ Hs2]);
    unfold DRAIN_POLL_MS; rewrite ?Hcf; fold T; [lia|lia|lia|lia|].
  rewrite E. cbn [mbind eff_bind]. destruct (close_all_shut s2) as [F1 F2 _ F4 F5 _ _].
  eexists _, k. split; [reflexivity|]. split; [lia|]. split_and!; [done|apply F2, Hi2|by rewrite F4|done].
Qed.
End Run.

(** ** Witnesses *)

#[local] Existing Instance toy_ssl.

(** A server with an idle connection at descriptor 7, and a drain time of 100 ms. *)
Definition demo_conn : ioh_conn_t :=
  set_fd (set_state (set_recv_buf (set_id (blank_conn IOH_CONN_ACCEPTING) 1) [] IOH_CONN_RECV_BUF_SIZE) IOH_CONN_HTTP_ACTIVE) 7.

Definition demo_open : @ioh_server (ioh_radix_node_t handler_fn ioh_route_opts_t) unit unit unit unit :=
  mk_server (mk_server_config None 8080 2 16 100 30000 60000 8192 1048576 false)
    (mk_pool [demo_conn; blank_conn IOH_CONN_FREE] 2 1 2) None None None
    5 6 true true false false [] [] [mk_cqe (IOH_ENCODE_USERDATA 0 IOH_OP_SIGNAL) 128 false [] SIGTERM] 0 [] [] [] [].

Lemma demo_open_pool : pool_inv (sv_pool demo_open).
Proof.
  split; simpl; try done. intros c Hc. apply elem_of_cons in Hc as [->|Hc]; [done|].
  apply list_elem_of_singleton in Hc as ->. done.
Qed.

Lemma immediate_shutdown_closes_all_witness :
  exists s', ioh_server_shutdown false no_pton 1 demo_open [] IOH_SHUTDOWN_IMMEDIATE = Val (s', [])
    /\ sv_closed s' = [5; 7]%Z /\ active_count (sv_pool s') = 0%Z.
Proof.
  destruct (immediate_shutdown_closes_all false no_pton demo_open [] 0 demo_open_pool) as (s' & E & _ & Hn & Hc & _).
  exists s'. split; [exact E|]. split; [rewrite Hc; reflexivity|exact Hn].
Defined.

Lemma sigterm_never_returns_witness : ioh_server_run_once false no_pton 100 demo_open [] = NoFuel.
Proof.
  apply (sigterm_never_returns false no_pton 100 demo_open []); [|reflexivity|constructor].
  split; [eexists; split; [reflexivity|]; split; [reflexivity|]; split; [reflexivity|reflexivity]|reflexivity|reflexivity].
Defined.

(** A drain in which the peer closes its connection in the second turn. *)
Definition demo_quiet : @ioh_server (ioh_radix_node_t handler_fn ioh_route_opts_t) unit unit unit unit := cq_advance demo_open 1.
Definition demo_turns : list turn :=
  [mk_turn (-4) [] 0; mk_turn 0 [mk_cqe (IOH_ENCODE_USERDATA 1 IOH_OP_RECV) 0 false [] 0] 0; mk_turn (-4) [] 0].

Lemma demo_quiet_inv : srv_inv demo_quiet.
Proof.
  split; [exact demo_open_pool| |done]. intros [|[|i]] c; simpl; intros [= <-]; [|done]. intros _. split; [done|]. split; [|done]. by exists [].
Qed.

Lemma drain_shutdown_ends_witness :
  exists s', ioh_server_shutdown false no_pton 20 demo_quiet demo_turns IOH_SHUTDOWN_DRAIN = Val (s', [mk_turn (-4) [] 0])
    /\ Forall (fun c => is_free c = true) (conns (sv_pool s')) /\ sv_closed s' = [5; 7]%Z.
Proof.
  destruct (drain_shutdown_ends false no_pton demo_quiet demo_turns 20) as (s' & k & E & _ & Hfree & _).
  - exact demo_quiet_inv.
  - reflexivity.
  - vm_compute. split; discriminate.
  - split; [intros H; vm_compute in H; by destruct H|]. intros fuel rc s1 E1. destruct fuel as [|fuel]; [discriminate E1|].
    rewrite run_once_S in E1. vm_compute in E1. injection E1 as _ <-.
    split; [|intros ? ? ? _; split; [|intros ? ? ? _; exact I]; intros H; vm_compute in H; by destruct H].
    intros _. split; [vm_compute; discriminate|]. split; [reflexivity|]. split; [|intros s2 _; exact I].
    intros i Hc. split; [intros _ H; vm_compute in H; discriminate H|intros H; vm_compute in H; discriminate H].
  - vm_compute. lia.
  - assert (Hx : exists x, ioh_server_shutdown false no_pton 20 demo_quiet demo_turns IOH_SHUTDOWN_DRAIN = Val (x, [mk_turn (-4) [] 0])
                   /\ sv_closed x = [5; 7]%Z) by (eexists; split; vm_compute; reflexivity).
    destruct Hx as (x & Ex & Hcl). rewrite Ex in E. injection E as -> _. exists s'. split; [exact Ex|]. split; [exact Hfree|exact Hcl].
Defined.
