(* ===== verification/ServerRequest.v ===== *)
(** A request over a plain connection: its answer does not depend on how the bytes
    arrive, and the answer's bytes go out whole and in order. *)
From S2P Require Import Prelude CString PathNorm Radix RadixThms Request Router Loop Proxy Conn Tls Response Pico PicoThms Http1 Http1Thms Cookie Ctx Middleware Server ServerThms.

(** ** Parsing a prefix *)

Lemma text_agree b b' n t : tok_in n t -> take n b = take n b' -> text b t = text b' t.
Proof.
  unfold tok_in, text. intros Ht E. apply (f_equal (fun x => take (t_len t) (drop (t_off t) x))) in E. revert E.
  rewrite !skipn_firstn_comm, !take_take. by replace (t_len t `min` (n - t_off t)) with (t_len t) by lia.
Qed.

Lemma header_text_agree b b' n hs :
  Forall (hdr_in n) hs -> take n b = take n b' -> header_text b <$> hs = header_text b' <$> hs.
Proof.
  intros Hin E. induction Hin as [|h hs [Hv Hn] Hin IH]; [done|]. cbn [fmap list_fmap]. f_equal; [|exact IH].
  unfold header_text. rewrite (text_agree b b' n) by done. f_equal. destruct (ph_name h) as [t|]; [|done].
  cbn. f_equal. apply (text_agree b b' n); [by apply Hn|done].
Qed.

(** The checks of a request's header part and its content length only depend on
    that part. *)
Lemma fill_agree simd m q n rest b b' n' req :
  phr_parse_request simd m IOH_HTTP1_MAX_HEADERS 0 = PDone q n rest ->
  take n b = take n m -> take n b' = take n m ->
  fill_request b q n ioh_request_init = (Ok n', req) ->
  n' = n /\ exists req', fill_request b' q n ioh_request_init = (Ok n, req')
                         /\ content_length req' = content_length req.
Proof.
  intros Hp Hb Hb' Hfill. pose proof (phr_prefixes _ _ _ _ _ _ Hp) as (Hn & _).
  unfold phr_parse_request in Hp. cbn [Nat.eqb] in Hp. rewrite parse_request_simd in Hp.
  destruct (request_tokens_in _ _ _ _ _ Hp) as (_ & _ & _ & Hhs).
  assert (Hsize : t_len (pr_path q) ≤ IOH_HTTP1_MAX_URI_SIZE /\ length (pr_headers q) ≤ IOH_HTTP1_MAX_HEADERS).
  { unfold fill_request in Hfill. destruct (IOH_HTTP1_MAX_URI_SIZE <? _) eqn:E1; [done|].
    destruct (IOH_HTTP1_MAX_HEADERS <? _) eqn:E2; [done|]. bprop. done. }
  destruct Hsize as [Hs1 Hs2].
  assert (Hin : forall x : bytes, take n x = take n m -> Forall (hdr_in (length x)) (pr_headers q)).
  { intros x Hx. eapply Forall_impl; [exact Hhs|]. intros h Hh. eapply hdr_in_le; [exact Hh|].
    apply (f_equal length) in Hx. rewrite !length_take in Hx. lia. }
  pose proof (fill_request_spec b q n ioh_request_init (Hin b Hb) Hs1 Hs2) as H1. cbv zeta in H1. rewrite Hfill in H1.
  pose proof (fill_request_spec b' q n ioh_request_init (Hin b' Hb') Hs1 Hs2) as H2. cbv zeta in H2.
  rewrite (header_text_agree b' b n _ Hhs) in H2 by congruence. destruct H1 as (-> & Hacc & ->). split; [done|].
  destruct (fill_request b' q n ioh_request_init) as [[k'|e] req']; [|by destruct H2].
  destruct H2 as (-> & _ & ->). eexists. split; [reflexivity|]. rewrite !copy_headers_length.
  set (vs := field _ _). destruct (line_request_fields b q vs) as (_ & _ & _ & _ & _ & _ & -> & _).
  by destruct (line_request_fields b' q vs) as (_ & _ & _ & _ & _ & _ & -> & _).
Qed.

Section Request.
Context {Tab Ext Grp X S : Type}.
Context `{RT : RouteTable Tab handler_fn ioh_route_opts_t} `{W : WolfSSL X S}.
Context (simd : bool) (inet_pton : Z -> bytes -> option bytes).
Abbreviation server := (@ioh_server Tab Ext Grp X S).
Implicit Types (s : server).

(** ** A connection and its completions *)

(** A live connection found by its identifier. *)
Definition addressed s (i : nat) : Prop :=
  live s i /\ (0 <= id (conn_at s i) < 2 ^ 32)%Z /\ find_conn_by_id s (id (conn_at s i)) = Some i.

Lemma find_slot_insert f cs i c c' :
  cs !! i = Some c -> f c' = f c -> find_slot f (<[i := c']> cs) = find_slot f cs.
Proof.
  revert i. induction cs as [|d cs IH]; intros [|i]; try done.
  - intros [= ->] E. simpl. by rewrite E.
  - intros Hi E. simpl. by rewrite (IH i).
Qed.

(** The connection's identity. *)
Definition ident c : ioh_conn_state_t * Z := (state c, id c).

Lemma addressed_upd s i f :
  addressed s i -> ident (f (conn_at s i)) = ident (conn_at s i) -> addressed (upd_conn s i f) i.
Proof.
  intros (Hl & Hid & Hf) [= Es Ei]. pose proof (live_lt _ _ Hl) as Hlt. destruct Hl as [Hc Hfree].
  unfold addressed, live. rewrite conn_at_upd, Ei by done. split; [split|split; [done|]].
  - simpl. by apply list_lookup_insert_eq.
  - unfold is_free. by rewrite Es.
  - unfold find_conn_by_id. simpl. rewrite <- Hf. unfold find_conn_by_id.
    eapply find_slot_insert; [exact Hc|]. unfold is_free. by rewrite Es, Ei.
Qed.

Lemma addressed_pool s s' i : addressed s i -> sv_pool s' = sv_pool s -> addressed s' i.
Proof.
  intros H E. unfold addressed, live, find_conn_by_id, conn_at in *. by rewrite E.
Qed.

(** The completions of a receive and of a send. *)
Definition recv_cqe s (i : nat) (d : bytes) : cqe :=
  mk_cqe (IOH_ENCODE_USERDATA (id (conn_at s i)) IOH_OP_RECV) (Z.of_nat (length d)) false d 0.
Definition send_cqe s (i : nat) (n : Z) : cqe :=
  mk_cqe (IOH_ENCODE_USERDATA (id (conn_at s i)) IOH_OP_SEND) n false [] 0.

Lemma cqe_conn_addressed s i op r b d n :
  addressed s i -> cqe_conn s (mk_cqe (IOH_ENCODE_USERDATA (id (conn_at s i)) op) r b d n) = Some i.
Proof.
  intros (_ & Hid & Hf). unfold cqe_conn. cbn [cq_ud].
  destruct (userdata_roundtrip (id (conn_at s i)) op) as [-> _]; [lia|]. unfold u32. by rewrite Z.mod_small.
Qed.

(** ** Waiting for a request *)

(** The application's side of a server. *)
Definition app_part s := (sv_config s, sv_router s, sv_on_request s, sv_rand s).

(** The receive buffer with [m] received over the bytes [old] of earlier requests. *)
Definition buffer (old m : bytes) : bytes := m ++ drop (length m) old.

(** A plain connection that has received [m] of its next request and is not
    sending. *)
Record waiting (old m : bytes) s (i : nat) : Prop := {
  wt_inv : srv_inv s;
  wt_addr : addressed s i;
  wt_state : state (conn_at s i) = IOH_CONN_HTTP_ACTIVE;
  wt_tls : tls_ctx (conn_at s i) = None;
  wt_send : send_active (conn_at s i) = false;
  wt_recv : recv_part (conn_at s i) = (Some (buffer old m), Z.of_nat (length m));
}.

Lemma waiting_upd old m s i f :
  waiting old m s i ->
  (forall c, recv_buf (f c) = recv_buf c /\ recv_buf_size (f c) = recv_buf_size c /\ recv_len (f c) = recv_len c
     /\ send_buf (f c) = send_buf c /\ send_len (f c) = send_len c /\ send_offset (f c) = send_offset c
     /\ send_active (f c) = send_active c /\ state (f c) = state c /\ id (f c) = id c) ->
  (forall c, tls_ctx (f c) = tls_ctx c) ->
  waiting old m (upd_conn s i f) i.
Proof.
  intros [Hi Ha Hs Ht Hsd Hr] Hf Ht'. pose proof Ha as [Hl _]. destruct (upd_frame s i f Hi Hl Hf) as [Hok Hrec].
  pose proof (Hf (conn_at s i)) as (_ & _ & _ & _ & _ & _ & E1 & E2 & E3).
  split; [apply Hok|apply addressed_upd; [done|unfold ident; by rewrite E2, E3]|..];
    rewrite ?Hrec, ?conn_at_upd, ?E1, ?E2, ?Ht' by (by apply live_lt); done.
Qed.

Lemma waiting_pool old m s s' i :
  waiting old m s i -> sv_pool s' = sv_pool s -> sv_heap s' = [] -> waiting old m s' i.
Proof.
  intros [Hi Ha Hs Ht Hsd Hr] Ep Eh. assert (Ec : conn_at s' i = conn_at s i) by (unfold conn_at; by rewrite Ep).
  split; rewrite ?Ec; try done; [|by eapply addressed_pool]. destruct Hi. split; by rewrite ?Ep.
Qed.

Ltac waiting_frame := apply waiting_upd; [done|intros ?; by repeat split|done].

Lemma get_sqe_shape s e s' : get_sqe s e = Some s' -> s' = with_sq s (sv_sq s ++ [e]).
Proof. unfold get_sqe. destruct (_ <? _)%Z; [|done]. by intros [= <-]. Qed.

Lemma arm_recv_waiting old m s i :
  waiting old m s i -> waiting old m (fst (arm_recv s i)) i /\ app_part (fst (arm_recv s i)) = app_part s.
Proof.
  intros Hw. pose proof (si_heap _ (wt_inv _ _ _ _ Hw)) as Hh.
  unfold arm_recv. destruct (get_sqe s _) as [s1|] eqn:E1; [|done]. apply get_sqe_shape in E1 as ->.
  destruct (0 <? _)%Z; [|split; [by eapply waiting_pool|done]].
  destruct (get_sqe (with_sq s _) _) as [s2|] eqn:E2; [|split; [by eapply waiting_pool|done]].
  apply get_sqe_shape in E2 as ->. split; [|done]. cbn [fst].
  match goal with |- waiting _ _ (upd_conn ?x _ _) _ => assert (waiting old m x i) by (by eapply waiting_pool) end. waiting_frame.
Qed.

Lemma await_body_waiting old m s i req :
  waiting old m s i -> waiting old m (await_body s i req) i /\ app_part (await_body s i req) = app_part s.
Proof.
  intros Hw. unfold await_body.
  match goal with |- waiting _ _ (fst (arm_recv (upd_conn ?x i ?g) i)) i /\ _ =>
    assert (H1 : waiting old m x i /\ app_part x = app_part s);
      [|destruct H1 as [H1 E1]; assert (H2 : waiting old m (upd_conn x i g) i) by waiting_frame;
        destruct (arm_recv_waiting _ _ _ _ H2) as [H3 ->]; by split] end.
  destruct (sv_router s) as [r|]; [|done]. set (mt := ioh_router_dispatch _ _ _).
  destruct (status mt), (opts mt); try done. split; [waiting_frame|done].
Qed.

(** The queue is handed to the kernel before it delivers completions. *)
Definition roomy s : Prop := (2 <= sc_queue_depth (sv_config s))%Z.

Lemma waiting_submit old m s i : waiting old m s i -> waiting old m (submit s []) i.
Proof. intros Hw. apply (waiting_pool old m s); [done|done|apply Hw]. Qed.

Lemma roomy_room s n : roomy s -> sv_sq s = [] -> n ≤ 2 -> sq_room s n.
Proof. unfold roomy, sq_room. intros H -> Hn. cbn [length]. lia. Qed.

(** What a receive does before the request is parsed. *)
Lemma recv_step old m s i d :
  waiting old m s i -> d <> [] -> (Z.of_nat (length m + length d) <= IOH_CONN_RECV_BUF_SIZE)%Z ->
  exists s1, waiting old (m ++ d) s1 i /\ app_part s1 = app_part s /\ sv_sq s1 = []
    /\ on_recv simd inet_pton (submit s []) (recv_cqe s i d) = recv_http simd s1 i.
Proof.
  intros Hw0%waiting_submit Hd Hfit. change (app_part s) with (app_part (submit s [])). change (recv_cqe s i d) with (recv_cqe (submit s []) i d).
  change (@nil sqe) with (sv_sq (submit s [])). set (s0 := submit s []) in *. clearbody s0. clear s. rename s0 into s.
  destruct Hw0 as [Hi Ha Hs Ht Hsd Hr]. pose proof Ha as [Hl _]. pose proof (live_ok _ _ Hi Hl) as (Hsz & _).
  pose proof Hr as [= Hrb Hrl]. assert (Hpos : (0 < Z.of_nat (length d))%Z) by (destruct d; simpl; [done|lia]).
  exists (upd_conn s i (fun c => store_received c d (Z.of_nat (length d)))).
  assert (Hok : step_ok 0 i s (upd_conn s i (fun c => store_received c d (Z.of_nat (length d))))).
  { apply store_received_ok; [done|done|done|]. rewrite Hrl, Hsz. lia. }
  assert (Hat : conn_at (upd_conn s i (fun c => store_received c d (Z.of_nat (length d)))) i
                = set_recv (conn_at s i) (Some (buffer old (m ++ d))) (Z.of_nat (length (m ++ d)))).
  { rewrite conn_at_upd by by apply live_lt. unfold store_received. rewrite Hrb, Hrl. cbn [default].
    unfold Datatypes.id. unfold IOH_CONN_RECV_BUF_SIZE in Hfit. rewrite u64_small by lia. f_equal; [|rewrite length_app; lia].
    unfold buffer. rewrite Nat2Z.id, take_app_length, length_app, <- app_assoc. do 3 f_equal.
    rewrite drop_app_ge by lia. rewrite drop_drop. f_equal. lia. }
  split; [|split; [done|split; [done|]]].
  - split; [apply Hok|by apply addressed_upd|..]; by rewrite Hat.
  - unfold on_recv, recv_cqe. rewrite cqe_conn_addressed by done. cbn [cq_res cq_data].
    rewrite (proj2 (Z.leb_gt _ _)) by lia. unfold recv_proxy. rewrite Hat. cbn [state set_recv]. rewrite Hs. cbn [bool_decide].
    rewrite bool_decide_eq_false_2 by done. unfold recv_tls. rewrite Hat. cbn [tls_ctx set_recv]. by rewrite Ht.
Qed.

(** ** The answer *)

(** [m] is one whole request the server is willing to read. *)
Record whole_request (cfg : ioh_server_config_t) (old m : bytes) (n : nat) (req : ioh_request_t) : Prop := {
  wr_parse : parse_buffer simd (buffer old m) (length m) = (Ok n, req);
  wr_length : (Z.of_nat n + content_length req = Z.of_nat (length m))%Z;
  wr_header : (Z.of_nat (length m) <= sc_max_header_size cfg)%Z;
  wr_body : (content_length req <= sc_max_body_size cfg)%Z;
  wr_fits : (Z.of_nat (length m) <= IOH_CONN_RECV_BUF_SIZE)%Z;
}.

Lemma take_buffer old m n : n ≤ length m -> take n (buffer old m) = take n m.
Proof. intros Hn. unfold buffer. by rewrite take_app_le. Qed.

(** On a strict prefix the server waits for more. *)
Lemma recv_incomplete old m n req s i k :
  whole_request (sv_config s) old m n req -> 0 < k < length m -> waiting old (take k m) s i ->
  exists s', recv_http simd s i = Some s' /\ waiting old (take k m) s' i /\ app_part s' = app_part s
    /\ length (sv_sq s') ≤ length (sv_sq s) + 2.
Proof.
  intros [Hparse Hlen Hhdr Hbody _] Hk Hw. pose proof Hw as [Hi [Hl _] _ _ _ [= Hrb Hrl]].
  assert (Hkl : length (take k m) = k) by (rewrite length_take; lia).
  unfold recv_http. rewrite Hrl, Hrb, Hkl. rewrite (proj2 (Z.ltb_ge _ _)) by lia. cbn [default]. unfold Datatypes.id.
  rewrite Nat2Z.id. unfold parse_buffer in *. rewrite (proj2 (Nat.eqb_neq k 0)) by lia.
  rewrite (proj2 (Nat.eqb_neq (length m) 0)), take_buffer, firstn_all in Hparse by lia.
  rewrite take_buffer, take_take, Nat.min_id by lia.
  assert (Hrecv : exists s', Some (fst (arm_recv s i)) = Some s' /\ waiting old (take k m) s' i /\ app_part s' = app_part s
            /\ length (sv_sq s') ≤ length (sv_sq s) + 2).
  { destruct (arm_recv_waiting _ _ _ _ Hw) as [Hw' Ha]. eexists. split; [done|]. split; [done|]. split; [done|].
    exact (so_sq _ _ _ _ (qo_step _ _ _ _ (arm_recv_ok s i Hi Hl))). }
  destruct (phr_parse_request simd m _ 0) as [q nq rest| |] eqn:Ep; [|done|done].
  pose proof (phr_prefixes _ _ _ _ _ _ Ep) as (Hnq & _ & Hpart & Hext).
  destruct (decide (k < nq)) as [Hlt|Hge]; [by rewrite Hpart|].
  specialize (Hext k [] ltac:(lia)). rewrite !app_nil_r in Hext. rewrite Hext.
  destruct (fill_agree simd m q nq rest (buffer old m) (buffer old (take k m)) n req Ep) as (-> & req' & -> & Hcl);
    [by apply take_buffer|rewrite take_buffer by lia; rewrite take_take; f_equal; lia|done|].
  rewrite Hcl, (proj2 (Z.ltb_ge _ _)) by lia. rewrite !(proj2 (Z.ltb_lt _ _)) by lia. cbn [andb].
  destruct (await_body_waiting _ _ _ _ req' Hw) as [Hw' Ha]. eexists. split; [done|]. split; [done|]. split; [done|].
  exact (so_sq _ _ _ _ (qo_step _ _ _ _ (await_body_ok s i req' Hi Hl))).
Qed.

(** The context a request is handled with only depends on the application. *)
Lemma request_id_same s1 s2 (c : ioh_ctx_t) s1' c' :
  app_part s1 = app_part s2 -> sv_heap s1 = sv_heap s2 -> request_id s1 c = Some (s1', c') ->
  exists s2', request_id s2 c = Some (s2', c') /\ app_part s1' = app_part s2' /\ sv_heap s1' = sv_heap s2'
    /\ sv_pool s1' = sv_pool s1 /\ sv_pool s2' = sv_pool s2 /\ sv_sq s1' = sv_sq s1 /\ sv_sq s2' = sv_sq s2.
Proof.
  intros [= Ec Er Eo Ern] Eh. unfold request_id. rewrite <- Eh, <- Ern. destruct (ioh_request_header _ _) as [v|].
  - destruct (ioh_ctx_set_header _ _ _ _) as [[[rc c1] h1]|]; [|done]. intros [= <- <-]. eexists. split; [reflexivity|].
    split; [|done]. unfold app_part. cbn. by rewrite Ec, Er, Eo, Ern.
  - destruct (xrand (sv_rand s1)) as [r1 q1], (xrand q1) as [r2 q2], (xrand q2) as [r3 q3], (xrand q3) as [r4 q4].
    cbn [sv_heap with_rand]. rewrite <- Eh.
    destruct (ioh_ctx_sprintf _ _ _) as [[[[p|] c1] h1]|]; [|intros [= <- <-]; eexists; split; [reflexivity|]; split; [|done]; unfold app_part; cbn; by rewrite Ec, Er, Eo|done].
    destruct (ioh_ctx_set_header _ _ _ _) as [[[rc c2] h2]|]; [|done]. intros [= <- <-]. eexists. split; [reflexivity|].
    split; [|done]. unfold app_part. cbn. by rewrite Ec, Er, Eo.
Qed.

Lemma error_answer_same old m s1 s2 i (c : ioh_ctx_t) st msg s1' rc c' :
  waiting old m s1 i -> waiting old m s2 i -> error_answer s1 c st msg = Some (s1', rc, c') ->
  exists s2', error_answer s2 c st msg = Some (s2', rc, c') /\ waiting old m s1' i /\ waiting old m s2' i
    /\ sv_sq s1' = sv_sq s1 /\ sv_sq s2' = sv_sq s2 /\ sv_config s1' = sv_config s1 /\ sv_config s2' = sv_config s2.
Proof.
  intros H1 H2. unfold error_answer. rewrite (si_heap _ (wt_inv _ _ _ _ H1)), (si_heap _ (wt_inv _ _ _ _ H2)).
  destruct (ioh_ctx_error [] c st (Some msg)) as [[[r c1] h]|] eqn:E; [|done]. intros [= <- <- <-].
  assert (h = []) as ->.
  { unfold ioh_ctx_error in E. destruct (_ <=? _); [by injection E|]. unfold respond_with in E.
    destruct (ioh_respond_json _ _ _ _) as [[[r2 c2] h2]|] eqn:E2; [|done]. apply respond_json_heap in E2. simpl in E2. congruence. }
  eexists. split; [reflexivity|]. split_and!; try done; [by apply (waiting_pool old m s1)|by apply (waiting_pool old m s2)].
Qed.

Lemma route_same old m s1 s2 i (c : ioh_ctx_t) s1' rc c' :
  waiting old m s1 i -> waiting old m s2 i -> app_part s1 = app_part s2 ->
  route_request s1 i c = Some (s1', rc, c') ->
  exists s2', route_request s2 i c = Some (s2', rc, c') /\ waiting old m s1' i /\ waiting old m s2' i
    /\ sv_sq s1' = sv_sq s1 /\ sv_sq s2' = sv_sq s2 /\ sv_config s1' = sv_config s1 /\ sv_config s2' = sv_config s2.
Proof.
  intros H1 H2 [= _ Er Eo _]. unfold route_request, answered. rewrite <- Er, <- Eo. destruct (sv_router s1) as [r|].
  - cbv zeta. set (mt := ioh_router_dispatch _ _ _).
    assert (Hset : forall s, waiting old m s i ->
              let s' := match status mt, opts mt with
                        | IOH_MATCH_FOUND, Some o => upd_conn s i (fun c => set_routes c (o_body_timeout_ms o) (o_keepalive_timeout_ms o))
                        | _, _ => s
                        end in
              waiting old m s' i /\ sv_sq s' = sv_sq s /\ sv_config s' = sv_config s).
    { intros s Hs. cbv zeta. destruct (status mt), (opts mt); try done. split; [waiting_frame|done]. }
    destruct (Hset s1 H1) as (W1 & Q1 & C1), (Hset s2 H2) as (W2 & Q2 & C2). clear Hset.
    set (t1 := match status mt, opts mt with IOH_MATCH_FOUND, Some o => upd_conn s1 i _ | _, _ => s1 end) in *.
    set (t2 := match status mt, opts mt with IOH_MATCH_FOUND, Some o => upd_conn s2 i _ | _, _ => s2 end) in *.
    clearbody t1 t2.
    assert (Hans : forall y : Z * ioh_ctx_t, Some (t1, y.1, y.2) = Some (s1', rc, c') ->
              exists s2', Some (t2, y.1, y.2) = Some (s2', rc, c') /\ waiting old m s1' i /\ waiting old m s2' i
                /\ sv_sq s1' = sv_sq s1 /\ sv_sq s2' = sv_sq s2 /\ sv_config s1' = sv_config s1 /\ sv_config s2' = sv_config s2).
    { intros y [= <- <- <-]. eexists. by split. }
    assert (Herr : forall st msg, error_answer t1 c st msg = Some (s1', rc, c') ->
              exists s2', error_answer t2 c st msg = Some (s2', rc, c') /\ waiting old m s1' i /\ waiting old m s2' i
                /\ sv_sq s1' = sv_sq s1 /\ sv_sq s2' = sv_sq s2 /\ sv_config s1' = sv_config s1 /\ sv_config s2' = sv_config s2).
    { intros st msg E. destruct (error_answer_same _ _ _ _ _ _ _ _ _ _ _ W1 W2 E) as (s2' & E2 & ? & ? & Q1' & Q2' & C1' & C2'). exists s2'. split_and!; done || congruence. }
    destruct (status mt); [destruct (rm_handler mt) as [hd|]|..].
    { destruct (ioh_chain_execute _ _ _ _); [apply Hans|done]. }
    all: match goal with |- match ?o with Some _ => _ | None => _ end = _ -> _ => destruct o end; [apply Hans|apply Herr].
  - destruct (sv_on_request s1); [|by eapply error_answer_same].
    intros [= <- <- <-]. eexists. by split.
Qed.

Lemma arm_send_waiting old m s i text :
  waiting old m s i -> sq_room s 1 ->
  let s' := fst (arm_send s i text) in
  snd (arm_send s i text) = Ok tt
  /\ conn_at s' i = set_send (conn_at s i) (Some text) (Z.of_nat (length text)) 0 true
  /\ sv_sq s' = sv_sq s ++ [mk_sqe (IOH_ENCODE_USERDATA (id (conn_at s i)) IOH_OP_SEND) (PSend (fd (conn_at s i)) text)]
  /\ (addressed s i -> addressed s' i).
Proof.
  intros [Hi Ha Hs Ht Hsd Hr] Hroom. cbv zeta. unfold arm_send, encrypt. rewrite Hsd, Ht. cbn [mbind option_bind].
  rewrite (si_heap _ Hi). cbn [xalloc negb fst snd]. pose proof Ha as [Hl _].
  set (s1 := upd_conn (with_heap s []) i _).
  assert (Hc : conn_at s1 i = set_send (conn_at s i) (Some text) (Z.of_nat (length text)) 0 true).
  { unfold s1. rewrite conn_at_upd by (by apply (live_lt s)). done. }
  assert (Ha1 : addressed s1 i).
  { unfold s1. apply addressed_upd; [|done]. by eapply addressed_pool. }
  destruct (get_sqe_room s1 (mk_sqe (IOH_ENCODE_USERDATA (id (conn_at s1 i)) IOH_OP_SEND) (PSend (fd (conn_at s1 i)) text)) 0 Hroom) as [s2 E2].
  rewrite E2. apply get_sqe_shape in E2 as ->. cbn [fst snd]. split; [done|]. split; [exact Hc|].
  split; [cbn [sv_sq with_sq]; by rewrite Hc|]. intros _. by eapply addressed_pool.
Qed.

Lemma arm_send_app old m s i text : waiting old m s i -> sq_room s 1 -> app_part (fst (arm_send s i text)) = app_part s.
Proof.
  intros [Hi Ha Hs Ht Hsd Hr] Hroom. unfold arm_send, encrypt. rewrite Hsd, Ht. cbn [mbind option_bind].
  rewrite (si_heap _ Hi). cbn [xalloc negb fst snd]. set (s1 := upd_conn (with_heap s []) i _).
  destruct (get_sqe_room s1 (mk_sqe (IOH_ENCODE_USERDATA (id (conn_at s1 i)) IOH_OP_SEND) (PSend (fd (conn_at s1 i)) text)) 0 Hroom) as [s2 E2].
  rewrite E2. by apply get_sqe_shape in E2 as ->.
Qed.

(** What the client gets: the bytes being sent to it, whether the connection stays
    open, and what is left of its input. *)
Definition reply_part c :=
  (if send_active c then Some (send_buf c, send_len c, send_offset c) else None, c_keep_alive c, recv_part c).

Lemma dispatch_same old m s1 s2 i req :
  waiting old m s1 i -> waiting old m s2 i -> app_part s1 = app_part s2 -> sq_room s1 2 -> sq_room s2 2 ->
  exists s1' s2' rc, dispatch_request s1 i req = Some (s1', rc) /\ dispatch_request s2 i req = Some (s2', rc)
    /\ reply_part (conn_at s1' i) = reply_part (conn_at s2' i)
    /\ quiet_ok 2 i s1 s1' /\ quiet_ok 2 i s2 s2'.
Proof.
  intros H1 H2 Ea R1 R2.
  destruct (dispatch_ok s1 i req) as (s1' & rc1 & E1 & Q1); [apply H1|apply (wt_addr _ _ _ _ H1)|done|].
  destruct (dispatch_ok s2 i req) as (s2' & rc2 & E2 & Q2); [apply H2|apply (wt_addr _ _ _ _ H2)|done|].
  assert (Hrec : recv_part (conn_at s1' i) = recv_part (conn_at s2' i)).
  { rewrite (qo_recv _ _ _ _ Q1), (qo_recv _ _ _ _ Q2), (wt_recv _ _ _ _ H1), (wt_recv _ _ _ _ H2). done. }
  cut (rc1 = rc2 /\ reply_part (conn_at s1' i) = reply_part (conn_at s2' i)).
  { intros [-> Hp]. by exists s1', s2', rc2. }
  unfold reply_part. rewrite Hrec. clear Q1 Q2 Hrec. revert E1 E2. unfold dispatch_request.
  rewrite (si_heap _ (wt_inv _ _ _ _ H1)), (si_heap _ (wt_inv _ _ _ _ H2)).
  change (ioh_response_init []) with (@Ok unit (), fresh_response, @nil bool). cbv iota beta.
  destruct (ioh_ctx_init (Some req) (Some fresh_response) []) as [[c|e] h] eqn:Ec; [|done].
  assert (h = []) as -> by (simpl in Ec; congruence).
  assert (W1 : waiting old m (with_heap s1 []) i) by (by apply (waiting_pool old m s1)).
  assert (W2 : waiting old m (with_heap s2 []) i) by (by apply (waiting_pool old m s2)).
  destruct (request_id (with_heap s1 []) c) as [[a1 c1]|] eqn:E1; [|done].
  destruct (request_id_same (with_heap s1 []) (with_heap s2 []) c a1 c1 Ea eq_refl E1)
    as (a2 & -> & Ea' & Eh & P1 & P2 & S1 & S2).
  destruct (request_id_ok (with_heap s1 []) i req c [] (wt_inv _ _ _ _ W1) (proj1 (wt_addr _ _ _ _ W1)) Ec) as (x & y & Ex & Qx & _).
  rewrite E1 in Ex. injection Ex as <- <-. pose proof (si_heap _ (so_inv _ _ _ _ Qx)) as Ha1.
  assert (V1 : waiting old m a1 i) by (by apply (waiting_pool old m (with_heap s1 []))).
  assert (V2 : waiting old m a2 i) by (apply (waiting_pool old m (with_heap s2 [])); congruence).
  destruct (route_request a1 i c1) as [[[b1 rc] c2]|] eqn:Er; [|done].
  destruct (route_same _ _ _ _ _ _ _ _ _ V1 V2 Ea' Er) as (b2 & -> & U1 & U2 & T1 & T2 & C1 & C2).
  assert (B1 : sq_room b1 1).
  { unfold sq_room in *. rewrite T1, S1, C1. injection Ea' as Ec1 _ _ _. pose proof (so_fixed _ _ _ _ Qx) as [= -> _ _ _]. simpl. lia. }
  assert (B2 : sq_room b2 1).
  { unfold sq_room in *. rewrite T2, S2, C2. injection Ea' as <- _ _ _. pose proof (so_fixed _ _ _ _ Qx) as [= -> _ _ _].
    injection Ea as Ec1 _ _ _. simpl. rewrite Ec1. lia. }
  assert (Hset : forall (s : server) k, addressed s i ->
            conn_at (upd_conn s i (fun x => set_keep_alive x k)) i = set_keep_alive (conn_at s i) k).
  { intros s k [Hl _]. by rewrite conn_at_upd by by apply live_lt. }
  destruct (ioh_http1_serialize_response _ _) as [text|]; [destruct (0 <? length text)|].
  - destruct (arm_send_waiting _ _ _ _ text U1 B1) as (O1 & A1 & _ & D1), (arm_send_waiting _ _ _ _ text U2 B2) as (O2 & A2 & _ & D2).
    cbv zeta in *. destruct (arm_send b1 i text) as [d1 r1], (arm_send b2 i text) as [d2 r2]. cbn [fst snd] in *. subst r1 r2.
    intros [= <- <-] [= <- <-]. split; [done|].
    rewrite (Hset d1), (Hset d2) by (apply D1, U1 || apply D2, U2). by rewrite A1, A2.
  - intros [= <- <-] [= <- <-]. split; [done|]. rewrite (Hset b1), (Hset b2) by (apply U1 || apply U2).
    cbn [send_active set_keep_alive c_keep_alive]. by rewrite (wt_send _ _ _ _ U1), (wt_send _ _ _ _ U2).
  - intros [= <- <-] [= <- <-]. split; [done|]. rewrite (Hset b1), (Hset b2) by (apply U1 || apply U2).
    cbn [send_active set_keep_alive c_keep_alive]. by rewrite (wt_send _ _ _ _ U1), (wt_send _ _ _ _ U2).
Qed.

Lemma recv_complete old m n req s1 s2 i :
  whole_request (sv_config s1) old m n req -> waiting old m s1 i -> waiting old m s2 i ->
  app_part s1 = app_part s2 -> sq_room s1 2 -> sq_room s2 2 ->
  exists s1' s2', recv_http simd s1 i = Some s1' /\ recv_http simd s2 i = Some s2'
    /\ reply_part (conn_at s1' i) = reply_part (conn_at s2' i) /\ received (conn_at s1' i) = [].
Proof.
  intros [Hparse Hlen Hhdr Hbody Hfits] H1 H2 Ea R1 R2. unfold recv_http. pose proof Ea as [= Ecfg _ _ _].
  pose proof (wt_recv _ _ _ _ H1) as [= B1 L1]. pose proof (wt_recv _ _ _ _ H2) as [= B2 L2].
  rewrite B1, L1, B2, L2. cbn [default]. unfold Datatypes.id. rewrite Nat2Z.id, Hparse. rewrite <- Ecfg.
  rewrite (proj2 (Z.ltb_ge (sc_max_header_size _) _)) by lia. rewrite (proj2 (Z.ltb_ge (sc_max_body_size _) _)) by lia.
  replace ((0 <? content_length req)%Z && (Z.of_nat (length m) - Z.of_nat n <? content_length req)%Z) with false
    by (symmetry; apply andb_false_iff; right; apply Z.ltb_ge; lia).
  match goal with |- context [dispatch_request s1 i ?q] => set (req' := q) end.
  destruct (dispatch_same old m s1 s2 i req' H1 H2 Ea R1 R2) as (t1 & t2 & rc & -> & -> & Hp & Q1 & Q2).
  assert (Hcl : (Z.of_nat n + content_length req' = Z.of_nat (length m))%Z).
  { subst req'. by destruct (0 <? content_length req)%Z. }
  rewrite Hcl. pose proof (qo_recv _ _ _ _ Q1) as [= X1 Y1]. pose proof (qo_recv _ _ _ _ Q2) as [= X2 Y2].
  unfold consume_at, consume. rewrite Y1, Y2, L1, L2, Z.sub_diag. cbn [u64 Z.modulo Z.ltb Z.compare].
  replace (u64 0) with 0%Z by done. cbn [Z.ltb Z.compare].
  eexists _, _. split; [reflexivity|]. split; [reflexivity|].
  rewrite !conn_at_upd by (apply live_lt; [apply Q1 || apply Q2]).
  split; [|done].
  unfold reply_part in *. cbn [send_active send_buf send_len send_offset c_keep_alive recv_part recv_buf recv_len set_recv].
  injection Hp as P1 P2 P3 P4. unfold recv_part. cbn [recv_buf recv_len set_recv]. by rewrite P1, P2, P3.
Qed.

(** ** Delivery in pieces *)

(** The connection's receives complete with these pieces, one turn after the other. *)
Fixpoint deliver s (i : nat) (ps : list bytes) : option server :=
  match ps with
  | [] => Some s
  | p :: ps => match on_recv simd inet_pton (submit s []) (recv_cqe s i p) with
               | Some s => deliver s i ps
               | None => None
               end
  end.

Lemma deliver_pieces old m n req i ps : forall s d,
  whole_request (sv_config s) old m n req -> waiting old d s i -> d ++ concat ps = m ->
  Forall (fun p => p <> []) ps -> ps <> [] ->
  (exists s1, deliver s i ps = recv_http simd s1 i /\ waiting old m s1 i /\ app_part s1 = app_part s /\ sv_sq s1 = [])
  /\ forall j, j < length ps -> exists sj, deliver s i (take j ps) = Some sj /\ waiting old (d ++ concat (take j ps)) sj i.
Proof.
  induction ps as [|p ps IH]; intros s d Hwr Hw Hm Hne Hps; [done|].
  apply Forall_cons in Hne as [Hp Hne]. cbn [concat] in Hm. assert (Hlp : 0 < length p) by (destruct p; simpl; [done|lia]).
  assert (Hlen : length d + length p + length (concat ps) = length m) by (rewrite <- Hm, !length_app; lia).
  destruct (recv_step old d s i p Hw Hp) as (s1 & Hw1 & Ea1 & Eq1 & E1).
  { pose proof (wr_fits _ _ _ _ _ Hwr). lia. }
  pose proof Ea1 as [= Ec1 _ _ _]. cbn [deliver]. rewrite E1. destruct ps as [|p' ps].
  - cbn [concat] in *. rewrite app_nil_r in Hm. subst m. split.
    + exists s1. split; [cbn [deliver]; by destruct (recv_http simd s1 i)|]. done.
    + intros [|j] Hj; [|simpl in Hj; lia]. exists s. split; [done|]. by rewrite app_nil_r.
  - assert (Hne' : 0 < length (concat (p' :: ps))).
    { apply Forall_cons in Hne as [Hp' _]. cbn [concat]. rewrite length_app. destruct p'; simpl; [done|lia]. }
    assert (Hpre : d ++ p = take (length (d ++ p)) m) by (rewrite <- Hm, app_assoc, take_app_length; done).
    rewrite Hpre in Hw1. destruct (recv_incomplete old m n req s1 i (length (d ++ p))) as (s2 & E2 & Hw2 & Ea2 & _);
      [by rewrite Ec1|rewrite length_app; lia|done|]. rewrite E2.
    rewrite <- Hpre in Hw2. pose proof Ea2 as [= Ec2 _ _ _].
    destruct (IH s2 (d ++ p)) as [(s3 & E3 & Hw3 & Ea3 & R3) Hj]; [by rewrite Ec2, Ec1|done|by rewrite <- app_assoc|done|done|].
    split.
    + exists s3. split; [done|]. split; [done|]. split; [congruence|done].
    + intros [|j] Hjl; [exists s; split; [done|]; by rewrite app_nil_r|]. cbn [take deliver].
      rewrite E1, E2. destruct (Hj j) as (sj & Ej & Hwj); [cbn [length] in *; lia|]. exists sj. split; [done|].
      cbn [concat]. by rewrite app_assoc.
Qed.

(** C3: the answer does not depend on how a request arrives.  Let a plain HTTP
    connection wait for its next request, also after earlier requests on the same
    connection, in a server whose allocations succeed and whose submission queue has at
    least two places and is handed to the kernel before each completion; and let [m] be one
    whole request, with its body, within the server's limits and the receive buffer.
    Delivered in any non-empty pieces, cut anywhere (inside the request line, a header or
    the body), it leaves the connection as when it is delivered at once: the same bytes are
    being sent, if any, with the same decision on keeping the connection, and no byte of the
    request is left in the receive buffer; and until its last byte the server keeps what
    arrived and sends nothing.  The application may do anything. *)
Theorem request_split_independent old m n req s i ps :
  waiting old [] s i -> whole_request (sv_config s) old m n req -> roomy s ->
  concat ps = m -> Forall (fun p => p <> []) ps -> ps <> [] ->
  (exists s1 s2, deliver s i ps = Some s1 /\ deliver s i [m] = Some s2
     /\ reply_part (conn_at s1 i) = reply_part (conn_at s2 i) /\ received (conn_at s1 i) = [])
  /\ forall j, j < length ps -> exists sj, deliver s i (take j ps) = Some sj
       /\ send_active (conn_at sj i) = false /\ received (conn_at sj i) = concat (take j ps).
Proof.
  intros Hw Hwr Hroom Hm Hne Hps.
  assert (Hm0 : m <> []) by (intros ->; destruct ps as [|p ps]; [done|]; apply Forall_cons in Hne as [Hp _]; by destruct p).
  destruct (deliver_pieces old m n req i ps s [] Hwr Hw Hm Hne Hps) as [(t1 & E1 & W1 & A1 & R1) Hj].
  destruct (deliver_pieces old m n req i [m] s [] Hwr Hw) as [(t2 & E2 & W2 & A2 & R2) _];
    [by simpl; rewrite app_nil_r|by constructor|done|].
  pose proof A1 as [= Ec1 _ _ _]. pose proof A2 as [= Ec2 _ _ _].
  split.
  - rewrite E1, E2. destruct (recv_complete old m n req t1 t2 i) as (s1 & s2 & -> & -> & Hr & Hrv);
      [by rewrite Ec1|done|done|congruence|by apply roomy_room; [unfold roomy; rewrite Ec1|..]|by apply roomy_room; [unfold roomy; rewrite Ec2|..]|by exists s1, s2].
  - intros j Hlt. destruct (Hj j Hlt) as (sj & Ej & Wj). exists sj. split; [done|]. split; [apply Wj|].
    destruct Wj as [_ _ _ _ _ [= Hb Hl]]. unfold received. rewrite Hb, Hl. cbn [default]. unfold Datatypes.id.
    rewrite Nat2Z.id, take_buffer, firstn_all by done. done.
Qed.

End Request.

(** ** Sending *)

Section Sending.
Context {Tab Ext Grp X S : Type}.
Context `{RT : RouteTable Tab handler_fn ioh_route_opts_t} `{W : WolfSSL X S}.
Abbreviation server := (@ioh_server Tab Ext Grp X S).
Implicit Types (s : server).

Definition last_send (q : list sqe) : bytes :=
  match last q with Some (mk_sqe _ (PSend _ d)) => d | _ => [] end.

(** The completions [rs] of the connection's sends, one turn after the other: the state
    after them, and what the kernel put on the wire. *)
Fixpoint transmit s (i : nat) (rs : list Z) : server * bytes :=
  match rs with
  | [] => (s, [])
  | r :: rs =>
      let wire := take (Z.to_nat r) (last_send (sv_sq s)) in
      let '(s', out) := transmit (on_send (submit s []) (send_cqe s i r)) i rs in
      (s', wire ++ out)
  end.

(** [d] is being sent and its first [o] bytes are acknowledged. *)
Record sending (d : bytes) (o : nat) s (i : nat) : Prop := {
  sn_addr : addressed s i;
  sn_active : send_active (conn_at s i) = true;
  sn_buf : send_buf (conn_at s i) = Some d;
  sn_len : send_len (conn_at s i) = Z.of_nat (length d);
  sn_off : send_offset (conn_at s i) = Z.of_nat o;
  sn_less : o < length d;
  sn_small : (Z.of_nat (length d) < 2 ^ 64)%Z;
  sn_last : last_send (sv_sq s) = drop o d;
}.

(** The parts of a connection a partial send leaves alone. *)
Definition idle_part c := (state c, id c, fd c, c_keep_alive c, tls_ctx c, recv_buf c).

Lemma on_send_offset d o s i r :
  sending d o s i -> (0 <= r)%Z -> o + Z.to_nat r ≤ length d ->
  exists s1, addressed s1 i /\ sv_sq s1 = [] /\ sv_config s1 = sv_config s
    /\ conn_at s1 i = set_send (conn_at s i) (Some d) (Z.of_nat (length d)) (Z.of_nat (o + Z.to_nat r)) false
    /\ app_part s1 = app_part s /\ (srv_inv s -> srv_inv s1)
    /\ on_send (submit s []) (send_cqe s i r) =
       if o + Z.to_nat r <? length d then
         match get_sqe s1 (mk_sqe (IOH_ENCODE_USERDATA (id (conn_at s1 i)) IOH_OP_SEND)
                             (PSend (fd (conn_at s1 i)) (drop (o + Z.to_nat r) d))) with
         | Some s => upd_conn s i (fun c => set_send c (send_buf c) (send_len c) (send_offset c) true)
         | None => arm_close s1 i
         end
       else
         let s := upd_conn s1 i (fun c => set_send c None 0 0 (send_active c)) in
         if bool_decide (state (conn_at s1 i) = IOH_CONN_TLS_HANDSHAKE) then fst (arm_recv s i) else
         if c_keep_alive (conn_at s1 i) && bool_decide (state (conn_at s1 i) = IOH_CONN_HTTP_ACTIVE) then
           let s := upd_conn s i (fun c => set_recv (set_timeout c IOH_TIMEOUT_KEEPALIVE (timeout_ts c)) (recv_buf c) 0) in
           upd_conn (fst (arm_recv s i)) i (fun c => set_routes c 0 0)
         else arm_close s i.
Proof.
  intros [Ha Hact Hb Hl Ho Hlt Hsm _] Hr Hle. change (send_cqe s i r) with (send_cqe (submit s []) i r).
  apply (addressed_pool _ (submit s [])) in Ha; [|done]. pose proof (live_lt _ _ (proj1 Ha)) as Hi.
  set (s0 := upd_conn (submit s []) i (fun c => set_send c (send_buf c) (send_len c) (send_offset c) false)).
  set (s1 := upd_conn s0 i (fun c => set_send c (send_buf c) (send_len c) (u64 (send_offset c + r)) (send_active c))).
  assert (A0 : addressed s0 i) by by apply addressed_upd.
  assert (A1 : addressed s1 i) by by apply addressed_upd.
  assert (C1 : conn_at s1 i = set_send (conn_at s i) (Some d) (Z.of_nat (length d)) (Z.of_nat (o + Z.to_nat r)) false).
  { unfold s1. rewrite conn_at_upd by (by apply live_lt, A0). unfold s0. rewrite conn_at_upd by done.
    change (conn_at (submit s []) i) with (conn_at s i). cbn [send_buf send_len send_offset send_active set_send]. rewrite Hb, Hl, Ho, u64_small by lia.
    unfold set_send. cbn. f_equal. lia. }
  exists s1. split; [done|]. split; [done|]. split; [done|]. split; [done|]. split; [done|]. split.
  { intros [Hi1 Hi2 Hi3]. pose proof (send_stop_ok (submit s []) i send_buf send_len send_offset ltac:(by split) (proj1 Ha)) as H0. fold s0 in H0.
    apply (so_inv 0 i s0). apply upd_conn_ok; [apply H0|apply A0|]. intros (Hsz & Hb0 & _). split; [|split; [apply A0|done]].
    split; [exact Hsz|]. split; [exact Hb0|]. unfold s0. rewrite conn_at_upd by done. done. }
  unfold on_send, send_cqe. rewrite cqe_conn_addressed by done. cbn [cq_res]. rewrite (proj2 (Z.ltb_ge _ _)) by lia.
  fold s0. fold s1. rewrite C1. cbn [send_offset send_len send_buf set_send default]. unfold Datatypes.id. rewrite Nat2Z.id.
  destruct (Nat.ltb_spec (o + Z.to_nat r) (length d)).
  - by rewrite (proj2 (Z.ltb_lt _ _)) by lia.
  - by rewrite (proj2 (Z.ltb_ge _ _)) by lia.
Qed.

Lemma last_send_snoc q ud x b : last_send (q ++ [mk_sqe ud (PSend x b)]) = b.
Proof. unfold last_send. by rewrite last_snoc. Qed.

Lemma send_partial d o s i r :
  sending d o s i -> (0 <= r)%Z -> o + Z.to_nat r < length d -> roomy s ->
  let s' := on_send (submit s []) (send_cqe s i r) in
  sending d (o + Z.to_nat r) s' i /\ idle_part (conn_at s' i) = idle_part (conn_at s i)
  /\ app_part s' = app_part s /\ (srv_inv s -> srv_inv s').
Proof.
  intros Hs Hr Hlt Hroom. cbv zeta. destruct (on_send_offset d o s i r Hs Hr) as (s1 & A1 & Q1 & F1 & C1 & P1 & I1 & ->); [lia|].
  rewrite (proj2 (Nat.ltb_lt _ _)) by done.
  destruct (get_sqe_room s1 (mk_sqe (IOH_ENCODE_USERDATA (id (conn_at s1 i)) IOH_OP_SEND)
              (PSend (fd (conn_at s1 i)) (drop (o + Z.to_nat r) d))) 0) as [s2 E2].
  { apply roomy_room; [unfold roomy in *; by rewrite F1|done|lia]. }
  rewrite E2. apply get_sqe_shape in E2 as ->. match goal with |- context [upd_conn ?x i _] => set (s2 := x) end.
  assert (A2 : addressed s2 i) by by eapply addressed_pool.
  assert (C2 : conn_at (upd_conn s2 i (fun c => set_send c (send_buf c) (send_len c) (send_offset c) true)) i
               = set_send (conn_at s i) (Some d) (Z.of_nat (length d)) (Z.of_nat (o + Z.to_nat r)) true).
  { rewrite conn_at_upd by (by apply live_lt, A2). change (conn_at s2 i) with (conn_at s1 i). by rewrite C1. }
  split; [split; rewrite ?C2; try done; [by apply addressed_upd|apply Hs|apply last_send_snoc]|].
  rewrite C2. split; [done|]. split; [done|].
  intros Hinv. specialize (I1 Hinv). apply (so_inv 0 i s2). apply upd_conn_ok; [by destruct I1|apply A2|].
  intros (Hsz & Hb & _). split; [|split; [apply A2|done]]. split; [exact Hsz|]. split; [exact Hb|]. intros _.
  change (conn_at s2 i) with (conn_at s1 i). rewrite C1. exists d. cbn. split; [done|]. split; [done|]. lia.
Qed.

(** What follows a completed answer: the next request of the connection, or its end. *)
Definition follow_up (c : ioh_conn_t) (q : list sqe) : Prop :=
  if bool_decide (state c = IOH_CONN_TLS_HANDSHAKE) || (c_keep_alive c && bool_decide (state c = IOH_CONN_HTTP_ACTIVE))
  then exists off len linked, mk_sqe (IOH_ENCODE_USERDATA (id c) IOH_OP_RECV) (PRecv (fd c) off len linked) ∈ q
  else mk_sqe (IOH_ENCODE_USERDATA (id c) IOH_OP_CLOSE) (PClose (fd c)) ∈ q.

Lemma arm_recv_prepares s i :
  sq_room s 1 -> live s i ->
  (exists off len linked, mk_sqe (IOH_ENCODE_USERDATA (id (conn_at s i)) IOH_OP_RECV) (PRecv (fd (conn_at s i)) off len linked)
     ∈ sv_sq (fst (arm_recv s i)))
  /\ send_active (conn_at (fst (arm_recv s i)) i) = send_active (conn_at s i)
  /\ i < length (conns (sv_pool (fst (arm_recv s i)))).
Proof.
  intros Hroom Hl. pose proof (live_lt _ _ Hl) as Hi. unfold arm_recv. cbv zeta.
  match goal with |- context [get_sqe s ?e] => destruct (get_sqe_room s e 0 Hroom) as [s1 E1] end. rewrite E1. apply get_sqe_shape in E1 as ->.
  assert (Hin : forall (q : list sqe) e q', e ∈ q ++ e :: q') by (intros; set_solver).
  destruct (0 <? _)%Z; [|split; [eexists _, _, _; apply Hin|done]].
  destruct (get_sqe (with_sq s _) _) as [s2|] eqn:E2; [|split; [eexists _, _, _; apply Hin|done]].
  apply get_sqe_shape in E2 as ->. cbn [fst]. rewrite conn_at_upd by done. split; [|split; [done|]].
  - eexists _, _, _. cbn [sv_sq upd_conn with_pool with_sq]. rewrite <- app_assoc. apply Hin.
  - cbn. by rewrite length_insert.
Qed.

Lemma send_last d o s i r :
  sending d o s i -> (0 <= r)%Z -> o + Z.to_nat r = length d -> roomy s ->
  let s' := on_send (submit s []) (send_cqe s i r) in
  send_active (conn_at s' i) = false /\ follow_up (conn_at s i) (sv_sq s').
Proof.
  intros Hs Hr Heq Hroom. cbv zeta. destruct (on_send_offset d o s i r Hs Hr) as (s1 & A1 & Q1 & F1 & C1 & P1 & I1 & ->); [lia|].
  rewrite (proj2 (Nat.ltb_ge _ _)) by lia. cbv zeta. set (s2 := upd_conn s1 i (fun c => set_send c None 0 0 (send_active c))).
  assert (A2 : addressed s2 i) by by apply addressed_upd.
  assert (C2 : conn_at s2 i = set_send (conn_at s i) None 0 0 false).
  { unfold s2. rewrite conn_at_upd by (by apply live_lt, A1). by rewrite C1. }
  assert (R2 : sq_room s2 1).
  { apply roomy_room; [unfold roomy in *; change (sv_config s2) with (sv_config s1); by rewrite F1|done|lia]. }
  rewrite C1. cbn [state c_keep_alive set_send]. unfold follow_up. clearbody s2.
  case_bool_decide; cbn [orb].
  { destruct (arm_recv_prepares s2 i R2 (proj1 A2)) as (Hin & -> & _). rewrite C2 in *. done. }
  destruct (c_keep_alive (conn_at s i) && _).
  - set (s3 := upd_conn s2 i _). assert (A3 : addressed s3 i) by by apply addressed_upd.
    assert (C3 : conn_at s3 i = set_recv (set_timeout (conn_at s2 i) IOH_TIMEOUT_KEEPALIVE (timeout_ts (conn_at s2 i))) (recv_buf (conn_at s2 i)) 0).
    { unfold s3. by rewrite conn_at_upd by (by apply live_lt, A2). }
    destruct (arm_recv_prepares s3 i R2 (proj1 A3)) as (Hin & Hact & Hlt).
    rewrite conn_at_upd by done. cbn [send_active set_routes]. rewrite Hact, C3, C2 in *. done.
  - unfold arm_close. set (s3 := upd_conn s2 i _). assert (A3 : addressed s3 i) by by apply addressed_upd.
    assert (C3 : conn_at s3 i = set_tls (conn_at s2 i) None (tls_done (conn_at s2 i))).
    { unfold s3. by rewrite conn_at_upd by (by apply live_lt, A2). }
    match goal with |- context [get_sqe s3 ?e] => destruct (get_sqe_room s3 e 0 R2) as [s4 E4] end. rewrite E4. apply get_sqe_shape in E4 as ->.
    unfold transition. rewrite conn_at_upd by (by apply (live_lt s3), A3).
    match goal with |- context [default ?c (fst (ioh_conn_transition (Some ?c) ?x))] => destruct (transition_cases c x) as [-> | ->] end;
      change (conn_at (with_sq s3 _) i) with (conn_at s3 i); cbn [send_active set_state]; rewrite C3, C2;
      (split; [done|]); cbn [sv_sq upd_conn with_pool with_sq]; set_solver.
Qed.

(** After a kept answer the connection waits for the next request. *)
Lemma send_last_waits d o s i r b :
  sending d o s i -> (0 <= r)%Z -> o + Z.to_nat r = length d -> srv_inv s ->
  c_keep_alive (conn_at s i) = true -> state (conn_at s i) = IOH_CONN_HTTP_ACTIVE -> tls_ctx (conn_at s i) = None ->
  recv_buf (conn_at s i) = Some b ->
  let s' := on_send (submit s []) (send_cqe s i r) in waiting b [] s' i /\ app_part s' = app_part s.
Proof.
  intros Hs Hr Heq Hinv Hk Hst Ht Hb. cbv zeta. destruct (on_send_offset d o s i r Hs Hr) as (s1 & A1 & Q1 & F1 & C1 & P1 & I1 & ->); [lia|].
  rewrite (proj2 (Nat.ltb_ge _ _)) by lia. rewrite C1. cbn [state c_keep_alive set_send].
  rewrite Hk, Hst, bool_decide_eq_false_2, bool_decide_eq_true_2 by done. cbn [andb].
  specialize (I1 Hinv). set (s2 := upd_conn s1 i (fun c => set_send c None 0 0 (send_active c))).
  assert (A2 : addressed s2 i) by by apply addressed_upd.
  assert (C2 : conn_at s2 i = set_send (conn_at s i) None 0 0 false).
  { unfold s2. rewrite conn_at_upd by (by apply live_lt, A1). by rewrite C1. }
  assert (I2 : srv_inv s2).
  { apply (so_inv 0 i s1). apply upd_conn_ok; [done|apply A1|]. intros (Hsz & Hb0 & _). split; [|split; [apply A1|done]].
    split; [exact Hsz|]. split; [exact Hb0|]. rewrite C1. done. }
  set (s3 := upd_conn s2 i _).
  assert (A3 : addressed s3 i) by by apply addressed_upd.
  assert (C3 : conn_at s3 i = set_recv (set_timeout (conn_at s2 i) IOH_TIMEOUT_KEEPALIVE (timeout_ts (conn_at s2 i))) (recv_buf (conn_at s2 i)) 0).
  { unfold s3. by rewrite conn_at_upd by (by apply live_lt, A2). }
  assert (W3 : waiting b [] s3 i).
  { split; rewrite ?C3, ?C2; try done; [|by cbn [recv_part set_recv recv_buf recv_len set_timeout set_send]; unfold recv_part; cbn; rewrite Hb].
    apply (so_inv 0 i s2). apply upd_conn_ok; [done|apply A2|]. intros (Hsz & (b0 & Hb0 & Hl0 & Hc0) & Hsn). split; [|split; [apply A2|done]].
    split; [exact Hsz|]. split; [|exact Hsn]. exists b0. split; [exact Hb0|]. cbn. lia. }
  destruct (arm_recv_waiting _ _ _ _ W3) as [W4 P4]. split; [|by rewrite <- P1].
  apply waiting_upd; [exact W4|intros ?; by repeat split|done].
Qed.

Lemma sends_complete d o s i rs :
  sending d o s i -> Forall (fun r => (0 < r)%Z) rs ->
  (Z.of_nat o + foldr Z.add 0 rs = Z.of_nat (length d))%Z -> roomy s ->
  snd (transmit s i rs) = drop o d
  /\ send_active (conn_at (fst (transmit s i rs)) i) = false
  /\ follow_up (conn_at s i) (sv_sq (fst (transmit s i rs))).
Proof.
  revert o s. induction rs as [|r rs IH]; intros o s Hs Hpos Hsum Hroom.
  { simpl in Hsum. pose proof (sn_less _ _ _ _ Hs). lia. }
  apply Forall_cons in Hpos as [Hr Hpos]. cbn [transmit foldr] in *.
  assert (Hnn : (0 <= foldr Z.add 0 rs)%Z /\ (rs <> [] -> 0 < foldr Z.add 0 rs)%Z).
  { clear -Hpos. induction Hpos as [|r rs Hr Hpos IH]; [split; [simpl; lia|done]|]. simpl. lia. }
  rewrite (sn_last _ _ _ _ Hs). destruct rs as [|r' rs].
  - cbn [transmit fst snd foldr] in *. rewrite app_nil_r. split; [apply take_ge; rewrite length_drop; lia|].
    by apply (send_last d o); [done|lia|lia|].
  - destruct Hnn as [_ Hnn]. specialize (Hnn ltac:(done)).
    destruct (send_partial d o s i r Hs) as (Hs' & Hid & Hap & _); [lia|lia|done|]. cbv zeta in *.
    set (s' := on_send (submit s []) (send_cqe s i r)) in *. pose proof Hap as [= Hc _ _ _].
    destruct (IH (o + Z.to_nat r) s' Hs' Hpos) as (Hout & Hact & Hf); [lia|unfold roomy; by rewrite Hc|].
    destruct (transmit s' i (r' :: rs)) as [s2 out]. cbn [fst snd] in *. subst out. split; [|split; [done|]].
    + rewrite <- drop_drop. apply take_drop.
    + unfold follow_up in *. injection Hid as E1 E2 E3 E4 _ _. by rewrite E1, E2, E3, E4 in Hf.
Qed.

Lemma sends_wait d o s i rs b :
  sending d o s i -> Forall (fun r => (0 < r)%Z) rs ->
  (Z.of_nat o + foldr Z.add 0 rs = Z.of_nat (length d))%Z -> roomy s -> srv_inv s ->
  c_keep_alive (conn_at s i) = true -> state (conn_at s i) = IOH_CONN_HTTP_ACTIVE -> tls_ctx (conn_at s i) = None ->
  recv_buf (conn_at s i) = Some b ->
  waiting b [] (fst (transmit s i rs)) i /\ app_part (fst (transmit s i rs)) = app_part s.
Proof.
  revert o s. induction rs as [|r rs IH]; intros o s Hs Hpos Hsum Hroom Hi Hk Hst Ht Hb.
  { simpl in Hsum. pose proof (sn_less _ _ _ _ Hs). lia. }
  apply Forall_cons in Hpos as [Hr Hpos]. cbn [transmit foldr] in *.
  assert (Hnn : (0 <= foldr Z.add 0 rs)%Z /\ (rs <> [] -> 0 < foldr Z.add 0 rs)%Z).
  { clear -Hpos. induction Hpos as [|r rs Hr Hpos IH]; [split; [simpl; lia|done]|]. simpl. lia. }
  destruct rs as [|r' rs].
  - cbn [transmit fst foldr] in *. apply (send_last_waits d o); try done; lia.
  - destruct Hnn as [_ Hnn]. specialize (Hnn ltac:(done)).
    destruct (send_partial d o s i r Hs) as (Hs' & Hid & Hap & Hi'); [lia|lia|done|]. cbv zeta in *.
    set (s' := on_send (submit s []) (send_cqe s i r)) in *. pose proof Hap as [= Hc _ _ _]. injection Hid as E1 E2 E3 E4 E5 E6.
    destruct (IH (o + Z.to_nat r) s' Hs' Hpos) as [Hwt Hap']; try done; try congruence; [lia|by apply Hi'|].
    destruct (transmit s' i (r' :: rs)) as [s2 out]. cbn [fst] in *. split; [done|congruence].
Qed.

(** An answer goes out whole.  However the kernel cuts the sends of an answer
    (every completion acknowledges at least one byte and the last one the rest),
    the bytes that reach the wire are exactly the bytes of the answer that were still to be sent, in order, none
    twice and none missing; when the last one is acknowledged nothing is being sent
    any more and the next receive of the connection, or its close, is prepared. *)
Theorem partial_sends_complete d o s i rs :
  sending d o s i -> Forall (fun r => (0 < r)%Z) rs ->
  (Z.of_nat o + foldr Z.add 0 rs = Z.of_nat (length d))%Z -> roomy s ->
  snd (transmit s i rs) = drop o d
  /\ send_active (conn_at (fst (transmit s i rs)) i) = false
  /\ follow_up (conn_at s i) (sv_sq (fst (transmit s i rs))).
Proof. apply sends_complete. Qed.
End Sending.

(** ** Witnesses *)

#[local] Existing Instance toy_ssl.

(** A plain connection at descriptor 7, and a handler that echoes the body. *)
Definition echo_handler (c : ioh_ctx_t) : Z * ioh_ctx_t :=
  match ioh_response_set_body [] (c_resp c) (body (c_req c)) (body_len (c_req c)) with
  | Some (_, r, _) => (0%Z, with_resp c r)
  | None => ((-1)%Z, c)
  end.

Definition demo_http_conn : ioh_conn_t :=
  set_fd (set_state (set_recv_buf (set_id (blank_conn IOH_CONN_ACCEPTING) 1) [] IOH_CONN_RECV_BUF_SIZE) IOH_CONN_HTTP_ACTIVE) 7.

Definition demo_http : @ioh_server (ioh_radix_node_t handler_fn ioh_route_opts_t) unit unit unit unit :=
  mk_server (mk_server_config None 8080 2 16 100 30000 60000 8192 1048576 false)
    (mk_pool [demo_http_conn; blank_conn IOH_CONN_FREE] 2 1 2) None None (Some echo_handler)
    5 6 true true false false [] [] [] 0 [] [] [] [].

Definition demo_post : bytes :=
  bs "POST / HTTP/1.1" ++ [CR; LF] ++ bs "Host: x" ++ [CR; LF] ++ bs "Content-Length: 4" ++ [CR; LF; CR; LF] ++ bs "body".

Lemma demo_http_inv : srv_inv demo_http.
Proof.
  split; [split|..]; simpl; try done.
  - intros c Hc. apply elem_of_cons in Hc as [->|Hc]; [done|]. by apply list_elem_of_singleton in Hc as ->.
  - intros [|[|i]] c; simpl; intros [= <-]; [|done]. intros _. split; [done|]. split; [|done]. by exists [].
Qed.

Lemma demo_waiting : waiting [] [] demo_http 0.
Proof. split; [exact demo_http_inv|split; [done|split; [done|reflexivity]]|done..]. Qed.

Lemma request_split_independent_witness :
  exists s1, deliver false no_pton demo_http 0 [take 5 demo_post; slice demo_post 5 25; drop 30 demo_post] = Some s1
    /\ (send_buf (conn_at s1 0) ≫= fun b => Some (drop (length b - 4) b)) = Some (bs "body").
Proof.
  destruct (parse_buffer false (buffer [] demo_post) (length demo_post)) as [[n|e] req] eqn:Ep; [|vm_compute in Ep; discriminate Ep].
  destruct (request_split_independent false no_pton [] demo_post n req demo_http 0
              [take 5 demo_post; slice demo_post 5 25; drop 30 demo_post]) as [(s1 & s2 & E1 & E2 & Hr) _].
  - exact demo_waiting.
  - split; [exact Ep|..]; vm_compute in Ep; injection Ep as <- <-; vm_compute; done.
  - vm_compute. discriminate.
  - reflexivity.
  - repeat constructor; vm_compute; discriminate.
  - discriminate.
  - exists s1. split; [exact E1|].
    assert (Hv : (deliver false no_pton demo_http 0 [take 5 demo_post; slice demo_post 5 25; drop 30 demo_post]
                    ≫= fun s => send_buf (conn_at s 0) ≫= fun b => Some (drop (length b - 4) b)) = Some (bs "body"))
      by (vm_compute; reflexivity).
    rewrite E1 in Hv. exact Hv.
Defined.

(** The connection while the answer "abcdef" goes out. *)
Definition demo_sending : @ioh_server (ioh_radix_node_t handler_fn ioh_route_opts_t) unit unit unit unit :=
  fst (arm_send demo_http 0 (bs "abcdef")).

Lemma partial_sends_complete_witness :
  snd (transmit demo_sending 0 [2; 1; 3]%Z) = bs "abcdef"
  /\ send_active (conn_at (fst (transmit demo_sending 0 [2; 1; 3]%Z)) 0) = false.
Proof.
  destruct (partial_sends_complete (bs "abcdef") 0 demo_sending 0 [2; 1; 3]%Z) as (H1 & H2 & _).
  - split; [|vm_compute; reflexivity..|vm_compute; lia|vm_compute; reflexivity|vm_compute; reflexivity].
    split; [split; vm_compute; reflexivity|]. split; [vm_compute; split; [discriminate|reflexivity]|vm_compute; reflexivity].
  - repeat constructor.
  - reflexivity.
  - vm_compute. discriminate.
  - split; [exact H1|exact H2].
Defined.
