(* ===== verification/ServerEnd.v ===== *)
(** * From the request's bytes to the answer's bytes

    The components put together: what a client reads after it has sent a request, in
    terms of the route that matches it, the middleware and the handler.  The steps are
    those of [src/src/core/ioh_server.c] on a plain connection: the receives in pieces
    ([ServerRequest]), the parser ([Pico], [Http1]), the router ([Router]), the chain
    ([Middleware]), the serializer ([Http1]) and the sends; the client reads with the
    response parser ([PicoResponse]). *)
From S2P Require Import Prelude CString PathNorm Radix RadixThms Request RequestThms Router Loop Proxy Conn Tls Response ResponseThms Pico PicoThms PicoResponse Http1 Http1Thms Cookie Ctx Middleware Server ServerThms ServerRequest.
Local Open Scope nat_scope.

Section EndToEnd.
Context {Tab Ext Grp X S : Type}.
Context `{RT : RouteTable Tab handler_fn ioh_route_opts_t} `{W : WolfSSL X S}.
Context (simd : bool) (inet_pton : Z -> bytes -> option bytes).
Abbreviation server := (@ioh_server Tab Ext Grp X S).
Implicit Types (s : server).

(** ** The context a handler starts with *)

(** The request's identifier: the client's, as far as the C string at the header's value
    goes, or thirty-two random hex digits. *)
Definition id_text (rand : list Z) (req : ioh_request_t) : bytes :=
  match ioh_request_header req (bs "X-Request-Id") with
  | Some v => v
  | None =>
      let '(r1, rs) := xrand rand in
      let '(r2, rs) := xrand rs in
      let '(r3, rs) := xrand rs in
      let '(r4, rs) := xrand rs in
      print_hex8 r1 ++ print_hex8 r2 ++ print_hex8 r3 ++ print_hex8 r4
  end.

(** A 200 without a body that carries the request's identifier. *)
Definition first_response (v : bytes) : ioh_response_t := with_headers fresh_response [owned_header (bs "X-Request-Id") v].

Lemma set_id_header (c : ioh_ctx_t) v :
  c_resp c = fresh_response ->
  exists c', ioh_ctx_set_header [] c (Some (bs "X-Request-Id")) (Some v) = Some (Ok tt, c', [])
    /\ c_req c' = c_req c /\ c_resp c' = first_response v.
Proof.
  intros E. unfold ioh_ctx_set_header, ioh_response_set_header. rewrite E.
  change (r_headers fresh_response) with (@nil ioh_header_t). cbn [list_find]. unfold append_header, grow_headers.
  change (r_header_capacity fresh_response <=? Z.of_nat (length (r_headers fresh_response)))%Z with false. cbn [xalloc negb].
  change (negb (r_array fresh_response) || _) with false. cbn [respond_with]. eexists. split; [reflexivity|]. by split.
Qed.

Lemma ctx_set_req (c : ioh_ctx_t) key v : c_req (fst (ioh_ctx_set c key v)) = c_req c.
Proof. unfold ioh_ctx_set, ioh_ctx_set_with_destructor. repeat (brk; simpl); done. Qed.

Lemma sprintf_req req r text vs k ab p (c : ioh_ctx_t) h :
  ioh_ctx_sprintf (mk_ctx req r (mk_arena (Some 0) IOH_CTX_ARENA_DEFAULT 0 []) vs k ab) text [] = Some (Some p, c, h) -> c_req c = req.
Proof.
  unfold ioh_ctx_sprintf. destruct (ioh_ctx_alloc _ _ _) as [[[[q|] c0] h0]|] eqn:E; [|done..].
  assert (c_req c0 = req) by (revert E; unfold ioh_ctx_alloc, bump; repeat (brk; simpl); intros ?; by simplify_eq).
  destruct q; intros [= <- <- <-]; done.
Qed.

Lemma request_id_started s req (c : ioh_ctx_t) h :
  sv_heap s = [] -> ioh_ctx_init (Some req) (Some fresh_response) [] = (Ok c, h) ->
  exists s' c', request_id s c = Some (s', c') /\ c_req c' = req /\ c_resp c' = first_response (id_text (sv_rand s) req)
    /\ sv_router s' = sv_router s /\ sv_on_request s' = sv_on_request s /\ sv_pool s' = sv_pool s /\ sv_heap s' = [] /\ sv_sq s' = sv_sq s /\ sv_config s' = sv_config s.
Proof.
  intros Hh Hc. simpl in Hc. injection Hc as <- <-. unfold request_id, id_text. rewrite Hh. cbn [c_req].
  destruct (ioh_request_header req _) as [v|].
  - match goal with |- context [ioh_ctx_set_header [] ?c _ _] =>
      destruct (set_id_header c v) as (c' & -> & Hq & Hr); [by rewrite ctx_set_resp|] end.
    rewrite ctx_set_req in Hq. eexists _, _. split; [reflexivity|]. by split_and!.
  - destruct (xrand (sv_rand s)) as [r1 q1], (xrand q1) as [r2 q2], (xrand q2) as [r3 q3], (xrand q3) as [r4 q4].
    change (sv_heap (with_rand s q4)) with (sv_heap s). rewrite Hh.
    match goal with |- context [ioh_ctx_sprintf (mk_ctx ?a ?b _ ?d ?e ?f) ?t []] =>
      destruct (sprintf_fresh a b t d e f) as (p & c1 & E1 & Hc1); [by rewrite !length_app, !print_hex8_length|] end.
    rewrite E1. apply sprintf_req in E1.
    match goal with |- context [ioh_ctx_set_header [] ?c _ (Some ?v)] =>
      destruct (set_id_header c v) as (c' & -> & Hq & Hr); [by rewrite ctx_set_resp|] end.
    rewrite ctx_set_req in Hq. eexists _, _. split; [reflexivity|]. split_and!; by try congruence.
Qed.

(** ** The handler's answer *)

(** The request a handler sees: the parsed one, with its body and the path's parameters. *)
Definition full_request (old m : bytes) (n : nat) (req : ioh_request_t) : ioh_request_t :=
  if (0 <? content_length req)%Z then with_body req (drop n (buffer old m)) (content_length req) else req.


(** The connection's answer is [text] and nothing of it has been sent. *)
Record answering (text : bytes) (keep : bool) s (i : nat) : Prop := {
  an_sending : sending text 0 s i;
  an_keep : c_keep_alive (conn_at s i) = keep;
  an_state : state (conn_at s i) = IOH_CONN_HTTP_ACTIVE;
  an_plain : tls_ctx (conn_at s i) = None;
}.

(** What no request changes of the application. *)
Definition app_fixed s := (sv_config s, sv_router s, sv_on_request s).


(** A request is dispatched on a context with a fresh response, and what the application makes
    of it is sent. *)
Lemma dispatch_sends old m s i req :
  waiting old m s i -> sq_room s 2 ->
  exists a c, c_req c = req /\ c_resp c = first_response (id_text (sv_rand s) req) /\ waiting old m a i
    /\ app_fixed a = app_fixed s /\
    forall (b : server) rc c', route_request a i c = Some (b, rc, c') -> waiting old m b i -> sv_sq b = sv_sq a -> app_fixed b = app_fixed a ->
      response_ok (c_resp c') -> length (response_text (c_resp c')) ≤ RESP_BUF ->
      exists s', dispatch_request s i req = Some (s', rc)
        /\ answering (response_text (c_resp c')) (keep_alive (c_req c') && (r_status (c_resp c') <? 400)%Z) s' i
        /\ length (sv_sq s') = length (sv_sq s) + 1 /\ app_fixed s' = app_fixed s.
Proof.
  intros Hw Hroom. pose proof (si_heap _ (wt_inv _ _ _ _ Hw)) as Hh.
  unfold dispatch_request. rewrite Hh. change (ioh_response_init []) with (@Ok unit (), fresh_response, @nil bool). cbv iota beta.
  destruct (ioh_ctx_init (Some req) (Some fresh_response) []) as [[c0|e] h] eqn:Ec; [|done].
  assert (h = []) as -> by (simpl in Ec; congruence).
  destruct (request_id_started (with_heap s []) req c0 [] eq_refl Ec) as (a & c1 & Ea & Hq & Hr & Hrt & Hor & Hp & Hhp & Hsq & Hcf).
  assert (Wa : waiting old m a i) by (by apply (waiting_pool old m s)).
  assert (Fa : app_fixed a = app_fixed s) by (unfold app_fixed; rewrite Hcf, Hrt, Hor; done).
  exists a, c1. split_and!; try done. intros b rc c' Er Wb Qb Fb Hok Hfit. rewrite Ea, Er. pose proof Fb as [= Cb _ _].
  rewrite serialize_text, decide_True by (done || (unfold RESP_BUF; lia)). set (text := response_text (c_resp c')) in *.
  assert (Hpos : 0 < length text) by (unfold text; rewrite response_text_eq; simpl; lia).
  rewrite (proj2 (Nat.ltb_lt _ _) Hpos).
  assert (Rb : sq_room b 1) by (unfold sq_room in *; rewrite Qb, Cb, Hsq, Hcf; simpl; lia).
  destruct (arm_send_waiting _ _ _ _ text Wb Rb) as (Ok1 & C1 & Q1 & A1). cbv zeta in *.
  pose proof (A1 (wt_addr _ _ _ _ Wb)) as Ad.
  pose proof (arm_send_app _ _ _ _ text Wb Rb) as [= Cf Cr Co _].
  destruct (arm_send b i text) as [d rs]. cbn [fst snd] in *. subst rs.
  set (kp := keep_alive _ && _). set (t := upd_conn d i _).
  assert (Ct : conn_at t i = set_keep_alive (set_send (conn_at b i) (Some text) (Z.of_nat (length text)) 0 true) kp).
  { unfold t. rewrite conn_at_upd by (by apply live_lt, Ad). by rewrite C1. }
  assert (Hq' : sv_sq t = sv_sq d) by done. assert (Cf' : app_fixed t = app_fixed d) by done.
  assert (At : addressed t i) by (by apply addressed_upd). clearbody t.
  eexists. split; [reflexivity|]. split; [split; [split|..]; rewrite ?Ct; try done|].
  - unfold RESP_BUF in Hfit. lia.
  - rewrite Hq', Q1. apply last_send_snoc.
  - apply Wb.
  - apply Wb.
  - rewrite Hq', Q1, length_app, Qb, Hsq. split; [done|]. rewrite Cf', <- Fa, <- Fb. unfold app_fixed. congruence.
Qed.

(** ** Complete requests *)

Lemma recv_dispatches old m n req s i t rc :
  whole_request simd (sv_config s) old m n req -> waiting old m s i ->
  dispatch_request s i (full_request old m n req) = Some (t, rc) -> recv_part (conn_at t i) = recv_part (conn_at s i) ->
  forall text keep, answering text keep t i ->
  exists s', recv_http simd s i = Some s' /\ answering text keep s' i /\ received (conn_at s' i) = []
    /\ sv_sq s' = sv_sq t /\ app_fixed s' = app_fixed t /\ recv_buf (conn_at s' i) = Some (buffer old m) /\ (srv_inv t -> srv_inv s').
Proof.
  intros [Hparse Hlen Hhdr Hbody Hfits] Hw Ed Hrec text keep [Hs Hk Hst Htl].
  assert (Hf : content_length (full_request old m n req) = content_length req) by (unfold full_request; by destruct (0 <? _)%Z).
  pose proof (wt_recv _ _ _ _ Hw) as Hwr. rewrite Hwr in Hrec. injection Hwr as B1 L1. injection Hrec as B2 L2.
  unfold recv_http. rewrite B1, L1. cbn [default]. unfold Datatypes.id. rewrite Nat2Z.id, Hparse.
  rewrite (proj2 (Z.ltb_ge (sc_max_header_size _) _)) by lia. rewrite (proj2 (Z.ltb_ge (sc_max_body_size _) _)) by lia.
  replace ((0 <? content_length req)%Z && (Z.of_nat (length m) - Z.of_nat n <? content_length req)%Z) with false
    by (symmetry; apply andb_false_iff; right; apply Z.ltb_ge; lia).
  fold (full_request old m n req). rewrite Ed, Hf, Hlen.
  unfold consume_at, consume. rewrite L2, Z.sub_diag. replace (u64 0) with 0%Z by done. cbn [Z.ltb Z.compare].
  eexists. split; [reflexivity|]. pose proof Hs as [Had Hact Hb Hsl Hso Hless Hsm Hlast].
  assert (Ct : forall f, conn_at (upd_conn t i f) i = f (conn_at t i)) by (intros f; by rewrite conn_at_upd by (by apply live_lt, Had)).
  split; [|split; [unfold received; by rewrite Ct|split; [done|split; [done|split; [by rewrite Ct|]]]]].
  2:{ intros Hinv. apply (so_inv 0 i t). apply upd_conn_ok; [done|apply Had|]. intros (Hsz & (b0 & Hb0 & Hl0 & Hc0) & Hsn).
      split; [|split; [apply Had|done]]. split; [exact Hsz|]. split; [|exact Hsn]. exists b0. cbn. split; [exact Hb0|]. lia. }
  split; [split|..]; rewrite ?Ct; try done. by apply addressed_upd.
Qed.

(** What a client reads: a response of version 1.1 with the status, the status's text, the
    headers and the body of [r]. *)
Definition reads_as (wire : bytes) (mx : nat) (r : ioh_response_t) : Prop :=
  exists q k, phr_parse_response simd wire mx 0 = PDone q k (body_text r)
    /\ ps_minor_version q = 1%Z /\ ps_status q = r_status r /\ text wire (ps_msg q) = ioh_status_text (r_status r)
    /\ header_text wire <$> ps_headers q = (fun h => (Some (fst h), snd h)) <$> sent_headers r.

(** A response that a parser with room for [mx] headers can read and the server can send. *)
Record sendable (mx : nat) (r : ioh_response_t) : Prop := {
  sb_ok : response_ok r;
  sb_status : (100 <= r_status r <= 999)%Z;
  sb_headers : Forall (fun h => header_wf (h_name h, h_value h)) (r_headers r);
  sb_count : length (sent_headers r) ≤ mx;
  sb_fits : length (response_text r) ≤ RESP_BUF;
}.

(** The pieces [ps] of a request end in the answer of [c]: nothing is left of the request, and
    however the kernel cuts the sends, the bytes on the wire read as the response; then
    the connection is received from again, and waits for the next request, or is closed. *)
Definition answered_on_wire s (i : nat) (ps : list bytes) (mx : nat) (c : ioh_ctx_t) : Prop :=
  exists s', deliver simd inet_pton s i ps = Some s' /\ received (conn_at s' i) = []
    /\ forall rs, Forall (fun z => (0 < z)%Z) rs -> foldr Z.add 0%Z rs = send_len (conn_at s' i) ->
      reads_as (snd (transmit s' i rs)) mx (c_resp c)
      /\ let t := fst (transmit s' i rs) in
         if keep_alive (c_req c) && (r_status (c_resp c) <? 400)%Z
         then (exists off len linked, mk_sqe (IOH_ENCODE_USERDATA (id (conn_at s' i)) IOH_OP_RECV) (PRecv (fd (conn_at s' i)) off len linked) ∈ sv_sq t)
              /\ (exists old', waiting old' [] t i) /\ app_fixed t = app_fixed s
         else mk_sqe (IOH_ENCODE_USERDATA (id (conn_at s' i)) IOH_OP_CLOSE) (PClose (fd (conn_at s' i))) ∈ sv_sq t.

Lemma answering_wire s i t ps mx (c' : ioh_ctx_t) :
  deliver simd inet_pton s i ps = Some t -> received (conn_at t i) = [] -> roomy t -> sendable mx (c_resp c') ->
  answering (response_text (c_resp c')) (keep_alive (c_req c') && (r_status (c_resp c') <? 400)%Z) t i ->
  srv_inv t -> is_Some (recv_buf (conn_at t i)) -> app_fixed t = app_fixed s -> answered_on_wire s i ps mx c'.
Proof.
  intros Ed Hrec Hroom [Hok Hst Hh Hmx Hfit] [Hs Hk Hsta Htl] Hinv [b Hb] Hfx. exists t. split; [done|]. split; [done|]. intros rs Hpos Hsum.
  destruct (sends_complete (response_text (c_resp c')) 0 t i rs Hs Hpos) as (Hout & _ & Hfol).
  { rewrite Hsum, (sn_len _ _ _ _ Hs). lia. }
  { done. }
  rewrite drop_0 in Hout. split.
  - rewrite Hout. unfold reads_as. destruct (response_text_reads simd (c_resp c') mx [] Hok Hst Hh Hmx) as (q & j & H).
    rewrite !app_nil_r in H. by exists q, j.
  - cbv zeta. unfold follow_up in Hfol. rewrite Hk, Hsta in Hfol. rewrite bool_decide_eq_false_2, bool_decide_eq_true_2, andb_true_r in Hfol by done.
    destruct (keep_alive (c_req c') && _); [|exact Hfol]. split; [exact Hfol|].
    destruct (sends_wait (response_text (c_resp c')) 0 t i rs b) as [Hwt [= Hap1 Hap2 Hap3 _]]; try done.
    { rewrite Hsum, (sn_len _ _ _ _ Hs). lia. }
    split; [by exists b|]. rewrite <- Hfx. unfold app_fixed. congruence.
Qed.

Section Arrival.
Context (old m : bytes) (n : nat) (req : ioh_request_t) (s : server) (i : nat) (ps : list bytes) (mx : nat).
Context (Hw : waiting old [] s i) (Hwr : whole_request simd (sv_config s) old m n req)
  (Hm : concat ps = m) (Hne : Forall (fun p => p <> []) ps) (Hps : ps <> []) (Hroom : roomy s).

Lemma full_request_route : method (full_request old m n req) = method req /\ req_path (full_request old m n req) = req_path req
  /\ ioh_request_header (full_request old m n req) (bs "X-Request-Id") = ioh_request_header req (bs "X-Request-Id").
Proof. unfold full_request. by destruct (0 <? _)%Z. Qed.

(** A whole request, in pieces, is routed once; the application's answer goes on the wire. *)
Lemma request_routed :
  exists a c, c_req c = full_request old m n req /\ c_resp c = first_response (id_text (sv_rand s) (full_request old m n req))
    /\ waiting old m a i /\ app_fixed a = app_fixed s /\
    forall (b : server) rc c', route_request a i c = Some (b, rc, c') -> waiting old m b i -> sv_sq b = sv_sq a -> app_fixed b = app_fixed a ->
      sendable mx (c_resp c') -> answered_on_wire s i ps mx c'.
Proof.
  destruct (deliver_pieces simd inet_pton old m n req i ps s [] Hwr Hw Hm Hne Hps) as [(t & E1 & W1 & A1 & Q1) _].
  injection A1 as Ec Et Eo Ern. assert (R1 : sq_room t 2) by (apply roomy_room; [unfold roomy; by rewrite Ec|done|lia]).
  destruct (dispatch_sends old m t i (full_request old m n req)) as (a & c & Hq & Hr & Wa & Fa & Hgo);
    [done|done|]. rewrite Ern in Hr. assert (Ft : app_fixed t = app_fixed s) by (unfold app_fixed; congruence).
  exists a, c. split_and!; try congruence.
  intros b rc c' Er Wb Qb Fb Hsd. destruct (Hgo b rc c' Er Wb Qb Fb (sb_ok _ _ Hsd) (sb_fits _ _ Hsd)) as (u & Ed & Ha & Hsq & Hfu).
  destruct (dispatch_ok t i (full_request old m n req) (wt_inv _ _ _ _ W1) (proj1 (wt_addr _ _ _ _ W1))) as (u' & rc' & Ed' & Qu); [done|].
  rewrite Ed in Ed'. injection Ed' as <- <-.
  destruct (recv_dispatches old m n req t i u rc) with (text := response_text (c_resp c')) (keep := keep_alive (c_req c') && (r_status (c_resp c') <? 400)%Z)
    as (s' & E2 & Ha' & Hrv & Hsq' & Hf' & Hb' & Hi'); [by rewrite Ec|done|done|apply Qu|done|].
  apply (answering_wire s i s'); try done; [congruence| |exact (Hi' (so_inv _ _ _ _ (qo_step _ _ _ _ Qu)))|congruence].
  pose proof (eq_trans Hf' Hfu) as [= Hcf _ _]. unfold roomy. by rewrite Hcf, Ec.
Qed.


(** ** Requests without a route *)

(** The built-in refusal. *)
Definition refusal (v : bytes) (st : Z) (msg : bytes) : ioh_response_t :=
  let text := error_text st msg in
  mk_response st true [owned_header (bs "X-Request-Id") v; owned_header (bs "Content-Type") (bs "application/json")] 16
    (Some text) (Z.of_nat (length text)) 1024 false false.

Definition refusal_of (st : ioh_match_status_t) : Z * bytes :=
  match st with IOH_MATCH_METHOD_NOT_ALLOWED => (405%Z, bs "Method Not Allowed") | _ => (404%Z, bs "Not Found") end.

Lemma refusal_made v st : let '(code, msg) := refusal_of st in
  length (error_text code msg) < ERROR_BUF
  /\ ioh_respond_json [] (first_response v) code (Some (error_text code msg)) = Some (Ok tt, refusal v code msg, []).
Proof. destruct st; (split; [nle|vm_compute; reflexivity]). Qed.

Lemma route_refused (a : server) (c : ioh_ctx_t) r v :
  waiting old m a i -> sv_router a = Some r -> c_resp c = first_response v ->
  not_found_handler r = None -> method_not_allowed_handler r = None ->
  let mt := ioh_router_dispatch (Some r) (method (c_req c)) (req_path (c_req c)) in
  status mt <> IOH_MATCH_FOUND ->
  let '(code, msg) := refusal_of (status mt) in
  exists b, route_request a i c = Some (b, 0%Z, with_resp c (refusal v code msg)) /\ waiting old m b i /\ sv_sq b = sv_sq a /\ app_fixed b = app_fixed a.
Proof.
  intros Wa Er Hr Hnf Hna mt Hst. pose proof (refusal_made v (status mt)) as Hmade. destruct (refusal_of (status mt)) as [code msg] eqn:Ef.
  destruct Hmade as [Hlen Hmade].
  assert (He : error_answer a c code msg = Some (with_heap a [], 0%Z, with_resp c (refusal v code msg))).
  { unfold error_answer, ioh_ctx_error. rewrite (si_heap _ (wt_inv _ _ _ _ Wa)), (proj2 (Nat.leb_gt _ _) Hlen), Hr, Hmade. done. }
  exists (with_heap a []). split; [|split; [by apply (waiting_pool old m a)|done]].
  unfold route_request. rewrite Er. cbv zeta. fold mt. rewrite Hnf, Hna.
  destruct (status mt); try done; injection Ef as <- <-; destruct (opts mt); exact He.
Qed.

(** The identifier the server makes up is text for a header. *)
Definition id_byte (b : byte) : bool := negb (is_ctl b) && negb (blank b) && negb (b =b NUL).

Lemma hex_digit_byte d : (0 <= d < 16)%Z -> id_byte (hex_digit d) = true.
Proof.
  intros Hd. assert (Hall : Forall (fun k => id_byte (hex_digit (Z.of_nat k)) = true) (seq 0 16)) by bcompute.
  rewrite Forall_forall in Hall. specialize (Hall (Z.to_nat d)). rewrite Z2Nat.id in Hall by lia. apply Hall, elem_of_seq. lia.
Qed.

Lemma id_text_made rand q : ioh_request_header q (bs "X-Request-Id") = None ->
  length (id_text rand q) = 32 /\ Forall (fun b => id_byte b = true) (id_text rand q).
Proof.
  intros E. unfold id_text. rewrite E. destruct (xrand rand) as [r1 q1], (xrand q1) as [r2 q2], (xrand q2) as [r3 q3], (xrand q3) as [r4 q4].
  rewrite !length_app, !print_hex8_length. split; [done|].
  assert (Hx : forall z, Forall (fun b => id_byte b = true) (print_hex8 z)).
  { intros z. unfold print_hex8. rewrite Forall_fmap. apply Forall_true. intros k1. apply hex_digit_byte. by apply Z.mod_pos_bound. }
  by rewrite !Forall_app.
Qed.

Lemma id_byte_spec b : id_byte b = true -> is_ctl b = false /\ blank b = false /\ b <> NUL.
Proof.
  intros [[H1 H2]%andb_prop H3]%andb_prop. apply negb_true_iff in H1, H2, H3. split; [done|]. split; [done|]. intros ->. done.
Qed.

Lemma owned_id v : length v = 32 -> Forall (fun b => id_byte b = true) v ->
  owned_header (bs "X-Request-Id") v = mk_header (bs "X-Request-Id") 12 v 32.
Proof.
  intros Hlen Hv. assert (Hn : NUL ∉ v) by (intros Hin; rewrite Forall_forall in Hv; by destruct (id_byte_spec _ (Hv _ Hin)) as (_ & _ & ?)).
  assert (Hl : length v ≤ IOH_MAX_HEADER_SIZE) by (rewrite Hlen; nle). unfold owned_header.
  rewrite (strndup_whole v) by done. rewrite (strnlen_id v) by done. rewrite Hlen. reflexivity.
Qed.

Lemma refusal_sendable v st : 3 ≤ mx -> length v = 32 -> Forall (fun b => id_byte b = true) v ->
  let '(code, msg) := refusal_of st in sendable mx (refusal v code msg).
Proof.
  intros Hmx Hlen Hv.
  assert (Ho : owned_header (bs "X-Request-Id") v = mk_header (bs "X-Request-Id") 12 v 32).
  { by apply owned_id. }
  assert (Hat : forall j, j < 32 -> blank (char_at v j) = false).
  { intros j Hj. destruct (lookup_lt_is_Some_2 v j) as [b Hb]; [lia|]. unfold char_at. rewrite Hb. rewrite Forall_lookup in Hv. by apply id_byte_spec, (Hv j). }
  assert (Hwf : header_wf (bs "X-Request-Id", v)).
  { split; [done|]. split; [bcompute|]. split; [eapply Forall_impl; [exact Hv|]; intros b Hb; by apply id_byte_spec|].
    cbn [snd]. rewrite Hlen. split; apply Hat; lia. }
  assert (Hfit : let '(code, msg) := refusal_of st in length (response_text (refusal v code msg)) ≤ RESP_BUF).
  { clear -Hlen Ho. unfold refusal. rewrite Ho. clear Ho. do 32 (destruct v as [|? v]; [discriminate Hlen|]).
    destruct v; [|discriminate Hlen]. destruct st; cbn [refusal_of]; nle. }
  destruct st; (split; [split|..]; [reflexivity|repeat constructor; apply owned_header_owned|done|done|eexists; split; [reflexivity|split; [split; [discriminate|reflexivity]|done]]|
    split; discriminate|cbn [refusal r_headers]; rewrite Ho; apply Forall_cons; split; [exact Hwf|bcompute]|exact Hmx|exact Hfit]).
Qed.

Lemma refusal_headers v : length v = 32 -> Forall (fun b => id_byte b = true) v ->
  (fun h => (Some (fst h), snd h)) <$> sent_headers (refusal v 404 (bs "Not Found"))
  = [(Some (bs "X-Request-Id"), v); (Some (bs "Content-Type"), bs "application/json");
     (Some (bs "Content-Length"), print_dec (Z.of_nat (length (error_text 404 (bs "Not Found")))))].
Proof.
  intros Hlen Hv. unfold sent_headers, refusal. cbn [r_headers r_body_len r_chunked]. by rewrite owned_id.
Qed.

(** C10: a request for an unknown path gets a 404.  On a plain connection, in a server whose
    allocations succeed and whose submission queue has at least two places and is handed to
    the kernel before each completion, a whole request within the server's limits and without
    an X-Request-Id of its own arrives in any non-empty pieces; the router reports
    for its path that nothing is found ([IOH_MATCH_NOT_FOUND]) and the application has set neither a 404 nor a 405 handler.
    Then, however the kernel cuts the sends, a client with room for three headers reads
    the bytes on the wire as a 404 that carries the identifier the server made up, the
    content type application/json and the error's text as its body, to the last byte; nothing of the request is left, and the connection
    is closed after the answer. *)
Theorem unknown_path_not_found r :
  sv_router s = Some r -> not_found_handler r = None -> method_not_allowed_handler r = None ->
  status (ioh_router_dispatch (Some r) (method req) (req_path req)) = IOH_MATCH_NOT_FOUND ->
  ioh_request_header req (bs "X-Request-Id") = None -> 3 ≤ mx ->
  exists s', deliver simd inet_pton s i ps = Some s' /\ received (conn_at s' i) = []
    /\ forall rs, Forall (fun z => (0 < z)%Z) rs -> foldr Z.add 0%Z rs = send_len (conn_at s' i) ->
      (exists q k, phr_parse_response simd (snd (transmit s' i rs)) mx 0 = PDone q k (error_text 404 (bs "Not Found"))
         /\ ps_status q = 404%Z
         /\ header_text (snd (transmit s' i rs)) <$> ps_headers q
            = [(Some (bs "X-Request-Id"), id_text (sv_rand s) req); (Some (bs "Content-Type"), bs "application/json");
               (Some (bs "Content-Length"), print_dec (Z.of_nat (length (error_text 404 (bs "Not Found")))))])
      /\ mk_sqe (IOH_ENCODE_USERDATA (id (conn_at s' i)) IOH_OP_CLOSE) (PClose (fd (conn_at s' i))) ∈ sv_sq (fst (transmit s' i rs)).
Proof.
  intros Er Hnf Hna Hst Hid Hmx. destruct request_routed as (a & c & Hq & Hr & Wa & Fa & Hgo). pose proof Fa as [= _ Ra _]. destruct full_request_route as (Hf1 & Hf2 & Hf3).
  set (v := id_text _ _) in Hr. assert (Ev : v = id_text (sv_rand s) req) by (unfold v, id_text; by rewrite Hf3).
  destruct (id_text_made (sv_rand s) req Hid) as [Hlen Hb]. rewrite <- Ev in *.
  pose proof (route_refused a c r v Wa) as Hrt. cbv zeta in Hrt. rewrite Ra, Hq, Hf1, Hf2, Hst in Hrt. specialize (Hrt Er Hr Hnf Hna ltac:(done)). cbn [refusal_of] in Hrt.
  pose proof (refusal_sendable v IOH_MATCH_NOT_FOUND Hmx Hlen Hb) as Hsd. cbn [refusal_of] in Hsd.
  destruct Hrt as (b & Eb & Wb & Qb & Cb). destruct (Hgo b 0%Z _ Eb Wb Qb Cb Hsd) as (s' & Ed & Hrv & Hwire).
  exists s'. split; [done|]. split; [done|]. intros rs Hpos Hsum. destruct (Hwire rs Hpos Hsum) as [(q & k & E1 & _ & E2 & _ & E3) Hcl].
  cbn [c_resp with_resp refusal r_status Z.ltb Z.compare Pos.compare Pos.compare_cont] in Hcl. rewrite andb_false_r in Hcl. split; [|exact Hcl].
  exists q, k. split; [exact E1|]. split; [exact E2|]. rewrite E3. by apply refusal_headers.
Qed.
End Arrival.
End EndToEnd.

(** ** A witness *)

#[local] Existing Instance toy_ssl.

(** A route that echoes the body, inside a middleware that turns the answer into a 201. *)
Definition created_mw (c : ioh_ctx_t) : prog ioh_ctx_t :=
  CallNext c (fun rc c => Return rc (with_resp c (with_status (c_resp c) 201))).

Definition app_router : ioh_router (ioh_radix_node_t (ioh_ctx_t -> Z * ioh_ctx_t) ioh_route_opts_t)
                          (ioh_ctx_t -> Z * ioh_ctx_t) (ioh_ctx_t -> prog ioh_ctx_t) unit unit :=
  let r := fst (ioh_router_create []) in
  let r := fst (fst (ioh_router_post r (Some (bs "/notes/:id")) (Some echo_handler) [])) in
  default (mk_router [] [] 0 [] None None None) (fst (ioh_router_use r (Some created_mw))).

Definition demo_app : @ioh_server (ioh_radix_node_t (ioh_ctx_t -> Z * ioh_ctx_t) ioh_route_opts_t) unit unit unit unit :=
  ioh_server_set_router demo_http (Some app_router).



Lemma demo_app_waiting : waiting [] [] demo_app 0.
Proof. apply (waiting_pool [] [] demo_http); [exact demo_waiting|done|done]. Qed.


(** A path the application does not have. *)
Definition demo_get : bytes := bs "GET /files/7 HTTP/1.1" ++ [CR; LF] ++ bs "Host: x" ++ [CR; LF; CR; LF].

Lemma unknown_path_not_found_witness :
  exists s' q k, deliver false no_pton demo_app 0 [take 7 demo_get; drop 7 demo_get] = Some s'
    /\ phr_parse_response false (snd (transmit s' 0 [100; 60]%Z)) 8 0 = PDone q k (error_text 404 (bs "Not Found"))
    /\ ps_status q = 404%Z.
Proof.
  destruct (parse_buffer false (buffer [] demo_get) (length demo_get)) as [[n|e] req] eqn:Ep; [|vm_compute in Ep; discriminate Ep].
  assert (Hlen : (deliver false no_pton demo_app 0 [take 7 demo_get; drop 7 demo_get] ≫= fun s => Some (send_len (conn_at s 0))) = Some 160%Z)
    by (vm_compute; reflexivity).
  destruct (unknown_path_not_found false no_pton [] demo_get n req demo_app 0 [take 7 demo_get; drop 7 demo_get] 8) with (r := app_router)
    as (s' & Ed & _ & Hs).
  - exact demo_app_waiting.
  - split; [exact Ep|..]; vm_compute in Ep; injection Ep as <- <-; vm_compute; done.
  - reflexivity.
  - repeat constructor; vm_compute; discriminate.
  - discriminate.
  - vm_compute. discriminate.
  - reflexivity.
  - reflexivity.
  - reflexivity.
  - vm_compute in Ep. injection Ep as <- <-. vm_compute. reflexivity.
  - vm_compute in Ep. injection Ep as <- <-. vm_compute. reflexivity.
  - nle.
  - rewrite Ed in Hlen. injection Hlen as Hlen.
    destruct (Hs [100; 60]%Z) as [(q & k & E1 & E2 & _) _]; [repeat constructor|by rewrite Hlen|].
    exists s', q, k. split; [exact Ed|]. split; [exact E1|exact E2].
Defined.
