(* ===== verification/Memory.v ===== *)
(** * Ownership and release

    The functions that release whole structures, on a memory of addresses: what they read,
    in which order they free, and that a block is never freed twice nor read after it was
    freed.
    - [src/src/router/ioh_radix.c]: [ioh_radix_node_destroy], [ioh_radix_destroy];
    - [src/src/router/ioh_route_group.c]: [ioh_group_destroy], [group_destroy_wrapper];
    - [src/src/router/ioh_router.c]: [ioh_router_destroy];
    - [src/src/router/ioh_vhost.c]: [ioh_vhost_destroy];
    - [src/src/core/ioh_conn.c]: [ioh_conn_pool_destroy];
    - [src/src/tls/ioh_tls.c]: [ioh_tls_conn_destroy];
    - [src/src/http/ioh_quic.c]: [ioh_quic_conn_destroy].

    The other files have these structures as values; here only their pointers matter.  Reading or
    freeing an address without a block gives [None], and so does running out of fuel. *)
From stdpp Require Import gmap.
From S2P Require Import Prelude Radix Router.
Local Open Scope nat_scope.

(** ** Memory *)

Abbreviation addr := positive.

Inductive foreign := FSsl | FSslCtx | FQuic.

(** The blocks, with the fields that a release reads. *)
Inductive obj :=
| OBytes (b : bytes)
| OPtrs (l : list (option addr))
| ONode (prefix param_name children : option addr) (child_count : nat)
| OTree (root : option addr)
| OGroup (subgroups : option addr) (subgroup_count : nat)
| OEntries (l : list (option addr))                  (* a router's groups, each with [group_destroy_wrapper] *)
| ORouter (groups : option addr) (group_count : nat) (trees : list (option addr))
| OVhost
| OConns (l : list (option addr * option addr))      (* receive and send buffer of each slot *)
| OPool (conns : option addr) (max_conns : nat)
| OTls (ssl cipher_in_buf cipher_out_buf : option addr)
| OQuic (ngtcp2_conn ssl ssl_ctx out_buf : option addr)
| OForeign (k : foreign).                            (* an object of a library *)

Abbreviation mem := (gmap addr obj).

(** The null pointer may be freed. *)
Definition free (p : option addr) (m : mem) : option mem :=
  match p with
  | None => Some m
  | Some a => match m !! a with Some _ => Some (delete a m) | None => None end
  end.

(** [for (i = 0; ..; i++)] over the elements that [slot] reads: [Some None] when the
    condition fails. *)
Fixpoint each {E : Type} (fuel : nat) (slot : mem -> nat -> option (option E)) (release : E -> mem -> option mem)
    (i : nat) (m : mem) : option mem :=
  match fuel with
  | O => None
  | S fuel =>
      x ← slot m i;
      match x with
      | None => Some m
      | Some e => m ← release e m; each fuel slot release (S i) m
      end
  end.

(** [p[i]] for an array of pointers. *)
Definition ptr_at (p : option addr) (m : mem) (i : nat) : option (option addr) :=
  a ← p; o ← m !! a;
  match o with OPtrs l => l !! i | OEntries l => l !! i | _ => None end.

(** ** The radix tree *)

Definition child_slot (a : addr) (m : mem) (i : nat) : option (option (option addr)) :=
  o ← m !! a;
  match o with
  | ONode _ _ children n => if i <? n then Some <$> ptr_at children m i else Some None
  | _ => None
  end.

Fixpoint ioh_radix_node_destroy (fuel : nat) (node : option addr) (m : mem) : option mem :=
  match fuel with
  | O => None
  | S fuel =>
      match node with
      | None => Some m
      | Some a =>
          m ← each fuel (child_slot a) (ioh_radix_node_destroy fuel) 0 m;
          o ← m !! a;
          match o with
          | ONode prefix param_name children _ =>
              m ← free children m; m ← free prefix m; m ← free param_name m; free (Some a) m
          | _ => None
          end
      end
  end.

Definition ioh_radix_destroy (fuel : nat) (tree : option addr) (m : mem) : option mem :=
  match tree with
  | None => Some m
  | Some a =>
      o ← m !! a;
      match o with
      | OTree root => m ← ioh_radix_node_destroy fuel root m; free (Some a) m
      | _ => None
      end
  end.

(** ** Groups and the router *)

Definition subgroup_slot (a : addr) (m : mem) (i : nat) : option (option (option addr)) :=
  o ← m !! a;
  match o with
  | OGroup subgroups n => if i <? n then Some <$> ptr_at subgroups m i else Some None
  | _ => None
  end.

Fixpoint ioh_group_destroy (fuel : nat) (g : option addr) (m : mem) : option mem :=
  match fuel with
  | O => None
  | S fuel =>
      match g with
      | None => Some m
      | Some a =>
          m ← each fuel (subgroup_slot a) (ioh_group_destroy fuel) 0 m;
          o ← m !! a;
          match o with
          | OGroup subgroups _ => m ← free subgroups m; free (Some a) m
          | _ => None
          end
      end
  end.

Definition group_destroy_wrapper (fuel : nat) (ptr : option addr) (m : mem) : option mem := ioh_group_destroy fuel ptr m.

Definition group_slot (a : addr) (m : mem) (i : nat) : option (option (option addr)) :=
  o ← m !! a;
  match o with
  | ORouter groups n _ => if i <? n then Some <$> ptr_at groups m i else Some None
  | _ => None
  end.

Definition tree_slot (a : addr) (m : mem) (i : nat) : option (option (option addr)) :=
  if i <? ROUTER_METHOD_COUNT then
    o ← m !! a;
    match o with
    | ORouter _ _ trees => Some <$> trees !! i
    | _ => None
    end
  else Some None.

Definition ioh_router_destroy (fuel : nat) (router : option addr) (m : mem) : option mem :=
  match router with
  | None => Some m
  | Some a =>
      m ← each fuel (group_slot a) (group_destroy_wrapper fuel) 0 m;
      o ← m !! a;
      match o with
      | ORouter groups _ _ =>
          m ← free groups m;
          m ← each fuel (tree_slot a) (ioh_radix_destroy fuel) 0 m;
          free (Some a) m
      | _ => None
      end
  end.

Definition ioh_vhost_destroy (v : option addr) (m : mem) : option mem := free v m.

(** ** The connection pool *)

Definition conn_slot (a : addr) (m : mem) (i : nat) : option (option (option addr * option addr)) :=
  o ← m !! a;
  match o with
  | OPool conns n =>
      if i <? n then
        c ← conns; o ← m !! c;
        match o with OConns l => Some <$> l !! i | _ => None end
      else Some None
  | _ => None
  end.

Definition ioh_conn_pool_destroy (fuel : nat) (pool : option addr) (m : mem) : option mem :=
  match pool with
  | None => Some m
  | Some a =>
      m ← each fuel (conn_slot a) (fun c m => m ← free (fst c) m; free (snd c) m) 0 m;
      o ← m !! a;
      match o with
      | OPool conns _ => m ← free conns m; free (Some a) m
      | _ => None
      end
  end.

(** ** TLS and QUIC connections *)

(** The libraries' release functions, and what is documented of them: the object is released and no
    other. *)
Class Libraries := {
  lib_free : foreign -> addr -> mem -> option mem;
  lib_free_spec k a m : m !! a = Some (OForeign k) -> lib_free k a m = Some (delete a m);
}.

Section Libraries.
Context `{L : Libraries}.

Definition unless_null (k : foreign) (p : option addr) (m : mem) : option mem :=
  match p with Some a => lib_free k a m | None => Some m end.

Definition ioh_tls_conn_destroy (conn : option addr) (m : mem) : option mem :=
  match conn with
  | None => Some m
  | Some a =>
      o ← m !! a;
      match o with
      | OTls ssl inb outb => m ← unless_null FSsl ssl m; m ← free inb m; m ← free outb m; free (Some a) m
      | _ => None
      end
  end.

Definition ioh_quic_conn_destroy (conn : option addr) (m : mem) : option mem :=
  match conn with
  | None => Some m
  | Some a =>
      o ← m !! a;
      match o with
      | OQuic q ssl ctx outb =>
          m ← unless_null FQuic q m; m ← unless_null FSsl ssl m; m ← unless_null FSslCtx ctx m;
          m ← free outb m; free (Some a) m
      | _ => None
      end
  end.
End Libraries.

(** ** What a release is *)

Abbreviation block := (addr * obj)%type.

(** Different blocks, all of them in memory. *)
Definition holds (m : mem) (l : list block) : Prop := NoDup l.*1 /\ Forall (fun b => m !! b.1 = Some b.2) l.

(** The memory without some addresses. *)
Definition without (m : mem) (l : list addr) : mem := foldl (fun m a => delete a m) m l.

Lemma without_lookup m l a : without m l !! a = if decide (a ∈ l) then None else m !! a.
Proof.
  revert m. induction l as [|b l IH]; intros m; [done|]. cbn [without foldl]. fold (without (delete b m) l). rewrite IH.
  destruct (decide (a = b)) as [->|Hne]; [rewrite lookup_delete_eq; repeat case_decide; set_solver|].
  rewrite lookup_delete_ne by done. repeat case_decide; set_solver.
Qed.

Lemma without_app m l1 l2 : without m (l1 ++ l2) = without (without m l1) l2.
Proof. apply foldl_app. Qed.

Lemma holds_lookup m l a o : holds m l -> (a, o) ∈ l -> m !! a = Some o.
Proof. intros [_ H] Hb. rewrite Forall_forall in H. by apply (H (a, o)). Qed.

Lemma holds_app m l1 l2 : holds m (l1 ++ l2) -> holds (without m l1.*1) l2.
Proof.
  intros [Hn Hf]. rewrite fmap_app in Hn. apply NoDup_app in Hn as (_ & Hd & Hn). apply Forall_app in Hf as [_ Hf]. split; [done|].
  rewrite Forall_forall in *. intros b Hb. rewrite without_lookup, decide_False; [by apply Hf|].
  intros Hin. apply (Hd _ Hin). by apply list_elem_of_fmap_2.
Qed.

(** Where [K] and [D] are, and enough fuel, [f] takes away [K]. *)
Definition frees_with (f : nat -> mem -> option mem) (K D : list block) : Prop :=
  exists n, forall fuel m rest, n ≤ fuel -> holds m (K ++ D ++ rest) -> f fuel m = Some (without m K.*1).
Abbreviation frees f K := (frees_with f K []).

Lemma frees_weaken f K D : frees f K -> frees_with f K D.
Proof. intros [n H]. exists n. intros fuel m rest Hn Hh. by apply (H fuel m (D ++ rest)). Qed.

Lemma frees_seq f g K D D' :
  frees_with f K (D ++ D') -> frees_with g D D' -> frees_with (fun n m => m ← f n m; g n m) (K ++ D) D'.
Proof.
  intros [n1 H1] [n2 H2]. exists (n1 + n2). intros fuel m rest Hn Hh. rewrite <- app_assoc in Hh.
  rewrite (H1 fuel m rest) by (lia || by rewrite <- app_assoc). cbn [mbind option_bind].
  rewrite (H2 fuel _ rest) by (lia || by apply holds_app). by rewrite fmap_app, without_app.
Qed.

Lemma frees_nothing D : frees_with (fun _ m => Some m) [] D.
Proof. by exists 0. Qed.

Lemma frees_free a o D : frees_with (fun _ => free (Some a)) [(a, o)] D.
Proof.
  exists 0. intros fuel m rest _ Hh. unfold free. rewrite (holds_lookup _ _ a o Hh) by (by left). done.
Qed.

(** An optional block. *)
Definition at_ptr (x : option block) : list block := match x with Some b => [b] | None => [] end.
Definition ptr (x : option block) : option addr := fst <$> x.

Lemma frees_ptr x D : frees_with (fun _ => free (ptr x)) (at_ptr x) D.
Proof. destruct x as [[a o]|]; [apply frees_free|apply frees_nothing]. Qed.

(** Reading a block that is still there. *)
Lemma frees_read a o (k : obj -> nat -> mem -> option mem) K D :
  (a, o) ∈ K ++ D -> frees_with (k o) K D -> frees_with (fun n m => o ← m !! a; k o n m) K D.
Proof.
  intros Hin [n H]. exists n. intros fuel m rest Hn Hh.
  rewrite (holds_lookup _ _ a o Hh) by (rewrite app_assoc; apply elem_of_app; by left). by apply (H fuel m rest).
Qed.

Lemma frees_eq f g K D : (forall n m, f n m = g n m) -> frees_with g K D -> frees_with f K D.
Proof. intros E [n H]. exists n. intros. rewrite E. by eapply H. Qed.

(** One more step of fuel. *)
Lemma frees_step (f g : nat -> mem -> option mem) K D : (forall n m, f (S n) m = g n m) -> frees_with g K D -> frees_with f K D.
Proof. intros E [n H]. exists (S n). intros [|fuel] m rest Hn Hh; [lia|]. rewrite E. apply (H fuel m rest); [lia|done]. Qed.

(** A loop over elements that own their blocks, while the blocks [D] that it reads stay. *)
Lemma frees_each {E} slot (rel : nat -> E -> mem -> option mem) (es : list (E * list block)) D :
  Forall (fun x => frees (fun n => rel n (fst x)) (snd x)) es ->
  (forall m rest, holds m (D ++ rest) -> forall i, slot m i = Some (fst <$> es !! i)) ->
  frees_with (fun n => each n slot (rel n) 0) (concat (snd <$> es)) D.
Proof.
  intros Hes Hslot.
  assert (Hgo : forall es2 es1, es = es1 ++ es2 -> exists n, forall fl fuel m rest, n ≤ fl -> n ≤ fuel ->
            holds m (concat (snd <$> es2) ++ D ++ rest) ->
            each fl slot (rel fuel) (length es1) m = Some (without m (concat (snd <$> es2)).*1)).
  { induction es2 as [|[e l] es2 IH]; intros es1 E1.
    - exists 1. intros [|fl] fuel m rest Hl Hn Hh; [lia|]. cbn [each]. rewrite (Hslot m rest Hh).
      rewrite E1, app_nil_r, lookup_ge_None_2 by lia. done.
    - destruct (IH (es1 ++ [(e, l)])) as [n2 H2]; [by rewrite <- app_assoc|]. rewrite E1 in Hes.
      apply Forall_app in Hes as [_ [[n1 H1] _]%Forall_cons]. exists (S (n1 + n2)). intros [|fl] fuel m rest Hl Hn Hh; [lia|].
      cbn [fmap list_fmap concat snd] in *. rewrite <- app_assoc in Hh. cbn [each].
      assert (HD : forall i, slot m i = Some (fst <$> es !! i)).
      { apply (Hslot m rest). destruct Hh as [Hd Hf]. rewrite !fmap_app in Hd. apply NoDup_app in Hd as (_ & _ & Hd).
        apply NoDup_app in Hd as (_ & _ & Hd). rewrite <- fmap_app in Hd. apply Forall_app in Hf as [_ Hf]. apply Forall_app in Hf as [_ Hf]. by split. }
      rewrite HD, E1, lookup_app_r, Nat.sub_diag by lia. cbn [lookup list_lookup fmap option_fmap option_map fst mbind option_bind].
      cbn [fst snd] in H1. rewrite (H1 fuel m (concat (snd <$> es2) ++ D ++ rest)) by (lia || done). cbn [mbind option_bind].
      rewrite length_app in H2. cbn [length] in H2. replace (S (length es1)) with (length es1 + 1) by lia.
      rewrite (H2 fl fuel _ rest) by (lia || by apply holds_app). by rewrite fmap_app, without_app. }
  destruct (Hgo es []) as [n H]; [done|]. exists n. intros fuel m rest Hn Hh. by apply (H fuel fuel m rest).
Qed.

(** ** Structures in memory *)

(** A node with its own blocks and those of its children; the array of children is there
    when there are any, with [slack] unused slots. *)
Inductive ptrie := PNode (self pfx : addr) (text : bytes) (pname : option (addr * bytes)) (arr : addr) (slack : list (option addr)) (kids : list ptrie).
Inductive pgroup := PGroup (self arr : addr) (slack : list (option addr)) (kids : list pgroup).

Definition trie_at (t : ptrie) : addr := let '(PNode self _ _ _ _ _ _) := t in self.
Definition group_addr (g : pgroup) : addr := let '(PGroup self _ _ _) := g in self.

Definition array_of {A} (mk : list (option addr) -> obj) (self : A -> addr) (arr : addr) (slack : list (option addr)) (kids : list A) : option block :=
  match kids with [] => None | _ => Some (arr, mk ((Some ∘ self <$> kids) ++ slack)) end.

(** A structure's blocks, in the order in which they are freed. *)
Definition node_blocks (self pfx : addr) (text : bytes) (pname : option (addr * bytes)) (array : option block) (count : nat) : list block :=
  let nm := (fun x => (fst x, OBytes (snd x))) <$> pname in
  at_ptr array ++ (pfx, OBytes text) :: at_ptr nm ++ [(self, ONode (Some pfx) (ptr nm) (ptr array) count)].

Fixpoint trie_blocks (t : ptrie) : list block :=
  match t with
  | PNode self pfx text pname arr slack kids =>
      concat (trie_blocks <$> kids) ++ node_blocks self pfx text pname (array_of OPtrs trie_at arr slack kids) (length kids)
  end.

Fixpoint group_blocks (g : pgroup) : list block :=
  match g with
  | PGroup self arr slack kids =>
      let array := array_of OPtrs group_addr arr slack kids in
      concat (group_blocks <$> kids) ++ at_ptr array ++ [(self, OGroup (ptr array) (length kids))]
  end.

Lemma ptrie_rect' (P : ptrie -> Prop) :
  (forall self pfx text pname arr slack kids, Forall P kids -> P (PNode self pfx text pname arr slack kids)) -> forall t, P t.
Proof. intros H. fix go 1. intros [self pfx text pname arr slack kids]. apply H. induction kids; constructor; [apply go|assumption]. Qed.

Lemma pgroup_rect' (P : pgroup -> Prop) :
  (forall self arr slack kids, Forall P kids -> P (PGroup self arr slack kids)) -> forall g, P g.
Proof. intros H. fix go 1. intros [self arr slack kids]. apply H. induction kids; constructor; [apply go|assumption]. Qed.

(** An array of pointers, or of entries that start with one. *)
Definition array_kind (mk : list (option addr) -> obj) : Prop :=
  forall l i, match mk l with OPtrs l => l !! i | OEntries l => l !! i | _ => None end = l !! i.

(** An array's elements are read as long as it is there. *)
Lemma array_slots {A} mk (self : A -> addr) arr slack (kids : list A) m l :
  array_kind mk -> holds m l -> (forall b, array_of mk self arr slack kids = Some b -> b ∈ l) ->
  forall i, (if i <? length kids then Some <$> ptr_at (ptr (array_of mk self arr slack kids)) m i else Some None)
            = Some (Some ∘ self <$> kids !! i).
Proof.
  intros Hmk Hh Hin i. destruct (Nat.ltb_spec i (length kids)) as [Hi|Hi]; [|by rewrite lookup_ge_None_2].
  destruct kids as [|k kids]; [simpl in Hi; lia|]. cbn [array_of ptr fmap option_fmap option_map fst ptr_at mbind option_bind].
  rewrite (holds_lookup m l arr _ Hh (Hin _ eq_refl)). cbn [mbind option_bind]. rewrite Hmk.
  destruct (lookup_lt_is_Some_2 (k :: kids) i Hi) as [x Hx]. rewrite lookup_app_l by (by rewrite length_fmap). by rewrite list_lookup_fmap, Hx.
Qed.

Lemma in_left {A} (x : A) l l' : x ∈ l -> x ∈ l ++ l'.
Proof. intros H. apply elem_of_app. by left. Qed.

Ltac in_blocks := repeat (rewrite ?elem_of_app, ?elem_of_cons; simpl); tauto.

(** The loop over an array of owned elements. *)
Lemma frees_array {A} mk (self : A -> addr) blocks arr slack (kids : list A) slot rel D :
  array_kind mk -> Forall (fun k => frees (fun n => rel n (Some (self k))) (blocks k)) kids ->
  (forall b, array_of mk self arr slack kids = Some b -> b ∈ D) ->
  (forall m rest, holds m (D ++ rest) -> forall i,
     slot m i = if i <? length kids then Some <$> ptr_at (ptr (array_of mk self arr slack kids)) m i else Some None) ->
  frees_with (fun n => each n slot (rel n) 0) (concat (blocks <$> kids)) D.
Proof.
  intros Hmk Hk Ha Hs. replace (concat (blocks <$> kids)) with (concat (snd <$> ((fun k => (Some (self k), blocks k)) <$> kids)))
    by (by rewrite <- list_fmap_compose).
  apply frees_each; [by rewrite Forall_fmap|]. intros m rest Hh i. rewrite (Hs m rest Hh).
  rewrite (array_slots mk self arr slack kids m _ Hmk Hh), list_lookup_fmap; [by destruct (kids !! i)|]. intros b Hb. by apply in_left, Ha.
Qed.

(** With enough fuel every block of a trie, its nodes,
    their texts and their arrays of children, is freed once and read only before that, and
    nothing else is. *)
Lemma node_destroy_frees t : frees (fun n => ioh_radix_node_destroy n (Some (trie_at t))) (trie_blocks t).
Proof.
  induction t as [self pfx text pname arr slack kids IH] using ptrie_rect'. cbn [trie_at trie_blocks].
  set (array := array_of OPtrs trie_at arr slack kids). set (D := node_blocks self pfx text pname array (length kids)).
  eapply (frees_step _ (fun n m => m ← each n (child_slot self) (ioh_radix_node_destroy n) 0 m; _ n m)); [intros n m; reflexivity|].
  assert (Hself : (self, ONode (Some pfx) (ptr ((fun x => (fst x, OBytes (snd x))) <$> pname)) (ptr array) (length kids)) ∈ D)
    by (unfold D, node_blocks; in_blocks).
  apply (frees_seq (fun n => each n (child_slot self) (ioh_radix_node_destroy n) 0)).
  - rewrite app_nil_r. apply (frees_array OPtrs trie_at trie_blocks arr slack kids); [done|done| |].
    + intros b Hb. unfold D, node_blocks. fold array in Hb. rewrite Hb. in_blocks.
    + intros m rest Hh i. unfold child_slot. by rewrite (holds_lookup _ _ self _ Hh (in_left _ _ _ Hself)).
  - eapply (frees_read self _ (fun o n m => match o with ONode _ _ _ _ => _ | _ => None end)); [by apply in_left|]. cbn beta iota.
    unfold D, node_blocks. set (nm := _ <$> pname).
    apply (frees_seq (fun _ => free (ptr array)) _ (at_ptr array)); [apply frees_ptr|].
    apply (frees_seq (fun _ => free (Some pfx)) _ [(pfx, OBytes text)]); [apply frees_free|].
    apply (frees_seq (fun _ => free (ptr nm)) _ (at_ptr nm)); [apply frees_ptr|apply frees_free].
Qed.

Lemma group_destroy_frees g : frees (fun n => ioh_group_destroy n (Some (group_addr g))) (group_blocks g).
Proof.
  induction g as [self arr slack kids IH] using pgroup_rect'. cbn [group_addr group_blocks].
  set (array := array_of OPtrs group_addr arr slack kids). set (D := at_ptr array ++ _).
  eapply (frees_step _ (fun n m => m ← each n (subgroup_slot self) (ioh_group_destroy n) 0 m; _ n m)); [intros n m; reflexivity|].
  assert (Hself : (self, OGroup (ptr array) (length kids)) ∈ D) by (unfold D; in_blocks).
  apply (frees_seq (fun n => each n (subgroup_slot self) (ioh_group_destroy n) 0)).
  - rewrite app_nil_r. apply (frees_array OPtrs group_addr group_blocks arr slack kids); [done|done| |].
    + intros b Hb. unfold D. fold array in Hb. rewrite Hb. in_blocks.
    + intros m rest Hh i. unfold subgroup_slot. by rewrite (holds_lookup _ _ self _ Hh (in_left _ _ _ Hself)).
  - eapply (frees_read self _ (fun o n m => match o with OGroup _ _ => _ | _ => None end)); [by apply in_left|]. cbn beta iota.
    apply (frees_seq (fun _ => free (ptr array)) _ (at_ptr array)); [apply frees_ptr|apply frees_free].
Qed.

(** A tree is a block that points to its root. *)
Definition tree_blocks (x : option (addr * ptrie)) : list block :=
  match x with Some (a, t) => trie_blocks t ++ [(a, OTree (Some (trie_at t)))] | None => [] end.

Lemma radix_destroy_frees x : frees (fun n => ioh_radix_destroy n (fst <$> x)) (tree_blocks x).
Proof.
  destruct x as [[a t]|]; [|apply frees_nothing]. cbn [tree_blocks fmap option_fmap option_map fst ioh_radix_destroy].
  eapply (frees_read a (OTree (Some (trie_at t))) (fun o n m => match o with OTree _ => _ | _ => None end)); [in_blocks|]. cbn beta iota.
  apply (frees_seq (fun n => ioh_radix_node_destroy n (Some (trie_at t)))); [apply frees_weaken, node_destroy_frees|apply frees_free].
Qed.

(** The router: its groups, the array of them, and one tree or none per method. *)
Record prouter := mk_prouter {
  pr_self : addr;
  pr_entries : addr;
  pr_slack : list (option addr);
  pr_groups : list pgroup;
  pr_trees : list (option (addr * ptrie));
}.

Definition router_tail (r : prouter) : list block :=
  let array := array_of OEntries group_addr (pr_entries r) (pr_slack r) (pr_groups r) in
  at_ptr array ++ concat (tree_blocks <$> pr_trees r)
  ++ [(pr_self r, ORouter (ptr array) (length (pr_groups r)) (option_map fst <$> pr_trees r))].

Definition router_blocks (r : prouter) : list block := concat (group_blocks <$> pr_groups r) ++ router_tail r.

(** [m] without exactly the addresses of [l]. *)
Definition released (m m' : mem) (l : list block) : Prop := forall a, m' !! a = if decide (a ∈ l.*1) then None else m !! a.

Lemma frees_released f l m :
  frees f l -> holds m l -> exists n m', released m m' l /\ forall fuel, n ≤ fuel -> f fuel m = Some m'.
Proof.
  intros [n H] Hh. exists n, (without m l.*1). split; [intros a; apply without_lookup|]. intros fuel Hn.
  apply (H fuel m []); [done|by rewrite !app_nil_r].
Qed.

Lemma router_destroy_frees r :
  length (pr_trees r) = ROUTER_METHOD_COUNT -> frees (fun n => ioh_router_destroy n (Some (pr_self r))) (router_blocks r).
Proof.
  intros Hlen. destruct r as [self ents slack gs ts]. cbn [pr_self pr_trees] in *. unfold router_blocks, router_tail. cbn [pr_self pr_entries pr_slack pr_groups pr_trees].
  set (array := array_of OEntries group_addr ents slack gs). set (ob := ORouter (ptr array) (length gs) _). set (D := at_ptr array ++ _).
  assert (Hself : (self, ob) ∈ D) by (unfold D; in_blocks). unfold ioh_router_destroy.
  apply (frees_seq (fun n => each n (group_slot self) (group_destroy_wrapper n) 0)).
  - rewrite app_nil_r. apply (frees_array OEntries group_addr group_blocks ents slack gs); [done|..].
    + apply Forall_true. intros g. apply group_destroy_frees.
    + intros b Hb. unfold D. fold array in Hb. rewrite Hb. in_blocks.
    + intros m rest Hh i. unfold group_slot. by rewrite (holds_lookup _ _ self _ Hh (in_left _ _ _ Hself)).
  - eapply (frees_read self ob (fun o n m => match o with ORouter _ _ _ => _ | _ => None end)); [by apply in_left|]. cbn beta iota.
    apply (frees_seq (fun _ => free (ptr array)) _ (at_ptr array)); [apply frees_ptr|].
    apply (frees_seq (fun n => each n (tree_slot self) (ioh_radix_destroy n) 0)); [|apply frees_free]. rewrite app_nil_r.
    replace (concat (tree_blocks <$> ts)) with (concat (snd <$> ((fun x : option (addr * ptrie) => (option_map fst x, tree_blocks x)) <$> ts)))
      by (by rewrite <- list_fmap_compose).
    apply frees_each; [rewrite Forall_fmap; apply Forall_true; intros x; apply radix_destroy_frees|].
    intros m rest Hh i. unfold tree_slot. rewrite (holds_lookup _ _ self ob Hh) by (apply in_left; in_blocks).
    rewrite list_lookup_fmap, <- Hlen. cbn [mbind option_bind ob]. destruct (Nat.ltb_spec i (length ts)) as [Hi|Hi].
    + destruct (lookup_lt_is_Some_2 ts i Hi) as [x Hx]. by rewrite list_lookup_fmap, Hx.
    + by rewrite lookup_ge_None_2.
Qed.

(** The pool: the buffers of each slot, the slots and the pool. *)
Record ppool := mk_ppool { pp_self : addr; pp_conns : addr; pp_slots : list (option (addr * bytes) * option (addr * bytes)) }.

Definition buffer_block (x : option (addr * bytes)) : option block := (fun y => (fst y, OBytes (snd y))) <$> x.
Definition slot_ptrs (x : option (addr * bytes) * option (addr * bytes)) := (ptr (buffer_block (fst x)), ptr (buffer_block (snd x))).
Definition slot_blocks (x : option (addr * bytes) * option (addr * bytes)) : list block :=
  at_ptr (buffer_block (fst x)) ++ at_ptr (buffer_block (snd x)).

Definition pool_blocks (p : ppool) : list block :=
  concat (slot_blocks <$> pp_slots p)
  ++ [(pp_conns p, OConns (slot_ptrs <$> pp_slots p)); (pp_self p, OPool (Some (pp_conns p)) (length (pp_slots p)))].

Lemma pool_destroy_frees p : frees (fun n => ioh_conn_pool_destroy n (Some (pp_self p))) (pool_blocks p).
Proof.
  destruct p as [self cs sl]. unfold pool_blocks, ioh_conn_pool_destroy. cbn [pp_self pp_conns pp_slots]. set (D := [(cs, _); _]).
  assert (H1 : (cs, OConns (slot_ptrs <$> sl)) ∈ D /\ (self, OPool (Some cs) (length sl)) ∈ D) by (unfold D; split; in_blocks).
  destruct H1 as [H1 H2].
  apply (frees_seq (fun n => each n (conn_slot self) (fun c m => m ← free (fst c) m; free (snd c) m) 0)).
  - rewrite app_nil_r.
    replace (concat (slot_blocks <$> sl)) with (concat (snd <$> ((fun x => (slot_ptrs x, slot_blocks x)) <$> sl)))
      by (by rewrite <- list_fmap_compose).
    apply (frees_each _ (fun _ c m => m ← free (fst c) m; free (snd c) m)).
    + rewrite Forall_fmap. apply Forall_true. intros x. apply (frees_seq (fun _ => free _)); apply frees_ptr.
    + intros m rest Hh i. unfold conn_slot. rewrite (holds_lookup _ _ self _ Hh (in_left _ _ _ H2)). cbn [mbind option_bind].
      rewrite (holds_lookup _ _ cs _ Hh (in_left _ _ _ H1)). cbn [mbind option_bind]. rewrite !list_lookup_fmap.
      destruct (Nat.ltb_spec i (length sl)) as [Hi|Hi]; [|by rewrite lookup_ge_None_2].
      destruct (lookup_lt_is_Some_2 sl i Hi) as [x Hx]. by rewrite Hx.
  - eapply (frees_read self _ (fun o n m => match o with OPool _ _ => _ | _ => None end)); [by apply in_left|]. cbn beta iota.
    apply (frees_seq (fun _ => free (Some cs)) _ [_]); apply frees_free.
Qed.

(** ** Connections of the libraries *)

Section Release.
Context `{L : Libraries}.

Definition foreign_block (k : foreign) (x : option addr) : option block := (fun a => (a, OForeign k)) <$> x.

Lemma frees_foreign k x D : frees_with (fun _ => unless_null k x) (at_ptr (foreign_block k x)) D.
Proof.
  destruct x as [a|]; [|apply frees_nothing]. exists 0. intros fuel m rest _ Hh. cbn [unless_null].
  by rewrite lib_free_spec by (apply (holds_lookup _ _ a _ Hh); by left).
Qed.

Definition tls_blocks (self : addr) (ssl : option addr) (inb outb : option (addr * bytes)) : list block :=
  at_ptr (foreign_block FSsl ssl) ++ at_ptr (buffer_block inb) ++ at_ptr (buffer_block outb)
  ++ [(self, OTls ssl (ptr (buffer_block inb)) (ptr (buffer_block outb)))].

Definition quic_blocks (self : addr) (q ssl ctx : option addr) (outb : option (addr * bytes)) : list block :=
  at_ptr (foreign_block FQuic q) ++ at_ptr (foreign_block FSsl ssl) ++ at_ptr (foreign_block FSslCtx ctx) ++ at_ptr (buffer_block outb)
  ++ [(self, OQuic q ssl ctx (ptr (buffer_block outb)))].

Lemma tls_destroy_frees self ssl inb outb : frees (fun _ => ioh_tls_conn_destroy (Some self)) (tls_blocks self ssl inb outb).
Proof.
  unfold ioh_tls_conn_destroy. eapply (frees_read self _ (fun o n m => match o with OTls _ _ _ => _ | _ => None end)); [unfold tls_blocks; in_blocks|].
  cbn beta iota. apply (frees_seq (fun _ => unless_null FSsl ssl)); [apply frees_foreign|].
  apply (frees_seq (fun _ => free _) (fun _ m => m ← free _ m; free _ m)); [apply frees_ptr|].
  apply (frees_seq (fun _ => free _) (fun _ => free _)); [apply frees_ptr|apply frees_free].
Qed.

Lemma quic_destroy_frees self q ssl ctx outb : frees (fun _ => ioh_quic_conn_destroy (Some self)) (quic_blocks self q ssl ctx outb).
Proof.
  unfold ioh_quic_conn_destroy. eapply (frees_read self _ (fun o n m => match o with OQuic _ _ _ _ => _ | _ => None end)); [unfold quic_blocks; in_blocks|].
  cbn beta iota. apply (frees_seq (fun _ => unless_null FQuic q)); [apply frees_foreign|].
  apply (frees_seq (fun _ => unless_null FSsl ssl)); [apply frees_foreign|].
  apply (frees_seq (fun _ => unless_null FSslCtx ctx)); [apply frees_foreign|].
  apply (frees_seq (fun _ => free _) (fun _ => free _)); [apply frees_ptr|apply frees_free].
Qed.
End Release.

(** ** Every trie has a layout *)

Section Layout.
Context {H M : Type}.
Abbreviation node := (ioh_radix_node_t H M).

(** [p] is [t] in memory. *)
Fixpoint lays_out (p : ptrie) (t : node) : Prop :=
  match p with
  | PNode _ _ text pname _ _ kids =>
      text = prefix t /\ snd <$> pname = param_name t
      /\ (fix go (ps : list ptrie) (ts : list node) : Prop :=
            match ps, ts with [], [] => True | p :: ps, t :: ts => lays_out p t /\ go ps ts | _, _ => False end) kids (children t)
  end.

(** The blocks of a trie from the address [a] on, and the next free address. *)
Fixpoint place (a : addr) (t : node) : ptrie * addr :=
  match t with
  | mk_node pfx _ pn _ _ _ kids _ _ =>
      let '(ks, a) := (fix go (a : addr) (l : list node) : list ptrie * addr :=
        match l with
        | [] => ([], a)
        | t :: l => let '(k, a) := place a t in let '(ks, a) := go a l in (k :: ks, a)
        end) a kids in
      (PNode a (a + 1)%positive pfx (pair (a + 2)%positive <$> pn) (a + 3)%positive [] ks, (a + 4)%positive)
  end.

Definition lay_list : list ptrie -> list node -> Prop :=
  fix go (ps : list ptrie) (ts : list node) : Prop :=
    match ps, ts with [], [] => True | p :: ps, t :: ts => lays_out p t /\ go ps ts | _, _ => False end.

Definition place_list : addr -> list node -> list ptrie * addr :=
  fix go (a : addr) (l : list node) : list ptrie * addr :=
    match l with
    | [] => ([], a)
    | t :: l => let '(k, a) := place a t in let '(ks, a) := go a l in (k :: ks, a)
    end.

(** Different addresses between [a] and [b]. *)
Definition within (a b : addr) (l : list block) : Prop := NoDup l.*1 /\ Forall (fun x => (a <= x.1 < b)%positive) l.

Lemma within_app a b c l1 l2 : within a b l1 -> within b c l2 -> (a <= b <= c)%positive -> within a c (l1 ++ l2).
Proof.
  intros [N1 F1] [N2 F2] Hle. split.
  - rewrite fmap_app. apply NoDup_app. split; [done|]. split; [|done]. intros x H1 H2.
    apply list_elem_of_fmap in H1 as (y1 & -> & H1), H2 as (y2 & E & H2). rewrite Forall_forall in F1, F2. apply F1 in H1. apply F2 in H2. cbn beta in *. lia.
  - apply Forall_app. split; [eapply Forall_impl; [exact F1|]|eapply Forall_impl; [exact F2|]]; simpl; intros; lia.
Qed.

Lemma node_ind_kids (P : node -> Prop) : (forall t, Forall P (children t) -> P t) -> forall t, P t.
Proof. intros Hs. fix go 1. intros [pfx ty pn hd md mt kids cp pr]. apply Hs. cbn [children]. induction kids; constructor; [apply go|assumption]. Qed.

Lemma place_ok t : forall a, let '(p, b) := place a t in lays_out p t /\ (a <= b)%positive /\ within a b (trie_blocks p).
Proof.
  induction t as [t IH] using node_ind_kids. destruct t as [pfx ty pn hd md mt kids cp pr]. intros a. cbn [place children] in *.
  fold place_list.
  assert (Hk : let '(ks, b) := place_list a kids in
               lay_list ks kids /\ (a <= b)%positive /\ within a b (concat (trie_blocks <$> ks))).
  { clear -IH. revert a. induction IH as [|t kids Ht IH IHl]; intros a; [cbn; split; [done|]; split; [lia|]; split; constructor|].
    cbn [place_list]. specialize (Ht a). destruct (place a t) as [k b]. destruct Ht as (L1 & B1 & W1).
    specialize (IHl b). fold place_list. destruct (place_list b kids) as [ks c]. destruct IHl as (L2 & B2 & W2).
    split; [done|]. split; [lia|]. cbn [fmap list_fmap concat]. eapply within_app; [exact W1|exact W2|lia]. }
  destruct (place_list a kids) as [ks b]. destruct Hk as (Lk & Bk & Wk). split; [cbn [lays_out prefix param_name children]|].
  { split; [done|]. split; [|done]. by destruct pn. }
  split; [lia|]. cbn [trie_blocks]. eapply within_app; [exact Wk| |lia]. unfold node_blocks.
  split; destruct pn, ks; cbn; repeat constructor; cbn; try lia; rewrite ?elem_of_cons, ?elem_of_nil; lia || (intros []; lia).
Qed.

Lemma every_trie_laid_out (t : node) : exists p m, lays_out p t /\ holds m (trie_blocks p).
Proof.
  pose proof (place_ok t 1) as Hp. destruct (place 1 t) as [p b]. destruct Hp as (Hl & _ & Hn & _).
  exists p, (list_to_map (trie_blocks p)). split; [done|]. split; [done|]. apply Forall_forall. intros [x o] Hx. by apply elem_of_list_to_map_1.
Qed.
End Layout.

(** ** The property *)

(** C34: releases are exact.  Where memory holds a router's blocks (its groups and their subgroups, the arrays of them,
    the nine tries with their nodes, texts and arrays), a connection pool's, a TLS connection's or a QUIC
    connection's, all at different addresses, destroying the structure ends, frees each of
    its blocks exactly once, reads no block after freeing it, and leaves the rest of the
    memory, whatever it holds, as it was; a null pointer is left alone.  Every trie the router can hold
    has such blocks. *)
Theorem destroy_releases_exactly `{L : Libraries} (m : mem) :
  (forall r, length (pr_trees r) = ROUTER_METHOD_COUNT -> holds m (router_blocks r) ->
     exists n m', released m m' (router_blocks r) /\ forall fuel, n ≤ fuel -> ioh_router_destroy fuel (Some (pr_self r)) m = Some m')
  /\ (forall p, holds m (pool_blocks p) ->
     exists n m', released m m' (pool_blocks p) /\ forall fuel, n ≤ fuel -> ioh_conn_pool_destroy fuel (Some (pp_self p)) m = Some m')
  /\ (forall self ssl inb outb, holds m (tls_blocks self ssl inb outb) ->
     exists m', released m m' (tls_blocks self ssl inb outb) /\ ioh_tls_conn_destroy (Some self) m = Some m')
  /\ (forall self q ssl ctx outb, holds m (quic_blocks self q ssl ctx outb) ->
     exists m', released m m' (quic_blocks self q ssl ctx outb) /\ ioh_quic_conn_destroy (Some self) m = Some m')
  /\ (forall fuel, ioh_router_destroy fuel None m = Some m /\ ioh_conn_pool_destroy fuel None m = Some m
        /\ ioh_tls_conn_destroy None m = Some m /\ ioh_quic_conn_destroy None m = Some m)
  /\ (forall (H M : Type) (t : ioh_radix_node_t H M), exists p m, lays_out p t /\ holds m (trie_blocks p)).
Proof.
  split; [|split; [|split; [|split; [|split; [done|intros; apply every_trie_laid_out]]]]].
  - intros r Hlen Hh. exact (frees_released _ _ _ (router_destroy_frees r Hlen) Hh).
  - intros p Hh. exact (frees_released _ _ _ (pool_destroy_frees p) Hh).
  - intros self ssl inb outb Hh. destruct (frees_released _ _ _ (tls_destroy_frees self ssl inb outb) Hh) as (n & m' & Hr & E).
    exists m'. split; [exact Hr|exact (E n (le_n n))].
  - intros self q ssl ctx outb Hh. destruct (frees_released _ _ _ (quic_destroy_frees self q ssl ctx outb) Hh) as (n & m' & Hr & E).
    exists m'. split; [exact Hr|exact (E n (le_n n))].
Qed.

Definition toy_free (k : foreign) (a : addr) (m : mem) : option mem :=
  match m !! a with Some (OForeign _) => Some (delete a m) | _ => None end.

Lemma toy_free_spec k a m : m !! a = Some (OForeign k) -> toy_free k a m = Some (delete a m).
Proof. intros E. unfold toy_free. by rewrite E. Qed.

#[local] Instance toy_libraries : Libraries := Build_Libraries toy_free toy_free_spec.

(** A router with a group, its subgroup, and one tree of two nodes; and another block. *)
Definition demo_prouter : prouter :=
  mk_prouter 1 2 [None] [PGroup 3 4 [] [PGroup 5 6 [] []]]
    (Some (7%positive, PNode 8 9 [] None 10 [None] [PNode 11 12 (bs "a") (Some (13%positive, bs "id")) 14 [] []]) :: replicate 8 None).

Definition demo_mem : mem := list_to_map (router_blocks demo_prouter ++ [(20%positive, OVhost)]).

Lemma destroy_releases_exactly_witness :
  exists n m', m' = {[20%positive := OVhost]} /\ forall fuel, n ≤ fuel -> ioh_router_destroy fuel (Some 1%positive) demo_mem = Some m'.
Proof.
  destruct (destroy_releases_exactly demo_mem) as [Hr _].
  destruct (Hr demo_prouter) as (n & m' & Hrel & E).
  - reflexivity.
  - split; [bcompute|repeat constructor].
  - exists n, m'. split; [|exact E]. apply map_eq. intros a. rewrite (Hrel a).
    destruct (decide (a ∈ (router_blocks demo_prouter).*1)) as [Hin|Hin].
    + symmetry. apply lookup_singleton_None. intros <-. revert Hin. apply (bool_decide_unpack _). vm_compute. exact I.
    + destruct (decide (a = 20%positive)) as [->|Hne]; [reflexivity|]. rewrite lookup_singleton_ne by (by apply not_eq_sym).
      apply not_elem_of_list_to_map_1. rewrite fmap_app, elem_of_app. intros [?|Hx]; [done|]. by apply list_elem_of_singleton in Hx.
Defined.
